(* ===== verification/_CoqProject ===== *)
-Q . S2P
Prelude.v
World.v
Outputs.v
Json.v
Lww.v
CivilTime.v
EventModel.v
EventValidation.v
Chat.v
Notification.v
NotificationTheorems.v
Session.v
SessionTheorems.v
Schema.v
Records.v
Pending.v
CatchUp.v
ReadState.v
SquadCatalog.v
CatchUpCommands.v
Reminders.v
EvmRead.v
AccessControl.v
SquadGovReplica.v
FileNames.v
VirtualBucket.v
Announce.v
SquadInfra.v
WarGame.v
Stickers.v
Roster.v
Allowlist.v
JoinInbox.v
SideEffects.v
Profiles.v
ProfileSync.v
DashboardPoll.v
StoredEvents.v
MessageViews.v
MessageFacts.v
EvmFacts.v
AnnounceFacts.v
WriteLocks.v
ContentPolicy.v
SquadEvent.v
SquadEventCommands.v
EventSpec.v
EventRefines.v
EventSteps.v
EventConverge.v
EventQueue.v
EventOwn.v
Toy.v
ProfileTheorems.v
MessageTheorems.v
RemindersTheorems.v
CatchUpTheorems.v
ReadStateTheorems.v
SquadCatalogTheorems.v
AccessTheorems.v
GovReplicaTheorems.v
SideEffectTheorems.v
RosterTheorems.v
WarGameTheorems.v
JoinInboxTheorems.v
InfraTheorems.v
EventTheorems.v
EventGuarantees.v
ChatTheorems.v
PolicyTheorems.v
UrlSecrets.v
UrlTheorems.v
DocModel.v
SquadDoc.v
DocSpec.v
Rumors.v
DocHistory.v
DocTheorems.v
RumorTheorems.v
PollTheorems.v
