(* ===== verification/Prelude.v ===== *)
(** * Pacto: verification library (root file)

    Pacto is a Tauri application: a Rust back end ([src/src-tauri/src/]) that
    keeps encrypted group chats ("squads") over Nostr and MLS, replicates their
    records between members, and serves a webview. This library translates the
    parts of the back end that carry its own logic and proves what makes them
    correct. Names follow the source. This file also holds the vocabulary the
    other files share (below the header).

    ** The program, and where each part is modelled

    A rumor (a decrypted message) is classified ([rumor.rs]: [Rumors]) and handed to
    the part its kind belongs to; a part checks the wire, the sender's role and the stamp,
    writes SQLite rows, and emits events and cards to the webview. Commands of the
    webview build a wire, publish it to the group and apply it through the same
    path. So two replicas see the same operations in different orders, with
    arbitrary failures between two statements.

    - Squad events ([squad_event.rs]): [EventModel] (types, wires, validation,
      forms, cards), [SquadEvent] (replica: [apply_op], the queue of operations
      that precede their create, the drain, the listing), [SquadEventCommands]
      ([process_rumor] and the commands). [Pending] has the statements on the queue
      tables, shared with the docs. [CivilTime] is [squad_event_time.rs].
    - Squad docs ([squad_doc.rs]): [DocModel], [SquadDoc]; the masked form of a
      link is [UrlSecrets] ([url_secrets.rs]).
    - Content policy ([squad_content_policy.rs]): [ContentPolicy]. Polls of a squad's
      dashboard ([dashboard_poll.rs]): [DashboardPoll].
    - Rumors of every kind ([rumor.rs]): [Rumors]; the names and extensions of the
      files they carry ([message.rs], the extension table): [FileNames].
    - Roles, the parent of a rumor, connections and guards ([squad_records.rs],
      [db/squad.rs], [db/mls.rs], [migration.rs], [account_manager.rs]): [Records].
    - Reminders ([squad_event_reminders.rs], the reminder half of
      [notification/emit.rs]): [Reminders]; Catch up ([catch_up.rs]): [CatchUp] and
      [CatchUpCommands].
    - Chats in memory ([chat.rs], [message.rs], [lib.rs]): [Chat]; read marks,
      unread counts and the chat row ([chat.rs], [cmds/chat.rs], [db/messaging.rs]):
      [ReadState].
    - Stored messages ([stored_event.rs], [db/ids.rs], [db/messaging.rs], the loading
      commands of [cmds/chat.rs]): [StoredEvents] (the [events] table, integer ids and
      their caches, every statement on them), [MessageViews] (which edits count, how live
      messages get them, replies, the messages a page shows). [Schema.MsgStore] keeps
      [events] as a list in rowid order and the ids as maps with their AUTOINCREMENT
      counters.
    - Profiles ([profile.rs], the profile rows and settings of [db/accounts.rs], the lookups
      of [lib.rs]): [Profiles]. A wait for relays is a point where the other tasks act on the
      state ([meanwhile]). The queue that keeps profiles fresh, its background loop, and what
      login and logout do to both ([profile_sync.rs], [cmds/profile_sync.rs],
      [cmds/auth.rs]): [ProfileSync].
    - Notifications ([notification/severity.rs], [emit.rs], [coalesce.rs]):
      [Notification]. Session key and idle lock ([session.rs]): [Session].
    - Squad catalog ([squad_catalog.rs], [join_inbox.rs]): [SquadCatalog].
    - Access control ([evm/access_control/]): [AccessControl], its locks
      ([write_serialize.rs]): [WriteLocks]. It reads the addresses,
      address book, networks and registry through [EvmRead] ([evm/rpc/address.rs],
      [pacto_chain_config.rs], [gov_read.rs], [nave_pirata_read.rs],
      [sponsor_userop.rs]). Governance snapshots ([squad_gov_replica.rs]):
      [SquadGovReplica]. Fee ledgers ([db/sponsored_fees.rs]): the same file.
      Virtual channels ([virtual_channel_bucket.rs]): [VirtualBucket].
    - Announcements ([db/squad.rs]). A message of a squad's announcements group is also
      a change of one of the squad's tables. [Announce] has what the readers share (type,
      parent, member) and Rust's byte slices, [SideEffects] the dispatch of a message to
      the readers and the replay of stored ones. The readers, with the tables' commands:
      [SquadInfra] (governance stacks, sponsors, Safes), [WarGame] (the payload of the
      war-game stack, merged by round), [Stickers] (sticker packs), [Roster] (who uses
      which address, with the certificates of [evm/roster_bind_cert.rs]), [Allowlist]
      (contracts and tokens, and the allowed contracts of [evm/pacto_chain_config.rs]),
      [JoinInbox] ([join_inbox.rs]: the shared key, its epochs and holders).

    [Schema] has the tables (one [gmap] from the primary key per table), the
    process globals ([CURRENT_ACCOUNT], [STATE], the signer) and the outputs.

    ** How code becomes definitions

    [World] has the effects. A [Result]-returning function is a computation in
    [M]: it sees the database and the log of outputs ([Obs]), a list of input
    readings and a list of faults. Every SQL statement, lock of a connection,
    network send and engine call takes the next fault: [Some e] makes it fail with
    the error text [e], before it has any effect. An [unchecked_transaction] rolls
    the tables back on an error, an early return or a failed commit. The input list
    serves the clock and, in the order the code asks, the random bits of entry ids,
    the answers about the window's focus, whether a file exists, the view (block
    and provider) a contract read meets, the nanoseconds in ids, and the random bits of
    keys and nonces. Nothing is assumed of either list, so
    a statement about all worlds is about all failures and all clocks.
    [dwp] is what holds of every run, [lwp] what holds of a run without failures
    (there the call returns [Ok], so it is total correctness). A panic is the error of
    the text [PANIC]: [let _ = f(..)] drops every other error and passes this one on.
    [dwp] with the relation of a step is [keeps], shown statement by statement by
    [keeps_tac].

    [Notification], [Session], [WriteLocks] and [ProfileSync] are concurrent: a state holds the tasks, each
    standing between two sections of its code that hold the lock, and an execution
    is a list of actions, an arrival or one section of one task ([ProfileSync] has it as a
    relation, [sync_step]). A theorem about all lists is about all interleavings.
    Aborting a task ends it where it waits; a scan of [Session] that is being polled goes
    on to its next await. The commands of [JoinInbox] are [Task]s ([World]): what is left of
    an [async] function at an await, to be run stretch by stretch with other tasks in
    between, as [JoinInboxTheorems] does in every order. In [Profiles] a wait is [meanwhile].
    In the other parts a handler or command is one step of a history, from its start to
    its end.

    Integers are [Z] with the width written out ([in_i64], [wrap64], [wrapu64],
    [U32], [U64]); release builds wrap. Maps are [gmap], Rust strings are byte
    strings ([String.string], UTF-8).

    Third-party crates are type classes, and what the code relies on them for is a
    second class with the laws: [Chrono], [ChronoLocal] (chrono, chrono-tz),
    [Hashing] (sha2), [SerdeText]/[SerdeTextLaws], [SerdeErrors] (serde_json),
    [Nostr] (nostr), [Rusqlite] (error texts), [UrlCrate] (url), [Alloy]/[AlloyLaws]
    and [Contracts]/[ContractsLaws] (the deployed contracts, a function of network and
    view), [ProcessEnv] (the environment), [NostrTags] (tags that are NIP-standard),
    [UnicodeCase] (lower case beyond ASCII), [AppPaths] (the download
    directory), [Signatures]/[SignaturesLaws] (signing and recovery of a prehash),
    [NostrKeys] (keys and their texts), [NostrMetadata] (the JSON of a Kind 0, URLs as
    written), [AtRest] (the encryption of stored secrets).
    [Toy], and the theorem files for the classes only they use, instantiate all of them
    with small concrete functions; the witnesses run there.

    ** What is proved

    - Replicas. The effectful [apply_op] refines a pure specification, whatever
      fails ([EventSpec], [EventRefines], [DocSpec]); the moves failures leave
      possible form a transition system ([EventSteps]) whose invariants carry to
      every history of rumors and commands ([EventSteps], [DocHistory]):
      authority, rows only move forward, stored rows stay valid. [Lww] is the
      last-writer-wins contract, from which [EventConverge], [DocHistory] and
      [EventQueue] derive that order of delivery does not matter, early operations
      included. Properties: [EventTheorems], [EventGuarantees], [DocTheorems],
      [PolicyTheorems], [UrlTheorems].
    - Rumors. [RumorTheorems] (which rows a rumor of each kind may touch; the name a
      received file is stored under), [PollTheorems] (polls are written once, votes
      converge to the latest, the tally counts each voter once).
    - Once, and not lost. [RemindersTheorems] (a reminder is handed out at most once
      per start; a missed one is in Catch up; and the one way to lose a reminder),
      [CatchUpTheorems] (entries never reopen), [ReadStateTheorems] (the unread feed
      replays to the counts), [ChatTheorems] (messages and edits).
    - Stored messages. [MessageFacts] has what reading computes; [MessageTheorems]: a live
      message shows what a reload shows, the two checks of an edit agree, replies quote
      what the quoted message shows, rows are written once, a deleted chat stays gone.
    - Tasks. [NotificationTheorems] (each chat's window refines the documented
      state machine, banner for banner; termination), [SessionTheorems] (a locked session is quiet; how
      early and how late the idle lock comes).
    - Profiles. [ProfileTheorems] (the Kind 0 that counts does not depend on the order of the
      relays; a save round-trips; what the periodic repair may send and change),
      [ProfileSync] (one loop works at a time, no npub is queued twice or while it is
      processed; a click makes its way; a logout at the wrong moment ends the sync).
    - Announcements. [AnnounceFacts] has the steps the proofs share.
      [SideEffectTheorems] (a message changes its own squad's rows, and only when a member
      wrote it, up to the exceptions the statement names), [RosterTheorems] (dated rows
      are certified and never go back; what is signed verifies), [WarGameTheorems] (sticker
      packs converge; the merge keeps the record of rounds),
      [JoinInboxTheorems] (epochs only grow, unless a command is overtaken while it
      waits), [InfraTheorems] (what
      announced infra can do wrong; listed contracts and tokens are well formed).
    - Catalog. [SquadCatalogTheorems] (rows keep their type, upsert and deletion).
    - Chain. [AccessTheorems] (nothing is granted that the chain did not grant to the
      account's own address; a war-game payload needs the registry's word; without
      failures the decision is the table's), [WriteLocks] (one write at a time per
      signer, and no deadlock), [GovReplicaTheorems] (the newest block
      wins, as long as reads do not fail; fees are booked once), and the
      routing of [VirtualBucket].
    Some theorems state a defect: [lost_cancel], [reminder_lost], [gov_replica_regress],
    [malformed_squad_stuck], [infra_row_taken], [governance_panics],
    [key_share_overwrites], [sticker_list_blocked], [logout_stalls_sync],
    [click_demoted], [repair_crosses_accounts], [overtaken_rotation] and a part of [timeout_roundtrip] and
    [resolve_entry_reports] prove that the code has the behaviour described.

    ** Bounds and fuel

    - [resolve_loop] has the fuel of the source's own loop, [MAX_GAP_MINUTES + 1]
      iterations; [search_base] (the binary search of the message list) halves its
      size, so the length of the list is enough ([search_base_ok]).
    - [hex_digits] gets 16, the digits of a [u64].
    - [parse_unsigned] and the serde readers of integers have the range of their type;
      epochs saturate as in the source.
    - The queues hold 200 operations per author and squad, the source's constant.
    - The coalescer's counters wrap at 2^32 and 2^64; theorems that need them not to
      wrap speak of runs shorter than 2^32 actions.

    ** Not modelled

    - The order SQLite leaves open between rows without [ORDER BY], or equal under it (the
      maps' order is used, for [events] that of the rowid), and columns no modelled code
      reads. Whether a connection enforces foreign keys depends on how SQLite was built:
      [foreign_keys] of [Rusqlite], left open. A row that cannot be fetched ends a
      [filter_map(ok)] loop ([rows_ok]).
    - The parts modelled before [StoredEvents] show the saving of a card as the output
      [SaveMessage]; it stands for [save_message].
    - Opening the pooled connection is one fallible step, its retries are not seen;
      [eprintln!] logs are left out, except where a property is about logs (docs).
    - What the callers do with a [RumorProcessingResult] that carries a message (the
      result is modelled), sending and uploading of messages and edits, the rest of
      [cmds/], vacuuming the database, [mls.rs] beyond
      the group's admins (the MDK crate), the upload of avatars and the check of their pixels,
      the other tables of [db/], the
      images of sticker packs (encryption, upload, cache), the command that signs a roster
      certificate with the key store, the network half of a join response, the
      EVM transports and wallets (alloy, generated bindings), accounts and
      migrations (file and key storage) and the TypeScript front end.
    - Which RPC URL a read goes to, and the order in which tokio serves the tasks that
      wait for a lock. *)

From stdpp Require Export base tactics decidable option list numbers strings gmap sorting pretty.
From Stdlib Require Import Ascii.

#[global] Open Scope Z_scope.

Declare Scope pacto_scope.
Delimit Scope pacto_scope with pacto.
#[global] Open Scope pacto_scope.

(** ** Automation *)

Create HintDb pacto.
Create Rewrite HintDb pacto_rw.

(** Case analysis on the innermost discriminee of a goal or hypothesis. *)
Ltac case_goal :=
  match goal with
  | |- context [match ?x with _ => _ end] =>
      lazymatch x with
      | context [match _ with _ => _ end] => fail
      | _ => let E := fresh "E" in destruct x eqn:E
      end
  end.

Ltac case_hyp H :=
  match type of H with
  | context [match ?x with _ => _ end] =>
      lazymatch x with
      | context [match _ with _ => _ end] => fail
      | _ => let E := fresh "E" in destruct x eqn:E
      end
  end.

(** Turn every boolean fact of the context into the proposition it decides. *)
Ltac bool_facts :=
  repeat match goal with
  | H : (_ && _)%bool = true |- _ => apply andb_true_iff in H as [? ?]
  | H : (_ || _)%bool = false |- _ => apply orb_false_iff in H as [? ?]
  | H : negb _ = true |- _ => apply negb_true_iff in H
  | H : negb _ = false |- _ => apply negb_false_iff in H
  | H : bool_decide _ = true |- _ => apply bool_decide_eq_true_1 in H
  | H : bool_decide _ = false |- _ => apply bool_decide_eq_false_1 in H
  | H : (_ <? _) = true |- _ => apply Z.ltb_lt in H
  | H : (_ <? _) = false |- _ => apply Z.ltb_ge in H
  | H : (_ <=? _) = true |- _ => apply Z.leb_le in H
  | H : (_ <=? _) = false |- _ => apply Z.leb_gt in H
  | H : (_ =? _) = true |- _ => apply Z.eqb_eq in H
  | H : (_ =? _) = false |- _ => apply Z.eqb_neq in H
  end.

(** ** [Result<T, String>] *)

Inductive result (A : Type) : Type :=
| Ok (a : A)
| Err (e : string).
Arguments Ok {A} a.
Arguments Err {A} e.

#[export] Instance result_eq_dec {A} `{EqDecision A} : EqDecision (result A).
Proof. solve_decision. Defined.

Definition rbind {A B} (r : result A) (k : A → result B) : result B :=
  match r with
  | Ok a => k a
  | Err e => Err e
  end.

Notation "'let?' x ':=' r 'in' k" := (rbind r (λ x, k))
  (at level 10, x pattern, r at level 100, k at level 200) : pacto_scope.

(** [Option::ok_or_else] and [Result::ok]. *)
Definition ok_or {A} (o : option A) (e : string) : result A :=
  match o with
  | Some a => Ok a
  | None => Err e
  end.

Definition res_ok {A} (r : result A) : option A :=
  match r with
  | Ok a => Some a
  | Err _ => None
  end.

Definition is_okb {A} (r : result A) : bool :=
  match r with
  | Ok _ => true
  | Err _ => false
  end.

(** [Result::map_err(|_| e)]. *)
Definition map_err {A} (r : result A) (e : string) : result A :=
  match r with
  | Ok a => Ok a
  | Err _ => Err e
  end.

(** [Result::map_err(|e| f(e))]. *)
Definition map_err_with {A} (f : string → string) (r : result A) : result A :=
  match r with
  | Ok a => Ok a
  | Err e => Err (f e)
  end.

(** [iter.map(f).collect::<Result<Vec<_>, _>>()]. *)
Fixpoint rmapM {A B} (f : A → result B) (l : list A) : result (list B) :=
  match l with
  | [] => Ok []
  | x :: l' =>
      let? y := f x in
      let? ys := rmapM f l' in
      Ok (y :: ys)
  end.

(** [Option<Result<T, E>>::transpose]. *)
Definition transpose {A} (o : option (result A)) : result (option A) :=
  match o with
  | None => Ok None
  | Some (Ok a) => Ok (Some a)
  | Some (Err e) => Err e
  end.

Lemma rbind_ok {A B} (r : result A) (k : A → result B) b :
  rbind r k = Ok b ↔ ∃ a, r = Ok a ∧ k a = Ok b.
Proof. destruct r; simpl; naive_solver. Qed.

Lemma rmapM_ok {A B} (f : A → result B) l ys :
  rmapM f l = Ok ys ↔ Forall2 (λ x y, f x = Ok y) l ys.
Proof.
  revert ys. induction l as [|x l IH]; intros ys; simpl.
  - split; [intros [= <-]; constructor | by intros ?%Forall2_nil_inv_l; subst].
  - rewrite rbind_ok. setoid_rewrite rbind_ok. setoid_rewrite IH. split.
    + intros (y & Hy & ys' & Hys & [= <-]). by constructor.
    + intros (y & ys' & Hy & Hys & ->)%Forall2_cons_inv_l. eauto 8.
Qed.

Lemma rmapM_length {A B} (f : A → result B) l ys :
  rmapM f l = Ok ys → length ys = length l.
Proof. intros H%rmapM_ok. symmetry. by eapply Forall2_length. Qed.

Lemma rmapM_err {A B} (f : A → result B) l e :
  rmapM f l = Err e → ∃ x, x ∈ l ∧ f x = Err e.
Proof.
  induction l as [|x l IH]; simpl; [done|].
  destruct (f x) as [y|e'] eqn:Hx; simpl.
  - destruct (rmapM f l); simpl; [done|]. intros [= ->].
    destruct IH as (x' & ? & ?); [done|]. exists x'. set_solver.
  - intros [= ->]. exists x. set_solver.
Qed.

(** ** [i64] *)

Definition i64_min : Z := - 2 ^ 63.
Definition i64_max : Z := 2 ^ 63 - 1.
Definition i64_ok (z : Z) : Prop := i64_min ≤ z ≤ i64_max.

#[export] Instance i64_ok_dec z : Decision (i64_ok z).
Proof. unfold i64_ok. apply _. Defined.

(** Release-profile arithmetic wraps around. *)
Definition wrap64 (z : Z) : Z := (z + 2 ^ 63) `mod` 2 ^ 64 - 2 ^ 63.

Definition sat64 (z : Z) : Z := Z.max i64_min (Z.min i64_max z).
Definition saturating_add (a b : Z) : Z := sat64 (a + b).
Definition saturating_sub (a b : Z) : Z := sat64 (a - b).

Lemma wrap64_id z : i64_ok z → wrap64 z = z.
Proof.
  unfold i64_ok, i64_min, i64_max, wrap64. intros H.
  rewrite Z.mod_small; lia.
Qed.

Lemma wrap64_ok z : i64_ok (wrap64 z).
Proof.
  unfold i64_ok, i64_min, i64_max, wrap64.
  pose proof (Z.mod_pos_bound (z + 2 ^ 63) (2 ^ 64)). lia.
Qed.

Lemma sat64_ok z : i64_ok (sat64 z).
Proof. unfold i64_ok, sat64, i64_min, i64_max. lia. Qed.

Lemma saturating_succ_gt z : i64_ok z → z < i64_max → z < saturating_add z 1.
Proof. unfold i64_ok, saturating_add, sat64, i64_min, i64_max. lia. Qed.

#[export] Hint Resolve wrap64_ok sat64_ok : pacto.

(** ** Strings: the functions of [str] the code calls

    A Rust [str] is its UTF-8 bytes. [trim] strips Unicode [White_Space] from
    both ends; the 25 code points are recognised by their encodings, one, two
    or three bytes long. *)

Definition code (a : ascii) : N := N_of_ascii a.

Definition ws1 (a : ascii) : bool :=
  ((9 <=? code a)%N && (code a <=? 13)%N) || (code a =? 32)%N.

Definition ws2 (a b : ascii) : bool :=
  (code a =? 194)%N && ((code b =? 133)%N || (code b =? 160)%N).

Definition ws3 (a b c : ascii) : bool :=
  ((code a =? 225)%N && (code b =? 154)%N && (code c =? 128)%N)
  || ((code a =? 226)%N && (code b =? 128)%N
      && (((128 <=? code c)%N && (code c <=? 138)%N)
          || (code c =? 168)%N || (code c =? 169)%N || (code c =? 175)%N))
  || ((code a =? 226)%N && (code b =? 129)%N && (code c =? 159)%N)
  || ((code a =? 227)%N && (code b =? 128)%N && (code c =? 128)%N).

Section drop_ws.
Context (w2 : ascii → ascii → bool) (w3 : ascii → ascii → ascii → bool).

(** Drop the longest run of encoded white space at the head of a byte list. *)
Fixpoint drop_ws (l : list ascii) : list ascii :=
  match l with
  | [] => []
  | a :: l1 =>
      if ws1 a then drop_ws l1
      else match l1 with
           | [] => l
           | b :: l2 =>
               if w2 a b then drop_ws l2
               else match l2 with
                    | [] => l
                    | c :: l3 => if w3 a b c then drop_ws l3 else l
                    end
           end
  end.

(** No encoded white space at the head. *)
Definition headless (l : list ascii) : Prop :=
  match l with
  | [] => True
  | a :: l1 =>
      ws1 a = false ∧
      match l1 with
      | [] => True
      | b :: l2 =>
          w2 a b = false ∧
          match l2 with
          | [] => True
          | c :: _ => w3 a b c = false
          end
      end
  end.

Lemma drop_ws_headless l : headless (drop_ws l).
Proof.
  induction l as [l IH] using (induction_ltof1 _ (@length ascii)).
  unfold ltof in IH.
  destruct l as [|a [|b [|c l]]]; simpl; auto; repeat case_match; simpl;
    auto; apply IH; simpl; lia.
Qed.

Lemma drop_ws_id l : headless l → drop_ws l = l.
Proof.
  destruct l as [|a [|b [|c l]]]; simpl; [done|..].
  - by intros [-> _].
  - by intros [-> [-> _]].
  - by intros [-> [-> ->]].
Qed.

Lemma drop_ws_cons a l1 :
  drop_ws (a :: l1) =
    if ws1 a then drop_ws l1
    else match l1 with
         | [] => a :: l1
         | b :: l2 =>
             if w2 a b then drop_ws l2
             else match l2 with
                  | [] => a :: l1
                  | c :: l3 => if w3 a b c then drop_ws l3 else a :: l1
                  end
         end.
Proof. done. Qed.

Lemma drop_ws_suffix l : ∃ k, l = k ++ drop_ws l.
Proof.
  induction l as [l IH] using (induction_ltof1 _ (@length ascii)).
  unfold ltof in IH. destruct l as [|a l1]; [by exists []|].
  rewrite drop_ws_cons. destruct (ws1 a).
  { destruct (IH l1) as [k Hk]; [simpl; lia|]. exists (a :: k). simpl. congruence. }
  destruct l1 as [|b l2]; [by exists []|]. destruct (w2 a b).
  { destruct (IH l2) as [k Hk]; [simpl; lia|]. exists (a :: b :: k). simpl. congruence. }
  destruct l2 as [|c l3]; [by exists []|]. destruct (w3 a b c); [|by exists []].
  destruct (IH l3) as [k Hk]; [simpl; lia|]. exists (a :: b :: c :: k). simpl. congruence.
Qed.

Lemma headless_prefix l k : headless (l ++ k) → headless l.
Proof. destruct l as [|a [|b [|c l]]]; simpl; naive_solver. Qed.
End drop_ws.

Definition ws2_rev (a b : ascii) : bool := ws2 b a.
Definition ws3_rev (a b c : ascii) : bool := ws3 c b a.

Definition trim_bytes (l : list ascii) : list ascii :=
  reverse (drop_ws ws2_rev ws3_rev (reverse (drop_ws ws2 ws3 l))).

(** [str::trim]. *)
Definition trim (s : string) : string :=
  String.string_of_list_ascii (trim_bytes (String.list_ascii_of_string s)).

(** [s.trim().is_empty()]. *)
Definition blank (s : string) : bool := bool_decide (trim s = "").

Lemma trim_bytes_idemp l : trim_bytes (trim_bytes l) = trim_bytes l.
Proof.
  unfold trim_bytes. set (t := drop_ws ws2 ws3 l).
  set (r := drop_ws ws2_rev ws3_rev (reverse t)).
  rewrite (drop_ws_id ws2 ws3 (reverse r)).
  - rewrite reverse_involutive, drop_ws_id; [done|]. apply drop_ws_headless.
  - destruct (drop_ws_suffix ws2_rev ws3_rev (reverse t)) as [k Hk]. fold r in Hk.
    apply (headless_prefix _ _ _ (reverse k)).
    rewrite <- reverse_app, <- Hk, reverse_involutive. apply drop_ws_headless.
Qed.

Lemma trim_idemp s : trim (trim s) = trim s.
Proof.
  unfold trim. rewrite String.list_ascii_of_string_of_list_ascii.
  by rewrite trim_bytes_idemp.
Qed.

Lemma blank_trim s : blank (trim s) = blank s.
Proof. unfold blank. by rewrite trim_idemp. Qed.

#[export] Hint Rewrite trim_idemp blank_trim : pacto_rw.

(** [x.map(str::trim).filter(|s| !s.is_empty()).map(str::to_string)]. *)
Definition trimmed_opt (value : option string) : option string :=
  match value with
  | Some s => if blank s then None else Some (trim s)
  | None => None
  end.

Lemma trimmed_opt_idemp v : trimmed_opt (trimmed_opt v) = trimmed_opt v.
Proof.
  destruct v as [s|]; simpl; [|done].
  destruct (blank s) eqn:Hb; simpl; [done|]. by rewrite blank_trim, Hb, trim_idemp.
Qed.

#[export] Hint Rewrite trimmed_opt_idemp : pacto_rw.

(** [str::to_ascii_lowercase] on bytes. *)
Definition lower_ascii (a : ascii) : ascii :=
  if (65 <=? code a)%N && (code a <=? 90)%N then ascii_of_N (code a + 32) else a.

Fixpoint to_ascii_lowercase (s : string) : string :=
  match s with
  | EmptyString => EmptyString
  | String a s' => String (lower_ascii a) (to_ascii_lowercase s')
  end.

Lemma lower_ascii_idemp a : lower_ascii (lower_ascii a) = lower_ascii a.
Proof. destruct a as [[] [] [] [] [] [] [] []]; reflexivity. Qed.

Lemma to_ascii_lowercase_idemp s : to_ascii_lowercase (to_ascii_lowercase s) = to_ascii_lowercase s.
Proof. induction s as [|a s IH]; simpl; [done|]. by rewrite IH, lower_ascii_idemp. Qed.

(** [str::contains] and [str::starts_with] for a string pattern. *)
Fixpoint starts_with (p s : string) : bool :=
  match p, s with
  | EmptyString, _ => true
  | String a p', String b s' => bool_decide (a = b) && starts_with p' s'
  | _, _ => false
  end.

Fixpoint contains (p s : string) : bool :=
  starts_with p s ||
  match s with
  | EmptyString => false
  | String _ s' => contains p s'
  end.

(** [str::parse] to an unsigned integer of at most [hi]: digits, at most one
    leading plus sign. *)
Fixpoint parse_digits (s : string) (acc : Z) : option Z :=
  match s with
  | EmptyString => Some acc
  | String a s' =>
      if (48 <=? code a)%N && (code a <=? 57)%N
      then parse_digits s' (acc * 10 + (Z.of_N (code a) - 48))
      else None
  end.

Definition parse_unsigned (hi : Z) (s : string) : option Z :=
  let digits := match s with
                | String "+" s' => s'
                | _ => s
                end in
  match digits with
  | EmptyString => None
  | _ => match parse_digits digits 0 with
         | Some n => if n <=? hi then Some n else None
         | None => None
         end
  end.

Lemma parse_digits_nonneg s : ∀ acc n, 0 ≤ acc → parse_digits s acc = Some n → 0 ≤ n.
Proof.
  induction s as [|a s IH]; intros acc n Hacc; simpl; [by intros [= <-]|].
  destruct (_ && _)%bool eqn:Ha; [|done]. apply IH.
  apply andb_true_iff in Ha as [Ha _]. apply N.leb_le in Ha. lia.
Qed.

Lemma parse_unsigned_range hi s n : parse_unsigned hi s = Some n → 0 ≤ n ≤ hi.
Proof.
  unfold parse_unsigned. destruct (match s with String "+" s' => s' | _ => s end) as [|a t]; [done|].
  destruct (parse_digits (String a t) 0) as [m|] eqn:Hm; [|done]. destruct (Z.leb_spec m hi); [|done].
  intros [= <-]. split; [|done]. by eapply parse_digits_nonneg in Hm.
Qed.

(** [to_string] then [parse] gives the number back. *)
Lemma pretty_N_char_code x : (x < 10)%N → code (pretty_N_char x) = (48 + x)%N.
Proof.
  intros Hx. assert (x = 0 ∨ x = 1 ∨ x = 2 ∨ x = 3 ∨ x = 4 ∨ x = 5 ∨ x = 6 ∨ x = 7 ∨ x = 8 ∨ x = 9)%N
    by lia. naive_solver.
Qed.

Lemma parse_digits_go x s : parse_digits (pretty_N_go x s) 0 = parse_digits s (Z.of_N x).
Proof.
  revert s. induction (N.lt_wf_0 x) as [x _ IH]. intros s.
  assert (x = 0 ∨ 0 < x)%N as [->|Hx] by lia; [by rewrite pretty_N_go_0|].
  rewrite pretty_N_go_step by done. rewrite IH by (by apply N.div_lt). simpl.
  assert (x `mod` 10 < 10)%N as Hm by (by apply N.mod_lt).
  rewrite pretty_N_char_code by done.
  pose proof (N.div_mod x 10 ltac:(done)) as Hdm. revert Hm Hdm.
  generalize (x `mod` 10)%N (x `div` 10)%N. intros r q Hr ->.
  replace ((48 <=? 48 + r)%N && (48 + r <=? 57)%N) with true
    by (symmetry; apply andb_true_iff; split; apply N.leb_le; lia).
  f_equal. lia.
Qed.

Lemma parse_digits_pretty p : parse_digits (pretty (Npos p)) 0 = Some (Zpos p).
Proof.
  unfold pretty, pretty_N. case_decide; [done|]. by rewrite parse_digits_go.
Qed.

Lemma parse_unsigned_pretty hi n : 0 ≤ n ≤ hi → parse_unsigned hi (pretty n) = Some n.
Proof.
  intros Hn. assert (n = 0 ∨ ∃ p, n = Zpos p) as [->|[p ->]]
    by (destruct n; [by left|right; by eexists|lia]).
  - change (parse_unsigned hi (pretty 0)) with (if 0 <=? hi then Some 0 else None).
    by rewrite (proj2 (Z.leb_le 0 hi)) by lia.
  - change (pretty (Zpos p)) with (pretty (Npos p)). pose proof (parse_digits_pretty p) as Hp.
    unfold parse_unsigned. destruct (pretty (Npos p)) as [|a s] eqn:Hs; [by simpl in Hp|].
    assert (a ≠ "+"%char) as Ha.
    { intros ->. by simpl in Hp. }
    assert (parse_unsigned_digits : match String a s with String "+" s' => s' | _ => String a s end
              = String a s).
    { destruct a as [[] [] [] [] [] [] [] []]; done. }
    rewrite parse_unsigned_digits, Hp. by rewrite (proj2 (Z.leb_le _ _)) by lia.
Qed.

#[global] Arguments starts_with : simpl never.
#[global] Arguments contains : simpl never.

(** ** [ORDER BY ms ASC, id ASC], the ordering of SQLite's [BINARY] text

    [key] gives the stamp and the identifier of a row. *)
Section ms_order.
Context {A : Type} (key : A → Z * string).

Definition ms_le (a b : A) : Prop :=
  (key a).1 < (key b).1 ∨
  ((key a).1 = (key b).1 ∧ String.le (key a).2 (key b).2).

#[export] Instance ms_le_dec : RelDecision ms_le.
Proof. intros a b. unfold ms_le. apply _. Defined.

#[export] Instance ms_le_trans : Transitive ms_le.
Proof.
  intros a b c [H1|[H1 H1']] [H2|[H2 H2']]; unfold ms_le; [lia..|].
  right. split; [lia|]. by etrans.
Qed.

#[export] Instance ms_le_total : Total ms_le.
Proof.
  intros a b. unfold ms_le.
  destruct (Z.lt_trichotomy (key a).1 (key b).1) as [?|[?|?]]; [by auto| |by auto].
  destruct (total String.le (key a).2 (key b).2); auto.
Qed.

Definition order_by_ms (l : list A) : list A := merge_sort ms_le l.
Definition order_by_ms_desc (l : list A) : list A := merge_sort (flip ms_le) l.

#[export] Instance flip_ms_le_dec : RelDecision (flip ms_le).
Proof. intros a b. unfold flip. apply _. Defined.

Lemma order_by_ms_perm l : order_by_ms l ≡ₚ l.
Proof. apply merge_sort_Permutation. Qed.
Lemma order_by_ms_desc_perm l : order_by_ms_desc l ≡ₚ l.
Proof. apply merge_sort_Permutation. Qed.

Lemma order_by_ms_elem x l : x ∈ order_by_ms l ↔ x ∈ l.
Proof. by rewrite order_by_ms_perm. Qed.
Lemma order_by_ms_desc_elem x l : x ∈ order_by_ms_desc l ↔ x ∈ l.
Proof. by rewrite order_by_ms_desc_perm. Qed.

Lemma order_by_ms_sorted l : StronglySorted ms_le (order_by_ms l).
Proof. apply StronglySorted_merge_sort; apply _. Qed.
End ms_order.

(** ** Lists *)

(** [iter.find(p)]. *)
Fixpoint find_first {A} (p : A → bool) (l : list A) : option A :=
  match l with
  | [] => None
  | x :: l' => if p x then Some x else find_first p l'
  end.

Lemma find_first_Some {A} (p : A → bool) l x :
  find_first p l = Some x → x ∈ l ∧ p x = true.
Proof.
  induction l as [|y l IH]; simpl; [done|]. destruct (p y) eqn:Hy; [|set_solver].
  intros [= ->]. set_solver.
Qed.

Lemma find_first_split {A} (p : A → bool) l x : find_first p l = Some x →
  p x = true ∧ ∃ l1 l2, l = l1 ++ x :: l2 ∧ Forall (λ y, p y = false) l1.
Proof.
  induction l as [|y l IH]; simpl; [done|]. destruct (p y) eqn:Hy.
  - intros [= <-]. split; [done|]. by exists [], l.
  - intros (Hx & l1 & l2 & -> & Hl)%IH. split; [done|]. exists (y :: l1), l2. by split; [|constructor].
Qed.

Lemma find_first_None {A} (p : A → bool) l :
  find_first p l = None ↔ Forall (λ x, p x = false) l.
Proof.
  induction l as [|y l IH]; simpl; [naive_solver|].
  rewrite Forall_cons. destruct (p y); naive_solver.
Qed.

(** ** Stable sorting: [sort_by], [sort_by_key] *)

Section sort_by.
Context {A : Type} (leb : A → A → bool).

Fixpoint sort_insert (x : A) (l : list A) : list A :=
  match l with
  | [] => [x]
  | y :: l' => if leb x y then x :: l else y :: sort_insert x l'
  end.

Definition sort_by (l : list A) : list A := foldr sort_insert [] l.

Lemma sort_insert_perm x l : sort_insert x l ≡ₚ x :: l.
Proof.
  induction l as [|y l IH]; simpl; [done|]. case_match; [done|].
  rewrite IH. constructor.
Qed.

Lemma sort_by_perm l : sort_by l ≡ₚ l.
Proof. induction l as [|x l IH]; simpl; [done|]. by rewrite sort_insert_perm, IH. Qed.

(** Elements related neither way keep their order. *)
Lemma sort_insert_filter (P : A → Prop) `{!∀ x, Decision (P x)} x l :
  P x → (∀ y, y ∈ l → P y → leb x y = true) →
  filter P (sort_insert x l) = x :: filter P l.
Proof.
  intros Hx. induction l as [|y l IH]; intros Hl; simpl.
  - by rewrite filter_cons_True.
  - destruct (leb x y) eqn:Hxy; [by rewrite filter_cons_True|].
    assert (¬ P y) by (intros ?; rewrite Hl in Hxy; [done|set_solver|done]).
    rewrite !filter_cons_False by done. apply IH. set_solver.
Qed.

Lemma sort_insert_filter_other (P : A → Prop) `{!∀ x, Decision (P x)} x l :
  ¬ P x → filter P (sort_insert x l) = filter P l.
Proof.
  intros Hx. induction l as [|y l IH]; simpl; [by rewrite filter_cons_False|].
  case_match; [by rewrite filter_cons_False|].
  destruct (decide (P y)); [rewrite !filter_cons_True|rewrite !filter_cons_False]; congruence.
Qed.

Lemma sort_by_stable (P : A → Prop) `{!∀ x, Decision (P x)} l :
  (∀ x y, P x → P y → leb x y = true) → filter P (sort_by l) = filter P l.
Proof.
  intros HP. induction l as [|x l IH]; simpl; [done|].
  destruct (decide (P x)).
  - rewrite sort_insert_filter, filter_cons_True by auto. by rewrite IH.
  - rewrite sort_insert_filter_other, filter_cons_False by done. done.
Qed.

Lemma sort_insert_sorted (R : A → A → Prop) x l :
  (∀ x y, if leb x y then R x y else R y x) → Transitive R →
  StronglySorted R l → StronglySorted R (sort_insert x l).
Proof.
  intros HR HT. induction 1 as [|y l Hl IH Hy]; simpl; [by repeat constructor|].
  pose proof (HR x y) as Hxy. destruct (leb x y).
  - constructor; [by constructor|]. constructor; [done|].
    eapply Forall_impl; [exact Hy|]. intros z Hz. by etrans.
  - constructor; [done|]. rewrite sort_insert_perm. by constructor.
Qed.

Lemma sort_by_sorted (R : A → A → Prop) l :
  (∀ x y, if leb x y then R x y else R y x) → Transitive R →
  StronglySorted R (sort_by l).
Proof.
  intros HR HT. induction l; simpl; [constructor|by apply sort_insert_sorted].
Qed.
End sort_by.

Definition sort_by_key {A} (key : A → Z) : list A → list A :=
  sort_by (λ x y, key x <=? key y).

Lemma sort_by_key_sorted {A} (key : A → Z) l :
  StronglySorted (λ x y, key x ≤ key y) (sort_by_key key l).
Proof.
  apply sort_by_sorted; [|intros ???; lia].
  intros x y. case_match; bool_facts; lia.
Qed.

(** Two lists sorted by a key are equal when they agree on the elements of each key. *)
Lemma sorted_by_key_unique {A} (key : A → Z) l1 l2 :
  StronglySorted (λ x y, key x ≤ key y) l1 → StronglySorted (λ x y, key x ≤ key y) l2 →
  (∀ v, filter (λ x, key x = v) l1 = filter (λ x, key x = v) l2) → l1 = l2.
Proof.
  intros Hs1. revert l2. induction Hs1 as [|x l1 Hs1 IH Hx]; intros [|y l2] Hs2 Hf; [done|..].
  - specialize (Hf (key y)). by rewrite filter_cons_True in Hf.
  - specialize (Hf (key x)). by rewrite filter_cons_True in Hf.
  - apply StronglySorted_inv in Hs2 as [Hs2 Hy]. rewrite Forall_forall in Hx, Hy.
    assert (key x = key y) as Hk.
    { assert (x ∈ y :: l2) as Hin.
      { eapply (list_elem_of_filter (λ z, key z = key x)). rewrite <- Hf, filter_cons_True by done.
        apply list_elem_of_here. }
      assert (y ∈ x :: l1) as Hin'.
      { eapply (list_elem_of_filter (λ z, key z = key y)). rewrite Hf, filter_cons_True by done.
        apply list_elem_of_here. }
      apply elem_of_cons in Hin as [->|Hin], Hin' as [Hin'|Hin']; [done|done|by rewrite Hin'|].
      specialize (Hx y Hin'). specialize (Hy x Hin). lia. }
    assert (x = y) as ->.
    { specialize (Hf (key x)). rewrite filter_cons_True in Hf by done.
      rewrite (filter_cons_True (λ z, key z = key x)) in Hf by done. by injection Hf. }
    f_equal. apply IH; [done|]. intros v. specialize (Hf v). rewrite !filter_cons in Hf.
    destruct (decide (key y = v)); [by injection Hf|done].
Qed.

Lemma sort_by_key_stable {A} (key : A → Z) l v :
  filter (λ x, key x = v) (sort_by_key key l) = filter (λ x, key x = v) l.
Proof. apply sort_by_stable. intros x y -> ->. by apply Z.leb_le. Qed.

Lemma StronglySorted_filter {A} (R : A → A → Prop) (P : A → Prop) `{!∀ x, Decision (P x)} (l : list A) :
  StronglySorted R l → StronglySorted R (filter P l).
Proof.
  induction 1 as [|x l Hl IH Hx]; [constructor|]. rewrite filter_cons. destruct (decide (P x)); [|done].
  constructor; [done|]. rewrite Forall_forall in *. intros y [_ Hy]%list_elem_of_filter. by apply Hx.
Qed.

Lemma filter_swap {A} (P Q : A → Prop) `{!∀ x, Decision (P x)} `{!∀ x, Decision (Q x)} (l : list A) :
  filter P (filter Q l) = filter Q (filter P l).
Proof. rewrite !list_filter_filter. apply list_filter_iff. naive_solver. Qed.

Lemma sort_by_key_filter {A} (key : A → Z) (P : A → Prop) `{!∀ x, Decision (P x)} l :
  filter P (sort_by_key key l) = sort_by_key key (filter P l).
Proof.
  apply (sorted_by_key_unique key); [apply StronglySorted_filter, sort_by_key_sorted|apply sort_by_key_sorted|].
  intros v. by rewrite (filter_swap _ P), !sort_by_key_stable, (filter_swap _ P).
Qed.

(** Sorting what is sorted by another key first changes nothing, when the first key depends on the second. *)
Lemma sort_by_key_twice {A} (key key' : A → Z) l :
  (∀ x y, x ∈ l → y ∈ l → key x = key y → key' x = key' y) →
  sort_by_key key (sort_by_key key' l) = sort_by_key key l.
Proof.
  intros Hk. apply (sorted_by_key_unique key); [apply sort_by_key_sorted..|].
  intros v. rewrite !sort_by_key_stable. destruct (filter (λ x, key x = v) l) as [|x l'] eqn:Hl.
  - rewrite sort_by_key_filter, Hl. done.
  - assert (x ∈ filter (λ x, key x = v) l) as [Hx Hin]%list_elem_of_filter by (rewrite Hl; apply list_elem_of_here).
    rewrite sort_by_key_filter.
    assert (Forall (λ y, key' y = key' x) (filter (λ x, key x = v) l)) as Hall.
    { apply Forall_forall. intros y [Hy Hyl]%list_elem_of_filter. apply Hk; [done..|congruence]. }
    rewrite <- Hl. clear Hl Hk. induction Hall as [|y l'' Hy Hall IH]; [done|].
    change (sort_by_key key' (y :: l'')) with (sort_insert (λ a b, key' a <=? key' b) y (sort_by_key key' l'')).
    rewrite IH. destruct l'' as [|z l'']; [done|]. simpl. apply Forall_cons in Hall as [Hz _].
    rewrite Hy, Hz. by rewrite Z.leb_refl.
Qed.

Lemma sort_by_key_app_sorted {A} (key : A → Z) l l' :
  sort_by_key key (sort_by_key key l ++ l') = sort_by_key key (l ++ l').
Proof.
  apply (sorted_by_key_unique key); [apply sort_by_key_sorted..|].
  intros v. by rewrite !sort_by_key_stable, !filter_app, sort_by_key_stable.
Qed.

Lemma sort_by_key_fmap {A B} (f : A → B) (key : B → Z) l :
  sort_by_key key (f <$> l) = f <$> sort_by_key (λ x, key (f x)) l.
Proof.
  induction l as [|x l IH]; [done|]. unfold sort_by_key in *. cbn [fmap list_fmap sort_by foldr].
  change (foldr _ [] (f <$> l)) with (sort_by (λ x y, key x <=? key y) (f <$> l)). rewrite IH.
  change (foldr _ [] l) with (sort_by (λ x y, key (f x) <=? key (f y)) l).
  generalize (sort_by (λ x y, key (f x) <=? key (f y)) l). intros s. induction s as [|y s IH']; [done|].
  cbn [fmap list_fmap sort_insert]. destruct (_ <=? _); [done|]. cbn [fmap list_fmap]. by rewrite <- IH'.
Qed.

Lemma filter_ext_in {A} (P Q : A → Prop) `{!∀ x, Decision (P x)} `{!∀ x, Decision (Q x)} (l : list A) :
  (∀ x, x ∈ l → P x ↔ Q x) → filter P l = filter Q l.
Proof.
  induction l as [|x l IH]; intros Hl; [done|]. rewrite !filter_cons, IH by set_solver.
  specialize (Hl x (list_elem_of_here _ _)). repeat case_decide; naive_solver.
Qed.

Lemma filter_fmap {A B} (f : A → B) (P : B → Prop) `{!∀ x, Decision (P x)} (l : list A) :
  filter P (f <$> l) = f <$> filter (λ x, P (f x)) l.
Proof. induction l as [|x l IH]; [done|]. rewrite fmap_cons, !filter_cons, IH. by case_decide. Qed.

Lemma omap_filter {A B C} (f : B → option C) (g : A → B) (h : A → C) (P : A → Prop) `{!∀ x, Decision (P x)}
    (l : list A) :
  (∀ x, x ∈ l → f (g x) = if decide (P x) then Some (h x) else None) →
  omap f (g <$> l) = h <$> filter P l.
Proof.
  induction l as [|x l IH]; intros Hl; [done|]. rewrite filter_cons. cbn [fmap list_fmap omap list_omap].
  rewrite Hl by set_solver. rewrite IH by set_solver. by case_decide.
Qed.

(** The descending order is the ascending one from the end. *)
Lemma sort_by_key_reverse {A} (key : A → Z) l :
  sort_by_key (λ x, - key x) (reverse l) = reverse (sort_by_key key l).
Proof.
  apply (sorted_by_key_unique (λ x, - key x)); [apply sort_by_key_sorted| |].
  - pose proof (sort_by_key_sorted key l) as Hs. induction Hs as [|x s Hs IH Hx]; [constructor|].
    rewrite reverse_cons. apply StronglySorted_app. split_and!; [|done|by repeat constructor].
    intros y z Hy Hz%list_elem_of_singleton. subst. rewrite elem_of_reverse in Hy. rewrite Forall_forall in Hx.
    specialize (Hx y Hy). lia.
  - intros v. rewrite sort_by_key_stable.
    assert (∀ s : list A, filter (λ x, - key x = v) s = filter (λ x, key x = - v) s) as Hneg.
    { intros s. apply list_filter_iff. intros x. lia. }
    by rewrite !Hneg, !filter_reverse, sort_by_key_stable.
Qed.
