(* ===== verification/World.v ===== *)
(** * Effects: a SQLite connection that may fail, a clock, observable outputs

    The backend code is [Result]-returning code over a SQLite connection, the
    system clock, the relay network and the webview. A computation of [M]
    transforms a [World]: the database and the log of observable outputs
    ([Obs]), the clock readings still to come, and the fate of every external
    call still to be made ([w_faults]; [Some e]: that call fails with error
    text [e]; an exhausted list means no more failures).

    [dwp] is the demonic weakest precondition: a postcondition that holds
    whatever fails and whatever the clock reads. [lwp] says that a fault-free
    execution succeeds. *)

From S2P Require Import Prelude.

Section world.
Context {D E : Type}.

Record Obs : Type := mkObs { o_db : D; o_log : list E }.

Record World : Type := mkWorld {
  w_obs : Obs;
  w_faults : list (option string);
  w_clock : list Z;
}.

Definition M (A : Type) : Type := World → result A * World.

Definition mret {A} (a : A) : M A := λ w, (Ok a, w).
Definition mthrow {A} (e : string) : M A := λ w, (Err e, w).
Definition mbind {A B} (m : M A) (k : A → M B) : M B := λ w,
  match m w with
  | (Ok a, w') => k a w'
  | (Err e, w') => (Err e, w')
  end.
(** Run [m] and hand its [Result] on as a value ([match], [let _ =], [.ok()]). *)
Definition attempt {A} (m : M A) : M (result A) := λ w,
  let '(r, w') := m w in (Ok r, w').
Definition of_result {A} (r : result A) : M A := λ w, (r, w).

Definition set_obs (o : Obs) (w : World) : World :=
  mkWorld o (w_faults w) (w_clock w).

(** The fate of the next external call. *)
Definition next_fault (w : World) : option string * World :=
  match w_faults w with
  | [] => (None, w)
  | f :: fs => (f, mkWorld (w_obs w) fs (w_clock w))
  end.

(** One external call: fails with [err e], or maps the observable state. *)
Definition call {A} (err : string → string) (f : Obs → A * Obs) : M A := λ w,
  match next_fault w with
  | (Some e, w') => (Err (err e), w')
  | (None, w') => let '(a, o) := f (w_obs w') in (Ok a, set_obs o w')
  end.

(** A reading and a writing SQL statement, with its [map_err]. *)
Definition query {A} (err : string → string) (f : D → A) : M A :=
  call err (λ o, (f (o_db o), o)).
Definition execute {A} (err : string → string) (f : D → A * D) : M A :=
  call err (λ o, let '(a, d) := f (o_db o) in (a, mkObs d (o_log o))).
Definition exec_ (err : string → string) (f : D → D) : M unit :=
  execute err (λ d, (tt, f d)).

(** A statement that can also fail by itself: a row that does not decode, a
    violated constraint. *)
Definition query_row {A} (err : string → string) (f : D → result A) : M A :=
  mbind (query err f) (λ r, of_result (map_err_with err r)).
Definition insert_row {A} (err : string → string) (f : D → result (A * D)) : M A :=
  mbind (call err (λ o, match f (o_db o) with
                        | Ok (a, d) => (Ok a, mkObs d (o_log o))
                        | Err e => (Err e, o)
                        end))
        (λ r, of_result (map_err_with err r)).

(** A read or write of process memory, behind a lock that is awaited. *)
Definition modify {A} (f : D → A * D) : M A := λ w,
  let '(a, d) := f (o_db (w_obs w)) in
  (Ok a, set_obs (mkObs d (o_log (w_obs w))) w).

(** An output that cannot fail the caller ([let _ = handle.emit(..)]). *)
Definition output (e : E) : M unit := λ w,
  (Ok tt, set_obs (mkObs (o_db (w_obs w)) (o_log (w_obs w) ++ [e])) w).
(** An output whose failure the caller sees (a network send). *)
Definition send (err : string → string) (e : E) : M unit :=
  call err (λ o, (tt, mkObs (o_db o) (o_log o ++ [e]))).

(** The next input reading: [SystemTime::now()] in milliseconds since the epoch,
    negative before it, and, where the code asks for them, random bits, the window's
    focus, the view of the chain. An exhausted list reads 0. *)
Definition now : M Z := λ w,
  match w_clock w with
  | [] => (Ok 0, w)
  | t :: ts => (Ok t, mkWorld (w_obs w) (w_faults w) ts)
  end.

(** [unchecked_transaction] .. [commit]: the body says whether it commits;
    an error, an early return and a failed commit roll the database back. *)
Definition tx {A} (begin_err commit_err : string → string)
    (body : M (A * bool)) : M A := λ w,
  match next_fault w with
  | (Some e, w1) => (Err (begin_err e), w1)
  | (None, w1) =>
      let back (w2 : World) :=
        set_obs (mkObs (o_db (w_obs w1)) (o_log (w_obs w2))) w2 in
      match body w1 with
      | (Err e, w2) => (Err e, back w2)
      | (Ok (a, false), w2) => (Ok a, back w2)
      | (Ok (a, true), w2) =>
          match next_fault w2 with
          | (Some e, w3) => (Err (commit_err e), back w3)
          | (None, w3) => (Ok a, w3)
          end
      end
  end.

(** [for x in l { acc = f(acc, x)?; }]. *)
Fixpoint foldM {A B} (f : B → A → M B) (b : B) (l : list A) : M B :=
  match l with
  | [] => mret b
  | x :: l' => mbind (f b x) (λ b', foldM f b' l')
  end.

Definition run {A} (m : M A) (o : Obs) : result A * Obs :=
  let '(r, w) := m (mkWorld o [] []) in (r, w_obs w).

(** ** Demonic weakest precondition *)

Definition dwp {A} (m : M A) (o : Obs) (Q : result A → Obs → Prop) : Prop :=
  ∀ w, w_obs w = o → Q (m w).1 (w_obs (m w).2).

Lemma dwp_mono {A} (m : M A) o (P Q : result A → Obs → Prop) :
  dwp m o P → (∀ r o', P r o' → Q r o') → dwp m o Q.
Proof. intros H HPQ w Hw. by apply HPQ, H. Qed.

Lemma dwp_and {A} (m : M A) o (P Q : result A → Obs → Prop) :
  dwp m o P → dwp m o Q → dwp m o (λ r o', P r o' ∧ Q r o').
Proof. intros HP HQ w Hw. split; [by apply HP|by apply HQ]. Qed.

Lemma dwp_ret {A} (a : A) o (Q : result A → Obs → Prop) :
  Q (Ok a) o → dwp (mret a) o Q.
Proof. by intros HQ w <-. Qed.

Lemma dwp_throw {A} e o (Q : result A → Obs → Prop) :
  Q (Err e) o → dwp (mthrow e) o Q.
Proof. by intros HQ w <-. Qed.

Lemma dwp_of_result {A} (r : result A) o (Q : result A → Obs → Prop) :
  Q r o → dwp (of_result r) o Q.
Proof. by intros HQ w <-. Qed.

Lemma dwp_bind {A B} (m : M A) (k : A → M B) o Q :
  dwp m o (λ r o', match r with
                   | Ok a => dwp (k a) o' Q
                   | Err e => Q (Err e) o'
                   end) →
  dwp (mbind m k) o Q.
Proof.
  intros H w Hw. specialize (H w Hw). unfold mbind.
  destruct (m w) as [[a|e] w'] eqn:Em; simpl in *; [by apply H|done].
Qed.

Lemma dwp_attempt {A} (m : M A) o (Q : result (result A) → Obs → Prop) :
  dwp m o (λ r o', Q (Ok r) o') → dwp (attempt m) o Q.
Proof. intros H w Hw. specialize (H w Hw). unfold attempt. by destruct (m w). Qed.

Lemma next_fault_obs w : w_obs (next_fault w).2 = w_obs w.
Proof. unfold next_fault. by destruct (w_faults w). Qed.

Lemma dwp_call {A} err (f : Obs → A * Obs) o (Q : result A → Obs → Prop) :
  (∀ e, Q (Err (err e)) o) → Q (Ok (f o).1) (f o).2 → dwp (call err f) o Q.
Proof.
  intros HE HO w <-. unfold call. pose proof (next_fault_obs w) as Ho.
  destruct (next_fault w) as [[e|] w']; simpl in *; rewrite Ho; [done|].
  by destruct (f (w_obs w)).
Qed.

Lemma dwp_query {A} err (f : D → A) o (Q : result A → Obs → Prop) :
  (∀ e, Q (Err (err e)) o) → Q (Ok (f (o_db o))) o → dwp (query err f) o Q.
Proof. intros HE HO. by apply dwp_call. Qed.

Lemma dwp_execute {A} err (f : D → A * D) o (Q : result A → Obs → Prop) :
  (∀ e, Q (Err (err e)) o) →
  Q (Ok (f (o_db o)).1) (mkObs (f (o_db o)).2 (o_log o)) →
  dwp (execute err f) o Q.
Proof.
  intros HE HO. apply dwp_call; [done|]. by destruct (f (o_db o)).
Qed.

Lemma dwp_exec_ err (f : D → D) o (Q : result unit → Obs → Prop) :
  (∀ e, Q (Err (err e)) o) → Q (Ok tt) (mkObs (f (o_db o)) (o_log o)) →
  dwp (exec_ err f) o Q.
Proof. intros HE HO. by apply dwp_execute. Qed.

Lemma dwp_query_row {A} err (f : D → result A) o (Q : result A → Obs → Prop) :
  (∀ e, Q (Err (err e)) o) →
  (∀ a, f (o_db o) = Ok a → Q (Ok a) o) → dwp (query_row err f) o Q.
Proof.
  intros HE HO. apply dwp_bind, dwp_query; [done|]. apply dwp_of_result.
  destruct (f (o_db o)) eqn:Hf; simpl; auto.
Qed.

Lemma dwp_insert_row {A} err (f : D → result (A * D)) o (Q : result A → Obs → Prop) :
  (∀ e, Q (Err (err e)) o) →
  (∀ a d, f (o_db o) = Ok (a, d) → Q (Ok a) (mkObs d (o_log o))) → dwp (insert_row err f) o Q.
Proof.
  intros HE HO. apply dwp_bind, dwp_call; [done|].
  destruct (f (o_db o)) as [[a d]|e] eqn:Hf; simpl; apply dwp_of_result; simpl; auto.
Qed.

Lemma dwp_modify {A} (f : D → A * D) o (Q : result A → Obs → Prop) :
  Q (Ok (f (o_db o)).1) (mkObs (f (o_db o)).2 (o_log o)) → dwp (modify f) o Q.
Proof. intros HQ w <-. unfold modify. by destruct (f (o_db (w_obs w))). Qed.

Lemma dwp_output e o (Q : result unit → Obs → Prop) :
  Q (Ok tt) (mkObs (o_db o) (o_log o ++ [e])) → dwp (output e) o Q.
Proof. by intros HQ w <-. Qed.

Lemma dwp_send err e o (Q : result unit → Obs → Prop) :
  (∀ e', Q (Err (err e')) o) →
  Q (Ok tt) (mkObs (o_db o) (o_log o ++ [e])) → dwp (send err e) o Q.
Proof. intros HE HO. by apply dwp_call. Qed.

Lemma dwp_now o (Q : result Z → Obs → Prop) :
  (∀ t, Q (Ok t) o) → dwp now o Q.
Proof. intros HQ w <-. unfold now. destruct (w_clock w); apply HQ. Qed.

(** The body of a transaction only reaches the database by committing. *)
Lemma dwp_tx {A} be ce (body : M (A * bool)) o (Q : result A → Obs → Prop) :
  (∀ e, Q (Err (be e)) o) →
  dwp body o (λ r o',
    let back := mkObs (o_db o) (o_log o') in
    match r with
    | Err e => Q (Err e) back
    | Ok (a, false) => Q (Ok a) back
    | Ok (a, true) => Q (Ok a) o' ∧ ∀ e, Q (Err (ce e)) back
    end) →
  dwp (tx be ce body) o Q.
Proof.
  intros HE HB w <-. unfold tx. pose proof (next_fault_obs w) as Ho.
  destruct (next_fault w) as [[e|] w1]; simpl in *; [by rewrite Ho|].
  specialize (HB w1 Ho). simpl in HB.
  destruct (body w1) as [[[a []]|e] w2] eqn:Eb; simpl in *; rewrite ?Ho; [|done..].
  pose proof (next_fault_obs w2) as Ho2.
  destruct (next_fault w2) as [[e|] w3]; simpl in *; rewrite ?Ho2; naive_solver.
Qed.

(** Loop rule: the invariant also has to cover the error exits. *)
Lemma dwp_foldM {A B} (f : B → A → M B) (I : list A → B → Obs → Prop)
    (Q : result B → Obs → Prop) l :
  (∀ b o, I [] b o → Q (Ok b) o) →
  (∀ x l' b o, I (x :: l') b o →
     dwp (f b x) o (λ r o', match r with
                            | Ok b' => I l' b' o'
                            | Err e => Q (Err e) o'
                            end)) →
  ∀ b o, I l b o → dwp (foldM f b l) o Q.
Proof.
  intros Hnil Hcons. induction l as [|x l IH]; intros b o HI; simpl.
  - apply dwp_ret. auto.
  - apply dwp_bind. eapply dwp_mono; [by apply Hcons|].
    intros [b'|e] o'; auto.
Qed.

(** ** Relations kept by every outcome *)

Definition keeps (R : D → D → Prop) {A} (m : M A) : Prop :=
  ∀ o, dwp m o (λ _ o', R (o_db o) (o_db o')).

Section keeps.
Context (R : D → D → Prop) `{!Reflexive R, !Transitive R}.

Lemma keeps_ret {A} (a : A) : keeps R (mret a).
Proof. intros o. by apply dwp_ret. Qed.
Lemma keeps_throw {A} e : keeps R (@mthrow A e).
Proof. intros o. by apply dwp_throw. Qed.
Lemma keeps_bind {A B} (m : M A) (k : A → M B) :
  keeps R m → (∀ a, keeps R (k a)) → keeps R (mbind m k).
Proof.
  intros Hm Hk o. apply dwp_bind. eapply dwp_mono; [apply Hm|].
  intros [a|e] o' HR; simpl in *; [|done].
  eapply dwp_mono; [apply Hk|]. intros r o'' HR'. simpl in *. by etrans.
Qed.
Lemma keeps_attempt {A} (m : M A) : keeps R m → keeps R (attempt m).
Proof. intros Hm o. apply dwp_attempt, Hm. Qed.
Lemma keeps_query {A} err (f : D → A) : keeps R (query err f).
Proof. intros o. by apply dwp_query. Qed.
Lemma keeps_execute {A} err (f : D → A * D) :
  (∀ d, R d (f d).2) → keeps R (execute err f).
Proof. intros Hf o. apply dwp_execute; [done|apply Hf]. Qed.
Lemma keeps_exec_ err (f : D → D) : (∀ d, R d (f d)) → keeps R (exec_ err f).
Proof. intros Hf. by apply keeps_execute. Qed.
Lemma keeps_query_row {A} err (f : D → result A) : keeps R (query_row err f).
Proof. intros o. by apply dwp_query_row. Qed.
Lemma keeps_insert_row {A} err (f : D → result (A * D)) :
  (∀ d a d', f d = Ok (a, d') → R d d') → keeps R (insert_row err f).
Proof. intros Hf o. apply dwp_insert_row; [done|]. intros a d Hd. by eapply Hf. Qed.
Lemma keeps_of_result {A} (r : result A) : keeps R (of_result r).
Proof. intros o. by apply dwp_of_result. Qed.
Lemma keeps_modify {A} (f : D → A * D) : (∀ d, R d (f d).2) → keeps R (modify f).
Proof. intros Hf o. apply dwp_modify, Hf. Qed.
Lemma keeps_output e : keeps R (output e).
Proof. intros o. by apply dwp_output. Qed.
Lemma keeps_send err e : keeps R (send err e).
Proof. intros o. by apply dwp_send. Qed.
Lemma keeps_now : keeps R now.
Proof. intros o. by apply dwp_now. Qed.
Lemma keeps_tx {A} be ce (body : M (A * bool)) :
  keeps R body → keeps R (tx be ce body).
Proof.
  intros Hb o. apply dwp_tx; [done|]. eapply dwp_mono; [apply Hb|].
  intros [[a []]|e] o' HR; simpl in *; auto.
Qed.
Lemma keeps_foldM {A B} (f : B → A → M B) l :
  (∀ b x, keeps R (f b x)) → ∀ b, keeps R (foldM f b l).
Proof.
  intros Hf. induction l as [|x l IH]; intros b; simpl;
    [apply keeps_ret|apply keeps_bind; auto].
Qed.
End keeps.

(** ** Readers: neither the database nor the log changes, whatever fails *)

Definition quiet {A} (m : M A) : Prop := ∀ o, dwp m o (λ _ o', o' = o).

Lemma quiet_ret {A} (a : A) : quiet (mret a).
Proof. intros o. by apply dwp_ret. Qed.
Lemma quiet_throw {A} e : quiet (@mthrow A e).
Proof. intros o. by apply dwp_throw. Qed.
Lemma quiet_of_result {A} (r : result A) : quiet (of_result r).
Proof. intros o. by apply dwp_of_result. Qed.
Lemma quiet_query {A} err (f : D → A) : quiet (query err f).
Proof. intros o. by apply dwp_query. Qed.
Lemma quiet_query_row {A} err (f : D → result A) : quiet (query_row err f).
Proof. intros o. by apply dwp_query_row. Qed.
Lemma quiet_now : quiet now.
Proof. intros o. by apply dwp_now. Qed.
Lemma quiet_attempt {A} (m : M A) : quiet m → quiet (attempt m).
Proof. intros Hm o. apply dwp_attempt, Hm. Qed.
Lemma quiet_bind {A B} (m : M A) (k : A → M B) :
  quiet m → (∀ a, quiet (k a)) → quiet (mbind m k).
Proof.
  intros Hm Hk o. apply dwp_bind. eapply dwp_mono; [apply Hm|].
  intros [a|e] o' ->; [apply Hk|done].
Qed.
Lemma quiet_foldM {A B} (f : B → A → M B) l :
  (∀ b x, quiet (f b x)) → ∀ b, quiet (foldM f b l).
Proof.
  intros Hf. induction l as [|x l IH]; intros b; simpl;
    [apply quiet_ret|apply quiet_bind; auto].
Qed.

(** A reader only has to be followed through its results. *)
Lemma dwp_quiet {A} (m : M A) o (P : result A → Prop) (Q : result A → Obs → Prop) :
  quiet m → dwp m o (λ r _, P r) → (∀ r, P r → Q r o) → dwp m o Q.
Proof.
  intros Hq Hm HQ. eapply dwp_mono; [exact (dwp_and m o _ _ (Hq o) Hm)|].
  intros r o' [-> HP]. by apply HQ.
Qed.

Lemma dwp_quiet_any {A} (m : M A) o (Q : result A → Obs → Prop) :
  quiet m → (∀ r, Q r o) → dwp m o Q.
Proof. intros Hq HQ. eapply dwp_mono; [apply Hq|]. intros r o' ->. apply HQ. Qed.

Lemma quiet_keeps {A} (R : D → D → Prop) `{!Reflexive R} (m : M A) : quiet m → keeps R m.
Proof. intros Hq o. eapply dwp_mono; [apply Hq|]. by intros r o' ->. Qed.

(** ** Fault-free executions

    [lwp m o Q]: when no external call fails, [m] succeeds, whatever the clock
    reads, and its result satisfies [Q]. *)

Definition lwp {A} (m : M A) (o : Obs) (Q : A → Obs → Prop) : Prop :=
  ∀ c, ∃ a o' c', m (mkWorld o [] c) = (Ok a, mkWorld o' [] c') ∧ Q a o'.

Lemma lwp_mono {A} (m : M A) o (P Q : A → Obs → Prop) :
  lwp m o P → (∀ a o', P a o' → Q a o') → lwp m o Q.
Proof. intros H HPQ c. destruct (H c) as (a & o' & c' & Hm & HP). eauto 10. Qed.

(** What every outcome satisfies, the successful one does. *)
Lemma lwp_dwp {A} (m : M A) o (P : A → Obs → Prop) (Q : result A → Obs → Prop) :
  lwp m o P → dwp m o Q → lwp m o (λ a o', P a o' ∧ Q (Ok a) o').
Proof.
  intros H HQ c. destruct (H c) as (a & o' & c' & Hm & HP).
  exists a, o', c'. split; [done|]. split; [done|].
  specialize (HQ (mkWorld o [] c) eq_refl). by rewrite Hm in HQ.
Qed.

Lemma lwp_ret {A} (a : A) o (Q : A → Obs → Prop) : Q a o → lwp (mret a) o Q.
Proof. intros HQ c. by exists a, o, c. Qed.
Lemma lwp_of_result {A} (r : result A) o (Q : A → Obs → Prop) a :
  r = Ok a → Q a o → lwp (of_result r) o Q.
Proof. intros -> HQ c. by exists a, o, c. Qed.
Lemma lwp_bind {A B} (m : M A) (k : A → M B) o Q :
  lwp m o (λ a o', lwp (k a) o' Q) → lwp (mbind m k) o Q.
Proof.
  intros H c. destruct (H c) as (a & o' & c' & Hm & Hk). destruct (Hk c') as (b & o2 & c2 & Hb & HQ).
  exists b, o2, c2. split; [|done]. unfold mbind. by rewrite Hm.
Qed.
Lemma lwp_attempt {A} (m : M A) o (Q : result A → Obs → Prop) :
  lwp m o (λ a o', Q (Ok a) o') → lwp (attempt m) o Q.
Proof.
  intros H c. destruct (H c) as (a & o' & c' & Hm & HQ). exists (Ok a), o', c'.
  split; [|done]. unfold attempt. by rewrite Hm.
Qed.
Lemma lwp_query {A} err (f : D → A) o (Q : A → Obs → Prop) :
  Q (f (o_db o)) o → lwp (query err f) o Q.
Proof. intros HQ c. by exists (f (o_db o)), o, c. Qed.
Lemma lwp_query_row {A} err (f : D → result A) o (Q : A → Obs → Prop) a :
  f (o_db o) = Ok a → Q a o → lwp (query_row err f) o Q.
Proof.
  intros Hf HQ. apply lwp_bind, lwp_query. eapply lwp_of_result; [by rewrite Hf|done].
Qed.
Lemma lwp_execute {A} err (f : D → A * D) o (Q : A → Obs → Prop) :
  Q (f (o_db o)).1 (mkObs (f (o_db o)).2 (o_log o)) → lwp (execute err f) o Q.
Proof.
  intros HQ c. eexists _, _, c. split; [|exact HQ].
  unfold execute, call; simpl. by destruct (f (o_db o)).
Qed.
Lemma lwp_exec_ err (f : D → D) o (Q : unit → Obs → Prop) :
  Q tt (mkObs (f (o_db o)) (o_log o)) → lwp (exec_ err f) o Q.
Proof. intros HQ. by apply lwp_execute. Qed.
Lemma lwp_insert_row {A} err (f : D → result (A * D)) o (Q : A → Obs → Prop) a d :
  f (o_db o) = Ok (a, d) → Q a (mkObs d (o_log o)) → lwp (insert_row err f) o Q.
Proof.
  intros Hf HQ c. exists a, (mkObs d (o_log o)), c. split; [|done].
  unfold insert_row, call, mbind, of_result; simpl. by rewrite Hf.
Qed.
Lemma lwp_modify {A} (f : D → A * D) o (Q : A → Obs → Prop) :
  Q (f (o_db o)).1 (mkObs (f (o_db o)).2 (o_log o)) → lwp (modify f) o Q.
Proof.
  intros HQ c. eexists _, _, c. split; [|exact HQ].
  unfold modify; simpl. by destruct (f (o_db o)).
Qed.
Lemma lwp_output e o (Q : unit → Obs → Prop) :
  Q tt (mkObs (o_db o) (o_log o ++ [e])) → lwp (output e) o Q.
Proof. intros HQ c. by eexists _, _, c. Qed.
Lemma lwp_send err e o (Q : unit → Obs → Prop) :
  Q tt (mkObs (o_db o) (o_log o ++ [e])) → lwp (send err e) o Q.
Proof. intros HQ c. by eexists _, _, c. Qed.
Lemma lwp_now o (Q : Z → Obs → Prop) : (∀ t, Q t o) → lwp now o Q.
Proof. intros HQ c. unfold now; simpl. destruct c; by eexists _, _, _. Qed.
Lemma lwp_tx {A} be ce (body : M (A * bool)) o (Q : A → Obs → Prop) :
  lwp body o (λ ab o', Q ab.1 (if (ab.2 : bool) then o' else mkObs (o_db o) (o_log o'))) →
  lwp (tx be ce body) o Q.
Proof.
  intros Hb c. destruct (Hb c) as ([a b] & o' & c' & Hm & HQ). simpl in *.
  exists a, (if b then o' else mkObs (o_db o) (o_log o')), c'. split; [|done].
  unfold tx; simpl. rewrite Hm. by destruct b.
Qed.
Lemma lwp_foldM {A B} (f : B → A → M B) (I : list A → B → Obs → Prop) l :
  (∀ x l' b o, I (x :: l') b o → lwp (f b x) o (λ b' o', I l' b' o')) →
  ∀ b o, I l b o → lwp (foldM f b l) o (λ b' o', I [] b' o').
Proof.
  intros Hstep. induction l as [|x l IH]; intros b o HI; simpl; [by apply lwp_ret|].
  apply lwp_bind. eapply lwp_mono; [by apply Hstep|]. intros b' o' HI'. by apply IH.
Qed.
(** ** Computations that wait

    An [async] function runs in stretches, from one [.await] to the next. A [Task] is what
    is left of it at an await: while it waits, other tasks run. [await m k]: [m] runs, at
    some later time, and later again what follows it. *)
Inductive Task (A : Type) : Type :=
| Ready (a : A)
| Pending (k : M (Task A)).
Arguments Ready {A} a.
Arguments Pending {A} k.

Definition ready {A} (a : A) : M (Task A) := mret (Ready a).
Definition await {A B} (m : M A) (k : A → M (Task B)) : M (Task B) :=
  mret (Pending (mbind (attempt m) (λ r, mret (Pending (mbind (of_result r) k))))).

(** All that is left, with nothing in between. *)
Fixpoint finish {A} (t : Task A) : M A :=
  match t with
  | Ready a => mret a
  | Pending k => λ w, match k w with
                      | (Ok t', w') => finish t' w'
                      | (Err e, w') => (Err e, w')
                      end
  end.
Definition alone {A} (m : M (Task A)) : M A := mbind m finish.

Lemma lwp_await {A B} (m : M A) (k : A → M (Task B)) o Q :
  lwp m o (λ a o', lwp (k a) o' (λ t o'', lwp (finish t) o'' Q)) →
  lwp (await m k) o (λ t o', lwp (finish t) o' Q).
Proof.
  intros H c. eexists _, o, c. split; [done|]. intros c'.
  destruct (H c') as (a & o1 & c1 & Hm & Hk). destruct (Hk c1) as (t & o2 & c2 & Ht & Hf).
  destruct (Hf c2) as (b & o3 & c3 & Hb & HQ). exists b, o3, c3. split; [|done].
  simpl. unfold mbind, mret, attempt, of_result. rewrite Hm. simpl. by rewrite Ht.
Qed.
End world.

Arguments Obs D E : clear implicits.
Arguments World D E : clear implicits.
Arguments M D E A : clear implicits.
Arguments Task D E A : clear implicits.
Arguments Ready {D E A} a.
Arguments Pending {D E A} k.

Notation "'let!' x ':=' m 'in' k" := (mbind m (λ x, k))
  (at level 10, x pattern, m at level 100, k at level 200) : pacto_scope.
Notation "m ';!' k" := (mbind m (λ _, k))
  (at level 100, k at level 200, right associativity) : pacto_scope.

#[export] Hint Resolve keeps_ret keeps_throw keeps_query keeps_query_row keeps_of_result keeps_output keeps_send
  keeps_now keeps_bind keeps_attempt keeps_tx keeps_foldM : pacto.

Create HintDb quiet.
#[export] Hint Resolve quiet_ret quiet_throw quiet_of_result quiet_query quiet_query_row
  quiet_now quiet_attempt quiet_bind quiet_foldM : quiet.

(** Readers are recognised by their shape. *)
Ltac quiet_tac :=
  repeat first
    [ progress eauto with quiet
    | apply quiet_bind; [|intros ?]
    | apply quiet_attempt
    | lazymatch goal with
      | |- quiet (match ?x with _ => _ end) => destruct x
      end ].

(** Follow the shape of a computation; the statements that write are left. *)
Ltac keeps_tac :=
  repeat lazymatch goal with
    | |- keeps ?R (mret _) => exact (keeps_ret R _)
    | |- keeps ?R (mthrow _) => exact (keeps_throw R _)
    | |- keeps ?R (of_result _) => exact (keeps_of_result R _)
    | |- keeps ?R (query _ _) => exact (keeps_query R _ _)
    | |- keeps ?R (query_row _ _) => exact (keeps_query_row R _ _)
    | |- keeps ?R (output _) => exact (keeps_output R _)
    | |- keeps ?R (send _ _) => exact (keeps_send R _ _)
    | |- keeps ?R now => exact (keeps_now R)
    | |- keeps ?R (exec_ _ _) => refine (keeps_exec_ R _ _ _); intros ?
    | |- keeps ?R (mbind _ _) => refine (keeps_bind R _ _ _ _); [|intros ?]
    | |- keeps ?R (attempt _) => refine (keeps_attempt R _ _)
    | |- keeps ?R (tx _ _ _) => refine (keeps_tx R _ _ _ _)
    | |- keeps ?R (foldM _ _ _) => refine (keeps_foldM R _ _ _ _); intros ? ?
    | |- keeps _ (match ?x with _ => _ end) => destruct x
    | |- keeps ?R _ =>
        first [ solve [eauto with pacto]
              | refine (quiet_keeps R _ _); solve [eauto with quiet] ]
    end.

(** One step of symbolic execution under a demonic environment. *)
Ltac dstep :=
  lazymatch goal with
  | |- dwp (mret _) _ _ => apply dwp_ret
  | |- dwp (mthrow _) _ _ => apply dwp_throw
  | |- dwp (of_result _) _ _ => apply dwp_of_result
  | |- dwp (mbind _ _) _ _ => apply dwp_bind
  | |- dwp (attempt _) _ _ => apply dwp_attempt
  | |- dwp (query _ _) _ _ => apply dwp_query; [intros ?|]
  | |- dwp (query_row _ _) _ _ => apply dwp_query_row; [intros ?|intros ? ?]
  | |- dwp (insert_row _ _) _ _ => apply dwp_insert_row; [intros ?|intros ? ? ?]
  | |- dwp (exec_ _ _) _ _ => apply dwp_exec_; [intros ?|]
  | |- dwp (execute _ _) _ _ => apply dwp_execute; [intros ?|]
  | |- dwp (modify _) _ _ => apply dwp_modify
  | |- dwp (output _) _ _ => apply dwp_output
  | |- dwp (send _ _) _ _ => apply dwp_send; [intros ?|]
  | |- dwp now _ _ => apply dwp_now; intros ?
  | |- dwp (tx _ _ _) _ _ => apply dwp_tx; [intros ?|]
  | |- dwp (match ?x with _ => _ end) _ _ => destruct x eqn:?
  end; simpl.

(** The same for a fault-free execution. *)
Ltac lstep :=
  lazymatch goal with
  | |- lwp (mret _) _ _ => apply lwp_ret
  | |- lwp (of_result _) _ _ => eapply lwp_of_result
  | |- lwp (mbind _ _) _ _ => apply lwp_bind
  | |- lwp (attempt _) _ _ => apply lwp_attempt
  | |- lwp (query _ _) _ _ => apply lwp_query
  | |- lwp (query_row _ _) _ _ => eapply lwp_query_row
  | |- lwp (exec_ _ _) _ _ => apply lwp_exec_
  | |- lwp (execute _ _) _ _ => apply lwp_execute
  | |- lwp (insert_row _ _) _ _ => eapply lwp_insert_row
  | |- lwp (modify _) _ _ => apply lwp_modify
  | |- lwp (output _) _ _ => apply lwp_output
  | |- lwp (send _ _) _ _ => apply lwp_send
  | |- lwp now _ _ => apply lwp_now; intros ?
  | |- lwp (tx _ _ _) _ _ => apply lwp_tx
  | |- lwp (match ?x with _ => _ end) _ _ => destruct x eqn:?
  end; simpl.

(** Skip a reader whose result does not matter; its errors end the proof. *)
Ltac dskip :=
  apply dwp_bind; apply dwp_quiet_any;
  [ solve [quiet_tac] | intros [?|?]; [|try done] ].
