(* ===== verification/Outputs.v ===== *)
(** * What a computation shows the outside

    [emits P m]: whatever fails, every output [m] appends to the log satisfies
    [P]. Rules follow the shape of the computation. *)

From S2P Require Import Prelude World.

Section emits.
Context {D E : Type} (P : E → Prop).
Implicit Types o : Obs D E.

Definition emits {A} (m : M D E A) : Prop :=
  ∀ o, dwp m o (λ _ o', ∃ l, o_log o' = o_log o ++ l ∧ Forall P l).

Lemma emits_silent {A} (m : M D E A) :
  (∀ o, dwp m o (λ _ o', o_log o' = o_log o)) → emits m.
Proof.
  intros Hm o. eapply dwp_mono; [apply Hm|]. intros r o' Hl. exists [].
  rewrite app_nil_r. split; [done|constructor].
Qed.

Lemma emits_quiet {A} (m : M D E A) : quiet m → emits m.
Proof.
  intros Hq. apply emits_silent. intros o. eapply dwp_mono; [apply Hq|]. by intros r o' ->.
Qed.

Lemma emits_bind {A B} (m : M D E A) (k : A → M D E B) :
  emits m → (∀ a, emits (k a)) → emits (mbind m k).
Proof.
  intros Hm Hk o. apply dwp_bind. eapply dwp_mono; [apply Hm|].
  intros [a|e] o1 (l1 & H1 & HP1); [|by exists l1].
  eapply dwp_mono; [apply Hk|]. intros r o2 (l2 & H2 & HP2). exists (l1 ++ l2).
  split; [by rewrite H2, H1, app_assoc|]. by apply Forall_app.
Qed.

Lemma emits_attempt {A} (m : M D E A) : emits m → emits (attempt m).
Proof. intros Hm o. apply dwp_attempt, Hm. Qed.

Lemma emits_exec_ err (f : D → D) : emits (exec_ err f).
Proof. apply emits_silent. intros o. by apply dwp_exec_. Qed.

Lemma emits_insert_row {A} err (f : D → result (A * D)) : emits (insert_row err f).
Proof. apply emits_silent. intros o. by apply dwp_insert_row. Qed.

Lemma emits_modify {A} (f : D → A * D) : emits (modify f).
Proof. apply emits_silent. intros o. by apply dwp_modify. Qed.

Lemma emits_output e : P e → emits (output e).
Proof. intros He o. apply dwp_output. exists [e]. split; [done|by constructor]. Qed.

Lemma emits_send err e : P e → emits (send err e).
Proof.
  intros He o. apply dwp_send.
  - intros e'. exists []. rewrite app_nil_r. split; [done|constructor].
  - exists [e]. split; [done|by constructor].
Qed.

(** A rolled-back transaction has still shown what it showed. *)
Lemma emits_tx {A} be ce (body : M D E (A * bool)) : emits body → emits (tx be ce body).
Proof.
  intros Hb o. apply dwp_tx.
  - intros e. exists []. rewrite app_nil_r. split; [done|constructor].
  - eapply dwp_mono; [apply Hb|]. intros [[a []]|e] o' Hl; simpl; auto.
Qed.

Lemma emits_foldM {A B} (f : B → A → M D E B) l :
  (∀ b x, emits (f b x)) → ∀ b, emits (foldM f b l).
Proof.
  intros Hf. induction l as [|x l IH]; intros b; simpl;
    [apply emits_quiet, quiet_ret|apply emits_bind; auto].
Qed.
End emits.

(** Follow the shape of a computation; the outputs are left. *)
Ltac emits_tac :=
  repeat lazymatch goal with
    | |- emits ?P (mbind _ _) => apply emits_bind; [|intros ?]
    | |- emits ?P (attempt _) => apply emits_attempt
    | |- emits ?P (exec_ _ _) => apply emits_exec_
    | |- emits ?P (insert_row _ _) => apply emits_insert_row
    | |- emits ?P (modify _) => apply emits_modify
    | |- emits ?P (output _) => apply emits_output
    | |- emits ?P (send _ _) => apply emits_send
    | |- emits ?P (tx _ _ _) => apply emits_tx
    | |- emits ?P (foldM _ _ _) => apply emits_foldM; intros ? ?
    | |- emits _ (match ?x with _ => _ end) => destruct x
    | |- emits ?P _ => apply emits_quiet; solve [quiet_tac]
    end.
