(* ===== verification/Json.v ===== *)
(** * JSON documents and the derived serde code

    [serde_json] itself is a third-party crate: turning text into a document
    and back is the parameter [SerdeText], with the round trip it documents as
    [SerdeTextLaws]. What [#[derive(Serialize, Deserialize)]] generates from the
    attributes in the sources is modelled on documents: unknown keys ignored,
    repeated keys rejected, [null] and absent both [None] for optional fields,
    structs also accepted as sequences, unit variants also as one-key objects. *)

From Stdlib Require Import Ascii.
From S2P Require Import Prelude.

#[warnings="-register-all"]
Inductive json : Type :=
| JNull
| JBool (b : bool)
| JNum (z : Z)
| JFloat (repr : string)
| JStr (s : string)
| JArr (l : list json)
| JObj (fs : list (string * json)).

(** Documents serde_json reads back as written: integers that fit [i64] or
    [u64], and no floating-point number. *)
Fixpoint json_ok (j : json) : bool :=
  match j with
  | JNum z => bool_decide (i64_min ≤ z < 2 ^ 64)
  | JFloat _ => false
  | JArr l => forallb json_ok l
  | JObj fs => forallb (λ p, json_ok p.2) fs
  | _ => true
  end.

Class SerdeText : Type := {
  to_text : json → string;
  of_text : string → option json;
}.

Class SerdeTextLaws `{SerdeText} : Prop :=
  of_to_text : ∀ j, json_ok j = true → of_text (to_text j) = Some j.

(** ** Derived deserialization *)

(** The key/value pairs a derived struct visitor sees: an object's, or a
    sequence's elements under the declared field names. *)
Definition struct_fields (names : list string) (j : json) : option (list (string * json)) :=
  match j with
  | JObj fs => Some fs
  | JArr l => if (length l <=? length names)%nat then Some (zip names l) else None
  | _ => None
  end.

(** [None]: repeated key; [Some None]: absent. *)
Definition field (k : string) (fs : list (string * json)) : option (option json) :=
  match filter (λ p, p.1 = k) fs with
  | [] => Some None
  | [(_, v)] => Some (Some v)
  | _ => None
  end.

Definition req {A} (de : json → option A) (k : string) (fs : list (string * json)) : option A :=
  match field k fs with
  | Some (Some v) => de v
  | _ => None
  end.

(** [#[serde(default)] Option<A>]. *)
Definition opt {A} (de : json → option A) (k : string) (fs : list (string * json))
    : option (option A) :=
  match field k fs with
  | None => None
  | Some None | Some (Some JNull) => Some None
  | Some (Some v) => Some <$> de v
  end.

Definition de_string (j : json) : option string :=
  match j with JStr s => Some s | _ => None end.
Definition de_bool (j : json) : option bool :=
  match j with JBool b => Some b | _ => None end.
Definition de_int (lo hi : Z) (j : json) : option Z :=
  match j with
  | JNum z => if (lo <=? z) && (z <=? hi) then Some z else None
  | _ => None
  end.
Definition de_i64 : json → option Z := de_int i64_min i64_max.
Definition de_u16 : json → option Z := de_int 0 65535.
Definition de_u32 : json → option Z := de_int 0 4294967295.

(** [Vec<A>] *)
Definition de_list {A} (de : json → option A) (j : json) : option (list A) :=
  match j with JArr l => mapM de l | _ => None end.

(** The text of a serde_json error. *)
Class SerdeErrors : Type := { de_error : string → string }.

(** [#[serde(default)] A]. *)
Definition req_or {A} (a : A) (de : json → option A) (k : string) (fs : list (string * json))
    : option A :=
  match field k fs with
  | None => None
  | Some None => Some a
  | Some (Some v) => de v
  end.

(** A unit-only enum: the variant's name, or an object [{name: null}]. *)
Definition de_variant {A} (parse : string → option A) (j : json) : option A :=
  match j with
  | JStr s => parse s
  | JObj [(s, JNull)] => parse s
  | _ => None
  end.

(** ** Derived serialization *)

(** The members of a derived object in declaration order; [None] is a member
    dropped by [skip_serializing_if = "Option::is_none"]. *)
Definition obj_fields (ms : list (string * option json)) : list (string * json) :=
  omap (λ p, (λ v, (p.1, v)) <$> p.2) ms.

(** [serde_json::to_value] of an [Option]: [null] when absent. *)
Definition json_opt {A} (se : A → json) (o : option A) : json :=
  from_option se JNull o.

Fixpoint obj_get (k : string) (fs : list (string * json)) : option json :=
  match fs with
  | [] => None
  | (k', v) :: fs' => if decide (k' = k) then Some v else obj_get k fs'
  end.

(** [Value::get]: a parsed [Value] keeps the last of repeated keys. *)
Definition value_get (k : string) (v : json) : option json :=
  match v with JObj fs => obj_get k (reverse fs) | _ => None end.

Lemma filter_key_none k (fs : list (string * json)) :
  k ∉ fs.*1 → filter (λ p, p.1 = k) fs = [].
Proof.
  induction fs as [|[k' v] fs IH]; simpl; [done|]. intros Hk.
  rewrite filter_cons_False by (simpl; set_solver). apply IH. set_solver.
Qed.

Lemma obj_fields_keys ms : (obj_fields ms).*1 ⊆ ms.*1.
Proof.
  intros k (p & -> & (q & Hp & Hq)%list_elem_of_omap)%list_elem_of_fmap.
  apply fmap_Some in Hq as (v & _ & ->). simpl. apply list_elem_of_fmap. eauto.
Qed.

(** Each member is found under its own name, present or dropped. *)
Lemma field_obj ms k o :
  NoDup ms.*1 → (k, o) ∈ ms → field k (obj_fields ms) = Some o.
Proof.
  unfold field. induction ms as [|[k' o'] ms IH]; simpl; intros Hnd Hin; [set_solver|].
  apply NoDup_cons in Hnd as [Hk Hnd]. apply elem_of_cons in Hin as [[= <- <-]|Hin].
  - assert (filter (λ p, p.1 = k) (obj_fields ms) = []) as Hnone.
    { apply filter_key_none. intros ?%obj_fields_keys. done. }
    destruct o as [v|]; simpl; [|by rewrite Hnone].
    by rewrite filter_cons_True, Hnone.
  - assert (k' ≠ k) as Hne by (intros ->; apply Hk, list_elem_of_fmap; by exists (k, o)).
    destruct o' as [v|]; simpl; [rewrite filter_cons_False by done|]; by apply IH.
Qed.

Lemma req_obj {A} (de : json → option A) fs ms k v :
  fs = obj_fields ms → NoDup ms.*1 → (k, Some v) ∈ ms → req de k fs = de v.
Proof. intros -> Hnd Hin. unfold req. by rewrite (field_obj ms k (Some v)). Qed.

(** A derived object is fit for printing when its members are. *)
Lemma json_obj_ok ms :
  Forall (λ p : string * option json, ∀ j, p.2 = Some j → json_ok j = true) ms →
  json_ok (JObj (obj_fields ms)) = true.
Proof.
  intros Hms. simpl. apply forallb_forall. intros p Hp%list_elem_of_In.
  apply list_elem_of_omap in Hp as (q & Hq & (v & Hv & ->)%fmap_Some).
  rewrite Forall_forall in Hms. by apply (Hms _ Hq).
Qed.

(** A member value that reads back under [de] as [a]. *)
Definition reads {A} (de : json → option A) (se : A → json) (a : A) : Prop :=
  de (se a) = Some a ∧ se a ≠ JNull.

(** An optional member reads back, as no serializer of the sources yields [null]. *)
Lemma opt_obj {A} (de : json → option A) (se : A → json) fs ms k (o : option A) :
  fs = obj_fields ms → NoDup ms.*1 → (k, se <$> o) ∈ ms →
  (∀ a, o = Some a → reads de se a) →
  opt de k fs = Some o.
Proof.
  intros -> Hnd Hin Hde. unfold opt. rewrite (field_obj ms k (se <$> o)) by done.
  destruct o as [a|]; simpl; [|done].
  destruct (Hde a eq_refl) as [Ha Hn]. rewrite Ha. by destruct (se a).
Qed.

Lemma de_int_id lo hi z : lo ≤ z ≤ hi → de_int lo hi (JNum z) = Some z.
Proof. intros [??]. unfold de_int. by rewrite !(proj2 (Z.leb_le _ _)). Qed.

Lemma reads_string s : reads de_string JStr s.
Proof. done. Qed.
Lemma reads_int lo hi z : lo ≤ z ≤ hi → reads (de_int lo hi) JNum z.
Proof. intros Hz. by split; [apply de_int_id|]. Qed.
Lemma reads_variant {A} (parse : string → option A) (as_str : A → string) a :
  parse (as_str a) = Some a → reads (de_variant parse) (JStr ∘ as_str) a.
Proof. done. Qed.

Create HintDb serde.
#[export] Hint Resolve reads_string : serde.

(** Membership in a literal list, possibly under existential variables. *)
Ltac obj_member := repeat (first [apply list_elem_of_here | apply list_elem_of_further]).

Lemma option_bind_step {A B} (m : option A) (f : A → option B) a r :
  m = Some a → f a = r → m ≫= f = r.
Proof. by intros ->. Qed.

Lemma req_reads {A} (de : json → option A) (se : A → json) fs ms k a :
  fs = obj_fields ms → NoDup ms.*1 → (k, Some (se a)) ∈ ms → reads de se a →
  req de k fs = Some a.
Proof. intros Hfs Hnd Hin [Ha _]. by rewrite (req_obj de fs ms k (se a)). Qed.

(** Read the next member of [fs], with [fs = obj_fields ms] in [Hfs] and
    [NoDup ms.*1] in [Hnd]. *)
Ltac serde_member Hfs Hnd :=
  eapply option_bind_step;
  [ lazymatch goal with
    | |- req _ _ _ = _ => eapply req_reads; [exact Hfs|exact Hnd|obj_member|eauto with serde]
    | |- opt _ _ _ = _ =>
        eapply opt_obj; [exact Hfs|exact Hnd|obj_member|intros ? ?; eauto with serde]
    end
  | cbv beta ].

(** ** A concrete text codec, for the examples and witnesses *)

Section json_ind.
Context (P : json → Prop)
  (Hnull : P JNull) (Hbool : ∀ b, P (JBool b)) (Hnum : ∀ z, P (JNum z))
  (Hfloat : ∀ s, P (JFloat s)) (Hstr : ∀ s, P (JStr s))
  (Harr : ∀ l, Forall P l → P (JArr l))
  (Hobj : ∀ fs, Forall (λ p, P p.2) fs → P (JObj fs)).

Fixpoint json_nested_ind (j : json) : P j :=
  match j with
  | JNull => Hnull
  | JBool b => Hbool b
  | JNum z => Hnum z
  | JFloat s => Hfloat s
  | JStr s => Hstr s
  | JArr l => Harr l ((fix go l := match l return Forall P l with
      | [] => Forall_nil_2 _
      | x :: l' => Forall_cons_2 _ _ _ (json_nested_ind x) (go l')
      end) l)
  | JObj fs => Hobj fs ((fix go l := match l return Forall (λ p, P p.2) l with
      | [] => Forall_nil_2 _
      | x :: l' => Forall_cons_2 _ _ _ (json_nested_ind x.2) (go l')
      end) fs)
  end.
End json_ind.

Module PlainText.
Definition leaf : Type := bool + Z + string + string.

Fixpoint to_tree (j : json) : gen_tree leaf :=
  match j with
  | JNull => GenNode 0 []
  | JBool b => GenLeaf (inl (inl (inl b)))
  | JNum z => GenLeaf (inl (inl (inr z)))
  | JFloat s => GenLeaf (inl (inr s))
  | JStr s => GenLeaf (inr s)
  | JArr l => GenNode 1 (to_tree <$> l)
  | JObj fs => GenNode 2 ((λ p, GenNode 3 [GenLeaf (inr p.1); to_tree p.2]) <$> fs)
  end.

Fixpoint of_tree (t : gen_tree leaf) : json :=
  match t with
  | GenLeaf (inl (inl (inl b))) => JBool b
  | GenLeaf (inl (inl (inr z))) => JNum z
  | GenLeaf (inl (inr s)) => JFloat s
  | GenLeaf (inr s) => JStr s
  | GenNode 1 ts => JArr (of_tree <$> ts)
  | GenNode 2 ts => JObj ((λ t, match t with
      | GenNode _ [GenLeaf (inr k); v] => (k, of_tree v)
      | _ => ("", JNull)
      end) <$> ts)
  | GenNode _ _ => JNull
  end.

Lemma of_to_tree j : of_tree (to_tree j) = j.
Proof.
  induction j as [| | | | |l IH|fs IH] using json_nested_ind; simpl; auto.
  - f_equal. induction IH as [|x l Hx _ IH]; simpl; [done|]. by f_equal.
  - f_equal. induction IH as [|[k v] fs Hx _ IH]; simpl in *; [done|]. f_equal; [by rewrite Hx|done].
Qed.

Fixpoint bits (p : positive) : string :=
  match p with
  | xH => ""
  | xO p' => String "0"%char (bits p')
  | xI p' => String "1"%char (bits p')
  end.

Fixpoint unbits (s : string) : option positive :=
  match s with
  | EmptyString => Some xH
  | String "0"%char s' => xO <$> unbits s'
  | String "1"%char s' => xI <$> unbits s'
  | _ => None
  end.

Lemma unbits_bits p : unbits (bits p) = Some p.
Proof. induction p; simpl; by rewrite ?IHp. Qed.

Definition print (j : json) : string := bits (encode (to_tree j)).
Definition parse (s : string) : option json :=
  p ← unbits s; of_tree <$> decode p.

#[export] Instance codec : SerdeText := {| to_text := print; of_text := parse |}.

#[export] Instance codec_laws : SerdeTextLaws.
Proof.
  intros j _. unfold of_text, to_text, codec, parse, print.
  rewrite unbits_bits; simpl. rewrite decode_encode; simpl. by rewrite of_to_tree.
Qed.
End PlainText.
