(* ===== verification/Lww.v ===== *)
(** * Last-writer-wins registers: the contract of the replicated records

    The replicas promise that a stored value changes only to a write with a
    strictly newer stamp ("newest wins, equal keeps the stored one"). [Register]
    is that promise as an interface; the components instantiate it (policy
    flags, event rows, RSVPs, doc rows) and inherit convergence. *)

From S2P Require Import Prelude.

(** ** The specification *)

Section spec.
Context {V : Type}.

Definition lww_step (s : Z * V) (w : Z * V) : Z * V :=
  if s.1 <? w.1 then w else s.

Definition lww_fold (s : Z * V) (ws : list (Z * V)) : Z * V :=
  foldl lww_step s ws.

Lemma lww_step_stamp s w : (lww_step s w).1 = Z.max s.1 w.1.
Proof. unfold lww_step. case_match; bool_facts; lia. Qed.

Lemma lww_step_comm s w1 w2 :
  w1.1 ≠ w2.1 → lww_step (lww_step s w1) w2 = lww_step (lww_step s w2) w1.
Proof.
  intros Hne. unfold lww_step. destruct s, w1, w2; simpl in *.
  repeat (case_match; simpl in *; bool_facts); try done; lia.
Qed.

Lemma lww_step_idemp s w : lww_step (lww_step s w) w = lww_step s w.
Proof.
  unfold lww_step. repeat (case_match; simpl in *; bool_facts); done || lia.
Qed.

Lemma lww_fold_stamp_ge ws : ∀ s, s.1 ≤ (lww_fold s ws).1.
Proof.
  induction ws as [|w ws IH]; intros s; [done|]. simpl.
  specialize (IH (lww_step s w)). rewrite lww_step_stamp in IH.
  unfold lww_fold in *. lia.
Qed.

(** The result is the initial value or one of the writes, and nothing is newer. *)
Lemma lww_fold_max ws : ∀ s,
  (lww_fold s ws = s ∨ lww_fold s ws ∈ ws) ∧
  Forall (λ w, w.1 ≤ (lww_fold s ws).1) ws.
Proof.
  induction ws as [|w ws IH]; intros s; [by split; [left|constructor]|].
  change (lww_fold s (w :: ws)) with (lww_fold (lww_step s w) ws).
  destruct (IH (lww_step s w)) as [[He|He] Hall].
  - split; [|constructor; [|done]].
    + rewrite He. unfold lww_step. case_match; [right; set_solver|by left].
    + pose proof (lww_fold_stamp_ge ws (lww_step s w)) as Hge.
      rewrite lww_step_stamp in Hge. lia.
  - split; [right; set_solver|]. constructor; [|done].
    pose proof (lww_fold_stamp_ge ws (lww_step s w)) as Hge.
    rewrite lww_step_stamp in Hge. lia.
Qed.

Lemma lww_fold_perm ws ws' :
  ws ≡ₚ ws' → NoDup (fst <$> ws) → ∀ s, lww_fold s ws = lww_fold s ws'.
Proof.
  induction 1 as [|w ws ws' Hp IH|w1 w2 ws|ws1 ws2 ws3 Hp1 IH1 Hp2 IH2];
    intros Hnd s; simpl in *.
  - done.
  - apply NoDup_cons in Hnd as [_ Hnd]. by apply IH.
  - apply NoDup_cons in Hnd as [Hw _]. simpl.
    unfold lww_fold; simpl. rewrite lww_step_comm; [done|]. set_solver.
  - rewrite IH1 by done. apply IH2. by rewrite <- Hp1.
Qed.
End spec.

(** ** The interface *)

Class Register (T W V : Type) : Type := {
  reg_stamp : T → Z;
  reg_val : T → V;
  wr_stamp : W → Z;
  wr_val : W → V;
  (** The write is addressed to this register and may be taken. *)
  reg_ok : T → W → Prop;
  (** Two writes the register can tell apart. *)
  wr_compat : W → W → Prop;
  reg_apply : T → W → T;
}.

Class RegisterLaws (T W V : Type) `{Register T W V} : Prop := {
  reg_newer : ∀ s w, reg_ok s w → reg_stamp s < wr_stamp w →
    reg_stamp (reg_apply s w) = wr_stamp w ∧ reg_val (reg_apply s w) = wr_val w;
  reg_older : ∀ s w, reg_ok s w → wr_stamp w ≤ reg_stamp s →
    reg_stamp (reg_apply s w) = reg_stamp s ∧ reg_val (reg_apply s w) = reg_val s;
  reg_ok_apply : ∀ s w w', reg_ok s w → reg_ok s w' → wr_compat w w' →
    reg_ok (reg_apply s w') w;
}.

Section register.
Context `{RegisterLaws T W V}.

(** What a reader sees of a register. *)
Definition reg_view (s : T) : Z * V := (reg_stamp s, reg_val s).
Definition wr_view (w : W) : Z * V := (wr_stamp w, wr_val w).
Definition reg_fold (s : T) (ws : list W) : T := foldl reg_apply s ws.

#[export] Instance reg_equiv : Equiv T := λ s s', reg_view s = reg_view s'.
#[export] Instance reg_equivalence : Equivalence (≡@{T}).
Proof.
  split; unfold equiv, reg_equiv; intros ?; [done|by intros ? ->|congruence].
Qed.

Lemma reg_apply_view s w :
  reg_ok s w → reg_view (reg_apply s w) = lww_step (reg_view s) (wr_view w).
Proof.
  intros Hok. unfold lww_step, reg_view, wr_view; simpl. case_match; bool_facts.
  - by destruct (reg_newer s w) as [-> ->].
  - by destruct (reg_older s w) as [-> ->].
Qed.

#[export] Instance reg_view_proper : Proper ((≡) ==> (=)) reg_view.
Proof. by intros ???. Qed.

(** Distinguishable writes keep each other applicable. *)
Definition writes_ok (s : T) (ws : list W) : Prop :=
  Forall (reg_ok s) ws ∧ (∀ w w', w ∈ ws → w' ∈ ws → wr_compat w w').

Lemma writes_ok_tail s w ws : writes_ok s (w :: ws) → writes_ok (reg_apply s w) ws.
Proof.
  intros [Hok Hc]. apply Forall_cons in Hok as [Hw Hok]. split.
  - rewrite Forall_forall in Hok |- *. intros w' Hw'.
    apply reg_ok_apply; [by apply Hok|done|]. apply Hc; set_solver.
  - intros. apply Hc; set_solver.
Qed.

Lemma writes_ok_perm s ws ws' : ws ≡ₚ ws' → writes_ok s ws → writes_ok s ws'.
Proof. intros Hp [Hok Hc]. split; [by rewrite <- Hp|]. intros; apply Hc; by rewrite Hp. Qed.

(** Refinement: the register computes the specification's fold. *)
Lemma reg_fold_refines ws : ∀ s,
  writes_ok s ws → reg_view (reg_fold s ws) = lww_fold (reg_view s) (wr_view <$> ws).
Proof.
  induction ws as [|w ws IH]; intros s Hok; [done|]. simpl.
  unfold reg_fold in *; simpl. rewrite (IH (reg_apply s w)) by by apply writes_ok_tail.
  destruct Hok as [[Hw _]%Forall_cons _]. by rewrite reg_apply_view.
Qed.

Lemma reg_converges s ws ws' :
  ws ≡ₚ ws' → writes_ok s ws → NoDup (wr_stamp <$> ws) →
  reg_fold s ws ≡ reg_fold s ws'.
Proof.
  intros Hp Hok Hnd. unfold equiv, reg_equiv.
  rewrite !reg_fold_refines by eauto using writes_ok_perm.
  apply lww_fold_perm; [by rewrite Hp|].
  rewrite <- list_fmap_compose. exact Hnd.
Qed.

Lemma reg_fold_stamp_mono s ws :
  writes_ok s ws → reg_stamp s ≤ reg_stamp (reg_fold s ws).
Proof.
  intros Hok. pose proof (reg_fold_refines ws s Hok) as Hv.
  pose proof (lww_fold_stamp_ge (wr_view <$> ws) (reg_view s)) as Hge.
  rewrite <- Hv in Hge. done.
Qed.
End register.

(** ** Equal stamps replace: the last of the newest writes

    The rule of the governance snapshots and of the poll votes. *)

Section newest.
Context {A : Type} (stamp : A → Z).

(** [x] is in [l], no earlier element is higher, every later one is lower. *)
Definition newest (l : list A) (x : A) : Prop :=
  ∃ l1 l2, l = l1 ++ x :: l2 ∧ Forall (λ y, stamp y ≤ stamp x) l1 ∧ Forall (λ y, stamp y < stamp x) l2.

Definition newer (cur : option A) (c : A) : option A :=
  match cur with
  | Some x => if stamp c <? stamp x then Some x else Some c
  | None => Some c
  end.

Lemma newest_snoc l x c : newest l x →
  newest (l ++ [c]) (if stamp c <? stamp x then x else c).
Proof.
  intros (l1 & l2 & -> & H1 & H2). destruct (Z.ltb_spec (stamp c) (stamp x)) as [Hc|Hc].
  - exists l1, (l2 ++ [c]). rewrite <- app_assoc. split; [done|]. split; [done|].
    apply Forall_app. split; [done|]. by constructor.
  - exists (l1 ++ x :: l2), []. split; [done|]. split; [|done]. apply Forall_app. split.
    + eapply Forall_impl; [exact H1|]. simpl. lia.
    + constructor; [done|]. eapply Forall_impl; [exact H2|]. simpl. lia.
Qed.

Lemma foldl_newer l start :
  match foldl newer start l with
  | Some x => newest (option_list start ++ l) x
  | None => start = None ∧ l = []
  end.
Proof.
  induction l as [|c l IH] using rev_ind; simpl.
  - destruct start as [x|]; [|done]. by exists [], [].
  - rewrite foldl_snoc. destruct (foldl newer start l) as [x|] eqn:Hx; simpl.
    + rewrite app_assoc. pose proof (newest_snoc _ _ c IH) as Hn. by destruct (stamp c <? stamp x).
    + destruct IH as [-> ->]. by exists [], [].
Qed.
End newest.

(** ** Maps of such registers *)

Section offers.
Context `{Countable K} {V : Type} (stamp : V → Z).

(** Write what is offered, if anything, unless the stored row is newer. *)
Definition offer (c : option (K * V)) (m : gmap K V) : gmap K V :=
  match c with
  | None => m
  | Some (k, r) => from_option (λ x, <[k := x]> m) m (newer stamp (m !! k) r)
  end.

(** What is offered for one key. *)
Definition offers_for (k : K) (cs : list (option (K * V))) : list V :=
  omap (λ c, x ← c; if decide (x.1 = k) then Some x.2 else None) cs.

Lemma offer_lookup k c m :
  offer c m !! k = foldl (newer stamp) (m !! k) (offers_for k [c]).
Proof.
  destruct c as [[k' r]|]; [|done]. unfold offers_for. cbn -[newer decide]. case_decide as Hk; simpl in Hk.
  - subst k'. unfold newer. destruct (m !! k) as [x|] eqn:Hx; cbn; [destruct (_ <? _); cbn|]; by rewrite lookup_insert_eq.
  - cbn. destruct (newer _ _ _); cbn; [by rewrite lookup_insert_ne|done].
Qed.

Lemma history_lookup k cs : ∀ m,
  foldl (flip offer) m cs !! k = foldl (newer stamp) (m !! k) (offers_for k cs).
Proof.
  induction cs as [|c cs IH]; intros m; [done|].
  change (foldl (flip offer) m (c :: cs)) with (foldl (flip offer) (offer c m) cs).
  rewrite IH, offer_lookup, <- foldl_app. f_equal. unfold offers_for.
  change (c :: cs) with ([c] ++ cs). by rewrite omap_app.
Qed.

(** After any offers, a key holds the last of the newest rows offered for it. *)
Lemma history_newest k cs m :
  let offers := option_list (m !! k) ++ offers_for k cs in
  match foldl (flip offer) m cs !! k with
  | Some r => newest stamp offers r
  | None => offers = []
  end.
Proof.
  cbv zeta. rewrite history_lookup. pose proof (foldl_newer stamp (offers_for k cs) (m !! k)) as Hn.
  destruct (foldl _ _ _); [done|]. destruct Hn as [-> ->]. done.
Qed.

Lemma offers_for_perm k cs cs' : cs ≡ₚ cs' → offers_for k cs ≡ₚ offers_for k cs'.
Proof. apply omap_Permutation. Qed.

(** With one stamp per row the newest row does not depend on the order. *)
Lemma newest_max l x : newest stamp l x → x ∈ l ∧ ∀ y, y ∈ l → stamp y ≤ stamp x.
Proof.
  intros (l1 & l2 & -> & H1 & H2). rewrite Forall_forall in H1, H2. split; [set_solver|].
  intros y [Hy|[->|Hy]%elem_of_cons]%elem_of_app; [auto|lia|]. apply H2 in Hy. lia.
Qed.

Lemma newest_perm l l' x y : l ≡ₚ l' → (∀ a b, a ∈ l → b ∈ l → stamp a = stamp b → a = b) →
  newest stamp l x → newest stamp l' y → x = y.
Proof.
  intros Hp Hd [Hx Hmx]%newest_max [Hy Hmy]%newest_max. rewrite <- Hp in Hy.
  apply Hd; [done..|]. assert (stamp y ≤ stamp x) by auto.
  assert (stamp x ≤ stamp y) by (apply Hmy; by rewrite <- Hp). lia.
Qed.

Lemma history_perm cs cs' m : cs ≡ₚ cs' →
  (∀ k a b, a ∈ option_list (m !! k) ++ offers_for k cs →
     b ∈ option_list (m !! k) ++ offers_for k cs → stamp a = stamp b → a = b) →
  foldl (flip offer) m cs = foldl (flip offer) m cs'.
Proof.
  intros Hp Hd. apply map_eq. intros k.
  pose proof (history_newest k cs m) as H1. pose proof (history_newest k cs' m) as H2. cbv zeta in H1, H2.
  assert (option_list (m !! k) ++ offers_for k cs ≡ₚ option_list (m !! k) ++ offers_for k cs') as Hk
    by (by rewrite (offers_for_perm k cs cs' Hp)).
  destruct (foldl (flip offer) m cs !! k) as [x|], (foldl (flip offer) m cs' !! k) as [y|]; [..|done].
  - f_equal. eapply newest_perm; eauto.
  - rewrite H2 in Hk. apply Permutation_nil_r in Hk. destruct H1 as (? & ? & He & _). rewrite Hk in He. by destruct x0.
  - rewrite H1 in Hk. symmetry in Hk. apply Permutation_nil_r in Hk. destruct H2 as (? & ? & He & _). rewrite Hk in He. by destruct x.
Qed.
End offers.
