(* ===== verification/CivilTime.v ===== *)
(** * Civil-time conversions ([squad_event_time.rs])

    The [chrono] and [chrono_tz] crates are the parameter [Chrono]: parsing and
    formatting of naive dates, checked addition, and the local-time lookup of a
    zone. The gap walk, the weekly series and the error mapping are the
    source's. *)

From S2P Require Import Prelude.

(** [chrono::LocalResult] of a zone lookup, each instant as unix seconds. *)
Inductive LocalResult : Type :=
| LNone
| Single (t : Z)
| Ambiguous (a b : Z).

Class Chrono : Type := {
  NaiveDate : Type;
  NaiveTime : Type;
  NaiveDateTime : Type;
  Tz : Type;
  (** [tzid.parse::<Tz>()] *)
  tz_of_str : string → option Tz;
  (** [NaiveDateTime::parse_from_str], [NaiveDate::parse_from_str], [format]:
      value, then format string *)
  ndt_parse : string → string → option NaiveDateTime;
  nd_parse : string → string → option NaiveDate;
  nd_format : NaiveDate → string → string;
  (** [checked_add_days] and [checked_add_signed(TimeDelta::minutes(_))] *)
  ndt_add_days : NaiveDateTime → Z → option NaiveDateTime;
  ndt_add_minutes : NaiveDateTime → Z → option NaiveDateTime;
  nd_add_days : NaiveDate → Z → option NaiveDate;
  nd_le : NaiveDate → NaiveDate → bool;
  nt_from_hms : Z → Z → Z → option NaiveTime;
  nd_and_time : NaiveDate → NaiveTime → NaiveDateTime;
  (** [tz.from_local_datetime(..)], and the same for [chrono::Local] *)
  tz_from_local : Tz → NaiveDateTime → LocalResult;
  local_from_local : NaiveDateTime → LocalResult;
}.

Section civil.
Context `{Chrono}.

Definition LOCAL_FORMAT : string := "%Y-%m-%dT%H:%M".
Definition DATE_FORMAT : string := "%Y-%m-%d".
Definition MAX_GAP_MINUTES : Z := 26 * 60.

Definition parse_tz (tzid : string) : result Tz :=
  ok_or (tz_of_str tzid) ("unknown time zone: " +:+ tzid).

Definition parse_local (local : string) : result NaiveDateTime :=
  ok_or (ndt_parse local LOCAL_FORMAT) "expected local time YYYY-MM-DDTHH:MM".

Definition parse_date (date : string) : result NaiveDate :=
  ok_or (nd_parse date DATE_FORMAT) "expected date YYYY-MM-DD".

Definition validate_tzid (tzid : string) : result unit :=
  let? _ := parse_tz tzid in Ok tt.

(** [u64::try_from(i)], then [checked_mul(7)]. *)
Definition weeks (i : nat) : result Z :=
  let days := Z.of_nat i * 7 in
  if days <? 2 ^ 64 then Ok days else Err "too many occurrences".

(** The body of [resolve]'s loop, [n] iterations left. *)
Fixpoint resolve_loop (zone : NaiveDateTime → LocalResult)
    (n : nat) (candidate : NaiveDateTime) : result Z :=
  match n with
  | O => Err "local time does not exist in this time zone"
  | S n' =>
      match zone candidate with
      | Single t => Ok t
      | Ambiguous a b => Ok (Z.min a b)
      | LNone =>
          let? next := ok_or (ndt_add_minutes candidate 1) "date out of range" in
          resolve_loop zone n' next
      end
  end.

(** [for _ in 0..=MAX_GAP_MINUTES] runs [MAX_GAP_MINUTES + 1] times. *)
Definition resolve (zone : NaiveDateTime → LocalResult) (naive : NaiveDateTime) : result Z :=
  resolve_loop zone (Z.to_nat (MAX_GAP_MINUTES + 1)) naive.

Definition civil_to_unix (local tzid : string) : result Z :=
  let? tz := parse_tz tzid in
  let? naive := parse_local local in
  resolve (tz_from_local tz) naive.

Definition weekly_timed_starts (local tzid : string) (count : nat) : result (list Z) :=
  let? tz := parse_tz tzid in
  let? first := parse_local local in
  rmapM (λ i,
    let? days := weeks i in
    let? naive := ok_or (ndt_add_days first days) "date out of range" in
    resolve (tz_from_local tz) naive) (seq 0 count).

Definition weekly_all_day_dates (date : string) (count : nat) : result (list string) :=
  let? first := parse_date date in
  rmapM (λ i,
    let? days := weeks i in
    ok_or ((λ d, nd_format d DATE_FORMAT) <$> nd_add_days first days)
      "date out of range") (seq 0 count).

(** [None] for [tzid] is the system zone. *)
Definition civil_date_time_to_unix (date : string) (hour minute : Z)
    (tzid : option string) : result Z :=
  let? time := ok_or (nt_from_hms hour minute 0) "invalid time" in
  let? d := parse_date date in
  let naive := nd_and_time d time in
  match tzid with
  | Some tzid => let? tz := parse_tz tzid in resolve (tz_from_local tz) naive
  | None => resolve local_from_local naive
  end.

(** ** The gap walk *)

(** [k] minutes after [n], when every step stays in range. *)
Fixpoint minutes_after (k : nat) (n : NaiveDateTime) : option NaiveDateTime :=
  match k with
  | O => Some n
  | S k' => n' ← ndt_add_minutes n 1; minutes_after k' n'
  end.

(** The instant a zone gives a wall clock, the earlier one when ambiguous. *)
Definition instant (r : LocalResult) : option Z :=
  match r with
  | LNone => None
  | Single t => Some t
  | Ambiguous a b => Some (Z.min a b)
  end.

Definition first_valid (zone : NaiveDateTime → LocalResult) (n : NaiveDateTime)
    (k : nat) (t : Z) : Prop :=
  (∃ c, minutes_after k n = Some c ∧ instant (zone c) = Some t) ∧
  ∀ j, (j < k)%nat → ∃ c, minutes_after j n = Some c ∧ zone c = LNone.

Lemma first_valid_S zone n n' k t :
  zone n = LNone → ndt_add_minutes n 1 = Some n' →
  first_valid zone n (S k) t ↔ first_valid zone n' k t.
Proof.
  intros Hz Hn. unfold first_valid. simpl. rewrite Hn; simpl.
  split; intros [Hk Hj]; (split; [done|]).
  - intros j Hjk. destruct (Hj (S j)) as (c & Hc & Hcz); [lia|].
    simpl in Hc. rewrite Hn in Hc. eauto.
  - intros [|j] Hjk; [by exists n|]. simpl. rewrite Hn. apply Hj. lia.
Qed.

Lemma resolve_loop_ok zone : ∀ fuel n t,
  resolve_loop zone fuel n = Ok t ↔ ∃ k, (k < fuel)%nat ∧ first_valid zone n k t.
Proof.
  assert (∀ n t t', instant (zone n) = Some t' →
    (t' = t ↔ first_valid zone n 0 t)) as H0.
  { intros n t t' Hi. split.
    - intros ->. split; [by exists n|lia].
    - intros [(c & [= <-] & Hc) _]. congruence. }
  assert (∀ n t' k t, instant (zone n) = Some t' → first_valid zone n (S k) t → False) as HS.
  { intros n t' k t Hi [_ Hj]. destruct (Hj 0%nat) as (c & [= <-] & Hz); [lia|].
    rewrite Hz in Hi. done. }
  induction fuel as [|fuel IH]; intros n t; [simpl; naive_solver lia|]. simpl.
  destruct (zone n) as [|t'|a b] eqn:Hz.
  - destruct (ndt_add_minutes n 1) as [n'|] eqn:Hn; simpl.
    + rewrite IH. setoid_rewrite <- (first_valid_S zone n n') at 1; [|done..].
      split; [intros (k & ? & ?); exists (S k); split; [lia|done]|].
      intros ([|k] & ? & Hf); [|exists k; split; [lia|done]].
      destruct Hf as [(c & [= <-] & Hc) _]. rewrite Hz in Hc. done.
    + split; [done|]. intros ([|k] & ? & (c & Hc & Hi) & _); simpl in Hc.
      * simplify_eq. rewrite Hz in Hi. done.
      * by rewrite Hn in Hc.
  - specialize (H0 n t t'). rewrite Hz in H0. specialize (H0 eq_refl).
    split; [intros [= <-]; exists 0%nat; split; [lia|by apply H0]|].
    intros ([|k] & ? & Hf); [f_equal; by apply H0|].
    exfalso. eapply HS; [|done]. by rewrite Hz.
  - specialize (H0 n t (Z.min a b)). rewrite Hz in H0. specialize (H0 eq_refl).
    split; [intros [= <-]; exists 0%nat; split; [lia|by apply H0]|].
    intros ([|k] & ? & Hf); [f_equal; by apply H0|].
    exfalso. eapply HS; [|done]. by rewrite Hz.
Qed.

(** [resolve] returns exactly the instant of the first valid wall clock at or
    after the given one, if there is one within [MAX_GAP_MINUTES] minutes. *)
Lemma resolve_ok zone n t :
  resolve zone n = Ok t ↔
  ∃ k, Z.of_nat k ≤ MAX_GAP_MINUTES ∧ first_valid zone n k t.
Proof.
  unfold resolve. rewrite resolve_loop_ok. unfold MAX_GAP_MINUTES.
  split; intros (k & ? & ?); exists k; (split; [lia|done]).
Qed.

Lemma weeks_ok i days : weeks i = Ok days ↔ days = Z.of_nat i * 7 ∧ days < 2 ^ 64.
Proof. unfold weeks. case_match; bool_facts; split; naive_solver lia. Qed.

(** ** The weekly series *)

(** The [i]-th start of a series is the resolution of the first wall clock
    moved by [7 * i] civil days. *)
Lemma weekly_timed_starts_ok local tzid count l :
  weekly_timed_starts local tzid count = Ok l ↔
  ∃ tz first, tz_of_str tzid = Some tz ∧ ndt_parse local LOCAL_FORMAT = Some first ∧
    length l = count ∧
    ∀ i, (i < count)%nat → ∃ naive t,
      ndt_add_days first (Z.of_nat i * 7) = Some naive ∧ Z.of_nat i * 7 < 2 ^ 64 ∧
      resolve (tz_from_local tz) naive = Ok t ∧ l !! i = Some t.
Proof.
  unfold weekly_timed_starts, parse_tz, parse_local. split.
  - destruct (tz_of_str tzid) as [tz|]; simpl; [|done].
    destruct (ndt_parse local LOCAL_FORMAT) as [first|]; simpl; [|done].
    intros Hl. exists tz, first. split_and!; [done..| |].
    { apply rmapM_length in Hl. by rewrite length_seq in Hl. }
    apply rmapM_ok in Hl. intros i Hi.
    destruct (Forall2_lookup_l _ _ _ i i Hl) as (t & Ht & Hr).
    { rewrite lookup_seq. split; lia. }
    apply rbind_ok in Hr as (days & [-> Hlt]%weeks_ok & Hr).
    apply rbind_ok in Hr as (naive & Hn & Hr).
    exists naive, t. destruct (ndt_add_days first (Z.of_nat i * 7)); naive_solver.
  - intros (tz & first & -> & -> & Hlen & Hl). simpl. apply rmapM_ok.
    apply Forall2_same_length_lookup_2; [by rewrite length_seq|].
    intros i x y [-> Hi]%lookup_seq Hy. simpl in *.
    destruct (Hl i) as (naive & t & Hn & Hlt & Hr & Ht); [done|].
    replace (weeks i) with (Ok (Z.of_nat i * 7)) by (symmetry; by apply weeks_ok).
    simpl. rewrite Hn; simpl. congruence.
Qed.

Lemma weekly_timed_starts_length local tzid count l :
  weekly_timed_starts local tzid count = Ok l → length l = count.
Proof. intros (? & ? & _ & _ & ? & _)%weekly_timed_starts_ok. done. Qed.

Lemma weekly_all_day_dates_length date count l :
  weekly_all_day_dates date count = Ok l → length l = count.
Proof.
  unfold weekly_all_day_dates. intros (d & _ & Hl)%rbind_ok.
  apply rmapM_length in Hl. by rewrite length_seq in Hl.
Qed.
End civil.
