(* ===== verification/EventModel.v ===== *)
(** * Squad events: data, validation, wire format ([squad_event.rs], first half)

    The types of [squad_event.rs], the validation of form input and of peer
    wires, the wire builders, the derived serde code and the card JSON. *)

From S2P Require Import Prelude Json CivilTime.

(** [hex::encode(Sha256::digest(..))] *)
Class Hashing : Type := { sha256_hex : string → string }.

Definition SCHEMA : string := "pacto.squad_event.v1".
Definition KIND_ALL_DAY : Z := 31922.
Definition KIND_TIMED : Z := 31923.
Definition WEEKLY_SERIES_COUNT : nat := 8.
Definition REPLICA_UPDATED_EVENT : string := "squad_event_replica_updated".
Definition MAX_FUTURE_SKEW_MS : Z := 5 * 60 * 1000.
Definition MAX_PENDING_PER_AUTHOR : nat := 200.
Definition PENDING_TTL_MS : Z := 30 * 24 * 60 * 60 * 1000.

(** [pub mod err] *)
Module err.
Definition NOT_MEMBER : string := "squad_records_not_member".
Definition WRONG_GROUP : string := "squad_records_wrong_group".
Definition CREATE_RESTRICTED : string := "squad_event_create_restricted".
Definition NOT_FOUND : string := "squad_event_not_found".
Definition NOT_EDITABLE : string := "squad_event_not_editable".
Definition INVALID_TITLE : string := "squad_event_invalid_title".
Definition INVALID_ZONE : string := "squad_event_invalid_zone".
Definition INVALID_TIME : string := "squad_event_invalid_time".
Definition INVALID_PLACE : string := "squad_event_invalid_place".
Definition INVALID_SERIES : string := "squad_event_invalid_series".
End err.

Inductive Place : Type := Online | Offline.
Inductive RsvpStatus : Type := Accepted | Tentative | Declined.
Inductive EventStatus : Type := Active | Cancelled.
Inductive Op : Type := Create | Update | Rsvp | Cancel | SeriesCard.

#[export] Instance Place_eq_dec : EqDecision Place.
Proof. solve_decision. Defined.
#[export] Instance RsvpStatus_eq_dec : EqDecision RsvpStatus.
Proof. solve_decision. Defined.
#[export] Instance EventStatus_eq_dec : EqDecision EventStatus.
Proof. solve_decision. Defined.
#[export] Instance Op_eq_dec : EqDecision Op.
Proof. solve_decision. Defined.

Definition Place_as_str (p : Place) : string :=
  match p with Online => "online" | Offline => "offline" end.
Definition Place_parse (s : string) : option Place :=
  if decide (s = "online") then Some Online
  else if decide (s = "offline") then Some Offline
  else None.

Definition RsvpStatus_as_str (r : RsvpStatus) : string :=
  match r with
  | Accepted => "accepted"
  | Tentative => "tentative"
  | Declined => "declined"
  end.
Definition RsvpStatus_parse (s : string) : option RsvpStatus :=
  if decide (s = "accepted") then Some Accepted
  else if decide (s = "tentative") then Some Tentative
  else if decide (s = "declined") then Some Declined
  else None.

Definition EventStatus_as_str (s : EventStatus) : string :=
  match s with Active => "active" | Cancelled => "cancelled" end.
Definition EventStatus_parse (s : string) : option EventStatus :=
  if decide (s = "active") then Some Active
  else if decide (s = "cancelled") then Some Cancelled
  else None.

Definition Op_as_str (o : Op) : string :=
  match o with
  | Create => "create"
  | Update => "update"
  | Rsvp => "rsvp"
  | Cancel => "cancel"
  | SeriesCard => "series_card"
  end.
(** The derived [Deserialize] of [Op] ([rename_all = "snake_case"]). *)
Definition Op_parse (s : string) : option Op :=
  if decide (s = "create") then Some Create
  else if decide (s = "update") then Some Update
  else if decide (s = "rsvp") then Some Rsvp
  else if decide (s = "cancel") then Some Cancel
  else if decide (s = "series_card") then Some SeriesCard
  else None.

(** Timed values are unix seconds; all-day values are dates. *)
Inductive WireTime : Type :=
| Unix (n : Z)
| Date (d : string).

#[export] Instance WireTime_eq_dec : EqDecision WireTime.
Proof. solve_decision. Defined.

Record EventWire : Type := mkEventWire {
  w_schema : string;
  w_op : Op;
  w_id : option string;
  w_parent_id : string;
  w_series_id : option string;
  w_kind : option Z;
  w_title : option string;
  w_summary : option string;
  w_start : option WireTime;
  w_end : option WireTime;
  w_start_tzid : option string;
  w_place : option Place;
  w_location : option string;
  w_channel_id : option string;
  w_status : option string;
  w_rsvp : option RsvpStatus;
  w_first_start : option WireTime;
  w_count : option Z;
  w_updated_at_ms : Z;
}.

#[export] Instance EventWire_eq_dec : EqDecision EventWire.
Proof. solve_decision. Defined.

(** [EventWire::base] *)
Definition base (op : Op) (parent_id : string) (updated_at_ms : Z) : EventWire :=
  mkEventWire SCHEMA op None parent_id None None None None None None None None
    None None None None None None updated_at_ms.

(** Validated event fields (one occurrence). *)
Record EventFields : Type := mkFields {
  f_kind : Z;
  f_title : string;
  f_summary : string;
  f_start_unix : option Z;
  f_end_unix : option Z;
  f_start_date : option string;
  f_end_date : option string;
  f_start_tzid : string;
  f_place : Place;
  f_location : string;
  f_channel_id : option string;
}.

#[export] Instance EventFields_eq_dec : EqDecision EventFields.
Proof. solve_decision. Defined.

Definition wire_time (unix : option Z) (date : option string) : option WireTime :=
  match unix, date with
  | Some n, _ => Some (Unix n)
  | None, Some d => Some (Date d)
  | None, None => None
  end.

Definition start_wire (f : EventFields) : option WireTime :=
  wire_time (f_start_unix f) (f_start_date f).
Definition end_wire (f : EventFields) : option WireTime :=
  wire_time (f_end_unix f) (f_end_date f).

(** Derived [Serialize] of the untagged [WireTime]. *)
Definition ser_time (t : WireTime) : json :=
  match t with Unix n => JNum n | Date d => JStr d end.

Definition time_value (unix : option Z) (date : option string) : json :=
  json_opt ser_time (wire_time unix date).
Definition start_value (f : EventFields) : json :=
  time_value (f_start_unix f) (f_start_date f).
Definition end_value (f : EventFields) : json :=
  time_value (f_end_unix f) (f_end_date f).

Record SquadEventInput : Type := mkInput {
  i_title : string;
  i_summary : string;
  i_all_day : bool;
  i_start : string;
  i_end : option string;
  i_start_tzid : string;
  i_place : Place;
  i_location : string;
  i_channel_id : option string;
}.

(** ** Derived serde of [EventWire] *)

Definition wire_members (w : EventWire) : list (string * option json) := [
  ("schema", Some (JStr (w_schema w)));
  ("op", Some ((JStr ∘ Op_as_str) (w_op w)));
  ("id", JStr <$> w_id w);
  ("parent_id", Some (JStr (w_parent_id w)));
  ("series_id", JStr <$> w_series_id w);
  ("kind", JNum <$> w_kind w);
  ("title", JStr <$> w_title w);
  ("summary", JStr <$> w_summary w);
  ("start", ser_time <$> w_start w);
  ("end", ser_time <$> w_end w);
  ("start_tzid", JStr <$> w_start_tzid w);
  ("place", JStr ∘ Place_as_str <$> w_place w);
  ("location", JStr <$> w_location w);
  ("channel_id", JStr <$> w_channel_id w);
  ("status", JStr <$> w_status w);
  ("rsvp", JStr ∘ RsvpStatus_as_str <$> w_rsvp w);
  ("first_start", ser_time <$> w_first_start w);
  ("count", JNum <$> w_count w);
  ("updated_at_ms", Some (JNum (w_updated_at_ms w)))].

Definition ser_wire (w : EventWire) : json := JObj (obj_fields (wire_members w)).

Definition WIRE_FIELDS : list string :=
  ["schema"; "op"; "id"; "parent_id"; "series_id"; "kind"; "title"; "summary";
   "start"; "end"; "start_tzid"; "place"; "location"; "channel_id"; "status";
   "rsvp"; "first_start"; "count"; "updated_at_ms"].

(** [#[serde(untagged)]]: the first variant that fits. *)
Definition de_time (j : json) : option WireTime :=
  match de_i64 j with
  | Some n => Some (Unix n)
  | None => Date <$> de_string j
  end.

Definition de_wire (j : json) : option EventWire :=
  fs ← struct_fields WIRE_FIELDS j;
  schema ← req de_string "schema" fs;
  op ← req (de_variant Op_parse) "op" fs;
  id ← opt de_string "id" fs;
  parent_id ← req de_string "parent_id" fs;
  series_id ← opt de_string "series_id" fs;
  kind ← opt de_u16 "kind" fs;
  title ← opt de_string "title" fs;
  summary ← opt de_string "summary" fs;
  start ← opt de_time "start" fs;
  end_ ← opt de_time "end" fs;
  start_tzid ← opt de_string "start_tzid" fs;
  place ← opt (de_variant Place_parse) "place" fs;
  location ← opt de_string "location" fs;
  channel_id ← opt de_string "channel_id" fs;
  status ← opt de_string "status" fs;
  rsvp ← opt (de_variant RsvpStatus_parse) "rsvp" fs;
  first_start ← opt de_time "first_start" fs;
  count ← opt de_u32 "count" fs;
  updated_at_ms ← req de_i64 "updated_at_ms" fs;
  Some (mkEventWire schema op id parent_id series_id kind title summary start end_
    start_tzid place location channel_id status rsvp first_start count updated_at_ms).

(** The Rust integer types of the numeric fields. *)
Definition time_ok (t : WireTime) : Prop :=
  match t with Unix n => i64_ok n | Date _ => True end.

Definition opt_all {A} (P : A → Prop) (o : option A) : Prop := ∀ a, o = Some a → P a.

Record wire_typed (w : EventWire) : Prop := {
  wt_kind : opt_all (λ k, 0 ≤ k ≤ 65535) (w_kind w);
  wt_count : opt_all (λ k, 0 ≤ k ≤ 4294967295) (w_count w);
  wt_start : opt_all time_ok (w_start w);
  wt_end : opt_all time_ok (w_end w);
  wt_first : opt_all time_ok (w_first_start w);
  wt_stamp : i64_ok (w_updated_at_ms w);
}.

Lemma Op_parse_as_str o : Op_parse (Op_as_str o) = Some o.
Proof. by destruct o. Qed.
Lemma Place_parse_as_str p : Place_parse (Place_as_str p) = Some p.
Proof. by destruct p. Qed.
Lemma RsvpStatus_parse_as_str r : RsvpStatus_parse (RsvpStatus_as_str r) = Some r.
Proof. by destruct r. Qed.
Lemma EventStatus_parse_as_str s : EventStatus_parse (EventStatus_as_str s) = Some s.
Proof. by destruct s. Qed.

Lemma reads_time t : time_ok t → reads de_time ser_time t.
Proof.
  unfold reads, de_time, de_i64. destruct t as [n|d]; [|done].
  intros Hn. unfold time_ok in Hn. cbn [ser_time]. by rewrite (de_int_id _ _ n Hn).
Qed.

Lemma reads_place p : reads (de_variant Place_parse) (JStr ∘ Place_as_str) p.
Proof. apply reads_variant, Place_parse_as_str. Qed.
Lemma reads_op o : reads (de_variant Op_parse) (JStr ∘ Op_as_str) o.
Proof. apply reads_variant, Op_parse_as_str. Qed.
Lemma reads_rsvp r : reads (de_variant RsvpStatus_parse) (JStr ∘ RsvpStatus_as_str) r.
Proof. apply reads_variant, RsvpStatus_parse_as_str. Qed.

#[export] Hint Resolve reads_time reads_int reads_op reads_place reads_rsvp : serde.

(** What the derived serializer writes, the derived deserializer reads back. *)
Lemma de_ser_wire w : wire_typed w → de_wire (ser_wire w) = Some w.
Proof.
  intros [Hk Hc Hs He Hf Hm]. unfold de_wire, ser_wire.
  assert (NoDup (wire_members w).*1) as Hnd.
  { change (NoDup WIRE_FIELDS). apply (bool_decide_unpack _). vm_compute. exact I. }
  remember (obj_fields (wire_members w)) as fs eqn:Hfs.
  eapply option_bind_step; [reflexivity|]. repeat serde_member Hfs Hnd.
  clear. by destruct w.
Qed.

(** ** Validation *)

Section validation.
Context `{Chrono}.

(** [parse_date] of [squad_event.rs]. *)
Definition parse_date (date : string) : result NaiveDate :=
  ok_or (nd_parse date DATE_FORMAT) err.INVALID_TIME.

Definition validate_fields_shape (f : EventFields) : result unit :=
  if blank (f_title f) then Err err.INVALID_TITLE
  else if blank (f_location f) then Err err.INVALID_PLACE
  else Ok tt.

Definition validate_fields (f : EventFields) : result unit :=
  let? _ := validate_fields_shape f in
  let? _ := map_err (validate_tzid (f_start_tzid f)) err.INVALID_ZONE in
  if f_kind f =? KIND_TIMED then
    let? start := ok_or (f_start_unix f) err.INVALID_TIME in
    if bool_decide (is_Some (f_start_date f)) || bool_decide (is_Some (f_end_date f))
    then Err err.INVALID_TIME
    else match f_end_unix f with
         | Some end_ => if end_ <=? start then Err err.INVALID_TIME else Ok tt
         | None => Ok tt
         end
  else if f_kind f =? KIND_ALL_DAY then
    if bool_decide (is_Some (f_start_unix f)) || bool_decide (is_Some (f_end_unix f))
    then Err err.INVALID_TIME
    else
      let? date := ok_or (f_start_date f) err.INVALID_TIME in
      let? start := parse_date date in
      match f_end_date f with
      | Some e =>
          let? end_ := parse_date e in
          if nd_le end_ start then Err err.INVALID_TIME else Ok tt
      | None => Ok tt
      end
  else Err err.INVALID_TIME.

(** The template of a form submission, its times still empty. *)
Definition input_template (input : SquadEventInput) : EventFields :=
  mkFields (if i_all_day input then KIND_ALL_DAY else KIND_TIMED)
    (trim (i_title input)) (trim (i_summary input)) None None None None
    (trim (i_start_tzid input)) (i_place input) (trim (i_location input))
    (trimmed_opt (i_channel_id input)).

(** [EventFields { start_date, end_date, ..template }] and its timed twin. *)
Definition with_dates (t : EventFields) (s : string) (e : option string) : EventFields :=
  mkFields (f_kind t) (f_title t) (f_summary t) (f_start_unix t) (f_end_unix t)
    (Some s) e (f_start_tzid t) (f_place t) (f_location t) (f_channel_id t).
Definition with_unix (t : EventFields) (s : Z) (e : option Z) : EventFields :=
  mkFields (f_kind t) (f_title t) (f_summary t) (Some s) e
    (f_start_date t) (f_end_date t) (f_start_tzid t) (f_place t) (f_location t)
    (f_channel_id t).

(** [for (i, s) in starts.enumerate()]: [ends[i]] is in range because both
    lists have [count] elements. *)
Definition zip_occurrences {A} (mk : A → option A → EventFields)
    (starts : list A) (ends : option (list A)) : list EventFields :=
  imap (λ i s, mk s (ends ≫= (.!! i))) starts.

(** The closure [timed] of [occurrences]. *)
Definition timed_starts (count : nat) (tzid local : string) : result (list Z) :=
  match count with
  | 1%nat => let? s := civil_to_unix local tzid in Ok [s]
  | _ => weekly_timed_starts local tzid count
  end.

Definition occurrences (input : SquadEventInput) (count : nat) : result (list EventFields) :=
  let tzid := trim (i_start_tzid input) in
  let start := trim (i_start input) in
  let end_ := trimmed_opt (i_end input) in
  let template := input_template input in
  let? _ := validate_fields_shape template in
  let? _ := map_err (validate_tzid tzid) err.INVALID_ZONE in
  let? out :=
    if i_all_day input then
      let? starts := map_err (weekly_all_day_dates start count) err.INVALID_TIME in
      let? ends := map_err (transpose ((λ e, weekly_all_day_dates e count) <$> end_))
                     err.INVALID_TIME in
      Ok (zip_occurrences (with_dates template) starts ends)
    else
      let? starts := map_err (timed_starts count tzid start) err.INVALID_TIME in
      let? ends := map_err (transpose (timed_starts count tzid <$> end_))
                     err.INVALID_TIME in
      Ok (zip_occurrences (with_unix template) starts ends) in
  let? _ := rmapM validate_fields out in
  Ok out.

(** [occurrences(input, 1)?.pop().ok_or_else(..)] *)
Definition fields_from_input (input : SquadEventInput) : result EventFields :=
  let? l := occurrences input 1 in
  ok_or (last l) err.INVALID_TIME.

Definition fields_from_wire (w : EventWire) : option EventFields :=
  kind ← w_kind w;
  '(start_unix, end_unix, start_date, end_date) ←
    (if kind =? KIND_TIMED then
       match w_start w with
       | Some (Unix start) =>
           match w_end w with
           | None => Some (Some start, None, None, None)
           | Some (Unix e) => Some (Some start, Some e, None, None)
           | Some (Date _) => None
           end
       | _ => None
       end
     else if kind =? KIND_ALL_DAY then
       match w_start w with
       | Some (Date start) =>
           match w_end w with
           | None => Some (None, None, Some start, None)
           | Some (Date e) => Some (None, None, Some start, Some e)
           | Some (Unix _) => None
           end
       | _ => None
       end
     else None);
  title ← w_title w;
  start_tzid ← w_start_tzid w;
  place ← w_place w;
  location ← w_location w;
  let fields := mkFields kind title (default "" (w_summary w))
    start_unix end_unix start_date end_date start_tzid place location
    (trimmed_opt (w_channel_id w)) in
  _ ← res_ok (validate_fields fields);
  Some fields.
End validation.

(** Ingest bound on peer-set stamps. *)
Definition stamp_acceptable (updated_at_ms now_ms : Z) : bool :=
  (0 <=? updated_at_ms) && (updated_at_ms <=? saturating_add now_ms MAX_FUTURE_SKEW_MS).

(** ** Wire builders and card JSON *)

Definition event_wire (op : Op) (event_id parent_id : string)
    (series_id : option string) (f : EventFields) (updated_at_ms : Z) : EventWire :=
  mkEventWire SCHEMA op (Some event_id) parent_id series_id (Some (f_kind f))
    (Some (f_title f)) (Some (f_summary f)) (start_wire f) (end_wire f)
    (Some (f_start_tzid f)) (Some (f_place f)) (Some (f_location f)) (f_channel_id f)
    (if decide (op = Cancel) then Some (EventStatus_as_str Cancelled) else None)
    (if decide (op = Create) then Some Accepted else None)
    None None updated_at_ms.

Definition rsvp_wire (event_id parent_id : string) (status : RsvpStatus)
    (updated_at_ms : Z) : EventWire :=
  mkEventWire SCHEMA Rsvp (Some event_id) parent_id None None None None None None
    None None None None (Some (RsvpStatus_as_str status)) None None None updated_at_ms.

(** [u32::try_from(count).ok()] *)
Definition u32_of_nat (n : nat) : option Z :=
  if Z.of_nat n <=? 4294967295 then Some (Z.of_nat n) else None.

Definition series_card_wire (series_id parent_id : string) (first : EventFields)
    (count : nat) (updated_at_ms : Z) : EventWire :=
  mkEventWire SCHEMA SeriesCard None parent_id (Some series_id) (Some (f_kind first))
    (Some (f_title first)) None None None (Some (f_start_tzid first)) None None
    (f_channel_id first) None None (start_wire first) (u32_of_nat count) updated_at_ms.

Definition created_card_content (event_id parent_id : string) (f : EventFields) : json :=
  JObj [("type", JStr "squad_event_created");
        ("payload", JObj [
          ("id", JStr event_id); ("parent_id", JStr parent_id); ("series_id", JNull);
          ("kind", JNum (f_kind f)); ("title", JStr (f_title f));
          ("start", start_value f); ("end", end_value f);
          ("start_tzid", JStr (f_start_tzid f));
          ("channel_id", json_opt JStr (f_channel_id f))])].

Definition non_blank (o : option string) : option string :=
  match o with
  | Some s => if blank s then None else Some s
  | None => None
  end.

Section cards.
Context `{Chrono} `{SerdeText} `{Hashing}.

(** The card of a valid [series_card] wire. *)
Definition series_card_content (w : EventWire) : option json :=
  series_id ← non_blank (w_series_id w);
  title ← non_blank (w_title w);
  tzid ← w_start_tzid w;
  _ ← res_ok (validate_tzid tzid);
  count ← (c ← w_count w; if 0 <? c then Some c else None);
  kind ← w_kind w;
  t ← w_first_start w;
  first_start ←
    match t with
    | Unix n => if kind =? KIND_TIMED then Some (JNum n) else None
    | Date d =>
        if kind =? KIND_ALL_DAY
        then _ ← res_ok (parse_date d); Some (JStr d)
        else None
    end;
  Some (JObj [("type", JStr "squad_event_series_created");
    ("payload", JObj [
      ("series_id", JStr series_id); ("parent_id", JStr (w_parent_id w));
      ("kind", JNum kind); ("title", JStr title); ("first_start", first_start);
      ("start_tzid", JStr tzid); ("count", JNum count);
      ("channel_id", json_opt JStr (trimmed_opt (w_channel_id w)))])]).

Definition parse_wire (content : string) : option EventWire :=
  w ← of_text content ≫= de_wire;
  if negb (bool_decide (w_schema w = SCHEMA)) || blank (w_parent_id w) then None
  else if negb (bool_decide (w_op w = SeriesCard))
          && match w_id w with Some id => blank id | None => true end then None
  else Some w.

Definition content_hash (w : EventWire) (signer_npub : string) : string :=
  sha256_hex (to_text (ser_wire w) +:+ String (Ascii.ascii_of_nat 10) "" +:+ signer_npub).
End cards.

(** ** Facts *)

Lemma wire_json_ok w : wire_typed w → json_ok (ser_wire w) = true.
Proof.
  intros [Hk Hc Hs He Hf Hm].
  assert (∀ n, i64_ok n → bool_decide (i64_min ≤ n < 2 ^ 64) = true) as Hi64.
  { intros n [??]. apply bool_decide_eq_true_2. unfold i64_max in *. lia. }
  assert (∀ t, time_ok t → json_ok (ser_time t) = true) as Ht.
  { intros [n|d]; simpl; auto. }
  assert (∀ n hi, hi ≤ 4294967295 → 0 ≤ n ≤ hi → bool_decide (i64_min ≤ n < 2 ^ 64) = true) as Hn.
  { intros n hi ??. apply bool_decide_eq_true_2. unfold i64_min. lia. }
  assert (∀ {A} (se : A → json) (P : A → Prop) o, (∀ a, P a → json_ok (se a) = true) →
            opt_all P o → opt_all (λ j, json_ok j = true) (se <$> o)) as Hopt.
  { intros A se P o HP Ho j (a & -> & ->)%fmap_Some. by apply HP, Ho. }
  apply json_obj_ok. unfold wire_members. repeat apply Forall_cons_2; try apply Forall_nil_2; simpl;
    try (intros ? [= <-]; first [done | by apply Hi64]);
    try (by eapply (Hopt _ _ (λ _, True)));
    try (by eapply Hopt; [|eassumption]).
  - eapply Hopt; [|exact Hk]. intros n. by apply Hn.
  - eapply Hopt; [|exact Hc]. intros n. by apply Hn.
Qed.

(** A well-formed wire survives the trip over text. *)
Definition wire_addressed (w : EventWire) : Prop :=
  w_schema w = SCHEMA ∧ blank (w_parent_id w) = false ∧
  (w_op w = SeriesCard ∨ ∃ id, w_id w = Some id ∧ blank id = false).

Lemma parse_wire_Some `{SerdeText} content w :
  parse_wire content = Some w ↔ (of_text content ≫= de_wire) = Some w ∧ wire_addressed w.
Proof.
  unfold parse_wire, wire_addressed.
  destruct (of_text content ≫= de_wire) as [w'|]; simpl; [|split; [done|by intros [? _]]].
  destruct (bool_decide (w_schema w' = SCHEMA)) eqn:Hs; simpl; bool_facts;
    [|split; [done|intros ([= ->] & ? & _); done]].
  destruct (blank (w_parent_id w')) eqn:Hp; simpl;
    [split; [done|intros ([= ->] & _ & ? & _); congruence]|].
  destruct (bool_decide (w_op w' = SeriesCard)) eqn:Ho; simpl; bool_facts;
    [split; [intros [= ->]; auto|by intros [? _]]|].
  destruct (w_id w') as [id|] eqn:Hi; [destruct (blank id) eqn:Hb|].
  - split; [done|]. intros ([= ->] & _ & _ & [?|(id' & ? & ?)]); congruence.
  - split; [intros [= ->]; eauto 10|by intros [? _]].
  - split; [done|]. intros ([= ->] & _ & _ & [?|(id' & ? & ?)]); congruence.
Qed.

Lemma parse_ser_wire `{SerdeTextLaws} w :
  wire_typed w → wire_addressed w → parse_wire (to_text (ser_wire w)) = Some w.
Proof.
  intros Ht Ha. apply parse_wire_Some. split; [|done].
  rewrite of_to_text by by apply wire_json_ok. simpl. by apply de_ser_wire.
Qed.
