(* ===== verification/EventValidation.v ===== *)
(** * Squad events: what the validators accept ([squad_event.rs])

    A declarative reading of [validate_fields], the outcome of [occurrences]
    on form input, and the agreement of the wire builders with the wire reader. *)

From S2P Require Import Prelude Json CivilTime EventModel.

Section validation.
Context `{Chrono}.

Definition known_zone (tzid : string) : Prop := is_Some (tz_of_str tzid).

(** A timed occurrence: unix start, optional strictly later unix end, no dates. *)
Definition timed_shape (f : EventFields) : Prop :=
  f_kind f = KIND_TIMED ∧ f_start_date f = None ∧ f_end_date f = None ∧
  ∃ s, f_start_unix f = Some s ∧ opt_all (λ e, s < e) (f_end_unix f).

(** An all-day occurrence: a date, optionally a strictly later one, no instants. *)
Definition all_day_shape (f : EventFields) : Prop :=
  f_kind f = KIND_ALL_DAY ∧ f_start_unix f = None ∧ f_end_unix f = None ∧
  ∃ d s, f_start_date f = Some d ∧ nd_parse d DATE_FORMAT = Some s ∧
    opt_all (λ d', ∃ e, nd_parse d' DATE_FORMAT = Some e ∧ nd_le e s = false) (f_end_date f).

Definition fields_valid (f : EventFields) : Prop :=
  blank (f_title f) = false ∧ blank (f_location f) = false ∧
  known_zone (f_start_tzid f) ∧ (timed_shape f ∨ all_day_shape f).

Lemma validate_tzid_ok tzid : validate_tzid tzid = Ok tt ↔ known_zone tzid.
Proof.
  unfold validate_tzid, parse_tz, known_zone.
  destruct (tz_of_str tzid); simpl; [split; eauto|split; [done|by intros [? [=]]]].
Qed.

Lemma map_err_ok {A} (r : result A) e a : map_err r e = Ok a ↔ r = Ok a.
Proof. destruct r; simpl; split; congruence. Qed.

Lemma shape_ok f :
  validate_fields_shape f = Ok tt ↔ blank (f_title f) = false ∧ blank (f_location f) = false.
Proof.
  unfold validate_fields_shape. destruct (blank (f_title f)), (blank (f_location f)); naive_solver.
Qed.

(** The kind-specific part of [validate_fields], as a function of its own. *)
Definition validate_times (f : EventFields) : result unit :=
  if f_kind f =? KIND_TIMED then
    let? start := ok_or (f_start_unix f) err.INVALID_TIME in
    if bool_decide (is_Some (f_start_date f)) || bool_decide (is_Some (f_end_date f))
    then Err err.INVALID_TIME
    else match f_end_unix f with
         | Some end_ => if end_ <=? start then Err err.INVALID_TIME else Ok tt
         | None => Ok tt
         end
  else if f_kind f =? KIND_ALL_DAY then
    if bool_decide (is_Some (f_start_unix f)) || bool_decide (is_Some (f_end_unix f))
    then Err err.INVALID_TIME
    else
      let? date := ok_or (f_start_date f) err.INVALID_TIME in
      let? start := parse_date date in
      match f_end_date f with
      | Some e =>
          let? end_ := parse_date e in
          if nd_le end_ start then Err err.INVALID_TIME else Ok tt
      | None => Ok tt
      end
  else Err err.INVALID_TIME.

Lemma validate_fields_split f :
  validate_fields f =
    (let? _ := validate_fields_shape f in
     let? _ := map_err (validate_tzid (f_start_tzid f)) err.INVALID_ZONE in
     validate_times f).
Proof. done. Qed.

Lemma validate_times_timed f :
  f_kind f = KIND_TIMED → validate_times f = Ok tt ↔ timed_shape f.
Proof.
  intros Hk. unfold validate_times, timed_shape. rewrite Hk.
  change (KIND_TIMED =? KIND_TIMED) with true. cbv iota.
  destruct (f_start_unix f) as [s|]; simpl; [|split; [done|by intros (_ & _ & _ & ? & [=] & _)]].
  destruct (f_start_date f) as [d|]; [split; [done|by intros (_ & [=] & _)]|].
  destruct (f_end_date f) as [d|]; [split; [done|by intros (_ & _ & [=] & _)]|].
  destruct (f_end_unix f) as [e|]; simpl.
  - destruct (e <=? s) eqn:He; bool_facts; (split; [|intros (_ & _ & _ & ? & [= <-] & Hs)]);
      [done|specialize (Hs e eq_refl); simpl in Hs; lia| |done].
    intros _. split_and!; try done. exists s. split; [done|]. by intros ? [= <-].
  - split; [|done]. intros _. split_and!; try done. exists s. by split.
Qed.

Lemma validate_times_all_day f :
  f_kind f = KIND_ALL_DAY → validate_times f = Ok tt ↔ all_day_shape f.
Proof.
  intros Hk. unfold validate_times, all_day_shape, parse_date. rewrite Hk.
  change (KIND_ALL_DAY =? KIND_TIMED) with false.
  change (KIND_ALL_DAY =? KIND_ALL_DAY) with true. cbv iota.
  destruct (f_start_unix f) as [u|]; [split; [done|by intros (_ & [=] & _)]|].
  destruct (f_end_unix f) as [u|]; [split; [done|by intros (_ & _ & [=] & _)]|]. simpl.
  destruct (f_start_date f) as [d|]; simpl;
    [|split; [done|by intros (_ & _ & _ & ? & ? & [=] & _)]].
  destruct (nd_parse d DATE_FORMAT) as [s|] eqn:Hd; simpl;
    [|split; [done|intros (_ & _ & _ & ? & ? & [= <-] & ? & _); congruence]].
  destruct (f_end_date f) as [d'|]; simpl.
  - destruct (nd_parse d' DATE_FORMAT) as [e|] eqn:He; simpl.
    + destruct (nd_le e s) eqn:Hle; (split; [|intros (_ & _ & _ & ? & ? & [= <-] & ? & Hs)]);
        [done| | |done].
      * destruct (Hs d' eq_refl) as (e' & ? & ?). congruence.
      * intros _. split_and!; try done. exists d, s. split_and!; try done.
        intros ? [= <-]. eauto.
    + split; [done|]. intros (_ & _ & _ & ? & ? & _ & _ & Hs).
      destruct (Hs d' eq_refl) as (? & ? & _). congruence.
  - split; [|done]. intros _. split_and!; try done. exists d, s. by split_and!.
Qed.

Lemma validate_times_other f :
  f_kind f ≠ KIND_TIMED → f_kind f ≠ KIND_ALL_DAY → validate_times f = Err err.INVALID_TIME.
Proof. intros H1 H2. unfold validate_times. by rewrite !(proj2 (Z.eqb_neq _ _)). Qed.

Lemma validate_times_ok f :
  validate_times f = Ok tt ↔ timed_shape f ∨ all_day_shape f.
Proof.
  destruct (decide (f_kind f = KIND_TIMED)) as [Hk|Hk].
  { rewrite validate_times_timed by done. split; [by left|].
    intros [?|[Hk' _]]; [done|]. rewrite Hk' in Hk. done. }
  destruct (decide (f_kind f = KIND_ALL_DAY)) as [Hk'|Hk'].
  { rewrite validate_times_all_day by done. split; [by right|]. by intros [[? _]|?]. }
  rewrite validate_times_other by done. split; [done|]. by intros [[? _]|[? _]].
Qed.

(** The validator accepts exactly the declaratively valid fields. *)
Lemma validate_fields_ok f : validate_fields f = Ok tt ↔ fields_valid f.
Proof.
  rewrite validate_fields_split. unfold fields_valid.
  rewrite rbind_ok. setoid_rewrite rbind_ok. setoid_rewrite map_err_ok. split.
  - intros ([] & [??]%shape_ok & [] & ?%validate_tzid_ok & ?%validate_times_ok). done.
  - intros (? & ? & ? & ?). exists tt. split; [by apply shape_ok|].
    exists tt. split; [by apply validate_tzid_ok|by apply validate_times_ok].
Qed.

Lemma validate_fields_res_ok f :
  res_ok (validate_fields f) = Some tt ↔ fields_valid f.
Proof.
  rewrite <- validate_fields_ok. destruct (validate_fields f) as [[]|]; simpl; split; congruence.
Qed.

(** ** Reading back what was built *)

Lemma fields_from_wire_valid w f : fields_from_wire w = Some f → fields_valid f.
Proof.
  unfold fields_from_wire. intros Hf.
  repeat (apply bind_Some in Hf as (? & ? & Hf); cbn beta iota in Hf; repeat case_match; try done).
  all: injection Hf as <-; apply validate_fields_res_ok;
    match goal with H : res_ok _ = Some ?u |- _ => by destruct u end.
Qed.

(** Fields as the replica stores them: valid, the channel id trimmed. *)
Definition fields_wf (f : EventFields) : Prop :=
  fields_valid f ∧ trimmed_opt (f_channel_id f) = f_channel_id f.

Lemma fields_from_wire_wf w f : fields_from_wire w = Some f → fields_wf f.
Proof.
  intros Hf. split; [by eapply fields_from_wire_valid|]. revert Hf.
  unfold fields_from_wire. intros Hf.
  repeat (apply bind_Some in Hf as (? & ? & Hf); cbn beta iota in Hf; repeat case_match; try done).
  all: injection Hf as <-; apply trimmed_opt_idemp.
Qed.

Lemma fields_from_event_wire op id parent series f ms :
  fields_valid f → trimmed_opt (f_channel_id f) = f_channel_id f →
  fields_from_wire (event_wire op id parent series f ms) = Some f.
Proof.
  intros Hv Hch. assert (res_ok (validate_fields f) = Some tt) as Hok
    by by apply validate_fields_res_ok.
  destruct Hv as (_ & _ & _ & Hs). unfold fields_from_wire, event_wire; simpl.
  unfold start_wire, end_wire. destruct Hs as [(Hk & Hd & He & s & Hs & _)|(Hk & Hu & He & d & s & Hs & _ & _)];
    rewrite Hk; cbn [option_bind mbind].
  - change (KIND_TIMED =? KIND_TIMED) with true; cbv iota.
    destruct f as [k ti su us ue ds de tz pl lo ch]; simpl in *; subst; simpl. rewrite Hch.
    destruct ue; simpl; by rewrite Hok.
  - change (KIND_ALL_DAY =? KIND_TIMED) with false.
    change (KIND_ALL_DAY =? KIND_ALL_DAY) with true; cbv iota.
    destruct f as [k ti su us ue ds de tz pl lo ch]; simpl in *; subst; simpl. rewrite Hch.
    destruct de; simpl; by rewrite Hok.
Qed.

(** ** Occurrences of a form submission *)

Lemma transpose_ok {A} (o : option (result A)) r :
  transpose o = Ok r ↔ (o = None ∧ r = None) ∨ (∃ a, o = Some (Ok a) ∧ r = Some a).
Proof. destruct o as [[a|e]|]; simpl; split; naive_solver. Qed.

Lemma rmapM_unit {A} (f : A → result unit) l us :
  rmapM f l = Ok us → Forall (λ x, f x = Ok tt) l.
Proof.
  intros H'%rmapM_ok. induction H' as [|x [] l us ? _ IH]; constructor; auto.
Qed.

Lemma timed_starts_length count tzid local l :
  timed_starts count tzid local = Ok l → length l = count.
Proof.
  unfold timed_starts. destruct count as [|[|count]];
    [apply weekly_timed_starts_length| |apply weekly_timed_starts_length].
  intros (s & _ & [= <-])%rbind_ok. done.
Qed.

Lemma zip_occurrences_length {A} (mk : A → option A → EventFields) starts ends :
  length (zip_occurrences mk starts ends) = length starts.
Proof. apply length_imap. Qed.

Lemma zip_occurrences_lookup {A} (mk : A → option A → EventFields) starts ends i :
  zip_occurrences mk starts ends !! i =
    (λ s, mk s (ends ≫= (.!! i))) <$> starts !! i.
Proof. apply list_lookup_imap. Qed.

(** Everything but the times of an occurrence is the template's. *)
Definition from_template (t f : EventFields) : Prop :=
  f_kind f = f_kind t ∧ f_title f = f_title t ∧ f_summary f = f_summary t ∧
  f_start_tzid f = f_start_tzid t ∧ f_place f = f_place t ∧
  f_location f = f_location t ∧ f_channel_id f = f_channel_id t.

Lemma occurrences_ok input count out :
  occurrences input count = Ok out →
  length out = count ∧
  Forall (λ f, fields_valid f ∧ from_template (input_template input) f) out.
Proof.
  unfold occurrences. intros (_ & _ & H')%rbind_ok.
  apply rbind_ok in H' as (_ & _ & H').
  apply rbind_ok in H' as (l & Hl & H').
  apply rbind_ok in H' as (us & Hus%rmapM_unit & [= <-]).
  assert (Forall fields_valid l) as Hv
    by (eapply Forall_impl; [exact Hus|intros; by apply validate_fields_ok]).
  destruct (i_all_day input);
    apply rbind_ok in Hl as (starts & Hs%map_err_ok & Hl);
    apply rbind_ok in Hl as (ends & _ & [= <-]); rewrite zip_occurrences_length.
  - apply weekly_all_day_dates_length in Hs. split; [done|].
    apply Forall_and; split; [done|]. apply Forall_lookup. intros i f.
    rewrite zip_occurrences_lookup. intros (s & _ & ->)%fmap_Some. by split_and!.
  - apply timed_starts_length in Hs. split; [done|].
    apply Forall_and; split; [done|]. apply Forall_lookup. intros i f.
    rewrite zip_occurrences_lookup. intros (s & _ & ->)%fmap_Some. by split_and!.
Qed.

(** Each requested end has its occurrence: [ends[i]] never goes out of range. *)
Lemma occurrence_ends_in_range input count starts ends i :
  map_err (timed_starts count (trim (i_start_tzid input)) (trim (i_start input)))
    err.INVALID_TIME = Ok starts →
  map_err (transpose (timed_starts count (trim (i_start_tzid input)) <$>
    trimmed_opt (i_end input))) err.INVALID_TIME = Ok (Some ends) →
  (i < length starts)%nat → is_Some (ends !! i).
Proof.
  intros Hs%map_err_ok He%map_err_ok Hi. apply lookup_lt_is_Some.
  apply timed_starts_length in Hs. apply transpose_ok in He as [[_ [=]]|(l & Hl & [= ->])].
  apply fmap_Some in Hl as (e & _ & Hl). symmetry in Hl.
  apply timed_starts_length in Hl. lia.
Qed.

Lemma fields_from_input_ok input f :
  fields_from_input input = Ok f →
  fields_valid f ∧ from_template (input_template input) f.
Proof.
  unfold fields_from_input. intros (l & [Hlen Hl]%occurrences_ok & Hf)%rbind_ok.
  destruct (last l) as [f'|] eqn:Hlast; simplify_eq/=.
  rewrite Forall_forall in Hl. by apply Hl, last_Some_elem_of.
Qed.

Lemma input_channel_trimmed input f :
  from_template (input_template input) f → trimmed_opt (f_channel_id f) = f_channel_id f.
Proof.
  intros (_ & _ & _ & _ & _ & _ & ->). simpl. apply trimmed_opt_idemp.
Qed.
End validation.

Lemma stamp_acceptable_spec ms now :
  i64_ok ms → i64_ok now →
  stamp_acceptable ms now = true ↔ 0 ≤ ms ∧ ms ≤ now + MAX_FUTURE_SKEW_MS.
Proof.
  unfold stamp_acceptable, saturating_add, sat64, i64_ok, i64_min, i64_max, MAX_FUTURE_SKEW_MS.
  intros. rewrite andb_true_iff, !Z.leb_le. lia.
Qed.
