(* ===== verification/Chat.v ===== *)
(** * Chats and messages in memory ([chat.rs], [message.rs], [lib.rs])

    The in-memory message list of a chat: insertion in time order without
    duplicates, replies, reactions, edits with their history, typing state, and
    the [ChatState] lookups. Times are [u64] values kept as [Z]. *)

From S2P Require Import Prelude.

Record ImageMetadata : Type := mkImage {
  im_blurhash : string; im_width : Z; im_height : Z;
}.

Record Attachment : Type := mkAttachment {
  at_id : string; at_key : string; at_nonce : string; at_extension : string;
  at_url : string; at_path : string; at_size : Z;
  at_img_meta : option ImageMetadata; at_downloading : bool; at_downloaded : bool;
  at_webxdc_topic : option string; at_file_name : option string;
}.

Record SiteMetadata : Type := mkSite {
  sm_domain : string; sm_og_title : option string; sm_og_description : option string;
  sm_og_image : option string; sm_og_url : option string; sm_og_type : option string;
  sm_title : option string; sm_description : option string; sm_favicon : option string;
  sm_og_image_cached : option string; sm_favicon_cached : option string;
}.

Record Reaction : Type := mkReaction {
  r_id : string; r_reference_id : string; r_author_id : string; r_emoji : string;
}.

Record EditEntry : Type := mkEntry {
  ee_event_id : string; ee_content : string; ee_edited_at : Z;
}.

Record Message : Type := mkMessage {
  m_id : string;
  m_content : string;
  m_replied_to : string;
  m_replied_to_content : option string;
  m_replied_to_npub : option string;
  m_replied_to_has_attachment : option bool;
  m_preview_metadata : option SiteMetadata;
  m_attachments : list Attachment;
  m_reactions : list Reaction;
  m_at : Z;
  m_pending : bool;
  m_failed : bool;
  m_mine : bool;
  m_npub : option string;
  m_wrapper_event_id : option string;
  m_edited : bool;
  m_edit_history : option (list EditEntry);
  m_rumor_kind : option Z;
  m_virtual_bucket : option string;
}.

(** ** [Message] *)

Definition set_reactions (rs : list Reaction) (m : Message) : Message :=
  mkMessage (m_id m) (m_content m) (m_replied_to m) (m_replied_to_content m)
    (m_replied_to_npub m) (m_replied_to_has_attachment m) (m_preview_metadata m)
    (m_attachments m) rs (m_at m) (m_pending m) (m_failed m) (m_mine m) (m_npub m)
    (m_wrapper_event_id m) (m_edited m) (m_edit_history m) (m_rumor_kind m)
    (m_virtual_bucket m).

Definition set_reply (content npub : option string) (has : option bool) (m : Message) : Message :=
  mkMessage (m_id m) (m_content m) (m_replied_to m) content npub has
    (m_preview_metadata m) (m_attachments m) (m_reactions m) (m_at m) (m_pending m)
    (m_failed m) (m_mine m) (m_npub m) (m_wrapper_event_id m) (m_edited m)
    (m_edit_history m) (m_rumor_kind m) (m_virtual_bucket m).

Definition set_edit (content : string) (history : list EditEntry) (m : Message) : Message :=
  mkMessage (m_id m) content (m_replied_to m) (m_replied_to_content m)
    (m_replied_to_npub m) (m_replied_to_has_attachment m) (m_preview_metadata m)
    (m_attachments m) (m_reactions m) (m_at m) (m_pending m) (m_failed m) (m_mine m)
    (m_npub m) (m_wrapper_event_id m) true (Some history) (m_rumor_kind m)
    (m_virtual_bucket m).

Definition EDIT_WINDOW_SECS : Z := 60.
Definition EDIT_WINDOW_CLOSED_ERROR : string := "edit window closed".

Inductive EditAuthor : Type :=
| Me
| Peer (npub : string)
| Unknown.

#[export] Instance EditAuthor_eq_dec : EqDecision EditAuthor.
Proof. solve_decision. Defined.

Definition of_original (mine : bool) (npub dm_peer : option string) : EditAuthor :=
  match mine, (match npub with Some n => Some n | None => dm_peer end) with
  | true, _ => Me
  | false, Some npub => Peer npub
  | false, None => Unknown
  end.

Definition of_edit (mine : bool) (npub : option string) : EditAuthor :=
  of_original mine npub None.

Definition same_author (original edit : EditAuthor) : bool :=
  match original, edit with
  | Me, Me => true
  | Peer a, Peer b => bool_decide (a = b)
  | _, _ => false
  end.

Definition edit_is_authorized (original : EditAuthor) (original_at_ms : Z)
    (edit : EditAuthor) (edited_at_ms : Z) : bool :=
  let msg_secs := original_at_ms / 1000 in
  let edit_secs := edited_at_ms / 1000 in
  same_author original edit &&
  ((msg_secs <=? edit_secs) && (edit_secs <=? msg_secs + EDIT_WINDOW_SECS)).

Definition edit_received_in_time (original_received_at_ms edit_received_at_ms : Z) : bool :=
  let valid_receipt at_ := (1 <=? at_) && (at_ <=? i64_max) in
  valid_receipt original_received_at_ms && valid_receipt edit_received_at_ms &&
  (Z.max 0 (edit_received_at_ms - original_received_at_ms) <=? EDIT_WINDOW_SECS * 1000).

Definition accepts_edit (m : Message) (dm_peer : option string) (edit : EditAuthor)
    (edited_at : Z) : bool :=
  let original := of_original (m_mine m) (m_npub m) dm_peer in
  bool_decide (m_rumor_kind m = None) && edit_is_authorized original (m_at m) edit edited_at.

Definition validate_own_edit (msg : Message) (new_content : string) (now_ms : Z) : result unit :=
  if negb (m_mine msg) || m_pending msg || m_failed msg
  then Err "Only your own sent messages can be edited"
  else if bool_decide (is_Some (m_rumor_kind msg))
  then Err "Structured messages cannot be edited"
  else if blank new_content then Err "Edited message cannot be empty"
  else if negb (edit_is_authorized (of_original (m_mine msg) (m_npub msg) None)
                  (m_at msg) Me now_ms)
  then Err EDIT_WINDOW_CLOSED_ERROR
  else Ok tt.

(** [history[1..].sort_by_key(|e| e.edited_at)] *)
Definition sort_edits (h : list EditEntry) : list EditEntry :=
  match h with
  | [] => []
  | e :: tl => e :: sort_by_key ee_edited_at tl
  end.

Definition apply_edit (m : Message) (event_id new_content : string) (edited_at : Z)
    : bool * Message :=
  let seen := match m_edit_history m with
              | Some h => existsb (λ e, bool_decide (ee_event_id e = event_id)) h
              | None => false
              end in
  if seen then (false, m)
  else
    let history := default [mkEntry (m_id m) (m_content m) (m_at m)] (m_edit_history m) in
    let history := sort_edits (history ++ [mkEntry event_id new_content edited_at]) in
    let content := from_option ee_content (m_content m) (last history) in
    (true, set_edit content history m).

(** [Message::add_reaction] without a chat to notify. *)
Definition message_add_reaction (m : Message) (r : Reaction) : bool * Message :=
  if existsb (λ r', bool_decide (r_author_id r' = r_author_id r) &&
                    bool_decide (r_emoji r' = r_emoji r)) (m_reactions m)
  then (false, m)
  else (true, set_reactions (m_reactions m ++ [r]) m).

(** ** [Chat] *)

Inductive ChatType : Type := DirectMessage | MlsGroup.

#[export] Instance ChatType_eq_dec : EqDecision ChatType.
Proof. solve_decision. Defined.

Definition to_i32 (t : ChatType) : Z := match t with DirectMessage => 0 | MlsGroup => 1 end.
Definition from_i32 (value : Z) : ChatType := if value =? 1 then MlsGroup else DirectMessage.

Inductive NotificationLevel : Type := All | Mentions | Nothing.

#[export] Instance NotificationLevel_eq_dec : EqDecision NotificationLevel.
Proof. solve_decision. Defined.

Definition as_db_str (l : NotificationLevel) : string :=
  match l with All => "all" | Mentions => "mentions" | Nothing => "nothing" end.
Definition from_db_str (value : string) : NotificationLevel :=
  if decide (value = "all") then All
  else if decide (value = "nothing") then Nothing
  else Mentions.

Record Chat : Type := mkChat {
  c_id : string;
  c_chat_type : ChatType;
  c_participants : list string;
  c_messages : list Message;
  c_last_read : string;
  c_created_at : Z;
  c_metadata : gmap string string;
  c_notification_level : NotificationLevel;
  c_typing_participants : gmap string Z;
}.

Definition set_messages (ms : list Message) (c : Chat) : Chat :=
  mkChat (c_id c) (c_chat_type c) (c_participants c) ms (c_last_read c) (c_created_at c)
    (c_metadata c) (c_notification_level c) (c_typing_participants c).
Definition set_last_read (id : string) (c : Chat) : Chat :=
  mkChat (c_id c) (c_chat_type c) (c_participants c) (c_messages c) id (c_created_at c)
    (c_metadata c) (c_notification_level c) (c_typing_participants c).
Definition set_typing (t : gmap string Z) (c : Chat) : Chat :=
  mkChat (c_id c) (c_chat_type c) (c_participants c) (c_messages c) (c_last_read c)
    (c_created_at c) (c_metadata c) (c_notification_level c) t.

(** [Chat::new], the creation time in unix seconds an argument. *)
Definition Chat_new (id : string) (t : ChatType) (participants : list string) (now_secs : Z) : Chat :=
  mkChat id t participants [] "" now_secs ∅ Mentions ∅.
Definition new_dm (their_npub : string) (now_secs : Z) : Chat :=
  Chat_new their_npub DirectMessage [their_npub] now_secs.
Definition new_mls_group (group_id : string) (participants : list string) (now_secs : Z) : Chat :=
  Chat_new group_id MlsGroup participants now_secs.

Definition last_message_time (c : Chat) : option Z := m_at <$> last (c_messages c).

(** [iter_mut().find(p)] followed by a write: the first match is replaced. *)
Fixpoint update_first {A} (p : A → bool) (f : A → A) (l : list A) : list A :=
  match l with
  | [] => []
  | x :: l' => if p x then f x :: l' else x :: update_first p f l'
  end.

Definition get_message (c : Chat) (id : string) : option Message :=
  find_first (λ m, bool_decide (m_id m = id)) (c_messages c).

Definition update_message (c : Chat) (id : string) (f : Message → Message) : Chat :=
  set_messages (update_first (λ m, bool_decide (m_id m = id)) f (c_messages c)) c.

Definition edit_target (c : Chat) (message_id : string) (edit : EditAuthor)
    (edited_at : Z) : option Message :=
  let dm_peer := if decide (c_chat_type c = DirectMessage) then Some (c_id c) else None in
  m ← get_message c message_id;
  if accepts_edit m dm_peer edit edited_at then Some m else None.

Definition set_as_read (c : Chat) : bool * Chat :=
  match find_first (λ m, negb (m_mine m)) (rev (c_messages c)) with
  | Some msg => (true, set_last_read (m_id msg) c)
  | None => (false, c)
  end.

(** [slice::binary_search_by] of the standard library on [Vec<Message>]:
    [Ok(i)] and [Err(i)] both as the index. *)
Fixpoint search_base (fuel : nat) (l : list Message) (t : Z) (base size : nat) : nat :=
  match fuel with
  | O => base
  | S fuel' =>
      if (size <=? 1)%nat then base
      else
        let half := (size / 2)%nat in
        let mid := (base + half)%nat in
        let base' := match l !! mid with
                     | Some m => if m_at m >? t then base else mid
                     | None => base
                     end in
        search_base fuel' l t base' (size - half)%nat
  end.

Definition binary_search_at (l : list Message) (t : Z) : nat :=
  match length l with
  | O => 0%nat
  | n =>
      let base := search_base n l t 0 n in
      match l !! base with
      | Some m => if m_at m <? t then S base else base
      | None => base
      end
  end.

(** [Vec::insert]; the callers' index is at most the length. *)
Definition vec_insert {A} (l : list A) (i : nat) (x : A) : list A :=
  take i l ++ x :: drop i l.

(** The insertion branches of [internal_add_message]. *)
Definition place_message (ms : list Message) (message : Message) : list Message :=
  match head ms, last ms with
  | Some first, Some newest =>
      if m_at newest <=? m_at message then ms ++ [message]
      else if m_at message <=? m_at first then vec_insert ms 0 message
      else vec_insert ms (binary_search_at ms (m_at message)) message
  | _, _ => ms ++ [message]
  end.

Definition internal_add_message (c : Chat) (message : Message) : bool * Chat :=
  if existsb (λ m, bool_decide (m_id m = m_id message)) (c_messages c) then (false, c)
  else (true, set_messages (place_message (c_messages c) message) c).

(** [update_replies_to_message]; [account] is [get_current_account().ok()]. *)
Definition update_replies_to_message (account : option string) (c : Chat)
    (original : Message) (is_original_mine : bool) : list Message * Chat :=
  let npub :=
    if decide (c_chat_type c = DirectMessage) then
      if is_original_mine then account else head (c_participants c)
    else m_npub original in
  let hit m := bool_decide (m_replied_to m = m_id original) &&
               bool_decide (m_replied_to_content m = None) in
  let fill := set_reply (Some (m_content original)) npub
                (Some (negb (bool_decide (length (m_attachments original) = 0%nat)))) in
  (fill <$> filter (λ m, hit m = true) (c_messages c),
   set_messages ((λ m, if hit m then fill m else m) <$> c_messages c) c).

(** [Chat::add_reaction] *)
Definition add_reaction (c : Chat) (r : Reaction) (message_id : string) : bool * Chat :=
  match get_message c message_id with
  | Some msg =>
      if existsb (λ r', bool_decide (r_id r' = r_id r)) (m_reactions msg) then (false, c)
      else (true, update_message c message_id (λ m, set_reactions (m_reactions m ++ [r]) m))
  | None => (false, c)
  end.

Definition get_other_participant (c : Chat) (my_npub : string) : option string :=
  match c_chat_type c with
  | DirectMessage => find_first (λ p, negb (bool_decide (p = my_npub))) (c_participants c)
  | MlsGroup => None
  end.

Definition has_participant (c : Chat) (npub : string) : bool :=
  bool_decide (npub ∈ c_participants c).
Definition is_dm_with (c : Chat) (npub : string) : bool :=
  bool_decide (c_chat_type c = DirectMessage) && has_participant c npub.
Definition is_mls_group (c : Chat) : bool := bool_decide (c_chat_type c = MlsGroup).

(** Typing state; [now] in unix seconds. *)
Definition get_active_typers (c : Chat) (now : Z) : list string :=
  (map_to_list (filter (λ p, now < p.2) (c_typing_participants c))).*1.
Definition update_typing_participant (c : Chat) (npub : string) (expires_at now : Z) : Chat :=
  set_typing (filter (λ p, now < p.2) (<[npub := expires_at]> (c_typing_participants c))) c.

(** ** [ChatState] *)

Definition get_chat (chats : list Chat) (id : string) : option Chat :=
  find_first (λ c, bool_decide (c_id c = id)) chats.

(** [b_time.cmp(&a_time)] on [Option<u64>]: [None] is least, newest first. *)
Definition newer_first (a b : Chat) : bool :=
  match last_message_time b, last_message_time a with
  | Some tb, Some ta => tb <=? ta
  | Some _, None => false
  | None, _ => true
  end.

Definition add_message_to_chat (chats : list Chat) (chat_id : string) (message : Message)
    (now_secs : Z) : bool * list Chat :=
  let '(added, chats') :=
    match get_chat chats chat_id with
    | Some chat =>
        let '(added, chat') := internal_add_message chat message in
        (added, update_first (λ c, bool_decide (c_id c = chat_id)) (λ _, chat') chats)
    | None =>
        let chat := if starts_with "npub1" chat_id then new_dm chat_id now_secs
                    else Chat_new chat_id MlsGroup [] now_secs in
        let '(added, chat') := internal_add_message chat message in
        (added, chats ++ [chat'])
    end in
  (added, sort_by newer_first chats').

Definition create_dm_chat (chats : list Chat) (their_npub : string) (now_secs : Z) : list Chat :=
  if match get_chat chats their_npub with None => true | _ => false end
  then chats ++ [new_dm their_npub now_secs] else chats.
Definition create_or_get_mls_group_chat (chats : list Chat) (group_id : string)
    (participants : list string) (now_secs : Z) : list Chat :=
  if match get_chat chats group_id with None => true | _ => false end
  then chats ++ [new_mls_group group_id participants now_secs] else chats.

(** * Facts about chats: ordered duplicate-free message lists, edits, lookups *)

(** ** The message list *)

Definition time_le (a b : Message) : Prop := m_at a ≤ m_at b.

#[export] Instance time_le_trans : Transitive time_le.
Proof. unfold time_le. intros ???. lia. Qed.

(** Newest last, every id once. *)
Definition messages_wf (ms : list Message) : Prop :=
  StronglySorted time_le ms ∧ NoDup (m_id <$> ms).

Lemma sorted_lookup ms i j a b :
  StronglySorted time_le ms → ms !! i = Some a → ms !! j = Some b → (i ≤ j)%nat →
  m_at a ≤ m_at b.
Proof.
  intros Hs Ha Hb Hij. destruct (decide (i = j)) as [->|Hne]; [naive_solver lia|].
  revert i j Ha Hb Hij Hne. induction Hs as [|m ms Hs IH Hm]; intros [|i] [|j] Ha Hb Hij Hne;
    simpl in *; try done; try lia; simplify_eq.
  - rewrite Forall_forall in Hm. apply Hm. by eapply list_elem_of_lookup_2.
  - apply (IH i j); [done..|lia|lia].
Qed.

(** The halving loop keeps everything before [base] below the probe. *)
Lemma search_base_ok l t : StronglySorted time_le l → ∀ fuel base size,
  (size ≤ fuel)%nat → (0 < size)%nat → (base + size ≤ length l)%nat →
  (∀ i m, (i < base)%nat → l !! i = Some m → m_at m ≤ t) →
  (∀ i m, (base + size ≤ i)%nat → l !! i = Some m → t < m_at m) →
  let b := search_base fuel l t base size in
  (b < length l)%nat ∧
  (∀ i m, (i < b)%nat → l !! i = Some m → m_at m ≤ t) ∧
  (∀ i m, (b < i)%nat → l !! i = Some m → t < m_at m).
Proof.
  intros Hs. induction fuel as [|fuel IH]; intros base size Hf H0 Hl Hlo Hhi; [lia|].
  cbn [search_base]. destruct (Nat.leb_spec size 1) as [H1|H1].
  { split_and!; [lia|done|]. intros i m Hi. apply Hhi. lia. }
  assert (size / 2 < size)%nat by (apply Nat.div_lt; lia).
  assert (0 < size / 2)%nat by (apply Nat.div_str_pos; lia).
  destruct (l !! (base + size / 2)%nat) as [mm|] eqn:Hmm.
  2:{ apply lookup_ge_None in Hmm. lia. }
  destruct (m_at mm >? t) eqn:Hcmp.
  - apply Z.gtb_lt in Hcmp. apply IH; [lia..|done|].
    intros i m Hi Hm. assert (size / 2 + size / 2 ≤ size)%nat.
    { pose proof (Nat.div_mod_eq size 2). lia. }
    eapply Z.lt_le_trans; [exact Hcmp|]. eapply (sorted_lookup l); [done..|]. lia.
  - assert (m_at mm ≤ t) by (rewrite Z.gtb_ltb in Hcmp; bool_facts; lia).
    apply IH; [lia..| |].
    + intros i m Hi Hm. etrans; [|done]. eapply (sorted_lookup l); [done..|]. lia.
    + intros i m Hi Hm. eapply Hhi; [|done]. lia.
Qed.

Lemma binary_search_at_ok l t : StronglySorted time_le l →
  let i := binary_search_at l t in
  (i ≤ length l)%nat ∧
  (∀ j m, (j < i)%nat → l !! j = Some m → m_at m ≤ t) ∧
  (∀ j m, (i ≤ j)%nat → l !! j = Some m → t ≤ m_at m).
Proof.
  intros Hs. unfold binary_search_at. destruct (length l) as [|n] eqn:Hlen.
  { apply nil_length_inv in Hlen as ->. split_and!; [lia|..]; by intros ? ? _ ?. }
  rewrite <- Hlen. destruct (search_base_ok l t Hs (length l) 0 (length l)) as (Hb & Hlo & Hhi);
    [lia|lia|lia|lia| |].
  { intros i m Hi Hm. apply lookup_lt_Some in Hm. lia. }
  set (b := search_base (length l) l t 0 (length l)) in *.
  destruct (lookup_lt_is_Some_2 l b Hb) as [mb Hmb]. rewrite Hmb.
  destruct (m_at mb <? t) eqn:Hc; bool_facts.
  - split_and!; [lia|intros j m Hj Hm..].
    + destruct (decide (j = b)) as [->|]; [naive_solver lia|]. apply (Hlo j); [lia|done].
    + apply Z.lt_le_incl, (Hhi j); [lia|done].
  - split_and!; [lia|intros j m Hj Hm; by apply (Hlo j)|intros j m Hj Hm].
    destruct (decide (j = b)) as [->|]; [naive_solver lia|].
    apply Z.lt_le_incl, (Hhi j); [lia|done].
Qed.

Lemma vec_insert_perm {A} (l : list A) i x : vec_insert l i x ≡ₚ x :: l.
Proof.
  unfold vec_insert. rewrite <- Permutation_middle. by rewrite take_drop.
Qed.

Lemma sorted_app_mid (R : Message → Message → Prop) l1 x l2 :
  StronglySorted R (l1 ++ l2) → Forall (λ y, R y x) l1 → Forall (R x) l2 →
  StronglySorted R (l1 ++ x :: l2).
Proof.
  induction l1 as [|y l1 IH]; simpl; intros Hs H1 H2; [by constructor|].
  apply StronglySorted_inv in Hs as [Hs Hy]. apply Forall_cons in H1 as [? H1].
  constructor; [by apply IH|]. apply Forall_app in Hy as [??].
  apply Forall_app; split; [done|by constructor].
Qed.

Lemma vec_insert_sorted ms i x :
  StronglySorted time_le ms →
  (∀ j m, (j < i)%nat → ms !! j = Some m → m_at m ≤ m_at x) →
  (∀ j m, (i ≤ j)%nat → ms !! j = Some m → m_at x ≤ m_at m) →
  StronglySorted time_le (vec_insert ms i x).
Proof.
  intros Hs Hlo Hhi. apply sorted_app_mid.
  - by rewrite take_drop.
  - apply Forall_lookup. intros j m [Hm Hj]%lookup_take_Some. by apply (Hlo j).
  - apply Forall_lookup. intros j m Hm. rewrite lookup_drop in Hm.
    eapply Hhi; [|done]. lia.
Qed.

Lemma known_id ms id :
  existsb (λ m, bool_decide (m_id m = id)) ms = true ↔ id ∈ m_id <$> ms.
Proof.
  rewrite existsb_exists, list_elem_of_fmap. split.
  - intros (m & Hm%list_elem_of_In & ?); bool_facts. eauto.
  - intros (m & -> & Hm%list_elem_of_In). exists m. by rewrite bool_decide_eq_true_2.
Qed.

Lemma last_lookup_ms (ms : list Message) x : last ms = Some x →
  ms !! (length ms - 1)%nat = Some x.
Proof. rewrite last_lookup. by rewrite Nat.sub_1_r. Qed.

Lemma all_le_last ms newest j m :
  StronglySorted time_le ms → last ms = Some newest → ms !! j = Some m → m_at m ≤ m_at newest.
Proof.
  intros Hs Hn%last_lookup_ms Hm. eapply sorted_lookup; [done..|].
  apply lookup_lt_Some in Hm. lia.
Qed.

(** A placed message joins the others without disturbing the order. *)
Lemma place_message_ok ms msg :
  StronglySorted time_le ms →
  place_message ms msg ≡ₚ msg :: ms ∧ StronglySorted time_le (place_message ms msg).
Proof.
  intros Hs.
  assert ((∀ j m, ms !! j = Some m → m_at m ≤ m_at msg) →
    ms ++ [msg] ≡ₚ msg :: ms ∧ StronglySorted time_le (ms ++ [msg])) as Happ.
  { intros H. split; [by rewrite (Permutation_app_comm _ [_])|].
    apply sorted_app_mid; [by rewrite app_nil_r| |constructor].
    apply Forall_lookup. intros j m. apply H. }
  unfold place_message. destruct (head ms) as [first|] eqn:Hhead.
  2:{ destruct ms; [|done]. apply Happ. intros j m Hm. by rewrite lookup_nil in Hm. }
  destruct (last ms) as [newest|] eqn:Hlast.
  2:{ apply last_None in Hlast as ->. done. }
  rewrite head_lookup in Hhead.
  destruct (m_at newest <=? m_at msg) eqn:H1; bool_facts.
  { apply Happ. intros j m Hm. etrans; [by eapply all_le_last|done]. }
  destruct (m_at msg <=? m_at first) eqn:H2; bool_facts;
    (split; [apply vec_insert_perm|]); apply vec_insert_sorted; try done; [lia| | |].
  - intros j m _ Hm. etrans; [done|]. eapply (sorted_lookup ms 0); [done..|lia].
  - by apply binary_search_at_ok.
  - by apply binary_search_at_ok.
Qed.

(** ** Adding a message *)

Lemma internal_add_known c msg :
  m_id msg ∈ m_id <$> c_messages c → internal_add_message c msg = (false, c).
Proof. intros Hk%known_id. unfold internal_add_message. by rewrite Hk. Qed.

Lemma internal_add_fresh c msg :
  m_id msg ∉ m_id <$> c_messages c →
  internal_add_message c msg = (true, set_messages (place_message (c_messages c) msg) c).
Proof.
  intros Hk. unfold internal_add_message. destruct (existsb _ _) eqn:He; [|done].
  by apply known_id in He.
Qed.

Lemma internal_add_wf c msg :
  messages_wf (c_messages c) → messages_wf (c_messages (internal_add_message c msg).2).
Proof.
  intros [Hs Hnd]. destruct (decide (m_id msg ∈ m_id <$> c_messages c)).
  { by rewrite internal_add_known. }
  rewrite internal_add_fresh by done. simpl.
  destruct (place_message_ok (c_messages c) msg Hs) as [Hp Hs']. split; [done|].
  rewrite Hp. simpl. by constructor.
Qed.

(** ** [ChatState] *)

Lemma update_first_find {A} (p q : A → bool) f l :
  (∀ x, p x = true → q x = false ∧ q (f x) = false) →
  find_first q (update_first p f l) = find_first q l.
Proof.
  intros Hpq. induction l as [|x l IH]; simpl; [done|]. destruct (p x) eqn:Hp; simpl.
  - by destruct (Hpq x Hp) as [-> ->].
  - by rewrite IH.
Qed.

Lemma find_first_filter {A} (q : A → bool) l :
  find_first q l = head (filter (λ x, q x = true) l).
Proof.
  induction l as [|x l IH]; simpl; [done|]. destruct (q x) eqn:Hq.
  - by rewrite filter_cons_True.
  - rewrite filter_cons_False; [done|congruence].
Qed.

(** With distinct ids, reordering the chats moves no lookup. *)
Lemma get_chat_perm l l' id :
  NoDup (c_id <$> l) → l ≡ₚ l' → get_chat l id = get_chat l' id.
Proof.
  intros Hnd Hp.
  assert (∀ l c, NoDup (c_id <$> l) → get_chat l id = Some c ↔ c ∈ l ∧ c_id c = id) as Hg.
  { clear. intros l c Hnd. unfold get_chat. split.
    - intros [? ?]%find_first_Some; by bool_facts.
    - intros [Hc <-]. induction l as [|c' l IH]; [by apply not_elem_of_nil in Hc|].
      simpl in *. apply NoDup_cons in Hnd as [Hc' Hnd].
      apply elem_of_cons in Hc as [->|Hc]; [by rewrite bool_decide_eq_true_2|].
      rewrite bool_decide_eq_false_2; [by apply IH|].
      intros Heq. apply Hc'. rewrite Heq. apply list_elem_of_fmap. eauto. }
  assert (NoDup (c_id <$> l')) by by rewrite <- Hp.
  destruct (get_chat l id) as [c|] eqn:E, (get_chat l' id) as [c'|] eqn:E'; try done.
  - apply Hg in E as [? ?]; [|done]. symmetry. rewrite <- E'. apply Hg; [done|].
    by rewrite <- Hp.
  - apply Hg in E as [? ?]; [|done]. rewrite <- E'. symmetry. apply Hg; [done|].
    by rewrite <- Hp.
  - apply Hg in E' as [? ?]; [|done]. rewrite <- E. apply Hg; [done|]. by rewrite Hp.
Qed.

Lemma get_chat_app l c id :
  get_chat (l ++ [c]) id =
    match get_chat l id with
    | Some c' => Some c'
    | None => if decide (c_id c = id) then Some c else None
    end.
Proof.
  unfold get_chat. induction l as [|c' l IH]; simpl.
  - destruct (decide (c_id c = id));
      [by rewrite bool_decide_eq_true_2|by rewrite bool_decide_eq_false_2].
  - by destruct (bool_decide (c_id c' = id)).
Qed.

Lemma update_first_ids (f : Chat → Chat) id l :
  (∀ c, c_id c = id → c_id (f c) = id) →
  c_id <$> update_first (λ c, bool_decide (c_id c = id)) f l = c_id <$> l.
Proof.
  intros Hf. induction l as [|c l IH]; [done|]. cbn [update_first].
  destruct (bool_decide (c_id c = id)) eqn:E; rewrite !fmap_cons; bool_facts.
  - by rewrite Hf, E.
  - by rewrite IH.
Qed.

Lemma update_first_get (f : Chat → Chat) id l c :
  (∀ c, c_id c = id → c_id (f c) = id) → get_chat l id = Some c →
  get_chat (update_first (λ c, bool_decide (c_id c = id)) f l) id = Some (f c).
Proof.
  intros Hf. unfold get_chat. induction l as [|c' l IH]; simpl; [done|].
  destruct (bool_decide (c_id c' = id)) eqn:E; simpl; bool_facts.
  - intros [= ->]. rewrite bool_decide_eq_true_2; [done|]. by apply Hf.
  - rewrite bool_decide_eq_false_2 by done. apply IH.
Qed.

Lemma get_chat_Some l id c : get_chat l id = Some c → c ∈ l ∧ c_id c = id.
Proof. intros [? ?]%find_first_Some; by bool_facts. Qed.

Lemma get_chat_None l id : get_chat l id = None → id ∉ c_id <$> l.
Proof.
  intros Hn%find_first_None (c & -> & Hc)%list_elem_of_fmap.
  rewrite Forall_forall in Hn. specialize (Hn c Hc). by bool_facts.
Qed.

Lemma internal_add_id c msg : c_id (internal_add_message c msg).2 = c_id c.
Proof. unfold internal_add_message. by destruct (existsb _ _). Qed.

(** The chats of [add_message_to_chat] before the final sort. *)
Lemma add_message_chats chats id msg now :
  NoDup (c_id <$> chats) →
  ∃ added target chats',
    add_message_to_chat chats id msg now = (added, sort_by newer_first chats') ∧
    NoDup (c_id <$> chats') ∧
    (added, target) = internal_add_message
      (default (if starts_with "npub1" id then new_dm id now
                else Chat_new id MlsGroup [] now) (get_chat chats id)) msg ∧
    get_chat chats' id = Some target ∧
    ∀ id', id' ≠ id → get_chat chats' id' = get_chat chats id'.
Proof.
  intros Hnd. unfold add_message_to_chat.
  destruct (get_chat chats id) as [c|] eqn:Hc; simpl.
  - destruct (get_chat_Some _ _ _ Hc) as [_ Hid].
    destruct (internal_add_message c msg) as [added c'] eqn:Hadd.
    assert (c_id c' = id) as Hid'.
    { pose proof (internal_add_id c msg) as H. rewrite Hadd in H. by rewrite <- Hid. }
    eexists added, c', _. split; [reflexivity|]. split_and!; [|done| |].
    + by rewrite update_first_ids.
    + by rewrite (update_first_get (λ _, c') id chats c).
    + intros id' Hne. apply update_first_find. intros x Hx; bool_facts; subst.
      rewrite !bool_decide_eq_false_2; [done|congruence..].
  - set (new := if starts_with "npub1" id then new_dm id now else Chat_new id MlsGroup [] now).
    assert (c_id new = id) as Hid by (unfold new; by destruct (starts_with "npub1" id)).
    destruct (internal_add_message new msg) as [added c'] eqn:Hadd.
    assert (c_id c' = id) as Hid'.
    { pose proof (internal_add_id new msg) as H. rewrite Hadd in H. by rewrite <- Hid. }
    eexists added, c', _. split; [reflexivity|]. split_and!; [|done| |].
    + rewrite fmap_app. simpl. apply NoDup_app. split_and!; [done| |apply NoDup_singleton].
      intros x Hx. rewrite list_elem_of_singleton. intros ->.
      by apply get_chat_None in Hc; rewrite Hid' in Hx.
    + rewrite get_chat_app, Hc. by rewrite decide_True.
    + intros id' Hne. rewrite get_chat_app.
      destruct (get_chat chats id'); [done|]. by rewrite decide_False by congruence.
Qed.

Lemma newer_first_total x y :
  if newer_first x y then True else newer_first y x = true.
Proof.
  unfold newer_first. destruct (last_message_time x), (last_message_time y); simpl; try done.
  case_match; bool_facts; [done|]. apply Z.leb_le. lia.
Qed.

(** ** Edits *)

(** The first entry is the message as sent, the rest are its edits in order. *)
Definition history_wf (m : Message) : Prop :=
  match m_edit_history m with
  | None => True
  | Some [] => False
  | Some (_ :: tl) => StronglySorted (λ a b, ee_edited_at a ≤ ee_edited_at b) tl
  end.

Definition edits_of (m : Message) : list EditEntry :=
  match m_edit_history m with
  | Some (_ :: tl) => tl
  | _ => []
  end.
Definition original_of (m : Message) : EditEntry :=
  match m_edit_history m with
  | Some (e :: _) => e
  | _ => mkEntry (m_id m) (m_content m) (m_at m)
  end.

Lemma apply_edit_new m id content at_ :
  history_wf m → id ∉ ee_event_id <$> default [] (m_edit_history m) →
  ∃ m', apply_edit m id content at_ = (true, m') ∧
    m_edit_history m' =
      Some (original_of m :: sort_by_key ee_edited_at (edits_of m ++ [mkEntry id content at_])) ∧
    m_content m' = from_option ee_content (ee_content (original_of m))
      (last (sort_by_key ee_edited_at (edits_of m ++ [mkEntry id content at_]))).
Proof.
  intros Hwf Hid. unfold apply_edit, history_wf, edits_of, original_of in *.
  assert (∀ h, id ∉ ee_event_id <$> h →
    existsb (λ e, bool_decide (ee_event_id e = id)) h = false) as Hseen.
  { intros h Hh. apply not_true_iff_false. rewrite existsb_exists.
    intros (e & He%list_elem_of_In & ?); bool_facts; subst. apply Hh, list_elem_of_fmap. eauto. }
  destruct (m_edit_history m) as [[|e tl]|]; cbn [default] in *; [done| |].
  - rewrite (Hseen (e :: tl)) by done. eexists. split_and!; [reflexivity..|].
    cbn [set_edit m_content sort_edits app].
    destruct (sort_by_key ee_edited_at (tl ++ _)) as [|x s] eqn:E.
    { pose proof (sort_by_perm (λ x y, ee_edited_at x <=? ee_edited_at y)
        (tl ++ [mkEntry id content at_])) as Hp. unfold sort_by_key in E. rewrite E in Hp.
      apply Permutation_length in Hp. rewrite length_app in Hp. simpl in Hp. lia. }
    change (sort_edits _) with (e :: sort_by_key ee_edited_at (tl ++ [mkEntry id content at_])).
    rewrite E, !last_cons. by destruct (last s).
  - eexists. split_and!; [reflexivity..|]. done.
Qed.

Lemma apply_edit_seen m id content at_ :
  id ∈ ee_event_id <$> default [] (m_edit_history m) → apply_edit m id content at_ = (false, m).
Proof.
  unfold apply_edit. destruct (m_edit_history m) as [h|]; simpl; [|by intros ?%not_elem_of_nil].
  intros (e & -> & He)%list_elem_of_fmap.
  replace (existsb _ h) with true; [done|]. symmetry. apply existsb_exists.
  exists e. split; [by apply list_elem_of_In|]. by apply bool_decide_eq_true_2.
Qed.
