(* ===== verification/Notification.v ===== *)
(** * Notifications: tiers, the emit gate and the per-chat coalescer

    [notification/severity.rs] is a pure table. [notification/emit.rs] and
    [notification/coalesce.rs] run as concurrent tasks around the lock on
    [WINDOWS]: a task is a [Thread] that stands between two of its atomic
    sections, and an execution is a list of [Action]s, each an arriving event or
    one section of one task, so every interleaving is such a list. *)

From S2P Require Import Prelude Chat.

(** ** Severity *)

Inductive Tier : Type := Passive | Record | Interrupt.
Inductive EventKind : Type := GroupMessage | KDirectMessage | ActionPrompt | EventReminder.
Inductive ReminderDelivery : Type := InApp | Banner | Silent.

#[export] Instance Tier_eq_dec : EqDecision Tier.
Proof. solve_decision. Defined.
#[export] Instance EventKind_eq_dec : EqDecision EventKind.
Proof. solve_decision. Defined.
#[export] Instance ReminderDelivery_eq_dec : EqDecision ReminderDelivery.
Proof. solve_decision. Defined.

Definition resolve_tier (kind : EventKind) (level : NotificationLevel)
    (is_own mention_hit : bool) : Tier :=
  if is_own then Passive
  else
    match kind with
    | GroupMessage =>
        if mention_hit
        then match level with Nothing => Record | Mentions | All => Interrupt end
        else match level with All => Interrupt | Mentions | Nothing => Record end
    | KDirectMessage | ActionPrompt | EventReminder =>
        match level with Nothing => Record | Mentions | All => Interrupt end
    end.

Definition reminder_delivery (level : NotificationLevel) (focused : bool) : ReminderDelivery :=
  if negb (bool_decide (resolve_tier EventReminder level false false = Interrupt)) then Silent
  else if focused then InApp else Banner.

Definition contributes_to_badge (tier : Tier) (level : NotificationLevel) : bool :=
  negb (bool_decide (tier = Passive)) && negb (bool_decide (level = Nothing)).

Definition earns_catch_up_entry (kind : EventKind) (is_own mention_hit : bool) : bool :=
  if is_own then false
  else
    match kind with
    | GroupMessage => mention_hit
    | KDirectMessage | ActionPrompt => true
    | EventReminder => false
    end.

(** ** The coalescer *)

Record SingleEventNotification : Type := mkSingle { sn_title : string; sn_body : string }.

Record ChatWindow : Type := mkWindow {
  cw_pending_count : Z;
  cw_generation : Z;
  cw_single : SingleEventNotification;
}.

(** One call of [emit]. *)
Record Arrival : Type := mkArrival {
  ar_kind : EventKind;
  ar_level : NotificationLevel;
  ar_is_own : bool;
  ar_mention_hit : bool;
  ar_chat_id : string;
  ar_chat_display_name : string;
  ar_single : SingleEventNotification;
}.

(** A task between two atomic sections. *)
Inductive Thread : Type :=
| Arriving (a : Arrival)
| Registering (chat_id chat_display_name : string) (single : SingleEventNotification)
| Preempting (chat_id : string) (single : SingleEventNotification)
| Sleeping (chat_id chat_display_name : string) (generation : Z)
| Showing (b : SingleEventNotification).

(** [WINDOWS], [NEXT_GENERATION], the tasks, and the banners shown so far. *)
Record Coalescer : Type := mkCoalescer {
  windows : gmap string ChatWindow;
  next_generation : Z;
  threads : list Thread;
  banners : list SingleEventNotification;
}.

(** Release arithmetic: [u32] and [u64] wrap. *)
Definition U32 : Z := 2 ^ 32.
Definition U64 : Z := 2 ^ 64.

(** [register_interrupt], under the lock and up to the spawn of its flush task. *)
Definition register_interrupt (chat_id chat_display_name : string)
    (single : SingleEventNotification) (s : Coalescer) : Coalescer * list Thread :=
  match windows s !! chat_id with
  | Some w =>
      (mkCoalescer
         (<[chat_id := mkWindow ((cw_pending_count w + 1) `mod` U32) (cw_generation w)
                         (cw_single w)]> (windows s))
         (next_generation s) (threads s) (banners s), [])
  | None =>
      let generation := next_generation s in
      (mkCoalescer (<[chat_id := mkWindow 1 generation single]> (windows s))
         ((next_generation s + 1) `mod` U64) (threads s) (banners s),
       [Sleeping chat_id chat_display_name generation])
  end.

(** [preempt_and_emit] up to its focus check. *)
Definition preempt (chat_id : string) (single : SingleEventNotification) (s : Coalescer)
    : Coalescer * list Thread :=
  (mkCoalescer (delete chat_id (windows s)) (next_generation s) (threads s) (banners s),
   [Showing single]).

Definition collapsed_body (pending_count : Z) : string := pretty pending_count +:+ " new messages".

(** What a closing window shows. *)
Definition window_banner (chat_display_name : string) (w : ChatWindow) : SingleEventNotification :=
  if cw_pending_count w <=? 1 then cw_single w
  else mkSingle chat_display_name (collapsed_body (cw_pending_count w)).

(** [flush] up to its focus check. *)
Definition flush (chat_id chat_display_name : string) (generation : Z) (s : Coalescer)
    : Coalescer * list Thread :=
  match windows s !! chat_id with
  | Some w =>
      if cw_generation w =? generation
      then (mkCoalescer (delete chat_id (windows s)) (next_generation s) (threads s) (banners s),
            [Showing (window_banner chat_display_name w)])
      else (s, [])
  | None => (s, [])
  end.

(** The focus check before a banner, and [send_banner]. *)
Definition show (focused : bool) (b : SingleEventNotification) (s : Coalescer) : Coalescer :=
  if focused then s
  else mkCoalescer (windows s) (next_generation s) (threads s) (banners s ++ [b]).

(** [emit] up to the lock: the tier, then the focus. *)
Definition emit (a : Arrival) (focused : bool) : list Thread :=
  if negb (bool_decide (resolve_tier (ar_kind a) (ar_level a) (ar_is_own a)
                          (ar_mention_hit a) = Interrupt)) then []
  else if focused then []
  else if ar_mention_hit a then [Preempting (ar_chat_id a) (ar_single a)]
  else [Registering (ar_chat_id a) (ar_chat_display_name a) (ar_single a)].

(** One atomic section of a task; the task goes on as the threads returned. *)
Definition section (t : Thread) (focused : bool) (s : Coalescer) : Coalescer * list Thread :=
  match t with
  | Arriving a => (s, emit a focused)
  | Registering chat_id name single => register_interrupt chat_id name single s
  | Preempting chat_id single => preempt chat_id single s
  | Sleeping chat_id name generation => flush chat_id name generation s
  | Showing b => (show focused b s, [])
  end.

(** ** Executions *)

Inductive Action : Type :=
| Arrive (a : Arrival)
| Run (i : nat) (focused : bool).

Definition set_threads (ts : list Thread) (s : Coalescer) : Coalescer :=
  mkCoalescer (windows s) (next_generation s) ts (banners s).

(** The scheduler picks task [i]; a task that does not exist does nothing. *)
Definition act (a : Action) (s : Coalescer) : Coalescer :=
  match a with
  | Arrive a => set_threads (threads s ++ [Arriving a]) s
  | Run i focused =>
      match threads s !! i with
      | None => s
      | Some t =>
          let '(s', next) := section t focused s in
          set_threads (next ++ delete i (threads s)) s'
      end
  end.

Definition run (l : list Action) (s : Coalescer) : Coalescer := foldl (flip act) s l.

(** The process at its start. *)
Definition Coalescer_start : Coalescer := mkCoalescer ∅ 0 [] [].
