(* ===== verification/NotificationTheorems.v ===== *)
(** * The properties of the notification coalescer

    Over every interleaving of the tasks: no open window is without the task that
    closes it, the windows of a chat follow the documented state machine, banners
    tell no more than they may, and without new events everything comes to rest. *)

From S2P Require Import Prelude Chat Notification.

(** ** The invariant *)

Definition sleeper (t : Thread) : option (string * string * Z) :=
  match t with
  | Sleeping c name g => Some (c, name, g)
  | _ => None
  end.
Definition sleepers (s : Coalescer) : list (string * string * Z) := omap sleeper (threads s).

(** After [k] actions: generations are fresh and distinct, and every open window
    has the sleeping task that will close it. *)
Record coalescer_inv (k : Z) (s : Coalescer) : Prop := {
  ci_next : 0 ≤ next_generation s ≤ k;
  ci_gens : NoDup (sleepers s).*2;
  ci_fresh : ∀ c name g, (c, name, g) ∈ sleepers s → 0 ≤ g < next_generation s;
  ci_open : ∀ c w, windows s !! c = Some w →
    1 ≤ cw_pending_count w ≤ k ∧ ∃ name, (c, name, cw_generation w) ∈ sleepers s;
}.

Lemma sleepers_app ts ts' :
  omap sleeper (ts ++ ts') = omap sleeper ts ++ omap sleeper ts'.
Proof. apply omap_app. Qed.

Lemma sleepers_delete ts i t :
  ts !! i = Some t → omap sleeper ts ≡ₚ omap sleeper [t] ++ omap sleeper (delete i ts).
Proof.
  intros Hi. rewrite (delete_Permutation _ _ _ Hi) at 1.
  change (t :: delete i ts) with ([t] ++ delete i ts). by rewrite sleepers_app.
Qed.

Lemma inv_le k k' s : coalescer_inv k s → k ≤ k' → coalescer_inv k' s.
Proof.
  intros [] Hk. split; [lia|done|done|]. intros c w Hw. destruct (ci_open0 c w Hw). split; [lia|done].
Qed.

(** Only the sleeping tasks matter to the invariant. *)
Lemma inv_threads k s ts :
  coalescer_inv k s → omap sleeper ts ≡ₚ sleepers s → coalescer_inv k (set_threads ts s).
Proof.
  intros [] Hp. split; simpl; [done|by unfold sleepers; simpl; rewrite Hp| |].
  - intros c name g. unfold sleepers. simpl. rewrite Hp. apply ci_fresh0.
  - intros c w Hw. destruct (ci_open0 c w Hw) as [? [name Hn]]. split; [done|]. exists name.
    unfold sleepers. simpl. by rewrite Hp.
Qed.

Lemma inv_register k s c name single ts :
  coalescer_inv k s → k + 1 < U32 → omap sleeper ts ≡ₚ sleepers s →
  let '(s', next) := register_interrupt c name single s in
  coalescer_inv (k + 1) (set_threads (next ++ ts) s').
Proof.
  intros [Hn Hg Hf Ho] Hk Hts. unfold register_interrupt. destruct (windows s !! c) as [w|] eqn:Hw.
  - split; unfold sleepers; simpl; [lia|by rewrite Hts| |].
    + intros c' n' g. rewrite Hts. apply Hf.
    + intros c' w'. rewrite lookup_insert_Some. intros [[<- <-]|[Hne Hw']]; simpl.
      * destruct (Ho c w Hw) as [? [n' Hs]]. rewrite Z.mod_small by (unfold U32 in *; lia).
        split; [lia|]. exists n'. by rewrite Hts.
      * destruct (Ho c' w' Hw') as [? [n' Hs]]. split; [lia|]. exists n'. by rewrite Hts.
  - rewrite Z.mod_small by (unfold U32, U64 in *; lia).
    assert (∀ x, x ∈ (omap sleeper ts) → 0 ≤ x.2 < next_generation s) as Hlt.
    { intros [[c' n'] g'] Hx. rewrite Hts in Hx. by apply Hf in Hx. }
    split; unfold sleepers; simpl; [lia| | |].
    + constructor; [|by rewrite Hts]. intros ([[c' ?] g'] & Hx & Hin)%list_elem_of_fmap.
      simpl in Hx. apply Hlt in Hin. simpl in Hin. lia.
    + intros c' n' g Hin. apply elem_of_cons in Hin as [Heq|Hin]; [simplify_eq; lia|]. apply Hlt in Hin. simpl in Hin. lia.
    + intros c' w'. rewrite lookup_insert_Some. intros [[<- <-]|[Hne Hw']]; simpl.
      * split; [lia|]. exists name. by left.
      * destruct (Ho c' w' Hw') as [? [n' Hs]]. split; [lia|]. exists n'. right. by rewrite Hts.
Qed.

Lemma gens_submseteq (l l' : list (string * string * Z)) :
  l ⊆+ l' → NoDup l'.*2 → NoDup l.*2.
Proof.
  intros [k Hp]%submseteq_Permutation. rewrite Hp, fmap_app. by intros [? _]%NoDup_app.
Qed.

(** Closing the window of [c], with or without its sleeping task. *)
Lemma inv_close k s c ts next :
  coalescer_inv k s → omap sleeper next = [] →
  (omap sleeper ts ≡ₚ sleepers s ∨
   ∃ name g, sleepers s ≡ₚ (c, name, g) :: omap sleeper ts) →
  coalescer_inv k (set_threads (next ++ ts)
    (mkCoalescer (delete c (windows s)) (next_generation s) (threads s) (banners s))).
Proof.
  intros [Hn Hg Hf Ho] Hnext Hts.
  assert (omap sleeper ts ⊆+ sleepers s) as Hsub.
  { destruct Hts as [Hp|(n & g & Hp)]; rewrite Hp; [done|]. by apply submseteq_cons. }
  split; unfold sleepers; simpl; rewrite ?sleepers_app, ?Hnext; simpl; [done| | |].
  - by eapply gens_submseteq.
  - intros c' n' g Hin. apply (Hf c' n' g). by eapply elem_of_submseteq.
  - intros c' w' [Hne Hw']%lookup_delete_Some. destruct (Ho c' w' Hw') as [? [n' Hs]].
    split; [done|]. exists n'. destruct Hts as [Hp|(n & g & Hp)]; [by rewrite Hp|rewrite Hp in Hs].
    apply elem_of_cons in Hs as [Heq|Hs]; [by simplify_eq|done].
Qed.

(** A sleeping task whose window is gone may end. *)
Lemma inv_stale k s c name g ts :
  coalescer_inv k s → sleepers s ≡ₚ (c, name, g) :: omap sleeper ts →
  (∀ w, windows s !! c = Some w → cw_generation w ≠ g) → coalescer_inv k (set_threads ts s).
Proof.
  intros [Hn Hg Hf Ho] Hp Hw.
  assert (omap sleeper ts ⊆+ sleepers s) as Hsub by (rewrite Hp; by apply submseteq_cons).
  split; unfold sleepers; simpl; [done| | |].
  - by eapply gens_submseteq.
  - intros c' n' g' Hin. apply (Hf c' n' g'). by eapply elem_of_submseteq.
  - intros c' w' Hw'. destruct (Ho c' w' Hw') as [? [n' Hs]]. split; [done|]. exists n'.
    rewrite Hp in Hs. apply elem_of_cons in Hs as [Heq|Hs]; [|done]. simplify_eq. by destruct (Hw w').
Qed.

Lemma emit_sleepers a focused : omap sleeper (emit a focused) = [].
Proof. unfold emit. by repeat case_match. Qed.

Lemma inv_act k s a : coalescer_inv k s → k + 1 < U32 → coalescer_inv (k + 1) (act a s).
Proof.
  intros Hinv Hk. destruct a as [a|i focused]; simpl.
  { eapply inv_threads; [apply (inv_le k); [done|lia]|]. by rewrite sleepers_app, app_nil_r. }
  destruct (threads s !! i) as [t|] eqn:Hi; [|apply (inv_le k); [done|lia]].
  pose proof (sleepers_delete _ _ _ Hi) as Hp. fold (sleepers s) in Hp.
  destruct t as [a|c name single|c single|c name g|b]; simpl in *.
  - eapply inv_threads; [apply (inv_le k); [done|lia]|].
    by rewrite sleepers_app, emit_sleepers, Hp.
  - pose proof (inv_register k s c name single (delete i (threads s)) Hinv Hk) as Hr.
    destruct (register_interrupt c name single s). apply Hr. by rewrite Hp.
  - unfold preempt. apply (inv_le k); [apply (inv_close k s c _ [Showing single]); [done|done|]|lia].
    left. by rewrite Hp.
  - unfold flush. destruct (windows s !! c) as [w|] eqn:Hw;
      [destruct (cw_generation w =? g) eqn:Hg; bool_facts|].
    + apply (inv_le k); [apply (inv_close k s c _ [Showing (window_banner name w)]); [done|done|]|lia].
      right. eauto.
    + apply (inv_le k); [eapply inv_stale; [done|exact Hp|]|lia]. intros w' ?. by simplify_eq.
    + apply (inv_le k); [eapply inv_stale; [done|exact Hp|]|lia]. intros w' ?. by simplify_eq.
  - apply (inv_le k); [|lia]. unfold show.
    destruct focused; eapply inv_threads; try (simpl; by rewrite Hp); [done|].
    destruct Hinv. by split.
Qed.

Lemma inv_run l s k :
  coalescer_inv k s → k + Z.of_nat (length l) < U32 →
  coalescer_inv (k + Z.of_nat (length l)) (run l s).
Proof.
  revert s k. induction l as [|a l IH]; intros s k Hinv Hk; [by rewrite Z.add_0_r|]. simpl in *.
  replace (k + Z.of_nat (S (length l))) with ((k + 1) + Z.of_nat (length l)) by lia.
  apply IH; [|lia]. apply inv_act; [done|lia].
Qed.

Lemma inv_start : coalescer_inv 0 Coalescer_start.
Proof. split; simpl; [done|constructor|by intros ??? ?%not_elem_of_nil|by intros c w ?]. Qed.

(** ** The documented state machine of one chat *)

(** Idle, or open with the pending count, the name to collapse under and the
    first event's own banner. *)
Inductive Phase : Type :=
| Idle
| Open (count : Z) (name : string) (single : SingleEventNotification).

Inductive PhaseEvent : Type :=
| PInterrupt (name : string) (single : SingleEventNotification)
| PMention
| PElapsed.

Definition phase_step (p : Phase) (e : PhaseEvent) : Phase :=
  match e, p with
  | PInterrupt name single, Idle => Open 1 name single
  | PInterrupt _ _, Open n name single => Open (n + 1) name single
  | PMention, _ | PElapsed, _ => Idle
  end.

(** The one banner of a window that closes by itself. *)
Definition phase_banner (p : Phase) : option SingleEventNotification :=
  match p with
  | Idle => None
  | Open n name single =>
      Some (if n <=? 1 then single else mkSingle name (pretty n +:+ " new messages"))
  end.

(** The phase of a chat: its window, under the name its sleeping task carries. *)
Definition phase (s : Coalescer) (c : string) : Phase :=
  match windows s !! c with
  | None => Idle
  | Some w =>
      match find_first (λ x, bool_decide (x.1.1 = c) && (x.2 =? cw_generation w)) (sleepers s) with
      | Some x => Open (cw_pending_count w) x.1.2 (cw_single w)
      | None => Idle
      end
  end.

(** What an action is to chat [c]; [None] leaves it alone. *)
Definition phase_event (s : Coalescer) (a : Action) (c : string) : option PhaseEvent :=
  match a with
  | Arrive _ => None
  | Run i _ =>
      t ← threads s !! i;
      match t with
      | Registering c' name single => if decide (c' = c) then Some (PInterrupt name single) else None
      | Preempting c' _ => if decide (c' = c) then Some PMention else None
      | Sleeping c' _ g =>
          w ← windows s !! c';
          if decide (c' = c ∧ cw_generation w = g) then Some PElapsed else None
      | _ => None
      end
  end.

Definition phase_after (p : Phase) (e : option PhaseEvent) : Phase :=
  from_option (phase_step p) p e.

(** A phase is told by the window and any sleeping task of its generation. *)
Lemma phase_open k s c w name :
  coalescer_inv k s → windows s !! c = Some w → (c, name, cw_generation w) ∈ sleepers s →
  phase s c = Open (cw_pending_count w) name (cw_single w).
Proof.
  intros Hinv Hw Hs. unfold phase. rewrite Hw.
  destruct (find_first _ _) as [[[c' n'] g']|] eqn:Hf.
  - apply find_first_Some in Hf as [Hin Hb]. simpl in *. bool_facts. subst. simpl.
    assert ((c, n', cw_generation w) = (c, name, cw_generation w)) as Heq; [|by simplify_eq].
    pose proof (ci_gens _ _ Hinv) as Hnd.
    apply list_elem_of_lookup in Hin as [i Hi]. apply list_elem_of_lookup in Hs as [j Hj].
    assert (i = j) as ->; [|congruence].
    eapply (NoDup_lookup _ _ _ (cw_generation w) Hnd); rewrite list_lookup_fmap;
      [by rewrite Hi|by rewrite Hj].
  - rewrite find_first_None, Forall_forall in Hf. specialize (Hf _ Hs). simpl in Hf.
    rewrite bool_decide_eq_true_2, Z.eqb_refl in Hf by done. done.
Qed.

Lemma phase_idle s c : windows s !! c = None → phase s c = Idle.
Proof. unfold phase. by intros ->. Qed.

(** Equal windows and a sleeping task that stays keep the phase. *)
Lemma phase_same k k' s s' c :
  coalescer_inv k s → coalescer_inv k' s' → windows s' !! c = windows s !! c →
  (∀ name g, (∃ w, windows s !! c = Some w ∧ cw_generation w = g) →
     (c, name, g) ∈ sleepers s → (c, name, g) ∈ sleepers s') →
  phase s' c = phase s c.
Proof.
  intros Hi Hi' Hw Hs. destruct (windows s !! c) as [w|] eqn:E.
  - destruct (ci_open _ _ Hi c w E) as [_ [name Hn]].
    rewrite (phase_open _ _ _ _ _ Hi E Hn). eapply phase_open; eauto.
  - by rewrite !phase_idle.
Qed.

#[local] Arguments act : simpl never.

(** Every sleeping task but the one that runs stays. *)
Lemma sleepers_stay s i t focused x :
  threads s !! i = Some t → x ∈ sleepers s → sleeper t ≠ Some x →
  x ∈ sleepers (act (Run i focused) s).
Proof.
  intros Hi Hx Ht. unfold act. rewrite Hi. destruct (section t focused s) as [s' next].
  unfold sleepers. simpl. rewrite sleepers_app. apply elem_of_app. right.
  unfold sleepers in Hx. rewrite (sleepers_delete _ _ _ Hi) in Hx.
  apply elem_of_app in Hx as [Hx|Hx]; [|done]. simpl in Hx.
  destruct (sleeper t) as [y|]; [|by apply not_elem_of_nil in Hx].
  apply list_elem_of_singleton in Hx. congruence.
Qed.

Lemma sleeping_in s i c name g :
  threads s !! i = Some (Sleeping c name g) → (c, name, g) ∈ sleepers s.
Proof.
  intros Hi. unfold sleepers. rewrite (sleepers_delete _ _ _ Hi). by left.
Qed.

Lemma act_windows s i t focused :
  threads s !! i = Some t → windows (act (Run i focused) s) = windows (section t focused s).1.
Proof. intros Hi. unfold act. rewrite Hi. by destruct (section t focused s). Qed.

Lemma refines_register k s i c' name single focused c :
  coalescer_inv k s → k + 1 < U32 → threads s !! i = Some (Registering c' name single) →
  phase (act (Run i focused) s) c =
    (if decide (c' = c) then phase_step (phase s c) (PInterrupt name single) else phase s c).
Proof.
  intros Hinv Hk Hi. pose proof (inv_act _ _ (Run i focused) Hinv Hk) as Hinv'.
  assert (∀ x, x ∈ sleepers s → x ∈ sleepers (act (Run i focused) s)) as Hstay
    by (intros x Hx; by eapply sleepers_stay).
  pose proof (act_windows s i _ focused Hi) as Hwin. cbn [section fst] in Hwin.
  unfold register_interrupt in Hwin. destruct (decide (c' = c)) as [->|Hne].
  - destruct (windows s !! c) as [w|] eqn:Hw; simpl in Hwin.
    + destruct (ci_open _ _ Hinv c w Hw) as [Hc [n Hn]].
      rewrite (phase_open _ _ _ _ _ Hinv Hw Hn). cbn [phase_step].
      rewrite <- (Z.mod_small (cw_pending_count w + 1) U32) by (unfold U32 in *; lia).
      eapply (phase_open _ _ _ (mkWindow _ (cw_generation w) (cw_single w))); [done| |by apply Hstay].
      rewrite Hwin. apply lookup_insert_eq.
    + rewrite (phase_idle _ _ Hw). cbn [phase_step].
      eapply (phase_open _ _ _ (mkWindow 1 (next_generation s) single)); [done| |].
      * rewrite Hwin. apply lookup_insert_eq.
      * unfold act. rewrite Hi. simpl. unfold register_interrupt. rewrite Hw. by left.
  - eapply phase_same; [done..| |by auto].
    rewrite Hwin. destruct (windows s !! c'); simpl; by apply lookup_insert_ne.
Qed.

Lemma refines_sleeping k s i c' name g focused c :
  coalescer_inv k s → k + 1 < U32 → threads s !! i = Some (Sleeping c' name g) →
  phase (act (Run i focused) s) c = phase_after (phase s c) (phase_event s (Run i focused) c) ∧
  (phase_event s (Run i focused) c = Some PElapsed → ∃ b, phase_banner (phase s c) = Some b ∧
     Showing b ∈ threads (act (Run i focused) s)).
Proof.
  intros Hinv Hk Hi. pose proof (inv_act _ _ (Run i focused) Hinv Hk) as Hinv'.
  pose proof (act_windows s i _ focused Hi) as Hwin. cbn [section fst] in Hwin. unfold flush in Hwin.
  unfold phase_event. rewrite Hi. simpl.
  assert (∀ w', windows s !! c = Some w' → ¬ (c' = c ∧ cw_generation w' = g) → ∀ n g',
    (∃ w, windows s !! c = Some w ∧ cw_generation w = g') → (c, n, g') ∈ sleepers s →
    (c, n, g') ∈ sleepers (act (Run i focused) s)) as Hstay.
  { intros w' Hw' Hno n g' (w & Hw & <-) Hs. simplify_eq. eapply sleepers_stay; [done..|].
    simpl. intros [= -> _ ->]. by apply Hno. }
  destruct (windows s !! c') as [w|] eqn:Hw; simpl in *.
  - destruct (decide (c' = c ∧ cw_generation w = g)) as [[-> Hg]|Hno]; simpl.
    + rewrite (proj2 (Z.eqb_eq _ _) Hg) in Hwin. simpl in Hwin.
      split; [apply phase_idle; rewrite Hwin; apply lookup_delete_eq|]. intros _.
      pose proof (sleeping_in _ _ _ _ _ Hi) as Hs. rewrite <- Hg in Hs.
      rewrite (phase_open _ _ _ _ _ Hinv Hw Hs). eexists. split; [done|].
      unfold act. rewrite Hi. simpl. unfold flush. rewrite Hw, (proj2 (Z.eqb_eq _ _) Hg). by left.
    + split; [|done]. eapply phase_same; [done..| |].
      * rewrite Hwin. destruct (Z.eqb_spec (cw_generation w) g); [|done]. simpl.
        apply lookup_delete_ne. naive_solver.
      * intros n g' (w' & Hw' & Hg') Hs. eapply (Hstay w'); eauto. intros [-> <-].
        simplify_eq. by apply Hno.
  - split; [|done]. eapply phase_same; [done..|by rewrite Hwin|].
    intros n g' (w' & Hw' & Hg') Hs. eapply (Hstay w'); eauto. intros [-> _]. congruence.
Qed.

Lemma refines_phase k s a c : coalescer_inv k s → k + 1 < U32 →
  phase (act a s) c = phase_after (phase s c) (phase_event s a c).
Proof.
  intros Hinv Hl. pose proof (inv_act _ _ a Hinv Hl) as Hinv'.
  destruct a as [a|i focused].
  { eapply phase_same; [done..|]. intros n g _ Hs. unfold sleepers, act in *. simpl.
    rewrite sleepers_app. apply elem_of_app. by left. }
  destruct (threads s !! i) as [t|] eqn:Hi.
  2:{ unfold phase_event, act. by rewrite Hi. }
  destruct t as [a|c' name single|c' single|c' name g|b]; [| | |by eapply refines_sleeping|].
  - unfold phase_event. rewrite Hi.
    eapply phase_same; [done..|by rewrite (act_windows _ _ _ _ Hi)|].
    intros. by eapply sleepers_stay.
  - pose proof (refines_register _ _ _ _ _ _ focused c Hinv Hl Hi) as ->.
    unfold phase_event. rewrite Hi. simpl. by destruct (decide _).
  - unfold phase_event. rewrite Hi. simpl.
    pose proof (act_windows s i _ focused Hi) as Hwin. cbn [section fst] in Hwin.
    destruct (decide (c' = c)) as [->|Hne]; simpl.
    + apply phase_idle. rewrite Hwin. apply lookup_delete_eq.
    + eapply phase_same; [done..|rewrite Hwin; by apply lookup_delete_ne|].
      intros. by eapply sleepers_stay.
  - unfold phase_event. rewrite Hi.
    eapply phase_same; [done..| |intros; by eapply sleepers_stay].
    rewrite (act_windows _ _ _ _ Hi). simpl. unfold show. by destruct focused.
Qed.

(** Banners on their way to their focus check. *)
Definition pending_banner (t : Thread) : option SingleEventNotification :=
  match t with Showing b => Some b | _ => None end.
Definition pending (s : Coalescer) : list SingleEventNotification := omap pending_banner (threads s).

(** The banners an action hands over: a mention's own, and that of a window that elapses
    in the state machine. *)
Definition handed (s : Coalescer) (a : Action) : list SingleEventNotification :=
  match a with
  | Arrive _ => []
  | Run i _ =>
      match threads s !! i with
      | Some (Preempting _ single) => [single]
      | Some (Sleeping c _ _) =>
          match phase_event s a c with
          | Some PElapsed => option_list (phase_banner (phase s c))
          | _ => []
          end
      | _ => []
      end
  end.

(** The banner that comes to its focus check, and whether it is shown. *)
Definition leaving (s : Coalescer) (a : Action) : list SingleEventNotification :=
  match a with
  | Arrive _ => []
  | Run i _ => option_list (t ← threads s !! i; pending_banner t)
  end.
Definition unfocused (a : Action) : bool := match a with Run _ focused => negb focused | Arrive _ => true end.

Lemma pending_run s i t focused : threads s !! i = Some t →
  pending (act (Run i focused) s) = omap pending_banner (section t focused s).2 ++ omap pending_banner (delete i (threads s)) ∧
  pending s ≡ₚ option_list (pending_banner t) ++ omap pending_banner (delete i (threads s)).
Proof.
  intros Hi. split.
  - unfold act, pending. rewrite Hi. destruct (section t focused s). simpl. apply omap_app.
  - unfold pending. rewrite (delete_Permutation _ _ _ Hi) at 1. simpl. by destruct (pending_banner t).
Qed.

(** What a section adds to the banners on their way is what the action hands over. *)
Lemma section_hands k s i t focused : coalescer_inv k s → threads s !! i = Some t →
  omap pending_banner (section t focused s).2 = handed s (Run i focused).
Proof.
  intros Hinv Hi. unfold handed. rewrite Hi. destruct t as [a|c name single|c single|c name g|b]; simpl; try done.
  - unfold emit. by repeat case_match.
  - unfold register_interrupt. by destruct (windows s !! c).
  - rewrite Hi. simpl. unfold flush. destruct (windows s !! c) as [w|] eqn:Hw; [|done]. simpl.
    destruct (Z.eqb_spec (cw_generation w) g) as [Hg|Hg].
    + rewrite decide_True by done. pose proof (sleeping_in _ _ _ _ _ Hi) as Hs. rewrite <- Hg in Hs.
      by rewrite (phase_open _ _ _ _ _ Hinv Hw Hs).
    + by rewrite decide_False by naive_solver.
Qed.

Lemma act_hands k s a : coalescer_inv k s →
  pending s ++ handed s a ≡ₚ leaving s a ++ pending (act a s) ∧
  banners (act a s) = banners s ++ (if unfocused a then leaving s a else []).
Proof.
  intros Hinv. destruct a as [a|i focused].
  { simpl. unfold act, pending, set_threads. simpl. rewrite omap_app. by rewrite !app_nil_r. }
  destruct (threads s !! i) as [t|] eqn:Hi.
  2:{ unfold act, handed, leaving. rewrite Hi. simpl. destruct focused; by rewrite !app_nil_r. }
  destruct (pending_run s i t focused Hi) as [-> ->]. rewrite (section_hands k s i t focused Hinv Hi). split.
  - unfold leaving. rewrite Hi. simpl. rewrite <- (assoc_L (++)). f_equiv. apply Permutation_app_comm.
  - unfold act, leaving. rewrite Hi. simpl. destruct t as [a|c name single|c single|c name g|b]; simpl;
      try (unfold register_interrupt, flush; repeat case_match; simplify_eq; simpl; by rewrite app_nil_r).
    unfold show. destruct focused; simpl; by rewrite ?app_nil_r.
Qed.

(** C30. Every chat's window follows the documented state machine through every
    interleaving of fewer than 2^32 - 1 steps: idle until a first interrupt opens it, counting
    further ones, gone at a mention. A window that elapses hands over exactly one banner, the
    first event's own or the collapsed count under the chat's name; a mention hands over its
    own; nothing else does, a flush that comes too late for its window included. What is
    handed over comes to one focus check, and is shown unless the app has the focus then. *)
Theorem coalescer_refines l a c :
  Z.of_nat (length l) + 1 < U32 →
  let s := run l Coalescer_start in
  phase (act a s) c = phase_after (phase s c) (phase_event s a c) ∧
  (phase_event s a c = Some PElapsed → ∃ b, phase_banner (phase s c) = Some b ∧ handed s a = [b]) ∧
  pending s ++ handed s a ≡ₚ leaving s a ++ pending (act a s) ∧
  banners (act a s) = banners s ++ (if unfocused a then leaving s a else []).
Proof.
  intros Hl. simpl. pose proof (inv_run l Coalescer_start 0 inv_start ltac:(lia)) as Hinv.
  rewrite Z.add_0_l in Hinv. set (s := run l Coalescer_start) in *.
  split; [by eapply refines_phase|]. split; [|by eapply act_hands].
  intros He. destruct a as [a|i focused]; [done|]. unfold phase_event in He.
  destruct (threads s !! i) as [t|] eqn:Hi; [|done]. simpl in He.
  destruct t as [a|c' name single|c' single|c' name g|b]; try (by repeat case_decide).
  assert (c' = c) as -> by (destruct (windows s !! c'); [|done]; simpl in He; case_decide; [by destruct_and?|done]).
  destruct (refines_sleeping _ _ _ _ _ _ focused c Hinv Hl Hi) as [_ (b & Hb & _)].
  { unfold phase_event. by rewrite Hi. }
  exists b. split; [done|]. unfold handed, phase_event. rewrite Hi. simpl. by rewrite He, Hb.
Qed.

(** ** What banners tell *)

(** An event that may interrupt: not own, and its chat's level allows it. *)
Definition interrupts (a : Arrival) : Prop :=
  resolve_tier (ar_kind a) (ar_level a) (ar_is_own a) (ar_mention_hit a) = Interrupt.

(** A banner the arrived events allow: an interrupting event's own, or a count
    of at least two under the display name of an interrupting event's chat. *)
Definition tells (as_ : list Arrival) (b : SingleEventNotification) : Prop :=
  ∃ a, a ∈ as_ ∧ interrupts a ∧
    (b = ar_single a ∨ ∃ n, 2 ≤ n ∧ b = mkSingle (ar_chat_display_name a) (collapsed_body n)).

Definition from_name (as_ : list Arrival) (name : string) : Prop :=
  ∃ a, a ∈ as_ ∧ interrupts a ∧ ar_chat_display_name a = name.
Definition from_single (as_ : list Arrival) (single : SingleEventNotification) : Prop :=
  ∃ a, a ∈ as_ ∧ interrupts a ∧ ar_single a = single.

Definition thread_tells (as_ : list Arrival) (t : Thread) : Prop :=
  match t with
  | Arriving a => a ∈ as_
  | Registering _ name single => from_name as_ name ∧ from_single as_ single
  | Preempting _ single => from_single as_ single
  | Sleeping _ name _ => from_name as_ name
  | Showing b => tells as_ b
  end.

Record all_tell (as_ : list Arrival) (s : Coalescer) : Prop := {
  at_windows : map_Forall (λ _ w, from_single as_ (cw_single w)) (windows s);
  at_threads : Forall (thread_tells as_) (threads s);
  at_banners : Forall (tells as_) (banners s);
}.

Lemma tells_mono as_ as_' b : (∀ a, a ∈ as_ → a ∈ as_') → tells as_ b → tells as_' b.
Proof. unfold tells. intros Hsub (a & Ha & H). exists a. auto. Qed.

Lemma thread_tells_mono as_ as_' t :
  (∀ a, a ∈ as_ → a ∈ as_') → thread_tells as_ t → thread_tells as_' t.
Proof.
  intros Hsub. destruct t; simpl; [by apply Hsub| | | |by apply tells_mono];
    unfold from_name, from_single; naive_solver.
Qed.

Lemma all_tell_mono as_ as_' s : (∀ a, a ∈ as_ → a ∈ as_') → all_tell as_ s → all_tell as_' s.
Proof.
  intros Hsub [Hw Ht Hb]. split.
  - intros c w Hc. destruct (Hw c w Hc) as (x & ? & ?). exists x. auto.
  - eapply Forall_impl; [done|]. intros. by eapply thread_tells_mono.
  - eapply Forall_impl; [done|]. intros. by eapply tells_mono.
Qed.

Lemma window_banner_tells as_ name w :
  from_name as_ name → from_single as_ (cw_single w) → tells as_ (window_banner name w).
Proof.
  intros (a & Ha & Hi & <-) (a' & Ha' & Hi' & Hs). unfold window_banner, tells.
  destruct (cw_pending_count w <=? 1) eqn:Hc; bool_facts.
  - exists a'. auto.
  - exists a. split_and!; [done..|]. right. exists (cw_pending_count w). split; [lia|done].
Qed.

Lemma emit_tells as_ a focused : a ∈ as_ → Forall (thread_tells as_) (emit a focused).
Proof.
  intros Ha. unfold emit. destruct (bool_decide _) eqn:Hi; simpl; [|constructor]. bool_facts.
  assert (from_single as_ (ar_single a)) by by exists a.
  assert (from_name as_ (ar_chat_display_name a)) by by exists a.
  destruct focused; [constructor|]. by destruct (ar_mention_hit a); apply Forall_singleton.
Qed.

Lemma section_tells as_ t focused s :
  all_tell as_ s → thread_tells as_ t →
  all_tell as_ (section t focused s).1 ∧ Forall (thread_tells as_) (section t focused s).2.
Proof.
  intros [Hw Ht Hb] Htell. destruct t as [a|c name single|c single|c name g|b]; simpl in *.
  - split; [done|by apply emit_tells].
  - destruct Htell as [Hn Hs]. unfold register_interrupt. destruct (windows s !! c) as [w|] eqn:E.
    + split; [|constructor]. split; simpl; [|done|done]. apply map_Forall_insert_2; [|done].
      simpl. by eapply Hw.
    + split; [|by repeat constructor]. split; simpl; [|done|done].
      by apply map_Forall_insert_2.
  - split; [|repeat constructor]. 2:{ destruct Htell as (a & ? & ? & <-). exists a. auto. }
    split; simpl; [|done|done]. by apply map_Forall_delete.
  - unfold flush. destruct (windows s !! c) as [w|] eqn:E; [|by repeat split].
    destruct (_ =? _); [|by repeat split]. split.
    + split; simpl; [|done|done]. by apply map_Forall_delete.
    + repeat constructor. apply window_banner_tells; [done|]. by eapply Hw.
  - split; [|constructor]. unfold show. destruct focused; [done|]. split; simpl; [done..|].
    by apply Forall_app_2; [|constructor].
Qed.

Lemma act_tells as_ s a :
  all_tell as_ s →
  all_tell (match a with Arrive x => as_ ++ [x] | Run _ _ => as_ end) (act a s).
Proof.
  intros Hs. destruct a as [a|i focused]; unfold act.
  - destruct (all_tell_mono as_ (as_ ++ [a]) s) as [Hw Ht Hb]; [set_solver|done|].
    split; simpl; [done| |done]. apply Forall_app_2; [done|]. repeat constructor. simpl. set_solver.
  - destruct (threads s !! i) as [t|] eqn:Hi; [|done].
    assert (thread_tells as_ t) as Htell
      by (eapply Forall_lookup_1; [apply (at_threads _ _ Hs)|done]).
    pose proof (section_tells as_ t focused s Hs Htell) as Hsec.
    destruct (section t focused s) as [s' next]. destruct Hsec as [[Hw Ht Hb] Hn].
    split; simpl; [done| |done]. apply Forall_app_2; [done|]. apply Forall_delete.
    apply Hs.
Qed.

Definition arrivals (l : list Action) : list Arrival :=
  omap (λ a, match a with Arrive x => Some x | Run _ _ => None end) l.

Lemma run_tells l : ∀ as_ s, all_tell as_ s → all_tell (as_ ++ arrivals l) (run l s).
Proof.
  induction l as [|a l IH]; intros as_ s Hs; simpl; [by rewrite app_nil_r|].
  apply (act_tells _ _ a) in Hs. destruct a as [a|i focused]; simpl.
  - replace (as_ ++ a :: arrivals l) with ((as_ ++ [a]) ++ arrivals l)
      by (by rewrite <- (assoc app)). by apply IH.
  - by apply IH.
Qed.

(** Every banner, through every interleaving, comes from an event that may
    interrupt, so none from own events or from a chat at Nothing; and it shows that
    event's own text, or the chat's display name and a count of at least two: a
    collapsed banner carries no message content. *)
Theorem banner_privacy l b :
  b ∈ banners (run l Coalescer_start) → tells (arrivals l) b.
Proof.
  intros Hb. assert (all_tell [] Coalescer_start) as Hs.
  { split; [apply map_Forall_empty|constructor|constructor]. }
  apply (run_tells l) in Hs. destruct Hs as [_ _ Hbs].
  by eapply Forall_forall in Hbs.
Qed.

(** ** Rest *)

Definition thread_weight (t : Thread) : nat :=
  match t with
  | Arriving _ => 4
  | Registering _ _ _ => 3
  | Preempting _ _ | Sleeping _ _ _ => 2
  | Showing _ => 1
  end.
Definition weight (ts : list Thread) : nat := sum_list_with thread_weight ts.

Lemma weight_app ts ts' : weight (ts ++ ts') = (weight ts + weight ts')%nat.
Proof. apply sum_list_with_app. Qed.

Lemma weight_delete ts i t : ts !! i = Some t → weight ts = (thread_weight t + weight (delete i ts))%nat.
Proof.
  revert i. induction ts as [|x ts IH]; intros [|i] Hi; simplify_eq/=; [done|].
  apply IH in Hi. unfold weight in *. lia.
Qed.

Lemma section_weight t focused s : (weight (section t focused s).2 < thread_weight t)%nat.
Proof.
  destruct t; simpl; unfold emit, register_interrupt, preempt, flush, weight;
    repeat case_match; simpl; lia.
Qed.

Lemma section_threads t focused s : threads (section t focused s).1 = threads s.
Proof.
  destruct t; simpl; unfold register_interrupt, preempt, flush, show; by repeat case_match.
Qed.

Lemma run_weight i focused s t :
  threads s !! i = Some t → (weight (threads (act (Run i focused) s)) < weight (threads s))%nat.
Proof.
  intros Hi. unfold act. rewrite Hi. pose proof (section_weight t focused s) as Hw.
  destruct (section t focused s) as [s' next]. simpl in *. rewrite weight_app.
  pose proof (weight_delete _ _ _ Hi). lia.
Qed.

(** A scheduler that always finds a task to run while there is one. *)
Definition fair_pick (pick : Coalescer → nat * bool) : Prop :=
  ∀ s, threads s ≠ [] → is_Some (threads s !! (pick s).1).
Definition tick (pick : Coalescer → nat * bool) (s : Coalescer) : Coalescer :=
  act (Run (pick s).1 (pick s).2) s.

Lemma ticks_weight pick n s :
  fair_pick pick → (weight (threads (Nat.iter n (tick pick) s)) ≤ weight (threads s) - n)%nat.
Proof.
  intros Hp. induction n as [|n IH]; [simpl; lia|].
  rewrite Nat.iter_succ. set (s' := Nat.iter n (tick pick) s) in *. unfold tick at 1.
  destruct (decide (threads s' = [])) as [He|Hne].
  - unfold act. rewrite He. simpl. rewrite He. unfold weight. simpl. lia.
  - destruct (Hp s' Hne) as [t Ht]. pose proof (run_weight _ (pick s').2 _ _ Ht). lia.
Qed.

Lemma weight_zero ts : weight ts = 0%nat → ts = [].
Proof. destruct ts as [|t ts]; [done|]. destruct t; unfold weight; simpl; lia. Qed.

Lemma ticks_inv pick n k s :
  coalescer_inv k s → k + Z.of_nat n < U32 →
  coalescer_inv (k + Z.of_nat n) (Nat.iter n (tick pick) s).
Proof.
  intros Hinv. induction n as [|n IH]; intros Hk; [by rewrite Z.add_0_r|].
  rewrite Nat.iter_succ. replace (k + Z.of_nat (S n)) with (k + Z.of_nat n + 1) by lia.
  apply inv_act; [apply IH; lia|lia].
Qed.

(** C40. Once no more events arrive, everything comes to rest: whatever order the
    tasks run in, after as many sections as the tasks weigh (at most four for each
    event) no task is left and every window is closed, so no pending banner is
    forgotten. *)
Theorem coalescer_quiesces l pick :
  fair_pick pick →
  let s := run l Coalescer_start in
  Z.of_nat (length l) + Z.of_nat (weight (threads s)) < U32 →
  let s' := Nat.iter (weight (threads s)) (tick pick) s in
  threads s' = [] ∧ windows s' = ∅.
Proof.
  intros Hp s Hl s'.
  assert (threads s' = []) as Hts
    by (apply weight_zero; pose proof (ticks_weight pick (weight (threads s)) s Hp); unfold s'; lia).
  split; [done|].
  assert (coalescer_inv (Z.of_nat (length l) + Z.of_nat (weight (threads s))) s') as Hinv.
  { apply ticks_inv; [|done]. rewrite <- (Z.add_0_l (Z.of_nat (length l))).
    apply inv_run; [apply inv_start|]. unfold U32 in *. lia. }
  apply map_eq. intros c. rewrite lookup_empty. destruct (windows s' !! c) as [w|] eqn:Hw; [|done].
  destruct (ci_open _ _ Hinv c w Hw) as [_ [name Hn]]. unfold sleepers in Hn. rewrite Hts in Hn.
  by apply not_elem_of_nil in Hn.
Qed.

(** ** Witnesses *)

(** Two direct messages of one chat within a window, and its end. *)
Definition sample_dm (body : string) : Arrival :=
  mkArrival KDirectMessage Mentions false false "npub1bob" "Bob" (mkSingle "Bob" body).
Definition sample_burst : list Action :=
  [Arrive (sample_dm "hi"); Arrive (sample_dm "there"); Run 0 false; Run 0 false;
   Run 1 false; Run 0 false; Run 0 false; Run 0 false].

Lemma banner_privacy_witness :
  banners (run sample_burst Coalescer_start) = [mkSingle "Bob" "2 new messages"] ∧
  tells (arrivals sample_burst) (mkSingle "Bob" "2 new messages").
Proof.
  split; [vm_compute; reflexivity|]. apply (banner_privacy sample_burst). vm_compute. left.
Defined.

Lemma coalescer_refines_witness :
  let s := run (take 6 sample_burst) Coalescer_start in
  phase s "npub1bob" = Open 2 "Bob" (mkSingle "Bob" "hi") ∧
  phase (act (Run 0 false) s) "npub1bob" = Idle ∧ handed s (Run 0 false) = [mkSingle "Bob" "2 new messages"].
Proof.
  split; [vm_compute; reflexivity|].
  destruct (coalescer_refines (take 6 sample_burst) (Run 0 false) "npub1bob" ltac:(vm_compute; reflexivity)) as (H1 & H2 & _).
  split; [rewrite H1; vm_compute; reflexivity|].
  destruct (H2 ltac:(vm_compute; reflexivity)) as (b & Hb & ->). vm_compute in Hb. by injection Hb as <-.
Defined.

Lemma coalescer_quiesces_witness :
  let s := run (take 6 sample_burst) Coalescer_start in
  weight (threads s) = 2%nat ∧
  let s' := Nat.iter (weight (threads s)) (tick (λ _, (0%nat, false))) s in
  threads s' = [] ∧ windows s' = ∅.
Proof.
  split; [vm_compute; reflexivity|].
  apply (coalescer_quiesces (take 6 sample_burst)); [|vm_compute; reflexivity].
  intros [ws g [|t ts] bs] Hne; [destruct (Hne eq_refl)|exists t; reflexivity].
Defined.
