(* ===== verification/Session.v ===== *)
(** * The session: encryption key, idle auto-lock, reminder scan ([session.rs])

    [SessionManager] guards an [InnerState] with a mutex. The idle timer and the
    reminder scan are spawned tasks, and the functions that leave the mutex
    between two steps ([set_key], [lock_after_idle], [set_session_timeout]) are
    callers that stand between two of their locked sections. An execution is a
    list of [Action]s: a call from outside, or the next section of one task.

    Aborting a task cancels it where it waits. A task that is being polled goes on, over
    awaits that are ready at once, to the first one that is not; so a scan in the middle of
    a tick outlives its abort by up to that stretch. *)

From S2P Require Import Prelude.

Definition DEFAULT_IDLE_TIMEOUT_MS : Z := 900000.

(** Release arithmetic on [u64] wraps. *)
Definition wrapu64 (z : Z) : Z := z `mod` 2 ^ 64.
Definition U64_MAX : Z := 2 ^ 64 - 1.
(** Instants are in nanoseconds. *)
Definition NS_PER_MS : Z := 1000000.

Inductive SessionState : Type := Locked | Unlocked.

Record SessionStatus : Type := mkSessionStatus { ss_unlocked : bool; ss_locked_at : option Z }.

(** [TimerState] and [ReminderScanState] hold the handle of their task. *)
Record ReminderScanState : Type := mkReminderScan { rs_handle : nat; rs_unlocked_at_ms : Z }.

Record InnerState : Type := mkInner {
  is_key : option (list Byte.byte);
  is_last_activity : Z;
  is_locked_at : option Z;
  is_timer : option nat;
  is_reminder_scan : option ReminderScanState;
  is_timeout_ms : Z;
}.

(** Where the reminder scan stands: at the next tick, at the mutex of the scans, at that of
    the chats (before it shows what is due). *)
Inductive ScanAwait : Type := AtTick | AtScanLock | AtState.

(** A task or a caller, between two of its sections. [ScanLoop] waits; [ScanPolled] is
    being polled and has passed its await, and may have been aborted since. *)
Inductive Task : Type :=
| TimerSleeping (handle : nat) (started_at timeout_ms : Z)
| TimerWoken (started_at timeout_ms : Z)
| TimerClearing
| TimerEmitting
| ScanLoop (handle : nat) (at_ : ScanAwait) (unlocked_at_ms : Z)
| ScanPolled (handle : nat) (at_ : ScanAwait) (unlocked_at_ms : Z) (aborted : bool)
| ScanStarting
| ScanInstalling (handle : nat) (unlocked_at_ms : Z)
| Beating (persist : option Z)
| Persisting (timeout_ms : Z).

(** Events to the user interface, and the calls of [run_scan] and [deliver]. *)
Inductive Output : Type :=
| SessionLocked
| SessionWarning (warning : string)
| RunScan (unlocked_at_ms : Z)
| Deliver.

Record Session : Type := mkSession {
  inner : InnerState;
  next_handle : nat;
  tasks : list Task;
  outputs : list Output;
  (** The row [session_idle_timeout_ms] of [settings]. *)
  stored : option string;
}.

(** What a section finds: the clocks, whether a runtime and the application are
    there, whether [mlock] and the database work; for a scan, whether what it comes to
    await is ready and whether reminders are due. *)
Record Env : Type := mkEnv {
  e_instant : Z; e_system_ms : Z; e_runtime : bool; e_app : bool; e_mlock : bool; e_db : bool;
  e_ready : bool; e_due : bool;
}.

Definition SessionManager_new (t : Z) : InnerState :=
  mkInner None t None None None DEFAULT_IDLE_TIMEOUT_MS.

(** ** Setters and spawning *)

Definition set_inner (f : InnerState → InnerState) (s : Session) : Session :=
  mkSession (f (inner s)) (next_handle s) (tasks s) (outputs s) (stored s).
Definition set_tasks (f : list Task → list Task) (s : Session) : Session :=
  mkSession (inner s) (next_handle s) (f (tasks s)) (outputs s) (stored s).
Definition put_timer (t : option nat) (i : InnerState) : InnerState :=
  mkInner (is_key i) (is_last_activity i) (is_locked_at i) t (is_reminder_scan i) (is_timeout_ms i).
Definition put_scan (r : option ReminderScanState) (i : InnerState) : InnerState :=
  mkInner (is_key i) (is_last_activity i) (is_locked_at i) (is_timer i) r (is_timeout_ms i).
Definition put_activity (t : Z) (i : InnerState) : InnerState :=
  mkInner (is_key i) t (is_locked_at i) (is_timer i) (is_reminder_scan i) (is_timeout_ms i).
Definition put_key (k : option (list Byte.byte)) (locked_at : option Z) (i : InnerState) : InnerState :=
  mkInner k (is_last_activity i) locked_at (is_timer i) (is_reminder_scan i) (is_timeout_ms i).

(** [JoinHandle::abort] ends a task that waits: one that sleeps, or a scan at an await. A
    closure that already runs is not interrupted, a scan that is polled goes on to its next
    await. *)
Definition has_handle (h : nat) (t : Task) : bool :=
  match t with
  | TimerSleeping h' _ _ | ScanLoop h' _ _ | ScanPolled h' _ _ _ => bool_decide (h' = h)
  | _ => false
  end.
Definition after_abort (h : nat) (t : Task) : option Task :=
  if has_handle h t then
    match t with
    | ScanPolled h' at_ unlocked_at_ms _ => Some (ScanPolled h' at_ unlocked_at_ms true)
    | _ => None
    end
  else Some t.
Definition abort (h : nat) : Session → Session := set_tasks (omap (after_abort h)).
Definition spawn (t : nat → Task) (s : Session) : nat * Session :=
  (next_handle s,
   mkSession (inner s) (S (next_handle s)) (tasks s ++ [t (next_handle s)]) (outputs s) (stored s)).

Definition note (o : Output) (s : Session) : Session :=
  mkSession (inner s) (next_handle s) (tasks s) (outputs s ++ [o]) (stored s).
Definition emit (e : Env) (o : Output) (s : Session) : Session := if e_app e then note o s else s.
Definition emit_session_warning (e : Env) (warning : string) : Session → Session :=
  emit e (SessionWarning warning).
Definition emit_locked (e : Env) : Session → Session := emit e SessionLocked.

Definition abort_timer (s : Session) : Session :=
  match is_timer (inner s) with
  | Some h => abort h (set_inner (put_timer None) s)
  | None => s
  end.
Definition abort_scan (s : Session) : Session :=
  match is_reminder_scan (inner s) with
  | Some scan => abort (rs_handle scan) (set_inner (put_scan None) s)
  | None => s
  end.

(** ** The locked sections *)

Definition set_timeout_ms (timeout_ms : Z) : Session → Session :=
  set_inner (λ i, mkInner (is_key i) (is_last_activity i) (is_locked_at i) (is_timer i)
                    (is_reminder_scan i) timeout_ms).

Definition spawn_timer_locked (e : Env) (s : Session) : Session :=
  let s := abort_timer s in
  if negb (e_runtime e) then s
  else
    let timeout_ms := is_timeout_ms (inner s) in
    if timeout_ms =? 0 then s
    else
      let started_at := is_last_activity (inner s) in
      let '(handle, s) := spawn (λ h, TimerSleeping h started_at timeout_ms) s in
      set_inner (put_timer (Some handle)) s.

Definition set_key_locked (e : Env) (key : list Byte.byte) (s : Session) : Session :=
  let s := if e_mlock e then s else emit_session_warning e "memory_lock_failed" s in
  let s := set_inner (λ i, put_activity (e_instant e) (put_key (Some key) None i)) s in
  abort_scan (spawn_timer_locked e s).

(** Milliseconds since the epoch, [0] before it. *)
Definition unlocked_at (e : Env) : Z := if e_system_ms e <? 0 then 0 else wrap64 (e_system_ms e).

(** [start_reminder_scan] up to the mutex, and inside it. *)
Definition scan_spawn (e : Env) (s : Session) : Session * list Task :=
  let unlocked_at_ms := unlocked_at e in
  if e_app e
  then let '(handle, s) := spawn (λ h, ScanLoop h AtTick unlocked_at_ms) s in
       (s, [ScanInstalling handle unlocked_at_ms])
  else (s, []).
Definition scan_install (handle : nat) (unlocked_at_ms : Z) (s : Session) : Session :=
  match is_key (inner s) with
  | None => abort handle s
  | Some _ =>
      set_inner (put_scan (Some (mkReminderScan handle unlocked_at_ms))) (abort_scan s)
  end.

Definition reminder_unlocked_at_ms (i : InnerState) : option Z :=
  rs_unlocked_at_ms <$> is_reminder_scan i.

Definition clear (e : Env) (s : Session) : Session :=
  let s := match is_key (inner s) with
           | Some _ => set_inner (put_key None (Some (e_system_ms e))) s
           | None => s
           end in
  abort_scan (abort_timer s).

Definition is_unlocked (i : InnerState) : bool := bool_decide (is_Some (is_key i)).
Definition session_state (i : InnerState) : SessionState :=
  if is_unlocked i then Unlocked else Locked.
Definition current_key (i : InnerState) : option (list Byte.byte) := is_key i.
Definition locked_at_epoch_ms (i : InnerState) : option Z :=
  (λ t, wrapu64 (Z.max 0 t)) <$> is_locked_at i.

Definition heartbeat (e : Env) (s : Session) : Session :=
  match is_key (inner s) with
  | None => s
  | Some _ => spawn_timer_locked e (set_inner (put_activity (e_instant e)) s)
  end.

Definition last_activity_after (i : InnerState) (instant : Z) : bool :=
  instant <? is_last_activity i.

(** [check_session] takes the mutex twice. *)
Definition check_session (first second : InnerState) : SessionStatus :=
  let unlocked := is_unlocked first in
  mkSessionStatus unlocked (if unlocked then None else locked_at_epoch_ms second).

(** ** The persisted timeout *)

Definition load_timeout_ms_from_conn (e : Env) (s : Session) : Session :=
  match (if e_db e then stored s else None) ≫= parse_unsigned U64_MAX with
  | Some ms =>
      let ms := if ms =? 0 then 0 else Z.max ms (Z.min DEFAULT_IDLE_TIMEOUT_MS 60000) in
      set_timeout_ms ms s
  | None => s
  end.

Definition persist (e : Env) (timeout_ms : Z) (s : Session) : Session :=
  if e_app e && e_db e
  then mkSession (inner s) (next_handle s) (tasks s) (outputs s) (Some (pretty timeout_ms))
  else s.

Definition get_session_timeout (e : Env) (s : Session) : Z :=
  let default_minutes := DEFAULT_IDLE_TIMEOUT_MS / 60000 in
  if e_app e && e_db e then
    match stored s ≫= parse_unsigned U64_MAX with
    | Some ms => ms / 60000
    | None => default_minutes
    end
  else default_minutes.

(** ** Executions *)

(** [set_key] up to the start of the scan, and the scan to start. *)
Definition set_key_and_scan (e : Env) (key : list Byte.byte) (s : Session) : Session * list Task :=
  (set_key_locked e key s, [ScanStarting]).

Inductive Call : Type :=
| set_key (key : list Byte.byte)
| clear_key
| session_heartbeat
| set_timeout (timeout_ms : Z)
| lock_after_idle (duration_ms : Z)
| set_session_timeout (timeout_minutes : Z)
| load_timeout.

(** The first section of a call, and what is left of it. *)
Definition enter (c : Call) (e : Env) (s : Session) : Session * list Task :=
  match c with
  | set_key key => set_key_and_scan e key s
  | clear_key => (clear e s, [])
  | session_heartbeat => (heartbeat e s, [])
  | set_timeout timeout_ms => (set_timeout_ms timeout_ms s, [])
  | lock_after_idle duration_ms => (set_timeout_ms (wrapu64 duration_ms) s, [Beating None])
  | set_session_timeout timeout_minutes =>
      let timeout_ms := wrapu64 (timeout_minutes * 60000) in
      (set_timeout_ms timeout_ms s, [Beating (Some timeout_ms)])
  | load_timeout => (load_timeout_ms_from_conn e s, [])
  end.

(** A polled scan comes to an await: it goes on if that is ready, otherwise the task waits,
    or ends if it was aborted. *)
Definition reach (e : Env) (handle : nat) (at_ : ScanAwait) (unlocked_at_ms : Z) (aborted : bool) : list Task :=
  if e_ready e then [ScanPolled handle at_ unlocked_at_ms aborted]
  else if aborted then []
  else [ScanLoop handle at_ unlocked_at_ms].

(** The loop of [spawn_scan_loop] with [scan_and_deliver] in it, from one await to the next. *)
Definition scan_stretch (handle : nat) (at_ : ScanAwait) (unlocked_at_ms : Z) (aborted : bool) (e : Env)
    (s : Session) : Session * list Task :=
  match at_ with
  | AtTick => (s, reach e handle AtScanLock unlocked_at_ms aborted)
  | AtScanLock =>
      if e_db e
      then (note (RunScan unlocked_at_ms) s,
            reach e handle (if e_due e then AtState else AtTick) unlocked_at_ms aborted)
      else (s, reach e handle AtTick unlocked_at_ms aborted)
  | AtState => (note Deliver s, reach e handle AtTick unlocked_at_ms aborted)
  end.

(** The next section of a task, and what it goes on as. *)
Definition section (t : Task) (e : Env) (s : Session) : Session * list Task :=
  match t with
  | TimerSleeping handle started_at timeout_ms =>
      if e_instant e <? started_at + timeout_ms * NS_PER_MS then (s, [t])
      else (s, [TimerWoken started_at timeout_ms])
  | TimerWoken started_at _ =>
      if last_activity_after (inner s) started_at then (s, []) else (s, [TimerClearing])
  | TimerClearing => (clear e s, [TimerEmitting])
  | TimerEmitting => (emit_locked e s, [])
  | ScanLoop handle at_ unlocked_at_ms =>
      if e_ready e then (s, [ScanPolled handle at_ unlocked_at_ms false]) else (s, [t])
  | ScanPolled handle at_ unlocked_at_ms aborted => scan_stretch handle at_ unlocked_at_ms aborted e s
  | ScanStarting => scan_spawn e s
  | ScanInstalling handle unlocked_at_ms => (scan_install handle unlocked_at_ms s, [])
  | Beating p =>
      (heartbeat e s, match p with Some ms => [Persisting ms] | None => [] end)
  | Persisting timeout_ms => (persist e timeout_ms s, [])
  end.

Inductive Action : Type :=
| Enter (c : Call) (e : Env)
| Run (i : nat) (e : Env).

Definition act_env (a : Action) : Env :=
  match a with Enter _ e => e | Run _ e => e end.

(** The scheduler takes a task out, runs one section and puts its rest back. *)
Definition act (s : Session) (a : Action) : Session :=
  match a with
  | Enter c e => let '(s', rest) := enter c e s in set_tasks (λ ts, rest ++ ts) s'
  | Run i e =>
      match tasks s !! i with
      | None => s
      | Some t =>
          let '(s', rest) := section t e (set_tasks (delete i) s) in
          set_tasks (λ ts, rest ++ ts) s'
      end
  end.

Definition run (l : list Action) (s : Session) : Session := foldl act s l.

Definition Session_start (t : Z) : Session := mkSession (SessionManager_new t) 0 [] [] None.
