(* ===== verification/SessionTheorems.v ===== *)
(** * The properties of the session

    Over every interleaving of calls and tasks: a locked session has no timer and
    no reminder scan but what an abort met in the middle of a tick, an idle lock comes no earlier than the timeout, an armed
    timer locks, and the timeout survives the settings table. *)

From S2P Require Import Prelude Session.

(** ** The invariant *)

Definition task_handle (t : Task) : option nat :=
  match t with
  | TimerSleeping h _ _ | ScanLoop h _ _ | ScanPolled h _ _ _ => Some h
  | _ => None
  end.

(** A scan that no abort has met. *)
Definition live_scan (t : Task) : option nat :=
  match t with
  | ScanLoop h _ _ | ScanPolled h _ _ false => Some h
  | _ => None
  end.

Definition scan_handle (s : Session) (h : nat) : Prop :=
  (∃ u, is_reminder_scan (inner s) = Some (mkReminderScan h u)) ∨
  (∃ u, ScanInstalling h u ∈ tasks s).

(** What holds even while the timer is being replaced; [now] is the last instant
    read. *)
Record handles_inv (now : Z) (s : Session) : Prop := {
  hi_nodup : NoDup (omap task_handle (tasks s));
  hi_fresh : ∀ h, h ∈ omap task_handle (tasks s) → (h < next_handle s)%nat;
  hi_timer : ∀ h, is_timer (inner s) = Some h → (h < next_handle s)%nat ∧ ¬ scan_handle s h;
  hi_scan : ∀ h, scan_handle s h → (h < next_handle s)%nat;
  hi_sleeping : ∀ h a w, TimerSleeping h a w ∈ tasks s → is_timer (inner s) = Some h;
  hi_loops : ∀ h t, t ∈ tasks s → live_scan t = Some h → scan_handle s h;
  hi_woken : ∀ a w, TimerWoken a w ∈ tasks s → a + w * NS_PER_MS ≤ now;
  hi_now : is_last_activity (inner s) ≤ now;
}.

(** The task that will lock an unlocked session. *)
Definition armed (s : Session) (h : nat) : Prop :=
  (∃ w, TimerSleeping h (is_last_activity (inner s)) w ∈ tasks s) ∨
  (∃ w, TimerWoken (is_last_activity (inner s)) w ∈ tasks s) ∨
  TimerClearing ∈ tasks s.

Record session_inv (now : Z) (s : Session) : Prop := {
  si_handles : handles_inv now s;
  si_locked : is_key (inner s) = None →
    is_timer (inner s) = None ∧ is_reminder_scan (inner s) = None;
  si_started : ∀ h a w, TimerSleeping h a w ∈ tasks s → a = is_last_activity (inner s);
  si_armed : ∀ h, is_timer (inner s) = Some h → armed s h;
}.

Lemma handles_later now now' s : handles_inv now s → now ≤ now' → handles_inv now' s.
Proof.
  intros [] Hle. split; try done; [|lia]. intros a w H. specialize (hi_woken0 a w H). lia.
Qed.

Lemma inv_later now now' s : session_inv now s → now ≤ now' → session_inv now' s.
Proof. intros [] Hle. split; try done. by eapply handles_later. Qed.

(** Tasks that hold no handle and decide nothing. *)
Definition inert (t : Task) : bool :=
  match t with
  | TimerEmitting | ScanStarting | Beating _ | Persisting _ => true
  | _ => false
  end.

(** The invariants see the handles, and which of the other tasks there are. *)
Definition same_tasks (ts ts' : list Task) : Prop :=
  omap task_handle ts ≡ₚ omap task_handle ts' ∧ ∀ t, inert t = false → t ∈ ts ↔ t ∈ ts'.

Lemma same_perm ts ts' : ts ≡ₚ ts' → same_tasks ts ts'.
Proof. intros Hp. split; [by rewrite Hp|]. intros t _. by rewrite Hp. Qed.
Lemma same_inert t ts : inert t = true → same_tasks ts (t :: ts).
Proof.
  intros Ht. split; [by destruct t|]. intros t' Ht'. rewrite elem_of_cons.
  split; [tauto|]. intros [->|?]; [congruence|done].
Qed.

Section same.
Context (s : Session) (ts : list Task) (Hs : same_tasks (tasks s) ts).
Let s' : Session := set_tasks (const ts) s.

Lemma same_in t : inert t = false → t ∈ ts → t ∈ tasks s.
Proof using Hs. intros Ht. by apply Hs. Qed.
Lemma same_out t : inert t = false → t ∈ tasks s → t ∈ ts.
Proof using Hs. intros Ht. by apply Hs. Qed.

Lemma same_scan_handle h : scan_handle s' h ↔ scan_handle s h.
Proof using Hs.
  split; (intros [?|[u Hu]]; [by left|right; exists u]); simpl in *;
    [by apply same_in|by apply same_out].
Qed.

Lemma handles_same now : handles_inv now s → handles_inv now s'.
Proof using Hs.
  intros []. split; simpl; try done.
  - by rewrite <- (proj1 Hs).
  - intros h. rewrite <- (proj1 Hs). apply hi_fresh0.
  - intros h. rewrite same_scan_handle. apply hi_timer0.
  - intros h. rewrite same_scan_handle. apply hi_scan0.
  - intros h a w H%same_in; [by eapply hi_sleeping0|done].
  - intros h t H Ht. rewrite same_scan_handle. eapply hi_loops0; [|done]. apply same_in; [by destruct t|done].
  - intros a w H%same_in; [by apply hi_woken0|done].
Qed.

Lemma inv_same now : session_inv now s → session_inv now s'.
Proof using Hs.
  intros []. split; simpl; [by apply handles_same|done|..].
  - intros h a w H%same_in; [by eapply si_started0|done].
  - intros h Hh. destruct (si_armed0 h Hh) as [[w H]|[[w H]|H]];
      [left; exists w|right; left; exists w|right; right]; by apply same_out.
Qed.
End same.

Lemma inv_perm now s ts :
  session_inv now s → ts ≡ₚ tasks s → session_inv now (set_tasks (const ts) s).
Proof. intros Hi Hp. apply inv_same; [|done]. by apply same_perm. Qed.

(** ** What the steps of a section do to the handles *)

(** All but the scans that are aborted already. *)
Definition aborted_scan (t : Task) : bool :=
  match t with ScanPolled _ _ _ true => true | _ => false end.

Lemma after_abort_other h t0 t : aborted_scan t = false →
  after_abort h t0 = Some t ↔ has_handle h t = false ∧ t0 = t.
Proof.
  intros Ht. unfold after_abort. destruct (has_handle h t0) eqn:Hh.
  - split; [|intros [? ->]; congruence]. destruct t0; try done. by intros [= <-].
  - split; [intros [= <-]; by split|intros [_ ->]; done].
Qed.

Lemma elem_of_abort h s t : aborted_scan t = false →
  t ∈ tasks (abort h s) ↔ has_handle h t = false ∧ t ∈ tasks s.
Proof.
  intros Ht. simpl. rewrite list_elem_of_omap. setoid_rewrite (after_abort_other h _ t Ht). split.
  - by intros (t0 & Hin & Hh & ->).
  - intros [Hh Hin]. by exists t.
Qed.

Lemma live_not_aborted t h : live_scan t = Some h → aborted_scan t = false.
Proof. by destruct t as [| | | | |? ? ? []| | | |]. Qed.

Lemma scan_handle_abort h s h' : scan_handle (abort h s) h' ↔ scan_handle s h'.
Proof.
  unfold scan_handle. setoid_rewrite elem_of_abort; [|done]. simpl. split; (intros [?|[u ?]]; [by left|]);
    right; exists u; tauto.
Qed.

Lemma abort_sublist h l : omap task_handle (omap (after_abort h) l) `sublist_of` omap task_handle l.
Proof.
  induction l as [|t l IH]; simpl; [done|]. unfold after_abort at 1.
  destruct (has_handle h t); destruct t; simpl; try done; by constructor.
Qed.

Lemma handles_abort now h s : handles_inv now s → handles_inv now (abort h s).
Proof.
  intros []. pose proof (abort_sublist h (tasks s)).
  split; simpl; try done.
  - by eapply sublist_NoDup.
  - intros h' Hh. apply hi_fresh0. by eapply elem_of_sublist.
  - intros h'. rewrite scan_handle_abort. apply hi_timer0.
  - intros h'. rewrite scan_handle_abort. apply hi_scan0.
  - intros h' a w [_ H']%elem_of_abort; [|done]. by eapply hi_sleeping0.
  - intros h' t Ht Hl. rewrite scan_handle_abort. apply elem_of_abort in Ht as [_ Ht]; [by eapply hi_loops0|].
    by eapply live_not_aborted.
  - intros a w [_ H']%elem_of_abort; [|done]. by apply hi_woken0.
Qed.

Lemma handles_no_timer now s :
  handles_inv now s → (∀ h a w, TimerSleeping h a w ∉ tasks s) →
  handles_inv now (set_inner (put_timer None) s).
Proof. intros [] Hn. split; try done. intros h a w H. by apply Hn in H. Qed.

Lemma handles_no_scan now s :
  handles_inv now s →
  (∀ h t, t ∈ tasks s → live_scan t = Some h → ∃ u', ScanInstalling h u' ∈ tasks s) →
  handles_inv now (set_inner (put_scan None) s).
Proof.
  intros [] Hn. split; try done.
  - intros h Hh. destruct (hi_timer0 h Hh) as [? Hs]. split; [done|].
    intros [[u [=]]|?]. apply Hs. by right.
  - intros h [[u [=]]|?]. apply hi_scan0. by right.
  - intros h t H Ht. right. by eapply Hn.
Qed.

Lemma handles_key now t k l s :
  handles_inv now s → t ≤ now →
  handles_inv now (set_inner (λ i, put_activity t (put_key k l i)) s).
Proof. by intros [] Ht. Qed.

Lemma abort_timer_handles now s :
  handles_inv now s →
  handles_inv now (abort_timer s) ∧ is_timer (inner (abort_timer s)) = None ∧
  (∀ h a w, TimerSleeping h a w ∉ tasks (abort_timer s)).
Proof.
  intros Hi. unfold abort_timer. destruct (is_timer (inner s)) as [h|] eqn:Ht.
  - assert (∀ h' a w, TimerSleeping h' a w ∉ tasks (abort h s)) as Hn.
    { intros h' a w [Hh H]%elem_of_abort; [|done]. apply (hi_sleeping _ _ Hi) in H.
      simpl in Hh. case_bool_decide; simplify_eq. }
    split; [|done]. exact (handles_no_timer now _ (handles_abort now h s Hi) Hn).
  - split; [done|]. split; [done|]. intros h a w H%(hi_sleeping _ _ Hi). congruence.
Qed.

Lemma abort_scan_handles now s :
  handles_inv now s →
  handles_inv now (abort_scan s) ∧ is_reminder_scan (inner (abort_scan s)) = None.
Proof.
  intros Hi. unfold abort_scan. destruct (is_reminder_scan (inner s)) as [[h u]|] eqn:Ht; [|done].
  split; [|done]. refine (handles_no_scan now _ (handles_abort now h s Hi) _).
  intros h' t H Hl. apply elem_of_abort in H as [Hh H]; [|by eapply live_not_aborted].
  destruct (hi_loops _ _ Hi _ _ H Hl) as [[u2 Hu]|[u2 Hu]].
  - assert (has_handle h' t = true) by (destruct t as [| | | | |? ? ? []| | | |]; simplify_eq/=; by apply bool_decide_eq_true).
    simplify_eq. congruence.
  - exists u2. by apply elem_of_abort.
Qed.

(** A new task with a handle of its own. *)
Lemma handles_spawn_timer now a w s :
  handles_inv now s → is_timer (inner s) = None → (∀ h a w, TimerSleeping h a w ∉ tasks s) →
  handles_inv now (set_inner (put_timer (Some (next_handle s)))
                     (spawn (λ h, TimerSleeping h a w) s).2).
Proof.
  intros [] Ht Hn. split; unfold scan_handle in *; simpl in *; try done.
  - rewrite omap_app. simpl. apply NoDup_app. split; [done|]. split; [|apply NoDup_singleton].
    intros h Hh%hi_fresh0. rewrite list_elem_of_singleton. lia.
  - intros h. rewrite omap_app, elem_of_app. intros [Hh%hi_fresh0|Hh]; simpl in *; [lia|].
    apply list_elem_of_singleton in Hh. lia.
  - intros h [= <-]. split; [lia|]. intros [Hh|[u Hu]].
    + specialize (hi_scan0 _ (or_introl Hh)). lia.
    + rewrite elem_of_app, list_elem_of_singleton in Hu. destruct Hu as [Hu|Hu]; [|done].
      specialize (hi_scan0 _ (or_intror (ex_intro _ u Hu))). lia.
  - intros h [Hh|[u Hu]]; [specialize (hi_scan0 h (or_introl Hh)); lia|].
    rewrite elem_of_app, list_elem_of_singleton in Hu. destruct Hu as [Hu|Hu]; [|done].
    specialize (hi_scan0 _ (or_intror (ex_intro _ u Hu))). lia.
  - intros h a' w'. rewrite elem_of_app, list_elem_of_singleton. intros [H|[= -> -> ->]]; [|done].
    by destruct (Hn h a' w').
  - intros h t. rewrite elem_of_app, list_elem_of_singleton. intros [H| ->] Htl; [|done].
    destruct (hi_loops0 h t H Htl) as [?|[u' Hu]]; [by left|right; exists u'].
    apply elem_of_app. by left.
  - intros a' w'. rewrite elem_of_app, list_elem_of_singleton. intros [H|[=]]. by apply hi_woken0.
Qed.

(** ** The sections keep the invariant *)

Lemma inv_spawn_timer now e s k :
  handles_inv now s → is_key (inner s) = Some k → session_inv now (spawn_timer_locked e s).
Proof.
  intros Hi Hk. destruct (abort_timer_handles now s Hi) as (Hh & Ht & Hn).
  assert (is_key (inner (abort_timer s)) = Some k) as Hk'.
  { unfold abort_timer. by destruct (is_timer (inner s)). }
  unfold spawn_timer_locked. set (s1 := abort_timer s) in *. clearbody s1.
  assert (session_inv now s1) as H1.
  { split; [done|congruence| |congruence]. intros h a w H. by destruct (Hn h a w). }
  destruct (negb (e_runtime e)); [done|]. destruct (is_timeout_ms (inner s1) =? 0); [done|].
  split; simpl; [by apply handles_spawn_timer|congruence|..].
  - intros h a w. rewrite elem_of_app, list_elem_of_singleton. intros [H|[= -> -> ->]]; [|done].
    by destruct (Hn h a w).
  - intros h [= <-]. left. eexists. apply elem_of_app. right. by apply list_elem_of_singleton.
Qed.

Lemma inv_abort_scan now s : session_inv now s → session_inv now (abort_scan s).
Proof.
  intros []. destruct (abort_scan_handles now s) as [Hh Hs]; [done|]. split; [done|..].
  - intros Hk. split; [|done]. unfold abort_scan in *. destruct (is_reminder_scan _); simpl in *; by apply si_locked0.
  - intros h a w. unfold abort_scan. destruct (is_reminder_scan (inner s)); [|by apply si_started0].
    intros [_ H]%elem_of_abort; [|done]. by eapply si_started0.
  - intros h. unfold abort_scan. destruct (is_reminder_scan (inner s)) as [[h' u]|] eqn:Hr; [|by apply si_armed0].
    intros Ht. simpl in Ht. destruct (hi_timer _ _ si_handles0 _ Ht) as [_ Hno].
    destruct (si_armed0 h Ht) as [[w H]|[[w H]|H]]; [left; exists w|right; left; exists w|right; right];
      (apply elem_of_abort; [done|]); (split; [|done]); simpl; try done.
    apply bool_decide_eq_false. intros ->. apply Hno. left. by exists u.
Qed.

Lemma inv_clear now e s : handles_inv now s → session_inv now (clear e s).
Proof.
  intros Hi. unfold clear. set (s1 := match is_key (inner s) with Some _ => _ | None => s end).
  assert (handles_inv now s1 ∧ is_key (inner s1) = None) as [H1 Hk].
  { unfold s1. destruct (is_key (inner s)) eqn:Hk; [|done]. split; [|done]. by destruct Hi. }
  clearbody s1. destruct (abort_timer_handles now s1 H1) as (H2 & Ht & Hn).
  set (s2 := abort_timer s1) in *.
  assert (is_key (inner s2) = None) as Hk2.
  { unfold s2, abort_timer. by destruct (is_timer (inner s1)). }
  clearbody s2. destruct (abort_scan_handles now s2 H2) as [H3 Hr].
  assert (is_timer (inner (abort_scan s2)) = None) as Ht3.
  { unfold abort_scan. by destruct (is_reminder_scan (inner s2)). }
  split; [done|done| |congruence].
  intros h a w H%(hi_sleeping _ _ H3). congruence.
Qed.

Lemma clear_locks e s :
  is_key (inner (clear e s)) = None ∧ is_timer (inner (clear e s)) = None ∧
  is_reminder_scan (inner (clear e s)) = None.
Proof.
  unfold clear, abort_scan, abort_timer.
  destruct (is_key (inner s)) eqn:Hk; simpl; destruct (is_timer (inner s)) eqn:Ht; simpl;
    destruct (is_reminder_scan (inner s)) eqn:Hr; simpl; auto.
Qed.

Lemma inv_heartbeat now e s :
  session_inv now s → e_instant e ≤ now → session_inv now (heartbeat e s).
Proof.
  intros Hi Ht. unfold heartbeat. destruct (is_key (inner s)) as [k|] eqn:Hk; [|done].
  eapply inv_spawn_timer; [|done]. by destruct (si_handles _ _ Hi).
Qed.

Lemma handles_emit now e o s : handles_inv now s → handles_inv now (emit e o s).
Proof. unfold emit. destruct (e_app e); [by intros []|done]. Qed.

Lemma inv_set_key now e key s :
  session_inv now s → e_instant e ≤ now → session_inv now (set_key_locked e key s).
Proof.
  intros Hi Ht. apply inv_abort_scan. eapply inv_spawn_timer; [|done].
  apply handles_key; [|done]. destruct (e_mlock e); [|apply handles_emit]; apply Hi.
Qed.

(** Parts of the state the invariant does not read. *)
Lemma inv_inner now f s :
  session_inv now s →
  is_key (f (inner s)) = is_key (inner s) →
  is_last_activity (f (inner s)) = is_last_activity (inner s) →
  is_timer (f (inner s)) = is_timer (inner s) →
  is_reminder_scan (f (inner s)) = is_reminder_scan (inner s) → session_inv now (set_inner f s).
Proof.
  intros [[] Hl Hs Ha] Ek El Et Er.
  split; [split; unfold scan_handle in *; simpl; rewrite ?El, ?Et, ?Er; done|..]; unfold armed in *; simpl;
    rewrite ?Ek, ?El, ?Et, ?Er; done.
Qed.

Lemma inv_outputs now s o st :
  session_inv now s → session_inv now (mkSession (inner s) (next_handle s) (tasks s) o st).
Proof. intros [[] Hl Hs Ha]. by split. Qed.

Lemma inv_scan_spawn now u s :
  session_inv now s →
  session_inv now (set_tasks (λ ts, ScanInstalling (next_handle s) u :: ts)
                     (spawn (λ h, ScanLoop h AtTick u) s).2).
Proof.
  intros [[] Hl Hs Ha]. unfold scan_handle in *.
  assert (∀ h, (h < next_handle s)%nat → (h < S (next_handle s))%nat) as HS by lia.
  split; [split|..]; unfold scan_handle, armed in *; simpl in *; try done.
  - rewrite omap_app. simpl. apply NoDup_app. split; [done|]. split; [|apply NoDup_singleton].
    intros h Hh%hi_fresh0. rewrite list_elem_of_singleton. lia.
  - intros h. rewrite omap_app, elem_of_app. intros [Hh%hi_fresh0|Hh]; simpl in *; [lia|].
    apply list_elem_of_singleton in Hh. lia.
  - intros h Hh. destruct (hi_timer0 h Hh) as [? Hn]. split; [lia|]. intros [?|[u' Hu]]; [by apply Hn; left|].
    rewrite elem_of_cons, elem_of_app, list_elem_of_singleton in Hu.
    destruct Hu as [[=]|[Hu|[=]]]; [lia|]. apply Hn. right. by exists u'.
  - intros h [Hh|[u' Hu]]; [by apply HS, hi_scan0; left|].
    rewrite elem_of_cons, elem_of_app, list_elem_of_singleton in Hu.
    destruct Hu as [[=]|[Hu|[=]]]; [lia|]. apply HS, hi_scan0. right. by exists u'.
  - intros h a w. rewrite elem_of_cons, elem_of_app, list_elem_of_singleton.
    intros [[=]|[H|[=]]]. by eapply hi_sleeping0.
  - intros h t. rewrite elem_of_cons, elem_of_app, list_elem_of_singleton.
    intros [-> |[H| ->]] Ht; [done| |injection Ht as <-; right; exists u; by left].
    destruct (hi_loops0 h t H Ht) as [?|[u2 Hu]]; [by left|right; exists u2; set_solver].
  - intros a w. rewrite elem_of_cons, elem_of_app, list_elem_of_singleton.
    intros [[=]|[H|[=]]]. by apply hi_woken0.
  - intros h a w. rewrite elem_of_cons, elem_of_app, list_elem_of_singleton.
    intros [[=]|[H|[=]]]. by eapply Hs.
  - intros h Hh. destruct (Ha h Hh) as [[w H]|[[w H]|H]];
      [left; exists w|right; left; exists w|right; right]; set_solver.
Qed.

(** Taking out a task that nothing needs any more. *)
Lemma handles_drop now s t ts :
  handles_inv now s → tasks s = t :: ts →
  (∀ h u t', t = ScanInstalling h u → t' ∈ ts → live_scan t' = Some h →
     ∃ u2, is_reminder_scan (inner s) = Some (mkReminderScan h u2)) →
  handles_inv now (set_tasks (const ts) s).
Proof.
  intros [] Hts Hloop.
  assert (∀ t', t' ∈ ts → t' ∈ tasks s) as Hin by (intros; rewrite Hts; by right).
  assert (∀ h, scan_handle (set_tasks (const ts) s) h → scan_handle s h) as Hsub.
  { intros h [?|[u Hu]]; [by left|right; exists u; auto]. }
  split; simpl; try done.
  - rewrite Hts in hi_nodup0. simpl in hi_nodup0. destruct (task_handle t); [|done].
    by apply NoDup_cons in hi_nodup0 as [_ ?].
  - intros h Hh. apply hi_fresh0. rewrite Hts. simpl. destruct (task_handle t); [by right|done].
  - intros h Hh. destruct (hi_timer0 h Hh) as [? Hn]. split; [done|]. by intros ?%Hsub.
  - intros h ?%Hsub. auto.
  - intros h a w H. by eapply hi_sleeping0, Hin.
  - intros h t' H Ht'. destruct (hi_loops0 h t' (Hin _ H) Ht') as [?|[u2 Hu]]; [by left|].
    rewrite Hts in Hu. apply elem_of_cons in Hu as [Hu|?]; [|right; by exists u2].
    left. by eapply Hloop.
  - intros a w H. by apply hi_woken0, Hin.
Qed.

Lemma inv_drop now s t ts :
  session_inv now s → tasks s = t :: ts →
  (∀ h u t', t = ScanInstalling h u → t' ∈ ts → live_scan t' = Some h →
     ∃ u2, is_reminder_scan (inner s) = Some (mkReminderScan h u2)) →
  (∀ h, is_timer (inner s) = Some h → armed s h → armed (set_tasks (const ts) s) h) →
  session_inv now (set_tasks (const ts) s).
Proof.
  intros [Hi Hl Hs Ha] Hts Hloop Harm. split; simpl; [by eapply handles_drop|done| |auto].
  intros h a w H. apply (Hs h a w). rewrite Hts. by right.
Qed.

(** The tasks that arm a timer are none of these. *)
Lemma armed_drop s t ts h :
  tasks s = t :: ts → (∀ h a w, t ≠ TimerSleeping h a w) →
  (∀ a w, t = TimerWoken a w → a ≠ is_last_activity (inner s)) → t ≠ TimerClearing →
  armed s h → armed (set_tasks (const ts) s) h.
Proof.
  unfold armed. simpl. intros -> H1 H2 H3 [[w H]|[[w H]|H]]; apply elem_of_cons in H as [H|H].
  - by destruct (H1 h (is_last_activity (inner s)) w).
  - left. by exists w.
  - by destruct (H2 _ _ (eq_sym H)).
  - right; left. by exists w.
  - by destruct H3.
  - by right; right.
Qed.

Lemma inv_put_scan now s h u :
  session_inv now s → is_key (inner s) ≠ None → is_reminder_scan (inner s) = None →
  ScanInstalling h u ∈ tasks s →
  session_inv now (set_inner (put_scan (Some (mkReminderScan h u))) s).
Proof.
  intros [[] Hl Hs Ha] Hk Hr Hin. assert (scan_handle s h) as Hsh by (right; by exists u).
  assert (∀ h', scan_handle (set_inner (put_scan (Some (mkReminderScan h u))) s) h' →
    scan_handle s h') as Hsub.
  { intros h' [[u' [= -> _]]|?]; [done|by right]. }
  split; [split|..]; simpl; try done.
  - intros h' Hh'. destruct (hi_timer0 h' Hh'). split; [done|]. by intros ?%Hsub.
  - intros h' ?%Hsub. auto.
  - intros h' t H Ht. destruct (hi_loops0 h' t H Ht) as [[u2 Hu]|?]; [congruence|by right].
Qed.

Lemma inv_scan_install now s h u ts :
  session_inv now s → tasks s = ScanInstalling h u :: ts →
  session_inv now (scan_install h u (set_tasks (const ts) s)).
Proof.
  intros Hi Hts. unfold scan_install. simpl. destruct (is_key (inner s)) as [k|] eqn:Hk.
  - set (s1 := set_inner (put_scan (Some (mkReminderScan h u))) (abort_scan s)).
    assert (ScanInstalling h u ∈ tasks (abort_scan s)) as Hin.
    { assert (ScanInstalling h u ∈ tasks s) by (rewrite Hts; by left).
      unfold abort_scan. destruct (is_reminder_scan _); [|done]. by apply elem_of_abort. }
    assert (session_inv now s1) as H1.
    { apply inv_put_scan; [by apply inv_abort_scan| | |done].
      - unfold abort_scan. destruct (is_reminder_scan _); simpl; congruence.
      - by apply (abort_scan_handles now s), Hi. }
    assert (∃ ts', tasks s1 = ScanInstalling h u :: ts' ∧
      set_inner (put_scan (Some (mkReminderScan h u))) (abort_scan (set_tasks (const ts) s)) =
      set_tasks (const ts') s1) as (ts' & Hts1 & ->).
    { unfold s1, abort_scan. simpl. destruct (is_reminder_scan (inner s)); simpl;
        rewrite Hts; eexists; (split; [|reflexivity]); done. }
    eapply inv_drop; [done..| |].
    + intros h' u2 t' [= <- <-] _ _. by exists u.
    + intros h' _. by eapply armed_drop.
  - destruct (si_locked _ _ Hi Hk) as [Ht Hr].
    eapply (inv_drop now (abort h s)).
    + destruct Hi as [Hh Hl Hs Ha]. split; [by apply handles_abort|done| |simpl; congruence].
      intros h' a w [_ H]%elem_of_abort; [|done]. by eapply Hs.
    + simpl. by rewrite Hts.
    + intros h' u2 t' [= <- <-] (t0 & _ & Ht0)%list_elem_of_omap Hl. exfalso.
      apply after_abort_other in Ht0 as [Hh ->]; [|by eapply live_not_aborted].
      destruct t' as [| | | | |? ? ? []| | | |]; simplify_eq/=; by rewrite bool_decide_true in Hh.
    + simpl. congruence.
Qed.


(** A task that holds nothing may be added. *)
Lemma inv_add now s t :
  session_inv now s → task_handle t = None → (∀ h u, t ≠ ScanInstalling h u) →
  (∀ a w, t = TimerWoken a w → a + w * NS_PER_MS ≤ now) →
  session_inv now (set_tasks (cons t) s).
Proof.
  intros [[] Hl Hs Ha] Ht1 Ht2 Ht3.
  assert (∀ h, scan_handle (set_tasks (cons t) s) h ↔ scan_handle s h) as Hsub.
  { intros h. split; (intros [?|[u Hu]]; [by left|right; exists u]); simpl in *; [|by right].
    apply elem_of_cons in Hu as [Hu|?]; [by destruct (Ht2 h u)|done]. }
  split; [split|..]; simpl; try done.
  - by rewrite Ht1.
  - intros h. rewrite Ht1. apply hi_fresh0.
  - intros h Hh. rewrite Hsub. auto.
  - intros h. rewrite Hsub. auto.
  - intros h a w [<-|H]%elem_of_cons; [done|]. by eapply hi_sleeping0.
  - intros h t'. rewrite Hsub. intros [->|H]%elem_of_cons Ht; [by destruct t as [| | | | |? ? ? []| | | |]|]. by eapply hi_loops0.
  - intros a w [H|H]%elem_of_cons; [by apply Ht3|by apply hi_woken0].
  - intros h a w [<-|H]%elem_of_cons; [done|]. by eapply Hs.
  - intros h Hh. destruct (Ha h Hh) as [[w H]|[[w H]|H]];
      [left; exists w|right; left; exists w|right; right]; by right.
Qed.

Lemma inv_replace now s t t' ts :
  session_inv now s → tasks s = t :: ts → task_handle t' = None →
  (∀ h u, t ≠ ScanInstalling h u) → (∀ h u, t' ≠ ScanInstalling h u) →
  (∀ a w, t' = TimerWoken a w → a + w * NS_PER_MS ≤ now) →
  (∀ h, is_timer (inner s) = Some h → armed s h → armed (set_tasks (const (t' :: ts)) s) h) →
  session_inv now (set_tasks (const (t' :: ts)) s).
Proof.
  intros Hi Hts Hh Hn Hn' Hw Harm.
  pose proof (inv_add now s t' Hi Hh Hn' Hw) as H1.
  refine (inv_drop now (set_tasks (const (t :: t' :: ts)) s) t _ _ _ _ _); [|done|..].
  - refine (inv_perm now (set_tasks (cons t') s) _ H1 _). simpl. rewrite Hts. constructor.
  - intros h u u' Ht. by destruct (Hn h u).
  - intros h Ht _. apply (Harm h Ht), (si_armed _ _ Hi h Ht).
Qed.

Lemma set_tasks_nil s : set_tasks (λ ts, [] ++ ts) s = s.
Proof. by destruct s. Qed.

Lemma inv_drop_inert now s t ts :
  session_inv now s → tasks s = t :: ts → inert t = true →
  session_inv now (set_tasks (const ts) s).
Proof.
  intros Hi Hts Ht. eapply inv_drop; [done..| |].
  - by intros h u u' ->.
  - intros h _. eapply armed_drop; [done|by destruct t..].
Qed.

(** A scan goes on under its handle, no more alive than it was. *)
Definition is_scan (t : Task) : bool :=
  match t with ScanLoop _ _ _ | ScanPolled _ _ _ _ => true | _ => false end.

Lemma inv_rescan now s t t' ts :
  session_inv now s → tasks s = t :: ts → is_scan t = true → is_scan t' = true →
  task_handle t' = task_handle t → (∀ h, live_scan t' = Some h → live_scan t = Some h) →
  session_inv now (set_tasks (const (t' :: ts)) s).
Proof.
  intros [[] Hl Hs Ha] Hts Ht Ht' Hh Hlive.
  assert (∀ x, is_scan x = false → x ∈ t' :: ts ↔ x ∈ tasks s) as Hin.
  { intros x Hx. rewrite Hts, !elem_of_cons. split; (intros [->|?]; [congruence|by right]). }
  assert (∀ h, scan_handle (set_tasks (const (t' :: ts)) s) h ↔ scan_handle s h) as Hsh.
  { intros h. unfold scan_handle. simpl. setoid_rewrite Hin; done. }
  split; [split|..]; simpl; try done.
  - rewrite Hh. by rewrite Hts in hi_nodup0.
  - rewrite Hh. by rewrite Hts in hi_fresh0.
  - intros h Hx. rewrite Hsh. auto.
  - intros h. rewrite Hsh. auto.
  - intros h a w H. apply Hin in H; [by eapply hi_sleeping0|done].
  - intros h x Hx Hlx. rewrite Hsh. apply elem_of_cons in Hx as [->|Hx].
    + apply (hi_loops0 h t); [rewrite Hts; by left|by apply Hlive].
    + apply (hi_loops0 h x); [rewrite Hts; by right|done].
  - intros a w H. apply Hin in H; [by apply hi_woken0|done].
  - intros h a w H. apply Hin in H; [by eapply Hs|done].
  - intros h Hx. destruct (Ha h Hx) as [[w H]|[[w H]|H]];
      [left; exists w|right; left; exists w|right; right]; by apply Hin.
Qed.

(** A polled scan that comes to an await. *)
Lemma inv_reach now e s h a0 a1 u ab ts :
  session_inv now s → tasks s = ScanPolled h a0 u ab :: ts →
  session_inv now (set_tasks (const (reach e h a1 u ab ++ ts)) s).
Proof.
  intros Hi Hts. unfold reach. destruct (e_ready e); [|destruct ab]; simpl.
  - by eapply (inv_rescan _ _ (ScanPolled h a0 u ab)); try done; destruct ab.
  - eapply inv_drop; [done..|]. intros h' _. by eapply armed_drop.
  - by eapply inv_rescan.
Qed.

Lemma inv_stretch e s h a u ab ts :
  session_inv (e_instant e) s → tasks s = ScanPolled h a u ab :: ts →
  session_inv (e_instant e)
    (let '(s', rest) := scan_stretch h a u ab e (set_tasks (const ts) s) in set_tasks (λ l, rest ++ l) s').
Proof.
  intros Hi Hts. pose proof (λ a1, inv_reach _ e s h a a1 u ab ts Hi Hts) as Hr.
  destruct a; simpl; [apply Hr|destruct (e_db e); simpl; [|apply Hr]|].
  - exact (inv_outputs _ _ _ (stored s) (Hr (if e_due e then AtState else AtTick))).
  - exact (inv_outputs _ _ _ (stored s) (Hr AtTick)).
Qed.

Lemma inv_section e s t ts :
  session_inv (e_instant e) s → tasks s = t :: ts →
  session_inv (e_instant e)
    (let '(s', rest) := section t e (set_tasks (const ts) s) in set_tasks (λ l, rest ++ l) s').
Proof.
  intros Hi Hts.
  assert (session_inv (e_instant e) (set_tasks (const (t :: ts)) s)) as Hid.
  { apply inv_perm; [done|by rewrite Hts]. }
  destruct t; simpl.
  - destruct (e_instant e <? _) eqn:E; bool_facts; simpl; [exact Hid|].
    apply (inv_replace _ s _ (TimerWoken started_at timeout_ms) ts Hi Hts); try done.
    + intros a w [= -> ->]. lia.
    + intros h _ [[w H]|[[w H]|H]]; rewrite Hts in H; apply elem_of_cons in H as [H|H].
      * right; left. exists timeout_ms. simplify_eq. by left.
      * left. exists w. by right.
      * done.
      * right; left. exists w. by right.
      * done.
      * right; right. by right.
  - unfold last_activity_after. simpl. destruct (_ <? _) eqn:E; bool_facts; simpl.
    + rewrite set_tasks_nil. eapply inv_drop; [done..|done|]. intros h _.
      eapply armed_drop; [done|done| |done]. intros a w [= -> ->]. lia.
    + apply (inv_replace _ s _ TimerClearing ts Hi Hts); try done.
      intros h _ _. right; right. by left.
  - apply inv_add; [|done..]. apply inv_clear. eapply handles_drop; [apply Hi|done|done].
  - rewrite set_tasks_nil. unfold emit_locked, emit.
    pose proof (inv_drop_inert _ _ _ _ Hi Hts eq_refl). destruct (e_app e); [|done].
    by apply (inv_outputs _ (set_tasks (const ts) s)).
  - destruct (e_ready e); simpl; [|exact Hid].
    exact (inv_rescan _ s _ (ScanPolled handle at_ unlocked_at_ms false) ts Hi Hts eq_refl eq_refl eq_refl (λ h Hh, Hh)).
  - by apply inv_stretch.
  - pose proof (inv_drop_inert _ _ _ _ Hi Hts eq_refl) as Hd. unfold scan_spawn.
    destruct (e_app e); simpl; [|by rewrite set_tasks_nil]. exact (inv_scan_spawn _ _ _ Hd).
  - rewrite set_tasks_nil. by apply inv_scan_install.
  - pose proof (inv_drop_inert _ _ _ _ Hi Hts eq_refl) as Hd.
    assert (session_inv (e_instant e) (heartbeat e (set_tasks (const ts) s))) by (by apply inv_heartbeat).
    destruct persist; [by apply inv_add|by rewrite set_tasks_nil].
  - rewrite set_tasks_nil. pose proof (inv_drop_inert _ _ _ _ Hi Hts eq_refl) as Hd.
    unfold Session.persist. destruct (e_app e && e_db e); [|done].
    by apply (inv_outputs _ (set_tasks (const ts) s)).
Qed.

Lemma inv_enter e c s :
  session_inv (e_instant e) s →
  session_inv (e_instant e)
    (let '(s', rest) := enter c e s in set_tasks (λ l, rest ++ l) s').
Proof.
  intros Hi. destruct c; simpl; rewrite ?set_tasks_nil.
  - apply inv_add; [by apply inv_set_key|done..].
  - apply inv_clear, Hi.
  - by apply inv_heartbeat.
  - by apply inv_inner.
  - apply inv_add; [by apply inv_inner|done..].
  - apply inv_add; [by apply inv_inner|done..].
  - unfold load_timeout_ms_from_conn. case_match; [by apply inv_inner|done].
Qed.

Lemma session_inv_act now s a :
  session_inv now s → now ≤ e_instant (act_env a) → session_inv (e_instant (act_env a)) (act s a).
Proof.
  intros Hi Ht. apply (inv_later _ (e_instant (act_env a))) in Hi; [|done].
  destruct a as [c e|i e]; simpl in *; [by apply inv_enter|].
  destruct (tasks s !! i) as [t|] eqn:Hl; [|done].
  pose proof (inv_perm _ s (t :: delete i (tasks s)) Hi
                (symmetry (delete_Permutation _ _ _ Hl))) as Hp.
  exact (inv_section e _ t (delete i (tasks s)) Hp eq_refl).
Qed.

Lemma session_inv_start t : session_inv t (Session_start t).
Proof.
  assert (∀ x, x ∉ ([] : list Task)) as Hno by (intros x; apply not_elem_of_nil).
  split; [split|..]; unfold scan_handle, armed; simpl; try done.
  - constructor.
  - intros h H. by apply elem_of_nil in H.
  - intros h [[u H]|[u H]]; [done|by apply Hno in H].
  - intros h a w H. by apply Hno in H.
  - intros h a H. by apply Hno in H.
  - intros h a H. by apply Hno in H.
  - intros h a w H. by apply Hno in H.
Qed.

(** The instants of an execution never go back. *)
Fixpoint steady (now : Z) (l : list Action) : Prop :=
  match l with
  | [] => True
  | a :: l' => now ≤ e_instant (act_env a) ∧ steady (e_instant (act_env a)) l'
  end.
Fixpoint last_instant (now : Z) (l : list Action) : Z :=
  match l with
  | [] => now
  | a :: l' => last_instant (e_instant (act_env a)) l'
  end.

Lemma session_inv_run now l s :
  session_inv now s → steady now l → session_inv (last_instant now l) (run l s).
Proof.
  revert now s. induction l as [|a l IH]; intros now s Hi Hl; [done|]. destruct Hl as [Ha Hl].
  apply IH; [|done]. by eapply session_inv_act.
Qed.

Lemma inv_reachable t0 l :
  steady t0 l → session_inv (last_instant t0 l) (run l (Session_start t0)).
Proof. intros Hl. apply session_inv_run; [apply session_inv_start|done]. Qed.

(** ** The properties *)

Definition sleeping_handle (t : Task) : option nat :=
  match t with TimerSleeping h _ _ => Some h | _ => None end.










(** C37. A timer that comes out of its sleep either finds activity after its start
    and ends without touching the session, or at least its whole timeout has
    passed since the last activity the session has seen. The check and the lock
    are two sections, though: activity between them, even a fresh unlock, does
    not stop the lock, so a session can be locked at the very instant of a
    heartbeat. *)
Theorem idle_lock_timing :
  (∀ t0 l i a w e,
     steady t0 l → last_instant t0 l ≤ e_instant e →
     let s := run l (Session_start t0) in
     tasks s !! i = Some (TimerWoken a w) →
     act s (Run i e) = set_tasks (delete i) s ∧ a < is_last_activity (inner s) ∨
     act s (Run i e) = set_tasks (λ ts, TimerClearing :: delete i ts) s ∧
       is_last_activity (inner s) + w * NS_PER_MS ≤ e_instant e) ∧
  (∃ l e, steady 0 l ∧
     let s := run l (Session_start 0) in
     is_unlocked (inner s) = true ∧ e_instant e = is_last_activity (inner s) ∧
     is_timeout_ms (inner s) = DEFAULT_IDLE_TIMEOUT_MS ∧
     is_unlocked (inner (act s (Run 0 e))) = false).
Proof.
  split.
  - intros t0 l i a w e Hl Ht s Hi. pose proof (inv_reachable t0 l Hl) as Hinv. fold s in Hinv.
    assert (TimerWoken a w ∈ tasks s) as Hin by (by eapply list_elem_of_lookup_2).
    pose proof (hi_woken _ _ (si_handles _ _ Hinv) _ _ Hin) as Hw.
    cbn [act]. rewrite Hi. unfold section, last_activity_after. simpl.
    destruct (a <? is_last_activity (inner s)) eqn:E; bool_facts; [left|right].
    + by rewrite set_tasks_nil.
    + split; [done|]. lia.
  - set (e t := mkEnv t 0 true true true true true true).
    exists [Enter (set_key []) (e 0); Run 1 (e 900000000000); Run 0 (e 900000000000);
            Enter session_heartbeat (e 900000000001)], (e 900000000001).
    split; [by vm_compute|]. vm_compute. split; [done|]. split; [done|]. split; [done|]. done.
Qed.

(** Where the tail of a timer task leads. *)
Definition locked_by (k : nat) (i : nat) (e : Env) (s : Session) : Prop :=
  let s' := run (Run i e :: replicate k (Run 0 e)) s in
  is_unlocked (inner s') = false ∧ SessionLocked ∈ outputs s'.

Lemma emitting_locks i e s :
  e_app e = true → is_key (inner s) = None → tasks s !! i = Some TimerEmitting → locked_by 0 i e s.
Proof.
  intros He Hk Hi. unfold locked_by, run. cbn [foldl replicate act]. rewrite Hi.
  unfold section, emit_locked, emit. rewrite He. simpl. split.
  - unfold is_unlocked. simpl. by rewrite Hk.
  - apply elem_of_app. right. by left.
Qed.

Lemma clearing_locks i e s :
  e_app e = true → tasks s !! i = Some TimerClearing → locked_by 1 i e s.
Proof.
  intros He Hi. unfold locked_by, run. cbn [replicate].
  change (foldl act s (Run i e :: [Run 0 e])) with (foldl act (act s (Run i e)) (Run 0 e :: replicate 0 (Run 0 e))).
  cbn [act]. rewrite Hi. cbn [section]. apply (emitting_locks 0); [done| |done].
  apply clear_locks.
Qed.

Lemma woken_locks i e s w :
  e_app e = true → tasks s !! i = Some (TimerWoken (is_last_activity (inner s)) w) → locked_by 2 i e s.
Proof.
  intros He Hi. unfold locked_by, run. cbn [replicate].
  change (foldl act s (Run i e :: [Run 0 e; Run 0 e])) with (foldl act (act s (Run i e)) (Run 0 e :: replicate 1 (Run 0 e))).
  cbn [act]. rewrite Hi. unfold section, last_activity_after. simpl.
  rewrite Z.ltb_irrefl. by apply (clearing_locks 0).
Qed.

Lemma sleeping_locks i e s h w :
  e_app e = true → is_last_activity (inner s) + w * NS_PER_MS ≤ e_instant e →
  tasks s !! i = Some (TimerSleeping h (is_last_activity (inner s)) w) → locked_by 3 i e s.
Proof.
  intros He Ht Hi. unfold locked_by, run. cbn [replicate].
  change (foldl act s (Run i e :: [Run 0 e; Run 0 e; Run 0 e])) with (foldl act (act s (Run i e)) (Run 0 e :: replicate 2 (Run 0 e))).
  cbn [act]. rewrite Hi. unfold section. rewrite (proj2 (Z.ltb_ge _ _)) by done.
  by apply (woken_locks 0 e _ w).
Qed.

(** A heartbeat of an unlocked session, with a runtime and auto-lock not
    disabled, arms a timer for the current timeout; and in every reachable state
    an armed timer, left to run once its time is over, locks the session and says
    so to the user interface, within four sections of one task. *)
Theorem idle_lock_happens t0 l :
  steady t0 l →
  let s := run l (Session_start t0) in
  (∀ e, is_unlocked (inner s) = true → e_runtime e = true → is_timeout_ms (inner s) ≠ 0 →
     let s' := act s (Enter session_heartbeat e) in
     ∃ h, is_timer (inner s') = Some h ∧
       TimerSleeping h (e_instant e) (is_timeout_ms (inner s)) ∈ tasks s') ∧
  (∀ h, is_timer (inner s) = Some h →
     ∃ i w k, (k ≤ 3)%nat ∧
       (∀ a w', TimerSleeping h a w' ∈ tasks s → tasks s !! i = Some (TimerSleeping h a w)) ∧
       ∀ e, e_app e = true → is_last_activity (inner s) + w * NS_PER_MS ≤ e_instant e →
         let s' := run (Run i e :: replicate k (Run 0 e)) s in
         is_unlocked (inner s') = false ∧ SessionLocked ∈ outputs s').
Proof.
  intros Hl s. pose proof (inv_reachable t0 l Hl) as Hinv. fold s in Hinv. clearbody s. split.
  - intros e Hu Hr Ht. cbn [act enter]. rewrite set_tasks_nil. unfold heartbeat.
    apply bool_decide_eq_true in Hu as [k Hk]. rewrite Hk. unfold spawn_timer_locked. rewrite Hr.
    set (s1 := abort_timer _).
    assert (is_timeout_ms (inner s1) = is_timeout_ms (inner s) ∧
            is_last_activity (inner s1) = e_instant e) as [E1 E2].
    { unfold s1, abort_timer. simpl. by destruct (is_timer (inner s)). }
    simpl. rewrite E1, E2, (proj2 (Z.eqb_neq _ _)) by done. simpl. eexists. split; [done|].
    apply elem_of_app. right. by left.
  - intros h Hh. destruct (list_find (λ t, sleeping_handle t = Some h) (tasks s)) as [[i t]|] eqn:Hf.
    + apply list_find_Some in Hf as (Hi & Ht & _). destruct t as [h' a w| | | | | | | | |]; simplify_eq/=.
      pose proof (si_started _ _ Hinv h a w (list_elem_of_lookup_2 _ _ _ Hi)) as ->.
      exists i, w, 3%nat. split; [lia|]. split.
      * intros a' w' H. by rewrite (si_started _ _ Hinv h a' w' H).
      * intros e He Ht. by eapply sleeping_locks.
    + assert (∀ a w, TimerSleeping h a w ∉ tasks s) as Hno.
      { intros a w H. apply list_find_None in Hf. rewrite Forall_forall in Hf. by apply (Hf _ H). }
      destruct (si_armed _ _ Hinv h Hh) as [[w H]|[[w H]|H]].
      * by destruct (Hno _ _ H).
      * apply list_elem_of_lookup in H as [i Hi]. exists i, w, 2%nat. split; [lia|]. split.
        { intros a w' H. by destruct (Hno a w'). }
        intros e He Ht. by eapply woken_locks.
      * apply list_elem_of_lookup in H as [i Hi]. exists i, 0, 1%nat. split; [lia|]. split.
        { intros a w' H. by destruct (Hno a w'). }
        intros e He _. by apply clearing_locks.
Qed.

Lemma heartbeat_timeout e s : is_timeout_ms (inner (heartbeat e s)) = is_timeout_ms (inner s).
Proof.
  unfold heartbeat, spawn_timer_locked, abort_timer. destruct (is_key (inner s)); [|done]. simpl.
  destruct (is_timer (inner s)); simpl; destruct (e_runtime e); simpl; try done; by case_match.
Qed.

(** What [set_session_timeout] stores is what later sessions read: it ends
    with the timeout of the running session and the stored one at the given number
    of minutes, [get_session_timeout] reports it, and a later session that loads
    it runs with it. The product is a [u64] that is not checked: from 307445734561826
    minutes on it wraps, and that very number asks for a timeout of 8.384 seconds. *)
Theorem timeout_roundtrip :
  (∀ s e m i j, 0 ≤ m → m * 60000 ≤ U64_MAX → e_app e = true → e_db e = true →
     let s' := run [Enter (set_session_timeout m) e; Run 0 e; Run 0 e] s in
     is_timeout_ms (inner s') = m * 60000 ∧ get_session_timeout e s' = m ∧
     let s2 := act (mkSession i j [] [] (stored s')) (Enter load_timeout e) in
     is_timeout_ms (inner s2) = m * 60000) ∧
  (∀ s e, is_timeout_ms (inner (act s (Enter (set_session_timeout 307445734561826) e))) = 8384).
Proof.
  split.
  - intros s e m i j Hm Hmax He Hd s'.
    assert (wrapu64 (m * 60000) = m * 60000) as Hw.
    { unfold wrapu64, U64_MAX in *. apply Z.mod_small. lia. }
    assert (is_timeout_ms (inner s') = m * 60000 ∧ stored s' = Some (pretty (m * 60000))) as [H1 H2].
    { unfold s', run. cbn [foldl act enter]. rewrite Hw. cbn [tasks set_tasks app lookup list_lookup].
      cbn [section act tasks set_tasks app lookup list_lookup]. unfold persist. rewrite He, Hd. simpl.
      by rewrite heartbeat_timeout. }
    assert (parse_unsigned U64_MAX (pretty (m * 60000)) = Some (m * 60000)) as Hp
      by (by apply parse_unsigned_pretty; lia).
    clearbody s'. split; [done|]. split.
    + unfold get_session_timeout. rewrite He, Hd, H2. simpl. rewrite Hp. simpl. by rewrite Z.div_mul.
    + cbn [act enter]. unfold load_timeout_ms_from_conn. cbn [stored]. rewrite Hd, H2.
      cbn [mbind option_bind]. rewrite Hp. simpl.
      destruct (m * 60000 =? 0) eqn:E; bool_facts; [lia|]. unfold DEFAULT_IDLE_TIMEOUT_MS. lia.
  - intros s e. reflexivity.
Qed.

(** ** Witnesses: one unlock, fifteen idle minutes, a lock *)

Definition toy_env (t : Z) : Env := mkEnv t 1000 true true true true true true.
Definition toy_unlock : list Action :=
  [Enter (set_key []) (toy_env 0); Run 0 (toy_env 1); Run 0 (toy_env 2)].
Definition toy_idle : list Action :=
  toy_unlock ++ [Run 0 (toy_env 900000000000)].



Lemma idle_lock_timing_witness :
  let s := run toy_idle (Session_start 0) in
  tasks s !! 0%nat = Some (TimerWoken 0 900000) ∧
  (act s (Run 0 (toy_env 900000000000)) = set_tasks (delete 0%nat) s ∧
     0 < is_last_activity (inner s) ∨
   act s (Run 0 (toy_env 900000000000)) = set_tasks (λ ts, TimerClearing :: delete 0%nat ts) s ∧
     is_last_activity (inner s) + 900000 * NS_PER_MS ≤ 900000000000).
Proof.
  split; [by vm_compute|].
  refine (proj1 idle_lock_timing 0 toy_idle 0%nat 0 900000 (toy_env 900000000000) _ _ _);
    by vm_compute.
Defined.

Lemma idle_lock_happens_witness :
  let s := run toy_unlock (Session_start 0) in
  is_timer (inner s) = Some 0%nat ∧
  ∃ i w k, (k ≤ 3)%nat ∧
    (∀ a w', TimerSleeping 0 a w' ∈ tasks s → tasks s !! i = Some (TimerSleeping 0 a w)) ∧
    ∀ e, e_app e = true → is_last_activity (inner s) + w * NS_PER_MS ≤ e_instant e →
      let s' := run (Run i e :: replicate k (Run 0 e)) s in
      is_unlocked (inner s') = false ∧ SessionLocked ∈ outputs s'.
Proof.
  assert (is_timer (inner (run toy_unlock (Session_start 0))) = Some 0%nat) as Ht by (by vm_compute).
  split; [exact Ht|]. exact (proj2 (idle_lock_happens 0 toy_unlock ltac:(by vm_compute)) 0%nat Ht).
Defined.

Lemma timeout_roundtrip_witness :
  let s' := run [Enter (set_session_timeout 30) (toy_env 0); Run 0 (toy_env 0); Run 0 (toy_env 0)]
              (Session_start 0) in
  is_timeout_ms (inner s') = 1800000 ∧ get_session_timeout (toy_env 0) s' = 30.
Proof.
  pose proof (proj1 timeout_roundtrip (Session_start 0) (toy_env 0) 30 (SessionManager_new 0) 0%nat
    ltac:(done) ltac:(by vm_compute) eq_refl eq_refl) as (H1 & H2 & _).
  split; [exact H1|exact H2].
Defined.
