(* ===== verification/Schema.v ===== *)
(** * The state shared by the components: SQLite tables and process globals

    [Db] holds the tables as maps from their primary keys, columns with the type
    SQLite stores (kinds, places and statuses are raw columns that only decoding
    turns into enums), and the globals [CURRENT_ACCOUNT], [NOSTR_CLIENT]'s signer
    and [STATE]'s chats. [Effect] lists the outputs. The third-party services are
    classes: bech32 and event ids, rusqlite's error texts, hex. *)

From S2P Require Export Prelude World.
From S2P Require Import Json Chat.

(** ** Rows *)

(** [squad_events], keyed by [event_id]. *)
Record EventSqlRow : Type := mkEventSqlRow {
  e_parent_id : string;
  e_mls_group_id : string;
  e_series_id : option string;
  e_nip52_kind : Z;
  e_title : string;
  e_summary : string;
  e_start_unix : option Z;
  e_end_unix : option Z;
  e_start_date : option string;
  e_end_date : option string;
  e_start_tzid : string;
  e_place_kind : string;
  e_location : string;
  e_channel_id : option string;
  e_status : string;
  e_author_npub : string;
  e_created_at_ms : Z;
  e_updated_at_ms : Z;
  e_updated_by_npub : string;
  e_content_hash : string;
}.

(** [squad_event_rsvps], keyed by [(event_id, member_npub)]. *)
Record RsvpRow : Type := mkRsvpRow {
  rs_status : string; rs_updated_at_ms : Z; rs_rumor_id : string;
}.

(** [squad_event_pending_ops] and [squad_doc_pending_ops], keyed by [rumor_id];
    the doc table has no [op] column. *)
Record PendingRow : Type := mkPendingRow {
  p_record_id : string;
  p_parent_id : string;
  p_mls_group_id : string;
  p_author_npub : string;
  p_op : string;
  p_payload_json : string;
  p_updated_at_ms : Z;
}.

(** [squad_content_policy], keyed by [parent_id]. *)
Record SquadContentPolicy : Type := mkPolicy {
  restrict_event_create : bool;
  restrict_event_create_updated_at_ms : Z;
  restrict_event_create_by_npub : option string;
  restrict_doc_add : bool;
  restrict_doc_add_updated_at_ms : Z;
  restrict_doc_add_by_npub : option string;
}.

(** [squad_docs], keyed by [doc_id]. *)
Record DocSqlRow : Type := mkDocSqlRow {
  d_parent_id : string;
  d_mls_group_id : string;
  d_url : string;
  d_title : string;
  d_provider : string;
  d_channel_id : option string;
  d_note : option string;
  d_author_npub : string;
  d_add_rumor_id : string;
  d_created_at_ms : Z;
  d_updated_at_ms : Z;
  d_updated_by_npub : string;
  d_hidden : bool;
}.

(** [mls_groups]; [pending_welcomes] is JSON text. *)
Record MlsGroupSqlRow : Type := mkGroupRow {
  gs_group_id : string;
  gs_engine_group_id : string;
  gs_creator_pubkey : string;
  gs_name : string;
  gs_avatar_ref : option string;
  gs_created_at : Z;
  gs_updated_at : Z;
  gs_evicted : bool;
  gs_pending_welcomes : string;
}.

Record MlsGroupMetadata : Type := mkGroup {
  g_group_id : string;
  g_engine_group_id : string;
  g_creator_pubkey : string;
  g_name : string;
  g_avatar_ref : option string;
  g_created_at : Z;
  g_updated_at : Z;
  g_evicted : bool;
  g_pending_welcomes : list string;
}.

(** [chats], keyed by [chat_identifier]; participants and metadata are JSON text. *)
Record ChatSqlRow : Type := mkChatRow {
  ct_chat_type : Z;
  ct_participants : string;
  ct_last_read : string;
  ct_created_at : Z;
  ct_metadata : string;
  ct_notification_level : string;
}.

(** [squads], keyed by [id]; the lists are JSON text. *)
Record SquadSqlRow : Type := mkSquadRow {
  sq_name : string;
  sq_icon_url : option string;
  sq_kind : string;
  sq_visibility : string;
  sq_commons_tags : option string;
  sq_paired_squads : option string;
  sq_channels : string;
  sq_created_at_ms : Z;
  sq_updated_at_ms : Z;
}.

(** [squad_member_evm] and [squad_member_evm_account], keyed by
    [(parent_id, member_npub)]; [join_inbox_meta] and [join_inbox_secret], keyed by
    [parent_id]. *)
Record MemberEvmRow : Type := mkMemberEvm {
  me_evm_address : string; me_updated_at_ms : Z; me_issued_at : Z; me_bind_signature : string;
}.
Record MemberEvmAccountRow : Type := mkMemberEvmAccount {
  ma_evm_account_id : string; ma_updated_at_ms : Z;
}.
Record JoinInboxMetaRow : Type := mkJoinMeta {
  jm_inbox_npub : string; jm_holders_json : string; jm_key_epoch : Z; jm_updated_at : Z;
}.
Record JoinInboxSecretRow : Type := mkJoinSecret {
  js_key_epoch : Z; js_inbox_npub : string; js_encrypted_nsec : string; js_updated_at : Z;
}.

(** [catch_up_entries], keyed by the unique [source_event_id]. *)
Record CatchUpRow : Type := mkCatchUpRow {
  cu_id : string;
  cu_kind : string;
  cu_chat_id : string;
  cu_created_at : Z;
  cu_resolved_at : option Z;
}.

(** [squad_event_reminder_prefs], keyed by [event_id], and
    [squad_event_reminders], keyed by [(event_id, fire_at_ms)]. *)
Record PrefsRow : Type := mkPrefsRow { pr_lead_minutes : Z; pr_muted : Z }.
Record FireRow : Type := mkFireRow { fi_start_at_ms : Z; fi_state : string }.

(** [squad_infra] and [evm_accounts], keyed by [id]; [squad_gov_replica], keyed by
    [(parent_id, stack, round, kind)]; the two fee ledgers, keyed by [id]. *)
Record InfraSqlRow : Type := mkInfraRow {
  in_parent_id : string;
  in_infra_type : string;
  in_chain : string;
  in_canonical_ref : string;
  in_pacto_gov_revision : option string;
  in_provider_payload : option string;
  in_created_at_ms : Z;
  in_updated_at_ms : Z;
}.
Record EvmAccountRow : Type := mkEvmAccount { ea_address : string; ea_purpose : string }.
Record GovReplicaSqlRow : Type := mkGovReplica {
  gr_block_number : Z; gr_tx_hash : string; gr_snapshot_json : string; gr_updated_at_ms : Z;
}.
Record FeeSqlRow : Type := mkFeeRow {
  fe_lane : string;
  fe_parent_id : option string;
  fe_chain : string;
  fe_chain_id : Z;
  fe_actor_npub : string;
  fe_actor_evm : string;
  fe_amount_wei : string;
  fe_selector : string;
  fe_action : string;
  fe_target : string;
  fe_user_op_hash : string;
  fe_tx_hash : string;
  fe_created_at_ms : Z;
}.

(** [dashboard_polls], keyed by [poll_id], and [dashboard_poll_votes], keyed by
    [(poll_id, voter_npub)]; the options are JSON text. *)
Record PollSqlRow : Type := mkPollRow {
  po_parent_id : string;
  po_announcements_group_id : string;
  po_title : string;
  po_description : string;
  po_options_json : string;
  po_created_at_ms : Z;
  po_created_by_npub : string;
  po_create_event_id : string;
  po_content_hash : string;
}.
Record VoteSqlRow : Type := mkVoteRow {
  vo_option_id : string; vo_vote_event_id : string; vo_voted_at_ms : Z;
}.

(** [parent_treasury_safe], [squad_contract_allowlist] and [squad_tracked_tokens], keyed
    by [id]; [sticker_packs], keyed by [(squad_id, pack_id)]. *)
Record TreasurySqlRow : Type := mkTreasury {
  ts_parent_id : string; ts_safe_address : string; ts_chain : string; ts_label : string;
  ts_created_at_ms : Z;
}.
Record AllowSqlRow : Type := mkAllow {
  al_parent_id : string;
  al_chain : string;
  al_contract_address : string;
  al_label : string;
  al_added_by_npub : string;
  al_abi_ref : option string;
  al_notes : option string;
  al_created_at_ms : Z;
  al_updated_at_ms : Z;
}.
Record TokenSqlRow : Type := mkToken {
  tk_parent_id : string;
  tk_chain : string;
  tk_token_address : string;
  tk_symbol : string;
  tk_decimals : Z;
  tk_added_by_npub : string;
  tk_created_at_ms : Z;
  tk_updated_at_ms : Z;
}.
Record StickerSqlRow : Type := mkSticker {
  sk_name : string; sk_entries : string; sk_updated_at : Z; sk_updated_by : string;
  sk_deleted : bool;
}.

(** [events]; tags are JSON text, and the content of messages, captions and edits is
    encrypted. *)
Record StoredEventRow : Type := mkEventRow {
  er_id : string;
  er_kind : Z;
  er_chat_id : Z;
  er_user_id : option Z;
  er_content : string;
  er_tags : string;
  er_reference_id : option string;
  er_created_at : Z;
  er_received_at : Z;
  er_mine : bool;
  er_pending : bool;
  er_failed : bool;
  er_wrapper_event_id : option string;
  er_npub : option string;
  er_virtual_bucket : option string;
}.

#[export] Instance byte_eq_dec : EqDecision Byte.byte := Byte.byte_eq_dec.

(** A group of the MDK engine: its id bytes and the public keys of its admins and members. *)
Record EngineGroup : Type := mkEngineGroup {
  eg_id : list Byte.byte; eg_admin_pubkeys : list string; eg_members : list string;
}.

(** ** The state *)

(** The tables about chains. *)
Record Evm : Type := mkEvm {
  ev_infra : gmap string InfraSqlRow;
  ev_accounts : gmap string EvmAccountRow;
  ev_gov_replica : gmap (string * string * string * string) GovReplicaSqlRow;
  ev_squad_fees : gmap string FeeSqlRow;
  ev_global_fees : gmap string FeeSqlRow;
}.

(** The tables of the dashboard polls. *)
Record Polls : Type := mkPolls {
  pl_polls : gmap string PollSqlRow;
  pl_votes : gmap (string * string) VoteSqlRow;
}.

(** The tables that squad announcements fill, with the legacy [squad_safe], keyed by
    [squad_id]. *)
Record Shared : Type := mkShared {
  sh_treasury : gmap string TreasurySqlRow;
  sh_squad_safe : gmap string string;
  sh_allowlist : gmap string AllowSqlRow;
  sh_tokens : gmap string TokenSqlRow;
  sh_stickers : gmap (string * string) StickerSqlRow;
}.

(** The stored messages: [events] in rowid order, the [messages] of earlier versions (chat
    and attachments of each), the integer ids of [chats] and [profiles] and the last ones
    given out, [dm_deletion_cutoffs], [discarded_giftwraps], and the globals
    [CHAT_ID_CACHE] and [USER_ID_CACHE]. *)
Record MsgStore : Type := mkMsgs {
  mt_events : list StoredEventRow;
  mt_legacy : gmap string (Z * string);
  mt_chat_ids : gmap string Z;
  mt_chat_seq : Z;
  mt_profile_ids : gmap string Z;
  mt_profile_seq : Z;
  mt_cutoffs : gmap string Z;
  mt_discarded : gset string;
  st_chat_id_cache : gmap string Z;
  st_user_id_cache : gmap string Z;
}.

(** What never leaves the device: the catalog, Catch up, the reminders, the poll, chain and
    message tables, and the globals [LAST_UNREAD_COUNTS] and the blocked profiles of
    [STATE]. *)
Record Device : Type := mkDevice {
  dv_squads : gmap string SquadSqlRow;
  dv_member_evm : gmap (string * string) MemberEvmRow;
  dv_member_evm_account : gmap (string * string) MemberEvmAccountRow;
  dv_join_meta : gmap string JoinInboxMetaRow;
  dv_join_secret : gmap string JoinInboxSecretRow;
  dv_catch_up : gmap string CatchUpRow;
  dv_prefs : gmap string PrefsRow;
  dv_fires : gmap (string * Z) FireRow;
  st_last_unread : gmap string Z;
  st_blocked : gset string;
  dv_evm : Evm;
  dv_polls : Polls;
  dv_shared : Shared;
  dv_msgs : MsgStore;
}.

Record Db : Type := mkDb {
  db_events : gmap string EventSqlRow;
  db_rsvps : gmap (string * string) RsvpRow;
  db_pending : gmap string PendingRow;
  db_policies : gmap string SquadContentPolicy;
  db_docs : gmap string DocSqlRow;
  db_doc_pending : gmap string PendingRow;
  (** [mls_groups] in the order the query returns them. *)
  db_groups : list MlsGroupSqlRow;
  db_chats : gmap string ChatSqlRow;
  db_settings : gmap string string;
  db_device : Device;
  (** Process globals. *)
  st_account : option string;
  st_signer : string;
  st_chats : list Chat;
  st_engine : list EngineGroup;
}.

Definition set_events (f : gmap string EventSqlRow → gmap string EventSqlRow) (d : Db) : Db :=
  mkDb (f (db_events d)) (db_rsvps d) (db_pending d) (db_policies d) (db_docs d)
    (db_doc_pending d) (db_groups d) (db_chats d) (db_settings d) (db_device d) (st_account d)
    (st_signer d) (st_chats d) (st_engine d).
Definition set_rsvps (f : gmap (string * string) RsvpRow → gmap (string * string) RsvpRow)
    (d : Db) : Db :=
  mkDb (db_events d) (f (db_rsvps d)) (db_pending d) (db_policies d) (db_docs d)
    (db_doc_pending d) (db_groups d) (db_chats d) (db_settings d) (db_device d) (st_account d)
    (st_signer d) (st_chats d) (st_engine d).
Definition set_pending (f : gmap string PendingRow → gmap string PendingRow) (d : Db) : Db :=
  mkDb (db_events d) (db_rsvps d) (f (db_pending d)) (db_policies d) (db_docs d)
    (db_doc_pending d) (db_groups d) (db_chats d) (db_settings d) (db_device d) (st_account d)
    (st_signer d) (st_chats d) (st_engine d).
Definition set_policies
    (f : gmap string SquadContentPolicy → gmap string SquadContentPolicy) (d : Db) : Db :=
  mkDb (db_events d) (db_rsvps d) (db_pending d) (f (db_policies d)) (db_docs d)
    (db_doc_pending d) (db_groups d) (db_chats d) (db_settings d) (db_device d) (st_account d)
    (st_signer d) (st_chats d) (st_engine d).
Definition set_docs (f : gmap string DocSqlRow → gmap string DocSqlRow) (d : Db) : Db :=
  mkDb (db_events d) (db_rsvps d) (db_pending d) (db_policies d) (f (db_docs d))
    (db_doc_pending d) (db_groups d) (db_chats d) (db_settings d) (db_device d) (st_account d)
    (st_signer d) (st_chats d) (st_engine d).
Definition set_doc_pending (f : gmap string PendingRow → gmap string PendingRow) (d : Db) : Db :=
  mkDb (db_events d) (db_rsvps d) (db_pending d) (db_policies d) (db_docs d)
    (f (db_doc_pending d)) (db_groups d) (db_chats d) (db_settings d) (db_device d) (st_account d)
    (st_signer d) (st_chats d) (st_engine d).
Definition set_chats (f : list Chat → list Chat) (d : Db) : Db :=
  mkDb (db_events d) (db_rsvps d) (db_pending d) (db_policies d) (db_docs d)
    (db_doc_pending d) (db_groups d) (db_chats d) (db_settings d) (db_device d) (st_account d)
    (st_signer d) (f (st_chats d)) (st_engine d).

Definition put_squads (f : gmap string SquadSqlRow → gmap string SquadSqlRow) : Device → Device := λ v,
  mkDevice (f (dv_squads v)) (dv_member_evm v) (dv_member_evm_account v) (dv_join_meta v)
    (dv_join_secret v) (dv_catch_up v) (dv_prefs v) (dv_fires v) (st_last_unread v)
    (st_blocked v) (dv_evm v) (dv_polls v) (dv_shared v) (dv_msgs v).
Definition put_member_evm (f : gmap (string * string) MemberEvmRow → gmap (string * string) MemberEvmRow) : Device → Device := λ v,
  mkDevice (dv_squads v) (f (dv_member_evm v)) (dv_member_evm_account v) (dv_join_meta v)
    (dv_join_secret v) (dv_catch_up v) (dv_prefs v) (dv_fires v) (st_last_unread v)
    (st_blocked v) (dv_evm v) (dv_polls v) (dv_shared v) (dv_msgs v).
Definition put_member_evm_account (f : gmap (string * string) MemberEvmAccountRow → gmap (string * string) MemberEvmAccountRow) : Device → Device := λ v,
  mkDevice (dv_squads v) (dv_member_evm v) (f (dv_member_evm_account v)) (dv_join_meta v)
    (dv_join_secret v) (dv_catch_up v) (dv_prefs v) (dv_fires v) (st_last_unread v)
    (st_blocked v) (dv_evm v) (dv_polls v) (dv_shared v) (dv_msgs v).
Definition put_join_meta (f : gmap string JoinInboxMetaRow → gmap string JoinInboxMetaRow) : Device → Device := λ v,
  mkDevice (dv_squads v) (dv_member_evm v) (dv_member_evm_account v) (f (dv_join_meta v))
    (dv_join_secret v) (dv_catch_up v) (dv_prefs v) (dv_fires v) (st_last_unread v)
    (st_blocked v) (dv_evm v) (dv_polls v) (dv_shared v) (dv_msgs v).
Definition put_join_secret (f : gmap string JoinInboxSecretRow → gmap string JoinInboxSecretRow) : Device → Device := λ v,
  mkDevice (dv_squads v) (dv_member_evm v) (dv_member_evm_account v) (dv_join_meta v) (f
    (dv_join_secret v)) (dv_catch_up v) (dv_prefs v) (dv_fires v) (st_last_unread v)
    (st_blocked v) (dv_evm v) (dv_polls v) (dv_shared v) (dv_msgs v).
Definition put_catch_up (f : gmap string CatchUpRow → gmap string CatchUpRow) : Device → Device := λ v,
  mkDevice (dv_squads v) (dv_member_evm v) (dv_member_evm_account v) (dv_join_meta v)
    (dv_join_secret v) (f (dv_catch_up v)) (dv_prefs v) (dv_fires v) (st_last_unread v)
    (st_blocked v) (dv_evm v) (dv_polls v) (dv_shared v) (dv_msgs v).
Definition put_prefs (f : gmap string PrefsRow → gmap string PrefsRow) : Device → Device := λ v,
  mkDevice (dv_squads v) (dv_member_evm v) (dv_member_evm_account v) (dv_join_meta v)
    (dv_join_secret v) (dv_catch_up v) (f (dv_prefs v)) (dv_fires v) (st_last_unread v)
    (st_blocked v) (dv_evm v) (dv_polls v) (dv_shared v) (dv_msgs v).
Definition put_fires (f : gmap (string * Z) FireRow → gmap (string * Z) FireRow) : Device → Device := λ v,
  mkDevice (dv_squads v) (dv_member_evm v) (dv_member_evm_account v) (dv_join_meta v)
    (dv_join_secret v) (dv_catch_up v) (dv_prefs v) (f (dv_fires v)) (st_last_unread v)
    (st_blocked v) (dv_evm v) (dv_polls v) (dv_shared v) (dv_msgs v).
Definition put_last_unread (f : gmap string Z → gmap string Z) : Device → Device := λ v,
  mkDevice (dv_squads v) (dv_member_evm v) (dv_member_evm_account v) (dv_join_meta v)
    (dv_join_secret v) (dv_catch_up v) (dv_prefs v) (dv_fires v) (f (st_last_unread v))
    (st_blocked v) (dv_evm v) (dv_polls v) (dv_shared v) (dv_msgs v).

Definition put_evm (f : Evm → Evm) : Device → Device := λ v,
  mkDevice (dv_squads v) (dv_member_evm v) (dv_member_evm_account v) (dv_join_meta v)
    (dv_join_secret v) (dv_catch_up v) (dv_prefs v) (dv_fires v) (st_last_unread v)
    (st_blocked v) (f (dv_evm v)) (dv_polls v) (dv_shared v) (dv_msgs v).

Definition put_polls (f : Polls → Polls) : Device → Device := λ v,
  mkDevice (dv_squads v) (dv_member_evm v) (dv_member_evm_account v) (dv_join_meta v)
    (dv_join_secret v) (dv_catch_up v) (dv_prefs v) (dv_fires v) (st_last_unread v)
    (st_blocked v) (dv_evm v) (f (dv_polls v)) (dv_shared v) (dv_msgs v).

Definition put_shared (f : Shared → Shared) : Device → Device := λ v,
  mkDevice (dv_squads v) (dv_member_evm v) (dv_member_evm_account v) (dv_join_meta v)
    (dv_join_secret v) (dv_catch_up v) (dv_prefs v) (dv_fires v) (st_last_unread v)
    (st_blocked v) (dv_evm v) (dv_polls v) (f (dv_shared v)) (dv_msgs v).

Definition put_msgs (f : MsgStore → MsgStore) : Device → Device := λ v,
  mkDevice (dv_squads v) (dv_member_evm v) (dv_member_evm_account v) (dv_join_meta v)
    (dv_join_secret v) (dv_catch_up v) (dv_prefs v) (dv_fires v) (st_last_unread v)
    (st_blocked v) (dv_evm v) (dv_polls v) (dv_shared v) (f (dv_msgs v)).

Definition set_device (f : Device → Device) (d : Db) : Db :=
  mkDb (db_events d) (db_rsvps d) (db_pending d) (db_policies d) (db_docs d)
    (db_doc_pending d) (db_groups d) (db_chats d) (db_settings d) (f (db_device d))
    (st_account d) (st_signer d) (st_chats d) (st_engine d).
Definition set_msgs (f : MsgStore → MsgStore) : Db → Db := set_device (put_msgs f).
Definition set_event_rows (f : list StoredEventRow → list StoredEventRow) : Db → Db :=
  set_msgs (λ s, mkMsgs (f (mt_events s)) (mt_legacy s) (mt_chat_ids s) (mt_chat_seq s)
    (mt_profile_ids s) (mt_profile_seq s) (mt_cutoffs s) (mt_discarded s) (st_chat_id_cache s)
    (st_user_id_cache s)).
Definition set_legacy (f : gmap string (Z * string) → gmap string (Z * string)) : Db → Db :=
  set_msgs (λ s, mkMsgs (mt_events s) (f (mt_legacy s)) (mt_chat_ids s) (mt_chat_seq s)
    (mt_profile_ids s) (mt_profile_seq s) (mt_cutoffs s) (mt_discarded s) (st_chat_id_cache s)
    (st_user_id_cache s)).
Definition set_chat_ids (f : gmap string Z → gmap string Z) : Db → Db :=
  set_msgs (λ s, mkMsgs (mt_events s) (mt_legacy s) (f (mt_chat_ids s)) (mt_chat_seq s)
    (mt_profile_ids s) (mt_profile_seq s) (mt_cutoffs s) (mt_discarded s) (st_chat_id_cache s)
    (st_user_id_cache s)).
Definition set_cutoffs (f : gmap string Z → gmap string Z) : Db → Db :=
  set_msgs (λ s, mkMsgs (mt_events s) (mt_legacy s) (mt_chat_ids s) (mt_chat_seq s)
    (mt_profile_ids s) (mt_profile_seq s) (f (mt_cutoffs s)) (mt_discarded s) (st_chat_id_cache s)
    (st_user_id_cache s)).
Definition set_discarded (f : gset string → gset string) : Db → Db :=
  set_msgs (λ s, mkMsgs (mt_events s) (mt_legacy s) (mt_chat_ids s) (mt_chat_seq s)
    (mt_profile_ids s) (mt_profile_seq s) (mt_cutoffs s) (f (mt_discarded s)) (st_chat_id_cache s)
    (st_user_id_cache s)).
Definition set_id_caches (f g : gmap string Z → gmap string Z) : Db → Db :=
  set_msgs (λ s, mkMsgs (mt_events s) (mt_legacy s) (mt_chat_ids s) (mt_chat_seq s)
    (mt_profile_ids s) (mt_profile_seq s) (mt_cutoffs s) (mt_discarded s) (f (st_chat_id_cache s))
    (g (st_user_id_cache s))).
(** The next integer ids ([AUTOINCREMENT]), given to a row without one. *)
Definition assign_chat_id (identifier : string) : Db → Db :=
  set_msgs (λ s,
    match mt_chat_ids s !! identifier with
    | Some _ => s
    | None =>
        let id := mt_chat_seq s + 1 in
        mkMsgs (mt_events s) (mt_legacy s) (<[identifier := id]> (mt_chat_ids s)) id
          (mt_profile_ids s) (mt_profile_seq s) (mt_cutoffs s) (mt_discarded s)
          (st_chat_id_cache s) (st_user_id_cache s)
    end).
Definition assign_profile_id (npub : string) : Db → Db :=
  set_msgs (λ s,
    let id := mt_profile_seq s + 1 in
    mkMsgs (mt_events s) (mt_legacy s) (mt_chat_ids s) (mt_chat_seq s)
      (<[npub := id]> (mt_profile_ids s)) id (mt_cutoffs s) (mt_discarded s)
      (st_chat_id_cache s) (st_user_id_cache s)).

Definition set_gov_replica
    (f : gmap (string * string * string * string) GovReplicaSqlRow →
         gmap (string * string * string * string) GovReplicaSqlRow) : Db → Db :=
  set_device (put_evm (λ v,
    mkEvm (ev_infra v) (ev_accounts v) (f (ev_gov_replica v)) (ev_squad_fees v)
      (ev_global_fees v))).
Definition set_squad_fees (f : gmap string FeeSqlRow → gmap string FeeSqlRow) : Db → Db :=
  set_device (put_evm (λ v,
    mkEvm (ev_infra v) (ev_accounts v) (ev_gov_replica v) (f (ev_squad_fees v))
      (ev_global_fees v))).
Definition set_global_fees (f : gmap string FeeSqlRow → gmap string FeeSqlRow) : Db → Db :=
  set_device (put_evm (λ v,
    mkEvm (ev_infra v) (ev_accounts v) (ev_gov_replica v) (ev_squad_fees v)
      (f (ev_global_fees v)))).
Definition set_polls (f : gmap string PollSqlRow → gmap string PollSqlRow) : Db → Db :=
  set_device (put_polls (λ v, mkPolls (f (pl_polls v)) (pl_votes v))).
Definition set_votes
    (f : gmap (string * string) VoteSqlRow → gmap (string * string) VoteSqlRow) : Db → Db :=
  set_device (put_polls (λ v, mkPolls (pl_polls v) (f (pl_votes v)))).
Definition set_infra (f : gmap string InfraSqlRow → gmap string InfraSqlRow) : Db → Db :=
  set_device (put_evm (λ v,
    mkEvm (f (ev_infra v)) (ev_accounts v) (ev_gov_replica v) (ev_squad_fees v)
      (ev_global_fees v))).
Definition set_treasury (f : gmap string TreasurySqlRow → gmap string TreasurySqlRow) : Db → Db :=
  set_device (put_shared (λ v,
    mkShared (f (sh_treasury v)) (sh_squad_safe v) (sh_allowlist v) (sh_tokens v) (sh_stickers v))).
Definition set_allowlist (f : gmap string AllowSqlRow → gmap string AllowSqlRow) : Db → Db :=
  set_device (put_shared (λ v,
    mkShared (sh_treasury v) (sh_squad_safe v) (f (sh_allowlist v)) (sh_tokens v) (sh_stickers v))).
Definition set_tokens (f : gmap string TokenSqlRow → gmap string TokenSqlRow) : Db → Db :=
  set_device (put_shared (λ v,
    mkShared (sh_treasury v) (sh_squad_safe v) (sh_allowlist v) (f (sh_tokens v)) (sh_stickers v))).
Definition set_stickers
    (f : gmap (string * string) StickerSqlRow → gmap (string * string) StickerSqlRow) : Db → Db :=
  set_device (put_shared (λ v,
    mkShared (sh_treasury v) (sh_squad_safe v) (sh_allowlist v) (sh_tokens v) (f (sh_stickers v)))).
Definition set_member_evm
    (f : gmap (string * string) MemberEvmRow → gmap (string * string) MemberEvmRow) : Db → Db :=
  set_device (put_member_evm f).
Definition set_member_evm_account
    (f : gmap (string * string) MemberEvmAccountRow → gmap (string * string) MemberEvmAccountRow) : Db → Db :=
  set_device (put_member_evm_account f).
Definition set_join_meta (f : gmap string JoinInboxMetaRow → gmap string JoinInboxMetaRow) : Db → Db :=
  set_device (put_join_meta f).
Definition set_join_secret (f : gmap string JoinInboxSecretRow → gmap string JoinInboxSecretRow) : Db → Db :=
  set_device (put_join_secret f).
Definition set_chat_rows (f : gmap string ChatSqlRow → gmap string ChatSqlRow) (d : Db) : Db :=
  mkDb (db_events d) (db_rsvps d) (db_pending d) (db_policies d) (db_docs d)
    (db_doc_pending d) (db_groups d) (f (db_chats d)) (db_settings d) (db_device d)
    (st_account d) (st_signer d) (st_chats d) (st_engine d).

(** Databases are equal when all their tables are. *)
Lemma Db_ext d d' :
  db_events d = db_events d' → db_rsvps d = db_rsvps d' → db_pending d = db_pending d' →
  db_policies d = db_policies d' → db_docs d = db_docs d' →
  db_doc_pending d = db_doc_pending d' → db_groups d = db_groups d' →
  db_chats d = db_chats d' → db_settings d = db_settings d' → db_device d = db_device d' →
  st_account d = st_account d' → st_signer d = st_signer d' → st_chats d = st_chats d' →
  st_engine d = st_engine d' → d = d'.
Proof. destruct d, d'; simpl. by intros -> -> -> -> -> -> -> -> -> -> -> -> -> ->. Qed.

(** ** Rumors and outputs *)

(** An incoming rumor ([RumorEvent]): id in hex, tags as lists of strings. *)
Record RumorEvent : Type := mkRumorEvent {
  ru_id : string;
  ru_kind : Z;
  ru_content : string;
  ru_tags : list (list string);
  ru_created_at : Z;
  ru_pubkey : string;
}.

Inductive ConversationType : Type := CDirectMessage | CMlsGroup.

Record RumorContext : Type := mkRumorContext {
  cx_sender : string;
  cx_is_mine : bool;
  cx_conversation_id : string;
  cx_conversation_type : ConversationType;
}.

(** A row of the flat event store. *)
Record StoredEvent : Type := mkStoredEvent {
  se_id : string;
  se_kind : Z;
  se_chat_id : Z;
  se_user_id : option Z;
  se_content : string;
  se_tags : list (list string);
  se_reference_id : option string;
  se_created_at : Z;
  se_received_at : Z;
  se_mine : bool;
  se_pending : bool;
  se_failed : bool;
  se_wrapper_event_id : option string;
  se_npub : option string;
  se_virtual_bucket : option string;
}.

Inductive RumorProcessingResult : Type :=
| TextMessage (m : Message)
| FileAttachment (m : Message)
| ReactionTo (r : Reaction)
| TypingIndicator (profile_id : string) (until : Z)
| UnknownEvent (event : StoredEvent)
| Ignored
| DashboardPollCreate (m : Message)
| DashboardPollVoteIngested
| SquadRecordCard (m : Message)
| SquadRecordSilent
| Edit (message_id new_content : string) (edited_at : Z) (event : StoredEvent).

(** An outgoing rumor as handed to [EventBuilder]; [None] leaves the creation
    time to the builder. *)
Record OutRumor : Type := mkOutRumor {
  or_content : string;
  or_tags : list (list string);
  or_created_at : option Z;
  or_pubkey : string;
}.

Inductive Effect : Type :=
| Emit (event : string) (payload : json)
| EmitMessage (event group_id : string) (m : Message)
| SendMls (group_id : string) (r : OutRumor)
| SaveMessage (chat_id : string) (m : Message)
| LogInfo (line : string)
| ShowBanner (title body : string)
| SetBadge (count : option Z).

Notation Act := (M Db Effect).

Class Nostr : Type := {
  (** [PublicKey::to_bech32] *)
  to_bech32 : string → result string;
  (** [UnsignedEvent::id], in hex *)
  built_id : OutRumor → option string;
  (** [hex::decode] *)
  hex_decode : string → option (list Byte.byte);
}.

(** The texts of the errors rusqlite raises by itself, and whether the SQLite it is built
    with enforces foreign keys on a new connection. *)
Class Rusqlite : Type := {
  invalid_column_type : nat → string → string;
  constraint_failed : string → string;
  foreign_keys : bool;
  foreign_key_failed : string;
}.

(** The encryption at rest under the session's key ([crypto.rs]), from a nonce. *)
Class AtRest : Type := {
  internal_encrypt : Z → string → string;
  internal_decrypt : string → option string;
}.

(** [nostr_tags::find_custom(..)] and [Tag::content]. *)
Definition find_custom (tags : list (list string)) (name : string) : option (list string) :=
  find_first (λ t, bool_decide (head t = Some name)) tags.
Definition tag_content (t : list string) : option string := t !! 1%nat.
