(* ===== verification/Records.v ===== *)
(** * Shared helpers of the squad records ([squad_records.rs], [db/squad.rs])

    Who may act: membership from the participant list, administration from the
    MDK engine's group, both failing closed; and the parts every record command
    shares (connection, account, signer, local card). *)

From S2P Require Import Prelude World Json Chat Schema.

Definition SQUAD_CONTENT_POLICY_D_TAG : string := "pacto_squad_content_policy".
Definition SQUAD_EVENT_D_TAG : string := "pacto_squad_event".
Definition SQUAD_DOC_D_TAG : string := "pacto_squad_doc".

(** ** Accounts and connections *)

Definition get_current_account : Act string :=
  query_row id (λ d, ok_or (st_account d) "No account selected").

Definition get_db_connection : Act unit :=
  get_current_account ;! query id (λ _, tt).

Definition with_conn {A} (f : Act A) : Act A := get_db_connection ;! f.

Section signer.
Context `{Nostr}.

(** The public key and npub of the logged-in signer. *)
Definition signer_identity : Act (string * string) :=
  let! _ := query id (λ _, tt) in
  let! pk := query id st_signer in
  let! npub := of_result (to_bech32 pk) in
  mret (pk, npub).
End signer.

Definition KEY_DERIVATION_VERSION : string := "key_derivation_version".
Definition U32_MAX : Z := 4294967295.

(** [query_row(..).ok()]: a failing read is an absent setting. *)
Definition get_setting (key : string) : Act (option string) :=
  let! r := attempt (query id (λ d, db_settings d !! key)) in
  mret (default None (res_ok r)).

Definition get_key_derivation_version : Act Z :=
  let! v := get_setting KEY_DERIVATION_VERSION in
  of_result (ok_or (v ≫= parse_unsigned U32_MAX) "key_derivation_version not set").

Definition require_key_derivation_version_2 : Act unit :=
  let! version := get_key_derivation_version in
  if version =? 2 then mret tt
  else mthrow "Account security must be updated. Unlock the app to migrate.".

Definition require_key_derivation_version_2_on_handle : Act unit :=
  with_conn require_key_derivation_version_2.

(** ** Parent and membership checks *)

Definition side_effect_parent_matches_chat (chat_id payload_parent_id : string) : bool :=
  let chat := trim chat_id in
  let parent := trim payload_parent_id in
  negb (bool_decide (chat = "")) && negb (bool_decide (parent = "")) &&
  bool_decide (chat = parent).

Definition author_listed_in_participants (parts : list string) (author : string) : bool :=
  let author := trim author in
  if bool_decide (author = "") then false
  else existsb (λ p, bool_decide (trim p = author)) parts.

Section participants.
Context `{SerdeText}.

Definition de_strings (raw : string) : option (list string) :=
  j ← of_text raw;
  match j with
  | JArr l => mapM de_string l
  | _ => None
  end.

Definition chat_db_participants_contain_author (chat_id author : string) : Act bool :=
  let chat_id := trim chat_id in
  let author := trim author in
  if bool_decide (chat_id = "") || bool_decide (author = "") then mret false
  else
    let! participants_json := attempt (query id (λ d, ct_participants <$> db_chats d !! chat_id)) in
    match res_ok participants_json with
    | Some (Some raw) =>
        match de_strings raw with
        | Some parts => mret (author_listed_in_participants parts author)
        | None => mret false
        end
    | _ => mret false
    end.

(** Participants of a loaded chat, when there are any. *)
Definition loaded_participants (chats : list Chat) (chat_id : string) : option (list string) :=
  chat ← get_chat chats chat_id;
  match c_participants chat with
  | [] => None
  | parts => Some parts
  end.

Definition is_author_mls_member_for_chat (chat_id author_npub : string) : Act bool :=
  let chat_id := trim chat_id in
  let author := trim author_npub in
  if bool_decide (chat_id = "") || bool_decide (author = "") then mret false
  else
    (* [STATE.try_lock()] *)
    let! state := attempt (query id st_chats) in
    match chats ← res_ok state; loaded_participants chats chat_id with
    | Some parts => mret (author_listed_in_participants parts author)
    | None =>
        let! conn := attempt get_db_connection in
        if is_okb conn then chat_db_participants_contain_author chat_id author
        else mret false
    end.
End participants.

(** ** Roles *)

Record SquadGroupRole : Type := mkRole { is_member : bool; is_admin : bool }.

Definition role_default : SquadGroupRole := mkRole false false.

Record GroupIds : Type := mkIds { wire_id : string; engine_id : string }.

Definition role_from (is_member : bool) (admin_npubs : list string) (npub : string)
    : SquadGroupRole :=
  let npub := trim npub in
  mkRole is_member
    (is_member && negb (bool_decide (npub = "")) &&
     existsb (λ a, bool_decide (a = npub)) admin_npubs).

Definition admins_of_group (groups : list (list Byte.byte * list string))
    (engine_gid : list Byte.byte) : list string :=
  match find_first (λ g, bool_decide (g.1 = engine_gid)) groups with
  | Some (_, admins) => admins
  | None => []
  end.

Section groups.
Context `{SerdeText}.

(** Unreadable [pending_welcomes] count as none. *)
Definition group_from_sql (r : MlsGroupSqlRow) : MlsGroupMetadata :=
  mkGroup (gs_group_id r) (gs_engine_group_id r) (gs_creator_pubkey r) (gs_name r)
    (gs_avatar_ref r) (gs_created_at r `mod` 2 ^ 64) (gs_updated_at r `mod` 2 ^ 64)
    (gs_evicted r) (default [] (de_strings (gs_pending_welcomes r))).

Definition load_mls_groups : Act (list MlsGroupMetadata) :=
  get_db_connection ;!
  query (λ e, "Failed to prepare query: " +:+ e) (λ _, tt) ;!
  query (λ e, "Failed to query mls_groups: " +:+ e) (λ d, group_from_sql <$> db_groups d).

(** The row a group id alias names, and the ids it stands for. *)
Definition group_ids_of (groups : list MlsGroupMetadata) (id : string) : option GroupIds :=
  meta ← find_first (λ g, bool_decide (g_group_id g = id)
           || (negb (bool_decide (g_engine_group_id g = ""))
               && bool_decide (g_engine_group_id g = id))) groups;
  if g_evicted meta then None
  else Some (mkIds (g_group_id meta)
    (if bool_decide (g_engine_group_id meta = "") then g_group_id meta
     else g_engine_group_id meta)).

Definition resolve_group_ids (mls_group_id : string) : Act (option GroupIds) :=
  let id := trim mls_group_id in
  if bool_decide (id = "") then mret None
  else
    let! groups := attempt load_mls_groups in
    mret (groups ← res_ok groups; group_ids_of groups id).
End groups.

Section roles.
Context `{SerdeText} `{Nostr}.

(** The admin npubs of every engine group; keys without a bech32 form drop out. *)
Definition engine_view (gs : list EngineGroup) : list (list Byte.byte * list string) :=
  (λ g, (eg_id g, omap (λ pk, res_ok (to_bech32 pk)) (eg_admin_pubkeys g))) <$> gs.

Definition engine_admin_npubs (engine_id_hex : string) : Act (list string) :=
  match hex_decode engine_id_hex with
  | None => mret []
  | Some engine_gid =>
      (* [MlsService::new_persistent], [engine()], [get_groups()] *)
      let! groups := attempt (query id (λ _, tt) ;! query id (λ _, tt) ;! query id st_engine) in
      match groups with
      | Ok gs => mret (admins_of_group (engine_view gs) engine_gid)
      | Err _ => mret []
      end
  end.

Definition group_role (mls_group_id npub : string) : Act SquadGroupRole :=
  let! ids := resolve_group_ids mls_group_id in
  match ids with
  | None => mret role_default
  | Some ids =>
      let! is_member := is_author_mls_member_for_chat (wire_id ids) npub in
      if negb is_member then mret role_default
      else
        let! admins := engine_admin_npubs (engine_id ids) in
        mret (role_from is_member admins npub)
  end.

Definition group_admin_npubs (mls_group_id : string) : Act (list string) :=
  let! ids := resolve_group_ids mls_group_id in
  match ids with
  | Some ids => engine_admin_npubs (engine_id ids)
  | None => mret []
  end.
End roles.

(** ** Cards *)

Definition U64_MAX : Z := 18446744073709551615.

(** [extract_millisecond_timestamp] of [rumor.rs], in wrapping [u64] arithmetic. *)
Definition extract_millisecond_timestamp (rumor : RumorEvent) : Z :=
  let ms :=
    match find_custom (ru_tags rumor) "ms" with
    | Some ms_tag =>
        match tag_content ms_tag ≫= parse_unsigned U64_MAX with
        | Some ms_value => if ms_value <=? 999 then ms_value else 0
        | None => 0
        end
    | None => 0
    end in
  (ru_created_at rumor * 1000 + ms) `mod` 2 ^ 64.

Definition APPLICATION_SPECIFIC : Z := 30078.

Definition card_message (id content : string) (at_ms : Z) (mine : bool) (npub : string) : Message :=
  mkMessage id content "" None None None None [] [] at_ms false false mine (Some npub)
    None false None (Some APPLICATION_SPECIFIC) (Some "announcements").

Definition store_local_card (mls_group_id : string) (msg : Message) : Act unit :=
  let! chat := modify (λ d, (get_chat (st_chats d) mls_group_id, d)) in
  let! created_ms := match chat with None => now | Some _ => mret 0 end in
  let! was_added := modify (λ d,
    let '(added, chats) :=
      add_message_to_chat (st_chats d) mls_group_id msg (created_ms / 1000) in
    (added, set_chats (λ _, chats) d)) in
  if (was_added : bool) then
    output (SaveMessage mls_group_id msg) ;!
    output (EmitMessage "mls_message_new" mls_group_id msg)
  else mret tt.

(** * Facts about roles: readers that fail closed *)

(** ** Every role lookup is a reader *)

Lemma quiet_get_current_account : quiet get_current_account.
Proof. unfold get_current_account. quiet_tac. Qed.
#[export] Hint Resolve quiet_get_current_account : quiet.

Lemma quiet_get_db_connection : quiet get_db_connection.
Proof. unfold get_db_connection. quiet_tac. Qed.
#[export] Hint Resolve quiet_get_db_connection : quiet.

Lemma quiet_with_conn {A} (f : Act A) : quiet f → quiet (with_conn f).
Proof. intros Hf. unfold with_conn. quiet_tac. Qed.
#[export] Hint Resolve quiet_with_conn : quiet.

Lemma quiet_signer_identity `{Nostr} : quiet signer_identity.
Proof. unfold signer_identity. quiet_tac. Qed.

Lemma quiet_require_kdf : quiet require_key_derivation_version_2_on_handle.
Proof.
  unfold require_key_derivation_version_2_on_handle, require_key_derivation_version_2,
    get_key_derivation_version, get_setting. quiet_tac.
Qed.

Lemma quiet_load_mls_groups `{SerdeText} : quiet load_mls_groups.
Proof. unfold load_mls_groups. quiet_tac. Qed.
#[export] Hint Resolve quiet_signer_identity quiet_require_kdf quiet_load_mls_groups : quiet.

Lemma quiet_resolve_group_ids `{SerdeText} id : quiet (resolve_group_ids id).
Proof. unfold resolve_group_ids. quiet_tac. Qed.

Lemma quiet_engine_admin_npubs `{Nostr} id : quiet (engine_admin_npubs id).
Proof. unfold engine_admin_npubs. quiet_tac. Qed.

Lemma quiet_chat_participants `{SerdeText} chat author :
  quiet (chat_db_participants_contain_author chat author).
Proof. unfold chat_db_participants_contain_author. quiet_tac. Qed.
#[export] Hint Resolve quiet_resolve_group_ids quiet_engine_admin_npubs
  quiet_chat_participants : quiet.

Lemma quiet_is_author_mls_member `{SerdeText} chat author :
  quiet (is_author_mls_member_for_chat chat author).
Proof. unfold is_author_mls_member_for_chat. quiet_tac. Qed.
#[export] Hint Resolve quiet_is_author_mls_member : quiet.

Lemma quiet_group_role `{SerdeText} `{Nostr} group npub : quiet (group_role group npub).
Proof. unfold group_role. quiet_tac. Qed.

Lemma quiet_group_admin_npubs `{SerdeText} `{Nostr} group : quiet (group_admin_npubs group).
Proof. unfold group_admin_npubs. quiet_tac. Qed.
#[export] Hint Resolve quiet_group_role quiet_group_admin_npubs : quiet.

(** ** The parent check *)

Lemma parent_matches_spec chat parent :
  side_effect_parent_matches_chat chat parent = true ↔
  blank chat = false ∧ trim chat = trim parent.
Proof.
  unfold side_effect_parent_matches_chat, blank.
  rewrite !andb_true_iff, !negb_true_iff, !bool_decide_eq_false, bool_decide_eq_true.
  split; [tauto|]. intros [Hb He]. by rewrite <- He.
Qed.

Lemma listed_spec parts author :
  author_listed_in_participants parts author = true ↔
  blank author = false ∧ ∃ p, p ∈ parts ∧ trim p = trim author.
Proof.
  unfold author_listed_in_participants, blank.
  destruct (bool_decide (trim author = "")); [split; [done|by intros [? _]]|].
  rewrite existsb_exists. split.
  - intros (p & Hp%list_elem_of_In & ?); bool_facts. eauto.
  - intros (_ & p & Hp%list_elem_of_In & Heq). exists p.
    by rewrite bool_decide_eq_true_2.
Qed.

(** ** Membership fails closed *)

Section closed.
Context `{SerdeText}.

(** The participant lists [author] may be found in. *)
Definition listed_for (d : Db) (chat author : string) : Prop :=
  ∃ parts, author_listed_in_participants parts author = true ∧
    (loaded_participants (st_chats d) chat = Some parts ∨
     ∃ raw, ct_participants <$> db_chats d !! chat = Some raw ∧ de_strings raw = Some parts).

Lemma trim_listed parts author :
  author_listed_in_participants parts (trim author) = author_listed_in_participants parts author.
Proof. unfold author_listed_in_participants. by rewrite trim_idemp. Qed.

Lemma chat_db_closed chat author o :
  dwp (chat_db_participants_contain_author chat author) o
    (λ r _, r = Ok true → listed_for (o_db o) (trim chat) author).
Proof.
  unfold chat_db_participants_contain_author.
  destruct (_ || _) eqn:?; [by apply dwp_ret|].
  dstep. dstep. dstep; [done|].
  destruct (ct_participants <$> db_chats (o_db o) !! trim chat) as [raw|] eqn:Hraw; [|by apply dwp_ret].
  destruct (de_strings raw) as [parts|] eqn:Hp; [|by apply dwp_ret].
  apply dwp_ret. intros [= Hl]. rewrite trim_listed in Hl.
  exists parts. split; [done|]. right. eauto.
Qed.

Lemma member_closed chat author o :
  dwp (is_author_mls_member_for_chat chat author) o
    (λ r _, r = Ok true → listed_for (o_db o) (trim chat) author).
Proof.
  unfold is_author_mls_member_for_chat.
  destruct (_ || _) eqn:?; [by apply dwp_ret|].
  assert (dwp (let! conn := attempt get_db_connection in
    if is_okb conn then chat_db_participants_contain_author (trim chat) (trim author)
    else mret false) o (λ r _, r = Ok true → listed_for (o_db o) (trim chat) author)) as Hdb.
  { apply dwp_bind. apply dwp_quiet_any; [by auto with quiet|].
    intros [[]|e]; [|by apply dwp_ret|done]. simpl.
    eapply dwp_mono; [apply chat_db_closed|].
    intros r o' Hr Hok. destruct (Hr Hok) as (parts & Hl & Hp).
    exists parts. rewrite trim_listed in Hl. by rewrite trim_idemp in Hp. }
  dstep. dstep. dstep; [exact Hdb|].
  destruct (loaded_participants _ _) as [parts|] eqn:Hp; [|exact Hdb].
  apply dwp_ret. intros [= Hl]. rewrite trim_listed in Hl. exists parts. auto.
Qed.
End closed.

(** ** Administration *)

Section admin.
Context `{SerdeText} `{Nostr}.

(** [npub] is an admin of the engine group of that very id, the first of the engine's. *)
Definition engine_admin (d : Db) (engine_id npub : string) : Prop :=
  ∃ gid g pk gs gs', hex_decode engine_id = Some gid ∧ st_engine d = gs ++ g :: gs' ∧ eg_id g = gid ∧
    Forall (λ g', eg_id g' ≠ gid) gs ∧ pk ∈ eg_admin_pubkeys g ∧ to_bech32 pk = Ok npub.

Lemma admins_of_group_sound gs gid npub :
  npub ∈ admins_of_group (engine_view gs) gid →
  ∃ g pk gs1 gs2, gs = gs1 ++ g :: gs2 ∧ eg_id g = gid ∧ Forall (λ g', eg_id g' ≠ gid) gs1 ∧
    pk ∈ eg_admin_pubkeys g ∧ to_bech32 pk = Ok npub.
Proof.
  unfold admins_of_group. destruct (find_first _ _) as [[gid' admins]|] eqn:Hf;
    [|by intros ?%not_elem_of_nil].
  apply find_first_split in Hf as (Hid & v1 & v2 & Hv & Hn). bool_facts. simpl in *; subst.
  unfold engine_view in Hv. apply fmap_app_inv in Hv as (gs1 & gs' & -> & Hv & ->).
  destruct gs' as [|g gs2]; [done|]. injection Hv as Hg Hadm _. symmetry in Hg, Hadm.
  intros Hin. rewrite <- Hadm in Hin. apply list_elem_of_omap in Hin as (pk & Hpk & Hb).
  exists g, pk, gs1, gs2. split_and!; [done..| |done|destruct (to_bech32 pk); naive_solver].
  rewrite Forall_fmap in Hn. eapply Forall_impl; [exact Hn|]. intros g' Hg'. simpl in Hg'. by bool_facts.
Qed.

Lemma engine_admins_closed engine_id o :
  dwp (engine_admin_npubs engine_id) o
    (λ r _, ∀ l npub, r = Ok l → npub ∈ l → engine_admin (o_db o) engine_id npub).
Proof.
  unfold engine_admin_npubs.
  assert (∀ l npub, Ok [] = Ok l → npub ∈ l → engine_admin (o_db o) engine_id npub) as Hnil.
  { intros l npub [= <-] Hin. by apply not_elem_of_nil in Hin. }
  destruct (hex_decode engine_id) as [gid|] eqn:Hgid; [|by apply dwp_ret].
  dstep. dstep. dstep. dstep; [by apply dwp_ret|]. dstep. dstep; [by apply dwp_ret|].
  dstep; [by apply dwp_ret|]. apply dwp_ret. intros l npub [= <-] Hin.
  apply admins_of_group_sound in Hin as (g & pk & gs1 & gs2 & ? & ? & ? & ? & ?).
  exists gid, g, pk, gs1, gs2. done.
Qed.

(** The row of [mls_groups] an id stands for: by its own id or its engine's. *)
Definition names_group (id : string) (g : MlsGroupSqlRow) : Prop :=
  trim id = gs_group_id g ∨ gs_engine_group_id g ≠ "" ∧ trim id = gs_engine_group_id g.

(** A group id alias: the ids of the first row it names, which the account is still in. The
    engine knows the group by its engine id, or by its own id if it has no other. *)
Definition group_alias (d : Db) (id : string) (ids : GroupIds) : Prop :=
  trim id ≠ "" ∧ ∃ g gs gs', db_groups d = gs ++ g :: gs' ∧ Forall (λ g', ¬ names_group id g') gs ∧
    names_group id g ∧ gs_evicted g = false ∧ wire_id ids = gs_group_id g ∧
    engine_id ids = if decide (gs_engine_group_id g = "") then gs_group_id g else gs_engine_group_id g.

Lemma group_test_spec id r :
  bool_decide (g_group_id (group_from_sql r) = trim id) ||
  negb (bool_decide (g_engine_group_id (group_from_sql r) = "")) &&
    bool_decide (g_engine_group_id (group_from_sql r) = trim id) = true ↔ names_group id r.
Proof.
  unfold names_group. simpl. rewrite orb_true_iff, andb_true_iff, negb_true_iff, !bool_decide_eq_true,
    bool_decide_eq_false. intuition congruence.
Qed.

Lemma resolve_closed id o :
  dwp (resolve_group_ids id) o
    (λ r _, ∀ ids, r = Ok (Some ids) → group_alias (o_db o) id ids).
Proof.
  unfold resolve_group_ids. destruct (bool_decide (trim id = "")) eqn:Hid; [by apply dwp_ret|].
  dstep. dstep. unfold load_mls_groups. dstep.
  apply dwp_quiet_any; [auto with quiet|]. intros [[]|e]; [|by apply dwp_ret].
  dstep. dstep; [by apply dwp_ret|]. dstep; [by apply dwp_ret|]. apply dwp_ret. intros ids [= Hids].
  unfold group_ids_of in Hids. apply bind_Some in Hids as (g & (Hm & l1 & l2 & Hl & Hn)%find_first_split & Hids).
  destruct (g_evicted g) eqn:Hev; [done|]. injection Hids as <-.
  apply fmap_app_inv in Hl as (gs & gs0 & -> & Hl & Hg). destruct gs0 as [|r gs']; [done|].
  injection Hl as -> _. bool_facts. split; [done|]. exists r, gs, gs'. split_and!; [done| |by apply group_test_spec|done..|].
  - rewrite Forall_fmap in Hn. eapply Forall_impl; [exact Hn|]. intros r' Hr' Hx%group_test_spec.
    cbv beta in Hr'. simpl in *. congruence.
  - simpl. destruct (decide _) as [E|E]; [by rewrite bool_decide_true|by rewrite bool_decide_false].
Qed.

Lemma group_role_closed group npub o :
  dwp (group_role group npub) o (λ r _, ∀ role, r = Ok role →
    (is_admin role = true → is_member role = true) ∧
    (is_member role = true → ∃ ids, group_alias (o_db o) group ids ∧
       listed_for (o_db o) (trim (wire_id ids)) npub ∧
       (is_admin role = true → engine_admin (o_db o) (engine_id ids) (trim npub)))).
Proof.
  unfold group_role. dstep.
  eapply dwp_quiet; [apply quiet_resolve_group_ids|apply resolve_closed|].
  intros [[ids|]|e] Hids; [|by apply dwp_ret; intros ? [= <-]|done].
  specialize (Hids _ eq_refl). dstep.
  eapply dwp_quiet; [apply quiet_is_author_mls_member|apply member_closed|].
  intros [[]|e] Hm; [|by apply dwp_ret; intros ? [= <-]|done]. simpl.
  specialize (Hm eq_refl). dstep.
  eapply dwp_quiet; [apply quiet_engine_admin_npubs|apply engine_admins_closed|].
  intros [admins|e] Ha; [|done]. apply dwp_ret. intros role [= <-]. simpl.
  split; [by destruct (_ && _)|]. intros _. exists ids. split_and!; [done..|].
  intros [_ Hex]%andb_true_iff. apply existsb_exists in Hex as (a & Hin & ?); bool_facts; subst.
  by eapply Ha, list_elem_of_In.
Qed.

(** The logged-in account is an admin member of [group]. *)
Definition acts_as_admin (d : Db) (group npub : string) : Prop :=
  to_bech32 (st_signer d) = Ok npub ∧
  ∃ ids, group_alias d group ids ∧ listed_for d (trim (wire_id ids)) npub ∧
    engine_admin d (engine_id ids) (trim npub).

Lemma signer_identity_dwp o :
  dwp signer_identity o (λ r _, ∀ pk npub, r = Ok (pk, npub) →
    to_bech32 (st_signer (o_db o)) = Ok npub).
Proof.
  unfold signer_identity. dstep. dstep; [done|]. dstep. dstep; [done|]. dstep. dstep.
  destruct (to_bech32 (st_signer (o_db o))); [|done]. apply dwp_ret. by intros ? ? [= <- <-].
Qed.

Lemma group_role_admin group npub o :
  to_bech32 (st_signer (o_db o)) = Ok npub →
  dwp (group_role group npub) o (λ r _, ∀ role, r = Ok role →
    is_member role = true → is_admin role = true → acts_as_admin (o_db o) group npub).
Proof.
  intros Hb. eapply dwp_mono; [apply group_role_closed|]. intros r o' Hr role Hok Hm Ha.
  destruct (Hr role Hok) as [_ Hrole]. destruct (Hrole Hm) as (ids & ? & ? & Hadm).
  split; [done|]. exists ids. auto.
Qed.
End admin.

(** ** Fault-free connections *)

(** An account, and the current key derivation. *)
Definition can_write (d : Db) : Prop :=
  is_Some (st_account d) ∧ db_settings d !! KEY_DERIVATION_VERSION = Some "2".

Lemma lwp_connection (o : World.Obs Db Effect) (Q : unit → World.Obs Db Effect → Prop) :
  is_Some (st_account (o_db o)) → Q tt o → lwp get_db_connection o Q.
Proof.
  intros [npub Hn] HQ. unfold get_db_connection, get_current_account. lstep.
  eapply lwp_query_row; [by rewrite Hn|]. by lstep.
Qed.

Lemma lwp_require_kdf (o : World.Obs Db Effect) (Q : unit → World.Obs Db Effect → Prop) :
  can_write (o_db o) → Q tt o → lwp require_key_derivation_version_2_on_handle o Q.
Proof.
  intros [Hacc Hk] HQ. unfold require_key_derivation_version_2_on_handle, with_conn. lstep.
  apply lwp_connection; [done|]. unfold require_key_derivation_version_2, get_key_derivation_version,
    get_setting. lstep. lstep. lstep. lstep. lstep. rewrite Hk. lstep.
  eapply (lwp_of_result _ _ _ 2); [done|]. simpl. by lstep.
Qed.
