(* ===== verification/Pending.v ===== *)
(** * The pending-operation queue ([squad_event_pending_ops], [squad_doc_pending_ops])

    The SQL statements both replicas run on their queue, as functions on the
    table, and what they guarantee: expiry, at most [n] rows per parent and
    author, the newest kept. *)

From S2P Require Import Prelude Schema.

Notation pending := (gmap string PendingRow).

(** [DELETE .. WHERE updated_at_ms < cutoff] *)
Definition purge_rows (cutoff : Z) (m : pending) : pending :=
  filter (λ kr, cutoff ≤ p_updated_at_ms kr.2) m.

(** [INSERT OR IGNORE] on the primary key *)
Definition insert_or_ignore (k : string) (r : PendingRow) (m : pending) : pending :=
  match m !! k with
  | Some _ => m
  | None => <[k := r]> m
  end.

Definition of_author (parent author : string) (kr : string * PendingRow) : Prop :=
  p_parent_id kr.2 = parent ∧ p_author_npub kr.2 = author.

#[export] Instance of_author_dec parent author kr : Decision (of_author parent author kr).
Proof. unfold of_author. apply _. Defined.

(** Row order: [updated_at_ms], then [rumor_id]. *)
Definition row_key (kr : string * PendingRow) : Z * string := (p_updated_at_ms kr.2, kr.1).

(** The subquery: the newest [n] rows of the author, by id. *)
Definition newest_ids (parent author : string) (n : nat) (m : pending) : list string :=
  (take n (order_by_ms_desc row_key (filter (of_author parent author) (map_to_list m)))).*1.

(** [DELETE .. WHERE parent_id = ? AND author_npub = ? AND rumor_id NOT IN (..)] *)
Definition trim_rows (parent author : string) (n : nat) (m : pending) : pending :=
  filter (λ kr, ¬ of_author parent author kr ∨ kr.1 ∈ newest_ids parent author n m) m.

(** Rows of one record, oldest first. *)
Definition rows_of (id : string) (m : pending) : list (string * PendingRow) :=
  order_by_ms row_key (filter (λ kr, p_record_id kr.2 = id) (map_to_list m)).

(** [SELECT DISTINCT author_npub] *)
Definition authors_of (id : string) (m : pending) : list string :=
  remove_dups ((λ kr : string * PendingRow, p_author_npub kr.2) <$>
               filter (λ kr, p_record_id kr.2 = id) (map_to_list m)).

(** ** Membership *)

Lemma purge_rows_lookup cutoff m k r :
  purge_rows cutoff m !! k = Some r ↔ m !! k = Some r ∧ cutoff ≤ p_updated_at_ms r.
Proof. unfold purge_rows. by rewrite map_lookup_filter_Some. Qed.

Lemma insert_or_ignore_lookup k r m k' r' :
  insert_or_ignore k r m !! k' = Some r' ↔
  m !! k' = Some r' ∨ (m !! k' = None ∧ k' = k ∧ r' = r).
Proof.
  unfold insert_or_ignore. destruct (m !! k) as [r0|] eqn:Hk.
  - split; [auto|]. intros [?|(? & -> & _)]; congruence.
  - rewrite lookup_insert_Some. destruct (decide (k = k')) as [->|]; naive_solver.
Qed.

Lemma rows_of_elem id m k r : (k, r) ∈ rows_of id m ↔ m !! k = Some r ∧ p_record_id r = id.
Proof.
  unfold rows_of. rewrite order_by_ms_elem, list_elem_of_filter, elem_of_map_to_list. naive_solver.
Qed.

Lemma rows_of_nodup id m : NoDup (rows_of id m).*1.
Proof.
  unfold rows_of. rewrite order_by_ms_perm.
  eapply sublist_NoDup; [apply (NoDup_fst_map_to_list m)|]. apply fmap_sublist, sublist_filter.
Qed.

Lemma authors_of_elem id m a :
  a ∈ authors_of id m ↔ ∃ k r, m !! k = Some r ∧ p_record_id r = id ∧ p_author_npub r = a.
Proof.
  unfold authors_of. rewrite elem_of_remove_dups, list_elem_of_fmap. split.
  - intros ([k r] & -> & [Hid Hm%elem_of_map_to_list]%list_elem_of_filter). simpl in *. eauto.
  - intros (k & r & Hm & Hid & <-). exists (k, r). split; [done|].
    apply list_elem_of_filter. split; [done|]. by apply elem_of_map_to_list.
Qed.

(** ** The per-author bound *)

Definition author_rows (parent author : string) (m : pending) : list (string * PendingRow) :=
  filter (of_author parent author) (map_to_list m).

Lemma author_rows_elem parent author m k r :
  (k, r) ∈ author_rows parent author m ↔ m !! k = Some r ∧ of_author parent author (k, r).
Proof.
  unfold author_rows. rewrite list_elem_of_filter, elem_of_map_to_list. naive_solver.
Qed.

Lemma author_rows_nodup parent author m : NoDup (author_rows parent author m).*1.
Proof.
  eapply sublist_NoDup; [apply (NoDup_fst_map_to_list m)|]. apply fmap_sublist, sublist_filter.
Qed.

Lemma trim_rows_lookup parent author n m k r :
  trim_rows parent author n m !! k = Some r ↔
  m !! k = Some r ∧ (¬ of_author parent author (k, r) ∨ k ∈ newest_ids parent author n m).
Proof. unfold trim_rows. by rewrite map_lookup_filter_Some. Qed.

(** The queue bound: at most [n] rows of the author under the parent remain. *)
Lemma trim_rows_bound parent author n m :
  (length (author_rows parent author (trim_rows parent author n m)) ≤ n)%nat.
Proof.
  set (l := author_rows parent author (trim_rows parent author n m)).
  assert (length l.*1 ≤ length (newest_ids parent author n m))%nat as Hle.
  { apply submseteq_length, NoDup_submseteq; [apply author_rows_nodup|].
    intros k ([k' r] & -> & Hr)%list_elem_of_fmap. simpl.
    apply author_rows_elem in Hr as [[_ [Hn|Hn]]%trim_rows_lookup Ha]; done. }
  rewrite length_fmap in Hle. etrans; [exact Hle|].
  unfold newest_ids. rewrite length_fmap, length_take. lia.
Qed.

Lemma order_by_ms_desc_sorted {A} (key : A → Z * string) l :
  StronglySorted (flip (ms_le key)) (order_by_ms_desc key l).
Proof.
  unfold order_by_ms_desc. apply StronglySorted_merge_sort.
  - intros a b c H1 H2. unfold flip in *. by etrans.
  - intros a b. unfold flip. destruct (total (ms_le key) a b); auto.
Qed.

Lemma sorted_take_drop {A} (R : A → A → Prop) n l x y :
  StronglySorted R l → x ∈ take n l → y ∈ drop n l → R x y.
Proof.
  intros Hs. revert n. induction Hs as [|z l Hs IH Hz]; intros [|n]; simpl.
  - by intros ?%not_elem_of_nil.
  - by intros ?%not_elem_of_nil.
  - by intros ?%not_elem_of_nil.
  - intros [->|Hx]%elem_of_cons Hy; [|by eapply IH].
    rewrite Forall_forall in Hz. apply Hz.
    rewrite <- (take_drop n l). apply elem_of_app. auto.
Qed.

(** Trimming drops only rows that every kept row of the author is newer than. *)
Lemma trim_rows_newest parent author n m k r k' r' :
  m !! k = Some r → trim_rows parent author n m !! k = None →
  trim_rows parent author n m !! k' = Some r' → of_author parent author (k', r') →
  ms_le row_key (k, r) (k', r').
Proof.
  intros Hm Hdrop Hkeep Ha'. apply trim_rows_lookup in Hkeep as [Hm' [Hn|Hn]]; [done|].
  assert (of_author parent author (k, r) ∧ k ∉ newest_ids parent author n m) as [Ha Hk].
  { destruct (decide (of_author parent author (k, r))) as [Ha|Ha].
    - split; [done|]. intros Hk. by rewrite (proj2 (trim_rows_lookup _ _ _ _ _ _)
        (conj Hm (or_intror Hk))) in Hdrop.
    - by rewrite (proj2 (trim_rows_lookup _ _ _ _ _ _) (conj Hm (or_introl Ha))) in Hdrop. }
  set (l := order_by_ms_desc row_key (author_rows parent author m)).
  assert (∀ k r, m !! k = Some r → of_author parent author (k, r) → (k, r) ∈ l) as Hl.
  { intros. unfold l. rewrite order_by_ms_desc_elem. by apply author_rows_elem. }
  assert ((k', r') ∈ take n l) as Htake.
  { unfold newest_ids in Hn. apply list_elem_of_fmap in Hn as ([k0 r0] & Heq & Hin).
    simpl in Heq; subst k0.
    assert ((k', r0) ∈ l) as Hin' by (by eapply subseteq_take).
    unfold l in Hin'. rewrite order_by_ms_desc_elem in Hin'.
    apply author_rows_elem in Hin' as [Hm0 _]. replace r' with r0 by congruence. done. }
  assert ((k, r) ∈ drop n l) as Hdr.
  { pose proof (Hl k r Hm Ha) as Hin. rewrite <- (take_drop n l) in Hin.
    apply elem_of_app in Hin as [Hin|]; [|done].
    destruct Hk. unfold newest_ids. apply list_elem_of_fmap. exists (k, r). done. }
  exact (sorted_take_drop _ n l (k', r') (k, r) (order_by_ms_desc_sorted _ _) Htake Hdr).
Qed.

(** A row that survives trimming is unchanged, and other authors keep theirs. *)
Lemma trim_rows_subseteq parent author n m : trim_rows parent author n m ⊆ m.
Proof. apply map_filter_subseteq. Qed.

Lemma trim_rows_other parent author n m k r :
  m !! k = Some r → ¬ of_author parent author (k, r) → trim_rows parent author n m !! k = Some r.
Proof. intros Hm Ha. apply trim_rows_lookup. auto. Qed.


(** Nothing is trimmed from a queue within the bound. *)
Lemma trim_rows_id parent author n m :
  (length (author_rows parent author m) ≤ n)%nat → trim_rows parent author n m = m.
Proof.
  intros Hlen. apply map_eq. intros k. apply option_eq. intros r.
  rewrite trim_rows_lookup. split; [by intros [? _]|]. intros Hm. split; [done|].
  destruct (decide (of_author parent author (k, r))) as [Ha|Ha]; [right|by left].
  unfold newest_ids. rewrite take_ge.
  - apply list_elem_of_fmap. exists (k, r). split; [done|].
    rewrite order_by_ms_desc_elem. by apply author_rows_elem.
  - by rewrite order_by_ms_desc_perm.
Qed.

Lemma author_rows_subseteq parent author m m' :
  m ⊆ m' → (length (author_rows parent author m) ≤ length (author_rows parent author m'))%nat.
Proof.
  intros Hsub. rewrite <- (length_fmap fst (author_rows _ _ m)),
    <- (length_fmap fst (author_rows _ _ m')).
  apply submseteq_length, NoDup_submseteq; [apply author_rows_nodup|].
  intros k ([k' r] & -> & Hr)%list_elem_of_fmap. simpl. apply list_elem_of_fmap.
  exists (k', r). split; [done|]. apply author_rows_elem in Hr as [Hm Ha].
  apply author_rows_elem. split; [|done]. by eapply lookup_weaken.
Qed.

Lemma author_rows_insert parent author k r m :
  m !! k = None →
  (length (author_rows parent author (<[k := r]> m)) ≤
   S (length (author_rows parent author m)))%nat.
Proof.
  intros Hk. unfold author_rows. rewrite (map_to_list_insert m k r Hk).
  destruct (decide (of_author parent author (k, r)));
    [rewrite filter_cons_True by done|rewrite filter_cons_False by done]; simpl; lia.
Qed.

Lemma purge_rows_subseteq cutoff m : purge_rows cutoff m ⊆ m.
Proof. apply map_filter_subseteq. Qed.

Lemma nodup_singleton {A} (l : list A) a : NoDup l → (∀ x, x ∈ l ↔ x = a) → l = [a].
Proof.
  intros Hnd Hl. apply Permutation_singleton_r. apply NoDup_Permutation;
    [done|apply NoDup_singleton|]. intros x. by rewrite Hl, list_elem_of_singleton.
Qed.

Lemma rows_of_single id m k r :
  m !! k = Some r → p_record_id r = id →
  (∀ k' r', m !! k' = Some r' → p_record_id r' = id → k' = k) →
  rows_of id m = [(k, r)].
Proof.
  intros Hk Hid Hu. apply nodup_singleton; [eapply NoDup_fmap_1, rows_of_nodup|].
  intros [k' r']. rewrite rows_of_elem. split.
  - intros [Hk' Hid']. assert (k' = k) as -> by by eapply Hu. congruence.
  - intros [= -> ->]. done.
Qed.
