(* ===== verification/CatchUp.v ===== *)
(** * The Catch up store ([catch_up.rs], the part that touches only its table)

    [catch_up_entries] indexes events by their source id: one row per source,
    written with [ON CONFLICT(source_event_id) DO NOTHING], resolved once, and
    deleted with its chat. Entry ids are random; the draw is one more reading of
    the world's input list. *)

From Stdlib Require Import Ascii.
From S2P Require Import Prelude World Json Chat Notification Schema Records.

Definition CATCH_UP_CHANGED_EVENT : string := "catch_up_changed".

Definition emit_catch_up_changed : Act unit := output (Emit CATCH_UP_CHANGED_EVENT JNull).

Inductive CatchUpKind : Type :=
| KMention | KDirect | KActionPrompt | KWelcome | KEventReminder.

#[export] Instance CatchUpKind_eq_dec : EqDecision CatchUpKind.
Proof. solve_decision. Defined.

Definition CatchUpKind_as_db_str (k : CatchUpKind) : string :=
  match k with
  | KMention => "mention"
  | KDirect => "direct_message"
  | KActionPrompt => "action_prompt"
  | KWelcome => "welcome"
  | KEventReminder => "event_reminder"
  end.

Definition CatchUpKind_from_db_str (value : string) : option CatchUpKind :=
  if decide (value = "mention") then Some KMention
  else if decide (value = "direct_message") then Some KDirect
  else if decide (value = "action_prompt") then Some KActionPrompt
  else if decide (value = "welcome") then Some KWelcome
  else if decide (value = "event_reminder") then Some KEventReminder
  else None.

(** [CatchUpEntry]: a row with its source id. *)
Notation CatchUpEntry := (string * CatchUpRow)%type.

Definition now_epoch_seconds : Act Z :=
  let! t := now in mret (if t <? 0 then 0 else wrap64 (t / 1000)).

(** [{:x}] of a [u64]: at most sixteen digits. *)
Definition hex_digit (d : Z) : ascii :=
  ascii_of_N (Z.to_N (if d <? 10 then 48 + d else 87 + d)).
Fixpoint hex_digits (fuel : nat) (n : Z) (acc : string) : string :=
  match fuel with
  | O => acc
  | S fuel' =>
      let acc := String (hex_digit (n `mod` 16)) acc in
      if n / 16 =? 0 then acc else hex_digits fuel' (n / 16) acc
  end.
Definition to_hex (n : Z) : string := hex_digits 16 n "".

Definition random_u64 : Act Z := let! r := now in mret (r `mod` 2 ^ 64).

Definition generate_id (kind : CatchUpKind) : Act string :=
  let! secs := now_epoch_seconds in
  let! r := random_u64 in
  mret (CatchUpKind_as_db_str kind +:+ "-" +:+ pretty secs +:+ "-" +:+ to_hex r).

Notation CatchUpTable := (gmap string CatchUpRow).
Definition catch_up (d : Db) : CatchUpTable := dv_catch_up (db_device d).
Definition set_catch_up (f : CatchUpTable → CatchUpTable) : Db → Db :=
  set_device (put_catch_up f).

(** Another row has this primary key. *)
Definition id_taken (id source : string) (m : CatchUpTable) : bool :=
  existsb (λ p, bool_decide (cu_id p.2 = id) && negb (bool_decide (p.1 = source))) (map_to_list m).

Section store.
Context `{Rusqlite}.

(** [INSERT .. ON CONFLICT(source_event_id) DO NOTHING]: how many rows. *)
Definition insert_if_new (source : string) (r : CatchUpRow) (d : Db) : result (Z * Db) :=
  if id_taken (cu_id r) source (catch_up d) then Err (constraint_failed "catch_up_entries.id")
  else match catch_up d !! source with
       | Some _ => Ok (0, d)
       | None => Ok (1, set_catch_up <[source := r]> d)
       end.

Definition insert_entry (kind : CatchUpKind) (chat_id source_event_id : string) : Act bool :=
  let! id := generate_id kind in
  let! created_at := now_epoch_seconds in
  let! inserted := insert_row (λ e, "Failed to insert catch up entry: " +:+ e)
    (insert_if_new source_event_id
       (mkCatchUpRow id (CatchUpKind_as_db_str kind) chat_id created_at None)) in
  mret (0 <? inserted).

(** The kind of an admitted event's entry. *)
Definition catch_up_kind (kind : EventKind) : CatchUpKind :=
  match kind with
  | GroupMessage => KMention
  | KDirectMessage => KDirect
  | ActionPrompt => KActionPrompt
  | EventReminder => KEventReminder
  end.

Definition record_admitted_event (kind : EventKind) (is_own mention_hit : bool)
    (chat_id source_event_id : string) : Act unit :=
  if negb (earns_catch_up_entry kind is_own mention_hit) then mret tt
  else let! _ := insert_entry (catch_up_kind kind) chat_id source_event_id in mret tt.

Definition event_reminder_source_id (event_id : string) (fire_at_ms : Z) : string :=
  event_id +:+ ":" +:+ pretty fire_at_ms.

Definition record_missed_event_reminder (chat_id event_id : string) (fire_at_ms : Z) : Act bool :=
  insert_entry KEventReminder chat_id (event_reminder_source_id event_id fire_at_ms).

Definition record_admitted_event_for_handle (kind : EventKind) (is_own mention_hit : bool)
    (chat_id source_event_id : string) : Act unit :=
  if negb (earns_catch_up_entry kind is_own mention_hit) then mret tt
  else
    let! conn := attempt get_db_connection in
    match conn with
    | Err _ => mret tt
    | Ok _ =>
        let! _ := attempt (record_admitted_event kind is_own mention_hit chat_id source_event_id) in
        mret tt
    end.

Definition record_welcome (chat_id wrapper_event_id : string) : Act bool :=
  insert_entry KWelcome chat_id wrapper_event_id.

(** Fails open: [true] when the connection or the write fails. *)
Definition record_welcome_for_handle (chat_id wrapper_event_id : string) : Act bool :=
  let! conn := attempt get_db_connection in
  match conn with
  | Err _ => mret true
  | Ok _ =>
      let! r := attempt (record_welcome chat_id wrapper_event_id) in
      mret (match r with Ok is_new => is_new | Err _ => true end)
  end.

(** [INSERT .. ON CONFLICT(source_event_id) DO UPDATE SET resolved_at = NULL]. *)
Definition reopen_or_insert (source : string) (r : CatchUpRow) (d : Db) : result (unit * Db) :=
  if id_taken (cu_id r) source (catch_up d) then Err (constraint_failed "catch_up_entries.id")
  else match catch_up d !! source with
       | Some r0 =>
           Ok (tt, set_catch_up <[source := mkCatchUpRow (cu_id r0) (cu_kind r0) (cu_chat_id r0)
                                              (cu_created_at r0) None]> d)
       | None => Ok (tt, set_catch_up <[source := r]> d)
       end.

Definition record_or_reopen_action_needed (chat_id source_event_id : string) : Act unit :=
  let! id := generate_id KActionPrompt in
  let! created_at := now_epoch_seconds in
  insert_row (λ e, "Failed to record action-needed entry: " +:+ e)
    (reopen_or_insert source_event_id
       (mkCatchUpRow id (CatchUpKind_as_db_str KActionPrompt) chat_id created_at None)).

Definition record_action_needed_entry (chat_id source_event_id : string) : Act unit :=
  with_conn (record_or_reopen_action_needed chat_id source_event_id).
End store.

(** ** Resolving *)

Definition is_open (r : CatchUpRow) : bool := bool_decide (cu_resolved_at r = None).

Definition resolved_row (t : Z) (r : CatchUpRow) : CatchUpRow :=
  mkCatchUpRow (cu_id r) (cu_kind r) (cu_chat_id r) (cu_created_at r) (Some t).

(** [UPDATE .. SET resolved_at = t WHERE resolved_at IS NULL AND p]: the rows
    changed and the table. *)
Definition hit (p : string → CatchUpRow → bool) (source : string) (r : CatchUpRow) : bool :=
  is_open r && p source r.
Definition resolve_where (p : string → CatchUpRow → bool) (t : Z) (m : CatchUpTable)
    : CatchUpTable :=
  map_imap (λ source r, Some (if hit p source r then resolved_row t r else r)) m.
Definition count_where (p : string → CatchUpRow → bool) (m : CatchUpTable) : nat :=
  length (filter (λ x, hit p x.1 x.2 = true) (map_to_list m)).

Definition update_open (err : string → string) (p : string → CatchUpRow → bool) (t : Z) : Act nat :=
  execute err (λ d, (count_where p (catch_up d), set_catch_up (resolve_where p t) d)).

Definition reminder_of (event_id : string) (source : string) (r : CatchUpRow) : bool :=
  bool_decide (cu_kind r = CatchUpKind_as_db_str KEventReminder) &&
  starts_with (event_id +:+ ":") source.

Definition resolve_event_reminder_entries (event_id : string) : Act nat :=
  let! t := now_epoch_seconds in
  update_open (λ e, "Failed to resolve event reminder entries: " +:+ e) (reminder_of event_id) t.

Definition resolve_entry (source_event_id : string) : Act bool :=
  let! resolved_at := now_epoch_seconds in
  let! changed := update_open (λ e, "Failed to resolve catch up entry: " +:+ e)
                    (λ source _, bool_decide (source = source_event_id)) resolved_at in
  mret (0 <? changed)%nat.

Definition resolve_welcome_for_handle (wrapper_event_id : string) : Act unit :=
  let! conn := attempt get_db_connection in
  match conn with
  | Err _ => mret tt
  | Ok _ => let! _ := attempt (resolve_entry wrapper_event_id) in mret tt
  end.

Definition message_kind (kind : string) : bool :=
  bool_decide (kind = CatchUpKind_as_db_str KMention) ||
  bool_decide (kind = CatchUpKind_as_db_str KDirect).

Definition message_of_chat (chat_id : string) (source : string) (r : CatchUpRow) : bool :=
  bool_decide (cu_chat_id r = chat_id) && message_kind (cu_kind r).

Definition resolve_chat_message_entries (chat_id : string) : Act nat :=
  let! resolved_at := now_epoch_seconds in
  update_open (λ e, "Failed to resolve chat catch up entries: " +:+ e)
    (message_of_chat chat_id) resolved_at.

Definition resolve_chat_message_entries_for_handle (chat_id : string) : Act unit :=
  let! conn := attempt get_db_connection in
  match conn with
  | Err _ => mret tt
  | Ok _ => let! _ := attempt (resolve_chat_message_entries chat_id) in mret tt
  end.

(** ** Deleting *)

Definition delete_where (p : CatchUpRow → bool) (m : CatchUpTable) : nat * CatchUpTable :=
  (length (filter (λ x, p x.2 = true) (map_to_list m)), filter (λ x, p x.2 = false) m).

Definition delete_rows (err : string → string) (p : CatchUpRow → bool) : Act nat :=
  execute err (λ d, let '(n, m) := delete_where p (catch_up d) in (n, set_catch_up (λ _, m) d)).

Definition delete_entries_for_chat (chat_id : string) : Act nat :=
  delete_rows (λ e, "Failed to delete catch up entries for chat: " +:+ e)
    (λ r, bool_decide (cu_chat_id r = chat_id)).

Definition delete_entries_for_chats (chat_ids : list string) : Act nat :=
  match chat_ids with
  | [] => mret 0%nat
  | _ => delete_rows (λ e, "Failed to delete catch up entries for chats: " +:+ e)
           (λ r, bool_decide (cu_chat_id r ∈ chat_ids))
  end.

(** ** Reading *)

(** Newest first; rows of the same second come in an order SQLite leaves open,
    here that of the table. *)
Definition entry_key (e : CatchUpEntry) : Z * string := (cu_created_at e.2, "").

Definition matches_filter (kind : option CatchUpKind) (chat_ids : option (list string))
    (r : CatchUpRow) : bool :=
  is_open r &&
  match kind with Some k => bool_decide (cu_kind r = CatchUpKind_as_db_str k) | None => true end &&
  match chat_ids with Some ids => bool_decide (cu_chat_id r ∈ ids) | None => true end.

Definition open_entries (kind : option CatchUpKind) (chat_ids : option (list string))
    (m : CatchUpTable) : list CatchUpEntry :=
  order_by_ms_desc entry_key (filter (λ e, matches_filter kind chat_ids e.2 = true) (map_to_list m)).

Definition list_unresolved_entries (kind : option CatchUpKind) (chat_ids : option (list string))
    : Act (list CatchUpEntry) :=
  match chat_ids with
  | Some [] => mret []
  | _ =>
      let! _ := query (λ e, "Failed to prepare catch up query: " +:+ e) (λ _, tt) in
      query (λ e, "Failed to query catch up entries: " +:+ e)
        (λ d, open_entries kind chat_ids (catch_up d))
  end.

Definition get_entry (source_event_id : string) : Act (option CatchUpRow) :=
  query (λ e, "Failed to read catch up entry: " +:+ e) (λ d, catch_up d !! source_event_id).
