(* ===== verification/ReadState.v ===== *)
(** * Read marks, unread counters and the chat row

    [chat.rs] ([mark_as_read], [set_notification_level]), [lib.rs]
    ([unread_counts_by_chat]), [cmds/chat.rs] ([update_unread_counter]) and
    [db/messaging.rs] ([save_chat]). *)

From S2P Require Import Prelude World Json Chat Notification Schema Records CatchUp.

(** ** Unread counts *)

(** The walk back from the newest message, on the reversed list. *)
Fixpoint unread_walk (last_read_id : string) (rev_messages : list Message) : Z :=
  match rev_messages with
  | [] => 0
  | msg :: older =>
      if m_mine msg then 0
      else if negb (bool_decide (last_read_id = "")) && bool_decide (m_id msg = last_read_id)
      then 0
      else unread_walk last_read_id older + 1
  end.

Definition chat_unread (blocked : gset string) (chat : Chat) : Z :=
  if negb (contributes_to_badge Record (c_notification_level chat)) then 0
  else if bool_decide (c_chat_type chat = DirectMessage) && bool_decide (c_id chat ∈ blocked) then 0
  else unread_walk (c_last_read chat) (rev (c_messages chat)) `mod` U32.

Definition unread_counts_by_chat (blocked : gset string) (chats : list Chat) : gmap string Z :=
  foldl (λ counts chat,
    let unread_count := chat_unread blocked chat in
    if 0 <? unread_count then <[c_id chat := unread_count]> counts else counts) ∅ chats.

Definition diff_unread_counts (last current : gmap string Z) : gmap string Z :=
  filter (λ p, last !! p.1 ≠ Some p.2) current ∪
  ((λ _, 0) <$> filter (λ p, current !! p.1 = None) last).

Definition counts_json (m : gmap string Z) : json :=
  JObj ((λ p, (p.1, JNum p.2)) <$> map_to_list m).

Definition sum_counts (m : gmap string Z) : Z :=
  foldr (λ p acc, p.2 + acc) 0 (map_to_list m) `mod` U32.

Definition set_last_unread_counts (m : gmap string Z) : Db → Db :=
  set_device (put_last_unread (λ _, m)).

(** The badge is set when the main window is there; a failure is ignored. *)
Definition update_unread_counter : Act Z :=
  let! counts_by_chat := modify (λ d,
    (unread_counts_by_chat (st_blocked (db_device d)) (st_chats d), d)) in
  let unread_count := sum_counts counts_by_chat in
  let! changed := modify (λ d,
    (diff_unread_counts (st_last_unread (db_device d)) counts_by_chat,
     set_last_unread_counts counts_by_chat d)) in
  (if bool_decide (changed = ∅) then mret tt
   else output (Emit "unread_counts_changed" (counts_json changed))) ;!
  let! _ := attempt (send id (SetBadge (if 0 <? unread_count then Some unread_count else None))) in
  mret unread_count.

(** ** The chat row *)

Section persist.
Context `{SerdeText}.

Definition metadata_json (metadata : gmap string string) : json :=
  JObj [("custom_fields", JObj ((λ p, (p.1, JStr p.2)) <$> map_to_list metadata))].

Definition chat_row (chat : Chat) : ChatSqlRow :=
  mkChatRow (to_i32 (c_chat_type chat)) (to_text (JArr (JStr <$> c_participants chat)))
    (c_last_read chat) (wrap64 (c_created_at chat)) (to_text (metadata_json (c_metadata chat)))
    (as_db_str (c_notification_level chat)).

(** [ON CONFLICT(chat_identifier) DO UPDATE] leaves the creation time. *)
Definition upsert_chat_row (chat : Chat) (m : gmap string ChatSqlRow) : gmap string ChatSqlRow :=
  let row := chat_row chat in
  <[c_id chat :=
      match m !! c_id chat with
      | Some old => mkChatRow (ct_chat_type row) (ct_participants row) (ct_last_read row)
                      (ct_created_at old) (ct_metadata row) (ct_notification_level row)
      | None => row
      end]> m.

Definition save_chat (chat : Chat) : Act unit :=
  get_db_connection ;!
  exec_ (λ e, "Failed to upsert chat: " +:+ e)
    (λ d, set_chat_rows (upsert_chat_row chat) (assign_chat_id (c_id chat) d)).

(** ** Commands *)

Definition put_chat (chat_id : string) (chat : Chat) (d : Db) : Db :=
  set_chats (update_first (λ c, bool_decide (c_id c = chat_id)) (λ _, chat)) d.

(** The read change, under the state lock. *)
Definition apply_read (chat_id : string) (message_id : option string) (d : Db) : bool * Db :=
  match get_chat (st_chats d) chat_id with
  | None => (false, d)
  | Some chat =>
      match message_id with
      | Some msg_id => (true, put_chat chat_id (set_last_read msg_id chat) d)
      | None => let '(result, chat') := set_as_read chat in (result, put_chat chat_id chat' d)
      end
  end.

Definition mark_as_read (chat_id : string) (message_id : option string) : Act bool :=
  let! result := modify (apply_read chat_id message_id) in
  if negb result then mret false
  else
    let! _ := update_unread_counter in
    resolve_chat_message_entries_for_handle chat_id ;!
    let! updated_chat := modify (λ d, (get_chat (st_chats d) chat_id, d)) in
    match updated_chat with
    | Some chat => let! _ := attempt (save_chat chat) in mret true
    | None => mret true
    end.

Definition set_level (level : NotificationLevel) (c : Chat) : Chat :=
  mkChat (c_id c) (c_chat_type c) (c_participants c) (c_messages c) (c_last_read c) (c_created_at c)
    (c_metadata c) level (c_typing_participants c).

(** [NotificationLevel] is serialized by its variant's name in lower case. *)
Definition level_payload (chat_id : string) (level : NotificationLevel) : json :=
  JObj [("chat_id", JStr chat_id); ("notification_level", JStr (as_db_str level))].

Definition set_notification_level (chat_id : string) (level : NotificationLevel) : Act bool :=
  let! updated := modify (λ d,
    match get_chat (st_chats d) chat_id with
    | Some chat => let chat' := set_level level chat in (Some chat', put_chat chat_id chat' d)
    | None => (None, d)
    end) in
  match updated with
  | None => mret false
  | Some chat =>
      let! _ := attempt (save_chat chat) in
      output (Emit "chat_notification_level_changed" (level_payload (c_id chat) level)) ;!
      let! _ := update_unread_counter in
      mret true
  end.
End persist.
