(* ===== verification/SquadCatalog.v ===== *)
(** * The squad catalog ([squad_catalog.rs], [join_inbox.rs])

    Squads and squad pairs as rows whose lists are JSON text: what a row may hold,
    how it is written and read back, and what goes with a squad when it is
    deleted. *)

From Stdlib Require Import Ascii.
From S2P Require Import Prelude World Json Schema Records CatchUp.

Definition KIND_SQUAD : string := "squad".
Definition KIND_SQUAD_PAIR : string := "squad-pair".
Definition VIS_PRIVATE : string := "private".
Definition VIS_PUBLIC : string := "public".

(** [app_config.rs] *)
Definition SQUAD_NAME_MAX_LENGTH : nat := 50.
Definition COMMONS_MAX_TAGS : nat := 3.

Record SquadChannelRow : Type := mkChannel {
  ch_name : string; ch_group_id : string; ch_order : Z; ch_access : option string;
}.

Record PairedSquadRef : Type := mkPaired { pr_id : string; pr_name : string }.

Record SquadRow : Type := mkSquad {
  s_id : string;
  s_name : string;
  s_icon_url : option string;
  s_channels : list SquadChannelRow;
  s_kind : string;
  s_paired_squads : option (list PairedSquadRef);
  s_visibility : string;
  s_commons_tags : option (list string);
  s_created_at_ms : Z;
  s_updated_at_ms : Z;
}.

Record SquadUpsert : Type := mkUpsert {
  u_id : string;
  u_name : string;
  u_icon_url : option string;
  u_channels : list SquadChannelRow;
  u_kind : option string;
  u_paired_squads : option (list PairedSquadRef);
  u_visibility : option string;
  u_commons_tags : option (list string);
  u_created_at_ms : option Z;
  u_updated_at_ms : option Z;
}.

(** ** Validation *)

Definition normalize_kind (raw : option string) : result string :=
  let other := to_ascii_lowercase (trim (default KIND_SQUAD raw)) in
  if decide (other = KIND_SQUAD) then Ok KIND_SQUAD
  else if decide (other = KIND_SQUAD_PAIR) then Ok KIND_SQUAD_PAIR
  else if decide (other = "") then Ok KIND_SQUAD
  else Err ("Invalid squad kind: " +:+ other).

Definition normalize_visibility (raw : option string) : result string :=
  let other := to_ascii_lowercase (trim (default VIS_PRIVATE raw)) in
  if decide (other = VIS_PRIVATE) then Ok VIS_PRIVATE
  else if decide (other = VIS_PUBLIC) then Ok VIS_PUBLIC
  else if decide (other = "") then Ok VIS_PRIVATE
  else Err ("Invalid squad visibility: " +:+ other).

(** [trim_start_matches('#')] *)
Fixpoint strip_hashes (s : string) : string :=
  match s with
  | String "#" s' => strip_hashes s'
  | _ => s
  end.

Definition tag_byte (a : ascii) : bool :=
  let c := code a in
  ((48 <=? c) && (c <=? 57) || (65 <=? c) && (c <=? 90) || (97 <=? c) && (c <=? 122))%N ||
  (c =? 95)%N.

Definition normalize_commons_tag (raw : string) : option string :=
  let t := to_ascii_lowercase (strip_hashes (trim raw)) in
  if bool_decide (t = "") || (32 <? String.length t)%nat then None
  else if negb (forallb tag_byte (String.list_ascii_of_string t)) then None
  else if decide (t = "new") then None
  else Some t.

(** The loop over the tags: normalized, repeats dropped. *)
Fixpoint collect_tags (out tags : list string) : result (list string) :=
  match tags with
  | [] => Ok out
  | item :: tags' =>
      match normalize_commons_tag item with
      | None => Err ("Invalid commons tag: " +:+ item)
      | Some t => collect_tags (if decide (t ∈ out) then out else out ++ [t]) tags'
      end
  end.

Definition normalize_commons_tags (raw : option (list string)) (visibility : string)
    : result (option (list string)) :=
  if negb (bool_decide (visibility = VIS_PUBLIC)) then Ok None
  else
    match raw with
    | None | Some [] => Ok None
    | Some tags =>
        if (COMMONS_MAX_TAGS <? length tags)%nat
        then Err ("commonsTags must contain 1 to " +:+ pretty (Z.of_nat COMMONS_MAX_TAGS) +:+ " tags")
        else
          let? out := collect_tags [] tags in
          if bool_decide (out = []) then Err "commonsTags must contain at least one valid tag"
          else Ok (Some out)
    end.

Fixpoint check_channels (channels : list SquadChannelRow) : result unit :=
  match channels with
  | [] => Ok tt
  | ch :: rest =>
      if blank (ch_name ch) then Err "Channel name must be non-empty"
      else if blank (ch_group_id ch) then Err "Channel groupId must be non-empty"
      else check_channels rest
  end.

Definition validate_channels (channels : list SquadChannelRow) : result unit :=
  match channels with
  | [] => Err "At least one channel is required"
  | _ => check_channels channels
  end.

Definition validate_paired_squads (kind : string) (paired : option (list PairedSquadRef))
    : result (option (list PairedSquadRef)) :=
  if negb (bool_decide (kind = KIND_SQUAD_PAIR)) then Ok None
  else
    match paired with
    | None => Err "squad-pair requires pairedSquads"
    | Some ps =>
        if negb (length ps =? 2)%nat then Err "pairedSquads must contain exactly two entries"
        else if existsb (λ p, blank (pr_id p) || blank (pr_name p)) ps
        then Err "pairedSquads entries require id and name"
        else Ok (Some ps)
    end.

Definition now_ms : Act Z := let! t := now in mret (if t <? 0 then 0 else wrap64 t).

Definition clean_icon (icon_url : option string) : option string :=
  s ← icon_url; let t := trim s in if decide (t = "") then None else Some t.

(** The row of [prepare_row], the clock reading an argument. *)
Definition prepared (input : SquadUpsert) (ts : Z) : result SquadRow :=
  let id := trim (u_id input) in
  if decide (id = "") then Err "Squad id must be non-empty"
  else
    let name := trim (u_name input) in
    if decide (name = "") then Err "Squad name must be non-empty"
    else
      let? _ := validate_channels (u_channels input) in
      let? kind := normalize_kind (u_kind input) in
      let? visibility := normalize_visibility (u_visibility input) in
      let? commons_tags := normalize_commons_tags (u_commons_tags input) visibility in
      let? paired_squads := validate_paired_squads kind (u_paired_squads input) in
      Ok (mkSquad id name (clean_icon (u_icon_url input)) (u_channels input) kind paired_squads
            visibility commons_tags (default ts (u_created_at_ms input))
            (default ts (u_updated_at_ms input))).

Definition prepare_row (input : SquadUpsert) : Act SquadRow :=
  let! ts := now_ms in of_result (prepared input ts).

(** ** Serde of the JSON columns *)

Definition channel_members (c : SquadChannelRow) : list (string * option json) := [
  ("name", Some (JStr (ch_name c)));
  ("groupId", Some (JStr (ch_group_id c)));
  ("order", Some (JNum (ch_order c)));
  ("access", JStr <$> ch_access c)].
Definition ser_channel (c : SquadChannelRow) : json := JObj (obj_fields (channel_members c)).

Definition de_i32 : json → option Z := de_int (-2147483648) 2147483647.

Definition de_channel (j : json) : option SquadChannelRow :=
  fs ← struct_fields ["name"; "groupId"; "order"; "access"] j;
  name ← req de_string "name" fs;
  group_id ← req de_string "groupId" fs;
  order ← req de_i32 "order" fs;
  access ← opt de_string "access" fs;
  Some (mkChannel name group_id order access).

Definition paired_members (p : PairedSquadRef) : list (string * option json) :=
  [("id", Some (JStr (pr_id p))); ("name", Some (JStr (pr_name p)))].
Definition ser_paired (p : PairedSquadRef) : json := JObj (obj_fields (paired_members p)).
Definition de_paired (j : json) : option PairedSquadRef :=
  fs ← struct_fields ["id"; "name"] j;
  id ← req de_string "id" fs;
  name ← req de_string "name" fs;
  Some (mkPaired id name).

Section catalog.
Context `{SerdeText, SerdeErrors}.

(** [serde_json::from_str(raw).map_err(..)] *)
Definition from_str {A} (de : json → option A) (what raw : string) : result A :=
  ok_or (of_text raw ≫= de) ("Invalid " +:+ what +:+ " JSON: " +:+ de_error raw).

Definition optional_column {A} (de : json → option A) (what : string) (raw : option string)
    : result (option A) :=
  match raw with
  | Some raw => if blank raw then Ok None else let? v := from_str de what raw in Ok (Some v)
  | None => Ok None
  end.

Definition row_from_query (id : string) (r : SquadSqlRow) : result SquadRow :=
  let? channels := from_str (de_list de_channel) "channels" (sq_channels r) in
  let? commons_tags := optional_column (de_list de_string) "commons_tags" (sq_commons_tags r) in
  let? paired_squads := optional_column (de_list de_paired) "paired_squads" (sq_paired_squads r) in
  Ok (mkSquad id (sq_name r) (sq_icon_url r) channels (sq_kind r) paired_squads (sq_visibility r)
        commons_tags (sq_created_at_ms r) (sq_updated_at_ms r)).

(** The row of [upsert_squad_inner]; serializing strings and integers cannot fail. *)
Definition squad_sql_row (row : SquadRow) : SquadSqlRow :=
  mkSquadRow (s_name row) (s_icon_url row) (s_kind row) (s_visibility row)
    ((λ tags, to_text (JArr (JStr <$> tags))) <$> s_commons_tags row)
    ((λ ps, to_text (JArr (ser_paired <$> ps))) <$> s_paired_squads row)
    (to_text (JArr (ser_channel <$> s_channels row)))
    (s_created_at_ms row) (s_updated_at_ms row).

Definition squads (d : Db) : gmap string SquadSqlRow := dv_squads (db_device d).

(** [ON CONFLICT(id) DO UPDATE] leaves [created_at_ms]. *)
Definition upsert_squad_row (row : SquadRow) (m : gmap string SquadSqlRow) : gmap string SquadSqlRow :=
  let r := squad_sql_row row in
  <[s_id row :=
      match m !! s_id row with
      | Some old => mkSquadRow (sq_name r) (sq_icon_url r) (sq_kind r) (sq_visibility r)
                      (sq_commons_tags r) (sq_paired_squads r) (sq_channels r)
                      (sq_created_at_ms old) (sq_updated_at_ms r)
      | None => r
      end]> m.

Definition upsert_squad_inner (row : SquadRow) : Act unit :=
  exec_ (λ e, "Failed to upsert squad: " +:+ e) (set_device (put_squads (upsert_squad_row row))).

Definition squad_key (x : string * SquadSqlRow) : Z * string := (sq_created_at_ms x.2, x.1).

(** Malformed rows are logged and skipped. *)
Definition readable_rows (m : gmap string SquadSqlRow) : list SquadRow :=
  omap (λ x, res_ok (row_from_query x.1 x.2)) (order_by_ms squad_key (map_to_list m)).

Definition list_squads_inner : Act (list SquadRow) :=
  let! _ := query (λ e, "Failed to prepare list squads: " +:+ e) (λ _, tt) in
  query (λ e, "Failed to list squads: " +:+ e) (λ d, readable_rows (squads d)).

Definition get_squad_inner (parent_id : string) : Act (option SquadRow) :=
  let pid := trim parent_id in
  if decide (pid = "") then mret None
  else
    let! row := query (λ e, "Failed to read squad: " +:+ e) (λ d, squads d !! pid) in
    match row with
    | None => mret None
    | Some r => let! row := of_result (row_from_query pid r) in mret (Some row)
    end.

(** ** Deleting *)

(** [join_inbox.rs]; the migrations have created both tables. *)
Definition table_exists : Act bool := query id (λ _, true).

Definition delete_join_inbox_rows (parent_id : string) : Act unit :=
  let pid := trim parent_id in
  if decide (pid = "") then mret tt
  else
    let! meta := table_exists in
    if negb meta then mret tt
    else
      let! secret := table_exists in
      if negb secret then mret tt
      else
        exec_ (λ e, "Failed to delete join_inbox_secret: " +:+ e)
          (set_device (put_join_secret (delete pid))) ;!
        exec_ (λ e, "Failed to delete join_inbox_meta: " +:+ e)
          (set_device (put_join_meta (delete pid))).

Definition delete_squad_inner (parent_id : string) : Act unit :=
  let pid := trim parent_id in
  if decide (pid = "") then mthrow "parentId must be non-empty"
  else
    let! squad := get_squad_inner pid in
    let channel_ids := match squad with Some row => ch_group_id <$> s_channels row | None => [] end in
    exec_ (λ e, "Failed to delete squad_member_evm_account: " +:+ e)
      (set_device (put_member_evm_account (filter (λ x, x.1.1 ≠ pid)))) ;!
    exec_ (λ e, "Failed to delete squad_member_evm: " +:+ e)
      (set_device (put_member_evm (filter (λ x, x.1.1 ≠ pid)))) ;!
    delete_join_inbox_rows pid ;!
    exec_ (λ e, "Failed to delete squad: " +:+ e) (set_device (put_squads (delete pid))) ;!
    let! _ := attempt (delete_entries_for_chats channel_ids) in
    mret tt.

(** ** Commands *)

Definition list_squads : Act (list SquadRow) := with_conn list_squads_inner.
Definition get_squad (parent_id : string) : Act (option SquadRow) :=
  with_conn (get_squad_inner parent_id).

Definition set_name (name : string) (u : SquadUpsert) : SquadUpsert :=
  mkUpsert (u_id u) name (u_icon_url u) (u_channels u) (u_kind u) (u_paired_squads u)
    (u_visibility u) (u_commons_tags u) (u_created_at_ms u) (u_updated_at_ms u).
Definition set_created (t : Z) (row : SquadRow) : SquadRow :=
  mkSquad (s_id row) (s_name row) (s_icon_url row) (s_channels row) (s_kind row)
    (s_paired_squads row) (s_visibility row) (s_commons_tags row) t (s_updated_at_ms row).

Definition upsert_squad (squad : SquadUpsert) : Act SquadRow :=
  require_key_derivation_version_2_on_handle ;!
  let squad := set_name (trim (u_name squad)) squad in
  if (SQUAD_NAME_MAX_LENGTH <? String.length (u_name squad))%nat
  then mthrow ("Squad name must be at most " +:+ pretty (Z.of_nat SQUAD_NAME_MAX_LENGTH) +:+ " characters")
  else
    let! row := prepare_row squad in
    get_db_connection ;!
    let! existing := get_squad_inner (s_id row) in
    let row := match existing with
               | Some e => set_created (s_created_at_ms e) row
               | None => row
               end in
    upsert_squad_inner row ;!
    let! saved := get_squad_inner (s_id row) in
    of_result (ok_or saved "Squad missing after upsert").

Definition delete_squad (parent_id : string) : Act unit :=
  require_key_derivation_version_2_on_handle ;!
  get_db_connection ;!
  delete_squad_inner parent_id.
End catalog.
