(* ===== verification/CatchUpCommands.v ===== *)
(** * The Catch up commands ([catch_up.rs])

    Listing, counting and clearing: a message entry is cleared by marking its chat
    as read, every other entry by itself. *)

From S2P Require Import Prelude World Json Chat Notification Schema Records CatchUp ReadState SquadCatalog.

Section commands.
Context `{SerdeText, SerdeErrors}.

Definition resolve_squad_chat_ids (squad_id : option string) : Act (option (list string)) :=
  match squad_id with
  | None => mret None
  | Some sid =>
      let! squad := get_squad_inner sid in
      mret (Some (match squad with Some s => ch_group_id <$> s_channels s | None => [] end))
  end.

Definition parse_kind_filter (kind : option string) : result (option CatchUpKind) :=
  match kind with
  | None => Ok None
  | Some k =>
      match CatchUpKind_from_db_str k with
      | Some k => Ok (Some k)
      | None => Err ("Unknown catch up kind: " +:+ k)
      end
  end.

Definition filtered_entries (kind squad_id : option string) : Act (list CatchUpEntry) :=
  let! parsed_kind := of_result (parse_kind_filter kind) in
  let! chat_ids := resolve_squad_chat_ids squad_id in
  list_unresolved_entries parsed_kind chat_ids.

Definition list_catch_up_entries (kind squad_id : option string) : Act (list CatchUpEntry) :=
  with_conn (filtered_entries kind squad_id).

Definition entry_counts_toward_badge (chats : list Chat) (chat_id : string) : bool :=
  match get_chat chats chat_id with
  | Some c => negb (bool_decide (c_notification_level c = Nothing))
  | None => true
  end.

Definition catch_up_count : Act nat :=
  let! entries := with_conn (list_unresolved_entries None None) in
  modify (λ d,
    (length (filter (λ e, entry_counts_toward_badge (st_chats d) (cu_chat_id e.2) = true) entries), d)).

Definition resolve_catch_up_entry (source_event_id : string) : Act bool :=
  let! entry := with_conn (get_entry source_event_id) in
  match entry with
  | None => mret false
  | Some entry =>
      if negb (is_open entry) then mret false
      else if message_kind (cu_kind entry) then
        let! _ := mark_as_read (cu_chat_id entry) None in
        mret true
      else with_conn (resolve_entry source_event_id)
  end.

(** The chats of the listed message entries, once each (a hash set: their order is
    not specified), and the other sources. *)
Definition message_chat_ids (entries : list CatchUpEntry) : list string :=
  remove_dups ((λ e, cu_chat_id e.2) <$> filter (λ e, message_kind (cu_kind e.2) = true) entries).
Definition other_source_ids (entries : list CatchUpEntry) : list string :=
  (filter (λ e, message_kind (cu_kind e.2) = false) entries).*1.

Definition resolve_all_catch_up_entries (kind squad_id : option string) : Act nat :=
  let! entries := with_conn (filtered_entries kind squad_id) in
  foldM (λ _ chat_id, let! _ := mark_as_read chat_id None in mret tt) tt (message_chat_ids entries) ;!
  (match other_source_ids entries with
   | [] => mret tt
   | sources =>
       get_db_connection ;!
       foldM (λ _ source, let! _ := attempt (resolve_entry source) in mret tt) tt sources
   end) ;!
  mret (length entries).
End commands.
