(* ===== verification/Reminders.v ===== *)
(** * Event reminders ([squad_event_reminders.rs], [notification/emit.rs])

    A scan reconciles the event replica into [squad_event_reminders], one row per
    event and fire time, in one transaction: due reminders become [fired] rows and
    are returned for delivery, those that came due before this unlock become
    Catch up entries. *)

From S2P Require Import Prelude World Json Chat Notification Schema Records CivilTime CatchUp.

Definition DEFAULT_LEAD_MINUTES : Z := 15.
Definition MAX_LEAD_MINUTES : Z := 10080.
Definition REMINDER_DUE_EVENT : string := "squad_event_reminder_due".
Definition START_GRACE_MS : Z := 60000.
Definition ALL_DAY_REMINDER_HOUR : Z := 9.
Definition NIP52_ALL_DAY : Z := 31922.
Definition NIP52_TIMED : Z := 31923.

Record SquadEventReminderPrefs : Type := mkPrefs { lead_minutes : Z; muted : bool }.
Definition prefs_default : SquadEventReminderPrefs := mkPrefs DEFAULT_LEAD_MINUTES false.

Record SquadEventReminderDue : Type := mkDue {
  due_event_id : string;
  due_parent_id : string;
  due_mls_group_id : string;
  due_title : string;
  due_start_unix : option Z;
  due_start_date : option string;
  due_start_tzid : string;
}.

Inductive FireState : Type := Scheduled | Fired | Missed | Dropped.

#[export] Instance FireState_eq_dec : EqDecision FireState.
Proof. solve_decision. Defined.

Definition FireState_as_db_str (s : FireState) : string :=
  match s with
  | Scheduled => "scheduled"
  | Fired => "fired"
  | Missed => "missed"
  | Dropped => "dropped"
  end.

Definition FireState_from_db_str (value : string) : option FireState :=
  if decide (value = "scheduled") then Some Scheduled
  else if decide (value = "fired") then Some Fired
  else if decide (value = "missed") then Some Missed
  else if decide (value = "dropped") then Some Dropped
  else None.

Record ReminderSource : Type := mkSource {
  src_event_id : string;
  src_parent_id : string;
  src_mls_group_id : string;
  src_nip52_kind : Z;
  src_title : string;
  src_start_unix : option Z;
  src_start_date : option string;
  src_start_tzid : string;
  src_active : bool;
  src_in_group : bool;
  src_my_rsvp : option string;
  src_lead_minutes : Z;
  src_muted : bool;
}.

Section source.
Context `{Chrono}.

Definition start_at_ms (src : ReminderSource) : option Z :=
  if src_nip52_kind src =? NIP52_TIMED then (λ s, wrap64 (s * 1000)) <$> src_start_unix src
  else if src_nip52_kind src =? NIP52_ALL_DAY then
    date ← src_start_date src;
    let tzid := if decide (src_start_tzid src = "") then None else Some (src_start_tzid src) in
    (λ s, wrap64 (s * 1000)) <$>
      res_ok (civil_date_time_to_unix date ALL_DAY_REMINDER_HOUR 0 tzid)
  else None.
End source.

Definition qualifies (src : ReminderSource) : bool :=
  src_active src && src_in_group src && negb (src_muted src) &&
  (bool_decide (src_my_rsvp src = Some "accepted") || bool_decide (src_my_rsvp src = Some "tentative")).

Definition clamp_lead (lead : Z) : Z := Z.max 0 (Z.min MAX_LEAD_MINUTES lead).

Definition desired_fire_at_ms (src : ReminderSource) (start_at_ms : option Z) : option Z :=
  if negb (qualifies src) then None
  else (λ start, wrap64 (start - clamp_lead (src_lead_minutes src) * 60000)) <$> start_at_ms.

Definition due_of (src : ReminderSource) : SquadEventReminderDue :=
  mkDue (src_event_id src) (src_parent_id src) (src_mls_group_id src) (src_title src)
    (src_start_unix src) (src_start_date src) (src_start_tzid src).

Record ScanOutcome : Type := mkScan {
  due : list SquadEventReminderDue; missed : nat; dropped : nat; resolved : nat;
}.
Definition scan_default : ScanOutcome := mkScan [] 0 0 0.

Definition add_due (d : SquadEventReminderDue) (o : ScanOutcome) : ScanOutcome :=
  mkScan (due o ++ [d]) (missed o) (dropped o) (resolved o).
Definition add_missed (o : ScanOutcome) : ScanOutcome :=
  mkScan (due o) (missed o + 1) (dropped o) (resolved o).
Definition add_dropped (n : nat) (o : ScanOutcome) : ScanOutcome :=
  mkScan (due o) (missed o) (dropped o + n) (resolved o).
Definition set_resolved (n : nat) (o : ScanOutcome) : ScanOutcome :=
  mkScan (due o) (missed o) (dropped o) n.

(** ** Preferences *)

Definition prefs (d : Db) : gmap string PrefsRow := dv_prefs (db_device d).

Definition load_prefs (event_id : string) : Act SquadEventReminderPrefs :=
  query id (λ d, match prefs d !! event_id with
                 | Some r => mkPrefs (pr_lead_minutes r) (negb (pr_muted r =? 0))
                 | None => prefs_default
                 end).

Definition save_prefs (event_id : string) (lead : Z) (mute : bool) : Act unit :=
  if negb ((0 <=? lead) && (lead <=? MAX_LEAD_MINUTES))
  then mthrow ("Reminder lead must be between 0 and " +:+ pretty MAX_LEAD_MINUTES +:+ " minutes")
  else exec_ id (set_device (put_prefs <[event_id := mkPrefsRow lead (if mute then 1 else 0)]>)).

(** ** Sources: the event replica joined with this member's RSVP, the prefs and
    the groups. Rows come in an order SQLite leaves open, here the table's. *)

Definition in_group (groups : list MlsGroupSqlRow) (mls_group_id : string) : bool :=
  existsb (λ g, negb (gs_evicted g) &&
    (bool_decide (gs_group_id g = mls_group_id) || bool_decide (gs_engine_group_id g = mls_group_id)))
    groups.

Definition source_of (d : Db) (my_npub event_id : string) (e : EventSqlRow) : ReminderSource :=
  let p := prefs d !! event_id in
  mkSource event_id (e_parent_id e) (e_mls_group_id e) (e_nip52_kind e) (e_title e)
    (e_start_unix e) (e_start_date e) (e_start_tzid e)
    (bool_decide (e_status e = "active"))
    (in_group (db_groups d) (e_mls_group_id e))
    (rs_status <$> db_rsvps d !! (event_id, my_npub))
    (from_option pr_lead_minutes DEFAULT_LEAD_MINUTES p)
    (negb (from_option pr_muted 0 p =? 0)).

Definition sources_of (d : Db) (my_npub : string) : list ReminderSource :=
  (λ x, source_of d my_npub x.1 x.2) <$> map_to_list (db_events d).

Definition load_sources (my_npub : string) : Act (list ReminderSource) :=
  let! _ := query id (λ _, tt) in
  query id (λ d, sources_of d my_npub).

(** ** Fire rows *)

Notation FireTable := (gmap (string * Z) FireRow).
Definition fires (d : Db) : FireTable := dv_fires (db_device d).
Definition set_fires (f : FireTable → FireTable) : Db → Db := set_device (put_fires f).

Definition fire_state (event_id : string) (fire_at_ms : Z) : Act (option FireState) :=
  query id (λ d, r ← fires d !! (event_id, fire_at_ms); FireState_from_db_str (fi_state r)).

Definition is_fired (event_id : string) (start : Z) (x : (string * Z) * FireRow) : bool :=
  bool_decide (x.1.1 = event_id) && bool_decide (fi_start_at_ms x.2 = start) &&
  bool_decide (fi_state x.2 = "fired").

Definition fired_for_start (event_id : string) (start : Z) : Act bool :=
  query id (λ d, existsb (is_fired event_id start) (map_to_list (fires d))).

Definition stored_notification_level (chat_id : string) : Act (option NotificationLevel) :=
  query id (λ d, (λ r, from_db_str (ct_notification_level r)) <$> db_chats d !! chat_id).

Definition upsert_fire (event_id : string) (fire_at_ms start : Z) (state : FireState) : Act unit :=
  exec_ id (set_fires <[(event_id, fire_at_ms) := mkFireRow start (FireState_as_db_str state)]>).

(** [UPDATE squad_event_reminders SET .. WHERE p]: the rows changed, the table. *)
Definition update_fires (p : (string * Z) * FireRow → bool) (f : FireRow → FireRow)
    (m : FireTable) : FireTable :=
  map_imap (λ k r, Some (if p (k, r) then f r else r)) m.
Definition count_fires (p : (string * Z) * FireRow → bool) (m : FireTable) : nat :=
  length (filter (λ x, p x = true) (map_to_list m)).
Definition update_fire_rows (p : (string * Z) * FireRow → bool) (f : FireRow → FireRow) : Act nat :=
  execute id (λ d, (count_fires p (fires d), set_fires (update_fires p f) d)).

Definition set_dropped (r : FireRow) : FireRow := mkFireRow (fi_start_at_ms r) "dropped".

Definition droppable (event_id : string) (keep_fire_at_ms : option Z)
    (x : (string * Z) * FireRow) : bool :=
  bool_decide (x.1.1 = event_id) && bool_decide (fi_state x.2 = "scheduled") &&
  match keep_fire_at_ms with Some k => negb (x.1.2 =? k) | None => true end.

Definition drop_scheduled (event_id : string) (keep_fire_at_ms : option Z) : Act nat :=
  update_fire_rows (droppable event_id keep_fire_at_ms) set_dropped.

(** Missed rows follow the event's new start. *)
Definition missed_elsewhere (event_id : string) (start : Z) (x : (string * Z) * FireRow) : bool :=
  bool_decide (x.1.1 = event_id) && bool_decide (fi_state x.2 = "missed") &&
  negb (fi_start_at_ms x.2 =? start).
Definition move_missed (event_id : string) (start : Z) : Act nat :=
  update_fire_rows (missed_elsewhere event_id start) (λ r, mkFireRow start (fi_state r)).

(** Open entries of missed reminders whose event has started. *)
Definition started_source (d : Db) (now_ms : Z) (x : (string * Z) * FireRow) : option string :=
  let source := event_reminder_source_id x.1.1 x.1.2 in
  if bool_decide (fi_state x.2 = "missed") && (fi_start_at_ms x.2 <=? now_ms) then
    entry ← catch_up d !! source;
    if bool_decide (cu_kind entry = CatchUpKind_as_db_str KEventReminder) && is_open entry
    then Some source else None
  else None.

Definition resolve_started (now_ms : Z) : Act nat :=
  let! _ := query id (λ _, tt) in
  let! sources := query id (λ d, omap (started_source d now_ms) (map_to_list (fires d))) in
  foldM (λ n source,
    let! hit := resolve_entry source in mret (if hit : bool then S n else n)) 0%nat sources.

(** ** The scan *)

Section scan.
Context `{Chrono, Rusqlite}.

Definition scan_source (now_ms unlocked_at_ms : Z) (out : ScanOutcome) (src : ReminderSource)
    : Act ScanOutcome :=
  let start := start_at_ms src in
  (match start with
   | Some start => let! _ := move_missed (src_event_id src) start in mret tt
   | None => mret tt
   end) ;!
  let desired := desired_fire_at_ms src start in
  let! n := drop_scheduled (src_event_id src) desired in
  let out := add_dropped n out in
  match desired, start with
  | Some fire, Some start =>
      if wrap64 (start + START_GRACE_MS) <=? now_ms then mret out
      else
        let! prior := fire_state (src_event_id src) fire in
        if bool_decide (prior = Some Fired) || bool_decide (prior = Some Missed) then mret out
        else if now_ms <? fire then
          upsert_fire (src_event_id src) fire start Scheduled ;! mret out
        else if bool_decide (prior = Some Scheduled) && (fire <? unlocked_at_ms) then
          if now_ms <? start then
            let! _ := record_missed_event_reminder (src_mls_group_id src) (src_event_id src) fire in
            upsert_fire (src_event_id src) fire start Missed ;!
            mret (add_missed out)
          else upsert_fire (src_event_id src) fire start Dropped ;! mret out
        else
          let! done := fired_for_start (src_event_id src) start in
          if done : bool then mret out
          else upsert_fire (src_event_id src) fire start Fired ;! mret (add_due (due_of src) out)
  | _, _ => mret out
  end.

Definition orphaned (d : Db) (x : (string * Z) * FireRow) : bool :=
  bool_decide (fi_state x.2 = "scheduled") && bool_decide (db_events d !! x.1.1 = None).

Definition drop_orphans : Act nat :=
  execute id (λ d, (count_fires (orphaned d) (fires d),
                    set_fires (update_fires (orphaned d) set_dropped) d)).

Definition forget_started (now_ms : Z) : Act unit :=
  exec_ id (set_fires (filter (λ x, now_ms < fi_start_at_ms x.2 + START_GRACE_MS))).

Definition run_scan (my_npub : string) (now_ms unlocked_at_ms : Z) : Act ScanOutcome :=
  let! sources := load_sources my_npub in
  tx id id
    (let! out := foldM (scan_source now_ms unlocked_at_ms) scan_default sources in
     let! n := drop_orphans in
     let out := add_dropped n out in
     let! r := resolve_started now_ms in
     let out := set_resolved r out in
     forget_started now_ms ;!
     mret (out, true)).
End scan.

(** ** Delivery *)

(** [chrono]'s formatting of an instant in the system zone; [None] out of range. *)
Class ChronoLocal : Type := { local_format : Z → string → option string }.

Section delivery.
Context `{Chrono, ChronoLocal, Rusqlite}.

Definition format_start (d : SquadEventReminderDue) : string :=
  match due_start_unix d ≫= λ unix, local_format unix "%a %b %-d, %H:%M" with
  | Some t => "starts " +:+ t
  | None =>
      let date := default "" (due_start_date d) in
      match nd_parse date DATE_FORMAT with
      | Some nd => "all day " +:+ nd_format nd "%a %b %-d"
      | None => "all day " +:+ date
      end
  end.

Definition banner_for (d : SquadEventReminderDue) : SingleEventNotification :=
  mkSingle "Event reminder" (due_title d +:+ " — " +:+ format_start d).

Definition due_json (d : SquadEventReminderDue) : json :=
  JObj [("eventId", JStr (due_event_id d)); ("parentId", JStr (due_parent_id d));
        ("mlsGroupId", JStr (due_mls_group_id d)); ("title", JStr (due_title d));
        ("startUnix", json_opt JNum (due_start_unix d));
        ("startDate", json_opt JStr (due_start_date d));
        ("startTzid", JStr (due_start_tzid d))].

(** Whether the main window has the focus: one more reading of the input list. *)
Definition window_focused : Act bool := let! r := now in mret (negb (r =? 0)).

Definition emit_event_reminder (level : NotificationLevel) (in_app_event : string)
    (in_app_payload : json) (banner : SingleEventNotification) : Act ReminderDelivery :=
  let! focused := window_focused in
  let delivery := reminder_delivery level focused in
  (match delivery with
   | InApp => let! _ := attempt (send id (Emit in_app_event in_app_payload)) in mret tt
   | Banner => let! _ := attempt (send id (ShowBanner (sn_title banner) (sn_body banner))) in mret tt
   | Silent => mret tt
   end) ;!
  mret delivery.

(** The level of the loaded chat, or else the stored one. *)
Definition level_for (chats : list Chat) (d : SquadEventReminderDue)
    (stored : option NotificationLevel) : option NotificationLevel :=
  match get_chat chats (due_mls_group_id d) with
  | Some c => Some (c_notification_level c)
  | None => stored
  end.

Definition deliver_one (shown : nat) (x : SquadEventReminderDue * option NotificationLevel)
    : Act nat :=
  match x.2 with
  | None => mret shown
  | Some level =>
      let! delivery := emit_event_reminder level REMINDER_DUE_EVENT (due_json x.1) (banner_for x.1) in
      mret (if bool_decide (delivery = Silent) then shown else S shown)
  end.

Definition deliver (due : list SquadEventReminderDue) (stored : list (option NotificationLevel))
    : Act nat :=
  match due with
  | [] => mret 0%nat
  | _ =>
      let! levels := modify (λ d, (zip_with (level_for (st_chats d)) due stored, d)) in
      foldM deliver_one 0%nat (zip due levels)
  end.

(** [collect::<Result<Vec<_>, _>>()] of the stored levels. *)
Definition stored_levels (due : list SquadEventReminderDue)
    : Act (list (option NotificationLevel)) :=
  foldM (λ acc d, let! l := stored_notification_level (due_mls_group_id d) in mret (acc ++ [l]))
    [] due.

Definition reminder_now_ms : Act Z := let! t := now in mret (if t <? 0 then 0 else wrap64 t).

(** The scan, then the stored levels; a failure of either ends here. *)
Definition scan_connected (npub : string) (unlocked_at_ms : Z) : Act unit :=
  let! t := reminder_now_ms in
  let! scanned := attempt
    (let! outcome := run_scan npub t unlocked_at_ms in
     let! stored := stored_levels (due outcome) in
     mret (outcome, stored)) in
  match scanned with
  | Err _ => mret tt
  | Ok (outcome, stored) =>
      (if (0 <? missed outcome + resolved outcome)%nat then emit_catch_up_changed else mret tt) ;!
      let! _ := deliver (due outcome) stored in
      mret tt
  end.

(** One scan and its delivery, under [SCAN_LOCK]. *)
Definition scan_and_deliver (unlocked_at_ms : Z) : Act unit :=
  let! npub := attempt get_current_account in
  match npub with
  | Err _ => mret tt
  | Ok npub =>
      (* [get_database_path] and [Path::exists] *)
      let! ready := attempt (query id (λ _, tt)) in
      match ready with
      | Err _ => mret tt
      | Ok _ =>
          let! conn := attempt get_db_connection in
          match conn with
          | Err _ => mret tt
          | Ok _ => scan_connected npub unlocked_at_ms
          end
      end
  end.

(** ** Commands; [unlocked_at_ms] is the session's [reminder_unlocked_at_ms()]. *)

Definition get_squad_event_reminder_prefs (event_id : string) : Act SquadEventReminderPrefs :=
  with_conn (load_prefs event_id).

Definition notify_resolved (n : nat) : Act unit :=
  if (0 <? n)%nat then emit_catch_up_changed else mret tt.

Definition set_squad_event_reminder_prefs (unlocked_at_ms : option Z) (event_id : string)
    (lead : Z) (mute : bool) : Act unit :=
  let! saved := with_conn
    (save_prefs event_id lead mute ;!
     if mute then resolve_event_reminder_entries event_id else mret 0%nat) in
  notify_resolved saved ;!
  match unlocked_at_ms with
  | Some t => scan_and_deliver t
  | None => mret tt
  end.

Definition resolve_squad_event_reminder_catch_up (event_id : string) : Act unit :=
  let! resolved := with_conn (resolve_event_reminder_entries event_id) in
  notify_resolved resolved.
End delivery.
