(* ===== verification/EvmRead.v ===== *)
(** * Reading the chain ([evm/], the part access control needs)

    Addresses ([rpc/address.rs], [evm_keys.rs]), the address book with its
    environment overrides ([pacto_chain_config.rs]), networks
    ([wallet_chain_config.rs], [gov_read.rs]), and the deployments of the governance
    registries ([nave_pirata_read.rs], [sponsor_userop.rs]). The contracts, alloy's
    parsers and hashes and the process environment are classes. A contract read is
    one call that may fail; its answer depends on one more reading of the world's
    input list: the block, and the provider that served it. *)

From Stdlib Require Import Ascii.
From S2P Require Import Prelude World Json Schema Records.

(** ** Addresses *)

(** An [Address] or [U256] is the number its big-endian bytes spell. *)
Notation Address := Z (only parsing).

Definition nibble_value (a : ascii) : option Z :=
  let c := Z.of_N (code a) in
  if (48 <=? c) && (c <=? 57) then Some (c - 48)
  else if (97 <=? c) && (c <=? 102) then Some (c - 87)
  else if (65 <=? c) && (c <=? 70) then Some (c - 55)
  else None.

Fixpoint hex_value (s : string) (acc : Z) : option Z :=
  match s with
  | EmptyString => Some acc
  | String a s' => d ← nibble_value a; hex_value s' (acc * 16 + d)
  end.

Definition all_hex (s : string) : bool :=
  forallb (λ a, bool_decide (is_Some (nibble_value a))) (String.list_ascii_of_string s).

(** [strip_prefix("0x").or_else(strip_prefix("0X")).unwrap_or(t)] *)
Definition strip_0x (t : string) : string :=
  match t with
  | String "0" (String "x" h) => h
  | String "0" (String "X" h) => h
  | _ => t
  end.

Definition parse_address (s : string) : result Address :=
  let h := strip_0x (trim s) in
  if negb (String.length h =? 40)%nat || negb (all_hex h) then Err "invalid EVM address"
  else ok_or (hex_value h 0) "invalid EVM address".

Definition normalize_hex_address (s : string) : option string :=
  let h := strip_0x (trim s) in
  if negb (String.length h =? 40)%nat then None
  else if negb (all_hex h) then None
  else Some ("0x" +:+ to_ascii_lowercase h).

(** [{:#x}] of an address: forty lower-case digits. *)
Definition nibble (d : Z) : ascii :=
  ascii_of_N (Z.to_N (if d <? 10 then 48 + d else 87 + d)).
Fixpoint hex_fixed (k : nat) (n : Z) (acc : string) : string :=
  match k with
  | O => acc
  | S k' => hex_fixed k' (n / 16) (String (nibble (n `mod` 16)) acc)
  end.
Definition address_hex (a : Address) : string := "0x" +:+ hex_fixed 40 a "".

(** ** Errors of the wallet *)

Section errors.
Context `{SerdeText}.

Definition wallet_err_json (code message : string) (npub : option string) : string :=
  to_text (JObj (obj_fields [("code", Some (JStr code)); ("message", Some (JStr message));
                             ("npub", JStr <$> npub); ("txHash", None)])).
End errors.

(** ** The address book *)

(** [std::env::var(..).ok()] *)
Class ProcessEnv : Type := { env_var : string → option string }.

Record PactoGovBook : Type := mkBook {
  bk_nave_pirata_factory : string;
  bk_nave_pirata_registry : option string;
  bk_war_game_registry : option string;
  bk_master_quartermaster : string;
  bk_master_mutiny : string;
  bk_master_treasury_authority : string;
  bk_master_squad_admin_impl : string;
  bk_master_squad_admin_ext_impl : string;
  bk_hats : option string;
}.

(** [pacto-protocol-addresses.json], embedded at compile time; it has one network. *)
Definition SEPOLIA_BOOK : PactoGovBook :=
  mkBook "0x309A529D1735Fd0c416ae42c1d1A587bF464706E"
    (Some "0x36e32e1f2769B0CF873bFaf5C1BFb8d4e087DC00")
    (Some "0x2E4FcF4eB0bA0Dfb98FF32986faB6AF29C8A7918")
    "0x9e59f3CF6133e463D405103c90cd8a35A1303494"
    "0xCe1F9f762c5aBb61bCB6314d78fc4771E41741C3"
    "0xAec45353181B5abEd911C164a4C9D29fE94b4eEa"
    "0x1c73468dd2b0A23Bb9288090F8d89347530754b8"
    "0x34e458883a7FbD94094c25A4eCEDa27BE9e02c72"
    (Some "0x3bc1A0Ad72417f2d411118085256fC53CBdDd137").
Definition book_for (net_key : string) : option PactoGovBook :=
  if decide (net_key = "sepolia") then Some SEPOLIA_BOOK else None.

Definition upper_ascii (a : ascii) : ascii :=
  if (97 <=? code a)%N && (code a <=? 122)%N then ascii_of_N (code a - 32) else a.
Fixpoint net_suffix (net_key : string) : string :=
  match net_key with
  | EmptyString => EmptyString
  | String a s => String (if decide (a = "-"%char) then "_"%char else upper_ascii a) (net_suffix s)
  end.

Definition parse_book_addr (raw : string) : result Address := parse_address (trim raw).

Record PactoGovDeployAddresses : Type := mkAddrs {
  ad_nave_pirata_factory : Address;
  ad_master_quartermaster : Address;
  ad_master_mutiny : Address;
  ad_master_treasury_authority : Address;
  ad_master_squad_admin_impl : Address;
  ad_master_squad_admin_ext_impl : Address;
  ad_nave_pirata_registry : option Address;
  ad_war_game_registry : option Address;
  ad_hats : option Address;
}.

Section book.
Context `{ProcessEnv}.

Definition env_addr_primary_or_net (primary net_key : string) : result Address :=
  let suffixed := primary +:+ "_" +:+ net_suffix net_key in
  match env_var suffixed with
  | Some s => parse_address (trim s)
  | None =>
      match env_var primary with
      | Some s => parse_address (trim s)
      | None => Err ("Set " +:+ suffixed +:+ " or " +:+ primary +:+ " to a 0x address.")
      end
  end.

Definition env_addr_optional (primary net_key : string) : option Address :=
  res_ok (env_addr_primary_or_net primary net_key).

Definition resolve_required (env_primary net_key : string) (book_value : option string)
    (label : string) : result Address :=
  match env_addr_primary_or_net env_primary net_key with
  | Ok addr => Ok addr
  | Err _ =>
      match book_value with
      | Some raw => parse_book_addr raw
      | None => Err ("Missing " +:+ label +:+ " for network `" +:+ net_key +:+
                     "`. Add it to src/lib/evm/pacto-protocol-addresses.json or set " +:+
                     env_primary +:+ ".")
      end
  end.

Definition resolve_optional (env_primary net_key : string) (book_value : option string)
    : option Address :=
  match env_addr_optional env_primary net_key with
  | Some addr => Some addr
  | None => raw ← book_value; res_ok (parse_book_addr raw)
  end.

Definition pacto_gov_deploy_addresses (net_key : string) : result PactoGovDeployAddresses :=
  let book := book_for net_key in
  let? nave_pirata_factory := resolve_required "PACTO_NAVE_PIRATA_FACTORY" net_key
    (bk_nave_pirata_factory <$> book) "navePirataFactory" in
  let? master_quartermaster := resolve_required "PACTO_NAV_MASTER_QUARTERMASTER" net_key
    (bk_master_quartermaster <$> book) "masterQuartermaster" in
  let? master_mutiny := resolve_required "PACTO_NAV_MASTER_MUTINY" net_key
    (bk_master_mutiny <$> book) "masterMutiny" in
  let? master_treasury_authority := resolve_required "PACTO_NAV_MASTER_TREASURY_AUTHORITY" net_key
    (bk_master_treasury_authority <$> book) "masterTreasuryAuthority" in
  let? master_squad_admin_impl := resolve_required "PACTO_NAV_MASTER_SQUAD_ADMIN" net_key
    (bk_master_squad_admin_impl <$> book) "masterSquadAdminImpl" in
  let? master_squad_admin_ext_impl := resolve_required "PACTO_NAV_MASTER_SQUAD_ADMIN_EXT" net_key
    (bk_master_squad_admin_ext_impl <$> book) "masterSquadAdminExtImpl" in
  Ok (mkAddrs nave_pirata_factory master_quartermaster master_mutiny master_treasury_authority
        master_squad_admin_impl master_squad_admin_ext_impl
        (resolve_optional "PACTO_NAVE_PIRATA_REGISTRY" net_key (book ≫= bk_nave_pirata_registry))
        (resolve_optional "PACTO_WAR_GAME_REGISTRY" net_key (book ≫= bk_war_game_registry))
        (resolve_optional "PACTO_HATS" net_key (book ≫= bk_hats))).
End book.

(** ** Networks *)

Definition NETWORK_KEYS : list string := ["mainnet"; "arbitrum"; "sepolia"; "local"].

Definition chain_id_for_key (key : string) : option Z :=
  if decide (key = "arbitrum") then Some 42161
  else if decide (key = "local") then Some 31337
  else if decide (key = "mainnet") then Some 1
  else if decide (key = "sepolia") then Some 11155111
  else None.

(** [GovReadNetwork], without the list of URLs. *)
Record GovReadNetwork : Type := mkNetwork { nw_key : string; nw_chain_id : Z }.

(** The lower case of a character outside ASCII is no character of a key, so
    lowering ASCII alone finds the same network. *)
Definition network_by_key (key : string) : option GovReadNetwork :=
  find_first (λ n, bool_decide (nw_key n = to_ascii_lowercase key))
    (omap (λ k, mkNetwork k <$> chain_id_for_key k) NETWORK_KEYS).

(** ** Contracts *)

(** A registry's [Deployment] struct. *)
Record Deployment : Type := mkDeployment {
  dp_safe : Address;
  dp_quartermaster : Address;
  dp_mutinyModule : Address;
  dp_treasuryAuthority : Address;
  dp_squadAdminProxy : Address;
  dp_captainHatId : Z;
  dp_crewHatId : Z;
  dp_squadAdminHatId : Z;
  dp_mutinyRoleHatId : Z;
  dp_quartermasterRoleHatId : Z;
  dp_treasuryAuthorityRoleHatId : Z;
  dp_deployedAt : Z;
  dp_deployer : Address;
}.

(** The deployed contracts, by network and by the view a read meets. *)
Class Contracts : Type := {
  (** [INavePirataRegistry::deployment(topHatId)] *)
  deployment : string → Z → Address → Z → Deployment;
  (** [IWarGameRegistry::activeTopHatId(squadId)] and [active(squadId)] *)
  activeTopHatId : string → Z → Address → Z → Z;
  active : string → Z → Address → Z → Deployment;
  (** [IHats::isWearerOfHat(user, hatId)] *)
  isWearerOfHat : string → Z → Address → Address → Z → bool;
  (** [ISquadAdminBase::isExecutorFullPermission] and [isExecutorPaused] *)
  isExecutorFullPermission : string → Z → Address → Address → bool;
  isExecutorPaused : string → Z → Address → Address → bool;
}.

(** Alloy's [U256::from_str_radix], [B256::from_str(..).ok()] and [keccak256], numbers
    for words. *)
Class Alloy : Type := {
  from_str_radix : string → Z → result Z;
  B256_from_str : string → option Z;
  keccak256 : string → Z;
}.

(** A word printed in decimal reads back. *)
Class AlloyLaws `{Alloy} : Prop :=
  from_str_radix_decimal : ∀ n, 0 ≤ n < 2 ^ 256 → from_str_radix (pretty n) 10 = Ok n.

(** [eth_call_decode]; [err] maps its error. *)
Definition eth_call_decode {A} (err : string → string) (f : Z → A) : Act A :=
  let! view := now in
  query err (λ _, f view).

(** [str::trim_start_matches]: as often as the pattern is there. *)
Fixpoint trim_start_0x (s : string) : string :=
  match s with
  | String "0" (String "x" s') => trim_start_0x s'
  | _ => s
  end.
Fixpoint trim_start_0X (s : string) : string :=
  match s with
  | String "0" (String "X" s') => trim_start_0X s'
  | _ => s
  end.

Section chain.
Context `{SerdeText, Alloy, Contracts, ProcessEnv}.

Definition connect_gov_read_provider (network : string) : Act GovReadNetwork :=
  match network_by_key network with
  | None => mthrow (wallet_err_json "UNSUPPORTED_NETWORK" ("Unknown network: " +:+ network) None)
  | Some net => query id (λ _, net)
  end.

Definition parse_top_hat_id (raw : string) : result Z :=
  let s := trim raw in
  if decide (s = "") then Err "top_hat_id must be non-empty"
  else if starts_with "0x" s || starts_with "0X" s then
    map_err_with (λ e, "invalid hex top_hat_id: " +:+ e)
      (from_str_radix (trim_start_0X (trim_start_0x s)) 16)
  else
    map_err_with (λ e, "invalid decimal top_hat_id: " +:+ e) (from_str_radix s 10).

Record NavePirataDeploymentDto : Type := mkDeploymentDto {
  dd_chain : string;
  dd_chain_id : Z;
  dd_top_hat_id : string;
  dd_safe : string;
  dd_quartermaster : string;
  dd_mutiny_module : string;
  dd_treasury_authority : string;
  dd_squad_admin_proxy : string;
  dd_captain_hat_id : string;
  dd_crew_hat_id : string;
  dd_squad_admin_hat_id : string;
  dd_mutiny_role_hat_id : string;
  dd_quartermaster_role_hat_id : string;
  dd_treasury_authority_role_hat_id : string;
  dd_deployed_at : Z;
  dd_deployer : string;
}.

(** The record both [.._to_dto] functions build. *)
Definition dto_of (chain : string) (chain_id top_hat : Z) (d : Deployment)
    : NavePirataDeploymentDto :=
  mkDeploymentDto chain chain_id (pretty top_hat) (address_hex (dp_safe d))
    (address_hex (dp_quartermaster d)) (address_hex (dp_mutinyModule d))
    (address_hex (dp_treasuryAuthority d)) (address_hex (dp_squadAdminProxy d))
    (pretty (dp_captainHatId d)) (pretty (dp_crewHatId d)) (pretty (dp_squadAdminHatId d))
    (pretty (dp_mutinyRoleHatId d)) (pretty (dp_quartermasterRoleHatId d))
    (pretty (dp_treasuryAuthorityRoleHatId d)) (dp_deployedAt d) (address_hex (dp_deployer d)).

Definition deployment_to_dto (chain : string) (chain_id top_hat : Z) (d : Deployment)
    : result NavePirataDeploymentDto :=
  if dp_safe d =? 0 then
    Err (wallet_err_json "DEPLOYMENT_NOT_FOUND" "no registry deployment for this top hat id" None)
  else Ok (dto_of chain chain_id top_hat d).

Definition war_game_deployment_to_dto (chain : string) (chain_id top_hat : Z) (d : Deployment)
    : option NavePirataDeploymentDto :=
  if dp_safe d =? 0 then None else Some (dto_of chain chain_id top_hat d).

Definition read_nave_pirata_deployment (net : GovReadNetwork) (registry : Address) (top_hat : Z)
    : Act NavePirataDeploymentDto :=
  let! d := eth_call_decode (λ e, wallet_err_json "REGISTRY_READ" e None)
              (λ view, deployment (nw_key net) view registry top_hat) in
  of_result (deployment_to_dto (nw_key net) (nw_chain_id net) top_hat d).

Definition read_war_game_active_deployment (net : GovReadNetwork) (registry : Address)
    (squad_id : Z) : Act (option NavePirataDeploymentDto) :=
  let! top_hat := eth_call_decode (λ e, wallet_err_json "REGISTRY_READ" e None)
                    (λ view, activeTopHatId (nw_key net) view registry squad_id) in
  if top_hat =? 0 then mret None
  else
    let! d := eth_call_decode (λ e, wallet_err_json "REGISTRY_READ" e None)
                (λ view, active (nw_key net) view registry squad_id) in
    mret (war_game_deployment_to_dto (nw_key net) (nw_chain_id net) top_hat d).

Definition deployment_mentions_module (d : NavePirataDeploymentDto) (to : Address) : bool :=
  existsb (λ addr, addr =? to)
    (omap (λ raw, res_ok (parse_address raw))
       [dd_safe d; dd_quartermaster d; dd_mutiny_module d; dd_treasury_authority d;
        dd_squad_admin_proxy d]).

(** ** The war-game payload *)

Record WarGameUserOpContext : Type := mkWarGame { wg_game_squad_id : Z; wg_modules : list Address }.

Definition targets (ctx : WarGameUserOpContext) (to : Address) : bool :=
  existsb (λ a, a =? to) (wg_modules ctx).

Definition WAR_GAME_MODULE_KEYS : list string :=
  ["safe"; "quartermaster"; "mutinyModule"; "treasuryAuthority"; "squadAdminProxy"].

(** [v.get(key).and_then(Value::as_str)] *)
Definition get_str (key : string) (v : json) : option string :=
  x ← value_get key v; de_string x.

Definition war_game_module (v : json) (key : string) : option Address :=
  raw ← get_str key v;
  addr ← res_ok (parse_address raw);
  if addr =? 0 then None else Some addr.

Definition parse_war_game_userop_context (payload : string) : option WarGameUserOpContext :=
  v ← of_text payload;
  let status := trim (default "" (get_str "status" v)) in
  if negb (bool_decide (to_ascii_lowercase status = "active")) then None
  else
    id_raw ← get_str "gameSquadId" v;
    game_squad_id ← B256_from_str (trim id_raw);
    modules ← mapM (war_game_module v) WAR_GAME_MODULE_KEYS;
    Some (mkWarGame game_squad_id modules).

Definition squad_id_from_parent_id (parent_id : string) : Z := keccak256 (trim parent_id).
End chain.
