(* ===== verification/AccessControl.v ===== *)
(** * Access control of a squad ([evm/access_control/])

    Who may act on a squad's contracts: the account's roster address
    ([identity.rs]), the hats it wears on chain ([evaluate.rs]), and what a hat
    allows ([capability.rs]). The stack asked, production or war game, is chosen by
    a flag or, for a peer's payload, by the registry on chain. *)

From S2P Require Import Prelude World Json Schema Records EvmRead.

(** ** Capabilities ([capability.rs]) *)

Inductive GovCapability : Type :=
| ProposeTreasury | CrewVote | CaptainVote | ExecuteTreasury | StartMutiny | CastMutinyVote
| ExecuteMutiny | CaptainResign | QuartermasterMutateCrew | QuartermasterExecute
| ProposeCrewOffboard | CastCrewOffboardVote | ExecuteCrewOffboard | MutateTrackedTokens
| SquadAdminCreateRole | SquadAdminEnableExecutor | SquadAdminEnableFull.

#[export] Instance GovCapability_eq_dec : EqDecision GovCapability.
Proof. solve_decision. Defined.

Definition CAPABILITY_KEYS : list GovCapability :=
  [ProposeTreasury; CrewVote; CaptainVote; ExecuteTreasury; StartMutiny; CastMutinyVote;
   ExecuteMutiny; CaptainResign; QuartermasterMutateCrew; QuartermasterExecute;
   ProposeCrewOffboard; CastCrewOffboardVote; ExecuteCrewOffboard; MutateTrackedTokens;
   SquadAdminCreateRole; SquadAdminEnableExecutor; SquadAdminEnableFull].

Definition capability_as_str (c : GovCapability) : string :=
  match c with
  | ProposeTreasury => "proposeTreasury"
  | CrewVote => "crewVote"
  | CaptainVote => "captainVote"
  | ExecuteTreasury => "executeTreasury"
  | StartMutiny => "startMutiny"
  | CastMutinyVote => "castMutinyVote"
  | ExecuteMutiny => "executeMutiny"
  | CaptainResign => "captainResign"
  | QuartermasterMutateCrew => "quartermasterMutateCrew"
  | QuartermasterExecute => "quartermasterExecute"
  | ProposeCrewOffboard => "proposeCrewOffboard"
  | CastCrewOffboardVote => "castCrewOffboardVote"
  | ExecuteCrewOffboard => "executeCrewOffboard"
  | MutateTrackedTokens => "mutateTrackedTokens"
  | SquadAdminCreateRole => "squadAdminCreateRole"
  | SquadAdminEnableExecutor => "squadAdminEnableExecutor"
  | SquadAdminEnableFull => "squadAdminEnableFull"
  end.

Record CapabilityFlagDto : Type := mkFlag { fl_allowed : bool; fl_reason : string }.

Record SquadCapabilitiesDto : Type := mkCapabilities {
  sc_parent_id : string;
  sc_roster_address : string;
  sc_wears_captain : bool;
  sc_wears_crew : bool;
  sc_captain_is_safe : bool;
  sc_squad_admin_full : bool;
  sc_squad_admin_paused : bool;
  sc_role_label : string;
  sc_capabilities : gmap string CapabilityFlagDto;
}.

Record HatContext : Type := mkHats {
  h_roster_address : string;
  h_wears_captain : bool;
  h_wears_crew : bool;
  h_captain_is_safe : bool;
}.
Definition HatContext_default : HatContext := mkHats "" false false false.

Definition captain_reason (ctx : HatContext) : string :=
  if h_captain_is_safe ctx && negb (h_wears_captain ctx) then "Captain hat is on the Safe."
  else "Requires Captain hat.".

Definition deny_reason (capability : GovCapability) (ctx : HatContext) : string :=
  if decide (h_roster_address ctx = "") then
    match capability with
    | ExecuteTreasury | ExecuteMutiny | QuartermasterExecute | ExecuteCrewOffboard =>
        "Link a squad EVM address to sign."
    | _ => "Link a squad EVM address to act."
    end
  else
    match capability with
    | ProposeTreasury | MutateTrackedTokens => "Requires Captain or Crew hat."
    | CrewVote | StartMutiny | CastMutinyVote | ProposeCrewOffboard | CastCrewOffboardVote =>
        "Requires Crew hat."
    | CaptainVote => captain_reason ctx
    | CaptainResign | QuartermasterMutateCrew | SquadAdminCreateRole | SquadAdminEnableExecutor
    | SquadAdminEnableFull => captain_reason ctx
    | ExecuteTreasury | ExecuteMutiny | QuartermasterExecute | ExecuteCrewOffboard =>
        "Link a squad EVM address to sign."
    end.

Definition capability_allowed (capability : GovCapability) (ctx : HatContext) : bool :=
  if decide (h_roster_address ctx = "") then false
  else
    match capability with
    | ProposeTreasury | MutateTrackedTokens => h_wears_captain ctx || h_wears_crew ctx
    | CrewVote | StartMutiny | CastMutinyVote | ProposeCrewOffboard | CastCrewOffboardVote =>
        h_wears_crew ctx
    | CaptainVote | CaptainResign | QuartermasterMutateCrew | SquadAdminCreateRole
    | SquadAdminEnableExecutor | SquadAdminEnableFull => h_wears_captain ctx
    | ExecuteTreasury | ExecuteMutiny | QuartermasterExecute | ExecuteCrewOffboard => true
    end.

(** ** Tables ([db/squad.rs]) *)

(** [.map_err(..)] on a computation. *)
Definition map_err_m {A} (f : string → string) (m : Act A) : Act A :=
  let! r := attempt m in of_result (map_err_with f r).

Definition infra (d : Db) : gmap string InfraSqlRow := ev_infra (dv_evm (db_device d)).
Definition evm_accounts (d : Db) : gmap string EvmAccountRow := ev_accounts (dv_evm (db_device d)).

Definition infra_created_key (x : string * InfraSqlRow) : Z * string := (in_created_at_ms x.2, x.1).
Definition infra_updated_key (x : string * InfraSqlRow) : Z * string := (in_updated_at_ms x.2, x.1).

Definition list_squad_infra (parent_id : string) : Act (list (string * InfraSqlRow)) :=
  let pid := trim parent_id in
  if decide (pid = "") then mret []
  else
    get_db_connection ;!
    let! _ := query (λ e, "Failed to list squad_infra: " +:+ e) (λ _, tt) in
    query (λ e, "Failed to query squad_infra: " +:+ e)
      (λ d, order_by_ms infra_created_key
              (filter (λ x, in_parent_id x.2 = pid) (map_to_list (infra d)))).

Definition get_squad_member_evm_account_id (parent_id : string) (member_npub : option string)
    : Act (option string) :=
  let! member := match trimmed_opt member_npub with
                 | Some m => mret m
                 | None => get_current_account
                 end in
  let parent := trim parent_id in
  if decide (parent = "") then mret None
  else
    get_db_connection ;!
    let! id := query (λ e, "Failed to read squad_member_evm_account: " +:+ e)
      (λ d, ma_evm_account_id <$> dv_member_evm_account (db_device d) !! (parent, member)) in
    mret (s ← id; if blank s then None else Some s).

Section access.
Context `{SerdeText, Rusqlite, Alloy, Contracts, ProcessEnv}.

Definition pacto_gov_wargame_payload_for_parent (parent_id : string) : Act (option string) :=
  let pid := trim parent_id in
  if decide (pid = "") then mret None
  else
    get_db_connection ;!
    let! row := query_row (λ e, "pacto_gov_wargame payload lookup: " +:+ e) (λ d,
      match head (order_by_ms_desc infra_updated_key
                    (filter (λ x, in_parent_id x.2 = pid ∧ in_infra_type x.2 = "pacto_gov_wargame")
                       (map_to_list (infra d)))) with
      | None => Ok None
      | Some (_, r) =>
          match in_provider_payload r with
          | Some payload => Ok (Some payload)
          | None => Err (invalid_column_type 0 "provider_payload")
          end
      end) in
    mret (s ← row; if blank s then None else Some s).

(** ** The roster address ([identity.rs]) *)

Definition MISSING_PARENT : string :=
  wallet_err_json "ACL_MISSING_PARENT" "parentId is required for access control" None.

Definition resolve_acl_roster_address (parent_id : string) : Act Address :=
  let pid := trim parent_id in
  if decide (pid = "") then mthrow MISSING_PARENT
  else
    let! member := map_err_m (λ e, wallet_err_json "ACL_NO_ACCOUNT" e None) get_current_account in
    let! account_id := get_squad_member_evm_account_id pid (Some member) in
    let unbound : Act Address := mthrow (wallet_err_json "ACL_UNBOUND"
      "No squad EVM address linked for this parent; link a roster key before acting." None) in
    match account_id with
    | Some account_id =>
        get_db_connection ;!
        let! addr := query (λ e, wallet_err_json "ACL_ROSTER" e None)
                       (λ d, ea_address <$> evm_accounts d !! account_id) in
        match x ← addr; normalize_hex_address (trim x) with
        | Some a =>
            of_result (map_err_with (λ e, wallet_err_json "ACL_ROSTER" e None) (parse_address a))
        | None => unbound
        end
    | None => unbound
    end.

(** ** The stack ([evaluate.rs]) *)

Inductive GovStack : Type := Live | WarGame.

#[export] Instance GovStack_eq_dec : EqDecision GovStack.
Proof. solve_decision. Defined.

Definition from_wargame (wargame : option bool) : GovStack :=
  if default false wargame then WarGame else Live.

Definition infra_type (stack : GovStack) : string :=
  match stack with Live => "pacto_gov" | WarGame => "pacto_gov_wargame" end.

Definition stack_after_corroboration (local_targets on_chain_match : bool) : GovStack :=
  if local_targets && on_chain_match then WarGame else Live.

Definition load_gov_infra_row (parent_id : string) (stack : GovStack) : Act (string * string) :=
  let want := infra_type stack in
  let! rows := list_squad_infra parent_id in
  let! row := of_result (ok_or (find_first (λ x, bool_decide (in_infra_type x.2 = want)) rows)
    (match stack with
     | Live => wallet_err_json "ACL_NO_GOV" "Pacto Gov is not deployed for this parent" None
     | WarGame => wallet_err_json "ACL_NO_GOV" "War-game stack is not deployed for this parent" None
     end)) in
  let chain := to_ascii_lowercase (trim (in_chain row.2)) in
  let top_hat := trim (in_canonical_ref row.2) in
  if bool_decide (chain = "") || bool_decide (top_hat = "") then
    mthrow (wallet_err_json "ACL_GOV_INFRA"
      (match stack with
       | Live => "Pacto Gov infra row missing chain or top hat"
       | WarGame => "War-game infra row missing chain or top hat"
       end) None)
  else mret (chain, top_hat).

Definition deploy_addresses (network : string) : Act PactoGovDeployAddresses :=
  of_result (map_err_with (λ e, wallet_err_json "NAVE_PIRATA_CONFIG" e None)
    (pacto_gov_deploy_addresses network)).

Definition configured (code what : string) (addr : option Address) : Act Address :=
  of_result (ok_or addr
    (wallet_err_json code (what +:+ " is not configured for this network") None)).

Definition for_wargame_target_corroborated (parent_id : string) (to : Address) : Act GovStack :=
  let! payload := attempt (pacto_gov_wargame_payload_for_parent parent_id) in
  match payload ← res_ok payload ≫= id; parse_war_game_userop_context payload with
  | None => mret Live
  | Some ctx =>
      if negb (targets ctx to) then mret Live
      else
        let! row := load_gov_infra_row parent_id WarGame in
        let! addrs := deploy_addresses row.1 in
        let! registry := configured "REGISTRY_CONFIG" "PACTO_WAR_GAME_REGISTRY"
                           (ad_war_game_registry addrs) in
        let! net := connect_gov_read_provider row.1 in
        let! on_chain := read_war_game_active_deployment net registry
                           (squad_id_from_parent_id parent_id) in
        let on_chain_match := match on_chain with
                              | Some d => deployment_mentions_module d to
                              | None => false
                              end in
        mret (stack_after_corroboration true on_chain_match)
  end.

(** ** Evaluation ([evaluate.rs]) *)

Record SquadAclChain : Type := mkAclChain {
  ac_network : string;
  ac_hats : Address;
  ac_safe : Address;
  ac_captain_hat_id : Z;
  ac_crew_hat_id : Z;
  ac_squad_admin : option Address;
}.

Definition parsed_hat_id (raw : string) : Act Z :=
  of_result (map_err_with (λ e, wallet_err_json "ACL_HAT_ID" e None)
    (from_str_radix (trim raw) 10)).

Definition load_chain_context (parent_id : string) (stack : GovStack) : Act SquadAclChain :=
  let! row := load_gov_infra_row parent_id stack in
  let network := row.1 in
  let! top_hat := of_result (map_err_with (λ e, wallet_err_json "INVALID_TOP_HAT" e None)
                    (parse_top_hat_id row.2)) in
  let! addrs := deploy_addresses network in
  let! hats := configured "HATS_CONFIG" "PACTO_HATS" (ad_hats addrs) in
  let! registry := match stack with
                   | Live => configured "REGISTRY_CONFIG" "PACTO_NAVE_PIRATA_REGISTRY"
                               (ad_nave_pirata_registry addrs)
                   | WarGame => configured "REGISTRY_CONFIG" "PACTO_WAR_GAME_REGISTRY"
                                  (ad_war_game_registry addrs)
                   end in
  let! net := connect_gov_read_provider network in
  let! deployment := read_nave_pirata_deployment net registry top_hat in
  let! safe := of_result (map_err_with (λ e, wallet_err_json "ACL_SAFE" e None)
                 (parse_address (dd_safe deployment))) in
  let! captain_hat_id := parsed_hat_id (dd_captain_hat_id deployment) in
  let! crew_hat_id := parsed_hat_id (dd_crew_hat_id deployment) in
  let squad_admin := res_ok (parse_address (dd_squad_admin_proxy deployment)) in
  mret (mkAclChain network hats safe captain_hat_id crew_hat_id
          (a ← squad_admin; if a =? 0 then None else Some a)).

Definition is_wearer (net : GovReadNetwork) (hats user : Address) (hat_id : Z) : Act bool :=
  eth_call_decode (λ e, wallet_err_json "HATS_WEARER" e None)
    (λ view, isWearerOfHat (nw_key net) view hats user hat_id).

Definition role_label (ctx : HatContext) : string :=
  if decide (h_roster_address ctx = "") then "No squad EVM linked"
  else if h_wears_captain ctx && h_wears_crew ctx then "Captain + Crew"
  else if h_wears_captain ctx then "Captain"
  else if h_wears_crew ctx then "Crew"
  else if h_captain_is_safe ctx then "No hat · Safe holds captain"
  else "No on-chain hat".

Definition flag_of (ctx : HatContext) (cap : GovCapability) : CapabilityFlagDto :=
  let allowed := capability_allowed cap ctx in
  mkFlag allowed (if allowed then "" else deny_reason cap ctx).

Definition build_snapshot (parent_id : string) (ctx : HatContext)
    (squad_admin_full squad_admin_paused : bool) : SquadCapabilitiesDto :=
  let capabilities :=
    foldl (λ m cap, <[capability_as_str cap := flag_of ctx cap]> m) ∅ CAPABILITY_KEYS in
  mkCapabilities parent_id (h_roster_address ctx) (h_wears_captain ctx) (h_wears_crew ctx)
    (h_captain_is_safe ctx) squad_admin_full squad_admin_paused (role_label ctx) capabilities.

(** [eth_call_decode(..).await.unwrap_or(false)] *)
Definition read_flag (f : Z → bool) : Act bool :=
  let! r := attempt (eth_call_decode id f) in mret (default false (res_ok r)).

Definition evaluate_squad_capabilities (parent_id : string) (stack : GovStack)
    : Act SquadCapabilitiesDto :=
  let pid := trim parent_id in
  if decide (pid = "") then mthrow MISSING_PARENT
  else
    let! roster := attempt (resolve_acl_roster_address pid) in
    match roster with
    | Err _ => mret (build_snapshot pid HatContext_default false false)
    | Ok roster =>
        let! chain := load_chain_context pid stack in
        let! net := connect_gov_read_provider (ac_network chain) in
        let! wears_captain := is_wearer net (ac_hats chain) roster (ac_captain_hat_id chain) in
        let! wears_crew := is_wearer net (ac_hats chain) roster (ac_crew_hat_id chain) in
        let! safe_wears_captain :=
          is_wearer net (ac_hats chain) (ac_safe chain) (ac_captain_hat_id chain) in
        let! admin :=
          match ac_squad_admin chain with
          | Some admin =>
              let! full := read_flag (λ v, isExecutorFullPermission (nw_key net) v admin roster) in
              let! paused := read_flag (λ v, isExecutorPaused (nw_key net) v admin roster) in
              mret (full, paused)
          | None => mret (false, false)
          end in
        mret (build_snapshot pid
                (mkHats (address_hex roster) wears_captain wears_crew safe_wears_captain)
                admin.1 admin.2)
    end.

Definition require_capability (parent_id : string) (capability : GovCapability) (stack : GovStack)
    : Act unit :=
  let! snap := evaluate_squad_capabilities (trim parent_id) stack in
  let flag := sc_capabilities snap !! capability_as_str capability in
  if default false (fl_allowed <$> flag) then mret tt
  else
    let reason := default "Access denied"
                    (f ← flag; if decide (fl_reason f = "") then None else Some (fl_reason f)) in
    mthrow (wallet_err_json "ACL_DENIED" reason None).

Definition get_squad_capabilities (parent_id : string) (wargame : option bool)
    : Act SquadCapabilitiesDto :=
  evaluate_squad_capabilities (trim parent_id) (from_wargame wargame).
End access.
