(* ===== verification/SquadGovReplica.v ===== *)
(** * The governance replica ([squad_gov_replica.rs])

    Display snapshots of a squad's hats and processes, one row per squad, stack,
    round and kind, replaced by snapshots of a block at least as high. Peers'
    announcements are checked and then dropped. *)

From S2P Require Import Prelude World Json Schema Records EvmRead.

Notation GovKey := (string * string * string * string)%type.

(** [SquadGovReplicaRow]: a row with its key. *)
Notation SquadGovReplicaRow := (GovKey * GovReplicaSqlRow)%type.

Definition gov_replica (d : Db) : gmap GovKey GovReplicaSqlRow := ev_gov_replica (dv_evm (db_device d)).

(** [as i64] of the milliseconds, 0 before the epoch. *)
Definition now_ms : Act Z := let! t := now in mret (if t <? 0 then 0 else wrap64 t).

Definition normalize_stack (raw : string) : option string :=
  if decide (trim raw ∈ ["pacto_gov"; "pacto_gov_wargame"]) then Some (trim raw) else None.

Definition normalize_kind (raw : string) : option string :=
  if decide (trim raw ∈ ["hats"; "qm_pending"; "ta_proposal"; "mutiny"; "crew_offboard"])
  then Some (trim raw) else None.

(** [map.values().any(..)]: a key counts with the last of its values. *)
Definition any_value (p : json → bool) (v : json) : bool :=
  match v with
  | JObj fs => existsb (λ x, from_option p false (value_get x.1 v)) fs
  | _ => false
  end.

Definition has_content (x : json) : bool :=
  match x with
  | JNull => false
  | JObj m => negb (bool_decide (length m = 0%nat))
  | JArr a => negb (bool_decide (length a = 0%nat))
  | _ => true
  end.

Section replica.
Context `{SerdeText}.

Definition snapshot_has_content (raw : string) : bool :=
  let trimmed := trim raw in
  if bool_decide (trimmed = "") || bool_decide (trimmed = "{}") then false
  else match of_text trimmed with
       | Some v => any_value has_content v
       | None => false
       end.

(** The read of the present block is [.ok()]: a failing one is an absent row. *)
Definition upsert_if_newer (row : SquadGovReplicaRow) : Act bool :=
  if negb (snapshot_has_content (gr_snapshot_json row.2)) then mret false
  else
    let! r := attempt (query id (λ d, gr_block_number <$> gov_replica d !! row.1)) in
    let existing := default None (res_ok r) in
    if match existing with Some prev => gr_block_number row.2 <? prev | None => false end
    then mret false
    else
      exec_ (λ e, "Failed to upsert squad_gov_replica: " +:+ e)
        (set_gov_replica <[row.1 := row.2]>) ;!
      mret true.

Definition parse_process_announce (content : string) : option json :=
  parsed ← of_text (trim content);
  if decide ((x ← value_get "type" parsed; de_string x) = Some "governance_process_updated")
  then value_get "payload" parsed
  else None.

Definition maybe_upsert_from_announce (content chat_id : string) (author_npub : option string)
    : Act unit :=
  match trimmed_opt author_npub with
  | None => mret tt
  | Some author =>
      match parse_process_announce content with
      | None => mret tt
      | Some p =>
          match trimmed_opt (x ← value_get "parent_id" p; de_string x) with
          | None => mret tt
          | Some parent_id =>
              if negb (side_effect_parent_matches_chat chat_id parent_id) then mret tt
              else let! _ := is_author_mls_member_for_chat chat_id author in mret tt
          end
      end
  end.

Definition kind_key (x : SquadGovReplicaRow) : Z * string := (0, x.1.2).

Definition list_squad_gov_replica (parent_id : string) : Act (list SquadGovReplicaRow) :=
  let pid := trim parent_id in
  if decide (pid = "") then mret []
  else
    get_db_connection ;!
    let! _ := query (λ e, "Failed to list squad_gov_replica: " +:+ e) (λ _, tt) in
    query (λ e, "Failed to query squad_gov_replica: " +:+ e) (λ d,
      order_by_ms kind_key (filter (λ x, x.1.1.1.1 = pid) (map_to_list (gov_replica d)))).

Definition upsert_squad_gov_replica (parent_id stack : string) (round : option string)
    (kind : string) (block_number : Z) (tx_hash : option string) (snapshot_json : string)
    : Act bool :=
  match normalize_stack stack with
  | None => mthrow "invalid replica stack"
  | Some stack =>
      match normalize_kind kind with
      | None => mthrow "invalid replica kind"
      | Some kind =>
          let pid := trim parent_id in
          if decide (pid = "") then mthrow "parent_id required"
          else
            let! t := now_ms in
            let row := ((pid, stack, trim (default "" round), kind),
                        mkGovReplica block_number (trim (default "" tx_hash)) snapshot_json t) in
            get_db_connection ;!
            upsert_if_newer row
      end
  end.
End replica.

(** * The ledgers of sponsored fees ([db/sponsored_fees.rs])

    What a squad's sponsor and the global paymaster paid, one row per user
    operation: inserted with [INSERT OR IGNORE], listed newest first. *)

(** [SquadSponsoredFeeUsageInsert] and [GlobalSponsoredFeeUsageInsert]; the squad's
    has no lane and always a parent. *)
Record SquadSponsoredFeeUsageInsert : Type := mkSquadFee {
  sf_parent_id : string;
  sf_chain : string;
  sf_chain_id : Z;
  sf_actor_npub : string;
  sf_actor_evm : string;
  sf_amount_wei : string;
  sf_selector : string;
  sf_action : string;
  sf_target : string;
  sf_user_op_hash : string;
  sf_tx_hash : string;
}.
Record GlobalSponsoredFeeUsageInsert : Type := mkGlobalFee {
  gf_lane : string;
  gf_parent_id : option string;
  gf_chain : string;
  gf_chain_id : Z;
  gf_actor_npub : string;
  gf_actor_evm : string;
  gf_amount_wei : string;
  gf_selector : string;
  gf_action : string;
  gf_target : string;
  gf_user_op_hash : string;
  gf_tx_hash : string;
}.

Definition squad_fees (d : Db) : gmap string FeeSqlRow := ev_squad_fees (dv_evm (db_device d)).
Definition global_fees (d : Db) : gmap string FeeSqlRow := ev_global_fees (dv_evm (db_device d)).

Definition sponsored_fee_usage_row_id (user_op_hash : string) : string :=
  let h := trim user_op_hash in
  if decide (h = "") then "sfee-unknown" else "sfee-" +:+ h.
Definition global_sponsored_fee_usage_row_id (user_op_hash : string) : string :=
  let h := trim user_op_hash in
  if decide (h = "") then "gfee-unknown" else "gfee-" +:+ h.

Definition SPONSORED_FEE_USAGE_LIST_DEFAULT : Z := 50.
Definition SPONSORED_FEE_USAGE_LIST_MAX : Z := 200.

Definition clamp_sponsored_fee_usage_limit (limit : option Z) : Z :=
  Z.min (Z.max (default SPONSORED_FEE_USAGE_LIST_DEFAULT limit) 1) SPONSORED_FEE_USAGE_LIST_MAX.

(** [d.as_millis() as i64], 0 before the epoch. *)
Definition created_now : Act Z := let! t := now in mret (if t <? 0 then 0 else wrap64 t).

(** [INSERT OR IGNORE]: a row that repeats the primary key or the unique hash is
    skipped. *)
Definition insert_or_ignore (id : string) (row : FeeSqlRow) (m : gmap string FeeSqlRow)
    : gmap string FeeSqlRow :=
  if bool_decide (is_Some (m !! id)) ||
     existsb (λ x, bool_decide (fe_user_op_hash x.2 = fe_user_op_hash row)) (map_to_list m)
  then m else <[id := row]> m.

Definition insert_squad_sponsored_fee_usage_conn (row : SquadSponsoredFeeUsageInsert) : Act unit :=
  let user_op := trim (sf_user_op_hash row) in
  if decide (user_op = "") then mthrow "user_op_hash is required"
  else
    let parent := trim (sf_parent_id row) in
    if decide (parent = "") then mthrow "parent_id is required"
    else
      let! t := created_now in
      exec_ (λ e, "Failed to insert squad_sponsored_fee_usage: " +:+ e)
        (set_squad_fees (insert_or_ignore (sponsored_fee_usage_row_id user_op)
           (mkFeeRow "" (Some parent) (trim (sf_chain row)) (wrap64 (sf_chain_id row))
              (trim (sf_actor_npub row)) (trim (sf_actor_evm row)) (trim (sf_amount_wei row))
              (trim (sf_selector row)) (trim (sf_action row)) (trim (sf_target row)) user_op
              (trim (sf_tx_hash row)) t))).

Definition insert_squad_sponsored_fee_usage (row : SquadSponsoredFeeUsageInsert) : Act unit :=
  with_conn (insert_squad_sponsored_fee_usage_conn row).

Definition insert_global_sponsored_fee_usage_conn (row : GlobalSponsoredFeeUsageInsert) : Act unit :=
  let user_op := trim (gf_user_op_hash row) in
  if decide (user_op = "") then mthrow "user_op_hash is required"
  else
    let lane := trim (gf_lane row) in
    if decide (lane = "") then mthrow "lane is required"
    else
      let! t := created_now in
      exec_ (λ e, "Failed to insert global_sponsored_fee_usage: " +:+ e)
        (set_global_fees (insert_or_ignore (global_sponsored_fee_usage_row_id user_op)
           (mkFeeRow lane (trimmed_opt (gf_parent_id row)) (trim (gf_chain row))
              (wrap64 (gf_chain_id row)) (trim (gf_actor_npub row)) (trim (gf_actor_evm row))
              (trim (gf_amount_wei row)) (trim (gf_selector row)) (trim (gf_action row))
              (trim (gf_target row)) user_op (trim (gf_tx_hash row)) t))).

Definition insert_global_sponsored_fee_usage (row : GlobalSponsoredFeeUsageInsert) : Act unit :=
  with_conn (insert_global_sponsored_fee_usage_conn row).

(** A listed row: its id, and the chain id read [as u64]. *)
Definition fee_key (x : string * FeeSqlRow) : Z * string := (fe_created_at_ms x.2, fe_user_op_hash x.2).

(** [SquadSponsoredFeeUsageRow] and [GlobalSponsoredFeeUsageRow] *)
Definition listed (x : string * FeeSqlRow) : string * FeeSqlRow :=
  (x.1, mkFeeRow (fe_lane x.2) (fe_parent_id x.2) (fe_chain x.2) (fe_chain_id x.2 `mod` 2 ^ 64)
          (fe_actor_npub x.2) (fe_actor_evm x.2) (fe_amount_wei x.2) (fe_selector x.2)
          (fe_action x.2) (fe_target x.2) (fe_user_op_hash x.2) (fe_tx_hash x.2)
          (fe_created_at_ms x.2)).

(** [WHERE p ORDER BY created_at_ms DESC, user_op_hash DESC LIMIT limit] *)
Definition newest_first (p : string * FeeSqlRow → bool) (limit : Z) (m : gmap string FeeSqlRow)
    : list (string * FeeSqlRow) :=
  take (Z.to_nat limit) (order_by_ms_desc fee_key (filter (λ x, p x = true) (map_to_list m))).

Definition list_squad_sponsored_fee_usage_conn (parent_id : string) (limit : Z)
    : Act (list (string * FeeSqlRow)) :=
  let pid := trim parent_id in
  if decide (pid = "") then mret []
  else
    let! _ := query (λ e, "Failed to list squad_sponsored_fee_usage: " +:+ e) (λ _, tt) in
    query (λ e, "Failed to query squad_sponsored_fee_usage: " +:+ e)
      (λ d, listed <$> newest_first (λ x, bool_decide (fe_parent_id x.2 = Some pid)) limit (squad_fees d)).

Definition list_squad_sponsored_fee_usage (parent_id : string) (limit : option Z)
    : Act (list (string * FeeSqlRow)) :=
  with_conn (list_squad_sponsored_fee_usage_conn parent_id (clamp_sponsored_fee_usage_limit limit)).

Definition list_global_sponsored_fee_usage_conn (actor_npub : string) (limit : Z)
    : Act (list (string * FeeSqlRow)) :=
  let npub := trim actor_npub in
  if decide (npub = "") then mret []
  else
    let! _ := query (λ e, "Failed to list global_sponsored_fee_usage: " +:+ e) (λ _, tt) in
    query (λ e, "Failed to query global_sponsored_fee_usage: " +:+ e)
      (λ d, listed <$> newest_first (λ x, bool_decide (fe_actor_npub x.2 = npub)) limit (global_fees d)).

Definition list_global_sponsored_fee_usage (limit : option Z) : Act (list (string * FeeSqlRow)) :=
  let cap := clamp_sponsored_fee_usage_limit limit in
  let! actor_npub := get_current_account in
  with_conn (list_global_sponsored_fee_usage_conn actor_npub cap).
