(* ===== verification/FileNames.v ===== *)
(** * File names from peers ([message.rs], [util.rs])

    The name a received file is stored under: what is left of the sender's name, and
    the extension of a mime type. Bytes are enough, as the separators are ASCII. *)

From Stdlib Require Import Ascii.
From S2P Require Import Prelude.

Notation bytes := String.list_ascii_of_string.
Notation text := String.string_of_list_ascii.

(** ** Splitting ([str::split], [rsplit], [replace]) *)

Fixpoint take_until (p : ascii → bool) (l : list ascii) : list ascii :=
  match l with
  | [] => []
  | a :: l' => if p a then [] else a :: take_until p l'
  end.

(** The parts of [s.split(c)]; there is always at least one. *)
Fixpoint split_bytes (c : ascii) (l : list ascii) : list (list ascii) :=
  match l with
  | [] => [[]]
  | a :: l' =>
      if bool_decide (a = c) then [] :: split_bytes c l'
      else match split_bytes c l' with
           | part :: rest => (a :: part) :: rest
           | [] => [[a]]
           end
  end.
Definition split_on (c : ascii) (s : string) : list string := text <$> split_bytes c (bytes s).

Definition is_separator (a : ascii) : bool := bool_decide (a ∈ ["/"%char; "\"%char]).

(** [rsplit(..).next()]: what follows the last separator. *)
Definition last_segment (l : list ascii) : list ascii :=
  reverse (take_until is_separator (reverse l)).

Definition dot : ascii := "."%char.

(** [contains(..)] and [replace(.., "")] for the pattern of two dots. *)
Fixpoint has_dots (l : list ascii) : bool :=
  match l with
  | a :: (b :: _) as l' => (bool_decide (a = dot) && bool_decide (b = dot)) || has_dots l'
  | _ => false
  end.

Fixpoint drop_dots (l : list ascii) : list ascii :=
  match l with
  | a :: l1 =>
      match l1 with
      | b :: l2 =>
          if bool_decide (a = dot) && bool_decide (b = dot) then drop_dots l2
          else a :: drop_dots l1
      | [] => l
      end
  | [] => []
  end.

(** [while cleaned.contains("..")]; every round removes two bytes. *)
Fixpoint clean_dots (fuel : nat) (l : list ascii) : list ascii :=
  match fuel with
  | O => l
  | S fuel => if has_dots l then clean_dots fuel (drop_dots l) else l
  end.

(** ** The sender's file name *)

(** [is_char_boundary]: not before a UTF-8 continuation byte. *)
Definition is_char_boundary (l : list ascii) (i : nat) : bool :=
  match i, l !! i with
  | O, _ => true
  | _, Some a => negb ((128 <=? code a)%N && (code a <? 192)%N)
  | _, None => bool_decide (i = length l)
  end.

Fixpoint floor_boundary (l : list ascii) (end_ : nat) : nat :=
  if is_char_boundary l end_ then end_
  else match end_ with O => O | S e => floor_boundary l e end.

Definition MAX_LEN : nat := 255.

Definition sanitize_incoming_file_name (name : string) : option string :=
  let base := last_segment (bytes name) in
  let cleaned := filter (λ a, is_separator a = false) base in
  let cleaned := clean_dots (length cleaned) cleaned in
  let cleaned := bytes (trim (text cleaned)) in
  if bool_decide (cleaned = []) then None
  else if (length cleaned <=? MAX_LEN)%nat then Some (text cleaned)
  else Some (text (take (floor_boundary cleaned MAX_LEN) cleaned)).

(** ** Extensions of mime types *)

(** [str::to_lowercase], whose table is Unicode's. *)
Class UnicodeCase : Type := { to_lowercase : string → string }.

Definition MIME_TO_EXT : list (string * string) := [
  ("image/png", "png"); ("image/jpeg", "jpg"); ("image/jpg", "jpg"); ("image/gif", "gif");
   ("image/webp", "webp"); ("image/svg+xml", "svg"); ("image/bmp", "bmp");
   ("image/x-ms-bmp", "bmp"); ("image/x-icon", "ico"); ("image/vnd.microsoft.icon", "ico");
   ("image/tiff", "tiff"); ("image/x-adobe-dng", "dng"); ("image/x-canon-cr2", "cr2");
   ("image/x-nikon-nef", "nef"); ("image/x-sony-arw", "arw"); ("audio/wav", "wav");
   ("audio/x-wav", "wav"); ("audio/wave", "wav"); ("audio/mp3", "mp3"); ("audio/mpeg", "mp3");
   ("audio/flac", "flac"); ("audio/ogg", "ogg"); ("audio/mp4", "m4a"); ("audio/aac", "aac");
   ("audio/x-aac", "aac"); ("audio/x-ms-wma", "wma"); ("audio/opus", "opus");
   ("video/mp4", "mp4"); ("video/webm", "webm"); ("video/quicktime", "mov");
   ("video/x-msvideo", "avi"); ("video/x-matroska", "mkv"); ("video/x-flv", "flv");
   ("video/x-ms-wmv", "wmv"); ("video/mpeg", "mpg"); ("video/3gpp", "3gp"); ("video/ogg", "ogv");
   ("video/mp2t", "ts"); ("application/pdf", "pdf"); ("application/msword", "doc");
   ("application/vnd.openxmlformats-officedocument.wordprocessingml.document", "docx");
   ("application/vnd.ms-excel", "xls");
   ("application/vnd.openxmlformats-officedocument.spreadsheetml.sheet", "xlsx");
   ("application/vnd.ms-powerpoint", "ppt");
   ("application/vnd.openxmlformats-officedocument.presentationml.presentation", "pptx");
   ("application/vnd.oasis.opendocument.text", "odt");
   ("application/vnd.oasis.opendocument.spreadsheet", "ods");
   ("application/vnd.oasis.opendocument.presentation", "odp"); ("application/rtf", "rtf");
   ("text/plain", "txt"); ("text/markdown", "md"); ("text/csv", "csv");
   ("application/json", "json"); ("application/xml", "xml"); ("text/xml", "xml");
   ("application/x-yaml", "yaml"); ("text/yaml", "yaml"); ("application/toml", "toml");
   ("application/sql", "sql"); ("application/zip", "zip");
   ("application/x-rar-compressed", "rar"); ("application/vnd.rar", "rar");
   ("application/x-7z-compressed", "7z"); ("application/x-tar", "tar");
   ("application/gzip", "gz"); ("application/x-bzip2", "bz2"); ("application/x-xz", "xz");
   ("application/x-iso9660-image", "iso"); ("application/x-apple-diskimage", "dmg");
   ("application/vnd.android.package-archive", "apk"); ("application/java-archive", "jar");
   ("application/vnd.webxdc+zip", "xdc"); ("model/obj", "obj"); ("model/gltf+json", "gltf");
   ("model/gltf-binary", "glb"); ("model/stl", "stl"); ("application/sla", "stl");
   ("model/vnd.collada+xml", "dae"); ("text/javascript", "js"); ("application/javascript", "js");
   ("text/typescript", "ts"); ("application/typescript", "ts"); ("text/x-python", "py");
   ("application/x-python", "py"); ("text/x-rust", "rs"); ("text/x-go", "go");
   ("text/x-java", "java"); ("text/x-c", "c"); ("text/x-c++", "cpp"); ("text/x-csharp", "cs");
   ("text/x-ruby", "rb"); ("text/x-php", "php"); ("text/x-swift", "swift");
   ("text/html", "html"); ("text/css", "css"); ("application/x-msdownload", "exe");
   ("application/x-dosexec", "exe"); ("application/x-msi", "msi");
   ("application/x-font-ttf", "ttf"); ("font/ttf", "ttf"); ("application/x-font-otf", "otf");
   ("font/otf", "otf"); ("font/woff", "woff"); ("font/woff2", "woff2")].

Definition mime_to_ext (lower : string) : option string :=
  snd <$> find_first (λ p, bool_decide (p.1 = lower)) MIME_TO_EXT.

Definition extension_from_mime `{UnicodeCase} (mime : string) : string :=
  let lower := to_lowercase (trim mime) in
  match mime_to_ext lower with
  | Some ext => ext
  | None => default "bin" (split_on "/"%char lower !! 1%nat)
  end.

(** [Path::join], on Unix: an absolute path replaces what it is joined to. *)
Definition join_relative (dir file : string) : string :=
  match last (bytes dir) with
  | Some a => if bool_decide (a = "/"%char) then dir +:+ file else dir +:+ "/" +:+ file
  | None => file
  end.
Definition path_join (dir file : string) : string :=
  if starts_with "/" file then file else join_relative dir file.

(** * What a sanitized file name looks like

    No separator, no two dots in a row, at most 255 bytes; a name that already is
    like that is kept. *)

Definition no_separator (l : list ascii) : Prop := Forall (λ a, is_separator a = false) l.

Lemma take_until_none p l : Forall (λ a, p a = false) (take_until p l).
Proof. induction l as [|a l IH]; simpl; [done|]. destruct (p a) eqn:Hp; constructor; auto. Qed.

Lemma take_until_id p l : Forall (λ a, p a = false) l → take_until p l = l.
Proof. induction 1 as [|a l Hp _ IH]; simpl; [done|]. by rewrite Hp, IH. Qed.

Lemma last_segment_clean l : no_separator (last_segment l).
Proof. unfold last_segment. apply Forall_reverse, take_until_none. Qed.

Lemma last_segment_id l : no_separator l → last_segment l = l.
Proof.
  intros Hl. unfold last_segment. rewrite take_until_id by by apply Forall_reverse.
  apply reverse_involutive.
Qed.

Lemma filter_separator_id l : no_separator l → filter (λ a, is_separator a = false) l = l.
Proof. induction 1 as [|a l Ha _ IH]; [done|]. by rewrite filter_cons_True, IH. Qed.

(** ** Two dots *)

Lemma has_dots_cons a l : has_dots (a :: l) = false → has_dots l = false.
Proof. destruct l as [|b l]; [done|]. simpl. by intros [_ ?]%orb_false_iff. Qed.

Lemma has_dots_suffix k l : has_dots (k ++ l) = false → has_dots l = false.
Proof. induction k as [|a k IH]; [done|]. intros Hk%has_dots_cons. auto. Qed.

Lemma has_dots_prefix l k : has_dots (l ++ k) = false → has_dots l = false.
Proof.
  induction l as [|a l IH]; [done|]. intros Hl. destruct l as [|b l]; [done|].
  simpl in *. apply orb_false_iff in Hl as [-> Hl]. by apply IH.
Qed.

Lemma drop_dots_length_le n : ∀ l, (length l ≤ n)%nat → (length (drop_dots l) ≤ length l)%nat.
Proof.
  induction n as [|n IH]; intros [|a [|b l]]; simpl; try lia; intros Hn.
  destruct (_ && _); [|pose proof (IH (b :: l) ltac:(simpl; lia)) as Hr; simpl in *; lia].
  specialize (IH l ltac:(lia)). lia.
Qed.

Lemma drop_dots_shorter l : has_dots l = true → (length (drop_dots l) < length l)%nat.
Proof.
  induction l as [|a l IH]; [done|]. destruct l as [|b l]; [done|]. simpl.
  destruct (_ && _) eqn:Hab; simpl; intros Hd.
  - pose proof (drop_dots_length_le (length l) l ltac:(done)). lia.
  - specialize (IH Hd). simpl in IH. lia.
Qed.

Lemma drop_dots_elem n : ∀ l, (length l ≤ n)%nat → drop_dots l ⊆ l.
Proof.
  induction n as [|n IH]; intros [|a [|b l]]; simpl; try (done || lia); intros Hn.
  destruct (_ && _); [pose proof (IH l ltac:(lia)); set_solver|].
  pose proof (IH (b :: l) ltac:(simpl; lia)) as Hr. simpl in Hr. set_solver.
Qed.

(** The loop ends: the length is fuel enough. *)
Lemma clean_dots_spec fuel : ∀ l, (length l ≤ fuel)%nat →
  has_dots (clean_dots fuel l) = false ∧ clean_dots fuel l ⊆ l.
Proof.
  induction fuel as [|fuel IH]; intros l Hl; simpl.
  - destruct l; [done|simpl in Hl; lia].
  - destruct (has_dots l) eqn:Hd; [|done]. pose proof (drop_dots_shorter l Hd) as Hs.
    destruct (IH (drop_dots l) ltac:(lia)) as [H1 H2]. split; [done|].
    etrans; [exact H2|]. by apply (drop_dots_elem (length l)).
Qed.

Lemma clean_dots_id fuel l : has_dots l = false → clean_dots fuel l = l.
Proof. intros Hl. destruct fuel; simpl; [done|]. by rewrite Hl. Qed.

(** ** The rest *)

Lemma trim_infix s : ∃ k1 k2, bytes s = k1 ++ bytes (trim s) ++ k2.
Proof.
  unfold trim. rewrite String.list_ascii_of_string_of_list_ascii. unfold trim_bytes.
  destruct (drop_ws_suffix ws2 ws3 (bytes s)) as [k1 H1]. set (t := drop_ws ws2 ws3 (bytes s)) in *.
  destruct (drop_ws_suffix ws2_rev ws3_rev (reverse t)) as [k2 H2].
  exists k1, (reverse k2). rewrite H1. f_equal. rewrite <- (reverse_involutive t) at 1.
  rewrite H2 at 1. by rewrite reverse_app.
Qed.

Lemma floor_boundary_le l n : (floor_boundary l n ≤ n)%nat.
Proof.
  induction n as [|n IH]; cbn [floor_boundary]; [by destruct (is_char_boundary l 0)|].
  destruct (is_char_boundary l (S n)); lia.
Qed.

Record safe_name (s : string) : Prop := {
  sn_separator : no_separator (bytes s);
  sn_dots : has_dots (bytes s) = false;
  sn_length : (length (bytes s) ≤ MAX_LEN)%nat;
}.

Lemma sanitize_safe name s : sanitize_incoming_file_name name = Some s → safe_name s.
Proof.
  unfold sanitize_incoming_file_name. set (c := filter _ _).
  destruct (clean_dots_spec (length c) c ltac:(done)) as [Hd Hs]. set (e := clean_dots _ c) in *.
  assert (no_separator e) as Hsep.
  { apply Forall_forall. intros a Ha. apply Hs, list_elem_of_filter in Ha as [Ha _]. done. }
  destruct (trim_infix (text e)) as (k1 & k2 & Ht).
  rewrite String.list_ascii_of_string_of_list_ascii in Ht. set (t := bytes (trim _)) in *.
  assert (no_separator t ∧ has_dots t = false) as [Hst Hdt].
  { split; [|rewrite Ht in Hd; by eapply has_dots_prefix, has_dots_suffix].
    unfold no_separator in *. rewrite Ht, !Forall_app in Hsep. tauto. }
  pose proof (floor_boundary_le t MAX_LEN) as Hn. set (n := floor_boundary t MAX_LEN) in *.
  clearbody n. case_bool_decide; [discriminate|].
  destruct (length t <=? MAX_LEN)%nat eqn:Hl; intros [= <-];
    split; rewrite String.list_ascii_of_string_of_list_ascii.
  - exact Hst.
  - exact Hdt.
  - by apply Nat.leb_le.
  - unfold no_separator in *. by apply Forall_take.
  - apply (has_dots_prefix _ (drop n t)). by rewrite take_drop.
  - rewrite length_take. lia.
Qed.

Lemma sanitize_keeps s : safe_name s → trim s = s → s ≠ "" → sanitize_incoming_file_name s = Some s.
Proof.
  intros [Hs Hd Hl] Ht Hne. unfold sanitize_incoming_file_name. rewrite last_segment_id by exact Hs.
  rewrite filter_separator_id by exact Hs.
  rewrite clean_dots_id by done. rewrite String.string_of_list_ascii_of_string, Ht.
  rewrite bool_decide_eq_false_2, (proj2 (Nat.leb_le _ _)) by (done || by destruct s).
  by rewrite String.string_of_list_ascii_of_string.
Qed.

(** Parts of a split have no separator; table entries have none either. *)
Lemma split_bytes_clean c l : Forall (λ p, c ∉ p) (split_bytes c l).
Proof.
  induction l as [|a l IH]; simpl; [repeat constructor; set_solver|].
  case_bool_decide as Ha; [constructor; [set_solver|done]|].
  destruct (split_bytes c l) as [|p ps]; [repeat constructor; set_solver|].
  apply Forall_cons in IH as [Hp Hps]. constructor; [set_solver|done].
Qed.

Lemma extension_clean `{UnicodeCase} mime : "/"%char ∉ bytes (extension_from_mime mime).
Proof.
  unfold extension_from_mime, mime_to_ext.
  destruct (find_first _ MIME_TO_EXT) as [[k e]|] eqn:Hf; simpl.
  - apply find_first_Some in Hf as (Hin & _).
    assert (Forall (λ p : string * string, "/"%char ∉ bytes p.2) MIME_TO_EXT) as Hall
      by (apply (bool_decide_unpack _); vm_compute; exact I).
    rewrite Forall_forall in Hall. exact (Hall _ Hin).
  - unfold split_on. rewrite list_lookup_fmap.
    destruct (split_bytes _ _ !! 1%nat) as [p|] eqn:Hp; simpl.
    + rewrite String.list_ascii_of_string_of_list_ascii.
      pose proof (split_bytes_clean "/"%char (bytes (to_lowercase (trim mime)))) as Hall.
      rewrite Forall_forall in Hall. apply Hall. by eapply list_elem_of_lookup_2.
    + apply (bool_decide_unpack _). vm_compute. exact I.
Qed.

Lemma bytes_app s t : bytes (s +:+ t) = bytes s ++ bytes t.
Proof. induction s as [|a s IH]; [done|]. simpl. by f_equal. Qed.

Lemma starts_slash s t : starts_with "/" (s +:+ "." +:+ t) = starts_with "/" s.
Proof. by destruct s. Qed.

Lemma no_slash_start s : "/"%char ∉ bytes s → starts_with "/" s = false.
Proof.
  destruct s as [|a s]; [done|]. intros Ha. apply andb_false_iff. left.
  apply bool_decide_eq_false_2. set_solver.
Qed.
