(* ===== verification/VirtualBucket.v ===== *)
(** * Virtual channels of a message ([virtual_channel_bucket.rs])

    The bucket a timeline message is stored under: an explicit tag first, then what
    its JSON body says, then the poll tag, then announcements. *)

From S2P Require Import Prelude Json Schema EvmRead.

Definition PRIVATE_DIRECT_MESSAGE : Z := 14.
Definition FILE_ATTACHMENT : Z := 15.
Definition APPLICATION_SPECIFIC : Z := 30078.
Definition DASHBOARD_POLL_D_TAG : string := "pacto_dashboard_poll".

Definition BUCKETS : list string := ["announcements"; "inbox"; "polls"; "join_requests"].
Definition is_valid_virtual_bucket (v : string) : bool := bool_decide (v ∈ BUCKETS).

(** The value of the first tag of a name. *)
Definition first_tag (name : string) (tags : list (list string)) : option string :=
  t ← find_first (λ t, bool_decide (head t = Some name)) tags; t !! 1%nat.

(** [p.eq_ignore_ascii_case("sponsor") || ..("pacto_gov")] of the payload's provider. *)
Definition public_gov (val : json) : bool :=
  match x ← value_get "payload" val; get_str "provider" x with
  | Some s => bool_decide (to_ascii_lowercase (trim s) ∈ ["sponsor"; "pacto_gov"])
  | None => false
  end.

Definition is_vote (val : json) : bool :=
  bool_decide (get_str "schema" val = Some "pacto.dashboard_poll.v1") &&
  bool_decide (get_str "action" val = Some "vote").

(** The bucket a JSON body picks, if any. *)
Definition body_bucket (val : json) : option string :=
  let schema := get_str "schema" val in
  let ty := get_str "type" val in
  let explicit := vb ← get_str "pacto_virtual_bucket" val;
                  if is_valid_virtual_bucket vb then Some vb else None in
  match explicit with
  | Some vb => Some vb
  | None =>
      if is_vote val then Some "polls"
      else if bool_decide (schema ∈ [Some "pacto.squad.join_request.v1";
                                     Some "pacto.squad.join_request_response.v1"])
      then Some "join_requests"
      else if bool_decide (schema ∈ [Some "pacto.squad.join_inbox.meta.v1";
                                     Some "pacto.squad.join_inbox.key_rotated.v1"])
      then Some "announcements"
      else if bool_decide (schema = Some "pacto.squad.join_inbox.rotate_prompt.v1") then Some "inbox"
      else if bool_decide (ty = Some "dashboard_poll_created") then Some "announcements"
      else if bool_decide (ty = Some "governance_updated")
      then Some (if public_gov val then "announcements" else "inbox")
      else if bool_decide (ty = Some "war_game_updated") then Some "announcements"
      else if bool_decide (ty = Some "sticker_pack_updated") then Some "announcements"
      else if bool_decide (ty ∈ [Some "squad_safe_updated"; Some "safe_proposal"]) then Some "inbox"
      else if bool_decide (ty ∈ [Some "squad_member_evm_share"; Some "squad_evm_roster_snapshot"])
      then Some "announcements"
      else if bool_decide (ty = Some "squad_network_updated")
              || bool_decide (ty = Some "squad_state_sync_request")
      then Some "announcements"
      else if bool_decide (ty ∈ [Some "squad_outbound_invite"; Some "squad_admit_needed";
                                 Some "squad_channels_catalog"; Some "squad_identity_updated"])
      then Some "announcements"
      else None
  end.

Section bucket.
Context `{SerdeText}.

(** The body as a JSON value, when it starts like an object. *)
Definition json_body (content : string) : option json :=
  let trimmed := trim content in
  if starts_with "{" trimmed then of_text trimmed else None.

(** Whether some [d] tag is the poll's. *)
Definition has_poll_tag (tags : list (list string)) : bool :=
  existsb (λ t, bool_decide (head t = Some "d") && bool_decide (t !! 1%nat = Some DASHBOARD_POLL_D_TAG))
    tags.

Definition normalize_virtual_bucket_for_message (kind : Z) (content : string)
    (tags : list (list string)) : option string :=
  if negb (kind =? PRIVATE_DIRECT_MESSAGE) && negb (kind =? FILE_ATTACHMENT)
     && negb (kind =? APPLICATION_SPECIFIC)
  then None
  else
    match v ← first_tag "pacto_bucket" tags; if is_valid_virtual_bucket v then Some v else None with
    | Some v => Some v
    | None =>
        if kind =? FILE_ATTACHMENT then Some "announcements"
        else
          match json_body content ≫= body_bucket with
          | Some b => Some b
          | None =>
              if has_poll_tag tags then
                match json_body content with
                | Some val =>
                    if is_vote val then Some "polls"
                    else if bool_decide (get_str "type" val = Some "dashboard_poll_created")
                    then Some "announcements"
                    else Some "polls"
                | None => Some "polls"
                end
              else Some "announcements"
          end
    end.

(** ** Its properties *)

Lemma valid_bucket v : is_valid_virtual_bucket v = true ↔ v ∈ BUCKETS.
Proof. apply bool_decide_eq_true. Qed.

Lemma body_bucket_valid val b : body_bucket val = Some b → b ∈ BUCKETS.
Proof.
  unfold body_bucket. destruct (base.mbind _ _) as [vb|] eqn:He.
  - intros [= <-]. apply bind_Some in He as (x & _ & Hx). destruct (is_valid_virtual_bucket x) eqn:Hv; [|done].
    injection Hx as <-. by apply valid_bucket.
  - intros Hb. repeat case_match; simplify_eq; apply (bool_decide_unpack _); vm_compute; exact I.
Qed.

(** The join-request channel is picked by name or by a join-request schema only. *)
Lemma body_bucket_join val : body_bucket val = Some "join_requests" →
  get_str "pacto_virtual_bucket" val = Some "join_requests" ∨
  get_str "schema" val ∈ [Some "pacto.squad.join_request.v1"; Some "pacto.squad.join_request_response.v1"].
Proof.
  unfold body_bucket. destruct (base.mbind _ _) as [vb|] eqn:He.
  - intros [= ->]. left. apply bind_Some in He as (x & Hx & Hv).
    destruct (is_valid_virtual_bucket x); [|done]. by injection Hv as ->.
  - destruct (is_vote val); [done|]. intros Hb. right. revert Hb.
    destruct (bool_decide (get_str "schema" val ∈ [Some "pacto.squad.join_request.v1"; _])) eqn:Hs;
      [by apply bool_decide_eq_true in Hs|]. intros Hb. repeat case_match; simplify_eq.
Qed.

(** The second look at the body under the poll tag never finds anything: what it
    looks for has been answered before. *)
Lemma poll_tag_recheck content val : json_body content = Some val →
  body_bucket val = None → is_vote val = false ∧ get_str "type" val ≠ Some "dashboard_poll_created".
Proof.
  intros _. unfold body_bucket. destruct (base.mbind _ _) as [vb|]; [done|].
  destruct (is_vote val); [done|]. intros Hb. split; [done|]. intros Ht. revert Hb.
  repeat case_match; try done. by rewrite Ht in *.
Qed.

(** The routing in one line: the tag, the body, the poll tag, announcements. *)
Definition tag_bucket (tags : list (list string)) : option string :=
  v ← first_tag "pacto_bucket" tags; if is_valid_virtual_bucket v then Some v else None.
Definition untagged (content : string) (tags : list (list string)) : string :=
  default (if has_poll_tag tags then "polls" else "announcements") (json_body content ≫= body_bucket).

Lemma normalize_eq kind content tags :
  normalize_virtual_bucket_for_message kind content tags =
  if bool_decide (kind ∈ [PRIVATE_DIRECT_MESSAGE; FILE_ATTACHMENT; APPLICATION_SPECIFIC])
  then Some (default (if kind =? FILE_ATTACHMENT then "announcements" else untagged content tags)
               (tag_bucket tags))
  else None.
Proof.
  unfold normalize_virtual_bucket_for_message. fold (tag_bucket tags).
  replace (negb (kind =? PRIVATE_DIRECT_MESSAGE) && _ && _) with
    (negb (bool_decide (kind ∈ [PRIVATE_DIRECT_MESSAGE; FILE_ATTACHMENT; APPLICATION_SPECIFIC]))).
  2: { rewrite <- !negb_orb. f_equal. apply eq_true_iff_eq.
       rewrite bool_decide_eq_true, !orb_true_iff, !Z.eqb_eq, !elem_of_cons, elem_of_nil. naive_solver. }
  destruct (bool_decide _); [|done]. simpl negb. cbv iota.
  destruct (tag_bucket tags) as [v|]; [done|]. destruct (kind =? FILE_ATTACHMENT); [done|].
  unfold untagged. simpl default. destruct (json_body content ≫= body_bucket) as [b|] eqn:Hb; [done|].
  simpl. destruct (has_poll_tag tags); [|done]. destruct (json_body content) as [val|] eqn:Hj; [|done].
  simpl in Hb. destruct (poll_tag_recheck content val Hj Hb) as [-> Ht].
  by rewrite bool_decide_eq_false_2.
Qed.

Lemma tag_bucket_Some tags v :
  tag_bucket tags = Some v ↔ first_tag "pacto_bucket" tags = Some v ∧ v ∈ BUCKETS.
Proof.
  unfold tag_bucket. destruct (first_tag _ _) as [w|]; simpl; [|naive_solver].
  destruct (is_valid_virtual_bucket w) eqn:Hv; [apply valid_bucket in Hv; naive_solver|].
  split; [done|]. intros [[= ->] Hin%valid_bucket]. congruence.
Qed.

(** A message's bucket is one of the four, and only timeline kinds have one. A
    valid [pacto_bucket] tag decides. The caption of a file decides nothing: two
    captions give the same bucket. Without a tag, the join-request bucket comes from
    a JSON body that names it or has a join-request schema, and the polls bucket from
    such a body or the poll tag. *)
Theorem bucket_typed kind content tags :
  (normalize_virtual_bucket_for_message kind content tags = None ↔
     kind ∉ [PRIVATE_DIRECT_MESSAGE; FILE_ATTACHMENT; APPLICATION_SPECIFIC]) ∧
  ∀ b, normalize_virtual_bucket_for_message kind content tags = Some b →
    b ∈ BUCKETS ∧
    (∀ v, first_tag "pacto_bucket" tags = Some v → v ∈ BUCKETS → b = v) ∧
    (kind = FILE_ATTACHMENT →
       ∀ caption, normalize_virtual_bucket_for_message kind caption tags = Some b) ∧
    (b = "join_requests" → first_tag "pacto_bucket" tags ≠ Some b →
       ∃ val, json_body content = Some val ∧
         (get_str "pacto_virtual_bucket" val = Some b ∨
          get_str "schema" val ∈ [Some "pacto.squad.join_request.v1";
                                  Some "pacto.squad.join_request_response.v1"])) ∧
    (b = "polls" → first_tag "pacto_bucket" tags ≠ Some b →
       has_poll_tag tags = true ∨ ∃ val, json_body content = Some val ∧ body_bucket val = Some b).
Proof.
  rewrite normalize_eq. case_bool_decide as Hk; [|naive_solver]. split; [naive_solver|].
  intros b [= Hb]. destruct (tag_bucket tags) as [v|] eqn:Htag; simpl in Hb.
  - subst v. pose proof (proj1 (tag_bucket_Some _ _) Htag) as [Hf Hin].
    split; [done|]. split; [intros v Hv _; congruence|]. split; [|naive_solver].
    intros -> caption. by rewrite normalize_eq, bool_decide_eq_true_2, Htag by done.
  - assert (∀ v, first_tag "pacto_bucket" tags = Some v → v ∈ BUCKETS → b = v) as Hno.
    { intros v Hv Hin. rewrite (proj2 (tag_bucket_Some _ _) (conj Hv Hin)) in Htag. done. }
    destruct (Z.eqb_spec kind FILE_ATTACHMENT) as [->|Hfile].
    { subst b. repeat split; [set_solver|done| |done..].
      intros _ caption. by rewrite normalize_eq, bool_decide_eq_true_2, Htag by done. }
    unfold untagged in Hb. destruct (json_body content) as [val|] eqn:Hj; simpl in Hb.
    2: { subst b. destruct (has_poll_tag tags); repeat split; (set_solver || naive_solver). }
    destruct (body_bucket val) as [b'|] eqn:Hbody; simpl in Hb.
    2: { subst b. destruct (has_poll_tag tags); repeat split; (set_solver || naive_solver). }
    subst b'. split; [by eapply body_bucket_valid|]. split; [done|]. split; [done|].
    split; intros -> _; [|right; by exists val]. exists val. split; [done|]. by apply body_bucket_join.
Qed.
End bucket.
