(* ===== verification/Announce.v ===== *)
(** * Squad announcements: what their readers share ([db/squad.rs])

    An announcement is a JSON message of a squad's announcements group. Each reader
    asks for its type, a payload, a parent id that is the group's, and an author who
    is a member, and drops the message silently otherwise. *)

From Stdlib Require Import Ascii.
From S2P Require Import Prelude World Json Schema Records FileNames EvmRead.

(** ** Panics *)

(** [&s[..n]] panics off a character boundary. A panic unwinds through every caller, a
    [let _ = ..] included; it is the error of this text. *)
Definition PANIC : string := "panicked".

Definition slice_to (n : nat) (s : string) : Act string :=
  if is_char_boundary (bytes s) n then mret (text (take n (bytes s))) else mthrow PANIC.

(** [str::len], and [if s.len() > n { &s[..n] } else { s }]. *)
Definition len (s : string) : Z := Z.of_nat (String.length s).

Definition clip (n : nat) (s : string) : Act string :=
  if Z.of_nat n <? len s then slice_to n s else mret s.

(** [let _ = m;]: the result is dropped, a panic goes on. *)
Definition ignore {A} (m : Act A) : Act unit :=
  let! r := attempt m in
  match r with
  | Ok _ => mret tt
  | Err e => if decide (e = PANIC) then mthrow PANIC else mret tt
  end.

(** ** Clocks *)

(** [SystemTime::now()] as milliseconds ([as i64]), and as the nanoseconds an id is made
    of; 0 before the epoch. *)
Definition now_ms : Act Z := let! t := now in mret (if t <? 0 then 0 else wrap64 t).
Definition now_nanos : Act Z := let! t := now in mret (if t <? 0 then 0 else t).

(** ** Values *)

(** [p.get(key).and_then(as_str)], trimmed and not empty. *)
Definition json_nonempty_str (p : json) (key : string) : option string := trimmed_opt (get_str key p).

(** [Value::as_i64], [as_u64], [as_bool] *)
Definition as_i64 (v : json) : option Z :=
  match v with JNum z => if bool_decide (i64_ok z) then Some z else None | _ => None end.
Definition as_u64 (v : json) : option Z :=
  match v with JNum z => if bool_decide (0 ≤ z < 2 ^ 64) then Some z else None | _ => None end.
Definition as_array (v : json) : option (list json) := match v with JArr l => Some l | _ => None end.

(** Objects of a [Value] are [BTreeMap]s: printed in key order, and of repeated keys the
    last one counts. *)
Definition obj_remove (k : string) (fs : list (string * json)) : list (string * json) :=
  filter (λ p, p.1 ≠ k) fs.
Fixpoint put_sorted (k : string) (v : json) (fs : list (string * json)) : list (string * json) :=
  match fs with
  | [] => [(k, v)]
  | (k', v') :: fs' =>
      if decide (String.le k k') then (k, v) :: fs else (k', v') :: put_sorted k v fs'
  end.
Definition obj_insert (k : string) (v : json) (fs : list (string * json)) : list (string * json) :=
  put_sorted k v (obj_remove k fs).

(** The [Value] a document parses to. *)
Fixpoint to_value (j : json) : json :=
  match j with
  | JArr l => JArr (to_value <$> l)
  | JObj fs => JObj (foldl (λ m p, obj_insert p.1 p.2 m) [] ((λ p, (p.1, to_value p.2)) <$> fs))
  | _ => j
  end.

(** ** The common steps *)

Section announce.
Context `{SerdeText}.

(** [serde_json::from_str::<Value>(..).ok()] and [Value::to_string]. *)
Definition parse_value (s : string) : option json := to_value <$> of_text s.

Definition announce_payload (ty content : string) : option json :=
  parsed ← parse_value content;
  if bool_decide (get_str "type" parsed = Some ty) then value_get "payload" parsed else None.

(** The author, the payload and the parent id of an announcement of type [ty] for this
    chat; [parent_key] is [squad_id] or [parent_id]. *)
Definition announced (ty parent_key content chat_id : string) (author_npub : option string)
    : option (string * json * string) :=
  author ← trimmed_opt author_npub;
  p ← announce_payload ty content;
  parent_id ← json_nonempty_str p parent_key;
  if side_effect_parent_matches_chat chat_id parent_id then Some (author, p, parent_id) else None.

(** Go on when the author is a member. *)
Definition if_member (chat_id author : string) (m : Act unit) : Act unit :=
  let! ok := is_author_mls_member_for_chat chat_id author in
  if (ok : bool) then m else mret tt.
End announce.
