(* ===== verification/SquadInfra.v ===== *)
(** * Deployed infra and treasury of a squad ([db/squad.rs])

    Rows of [squad_infra] (governance stacks, sponsors, admin proxies) and of
    [parent_treasury_safe], written by this device's deployments and commands and by
    the announcements of members. *)

From Stdlib Require Import Ascii.
From S2P Require Import Prelude World Json Schema Records FileNames EvmRead AccessControl Announce.

Definition treasury (d : Db) : gmap string TreasurySqlRow := sh_treasury (dv_shared (db_device d)).
Definition squad_safe (d : Db) : gmap string string := sh_squad_safe (dv_shared (db_device d)).

(** ** Normal forms *)

Definition normalize_treasury_chain (raw : option string) : string :=
  match to_ascii_lowercase <$> trimmed_opt raw with
  | Some s =>
      if bool_decide (s ∈ ["mainnet"; "ethereum"; "eth"]) then "mainnet"
      else if bool_decide (s ∈ ["arbitrum"; "arb"]) then "arbitrum"
      else if bool_decide (s = "local") then "local"
      else "sepolia"
  | None => "sepolia"
  end.

Definition normalize_infra_type (raw : string) : result string :=
  let s := to_ascii_lowercase (trim raw) in
  if bool_decide (s ∈ ["sponsor"; "squad_sponsor"]) then Ok "sponsor"
  else if bool_decide (s ∈ ["pacto_gov"; "pacto-gov"]) then Ok "pacto_gov"
  else if bool_decide (s ∈ ["pacto_gov_wargame"; "pacto-gov-wargame"; "pacto-gov_wargame"])
  then Ok "pacto_gov_wargame"
  else if bool_decide (s ∈ ["squad_admin"; "squad-admin"]) then Ok "squad_admin"
  else if bool_decide (s ∈ ["standalone_safe"; "gnosis_safe"; "gnosis-safe"; "safe"])
  then Ok "standalone_safe"
  else if bool_decide (s ∈ ["bread_coop"; "bread-coop"; "bread"]) then Ok "bread_coop"
  else Err ("unknown squad infra type: " +:+ trim raw).

Definition SQUAD_INFRA_CANONICAL_REF_MAX : Z := 2048.
Definition SQUAD_INFRA_REVISION_MAX : nat := 64.
Definition SQUAD_INFRA_PAYLOAD_MAX : Z := 256000.
Definition SQUAD_INFRA_ID_MAX : Z := 72.

(** [char::is_ascii_alphanumeric], [-] or [_]. *)
Definition id_char (a : ascii) : bool :=
  let c := code a in
  ((48 <=? c)%N && (c <=? 57)%N) || ((65 <=? c)%N && (c <=? 90)%N) || ((97 <=? c)%N && (c <=? 122)%N)
  || (c =? 45)%N || (c =? 95)%N.

(** An entry id of a good form is the row's id. *)
Definition entry_row_id (entry_id : option string) : option string :=
  s ← trimmed_opt entry_id;
  if (8 <=? len s) && (len s <=? 72) && forallb id_char (bytes s)
  then Some s else None.

Definition new_squad_infra_id (entry_id : option string) : Act string :=
  match entry_row_id entry_id with
  | Some s => mret s
  | None => let! t := now_nanos in mret ("si-" +:+ pretty t)
  end.

Definition new_treasury_row_id (entry_id : option string) : Act string :=
  match entry_row_id entry_id with
  | Some s => mret s
  | None => let! t := now_nanos in mret ("pt-" +:+ pretty t)
  end.

Section infra.
Context `{SerdeText} `{Rusqlite} `{Alloy}.

(** ** The treasury *)

Definition same_safe (r r' : TreasurySqlRow) : bool :=
  bool_decide (ts_parent_id r = ts_parent_id r') &&
  bool_decide (ts_safe_address r = ts_safe_address r') && bool_decide (ts_chain r = ts_chain r').

(** The row the unique index has for a Safe of a parent. *)
Definition find_safe (r : TreasurySqlRow) (m : gmap string TreasurySqlRow) : option string :=
  fst <$> find_first (λ x, same_safe x.2 r) (map_to_list m).

(** [ON CONFLICT(parent_id, safe_address, chain)]: a label that is not empty replaces the old one. *)
Definition upsert_treasury (id : string) (r : TreasurySqlRow) (m : gmap string TreasurySqlRow)
    : result (gmap string TreasurySqlRow) :=
  match find_safe r m with
  | Some k =>
      Ok (alter (λ old, mkTreasury (ts_parent_id old) (ts_safe_address old) (ts_chain old)
                          (if bool_decide (ts_label r = "") then ts_label old else ts_label r)
                          (ts_created_at_ms old)) k m)
  | None =>
      match m !! id with
      | Some _ => Err (constraint_failed "parent_treasury_safe.id")
      | None => Ok (<[id := r]> m)
      end
  end.

Definition upsert_parent_treasury_row (parent_id safe_address_norm chain label : string)
    (entry_id : option string) : Act unit :=
  let pid := trim parent_id in
  if bool_decide (pid = "") then mthrow "parent_id is empty"
  else
    let chain_norm := normalize_treasury_chain (Some chain) in
    get_db_connection ;!
    let! id := new_treasury_row_id entry_id in
    let! now_ms := now_ms in
    insert_row (λ e, "Failed to upsert parent_treasury_safe: " +:+ e) (λ d,
      let? m := upsert_treasury id (mkTreasury pid safe_address_norm chain_norm label now_ms) (treasury d) in
      Ok (tt, set_treasury (λ _, m) d)).

Definition treasury_key (x : string * TreasurySqlRow) : Z * string := (ts_created_at_ms x.2, x.1).
Definition treasury_rows (d : Db) (pid : string) : list (string * TreasurySqlRow) :=
  order_by_ms treasury_key (filter (λ x, ts_parent_id x.2 = pid) (map_to_list (treasury d))).

Definition read_squad_safe (pid : string) : Act (option string) :=
  query (λ e, "Failed to read squad_safe: " +:+ e) (λ d, squad_safe d !! pid).

Definition get_safe (parent_id : string) : Act (option string) :=
  let pid := trim parent_id in
  if bool_decide (pid = "") then mret None
  else
    get_db_connection ;!
    let! row := query (λ e, "Failed to read parent_treasury_safe: " +:+ e)
                  (λ d, (λ x, ts_safe_address x.2) <$> head (treasury_rows d pid)) in
    match row with
    | None => read_squad_safe pid
    | Some _ => mret row
    end.

Definition set_safe (parent_id safe_address : string) : Act unit :=
  require_key_derivation_version_2_on_handle ;!
  let pid := trim parent_id in
  if bool_decide (pid = "") then mthrow "parent_id is empty"
  else
    let! norm := of_result (ok_or (normalize_hex_address (trim safe_address)) "Invalid EVM address") in
    get_db_connection ;!
    exec_ (λ e, "Failed to clear parent_treasury_safe: " +:+ e)
      (set_treasury (filter (λ x, ts_parent_id x.2 ≠ pid))) ;!
    let! now_ms := now_ms in
    let! id := new_treasury_row_id None in
    insert_row (λ e, "Failed to insert parent_treasury_safe: " +:+ e) (λ d,
      match treasury d !! id with
      | Some _ => Err (constraint_failed "parent_treasury_safe.id")
      | None => Ok (tt, set_treasury <[id := mkTreasury pid norm "sepolia" "" now_ms]> d)
      end).

Definition add_parent_treasury_safe (parent_id safe_address : string)
    (chain label entry_id : option string) : Act unit :=
  require_key_derivation_version_2_on_handle ;!
  let! norm := of_result (ok_or (normalize_hex_address (trim safe_address)) "Invalid EVM address") in
  let ch := normalize_treasury_chain chain in
  let! lb := clip 200 (trim (default "" label)) in
  upsert_parent_treasury_row parent_id norm ch lb entry_id.

Definition list_parent_treasury_safes (parent_id : string) : Act (list (string * TreasurySqlRow)) :=
  let pid := trim parent_id in
  if bool_decide (pid = "") then mret []
  else
    get_db_connection ;!
    query (λ e, "Failed to list parent_treasury_safe: " +:+ e) (λ _, tt) ;!
    let! out := query (λ e, "Failed to query parent_treasury_safe: " +:+ e) (λ d, treasury_rows d pid) in
    match out with
    | [] =>
        let! legacy := read_squad_safe pid in
        mret ((λ addr, ("legacy-" +:+ pid, mkTreasury pid addr "sepolia" "" 0)) <$> option_list legacy)
    | _ => mret out
    end.

(** [apply_parent_safe_announce]. The payload names the parent [squad_id]. *)
Definition apply_parent_safe_announce (content chat_id : string) (author_npub : option string)
    : Act unit :=
  match announced "squad_safe_updated" "squad_id" content chat_id author_npub with
  | None => mret tt
  | Some (author, p, parent_id) =>
      if_member chat_id author
        match safe_address ← json_nonempty_str p "safe_address"; normalize_hex_address safe_address with
        | None => mret tt
        | Some norm =>
            let chain := normalize_treasury_chain (get_str "chain" p) in
            let! lb := clip 200 (trim (default "" (get_str "label" p))) in
            ignore (upsert_parent_treasury_row parent_id norm chain lb (get_str "entry_id" p))
        end
  end.

(** ** Infra rows *)

(** The types of which a parent has one row, by partial unique indexes. *)
Definition SINGLETONS : list string := ["pacto_gov"; "pacto_gov_wargame"].

Definition infra_taken (id : string) (r : InfraSqlRow) (m : gmap string InfraSqlRow) : bool :=
  bool_decide (in_infra_type r ∈ SINGLETONS) &&
  existsb (λ x, negb (bool_decide (x.1 = id)) &&
                bool_decide (in_parent_id x.2 = in_parent_id r) &&
                bool_decide (in_infra_type x.2 = in_infra_type r)) (map_to_list m).

Definition set_infra_created (t : Z) (r : InfraSqlRow) : InfraSqlRow :=
  mkInfraRow (in_parent_id r) (in_infra_type r) (in_chain r) (in_canonical_ref r)
    (in_pacto_gov_revision r) (in_provider_payload r) t (in_updated_at_ms r).

(** [ON CONFLICT(id)]: everything but the creation time is replaced. *)
Definition upsert_infra (id : string) (r : InfraSqlRow) (m : gmap string InfraSqlRow)
    : result (gmap string InfraSqlRow) :=
  if infra_taken id r m then Err (constraint_failed "squad_infra.parent_id, squad_infra.infra_type")
  else Ok (<[id := from_option (λ old, set_infra_created (in_created_at_ms old) r) r (m !! id)]> m).

Definition payload_len (payload : option string) : Z := from_option len 0 payload.

Definition upsert_squad_infra_inner (id parent_id infra_type : string) (chain : option string)
    (canonical_ref : string) (pacto_gov_revision provider_payload : option string) : Act unit :=
  let row_id := trim id in
  if bool_decide (row_id = "") then mthrow "id is empty"
  else if SQUAD_INFRA_ID_MAX <? len row_id then mthrow "id exceeds 72 characters"
  else
    let pid := trim parent_id in
    if bool_decide (pid = "") then mthrow "parent_id is empty"
    else
      let! kind := of_result (normalize_infra_type infra_type) in
      let chain_norm := normalize_treasury_chain chain in
      let cref := trim canonical_ref in
      if bool_decide (cref = "") then mthrow "canonical_ref is empty"
      else if SQUAD_INFRA_CANONICAL_REF_MAX <? len cref
      then mthrow "canonical_ref exceeds 2048 characters"
      else
        let! rev := match trimmed_opt pacto_gov_revision with
                    | Some s => let! s := clip SQUAD_INFRA_REVISION_MAX s in mret (Some s)
                    | None => mret None
                    end in
        let payload := trimmed_opt provider_payload in
        if SQUAD_INFRA_PAYLOAD_MAX <? payload_len payload
        then mthrow "provider_payload exceeds 256000 characters"
        else
          get_db_connection ;!
          let! now_ms := now_ms in
          let! existing_created := query (λ e, "Failed to read squad_infra created_at: " +:+ e)
            (λ d, in_created_at_ms <$> infra d !! row_id) in
          let created_ms := default now_ms existing_created in
          insert_row (λ e, "Failed to upsert squad_infra: " +:+ e) (λ d,
            let? m := upsert_infra row_id
              (mkInfraRow pid kind chain_norm cref rev payload created_ms now_ms) (infra d) in
            Ok (tt, set_infra (λ _, m) d)).

Definition upsert_squad_infra (id parent_id infra_type : string) (chain : option string)
    (canonical_ref : string) (pacto_gov_revision provider_payload : option string) : Act unit :=
  require_key_derivation_version_2_on_handle ;!
  upsert_squad_infra_inner id parent_id infra_type chain canonical_ref pacto_gov_revision provider_payload.

(** The stable row id of a parent's entry: direct, or hashed when that is too long. *)
Definition stable_row_id (direct short parent_id : string) : string :=
  let pid := trim parent_id in
  let id := direct +:+ pid in
  if len id <=? SQUAD_INFRA_ID_MAX then id
  else short +:+ hex_fixed 64 (keccak256 pid) "".

Definition squad_sponsor_infra_row_id : string → string := stable_row_id "sponsor-" "sp-".
Definition squad_admin_infra_row_id : string → string := stable_row_id "squad-admin-" "sa-".
Definition pacto_gov_infra_row_id : string → string := stable_row_id "pacto-gov-" "pg-".
Definition pacto_gov_wargame_infra_row_id : string → string := stable_row_id "pacto-gov-wargame-" "pgw-".
Definition pacto_gov_treasury_row_id : string → string := stable_row_id "pacto-gov-treasury-" "pgt-".

Definition persist_sponsor_infra (parent_id chain sponsor_address provider_payload : string) : Act unit :=
  let! norm := of_result (ok_or (normalize_hex_address (trim sponsor_address)) "invalid sponsor address") in
  upsert_squad_infra_inner (squad_sponsor_infra_row_id parent_id) parent_id "sponsor" (Some chain) norm
    None (Some provider_payload).

Definition persist_squad_admin_infra (parent_id chain squad_admin_proxy provider_payload : string)
    : Act unit :=
  let! norm := of_result (ok_or (normalize_hex_address (trim squad_admin_proxy))
                            "invalid squad admin address") in
  upsert_squad_infra_inner (squad_admin_infra_row_id parent_id) parent_id "squad_admin" (Some chain) norm
    None (Some provider_payload).

Definition persist_pacto_gov_infra (parent_id chain top_hat_id provider_payload : string) : Act unit :=
  let hat := trim top_hat_id in
  if bool_decide (hat = "") then mthrow "top_hat_id must be non-empty"
  else upsert_squad_infra_inner (pacto_gov_infra_row_id parent_id) parent_id "pacto_gov" (Some chain) hat
         None (Some provider_payload).

Definition persist_pacto_gov_wargame_infra (parent_id chain top_hat_id provider_payload : string)
    : Act unit :=
  let hat := trim top_hat_id in
  if bool_decide (hat = "") then mthrow "top_hat_id must be non-empty"
  else upsert_squad_infra_inner (pacto_gov_wargame_infra_row_id parent_id) parent_id "pacto_gov_wargame"
         (Some chain) hat None (Some provider_payload).

Definition persist_pacto_gov_treasury_safe (parent_id chain safe_address : string) : Act unit :=
  let! norm := of_result (ok_or (normalize_hex_address (trim safe_address)) "invalid safe address") in
  upsert_parent_treasury_row parent_id norm chain "" (Some (pacto_gov_treasury_row_id parent_id)).

(** ** Lookups *)

(** SQL's [trim] takes spaces, its [lower] is ASCII's. *)
Fixpoint drop_spaces (l : list ascii) : list ascii :=
  match l with a :: l' => if (code a =? 32)%N then drop_spaces l' else l | [] => [] end.
Definition sql_trim (s : string) : string :=
  text (reverse (drop_spaces (reverse (drop_spaces (bytes s))))).

Definition has_infra (d : Db) (pid ty : string) : bool :=
  existsb (λ x, bool_decide (in_parent_id x.2 = pid) && bool_decide (in_infra_type x.2 = ty))
    (map_to_list (infra d)).

Definition parent_has_sponsor_infra_conn (pid : string) : Act bool :=
  query (λ e, "Failed to query sponsor infra: " +:+ e) (λ d, has_infra d pid "sponsor").

Definition parent_has_sponsor_infra (parent_id : string) : Act bool :=
  let pid := trim parent_id in
  if bool_decide (pid = "") then mret false
  else get_db_connection ;! parent_has_sponsor_infra_conn pid.

(** A failing count is none. *)
Definition parent_has_pacto_gov_infra (parent_id : string) : Act bool :=
  let! r := attempt (query id (λ d, has_infra d parent_id "pacto_gov")) in
  mret (default false (res_ok r)).

Definition parent_has_pacto_gov_infra_row (parent_id : string) : Act bool :=
  let pid := trim parent_id in
  if bool_decide (pid = "") then mret false
  else get_db_connection ;! parent_has_pacto_gov_infra pid.

Definition pacto_gov_top_hat_id_for_parent (parent_id : string) : Act (option string) :=
  let pid := trim parent_id in
  if bool_decide (pid = "") then mret None
  else
    get_db_connection ;!
    query (λ e, "pacto_gov top hat lookup: " +:+ e) (λ d,
      (λ x, sql_trim (in_canonical_ref x.2)) <$>
        head (order_by_ms_desc infra_updated_key
          (filter (λ x, in_parent_id x.2 = pid ∧ in_infra_type x.2 = "pacto_gov" ∧
                        sql_trim (in_canonical_ref x.2) ≠ "") (map_to_list (infra d))))).

Definition list_squad_infra_canonical_refs : Act (list string) :=
  get_db_connection ;!
  query (λ e, "Failed to list squad_infra refs: " +:+ e) (λ _, tt) ;!
  query (λ e, "Failed to query squad_infra refs: " +:+ e) (λ d,
    merge_sort String.le (remove_dups
      ((λ x, to_ascii_lowercase (sql_trim (in_canonical_ref x.2))) <$>
         filter (λ x, sql_trim (in_canonical_ref x.2) ≠ "") (map_to_list (infra d))))).

Definition parent_id_for_canonical_infra_ref (canonical_ref : string) : Act (option string) :=
  match normalize_hex_address (trim canonical_ref) with
  | None => mret None
  | Some norm =>
      get_db_connection ;!
      let! parent := query (λ e, "Failed to lookup squad_infra parent: " +:+ e) (λ d,
        (λ x, in_parent_id x.2) <$>
          head (order_by_ms_desc infra_updated_key
            (filter (λ x, to_ascii_lowercase (in_canonical_ref x.2) = to_ascii_lowercase norm)
               (map_to_list (infra d))))) in
      mret (s ← parent; if blank s then None else Some s)
  end.

(** ** The governance announcement *)

Definition maybe_upsert_governance_from_announce (content chat_id : string) (author_npub : option string)
    : Act unit :=
  match announced "governance_updated" "parent_id" content chat_id author_npub with
  | None => mret tt
  | Some (author, p, parent_id) =>
      if_member chat_id author
        match json_nonempty_str p "provider" with
        | None => mret tt
        | Some provider =>
            if bool_decide (res_ok (normalize_infra_type provider) = Some "pacto_gov_wargame")
            then mret tt
            else
              match json_nonempty_str p "canonical_ref" with
              | None => mret tt
              | Some canonical_ref =>
                  let! row_id := new_squad_infra_id (get_str "entry_id" p) in
                  ignore (upsert_squad_infra_inner row_id parent_id provider
                    (json_nonempty_str p "chain") canonical_ref
                    (json_nonempty_str p "pacto_gov_revision") (json_nonempty_str p "provider_payload"))
              end
        end
  end.

(** Whether the message is a governance announcement of the announcements channel. *)
Definition is_announcements_governance_announce_content (content : string) : bool :=
  match parse_value (trim content) with
  | None => false
  | Some val =>
      bool_decide (get_str "type" val = Some "governance_updated") &&
      match x ← value_get "payload" val; get_str "provider" x with
      | Some s => bool_decide (to_ascii_lowercase (trim s) ∈ ["sponsor"; "pacto_gov"])
      | None => false
      end
  end.
End infra.
