(* ===== verification/WarGame.v ===== *)
(** * The war-game stack of a squad ([db/squad.rs])

    A squad has one war-game row. Its payload is a JSON object with the round being
    played, the rounds played before, and a [pendingNext] that is local. Payloads of
    members' announcements are merged into it by round. *)

From S2P Require Import Prelude World Json Schema Records EvmRead AccessControl Announce SquadInfra.

(** ** Rounds *)

Definition U64_MAX : Z := 18446744073709551615.

(** [x.filter(|n| *n > 0)] *)
Definition positive (n : option Z) : option Z := r ← n; if 0 <? r then Some r else None.

Definition json_round_u64 (v : json) : option Z :=
  match value_get "round" v with
  | Some (JStr s) => positive (parse_unsigned U64_MAX (trim s))
  | Some x => positive (as_u64 x)
  | None => None
  end.

Definition prior_round_number (v : json) : option Z := json_round_u64 v.

(** The members of an object; others have none. *)
Definition members (v : json) : list (string * json) := match v with JObj fs => fs | _ => [] end.

Definition war_game_round_snapshot (payload : json) : json :=
  JObj (obj_insert "status" (JStr "retired")
          (obj_remove "pendingNext" (obj_remove "priorRounds" (members payload)))).

Definition push_unique_prior_round (priors : list json) (snap : json) : list json :=
  match prior_round_number snap with
  | None => priors
  | Some round =>
      if existsb (λ p, bool_decide (prior_round_number p = Some round)) priors then priors
      else priors ++ [snap]
  end.

Definition WAR_GAME_PRIOR_ROUNDS_MAX : nat := 300.
Definition WAR_GAME_PRIOR_ROUNDS_MAX_BYTES : Z := 131072.

Definition round_key (p : json) : Z := default 0 (prior_round_number p).
Definition round_le (a b : json) : Prop := round_key a ≤ round_key b.
#[export] Instance round_le_dec : RelDecision round_le.
Proof. intros a b. unfold round_le. apply _. Defined.

(** The last [n] of a list. *)
Definition keep_last (n : nat) (l : list json) : list json := drop (length l - n) l.

Section merge.
Context `{SerdeText} `{Rusqlite} `{Alloy}.

(** [while !out.is_empty()]: the oldest rounds go until the rest fits. *)
Fixpoint evict (l : list json) : list json :=
  match l with
  | [] => []
  | _ :: l' => if len (to_text (JArr l)) <=? WAR_GAME_PRIOR_ROUNDS_MAX_BYTES then l else evict l'
  end.

Definition array_of (v : option json) : list json := default [] (v ≫= as_array).

Definition union_prior_rounds (stored incoming : option json) : list json :=
  let out := foldl push_unique_prior_round [] (array_of stored) in
  let out := foldl push_unique_prior_round out (array_of incoming) in
  let out := merge_sort round_le out in
  evict (keep_last WAR_GAME_PRIOR_ROUNDS_MAX out).

(** [if let Some(obj) = v.as_object_mut()] *)
Definition update_object (f : list (string * json) → list (string * json)) (v : json) : json :=
  match v with JObj fs => JObj (f fs) | _ => v end.

Definition put_priors (merged : list json) (v : json) : json :=
  update_object (λ fs, match merged with
                       | [] => obj_remove "priorRounds" fs
                       | _ => obj_insert "priorRounds" (JArr merged) fs
                       end) v.

Definition cap_prior_rounds_in_place (v : json) : json :=
  put_priors (union_prior_rounds None (value_get "priorRounds" v)) v.

Definition strip_incoming_pending_next (v : json) : json := update_object (obj_remove "pendingNext") v.

(** The incoming payload, cleaned. *)
Definition clean_incoming (v : json) : json := cap_prior_rounds_in_place (strip_incoming_pending_next v).

(** An older round is filed under the stored one. *)
Definition merge_older (stored_v incoming_v : json) : json :=
  let merged := union_prior_rounds (value_get "priorRounds" stored_v)
                  (Some (JArr [war_game_round_snapshot incoming_v])) in
  update_object (obj_insert "priorRounds" (JArr merged)) stored_v.

(** A newer round takes over, and the stored one is filed. *)
Definition merge_newer (stored_v incoming_v : json) : json :=
  let merged := union_prior_rounds (value_get "priorRounds" stored_v)
                  (Some (JArr [war_game_round_snapshot stored_v])) in
  update_object (obj_insert "priorRounds" (JArr merged)) incoming_v.

(** The same round: replaced, with the filed rounds of both and the local [pendingNext]. *)
Definition merge_same (stored_v incoming_v : json) : json :=
  let merged := union_prior_rounds (value_get "priorRounds" stored_v) (value_get "priorRounds" incoming_v) in
  let out := put_priors merged incoming_v in
  match value_get "pendingNext" stored_v with
  | Some pending => update_object (obj_insert "pendingNext" pending) out
  | None => out
  end.

Definition merge_war_game_provider_payloads (stored : option string) (incoming : string) : string :=
  match parse_value incoming with
  | None => incoming
  | Some incoming_raw =>
      let incoming_v := clean_incoming incoming_raw in
      match json_round_u64 incoming_v with
      | None => to_text incoming_v
      | Some incoming_round =>
          match s ← trimmed_opt stored; parse_value s with
          | None => to_text incoming_v
          | Some stored_v =>
              let stored_round := default 0 (json_round_u64 stored_v) in
              to_text (if incoming_round <? stored_round then merge_older stored_v incoming_v
                       else if stored_round <? incoming_round then merge_newer stored_v incoming_v
                       else merge_same stored_v incoming_v)
          end
      end
  end.

(** ** The announcement *)

(** The stored top hat and payload; every failure reads as none. *)
Definition pacto_gov_wargame_stored_row (parent_id : string) : Act (option (string * string)) :=
  let! row := attempt (
    get_db_connection ;!
    query_row id (λ d,
      match head (order_by_ms_desc infra_updated_key
                    (filter (λ x, in_parent_id x.2 = parent_id ∧ in_infra_type x.2 = "pacto_gov_wargame")
                       (map_to_list (infra d)))) with
      | None => Ok None
      | Some (_, r) =>
          match in_provider_payload r with
          | Some payload => Ok (Some (in_canonical_ref r, payload))
          | None => Err (invalid_column_type 1 "provider_payload")
          end
      end)) in
  mret (x ← default None (res_ok row); if blank x.1 || blank x.2 then None else Some x).

(** What an announcement has to carry: the top hat, the payload and its round. *)
Definition war_game_fields (p : json) : option (string * string * Z) :=
  action ← json_nonempty_str p "action";
  if negb (bool_decide (action ∈ ["deploy"; "redeploy"; "retire"])) then None
  else
    canonical_ref ← json_nonempty_str p "canonical_ref";
    _ ← json_nonempty_str p "round";
    _ ← json_nonempty_str p "game_squad_id";
    _ ← json_nonempty_str p "sponsor";
    provider_payload ← json_nonempty_str p "provider_payload";
    incoming_v ← parse_value provider_payload;
    _ ← json_nonempty_str incoming_v "gameSquadId";
    incoming_round ← json_round_u64 incoming_v;
    _ ← json_nonempty_str incoming_v "sponsor";
    Some (canonical_ref, provider_payload, incoming_round).

Definition maybe_upsert_war_game_from_announce (content chat_id : string) (author_npub : option string)
    : Act unit :=
  match announced "war_game_updated" "parent_id" content chat_id author_npub with
  | None => mret tt
  | Some (author, p, parent_id) =>
      if_member chat_id author
        match war_game_fields p with
        | None => mret tt
        | Some (canonical_ref, provider_payload, incoming_round) =>
            let! stored := pacto_gov_wargame_stored_row parent_id in
            let stored_round := default 0 (x ← stored; v ← parse_value x.2; json_round_u64 v) in
            let merged := merge_war_game_provider_payloads (snd <$> stored) provider_payload in
            let hat := if incoming_round <? stored_round then from_option fst canonical_ref stored
                       else canonical_ref in
            let chain := default "sepolia" (json_nonempty_str p "chain") in
            ignore (persist_pacto_gov_wargame_infra parent_id chain hat merged)
        end
  end.
End merge.
