(* ===== verification/Stickers.v ===== *)
(** * Sticker packs of a squad ([db/squad.rs], [sticker_pack.rs])

    One row per squad and pack; a deleted pack is a tombstone. Announcements of members
    replace a row when they are newer, this device's own edits always. The images
    (encryption, upload, cache) are not modelled. *)

From S2P Require Import Prelude World Json Schema Records EvmRead Announce.

Definition stickers (d : Db) : gmap (string * string) StickerSqlRow := sh_stickers (dv_shared (db_device d)).

(** ** Entries *)

Record StickerEntry : Type := mkStickerEntry {
  en_shortcode : string; en_url : string; en_key : string; en_nonce : string; en_mime : string;
  en_size : Z;
}.

Definition STICKER_ENTRY_FIELDS : list string := ["shortcode"; "url"; "key"; "nonce"; "mime"; "size"].

Definition ser_sticker (e : StickerEntry) : json :=
  JObj (obj_fields [("shortcode", Some (JStr (en_shortcode e))); ("url", Some (JStr (en_url e)));
    ("key", Some (JStr (en_key e))); ("nonce", Some (JStr (en_nonce e)));
    ("mime", Some (JStr (en_mime e))); ("size", Some (JNum (en_size e)))]).

Definition de_u64 : json → option Z := de_int 0 (2 ^ 64 - 1).

Definition de_sticker (j : json) : option StickerEntry :=
  fs ← struct_fields STICKER_ENTRY_FIELDS j;
  shortcode ← req de_string "shortcode" fs;
  url ← req de_string "url" fs;
  key ← req de_string "key" fs;
  nonce ← req de_string "nonce" fs;
  mime ← req de_string "mime" fs;
  size ← req de_u64 "size" fs;
  Some (mkStickerEntry shortcode url key nonce mime size).

(** [StickerPackRow]: a row with its key. *)
Notation StickerPackRow := ((string * string) * StickerSqlRow)%type.

Record StickerPackDto : Type := mkPackDto {
  sd_squad_id : string; sd_pack_id : string; sd_name : string; sd_entries : list StickerEntry;
  sd_updated_at : Z; sd_updated_by : string; sd_deleted : bool;
}.

Definition STICKER_PACK_MAX_ENTRIES : Z := 300.
Definition STICKER_PACK_MAX_ENTRIES_BYTES : Z := 131072.
Definition STICKER_PACKS_UPDATED : string := "sticker_packs_updated".

(** [ORDER BY squad_id, pack_id] *)
Definition pack_le (a b : StickerPackRow) : Prop :=
  if decide (a.1.1 = b.1.1) then String.le a.1.2 b.1.2 else String.le a.1.1 b.1.1.
#[export] Instance pack_le_dec : RelDecision pack_le.
Proof. intros a b. unfold pack_le. destruct (decide _); apply _. Defined.

Definition live_packs (d : Db) : list StickerPackRow :=
  merge_sort pack_le (filter (λ kr, sk_deleted kr.2 = false) (map_to_list (stickers d))).

(** [ON CONFLICT(squad_id, pack_id) DO UPDATE .. WHERE excluded.updated_at > ..], with the
    number of rows changed. *)
Definition upsert_newer_pack (key : string * string) (r : StickerSqlRow)
    (m : gmap (string * string) StickerSqlRow) : Z * gmap (string * string) StickerSqlRow :=
  match m !! key with
  | Some old => if sk_updated_at old <? sk_updated_at r then (1, <[key := r]> m) else (0, m)
  | None => (1, <[key := r]> m)
  end.

Section stickers.
Context `{SerdeText} `{SerdeErrors}.

Definition load_sticker_packs : Act (list StickerPackRow) :=
  get_db_connection ;!
  query (λ e, "Failed to prepare sticker_packs query: " +:+ e) (λ _, tt) ;!
  query (λ e, "Failed to query sticker_packs: " +:+ e) live_packs.

(** Entries that do not parse are shown as none. *)
Definition pack_json (kr : StickerPackRow) : json :=
  JObj [("deleted", JBool (sk_deleted kr.2));
        ("entries", default (JArr []) (parse_value (sk_entries kr.2)));
        ("name", JStr (sk_name kr.2)); ("packId", JStr kr.1.2); ("squadId", JStr kr.1.1);
        ("updatedAt", JNum (sk_updated_at kr.2)); ("updatedBy", JStr (sk_updated_by kr.2))].

Definition emit_sticker_packs_updated : Act unit :=
  let! rows := attempt load_sticker_packs in
  match rows with
  | Ok rows => output (Emit STICKER_PACKS_UPDATED (JObj [("packs", JArr (pack_json <$> rows))]))
  | Err _ => mret tt
  end.

(** ** A local edit *)

Definition upsert_sticker_pack_inner (squad_id pack_id name entries_json updated_by : string)
    (deleted : bool) : Act StickerPackRow :=
  let sid := trim squad_id in
  if bool_decide (sid = "") then mthrow "squad_id is empty"
  else
    let pid := trim pack_id in
    if bool_decide (pid = "") then mthrow "pack_id is empty"
    else
      let nm := trim name in
      if bool_decide (nm = "") then mthrow "name is empty"
      else
        let author := trim updated_by in
        if bool_decide (author = "") then mthrow "updated_by is empty"
        else
          match parse_value entries_json ≫= as_array with
          | None => mthrow "entries is not a JSON array"
          | Some _ =>
              let! now_ms := now_ms in
              get_db_connection ;!
              let row := mkSticker nm entries_json now_ms author deleted in
              exec_ (λ e, "Failed to upsert sticker_pack: " +:+ e) (set_stickers <[(sid, pid) := row]>) ;!
              mret ((sid, pid), row)
          end.

Definition from_row (row : StickerPackRow) : result StickerPackDto :=
  match of_text (sk_entries row.2) ≫= de_list de_sticker with
  | Some entries =>
      Ok (mkPackDto row.1.1 row.1.2 (sk_name row.2) entries (sk_updated_at row.2) (sk_updated_by row.2)
            (sk_deleted row.2))
  | None => Err ("Corrupt sticker pack entries for " +:+ row.1.1 +:+ "/" +:+ row.1.2 +:+ ": " +:+
                 de_error (sk_entries row.2))
  end.

Definition list_sticker_packs : Act (list StickerPackDto) :=
  let! rows := load_sticker_packs in
  of_result (rmapM from_row rows).

Definition save_sticker_pack (squad_id pack_id name : string) (entries : list StickerEntry)
    (deleted : bool) : Act StickerPackDto :=
  let! updated_by := get_current_account in
  let entries_json := to_text (JArr (ser_sticker <$> entries)) in
  let! row := upsert_sticker_pack_inner squad_id pack_id name entries_json updated_by deleted in
  let! dto := of_result (from_row row) in
  emit_sticker_packs_updated ;!
  mret dto.

(** ** The announcement *)

(** What an announcement has to carry; the entries printed. *)
Definition pack_fields (p : json) (author : string) : option (string * StickerSqlRow) :=
  pack_id ← json_nonempty_str p "pack_id";
  name ← json_nonempty_str p "name";
  entries_val ← value_get "entries" p;
  entries ← as_array entries_val;
  if STICKER_PACK_MAX_ENTRIES <? Z.of_nat (length entries) then None
  else
    let entries_json := to_text entries_val in
    if STICKER_PACK_MAX_ENTRIES_BYTES <? len entries_json then None
    else
      updated_at ← value_get "updated_at" p ≫= as_i64;
      Some (pack_id, mkSticker name entries_json updated_at author
                       (default false (value_get "deleted" p ≫= de_bool))).

Definition maybe_upsert_sticker_pack_from_announce (content chat_id : string)
    (author_npub : option string) : Act unit :=
  match announced "sticker_pack_updated" "squad_id" content chat_id author_npub with
  | None => mret tt
  | Some (author, p, squad_id) =>
      if_member chat_id author
        match pack_fields p author with
        | None => mret tt
        | Some (pack_id, row) =>
            let! conn := attempt get_db_connection in
            if negb (is_okb conn) then mret tt
            else
              let! changed := attempt (execute id (λ d,
                let '(n, m) := upsert_newer_pack (squad_id, pack_id) row (stickers d) in
                (n, set_stickers (λ _, m) d))) in
              if 0 <? default 0 (res_ok changed) then emit_sticker_packs_updated else mret tt
        end
  end.
End stickers.
