(* ===== verification/Roster.v ===== *)
(** * The EVM roster of a squad ([db/squad.rs], [evm/roster_bind_cert.rs], [evm/evm_accounts.rs])

    Which address each member of a squad uses. A row is certified when it holds the
    signature of that address over the parent, the npub and the time of issue.
    Certified rows come from this device's command, from a member's own share and from
    snapshots any member may forward; the account's binding to one of its wallets
    writes an uncertified row. *)

From Stdlib Require Import Ascii.
From S2P Require Import Prelude World Json Schema Records FileNames EvmRead AccessControl Announce.

(** [squad_member_evm] *)
Definition member_evm (d : Db) : gmap (string * string) MemberEvmRow := dv_member_evm (db_device d).
Definition member_account (d : Db) : gmap (string * string) MemberEvmAccountRow :=
  dv_member_evm_account (db_device d).

(** Alloy's signatures. *)
Class Signatures : Type := {
  Signature : Type;
  PrivateKeySigner : Type;
  (** [Signature::try_from(bytes)], [as_bytes], [recover_address_from_prehash] *)
  sig_try_from : list ascii → result Signature;
  sig_as_bytes : Signature → list ascii;
  recover_address_from_prehash : Signature → Z → result Address;
  (** [PrivateKeySigner::address], [sign_hash_sync] *)
  signer_address : PrivateKeySigner → Address;
  sign_hash_sync : PrivateKeySigner → Z → result Signature;
}.

(** A signature is 65 bytes and reads back; signing yields one of the signer's address. *)
Class SignaturesLaws `{Signatures} : Prop := {
  sig_bytes_length : ∀ s, length (sig_as_bytes s) = 65%nat;
  sig_bytes_roundtrip : ∀ s, sig_try_from (sig_as_bytes s) = Ok s;
  sign_recover : ∀ w h s, sign_hash_sync w h = Ok s →
    recover_address_from_prehash s h = Ok (signer_address w);
  signer_address_range : ∀ w, 0 ≤ signer_address w < 2 ^ 160;
}.

(** ** Words and hex *)

(** [n] as [k] bytes, the highest first. *)
Fixpoint be_bytes (k : nat) (n : Z) (acc : list ascii) : list ascii :=
  match k with
  | O => acc
  | S k' => be_bytes k' (n / 256) (ascii_of_N (Z.to_N (n `mod` 256)) :: acc)
  end.
Definition word (n : Z) : list ascii := be_bytes 32 n [].
(** [abi_encode] of a tuple of static words. *)
Definition abi_words (ws : list Z) : list ascii := ws ≫= word.

(** [hex::encode] *)
Definition hex_encode (l : list ascii) : string :=
  text (l ≫= λ a, [nibble (Z.of_N (code a) / 16); nibble (Z.of_N (code a) `mod` 16)]).

(** The byte two hex digits spell. *)
Definition hex_pair (a b : ascii) : option ascii :=
  hi ← nibble_value a; lo ← nibble_value b; Some (ascii_of_N (Z.to_N (hi * 16 + lo))).
Fixpoint hex_bytes (l : list ascii) : option (list ascii) :=
  match l with
  | [] => Some []
  | a :: b :: l' => x ← hex_pair a b; xs ← hex_bytes l'; Some (x :: xs)
  | _ => None
  end.

(** ** The certificate ([roster_bind_cert.rs]) *)

Definition DOMAIN_NAME : string := "pacto-squad-roster".
Definition DOMAIN_VERSION : string := "1".
Definition DOMAIN_TYPEHASH : string :=
  "EIP712Domain(string name,string version,uint256 chainId,address verifyingContract)".
Definition BIND_TYPEHASH : string :=
  "SquadRosterBind(string parentId,string memberNpub,address evmAddress,uint64 issuedAt)".
Definition MAX_ISSUED_AT_SKEW_SECS : Z := 300.

Section cert.
Context `{Alloy} `{Signatures}.

Definition keccak_bytes (l : list ascii) : Z := keccak256 (text l).

Definition roster_bind_signing_hash (parent_id member_npub : string) (evm_address : Address)
    (issued_at : Z) : Z :=
  let domain := keccak_bytes (abi_words
    [keccak256 DOMAIN_TYPEHASH; keccak256 DOMAIN_NAME; keccak256 DOMAIN_VERSION; 0; 0]) in
  let struct_hash := keccak_bytes (abi_words
    [keccak256 BIND_TYPEHASH; keccak256 parent_id; keccak256 member_npub; evm_address; issued_at]) in
  keccak_bytes ([ascii_of_N 25; ascii_of_N 1] ++ word domain ++ word struct_hash).

Definition sign_roster_bind_cert (signer : PrivateKeySigner) (parent_id member_npub : string)
    (issued_at : Z) : result string :=
  let hash := roster_bind_signing_hash parent_id member_npub (signer_address signer) issued_at in
  let? sig := map_err_with (λ e, "bind cert sign failed: " +:+ e) (sign_hash_sync signer hash) in
  Ok ("0x" +:+ hex_encode (sig_as_bytes sig)).

Definition parse_bind_signature (raw : string) : result Signature :=
  let h := strip_0x (trim raw) in
  if negb (String.length h =? 130)%nat || negb (all_hex h) then Err "invalid bind cert signature"
  else
    let? raw := ok_or (hex_bytes (bytes h)) "invalid bind cert signature" in
    map_err_with (λ e, "invalid bind cert signature: " +:+ e) (sig_try_from raw).

(** The signature is [evm_address]'s, over these fields. *)
Definition bind_cert_signed (parent npub : string) (addr : Address) (issued_at : Z) (signature : string)
    : result Address :=
  let hash := roster_bind_signing_hash parent npub addr issued_at in
  let? sig := parse_bind_signature signature in
  let? recovered := map_err_with (λ e, "bind cert recover failed: " +:+ e)
                      (recover_address_from_prehash sig hash) in
  if recovered =? addr then Ok recovered else Err "bind cert recovered address mismatch".

Definition verify_squad_roster_bind_cert (parent_id member_npub evm_address : string) (issued_at : Z)
    (signature : string) : Act Address :=
  let parent := trim parent_id in
  let npub := trim member_npub in
  if bool_decide (parent = "") || bool_decide (npub = "")
  then mthrow "bind cert parent_id and member_npub required"
  else
    let! addr := of_result (parse_address evm_address) in
    let! recovered := of_result (bind_cert_signed parent npub addr issued_at signature) in
    let! t := now in
    let now := if t <? 0 then 0 else t / 1000 in
    if Z.min (2 ^ 64 - 1) (now + MAX_ISSUED_AT_SKEW_SECS) <? issued_at
    then mthrow "bind cert issued_at too far in the future"
    else mret recovered.

Definition require_verified_bind_cert_for_upsert (parent_id member_npub evm_address : string)
    (issued_at : option Z) (bind_signature : option string) : Act (Z * string) :=
  let! issued := of_result (ok_or issued_at "bind cert required") in
  if issued <=? 0 then mthrow "bind cert issued_at must be positive"
  else
    let! sig := of_result (ok_or bind_signature "bind cert required") in
    let sig_trim := trim sig in
    if bool_decide (sig_trim = "") then mthrow "bind cert signature required"
    else
      verify_squad_roster_bind_cert parent_id member_npub evm_address issued sig_trim ;!
      mret (issued, sig_trim).
End cert.

(** ** Purposes of local accounts ([evm_accounts.rs]) *)

Definition PURPOSE_SQUAD : string := "squad".
Definition PURPOSE_ADVANCED : string := "advanced".

Definition normalize_purpose (raw : string) : result string :=
  let s := to_ascii_lowercase (trim raw) in
  if bool_decide (s = PURPOSE_SQUAD) then Ok PURPOSE_SQUAD
  else if bool_decide (s = PURPOSE_ADVANCED) then Ok PURPOSE_ADVANCED
  else if bool_decide (s = "") then Ok PURPOSE_SQUAD
  else Err ("Unknown EVM account purpose: " +:+ trim s).

Definition address_purpose (address : string) : Act (option string) :=
  match normalize_hex_address (trim address) with
  | None => mret None
  | Some norm =>
      get_db_connection ;!
      let! purpose := query (λ e, "evm_accounts purpose lookup: " +:+ e) (λ d,
        (λ x, ea_purpose x.2) <$>
          find_first (λ x, bool_decide (to_ascii_lowercase (ea_address x.2) = to_ascii_lowercase norm))
            (map_to_list (evm_accounts d))) in
      mret ((λ p, default PURPOSE_SQUAD (res_ok (normalize_purpose p))) <$> purpose)
  end.

Definition ensure_address_allowed_on_squad_roster (address : string) : Act unit :=
  let! purpose := address_purpose address in
  if bool_decide (purpose = Some PURPOSE_ADVANCED)
  then mthrow "Advanced-purpose EVM accounts cannot be linked to squad rosters or shared profile defaults."
  else mret tt.

(** ** Rows *)

(** [ON CONFLICT .. DO UPDATE .. WHERE excluded.issued_at >= ..], and the rows changed. *)
Definition upsert_issued (key : string * string) (r : MemberEvmRow)
    (m : gmap (string * string) MemberEvmRow) : Z * gmap (string * string) MemberEvmRow :=
  match m !! key with
  | Some old => if me_issued_at old <=? me_issued_at r then (1, <[key := r]> m) else (0, m)
  | None => (1, <[key := r]> m)
  end.

Definition upsert_certified_squad_member_evm (parent_id member_npub evm_address : string)
    (issued_at : Z) (bind_signature : string) (now_ms : Z) : Act bool :=
  let! changed := execute (λ e, "Failed to upsert squad_member_evm: " +:+ e) (λ d,
    let '(n, m) := upsert_issued (parent_id, member_npub)
                     (mkMemberEvm evm_address now_ms issued_at bind_signature) (member_evm d) in
    (n, set_member_evm (λ _, m) d)) in
  mret (0 <? changed).

Definition is_certified_squad_member_evm_row (issued_at : Z) (bind_signature : string) : bool :=
  (0 <? issued_at) && negb (blank bind_signature).

(** [SquadMemberEvmRow]: the npub and the row. *)
Notation SquadMemberEvmRow := (string * MemberEvmRow)%type.

(** Of the rows of two parents, the certified one touched last. *)
Definition take_best (best : gmap string MemberEvmRow) (row : SquadMemberEvmRow) : gmap string MemberEvmRow :=
  if negb (is_certified_squad_member_evm_row (me_issued_at row.2) (me_bind_signature row.2)) then best
  else match best !! row.1 with
       | Some existing => if me_updated_at_ms existing <? me_updated_at_ms row.2
                          then <[row.1 := row.2]> best else best
       | None => <[row.1 := row.2]> best
       end.

Definition npub_key (x : SquadMemberEvmRow) : Z * string := (0, x.1).
Definition roster_rows (d : Db) (pid : string) : list SquadMemberEvmRow :=
  order_by_ms npub_key
    (omap (λ x, if decide (x.1.1 = pid) then Some (x.1.2, x.2) else None) (map_to_list (member_evm d))).

Definition list_squad_member_evm (parent_id : string) (alt_parent_id : option string)
    : Act (list SquadMemberEvmRow) :=
  let parent := trim parent_id in
  if bool_decide (parent = "") then mret []
  else
    let alt := s ← trimmed_opt alt_parent_id; if bool_decide (s = parent) then None else Some s in
    get_db_connection ;!
    query (λ e, "Failed to list squad_member_evm: " +:+ e) (λ _, tt) ;!
    let! best := foldM (λ best pid,
      let! rows := query (λ e, "Failed to query squad_member_evm: " +:+ e) (λ d, roster_rows d pid) in
      mret (foldl take_best best rows)) ∅ (parent :: option_list alt) in
    mret (order_by_ms npub_key (map_to_list best)).

Section roster.
Context `{SerdeText} `{Alloy} `{Signatures}.

(** ** Commands *)

Definition upsert_squad_member_evm (parent_id evm_address : string) (issued_at : option Z)
    (bind_signature : option string) : Act unit :=
  require_key_derivation_version_2_on_handle ;!
  let! member_npub := get_current_account in
  let parent := trim parent_id in
  if bool_decide (parent = "") then mthrow "parent_id is empty"
  else
    let! norm := of_result (ok_or (normalize_hex_address (trim evm_address)) "Invalid EVM address") in
    ensure_address_allowed_on_squad_roster norm ;!
    let! (issued, sig) := require_verified_bind_cert_for_upsert parent member_npub norm issued_at
                             bind_signature in
    get_db_connection ;!
    let! now_ms := now_ms in
    upsert_certified_squad_member_evm parent member_npub norm issued sig now_ms ;!
    mret tt.

Definition upsert_squad_member_evm_account (parent_id evm_account_id : string) : Act SquadMemberEvmRow :=
  require_key_derivation_version_2_on_handle ;!
  let! member_npub := get_current_account in
  let parent := trim parent_id in
  if bool_decide (parent = "") then mthrow "parent_id is empty"
  else
    let account_id := trim evm_account_id in
    if bool_decide (account_id = "") then mthrow "evm_account_id is empty"
    else
      get_db_connection ;!
      let unknown := λ _ : string, "Unknown EVM account." in
      let! purpose := query_row unknown (λ d, ok_or (ea_purpose <$> evm_accounts d !! account_id) "") in
      if bool_decide (to_ascii_lowercase (trim purpose) = PURPOSE_ADVANCED)
      then mthrow "Advanced-purpose EVM accounts cannot be linked to squad rosters."
      else
        let! address := query_row unknown (λ d, ok_or (ea_address <$> evm_accounts d !! account_id) "") in
        let! norm := of_result (ok_or (normalize_hex_address (trim address)) "Invalid EVM address") in
        ensure_address_allowed_on_squad_roster norm ;!
        let! now_ms := now_ms in
        let key := (parent, member_npub) in
        tx (λ e, "Failed to begin squad EVM upsert transaction: " +:+ e)
           (λ e, "Failed to commit squad EVM upsert: " +:+ e)
           (exec_ (λ e, "Failed to upsert squad_member_evm_account: " +:+ e)
              (set_member_evm_account <[key := mkMemberEvmAccount account_id now_ms]>) ;!
            exec_ (λ e, "Failed to upsert squad_member_evm: " +:+ e)
              (set_member_evm <[key := mkMemberEvm norm now_ms 0 ""]>) ;!
            mret (tt, true)) ;!
        mret (member_npub, mkMemberEvm norm now_ms 0 "").

Definition list_evm_account_squad_bindings : Act (list (string * string)) :=
  let! member_npub := get_current_account in
  get_db_connection ;!
  query (λ e, "Failed to prepare squad binding query: " +:+ e) (λ _, tt) ;!
  query (λ e, "Failed to list squad bindings: " +:+ e) (λ d,
    order_by_ms (λ x, (0, x.2))
      (omap (λ x, if decide (x.1.2 = member_npub) then Some (ma_evm_account_id x.2, x.1.1) else None)
         (map_to_list (member_account d)))).

Definition roster_evm_address_for_member (parent_id member_npub : string) : Act (option string) :=
  let parent := trim parent_id in
  if bool_decide (parent = "") then mret None
  else
    get_db_connection ;!
    let! addr := query (λ e, "Failed to read squad_member_evm: " +:+ e)
                   (λ d, me_evm_address <$> member_evm d !! (parent, trim member_npub)) in
    mret (a ← addr; n ← normalize_hex_address (trim a); if bool_decide (n = "") then None else Some n).

Definition resolve_squad_roster_evm_address (parent_id : string) (member_npub : option string)
    : Act (option string) :=
  let parent := trim parent_id in
  if bool_decide (parent = "") then mret None
  else
    let! member := match trimmed_opt member_npub with
                   | Some m => mret m
                   | None => get_current_account
                   end in
    let! account_id := get_squad_member_evm_account_id parent (Some member) in
    match account_id with
    | None => mret None
    | Some account_id =>
        get_db_connection ;!
        let! addr := query (λ e, "Failed to read evm_accounts: " +:+ e)
                       (λ d, ea_address <$> evm_accounts d !! account_id) in
        mret (a ← addr; normalize_hex_address (trim a))
    end.

(** ** Certificates of others *)

Record RosterBindCertIngest : Type := mkCert {
  rc_parent_id : string; rc_member_npub : string; rc_evm_address : string; rc_issued_at : Z;
  rc_signature : string;
}.

(** [str::parse::<i64>] *)
Definition parse_i64 (s : string) : option Z :=
  match s with
  | String "-" EmptyString => None
  | String "-" s' => n ← parse_digits s' 0; if n <=? 2 ^ 63 then Some (- n) else None
  | _ => parse_unsigned i64_max s
  end.

(** A number, a [u64] wrapped, or a text of digits. *)
Definition json_issued_at (v : option json) : option Z :=
  match v with
  | Some (JNum z) =>
      match as_i64 (JNum z) with
      | Some n => Some n
      | None => wrap64 <$> as_u64 (JNum z)
      end
  | Some (JStr s) => parse_i64 (trim s)
  | _ => None
  end.

Definition roster_bind_cert_from_json (p : json) (parent_id : string) : option RosterBindCertIngest :=
  member_npub ← json_nonempty_str p "member_npub";
  raw_addr ← json_nonempty_str p "evm_address";
  evm_address ← normalize_hex_address raw_addr;
  issued_at ← json_issued_at (value_get "issued_at" p);
  if 0 <? issued_at then
    signature ← json_nonempty_str p "signature";
    Some (mkCert parent_id member_npub evm_address issued_at signature)
  else None.

Definition is_object (v : json) : bool := match v with JObj _ => true | _ => false end.

(** [parsed.get("payload").filter(is_object)] of a message of this type. *)
Definition object_payload (parsed : json) : option json :=
  p ← value_get "payload" parsed; if is_object p then Some p else None.

Definition version_of (parsed : json) : option Z := value_get "version" parsed ≫= as_u64.

Definition parse_v2_squad_member_evm_share (content author_npub : string) : option RosterBindCertIngest :=
  let author := trim author_npub in
  if bool_decide (author = "") then None
  else
    parsed ← parse_value content;
    if negb (bool_decide (get_str "type" parsed = Some "squad_member_evm_share")) then None
    else if negb (bool_decide (version_of parsed = Some 2)) then None
    else
      p ← object_payload parsed;
      parent_id ← json_nonempty_str p "parent_id";
      cert ← roster_bind_cert_from_json p parent_id;
      if bool_decide (rc_member_npub cert = author) then Some cert else None.

(** Entries that do not read are skipped. *)
Definition certs_from_json (members : list json) (parent_id : string) : list RosterBindCertIngest :=
  omap (λ raw, roster_bind_cert_from_json raw parent_id) members.

Definition parse_squad_evm_roster_snapshot_certs (content : string)
    : option (string * list RosterBindCertIngest) :=
  parsed ← parse_value content;
  if negb (bool_decide (get_str "type" parsed = Some "squad_evm_roster_snapshot")) then None
  else if negb (default 1 (version_of parsed) =? 1) then None
  else
    p ← object_payload parsed;
    parent_id ← json_nonempty_str p "parent_id";
    members ← value_get "members" p ≫= as_array;
    Some (parent_id, certs_from_json members parent_id).

Definition apply_verified_roster_bind_cert (chat_id : string) (cert : RosterBindCertIngest) : Act bool :=
  if negb (side_effect_parent_matches_chat chat_id (rc_parent_id cert)) then mret false
  else
    let! verified := attempt (verify_squad_roster_bind_cert (rc_parent_id cert) (rc_member_npub cert)
                       (rc_evm_address cert) (rc_issued_at cert) (rc_signature cert)) in
    if negb (is_okb verified) then mret false
    else
      let! now_ms := now_ms in
      let! applied := attempt (upsert_certified_squad_member_evm (rc_parent_id cert) (rc_member_npub cert)
                        (rc_evm_address cert) (rc_issued_at cert) (rc_signature cert) now_ms) in
      mret (default false (res_ok applied)).

Definition try_apply_squad_member_evm_share (content chat_id : string) (author_npub : option string)
    : Act unit :=
  match author ← trimmed_opt author_npub; parse_v2_squad_member_evm_share content author with
  | None => mret tt
  | Some cert =>
      let! allowed := attempt (ensure_address_allowed_on_squad_roster (rc_evm_address cert)) in
      if negb (is_okb allowed) then mret tt
      else
        let! conn := attempt get_db_connection in
        if negb (is_okb conn) then mret tt
        else let! _ := apply_verified_roster_bind_cert chat_id cert in mret tt
  end.

Definition try_apply_squad_evm_roster_snapshot (content chat_id : string) (author_npub : option string)
    : Act unit :=
  match trimmed_opt author_npub with
  | None => mret tt
  | Some author =>
      match parse_squad_evm_roster_snapshot_certs content with
      | None => mret tt
      | Some (parent_id, certs) =>
          if negb (side_effect_parent_matches_chat chat_id parent_id) then mret tt
          else
            if_member chat_id author (
              let! conn := attempt get_db_connection in
              if negb (is_okb conn) then mret tt
              else
                foldM (λ _ cert,
                  let! allowed := attempt (ensure_address_allowed_on_squad_roster (rc_evm_address cert)) in
                  if negb (is_okb allowed) then mret tt
                  else let! _ := apply_verified_roster_bind_cert chat_id cert in mret tt) tt certs)
      end
  end.
End roster.
