(* ===== verification/Allowlist.v ===== *)
(** * Contracts and tokens a squad lists ([db/squad.rs])

    The contracts a squad may call are listed explicitly ([squad_contract_allowlist]) or
    follow from its infra, its Safes and the deployments of the address book
    ([evm/pacto_chain_config.rs]). Tracked tokens are listed the same way. Both lists
    are edited by commands, which need a deployed governance, and by announcements of
    members. *)

From S2P Require Import Prelude World Json Schema Records EvmRead AccessControl Announce SquadInfra.

Definition allowlist (d : Db) : gmap string AllowSqlRow := sh_allowlist (dv_shared (db_device d)).
Definition tokens (d : Db) : gmap string TokenSqlRow := sh_tokens (dv_shared (db_device d)).

(** ** Two tables of one shape: an id, and one row per parent, chain and address *)

Notation Place := (string * string * string)%type.

Section placed.
Context `{Rusqlite} {R : Type} (place : R → Place) (update : R → R → R).

(** [ON CONFLICT(id) DO UPDATE]: [update old new]. The unique index refuses a second id
    for a place. *)
Definition upsert_placed (table id : string) (r : R) (m : gmap string R) : result (gmap string R) :=
  match m !! id with
  | Some old => Ok (<[id := update old r]> m)
  | None =>
      if existsb (λ x, bool_decide (place x.2 = place r)) (map_to_list m)
      then Err (constraint_failed table)
      else Ok (<[id := r]> m)
  end.

(** [DELETE .. WHERE id = ?1 AND parent_id = ?2], with the rows removed. *)
Definition delete_placed (id parent_id : string) (m : gmap string R) : Z * gmap string R :=
  match m !! id with
  | Some r => if bool_decide ((place r).1.1 = parent_id) then (1, delete id m) else (0, m)
  | None => (0, m)
  end.
End placed.

Definition allow_place (r : AllowSqlRow) : Place := (al_parent_id r, al_chain r, al_contract_address r).
Definition update_allow (old r : AllowSqlRow) : AllowSqlRow :=
  mkAllow (al_parent_id old) (al_chain old) (al_contract_address old) (al_label r) (al_added_by_npub old)
    (al_abi_ref r) (al_notes r) (al_created_at_ms old) (al_updated_at_ms r).

Definition token_place (r : TokenSqlRow) : Place := (tk_parent_id r, tk_chain r, tk_token_address r).
Definition update_token (old r : TokenSqlRow) : TokenSqlRow :=
  mkToken (tk_parent_id old) (tk_chain old) (tk_token_address old) (tk_symbol r) (tk_decimals r)
    (tk_added_by_npub old) (tk_created_at_ms old) (tk_updated_at_ms r).

(** ** Normal forms *)

Definition normalize_allowlist_chain (raw : string) : result string :=
  let c := to_ascii_lowercase (trim raw) in
  if bool_decide (c = "") then Err "Chain is required." else Ok c.

Definition normalize_allowlist_address (raw : string) : result string :=
  ok_or (normalize_hex_address (trim raw)) "Contract address must be a valid 0x address.".

Definition listed_row_id (prefix parent_id chain address : string) : string :=
  prefix +:+ trim parent_id +:+ "-" +:+ to_ascii_lowercase (trim chain) +:+ "-" +:+
  to_ascii_lowercase (trim address).
Definition allowlist_row_id : string → string → string → string := listed_row_id "allowlist-".
Definition tracked_token_row_id : string → string → string → string := listed_row_id "tracked-".

(** ** Deployments of the address book *)

Record SquadSponsorBook : Type := mkSponsorBook {
  sb_factory : string; sb_paymaster : string; sb_entry_point : string;
}.
Record SafeBook : Type := mkSafeBook {
  sf_proxy_factory : string; sf_singleton : string; sf_fallback_handler : string;
}.
Definition sponsor_book_for (net_key : string) : option SquadSponsorBook :=
  if decide (net_key = "sepolia") then
    Some (mkSponsorBook "0xEd1dAd3d42159CA504e86151beAfBce6c86f86ae"
      "0x734Cd82B6732f2067De52A3B9F6a5f86843ee424" "0x0000000071727De22E5E9d8BAf0edAc6f37da032")
  else None.
Definition safe_book_for (net_key : string) : option SafeBook :=
  if decide (net_key = "sepolia") then
    Some (mkSafeBook "0x4e1DCf7AD4e460CfD30791CCC4F9c8a4f820ec67"
      "0x41675C099F32341bf84BFc5382aF534df5C7461a" "0x017062a1dE2FE6b99BE3d9d37841FeD19F573804")
  else None.

(** [default_safe_factory_addresses_for_chain_id], addresses as their texts. *)
Definition default_safe_factory_addresses_for_chain_id (chain_id : Z) : option SafeBook :=
  if chain_id =? 1 then
    Some (mkSafeBook "0xa6B71E26C5e0845f74c812102Ca7114b6a896AB2"
      "0xd9Db270c1B5E3Bd161E8c8503c55cEABeE709552" "0xf48f2B2d2a534e402487b3ee7C18c33Aec0Fe5e4")
  else if chain_id =? 42161 then
    Some (mkSafeBook "0xa6B71E26C5e0845f74c812102Ca7114b6a896AB2"
      "0x3E5c63644E683549055b9Be8653de26E0B4CD36E" "0xf48f2B2d2a534e402487b3ee7C18c33Aec0Fe5e4")
  else if chain_id =? 11155111 then
    Some (mkSafeBook "0xC22834581EbC8527d974F8a1c97E1bEA4EF910BC"
      "0x69f4D1788e39c87893C980c06EdF4b7f686e2938" "0x017062a1dE2FE6b99BE3d9d37841FeD19F573804")
  else None.

Record SafeFactoryAddresses : Type := mkSafeFactory {
  sa_singleton : Address; sa_proxy_factory : Address; sa_fallback_handler : Address;
}.
Definition safe_factory_of (b : SafeBook) : option SafeFactoryAddresses :=
  proxy_factory ← res_ok (parse_book_addr (sf_proxy_factory b));
  singleton ← res_ok (parse_book_addr (sf_singleton b));
  fallback_handler ← res_ok (parse_book_addr (sf_fallback_handler b));
  Some (mkSafeFactory singleton proxy_factory fallback_handler).

Section deployments.
Context `{ProcessEnv}.

(** The factory, the paymaster and the entry point of [SquadSponsorDeployAddresses]. *)
Definition squad_sponsor_deploy_addresses (net_key : string) : result (list Address) :=
  let book := sponsor_book_for net_key in
  let? factory := resolve_required "PACTO_SQUAD_SPONSOR_FACTORY" net_key (sb_factory <$> book)
                    "squadSponsor.factory" in
  let? paymaster := resolve_required "PACTO_SPONSOR_PAYMASTER" net_key (sb_paymaster <$> book)
                      "squadSponsor.paymaster" in
  let? entry_point := resolve_required "PACTO_ENTRY_POINT" net_key (sb_entry_point <$> book)
                        "squadSponsor.entryPoint" in
  Ok [factory; paymaster; entry_point].

Definition default_safes (chain_id : Z) : option SafeFactoryAddresses :=
  default_safe_factory_addresses_for_chain_id chain_id ≫= safe_factory_of.

Definition safe_factory_addresses (net_key : string) (chain_id : Z) : option SafeFactoryAddresses :=
  let env_factory := env_addr_optional "PACTO_SAFE_PROXY_FACTORY" net_key in
  let env_singleton := env_addr_optional "PACTO_SAFE_SINGLETON" net_key in
  match env_factory, env_singleton with
  | Some proxy_factory, Some singleton =>
      fallback_handler ← match env_addr_optional "PACTO_SAFE_FALLBACK_HANDLER" net_key with
                         | Some a => Some a
                         | None => sa_fallback_handler <$> default_safes chain_id
                         end;
      Some (mkSafeFactory singleton proxy_factory fallback_handler)
  | _, _ =>
      match safe_book_for net_key ≫= safe_factory_of with
      | Some safe => Some safe
      | None => default_safes chain_id
      end
  end.

(** The deployed contracts a squad may call without listing them. *)
Definition deployed_targets (chain_norm : string) : list Address :=
  match pacto_gov_deploy_addresses chain_norm with
  | Ok gov =>
      [ad_nave_pirata_factory gov; ad_master_quartermaster gov; ad_master_mutiny gov;
       ad_master_treasury_authority gov; ad_master_squad_admin_impl gov;
       ad_master_squad_admin_ext_impl gov] ++
      option_list (ad_nave_pirata_registry gov) ++ option_list (ad_hats gov)
  | Err _ => []
  end ++
  default [] (res_ok (squad_sponsor_deploy_addresses chain_norm)) ++
  match net ← network_by_key chain_norm; safe_factory_addresses chain_norm (nw_chain_id net) with
  | Some sf => [sa_proxy_factory sf; sa_singleton sf; sa_fallback_handler sf]
  | None => []
  end.
End deployments.

(** ** The explicit list *)

Section lists.
Context `{SerdeText} `{Rusqlite} `{Alloy} `{Contracts} `{ProcessEnv}.

Definition require_allowlist_mutation_allowed (parent_id : string) : Act unit :=
  let pid := trim parent_id in
  if bool_decide (pid = "") then mthrow "parent_id is required."
  else
    get_current_account ;!
    let! has := parent_has_pacto_gov_infra pid in
    if (has : bool) then mret tt
    else mthrow ("Allowlist editing requires deployed Pacto Gov for this parent " +:+
                 "(interim captain-gated policy).").

(** Every text in a value that is an address. *)
Fixpoint hex_addresses (v : json) : list string :=
  match v with
  | JStr s => option_list (to_ascii_lowercase <$> normalize_hex_address (trim s))
  | JArr l => concat (hex_addresses <$> l)
  | JObj fs => concat ((λ p, hex_addresses p.2) <$> fs)
  | _ => []
  end.

Definition infra_targets (r : InfraSqlRow) : list string :=
  option_list (to_ascii_lowercase <$> res_ok (normalize_allowlist_address (in_canonical_ref r))) ++
  match payload ← in_provider_payload r; parse_value payload with
  | Some v => hex_addresses v
  | None => []
  end.

(** Two optional statements; those that fail add nothing. *)
Definition optional_rows {A} (f : Db → list A) : Act (list A) :=
  let! rows := attempt (query id (λ _, tt) ;! query id f) in mret (default [] (res_ok rows)).

Definition implicit_allowlist_addresses (parent_id chain : string) : Act (list string) :=
  let pid := trim parent_id in
  let! chain_norm := of_result (normalize_allowlist_chain chain) in
  if bool_decide (pid = "") then mret []
  else
    get_db_connection ;!
    let! infras := optional_rows (λ d,
      filter (λ x, in_parent_id x.2 = pid ∧ to_ascii_lowercase (in_chain x.2) = chain_norm)
        (map_to_list (infra d))) in
    let! safes := optional_rows (λ d,
      filter (λ x, ts_parent_id x.2 = pid ∧ to_ascii_lowercase (ts_chain x.2) = chain_norm)
        (map_to_list (treasury d))) in
    mret (merge_sort String.le (remove_dups (
      concat ((λ x, infra_targets x.2) <$> infras) ++
      omap (λ x, to_ascii_lowercase <$> res_ok (normalize_allowlist_address (ts_safe_address x.2))) safes ++
      ((λ a, to_ascii_lowercase (address_hex a)) <$> deployed_targets chain_norm)))).

(** A failing count is none. *)
Definition is_allowlisted_contract_target (parent_id chain to_address : string) : Act bool :=
  let! to_norm := of_result (normalize_allowlist_address to_address) in
  let to_lower := to_ascii_lowercase to_norm in
  let! implicit := implicit_allowlist_addresses parent_id chain in
  if bool_decide (to_lower ∈ implicit) then mret true
  else
    let pid := trim parent_id in
    let! chain_norm := of_result (normalize_allowlist_chain chain) in
    get_db_connection ;!
    let! n := attempt (query id (λ d,
      existsb (λ x, bool_decide (al_parent_id x.2 = pid) &&
                    bool_decide (to_ascii_lowercase (al_chain x.2) = chain_norm) &&
                    bool_decide (to_ascii_lowercase (al_contract_address x.2) = to_lower))
        (map_to_list (allowlist d)))) in
    mret (default false (res_ok n)).

Definition allow_key (x : string * AllowSqlRow) : Z * string := (al_created_at_ms x.2, x.1).

Definition list_squad_contract_allowlist (parent_id : string) : Act (list (string * AllowSqlRow)) :=
  let pid := trim parent_id in
  if bool_decide (pid = "") then mret []
  else
    get_db_connection ;!
    query (λ e, "Failed to list squad_contract_allowlist: " +:+ e) (λ _, tt) ;!
    query (λ e, "Failed to query squad_contract_allowlist: " +:+ e) (λ d,
      order_by_ms allow_key (filter (λ x, al_parent_id x.2 = pid) (map_to_list (allowlist d)))).

(** The write both writers share; the read of the creation time is [unwrap_or(now)]. *)
Definition write_allow (id : string) (r : Z → AllowSqlRow) (now : Z) : Act AllowSqlRow :=
  let! created := attempt (query (λ e, e) (λ d, al_created_at_ms <$> allowlist d !! id)) in
  let row := r (default now (default None (res_ok created))) in
  insert_row (λ e, "Failed to upsert squad_contract_allowlist: " +:+ e) (λ d,
    let? m := upsert_placed allow_place update_allow "squad_contract_allowlist" id row (allowlist d) in
    Ok (tt, set_allowlist (λ _, m) d)) ;!
  mret row.

Definition upsert_squad_contract_allowlist (parent_id chain contract_address label : string)
    (abi_ref notes : option string) : Act (string * AllowSqlRow) :=
  require_key_derivation_version_2_on_handle ;!
  let pid := trim parent_id in
  let! chain_norm := of_result (normalize_allowlist_chain chain) in
  let! addr_norm := of_result (normalize_allowlist_address contract_address) in
  let! added_by := get_current_account in
  get_db_connection ;!
  require_allowlist_mutation_allowed pid ;!
  let! now := now_ms in
  let id := allowlist_row_id pid chain_norm addr_norm in
  let! row := write_allow id (λ created, mkAllow pid chain_norm addr_norm (trim label) added_by
                (trimmed_opt abi_ref) (trimmed_opt notes) created now) now in
  mret (id, row).

Definition remove_squad_contract_allowlist (parent_id id : string) : Act unit :=
  require_key_derivation_version_2_on_handle ;!
  let pid := trim parent_id in
  let row_id := trim id in
  if bool_decide (pid = "") || bool_decide (row_id = "") then mthrow "parent_id and id are required."
  else
    get_db_connection ;!
    require_allowlist_mutation_allowed pid ;!
    let! n := execute (λ e, "Failed to remove squad_contract_allowlist: " +:+ e) (λ d,
      let '(n, m) := delete_placed allow_place row_id pid (allowlist d) in (n, set_allowlist (λ _, m) d)) in
    if n =? 0 then mthrow "Allowlist row not found." else mret tt.

(** Whether the payload names another adder than its author. *)
Definition claims_other (p : json) (author : string) : bool :=
  match json_nonempty_str p "added_by_npub" with
  | Some claimed => negb (bool_decide (claimed = author))
  | None => false
  end.

Definition action_of (p : json) : string := default "upsert" (get_str "action" p).

Definition apply_allow_remove (entry_id : option string) (parent_id : string) : Act unit :=
  match entry_id with
  | None => mret tt
  | Some id =>
      let! conn := attempt get_db_connection in
      if negb (is_okb conn) then mret tt
      else
        ignore (execute (λ e, e) (λ d,
          let '(n, m) := delete_placed allow_place id parent_id (allowlist d) in
          (n, set_allowlist (λ _, m) d)))
  end.

Definition apply_allow_upsert (p : json) (entry_id : option string) (parent_id author : string) : Act unit :=
  match json_nonempty_str p "chain", json_nonempty_str p "contract_address" with
  | Some chain, Some contract_address =>
      let! conn := attempt get_db_connection in
      if negb (is_okb conn) then mret tt
      else
        match normalize_allowlist_chain chain, normalize_allowlist_address contract_address with
        | Ok chain_norm, Ok addr_norm =>
            let! now := now_ms in
            let id := default (allowlist_row_id parent_id chain_norm addr_norm) entry_id in
            ignore (write_allow id (λ created, mkAllow parent_id chain_norm addr_norm
              (trim (default "" (get_str "label" p))) author (get_str "abi_ref" p) (get_str "notes" p)
              created now) now)
        | _, _ => mret tt
        end
  | _, _ => mret tt
  end.

Definition try_apply_squad_contract_allowlist_announce (content chat_id : string)
    (author_npub : option string) : Act unit :=
  match announced "squad_contract_allowlist_updated" "parent_id" content chat_id author_npub with
  | None => mret tt
  | Some (author, p, parent_id) =>
      if claims_other p author then mret tt
      else
        if_member chat_id author
          (let entry_id := json_nonempty_str p "entry_id" in
           if bool_decide (action_of p = "remove") then apply_allow_remove entry_id parent_id
           else apply_allow_upsert p entry_id parent_id author)
  end.

(** ** Tracked tokens *)

Definition token_key (x : string * TokenSqlRow) : Z * string := (tk_created_at_ms x.2, x.1).

(** [as u8] *)
Definition read_token (r : TokenSqlRow) : TokenSqlRow :=
  mkToken (tk_parent_id r) (tk_chain r) (tk_token_address r) (tk_symbol r) (tk_decimals r `mod` 256)
    (tk_added_by_npub r) (tk_created_at_ms r) (tk_updated_at_ms r).

Definition list_squad_tracked_tokens (parent_id : string) : Act (list (string * TokenSqlRow)) :=
  let pid := trim parent_id in
  if bool_decide (pid = "") then mret []
  else
    get_db_connection ;!
    query (λ e, "Failed to list squad_tracked_tokens: " +:+ e) (λ _, tt) ;!
    query (λ e, "Failed to query squad_tracked_tokens: " +:+ e) (λ d,
      (λ x, (x.1, read_token x.2)) <$>
        order_by_ms token_key (filter (λ x, tk_parent_id x.2 = pid) (map_to_list (tokens d)))).

Definition write_token (id : string) (r : Z → TokenSqlRow) (now : Z) : Act TokenSqlRow :=
  let! created := attempt (query (λ e, e) (λ d, tk_created_at_ms <$> tokens d !! id)) in
  let row := r (default now (default None (res_ok created))) in
  insert_row (λ e, "Failed to upsert squad_tracked_tokens: " +:+ e) (λ d,
    let? m := upsert_placed token_place update_token "squad_tracked_tokens" id row (tokens d) in
    Ok (tt, set_tokens (λ _, m) d)) ;!
  mret row.

(** [decimals] is a [u8]. *)
Definition upsert_squad_tracked_token (parent_id chain token_address symbol : string) (decimals : Z)
    : Act (string * TokenSqlRow) :=
  let pid := trim parent_id in
  let! chain_norm := of_result (normalize_allowlist_chain chain) in
  let! addr_norm := of_result (normalize_allowlist_address token_address) in
  let symbol_trim := trim symbol in
  if bool_decide (symbol_trim = "") then mthrow "Token symbol is required."
  else if 36 <? decimals then mthrow "Token decimals out of range."
  else
    require_capability pid MutateTrackedTokens Live ;!
    let! added_by := get_current_account in
    get_db_connection ;!
    require_allowlist_mutation_allowed pid ;!
    let! now := now_ms in
    let id := tracked_token_row_id pid chain_norm addr_norm in
    let! row := write_token id (λ created, mkToken pid chain_norm addr_norm symbol_trim decimals added_by
                  created now) now in
    mret (id, row).

Definition remove_squad_tracked_token (parent_id id : string) : Act unit :=
  let pid := trim parent_id in
  let row_id := trim id in
  if bool_decide (pid = "") || bool_decide (row_id = "") then mthrow "parent_id and id are required."
  else
    require_capability pid MutateTrackedTokens Live ;!
    get_db_connection ;!
    require_allowlist_mutation_allowed pid ;!
    let! n := execute (λ e, "Failed to remove squad_tracked_tokens: " +:+ e) (λ d,
      let '(n, m) := delete_placed token_place row_id pid (tokens d) in (n, set_tokens (λ _, m) d)) in
    if n =? 0 then mthrow "Tracked token not found." else mret tt.

Inductive TrackedTokenAnnouncePlan : Type :=
| Upsert (parent_id chain token_address symbol : string) (decimals : Z) (entry_id : option string)
| Remove (parent_id entry_id : string).

Definition plan_tracked_tokens_announce (content chat_id author : string)
    : option TrackedTokenAnnouncePlan :=
  p ← announce_payload "squad_tracked_tokens_updated" content;
  parent_id ← json_nonempty_str p "parent_id";
  if negb (side_effect_parent_matches_chat chat_id parent_id) || claims_other p author then None
  else
    let entry_id := json_nonempty_str p "entry_id" in
    if bool_decide (action_of p = "remove") then Remove parent_id <$> entry_id
    else
      chain ← json_nonempty_str p "chain";
      token_address ← json_nonempty_str p "token_address";
      symbol ← json_nonempty_str p "symbol";
      decimals ← value_get "decimals" p ≫= as_u64;
      if decimals <=? 36 then Some (Upsert parent_id chain token_address symbol decimals entry_id)
      else None.

Definition apply_token_plan (plan : TrackedTokenAnnouncePlan) (author : string) : Act unit :=
  let! conn := attempt get_db_connection in
  if negb (is_okb conn) then mret tt
  else
    match plan with
    | Remove parent_id entry_id =>
        ignore (execute (λ e, e) (λ d,
          let '(n, m) := delete_placed token_place entry_id parent_id (tokens d) in
          (n, set_tokens (λ _, m) d)))
    | Upsert parent_id chain token_address symbol decimals entry_id =>
        match normalize_allowlist_chain chain, normalize_allowlist_address token_address with
        | Ok chain_norm, Ok addr_norm =>
            let! now := now_ms in
            let id := default (tracked_token_row_id parent_id chain_norm addr_norm) entry_id in
            ignore (write_token id (λ created, mkToken parent_id chain_norm addr_norm symbol decimals author
              created now) now)
        | _, _ => mret tt
        end
    end.

Definition try_apply_squad_tracked_tokens_announce (content chat_id : string)
    (author_npub : option string) : Act unit :=
  match author ← trimmed_opt author_npub;
        (λ plan, (author, plan)) <$> plan_tracked_tokens_announce content chat_id author with
  | None => mret tt
  | Some (author, plan) => if_member chat_id author (apply_token_plan plan author)
  end.
End lists.
