(* ===== verification/JoinInbox.v ===== *)
(** * The join inbox of a squad ([join_inbox.rs])

    A squad receives requests to join under a key its holders share. [join_inbox_meta]
    has the key's npub, its holders and its epoch, replicated by announcements;
    [join_inbox_secret] has the key, on the holders' devices. A rotation makes a new key
    of the next epoch and sends it to the holders. Keys, their texts and the encryption
    at rest are classes; the requests themselves (gift wraps) come as a list.

    The commands and the reader of key shares wait for the group and for the encryption;
    they are [Task]s, so that announcements and other commands can come in between. Opening
    the inbox reads all it uses before it waits, and is one stretch. *)

From S2P Require Import Prelude World Json Chat Schema Records FileNames EvmRead SquadCatalog Announce.

Definition JOIN_INBOX_META_SCHEMA : string := "pacto.squad.join_inbox.meta.v1".
Definition JOIN_INBOX_KEY_ROTATED_SCHEMA : string := "pacto.squad.join_inbox.key_rotated.v1".
Definition JOIN_INBOX_ROTATE_PROMPT_SCHEMA : string := "pacto.squad.join_inbox.rotate_prompt.v1".
Definition JOIN_INBOX_KEY_SHARE_SCHEMA : string := "pacto.squad.join_inbox.key_share.v1".
Definition JOIN_INBOX_DM_SCHEMA : string := "pacto.squad.join_inbox_dm.v1".
Definition JOIN_INBOX_RESPONSE_DM_SCHEMA : string := "pacto.squad.join_inbox_response.v1".

Definition join_meta (d : Db) : gmap string JoinInboxMetaRow := dv_join_meta (db_device d).
Definition join_secret (d : Db) : gmap string JoinInboxSecretRow := dv_join_secret (db_device d).

(** nostr's [Keys] and [PublicKey], a secret key as a number. *)
Class NostrKeys : Type := {
  (** [Keys::generate], from random bits; [Keys::parse] *)
  keys_generate : Z → Z;
  keys_parse : string → option Z;
  (** [public_key().to_bech32()] and [secret_key().to_bech32()] *)
  key_npub : Z → result string;
  key_nsec : Z → result string;
  (** [PublicKey::parse] and [PublicKey::from_hex], as hex *)
  pk_parse : string → option string;
  pk_from_hex : string → option string;
}.

(** ** Data *)

Record JoinInboxStateDto : Type := mkInboxState {
  ji_squad_id : string; ji_inbox_npub : string; ji_holders : list string; ji_key_epoch : Z;
  ji_updated_at : Z; ji_has_local_secret : bool; ji_i_am_holder : bool;
}.
Record JoinInboxKeyShareOut : Type := mkShareOut { ks_recipient_npub : string; ks_content : string }.
Record JoinInboxPublishBundle : Type := mkBundle {
  jb_state : JoinInboxStateDto; jb_mls_announcements : list string; jb_mls_inbox : list string;
  jb_key_shares : list JoinInboxKeyShareOut;
}.

Definition state_dto (squad_id inbox_npub : string) (holders : list string) (key_epoch updated_at : Z)
    (has_local_secret : bool) (me : string) : JoinInboxStateDto :=
  mkInboxState squad_id inbox_npub holders key_epoch updated_at has_local_secret
    (bool_decide (me ∈ holders)).

(** A bundle with nothing to publish. *)
Definition silent (state : JoinInboxStateDto) : JoinInboxPublishBundle := mkBundle state [] [] [].

Definition unix_now_secs : Act Z := let! t := now in mret (if t <? 0 then 0 else wrap64 (t / 1000)).

(** ** Rows *)

(** The migrations have made both tables and dropped the older ones. *)
Definition ensure_join_inbox_tables : Act unit :=
  let! meta := table_exists in
  let! secret := if (meta : bool) then table_exists else mret false in
  if negb secret then mthrow "join_inbox tables missing; run migrations"
  else query id (λ _, tt) ;! query id (λ _, tt).

Section inbox.
Context `{SerdeText} `{Nostr} `{NostrKeys} `{AtRest}.

Definition is_npub (s : string) : bool := starts_with "npub1" s.

Definition holders_json (holders : list string) : string := to_text (JArr (JStr <$> holders)).
Definition parse_holders (raw : string) : list string :=
  filter (λ s, is_npub s = true) (trim <$> default [] (de_strings raw)).

(** The npub, the holders, the epoch and the stamp. *)
Definition Meta : Type := string * list string * Z * Z.

Definition meta_of (r : JoinInboxMetaRow) : Meta :=
  (jm_inbox_npub r, parse_holders (jm_holders_json r), jm_key_epoch r, jm_updated_at r).

Definition read_meta_row (parent_id : string) : Act (option Meta) :=
  ensure_join_inbox_tables ;!
  query (λ e, "Failed to read join_inbox_meta: " +:+ e) (λ d, meta_of <$> join_meta d !! parent_id).

Definition upsert_meta_row (parent_id inbox_npub : string) (holders : list string)
    (key_epoch updated_at : Z) : Act unit :=
  ensure_join_inbox_tables ;!
  exec_ (λ e, "Failed to upsert join_inbox_meta: " +:+ e)
    (set_join_meta <[parent_id := mkJoinMeta inbox_npub (holders_json holders) key_epoch updated_at]>).

Definition has_secret_row (parent_id : string) : Act bool :=
  ensure_join_inbox_tables ;!
  query id (λ d, bool_decide (is_Some (join_secret d !! parent_id))).

Definition secret_epoch (parent_id : string) : Act (option Z) :=
  ensure_join_inbox_tables ;!
  query id (λ d, js_key_epoch <$> join_secret d !! parent_id).

Definition store_secret_encrypted (parent_id inbox_npub : string) (key_epoch : Z) (encrypted_nsec : string)
    : Act unit :=
  ensure_join_inbox_tables ;!
  let! now := unix_now_secs in
  exec_ (λ e, "Failed to upsert join_inbox_secret: " +:+ e)
    (set_join_secret <[parent_id := mkJoinSecret key_epoch inbox_npub encrypted_nsec now]>).

(** Without a session key the encryption panics. *)
Definition encrypt_nsec (nsec : string) : Act string :=
  let! nonce := now in query (λ _, PANIC) (λ _, internal_encrypt nonce nsec).

Definition decrypt_nsec (encrypted : string) : Act string :=
  query_row (λ _, "Failed to decrypt Join inbox key") (λ _, ok_or (internal_decrypt encrypted) "").

Definition read_secret_row (parent_id : string) : Act (string * Z * string) :=
  ensure_join_inbox_tables ;!
  query_row (λ _, "No local Join inbox key (not a holder on this device)") (λ d,
    ok_or ((λ r, (js_inbox_npub r, js_key_epoch r, js_encrypted_nsec r)) <$> join_secret d !! parent_id) "").

Definition delete_secret (parent_id : string) : Act unit :=
  ensure_join_inbox_tables ;!
  exec_ id (set_join_secret (delete parent_id)).

(** ** Wires *)

Definition meta_content (squad_id inbox_npub : string) (holders : list string) (key_epoch updated_at : Z)
    : string :=
  to_text (JObj [("schema", JStr JOIN_INBOX_META_SCHEMA); ("pacto_virtual_bucket", JStr "announcements");
    ("squadId", JStr squad_id); ("inboxNpub", JStr inbox_npub); ("holders", JArr (JStr <$> holders));
    ("keyEpoch", JNum key_epoch); ("updatedAt", JNum updated_at)]).

Definition key_rotated_content (squad_id inbox_npub : string) (key_epoch : Z) (rotated_by : string)
    (updated_at : Z) : string :=
  to_text (JObj [("schema", JStr JOIN_INBOX_KEY_ROTATED_SCHEMA);
    ("pacto_virtual_bucket", JStr "announcements"); ("squadId", JStr squad_id);
    ("inboxNpub", JStr inbox_npub); ("keyEpoch", JNum key_epoch); ("rotatedByNpub", JStr rotated_by);
    ("updatedAt", JNum updated_at)]).

Definition rotate_prompt_content (squad_id : string) (key_epoch : Z) (removed : string) (updated_at : Z)
    : string :=
  to_text (JObj [("schema", JStr JOIN_INBOX_ROTATE_PROMPT_SCHEMA); ("pacto_virtual_bucket", JStr "inbox");
    ("squadId", JStr squad_id); ("keyEpoch", JNum key_epoch); ("reason", JStr "holder_removed");
    ("removedHolderNpub", JStr removed); ("updatedAt", JNum updated_at)]).

Definition key_share_content (squad_id inbox_npub : string) (key_epoch : Z) (nsec : string) : string :=
  to_text (JObj [("schema", JStr JOIN_INBOX_KEY_SHARE_SCHEMA); ("squadId", JStr squad_id);
    ("inboxNpub", JStr inbox_npub); ("keyEpoch", JNum key_epoch); ("nsec", JStr nsec)]).

(** ** The group *)

Definition normalize_creator_npub (raw : string) : option string :=
  let s := trim raw in
  if bool_decide (s = "") then None
  else
    match pk_parse s with
    | Some pk => res_ok (to_bech32 pk)
    | None => pk ← pk_from_hex s; res_ok (to_bech32 pk)
    end.

Record MlsGroupView : Type := mkGroupView { gv_creator_npub : option string; gv_members : list string }.

Definition group_named (id : string) (g : MlsGroupMetadata) : bool :=
  bool_decide (g_group_id g = id) ||
  negb (bool_decide (g_engine_group_id g = "")) && bool_decide (g_engine_group_id g = id).

(** The keys of the engine's group that have a bech32 form; a group that is not there
    has none. *)
Definition engine_member_npubs (gs : list EngineGroup) (gid : list Byte.byte) : list string :=
  match find_first (λ g, bool_decide (eg_id g = gid)) gs with
  | Some g => omap (λ pk, res_ok (to_bech32 pk)) (eg_members g)
  | None => []
  end.

Definition mls_group_view (group_id : string) : Act MlsGroupView :=
  (* the app handle, [MlsService::new_persistent] *)
  query (λ _, "App handle not initialized") (λ _, tt) ;!
  query id (λ _, tt) ;!
  let! groups := attempt load_mls_groups in
  let meta := find_first (group_named group_id) (default [] (res_ok groups)) in
  let creator_npub := g ← meta; normalize_creator_npub (g_creator_pubkey g) in
  let engine_id := match meta with
                   | Some g => if bool_decide (g_engine_group_id g = "") then g_group_id g
                               else g_engine_group_id g
                   | None => group_id
                   end in
  query id (λ _, tt) ;!
  match hex_decode engine_id with
  | None => mret (mkGroupView creator_npub [])
  | Some gid =>
      let! members := attempt (query id (λ d, engine_member_npubs (st_engine d) gid)) in
      mret (mkGroupView creator_npub (default [] (res_ok members)))
  end.

Definition is_mls_member (group_id npub : string) : Act bool :=
  let! view := mls_group_view group_id in
  mret (bool_decide (npub ∈ gv_members view)).

Definition require_holder (holders : list string) (me : string) : result unit :=
  if bool_decide (me ∈ holders) then Ok tt else Err "Only Join inbox holders can perform this action".

Definition may_mint_join_inbox (me : string) (creator_npub : option string) : result unit :=
  match c ← creator_npub; if bool_decide (c = "") then None else Some c with
  | Some creator =>
      if bool_decide (creator = me) then Ok tt
      else Err ("Only the squad creator can initialize Join inbox — ask them to open Settings → " +:+
                "Join inbox holders")
  | None => Ok tt
  end.

Definition is_same_epoch_split (secret_inbox : string) (secret_epoch : Z) (meta_inbox : string)
    (meta_epoch : Z) : bool :=
  (secret_epoch =? meta_epoch) && negb (bool_decide (secret_inbox = meta_inbox)).

(** ** Commands *)

Definition current_npub : Act string := get_current_account.

Definition required_squad (squad_id : string) : Act string :=
  let s := trim squad_id in
  if bool_decide (s = "") then mthrow "squadId is required" else mret s.

(** [Keys::generate] with both texts. *)
Definition new_key : Act (string * string) :=
  let! bits := now in
  let k := keys_generate bits in
  let! inbox_npub := of_result (key_npub k) in
  let! nsec := of_result (key_nsec k) in
  mret (inbox_npub, nsec).

Definition inbox_keys_for_holder (squad_id : string) : Act (Z * string) :=
  let! squad_id := required_squad squad_id in
  let! me := current_npub in
  get_db_connection ;!
  let! meta := read_meta_row squad_id in
  let! (inbox_npub, holders, key_epoch, _) :=
    of_result (ok_or meta "Join inbox not initialized — open Join inbox settings first") in
  of_result (require_holder holders me) ;!
  let! (secret_inbox, secret_epoch, enc) := read_secret_row squad_id in
  if negb (bool_decide (secret_inbox = inbox_npub)) || negb (secret_epoch =? key_epoch)
  then mthrow "Local Join inbox key is stale — ask a holder to re-share or rotate"
  else
    let! nsec := decrypt_nsec enc in
    let! keys := of_result (ok_or (keys_parse nsec) "Invalid stored Join inbox nsec") in
    let! derived := of_result (key_npub keys) in
    if bool_decide (derived = inbox_npub) then mret (keys, inbox_npub)
    else mthrow "Stored Join inbox nsec does not match inbox npub".

Definition inbox_npub_for_squad (squad_id : string) : Act (option string) :=
  let s := trim squad_id in
  if bool_decide (s = "") then mret None
  else
    get_db_connection ;!
    let! row := read_meta_row s in
    mret ((λ m : Meta, m.1.1.1) <$> row).

Definition join_inbox_init (squad_id : string) : Act (Task Db Effect JoinInboxPublishBundle) :=
  require_key_derivation_version_2_on_handle ;!
  let! squad_id := required_squad squad_id in
  let! me := current_npub in
  get_db_connection ;!
  ensure_join_inbox_tables ;!
  let! meta := read_meta_row squad_id in
  match meta with
  | Some (inbox_npub, holders, key_epoch, updated_at) =>
      let! has := has_secret_row squad_id in
      ready (silent (state_dto squad_id inbox_npub holders key_epoch updated_at has me))
  | None =>
      await (attempt (mls_group_view squad_id)) (λ view,
      let view := default (mkGroupView None []) (res_ok view) in
      of_result (may_mint_join_inbox me (gv_creator_npub view)) ;!
      let! (inbox_npub, nsec) := new_key in
      let holders := [me] in
      let! updated_at := unix_now_secs in
      await (encrypt_nsec nsec) (λ enc,
      get_db_connection ;!
      store_secret_encrypted squad_id inbox_npub 1 enc ;!
      upsert_meta_row squad_id inbox_npub holders 1 updated_at ;!
      ready (mkBundle (state_dto squad_id inbox_npub holders 1 updated_at true me)
               [meta_content squad_id inbox_npub holders 1 updated_at] [] [])))
  end.

Definition join_inbox_get_state (squad_id : string) : Act (option JoinInboxStateDto) :=
  let! squad_id := required_squad squad_id in
  let! me := attempt current_npub in
  let me := default "" (res_ok me) in
  get_db_connection ;!
  let! row := read_meta_row squad_id in
  let! has := has_secret_row squad_id in
  mret ((λ m : Meta, let '(inbox_npub, holders, key_epoch, updated_at) := m in
           state_dto squad_id inbox_npub holders key_epoch updated_at has me) <$> row).

Definition join_inbox_reclaim_if_split (squad_id : string) : Act (Task Db Effect JoinInboxPublishBundle) :=
  require_key_derivation_version_2_on_handle ;!
  let! squad_id := required_squad squad_id in
  let! me := current_npub in
  get_db_connection ;!
  let! meta := read_meta_row squad_id in
  let! (meta_inbox, holders, meta_epoch, updated_at) := of_result (ok_or meta "Join inbox not initialized") in
  let! has := has_secret_row squad_id in
  if negb has then ready (silent (state_dto squad_id meta_inbox holders meta_epoch updated_at false me))
  else
    let! (secret_inbox, secret_epoch, enc) := read_secret_row squad_id in
    if negb (is_same_epoch_split secret_inbox secret_epoch meta_inbox meta_epoch)
    then ready (silent (state_dto squad_id meta_inbox holders meta_epoch updated_at true me))
    else
      await (decrypt_nsec enc) (λ nsec,
      let! keys := of_result (ok_or (keys_parse nsec) "Invalid stored Join inbox nsec") in
      let! derived := of_result (key_npub keys) in
      if negb (bool_decide (derived = secret_inbox))
      then mthrow "Stored Join inbox nsec does not match inbox npub"
      else
        let restored_holders := [me] in
        let key_epoch := saturating_add meta_epoch 1 in
        let! updated_at := unix_now_secs in
        await (encrypt_nsec nsec) (λ enc,
        get_db_connection ;!
        store_secret_encrypted squad_id secret_inbox key_epoch enc ;!
        upsert_meta_row squad_id secret_inbox restored_holders key_epoch updated_at ;!
        ready (mkBundle (state_dto squad_id secret_inbox restored_holders key_epoch updated_at true me)
                 [meta_content squad_id secret_inbox restored_holders key_epoch updated_at] [] []))).

Definition join_inbox_add_holder (squad_id holder_npub : string) : Act (Task Db Effect JoinInboxPublishBundle) :=
  require_key_derivation_version_2_on_handle ;!
  let squad_id := trim squad_id in
  let holder_npub := trim holder_npub in
  if bool_decide (squad_id = "") || negb (is_npub holder_npub)
  then mthrow "squadId and holderNpub are required"
  else
    let! me := current_npub in
    await (is_mls_member squad_id holder_npub) (λ holder_in,
    if negb holder_in then mthrow "Holder must be a current MLS member of this squad"
    else
      await (is_mls_member squad_id me) (λ me_in,
      if negb me_in then mthrow "You must be a current MLS member to manage holders"
      else
        get_db_connection ;!
        let! meta := read_meta_row squad_id in
        let! (inbox_npub, holders, key_epoch, _) := of_result (ok_or meta "Join inbox not initialized") in
        of_result (require_holder holders me) ;!
        let! has := has_secret_row squad_id in
        if negb has then mthrow "Local Join inbox key required to add holders"
        else
          let! updated_at := unix_now_secs in
          if bool_decide (holder_npub ∈ holders)
          then ready (silent (state_dto squad_id inbox_npub holders key_epoch updated_at true me))
          else
            let holders := holders ++ [holder_npub] in
            let! (_, _, enc) := read_secret_row squad_id in
            upsert_meta_row squad_id inbox_npub holders key_epoch updated_at ;!
            await (decrypt_nsec enc) (λ nsec,
            ready (mkBundle (state_dto squad_id inbox_npub holders key_epoch updated_at true me)
                     [meta_content squad_id inbox_npub holders key_epoch updated_at] []
                     [mkShareOut holder_npub (key_share_content squad_id inbox_npub key_epoch nsec)])))).

Definition join_inbox_remove_holder (squad_id holder_npub : string)
    : Act (Task Db Effect JoinInboxPublishBundle) :=
  require_key_derivation_version_2_on_handle ;!
  let squad_id := trim squad_id in
  let holder_npub := trim holder_npub in
  if bool_decide (squad_id = "") || negb (is_npub holder_npub)
  then mthrow "squadId and holderNpub are required"
  else
    let! me := current_npub in
    await (is_mls_member squad_id me) (λ me_in,
    if negb me_in then mthrow "You must be a current MLS member to manage holders"
    else
      get_db_connection ;!
      let! meta := read_meta_row squad_id in
      let! (inbox_npub, holders, key_epoch, _) := of_result (ok_or meta "Join inbox not initialized") in
      of_result (require_holder holders me) ;!
      if (length holders <=? 1)%nat && bool_decide (holder_npub ∈ holders)
      then mthrow "Cannot remove the last Join inbox holder; add another holder first"
      else if negb (bool_decide (holder_npub ∈ holders)) then mthrow "Npub is not a Join inbox holder"
      else
        let holders := filter (λ h, h ≠ holder_npub) holders in
        let! updated_at := unix_now_secs in
        upsert_meta_row squad_id inbox_npub holders key_epoch updated_at ;!
        (if bool_decide (holder_npub = me) then delete_secret squad_id else mret tt) ;!
        let! has := has_secret_row squad_id in
        ready (mkBundle (state_dto squad_id inbox_npub holders key_epoch updated_at has me)
                 [meta_content squad_id inbox_npub holders key_epoch updated_at]
                 [rotate_prompt_content squad_id key_epoch holder_npub updated_at] [])).

Definition join_inbox_rotate_key (squad_id : string) : Act (Task Db Effect JoinInboxPublishBundle) :=
  require_key_derivation_version_2_on_handle ;!
  let! squad_id := required_squad squad_id in
  let! me := current_npub in
  await (is_mls_member squad_id me) (λ me_in,
  if negb me_in then mthrow "You must be a current MLS member to rotate the Join inbox key"
  else
    get_db_connection ;!
    let! meta := read_meta_row squad_id in
    let! (_, holders, old_epoch, _) := of_result (ok_or meta "Join inbox not initialized") in
    of_result (require_holder holders me) ;!
    let! has := has_secret_row squad_id in
    if negb has then mthrow "Local Join inbox key required to rotate"
    else
      await (mls_group_view squad_id) (λ view,
      let holders := filter (λ h, h ∈ gv_members view) holders in
      if bool_decide (holders = []) then mthrow "No current MLS members remain as holders"
      else
        let! (inbox_npub, nsec) := new_key in
        let key_epoch := saturating_add old_epoch 1 in
        let! updated_at := unix_now_secs in
        await (encrypt_nsec nsec) (λ enc,
        get_db_connection ;!
        store_secret_encrypted squad_id inbox_npub key_epoch enc ;!
        upsert_meta_row squad_id inbox_npub holders key_epoch updated_at ;!
        let share := key_share_content squad_id inbox_npub key_epoch nsec in
        ready (mkBundle (state_dto squad_id inbox_npub holders key_epoch updated_at true me)
                 [meta_content squad_id inbox_npub holders key_epoch updated_at;
                  key_rotated_content squad_id inbox_npub key_epoch me updated_at] []
                 ((λ h, mkShareOut h share) <$> filter (λ h, h ≠ me) holders))))).

(** ** Announcements *)

(** [val.get(a).or_else(|| val.get(b))] *)
Definition get_either (a b : string) (v : json) : option json :=
  match value_get a v with Some x => Some x | None => value_get b v end.

Definition starts_brace (s : string) : bool := starts_with "{" s.

(** What an announcement says; the stamp may be missing. *)
Record MetaWire : Type := mkMetaWire {
  mw_schema : string; mw_squad_id : string; mw_inbox_npub : string; mw_key_epoch : Z;
  mw_updated_at : option Z; mw_holders : list string;
}.

(** [None]: not such a message. *)
Definition meta_wire (content : string) : option (result MetaWire) :=
  let trimmed := trim content in
  if negb (starts_brace trimmed) then None
  else
    val ← parse_value trimmed;
    let schema := default "" (get_str "schema" val) in
    if negb (bool_decide (schema = JOIN_INBOX_META_SCHEMA)) &&
       negb (bool_decide (schema = JOIN_INBOX_KEY_ROTATED_SCHEMA)) then None
    else
      Some (let? squad_id := ok_or (trimmed_opt (get_either "squadId" "squad_id" val ≫= de_string))
                               "missing squadId" in
            let? inbox_npub := ok_or (n ← trim <$> (get_either "inboxNpub" "inbox_npub" val ≫= de_string);
                                      if is_npub n then Some n else None) "missing inboxNpub" in
            let? key_epoch := ok_or (get_either "keyEpoch" "key_epoch" val ≫= as_i64) "missing keyEpoch" in
            Ok (mkMetaWire schema squad_id inbox_npub key_epoch
                  (get_either "updatedAt" "updated_at" val ≫= as_i64)
                  (filter (λ s, is_npub s = true)
                     (trim <$> omap de_string (default [] (value_get "holders" val ≫= as_array)))))).

(** Whether a stored row stands against an announcement. *)
Definition outdated (existing : Meta) (inbox_npub : string) (holders : list string)
    (key_epoch updated_at : Z) : bool :=
  let '(existing_inbox, existing_holders, existing_epoch, existing_updated) := existing in
  (key_epoch <? existing_epoch) ||
  (key_epoch =? existing_epoch) &&
  (negb (bool_decide (existing_inbox = inbox_npub)) ||
   (updated_at <=? existing_updated) && bool_decide (existing_holders = holders)).

(** A newer epoch makes an older local key useless. *)
Definition drop_old_secret (squad_id : string) (key_epoch : Z) (existing : Meta) : Act unit :=
  let '(_, _, existing_epoch, _) := existing in
  if existing_epoch <? key_epoch then
    let! sec_epoch := secret_epoch squad_id in
    match sec_epoch with
    | Some e => if e <? key_epoch then delete_secret squad_id else mret tt
    | None => mret tt
    end
  else mret tt.

Definition holders_of (m : option Meta) : list string :=
  match m with Some (_, holders, _, _) => holders | None => [] end.

Definition apply_meta_from_content (content : string) : Act bool :=
  match meta_wire content with
  | None => mret false
  | Some wire =>
      let! w := of_result wire in
      let squad_id := mw_squad_id w in
      let! updated_at := match mw_updated_at w with Some t => mret t | None => unix_now_secs end in
      let! holders := if bool_decide (mw_schema w = JOIN_INBOX_META_SCHEMA) then mret (mw_holders w)
                      else let! row := read_meta_row squad_id in mret (holders_of row) in
      let! existing := read_meta_row squad_id in
      if from_option (λ m, outdated m (mw_inbox_npub w) holders (mw_key_epoch w) updated_at) false existing
      then mret false
      else
        match existing with
        | Some m => drop_old_secret squad_id (mw_key_epoch w) m
        | None => mret tt
        end ;!
        let! holders_final := match holders with
                              | [] => let! row := read_meta_row squad_id in mret (holders_of row)
                              | _ => mret holders
                              end in
        upsert_meta_row squad_id (mw_inbox_npub w) holders_final (mw_key_epoch w) updated_at ;!
        mret true
  end.

(** [try_apply_join_inbox_meta] of [db/squad.rs]. *)
Definition try_apply_join_inbox_meta (content chat_id : string) : Act unit :=
  match val ← parse_value (trim content);
        let schema := default "" (get_str "schema" val) in
        if negb (bool_decide (schema = JOIN_INBOX_META_SCHEMA)) &&
           negb (bool_decide (schema = JOIN_INBOX_KEY_ROTATED_SCHEMA)) then None
        else
          squad_id ← trimmed_opt (get_either "squadId" "squad_id" val ≫= de_string);
          if side_effect_parent_matches_chat chat_id squad_id then Some tt else None with
  | None => mret tt
  | Some _ =>
      let! conn := attempt get_db_connection in
      if negb (is_okb conn) then mret tt
      else let! _ := attempt (apply_meta_from_content content) in mret tt
  end.

(** ** Key shares, from direct messages *)

Record JoinInboxKeyShareWire : Type := mkShareWire {
  kw_schema : string; kw_squad_id : string; kw_inbox_npub : string; kw_key_epoch : Z; kw_nsec : string;
}.

Definition de_key_share (j : json) : option JoinInboxKeyShareWire :=
  fs ← struct_fields ["schema"; "squadId"; "inboxNpub"; "keyEpoch"; "nsec"] j;
  schema ← req de_string "schema" fs;
  squad_id ← req de_string "squadId" fs;
  inbox_npub ← req de_string "inboxNpub" fs;
  key_epoch ← req de_i64 "keyEpoch" fs;
  nsec ← req de_string "nsec" fs;
  Some (mkShareWire schema squad_id inbox_npub key_epoch nsec).

(** A share that names a squad and a key of the right forms. *)
Definition key_share_wire (content : string) : option JoinInboxKeyShareWire :=
  let trimmed := trim content in
  if negb (starts_brace trimmed) then None
  else
    wire ← of_text trimmed ≫= de_key_share;
    if negb (bool_decide (kw_schema wire = JOIN_INBOX_KEY_SHARE_SCHEMA)) then None
    else
      let w := mkShareWire (kw_schema wire) (trim (kw_squad_id wire)) (trim (kw_inbox_npub wire))
                 (kw_key_epoch wire) (trim (kw_nsec wire)) in
      if bool_decide (kw_squad_id w = "") || negb (is_npub (kw_inbox_npub w)) ||
         negb (starts_with "nsec1" (kw_nsec w)) then None
      else Some w.

Definition apply_key_share_from_content (content : string) : Act (Task Db Effect bool) :=
  match key_share_wire content with
  | None => ready false
  | Some w =>
      let! keys := of_result (ok_or (keys_parse (kw_nsec w)) "Invalid Join inbox nsec in key share") in
      let! derived := of_result (key_npub keys) in
      if negb (bool_decide (derived = kw_inbox_npub w))
      then mthrow "Key share nsec does not match inboxNpub"
      else
        let! me := current_npub in
        await (encrypt_nsec (kw_nsec w)) (λ enc,
        get_db_connection ;!
        let! meta := read_meta_row (kw_squad_id w) in
        if match meta with Some (_, holders, _, _) => negb (bool_decide (me ∈ holders)) | None => false end
        then mthrow "Key share rejected: not listed as a holder"
        else
          store_secret_encrypted (kw_squad_id w) (kw_inbox_npub w) (kw_key_epoch w) enc ;!
          ready true)
  end.

(** ** Join requests *)

Record JoinInboxJoinDmWire : Type := mkJoinDmWire {
  jd_schema : string; jd_request_id : string; jd_squad_id : string; jd_squad_name : string;
  jd_broadcast_event_id : string;
}.
Record JoinInboxJoinDmDto : Type := mkJoinDm {
  jx_request_id : string; jx_squad_id : string; jx_squad_name : string; jx_broadcast_event_id : string;
  jx_requester_npub : string; jx_created_at : Z;
}.

Definition de_join_dm (j : json) : option JoinInboxJoinDmWire :=
  fs ← struct_fields ["schema"; "requestId"; "squadId"; "squadName"; "broadcastEventId"] j;
  schema ← req de_string "schema" fs;
  request_id ← req de_string "requestId" fs;
  squad_id ← req de_string "squadId" fs;
  squad_name ← req de_string "squadName" fs;
  broadcast_event_id ← req de_string "broadcastEventId" fs;
  Some (mkJoinDmWire schema request_id squad_id squad_name broadcast_event_id).

Definition parse_join_dm_content (content : string) : option JoinInboxJoinDmWire :=
  wire ← of_text (trim content) ≫= de_join_dm;
  if negb (bool_decide (jd_schema wire = JOIN_INBOX_DM_SCHEMA)) then None
  else if blank (jd_squad_id wire) || blank (jd_request_id wire) || blank (jd_squad_name wire) ||
          blank (jd_broadcast_event_id wire) then None
  else Some wire.

(** A gift wrap that opens: the rumor's kind, text and time, and its sender's npub. *)
Record UnwrappedGift : Type := mkGift {
  ug_kind : Z; ug_content : string; ug_created_at : Z; ug_sender : option string;
}.

(** The loop of [join_inbox_sync_join_dms]: the first request of each id. *)
Definition join_dm_of (squad_id inbox_npub : string) (g : UnwrappedGift) : option JoinInboxJoinDmDto :=
  if negb (ug_kind g =? 14) then None
  else
    wire ← parse_join_dm_content (ug_content g);
    if negb (bool_decide (trim (jd_squad_id wire) = squad_id)) then None
    else
      requester_npub ← ug_sender g;
      if bool_decide (requester_npub = inbox_npub) then None
      else Some (mkJoinDm (trim (jd_request_id wire)) (trim (jd_squad_id wire)) (trim (jd_squad_name wire))
                   (trim (jd_broadcast_event_id wire)) requester_npub (ug_created_at g)).

Definition first_request (out : list JoinInboxJoinDmDto) (x : JoinInboxJoinDmDto) : list JoinInboxJoinDmDto :=
  if bool_decide (jx_request_id x ∈ jx_request_id <$> out) then out else out ++ [x].

Definition later (a b : JoinInboxJoinDmDto) : Prop := jx_created_at b ≤ jx_created_at a.
#[local] Instance later_dec : RelDecision later.
Proof. intros a b. unfold later. apply _. Defined.

Definition join_dms (squad_id inbox_npub : string) (events : list UnwrappedGift) : list JoinInboxJoinDmDto :=
  merge_sort later (foldl first_request [] (omap (join_dm_of squad_id inbox_npub) events)).

(** [fetched keys since]: the gift wraps of the relays that open with the inbox's key. *)
Definition join_inbox_sync_join_dms (fetched : Z → Z → list UnwrappedGift) (squad_id : string)
    : Act (list JoinInboxJoinDmDto) :=
  let! squad_id := required_squad squad_id in
  let! (keys, inbox_npub) := inbox_keys_for_holder squad_id in
  query (λ _, "Nostr client not initialized") (λ _, tt) ;!
  let! now := unix_now_secs in
  let! events := query id (λ _, fetched keys (saturating_sub now 604800)) in
  mret (join_dms squad_id inbox_npub events).

Record JoinInboxResponseWire : Type := mkResponseWire {
  jr_schema : string; jr_squad_id : string; jr_request_id : string; jr_status : string;
}.
Definition de_response (j : json) : option JoinInboxResponseWire :=
  fs ← struct_fields ["schema"; "squadId"; "requestId"; "status"] j;
  schema ← req de_string "schema" fs;
  squad_id ← req de_string "squadId" fs;
  request_id ← req de_string "requestId" fs;
  status ← req de_string "status" fs;
  Some (mkResponseWire schema squad_id request_id status).

Definition valid_join_response_content (content squad_id : string) : bool :=
  match of_text (trim content) ≫= de_response with
  | None => false
  | Some wire =>
      bool_decide (jr_schema wire = JOIN_INBOX_RESPONSE_DM_SCHEMA) &&
      bool_decide (trim (jr_squad_id wire) = squad_id) && negb (blank (jr_request_id wire)) &&
      bool_decide (jr_status wire ∈ ["accepted"; "rejected"])
  end.
End inbox.
