(* ===== verification/SideEffects.v ===== *)
(** * What a squad message does besides being shown ([db/squad.rs])

    Every message of a squad's announcements group is offered to the readers of its
    virtual channel when it arrives, and again when the stored messages of the chat are
    replayed. *)

From S2P Require Import Prelude World Json Chat Schema Records EvmRead AccessControl VirtualBucket SquadCatalog.
From S2P Require Import Announce SquadInfra WarGame Stickers Roster Allowlist JoinInbox.
From S2P Require SquadGovReplica.

Section effects.
Context `{SerdeText} `{SerdeErrors} `{Rusqlite} `{Alloy} `{Signatures} `{Contracts} `{ProcessEnv}.
Context `{Nostr} `{NostrKeys} `{AtRest}.

Definition when (b : bool) (m : Act unit) : Act unit := if b then m else mret tt.

(** The stored channel, or the one the text has by itself. *)
Definition effective_bucket (virtual_bucket : option string) (content : string) : option string :=
  match virtual_bucket with
  | Some b => Some b
  | None => normalize_virtual_bucket_for_message PRIVATE_DIRECT_MESSAGE content []
  end.

Definition apply_mls_virtual_bucket_side_effects (chat_id : string) (virtual_bucket : option string)
    (content : string) (author_npub : option string) : Act unit :=
  let bucket := effective_bucket virtual_bucket content in
  when (is_announcements_governance_announce_content content)
    (maybe_upsert_governance_from_announce content chat_id author_npub) ;!
  maybe_upsert_war_game_from_announce content chat_id author_npub ;!
  SquadGovReplica.maybe_upsert_from_announce content chat_id author_npub ;!
  maybe_upsert_sticker_pack_from_announce content chat_id author_npub ;!
  when (bool_decide (bucket ∈ [Some "announcements"; Some "inbox"; None]))
    (try_apply_squad_member_evm_share content chat_id author_npub ;!
     try_apply_squad_evm_roster_snapshot content chat_id author_npub) ;!
  when (bool_decide (bucket ∈ [Some "announcements"; None]))
    (try_apply_join_inbox_meta content chat_id) ;!
  when (bool_decide (bucket = Some "inbox"))
    (apply_parent_safe_announce content chat_id author_npub ;!
     maybe_upsert_governance_from_announce content chat_id author_npub ;!
     try_apply_squad_contract_allowlist_announce content chat_id author_npub ;!
     try_apply_squad_tracked_tokens_announce content chat_id author_npub).

(** The loop of [replay_automation_side_effects_for_chat] over the stored messages. *)
Definition replay_messages (chat_id : string) (messages : list Message) : Act Z :=
  foldM (λ _ msg,
    when (bool_decide (m_attachments msg = []))
      (apply_mls_virtual_bucket_side_effects chat_id (m_virtual_bucket msg) (m_content msg) (m_npub msg)))
    tt messages ;!
  mret (Z.of_nat (length messages)).
End effects.
