(* ===== verification/Profiles.v ===== *)
(** * Profiles and their Kind 0 ([profile.rs], the profile rows of [db/accounts.rs], [lib.rs])

    A profile is the latest Kind 0 of its owner, what this device adds to it (a nickname,
    the block, cached images) and a status. It lives in [STATE] and in one row of
    [profiles]; what a row has no column for is lost on a restart. The nostr client, its
    relays and the image cache are arguments: what they answer. *)

From Stdlib Require Import Ascii.
From S2P Require Import Prelude World Json FileNames Announce.
From S2P Require WarGame.

Record Status : Type := mkStatus { su_title : string; su_purpose : string; su_url : string }.
Definition Status_new : Status := mkStatus "" "" "".

Record Profile : Type := mkProfile {
  p_id : string; p_name : string; p_display_name : string; p_nickname : string; p_lud06 : string;
  p_lud16 : string; p_banner : string; p_avatar : string; p_about : string; p_website : string;
  p_nip05 : string; p_status : Status; p_last_updated : Z; p_mine : bool; p_blocked : bool; p_bot : bool;
  p_avatar_cached : string; p_banner_cached : string;
}.

Definition Profile_new (id : string) : Profile :=
  mkProfile id "" "" "" "" "" "" "" "" "" "" Status_new 0 false false false "" "".

Definition has_public_metadata (p : Profile) : bool :=
  negb (bool_decide (p_name p = "")) || negb (bool_decide (p_display_name p = "")) ||
  negb (bool_decide (p_avatar p = "")).

(** The nostr crate's [Metadata], the members the code reads; of [custom] the value of
    [bot]. *)
Inductive BotValue : Type := BotBool (b : bool) | BotText (s : string) | BotOther.
Record Metadata : Type := mkMetadata {
  md_name : option string; md_display_name : option string; md_about : option string;
  md_website : option string; md_picture : option string; md_banner : option string;
  md_nip05 : option string; md_lud06 : option string; md_lud16 : option string; md_bot : option BotValue;
}.

Section kind0.
Context `{UnicodeCase}.

Definition bot_value (b : BotValue) : bool :=
  match b with
  | BotBool b => b
  | BotText s => bool_decide (to_lowercase s = "true")
  | BotOther => false
  end.

(** ** Applying a Kind 0 *)

Definition differs (a b : string) : bool := negb (bool_decide (a = b)).

(** [from_metadata]: absent members keep what is there. *)
Definition from_metadata (p : Profile) (m : Metadata) : bool * Profile :=
  let name := default (p_name p) (md_name m) in
  let display_name := default (p_display_name p) (md_display_name m) in
  let lud06 := default (p_lud06 p) (md_lud06 m) in
  let lud16 := default (p_lud16 p) (md_lud16 m) in
  let banner := default (p_banner p) (md_banner m) in
  let avatar := default (p_avatar p) (md_picture m) in
  let about := default (p_about p) (md_about m) in
  let website := default (p_website p) (md_website m) in
  let nip05 := default (p_nip05 p) (md_nip05 m) in
  let bot := from_option bot_value (p_bot p) (md_bot m) in
  (differs (p_name p) name || differs (p_display_name p) display_name || differs (p_lud06 p) lud06 ||
   differs (p_lud16 p) lud16 || differs (p_banner p) banner || differs (p_avatar p) avatar ||
   differs (p_about p) about || differs (p_website p) website || differs (p_nip05 p) nip05 ||
   negb (Bool.eqb (p_bot p) bot),
   mkProfile (p_id p) name display_name (p_nickname p) lud06 lud16 banner avatar about website nip05 (p_status p)
     (p_last_updated p) (p_mine p) (p_blocked p) bot
     (if differs (p_avatar p) avatar then "" else p_avatar_cached p)
     (if differs (p_banner p) banner then "" else p_banner_cached p)).

(** [apply_kind0_replacement]: absent members are cleared. *)
Definition apply_kind0_replacement (p : Profile) (m : Metadata) : bool * Profile :=
  let name := default "" (md_name m) in
  let display_name := default "" (md_display_name m) in
  let lud06 := default "" (md_lud06 m) in
  let lud16 := default "" (md_lud16 m) in
  let banner := default "" (md_banner m) in
  let avatar := default "" (md_picture m) in
  let about := default "" (md_about m) in
  let website := default "" (md_website m) in
  let nip05 := default "" (md_nip05 m) in
  let bot := from_option bot_value false (md_bot m) in
  (differs (p_name p) name || differs (p_display_name p) display_name || differs (p_lud06 p) lud06 ||
   differs (p_lud16 p) lud16 || differs (p_banner p) banner || differs (p_avatar p) avatar ||
   differs (p_about p) about || differs (p_website p) website || differs (p_nip05 p) nip05 ||
   negb (Bool.eqb (p_bot p) bot),
   mkProfile (p_id p) name display_name (p_nickname p) lud06 lud16 banner avatar about website nip05 (p_status p)
     (p_last_updated p) (p_mine p) (p_blocked p) bot
     (if differs (p_avatar p) avatar then "" else p_avatar_cached p)
     (if differs (p_banner p) banner then "" else p_banner_cached p)).
End kind0.

(** ** Which Kind 0 counts *)

Record Kind0ScanHit : Type := mkHit { kh_created_at : Z; kh_event_id : string; kh_metadata : Metadata }.

(** [Iterator::max_by]: of equal elements the last. *)
Definition hit_le (a b : Kind0ScanHit) : bool :=
  match kh_created_at a ?= kh_created_at b with
  | Lt => true
  | Gt => false
  | Eq => match String.compare (kh_event_id a) (kh_event_id b) with Gt => false | _ => true end
  end.

Fixpoint max_hit (best : Kind0ScanHit) (hits : list Kind0ScanHit) : Kind0ScanHit :=
  match hits with
  | [] => best
  | h :: hits' => max_hit (if hit_le best h then h else best) hits'
  end.
Definition nip01_kind0_winner (hits : list Kind0ScanHit) : option Kind0ScanHit :=
  match hits with [] => None | h :: hits' => Some (max_hit h hits') end.

Definition required_kind0_acks (connected_write_count : nat) : nat :=
  if (connected_write_count <? 2)%nat then 1%nat else 2%nat.
Definition kind0_verified_quorum_met (verified_count required : nat) : bool := (required <=? verified_count)%nat.

Definition kind0_echoes_local (m : Metadata) (name avatar : string) : bool :=
  (bool_decide (name = "") || bool_decide (md_name m = Some name)) &&
  (bool_decide (avatar = "") || bool_decide (md_picture m = Some avatar)) &&
  (negb (bool_decide (name = "")) || negb (bool_decide (avatar = ""))).

Definition KIND0_REPAIR_SUCCESS_INTERVAL_SECS : Z := 30 * 60.
Definition KIND0_REPAIR_FAILURE_BACKOFF_SECS : Z := 5 * 60.
Definition KIND0_REPAIR_LAST_SUCCESS_KEY : string := "kind0_repair_last_success_at".
Definition KIND0_REPAIR_LAST_FAILURE_KEY : string := "kind0_repair_last_failure_at".
Definition KIND0_PUBLISH_RECEIPT_KEY : string := "kind0_publish_receipt".

Inductive Kind0RepairDecision : Type := Skip | Reconcile | Publish.

(** [saturating_sub] of [u64]s. *)
Definition within (now_secs window : Z) (last : option Z) : bool :=
  match last with Some at_ => Z.max 0 (now_secs - at_) <? window | None => false end.

Definition decide_kind0_repair (session_matches : bool) (receipt_event_id : option string)
    (winner : option Kind0ScanHit) (local_name local_avatar : string) (now_secs : Z)
    (last_success_at last_failure_at : option Z) : Kind0RepairDecision :=
  if negb session_matches then Skip
  else match winner with
       | Some hit => if negb (kind0_echoes_local (kh_metadata hit) local_name local_avatar) then Reconcile else Skip
       | None =>
           if bool_decide (receipt_event_id = None) then Skip
           else if within now_secs KIND0_REPAIR_SUCCESS_INTERVAL_SECS last_success_at then Skip
           else if within now_secs KIND0_REPAIR_FAILURE_BACKOFF_SECS last_failure_at then Skip
           else Publish
       end.

(** ** Publishing one's own *)

(** The crates: [Url::parse(..).ok()] as text, [serde_json] of a [Metadata]. *)
Class NostrMetadata : Type := {
  url_text : string → option string;
  metadata_value : Metadata → result json;
  metadata_of_text : string → option Metadata;
}.

Section build.
Context `{NostrMetadata} `{SerdeText}.

Definition some_text (s : string) : option string := if bool_decide (s = "") then None else Some s.
Definition text_or (s fallback : string) : string := if bool_decide (s = "") then fallback else s.

Definition build_metadata_from_vector_profile (p : Profile) (name avatar banner about : string) : Metadata :=
  mkMetadata (Some (text_or name (p_name p))) (some_text (p_display_name p)) (Some (text_or about (p_about p)))
    (some_text (p_website p) ≫= url_text) (some_text (text_or avatar (p_avatar p)) ≫= url_text)
    (some_text (text_or banner (p_banner p)) ≫= url_text) (some_text (p_nip05 p)) (some_text (p_lud06 p))
    (some_text (p_lud16 p)) None.

Definition kind0_metadata_json_without_evm (m : Metadata) : result string :=
  match metadata_value m with
  | Ok v => Ok (to_text (WarGame.update_object (obj_remove "evm_address") v))
  | Err e => Err e
  end.
End build.

(** ** The state: memory and rows *)

(** [SlimProfile], and the columns of a row: [purpose] has none. *)
Record SlimProfile : Type := mkSlimProfile {
  sp_id : string; sp_name : string; sp_display_name : string; sp_nickname : string; sp_lud06 : string;
  sp_lud16 : string; sp_banner : string; sp_avatar : string; sp_about : string; sp_website : string;
  sp_nip05 : string; sp_status : Status; sp_blocked : bool; sp_bot : bool; sp_avatar_cached : string;
  sp_banner_cached : string;
}.

Definition profile_row (p : Profile) : SlimProfile :=
  mkSlimProfile (p_id p) (p_name p) (p_display_name p) (p_nickname p) (p_lud06 p) (p_lud16 p) (p_banner p) (p_avatar p)
    (p_about p) (p_website p) (p_nip05 p) (mkStatus (su_title (p_status p)) "" (su_url (p_status p))) (p_blocked p)
    (p_bot p) (p_avatar_cached p) (p_banner_cached p).

Definition to_profile (s : SlimProfile) : Profile :=
  mkProfile (sp_id s) (sp_name s) (sp_display_name s) (sp_nickname s) (sp_lud06 s) (sp_lud16 s) (sp_banner s)
    (sp_avatar s) (sp_about s) (sp_website s) (sp_nip05 s) (sp_status s) 0 false (sp_blocked s) (sp_bot s)
    (sp_avatar_cached s) (sp_banner_cached s).

(** [STATE.profiles], the tables [profiles] and [settings], the account, and
    [LOGIN_GENERATION]. *)
Record ProfileDb : Type := mkProfileDb {
  st_profiles : list Profile;
  db_profiles : gmap string SlimProfile;
  db_profile_settings : gmap string string;
  st_profile_account : option string;
  st_generation : Z;
}.

Inductive ProfileOut : Type :=
| ProfileUpdate (p : Profile)
| ProfileNickChanged (id nickname : string)
| CacheImages (npub avatar_url banner_url : string)
| UnreadCounter
| SendKind0 (event_id metadata_json : string)
| SendStatus (content : string)
| SpawnStatus (npub : string) (status_fetch : option Status).

Notation Prof := (M ProfileDb ProfileOut).

Definition set_profiles (f : list Profile → list Profile) (d : ProfileDb) : ProfileDb :=
  mkProfileDb (f (st_profiles d)) (db_profiles d) (db_profile_settings d) (st_profile_account d) (st_generation d).
Definition set_profile_rows (f : gmap string SlimProfile → gmap string SlimProfile) (d : ProfileDb) : ProfileDb :=
  mkProfileDb (st_profiles d) (f (db_profiles d)) (db_profile_settings d) (st_profile_account d) (st_generation d).
Definition set_profile_settings (f : gmap string string → gmap string string) (d : ProfileDb) : ProfileDb :=
  mkProfileDb (st_profiles d) (db_profiles d) (f (db_profile_settings d)) (st_profile_account d) (st_generation d).

Definition find_profile (id : string) (l : list Profile) : option Profile :=
  find_first (λ p, bool_decide (p_id p = id)) l.
(** [get_profile_mut] and a write. *)
Fixpoint update_profile_in (id : string) (f : Profile → Profile) (l : list Profile) : list Profile :=
  match l with
  | [] => []
  | p :: l' => if bool_decide (p_id p = id) then f p :: l' else p :: update_profile_in id f l'
  end.

Definition read_profile (id : string) : Prof (option Profile) :=
  modify (λ d, (find_profile id (st_profiles d), d)).
Definition write_profile (id : string) (f : Profile → Profile) : Prof unit :=
  modify (λ d, (tt, set_profiles (update_profile_in id f) d)).

Definition profile_account : Prof string := query_row id (λ d, ok_or (st_profile_account d) "No account selected").
Definition profile_connection : Prof unit := profile_account ;! query id (λ _, tt).

Definition set_profile (p : Profile) : Prof unit :=
  profile_connection ;!
  exec_ (λ e, "Failed to insert profile: " +:+ e) (set_profile_rows <[p_id p := profile_row p]>).

(** Whether a cached file exists is an input. *)
Definition existing_path (path : string) : Prof string :=
  if bool_decide (path = "") then mret ""
  else let! there := now in mret (if there =? 0 then "" else path).

Definition set_cached (avatar_cached banner_cached : string) (s : SlimProfile) : SlimProfile :=
  mkSlimProfile (sp_id s) (sp_name s) (sp_display_name s) (sp_nickname s) (sp_lud06 s) (sp_lud16 s) (sp_banner s)
    (sp_avatar s) (sp_about s) (sp_website s) (sp_nip05 s) (sp_status s) (sp_blocked s) (sp_bot s) avatar_cached
    banner_cached.

Definition get_all_profiles : Prof (list SlimProfile) :=
  profile_connection ;!
  query (λ e, "Failed to prepare statement: " +:+ e) (λ _, tt) ;!
  let! rows := query (λ e, "Failed to query profiles: " +:+ e) (λ d, (map_to_list (db_profiles d)).*2) in
  foldM (λ read row,
    query (λ e, "Failed to collect profiles: " +:+ e) (λ _, tt) ;!
    let! avatar_cached := existing_path (sp_avatar_cached row) in
    let! banner_cached := existing_path (sp_banner_cached row) in
    mret (read ++ [set_cached avatar_cached banner_cached row])) [] rows.

Definition set_mine (mine : bool) (p : Profile) : Profile :=
  mkProfile (p_id p) (p_name p) (p_display_name p) (p_nickname p) (p_lud06 p) (p_lud16 p) (p_banner p) (p_avatar p)
    (p_about p) (p_website p) (p_nip05 p) (p_status p) (p_last_updated p) mine (p_blocked p) (p_bot p)
    (p_avatar_cached p) (p_banner_cached p).

(** [from_db_profile]; [own] is the signer's npub, a missing client or signer and an id that
    is no npub panic. *)
Definition from_db_profile (own : result string) (is_npub : string → bool) (slim : SlimProfile) : Prof unit :=
  let! known := read_profile (sp_id slim) in
  match known with
  | None => modify (λ d, (tt, set_profiles (λ l, l ++ [to_profile slim]) d))
  | Some _ =>
      match own with
      | Err _ => mthrow PANIC
      | Ok own =>
          if negb (is_npub (sp_id slim)) then mthrow PANIC
          else write_profile (sp_id slim) (λ _, set_mine (bool_decide (own = sp_id slim)) (to_profile slim))
      end
  end.

Definition merge_db_profiles (own : result string) (is_npub : string → bool) (slims : list SlimProfile) : Prof unit :=
  foldM (λ _ slim, from_db_profile own is_npub slim) tt slims.

(** ** Commands on one profile *)

Definition emit_update (p : Profile) : Prof unit := send (λ _, PANIC) (ProfileUpdate p).
(** [set_profile(..).await.unwrap()] *)
Definition or_panic {A} (m : Prof A) : Prof A :=
  let! r := attempt m in match r with Ok a => mret a | Err _ => mthrow PANIC end.

Definition set_blocked (b : bool) (p : Profile) : Profile :=
  mkProfile (p_id p) (p_name p) (p_display_name p) (p_nickname p) (p_lud06 p) (p_lud16 p) (p_banner p) (p_avatar p)
    (p_about p) (p_website p) (p_nip05 p) (p_status p) (p_last_updated p) (p_mine p) b (p_bot p) (p_avatar_cached p)
    (p_banner_cached p).
Definition put_nickname (n : string) (p : Profile) : Profile :=
  mkProfile (p_id p) (p_name p) (p_display_name p) n (p_lud06 p) (p_lud16 p) (p_banner p) (p_avatar p) (p_about p)
    (p_website p) (p_nip05 p) (p_status p) (p_last_updated p) (p_mine p) (p_blocked p) (p_bot p) (p_avatar_cached p)
    (p_banner_cached p).
Definition put_status (s : Status) (p : Profile) : Profile :=
  mkProfile (p_id p) (p_name p) (p_display_name p) (p_nickname p) (p_lud06 p) (p_lud16 p) (p_banner p) (p_avatar p)
    (p_about p) (p_website p) (p_nip05 p) s (p_last_updated p) (p_mine p) (p_blocked p) (p_bot p) (p_avatar_cached p)
    (p_banner_cached p).
Definition put_last_updated (t : Z) (p : Profile) : Profile :=
  mkProfile (p_id p) (p_name p) (p_display_name p) (p_nickname p) (p_lud06 p) (p_lud16 p) (p_banner p) (p_avatar p)
    (p_about p) (p_website p) (p_nip05 p) (p_status p) t (p_mine p) (p_blocked p) (p_bot p) (p_avatar_cached p)
    (p_banner_cached p).
Definition put_cached (avatar_cached banner_cached : string) (p : Profile) : Profile :=
  mkProfile (p_id p) (p_name p) (p_display_name p) (p_nickname p) (p_lud06 p) (p_lud16 p) (p_banner p) (p_avatar p)
    (p_about p) (p_website p) (p_nip05 p) (p_status p) (p_last_updated p) (p_mine p) (p_blocked p) (p_bot p)
    avatar_cached banner_cached.

Definition ensure_profile (npub : string) (d : ProfileDb) : ProfileDb :=
  match find_profile npub (st_profiles d) with
  | Some _ => d
  | None => set_profiles (λ l, l ++ [Profile_new npub]) d
  end.

Definition toggle_blocked (npub : string) : Prof bool :=
  let! toggled := modify (λ d,
    let d := ensure_profile npub d in
    match find_profile npub (st_profiles d) with
    | None => (None, d)
    | Some p =>
        let p' := set_blocked (negb (p_blocked p)) p in
        (Some p', set_profiles (update_profile_in npub (λ _, p')) d)
    end) in
  match toggled with
  | None => mret false
  | Some p =>
      let! _ := attempt (emit_update p) in
      or_panic (set_profile p) ;!
      output UnreadCounter ;!
      mret (p_blocked p)
  end.

Definition set_nickname (npub nickname : string) : Prof bool :=
  let! known := read_profile npub in
  match known with
  | None => mret false
  | Some p =>
      write_profile npub (put_nickname nickname) ;!
      send (λ _, PANIC) (ProfileNickChanged (p_id p) nickname) ;!
      or_panic (set_profile (put_nickname nickname p)) ;!
      mret true
  end.

Definition get_profile (npub : string) : Prof Profile :=
  let! known := read_profile npub in of_result (ok_or known ("Profile not found: " +:+ npub)).

(** [update_status], the answers of the client as arguments. *)
Definition update_status (own : result string) (status : string) : Prof bool :=
  match own with
  | Err _ => mthrow PANIC
  | Ok own =>
      let! sent := attempt (send (λ e, e) (SendStatus status)) in
      if negb (is_okb sent) then mret false
      else
        let! known := read_profile own in
        match known with
        | None => mthrow PANIC
        | Some p =>
            let p' := put_status (mkStatus status "general" (su_url (p_status p))) p in
            write_profile own (λ _, p') ;!
            emit_update p' ;!
            mret true
        end
  end.

(** The end of [cache_profile_images]: the paths the image cache gave, empty for none. *)
Definition keep_cached (npub avatar_cached banner_cached : string) : Prof unit :=
  if bool_decide (avatar_cached = "") && bool_decide (banner_cached = "") then mret tt
  else
    let! known := read_profile npub in
    match known with
    | None => mret tt
    | Some p =>
        let p' := put_cached (text_or avatar_cached (p_avatar_cached p)) (text_or banner_cached (p_banner_cached p)) p in
        if differs (p_avatar_cached p') (p_avatar_cached p) || differs (p_banner_cached p') (p_banner_cached p) then
          write_profile npub (λ _, p') ;!
          let! _ := attempt (emit_update p') in
          let! _ := attempt (set_profile p') in
          mret tt
        else mret tt
    end.

(** [cache_all_profile_images]: whose images are asked for, and one task's two ends. *)
Definition profiles_to_cache (l : list Profile) : list (string * string * string) :=
  (λ p, (p_id p, p_avatar p, p_banner p)) <$>
  filter (λ p, (p_avatar p ≠ "" ∧ p_avatar_cached p = "") ∨ (p_banner p ≠ "" ∧ p_banner_cached p = "")) l.

Definition keep_first_cached (npub : string) (banner : bool) (path : string) : Prof unit :=
  let! known := read_profile npub in
  match known with
  | None => mret tt
  | Some p =>
      if bool_decide ((if banner then p_banner_cached p else p_avatar_cached p) = "") then
        let p' := if banner then put_cached (p_avatar_cached p) path p else put_cached path (p_banner_cached p) p in
        write_profile npub (λ _, p') ;!
        let! _ := attempt (emit_update p') in
        let! _ := attempt (set_profile p') in
        mret tt
      else mret tt
  end.
Definition cache_task (npub avatar_url banner_url : string) (avatar_cached banner_cached : option string) : Prof unit :=
  (match avatar_cached with
   | Some path => if bool_decide (avatar_url = "") then mret tt else keep_first_cached npub false path
   | None => mret tt
   end) ;!
  match banner_cached with
  | Some path => if bool_decide (banner_url = "") then mret tt else keep_first_cached npub true path
  | None => mret tt
  end.

(** ** Loading a profile from the relays *)

(** What the client, the signer and the relays answer: whether the npub is one, the signer's
    npub, the Kind 0 of each read relay, of the pool, and the status. *)
Record LoadAnswers : Type := mkAnswers {
  la_client : bool; la_is_npub : bool; la_own : option string; la_hits : list Kind0ScanHit;
  la_pooled : result (option Metadata); la_status : option Status;
}.

(** [duration_since(UNIX_EPOCH).unwrap().as_secs()] *)
Definition profile_now_secs : Prof Z :=
  let! t := now in if t <? 0 then mthrow PANIC else mret (t / 1000).

Section load.
Context `{UnicodeCase}.

(** Up to the wait for a relay: [None] ends the call, the flag is [lacks_metadata]. *)
Definition load_begin (net : LoadAnswers) (npub : string) : Prof (option bool) :=
  match la_client net && la_is_npub net, la_own net with
  | true, Some _ => modify (λ d,
      (Some (from_option (λ p, negb (has_public_metadata p)) true (find_profile npub (st_profiles d))),
       ensure_profile npub d))
  | _, _ => mret None
  end.

Definition fetch_result (net : LoadAnswers) (lacks_metadata : bool) : result (option Metadata) :=
  if lacks_metadata then Ok (kh_metadata <$> nip01_kind0_winner (la_hits net)) else la_pooled net.

(** From the fetched Kind 0 on. *)
Definition load_finish (net : LoadAnswers) (npub : string) (lacks_metadata : bool) : Prof bool :=
  match fetch_result net lacks_metadata with
  | Err _ => mret false
  | Ok None =>
      let! known := read_profile npub in
      match known with
      | Some p =>
          if has_public_metadata p then
            let! secs := profile_now_secs in write_profile npub (put_last_updated secs)
          else mret tt
      | None => mret tt
      end ;!
      mret true
  | Ok (Some meta) =>
      let! known := read_profile npub in
      match known with
      | None => mthrow PANIC
      | Some p =>
          let '(changed, p') :=
            apply_kind0_replacement (set_mine (bool_decide (la_own net = Some npub)) p) meta in
          write_profile npub (λ _, p') ;!
          let! secs := profile_now_secs in
          let p' := put_last_updated secs p' in
          write_profile npub (λ _, p') ;!
          (if changed : bool then
             emit_update p' ;!
             or_panic (set_profile p') ;!
             output (CacheImages npub (p_avatar p') (p_banner p'))
           else mret tt) ;!
          mret true
      end
  end.

(** What the other tasks do to the state while this one waits. *)
Definition meanwhile (f : ProfileDb → ProfileDb) : Prof unit := modify (λ d, (tt, f d)).

Definition load_profile_metadata (net : LoadAnswers) (others : ProfileDb → ProfileDb) (npub : string)
    : Prof (bool * option (option Status)) :=
  let! begun := load_begin net npub in
  match begun with
  | None => mret (false, None)
  | Some lacks_metadata =>
      meanwhile others ;!
      let! loaded := load_finish net npub lacks_metadata in
      mret (loaded, Some (la_status net))
  end.

Definition apply_fetched_status (npub : string) (status_fetch : option Status) : Prof unit :=
  match status_fetch with
  | None => mret tt
  | Some status =>
      let! known := read_profile npub in
      match known with
      | None => mret tt
      | Some p =>
          if negb (has_public_metadata p) ||
             (bool_decide (su_title (p_status p) = su_title status) &&
              bool_decide (su_purpose (p_status p) = su_purpose status) &&
              bool_decide (su_url (p_status p) = su_url status)) then mret tt
          else
            let p' := put_status status p in
            write_profile npub (λ _, p') ;!
            emit_update p' ;!
            or_panic (set_profile p')
      end
  end.

(** The command applies the status in a task of its own, the sync queue waits for it. *)
Definition load_profile (net : LoadAnswers) (others : ProfileDb → ProfileDb) (npub : string) : Prof bool :=
  let! loaded := load_profile_metadata net others npub in
  from_option (λ status, output (SpawnStatus npub status)) (mret tt) loaded.2 ;!
  mret loaded.1.
Definition load_profile_and_status (net : LoadAnswers) (others others' : ProfileDb → ProfileDb) (npub : string)
    : Prof bool :=
  let! loaded := load_profile_metadata net others npub in
  meanwhile others' ;!
  from_option (apply_fetched_status npub) (mret tt) loaded.2 ;!
  mret loaded.1.

(** ** Publishing *)

Context `{NostrMetadata} `{SerdeText}.

Record Kind0PublishReceipt : Type := mkReceipt {
  kr_event_id : string; kr_success_count : nat; kr_verified_count : nat; kr_connected_write_count : nat;
}.

(** What the client answers: the signer's npub, the signed event's id, the connected write
    relays, which took the event, which did not, and which show it again. *)
Record PublishAnswers : Type := mkPublishAnswers {
  pa_own : result string; pa_event_id : result string; pa_connected : nat;
  pa_sent : result (list string * list (string * string)); pa_reads_back : string → bool;
}.

Definition ser_receipt (event_id : string) (success verified : list string) (failed : list (string * string)) (at_ : Z)
    : json :=
  JObj [("event_id", JStr event_id); ("success", JArr (JStr <$> success)); ("verified", JArr (JStr <$> verified));
    ("failed", JArr ((λ f, JObj [("url", JStr f.1); ("error", JStr f.2)]) <$> failed)); ("at", JNum at_)].

Definition persist_kind0_publish (p : Profile) (receipt_json : string) : Prof unit :=
  (let! a := attempt profile_account in if is_okb a then mret tt else mthrow "No current account") ;!
  profile_connection ;!
  tx (λ e, "Failed to begin kind0 persist transaction: " +:+ e) (λ e, "Failed to commit kind0 persist: " +:+ e)
    (exec_ (λ e, "Failed to persist kind0 receipt: " +:+ e)
       (set_profile_settings <[KIND0_PUBLISH_RECEIPT_KEY := receipt_json]>) ;!
     exec_ (λ e, "Failed to persist kind0 profile: " +:+ e) (set_profile_rows <[p_id p := profile_row p]>) ;!
     mret (tt, true)).


Definition publish_vector_profile_kind0 (net : PublishAnswers) (name avatar banner about : string)
    : Prof Kind0PublishReceipt :=
  let! npub := of_result (pa_own net) in
  let! known := read_profile npub in
  let! profile := of_result (ok_or known "Profile not found") in
  let meta := build_metadata_from_vector_profile profile name avatar banner about in
  let! metadata_json := of_result (kind0_metadata_json_without_evm meta) in
  let! event_id := of_result (pa_event_id net) in
  let required := required_kind0_acks (pa_connected net) in
  output (SendKind0 event_id metadata_json) ;!
  let! sent := of_result (pa_sent net) in
  let '(success, failed) := sent in
  let first_failure := from_option snd "" (head failed) in
  if (length success <? required)%nat then
    mthrow ("Kind 0 stored on " +:+ pretty (length success) +:+ " of " +:+ pretty (pa_connected net) +:+
            " relays: " +:+ first_failure)
  else
    let verified := filter (λ url, pa_reads_back net url = true) success in
    if negb (kind0_verified_quorum_met (length verified) required) then
      mthrow ("Kind 0 acknowledged by " +:+ pretty (length success) +:+ " of " +:+ pretty (pa_connected net) +:+
              " relays but verified on " +:+ pretty (length verified))
    else
      let! at_ := profile_now_secs in
      let receipt_json := to_text (ser_receipt event_id success verified failed at_) in
      let meta_published := default meta (metadata_of_text metadata_json) in
      let! known := read_profile npub in
      let! profile := of_result (ok_or known "Profile not found") in
      let! secs := profile_now_secs in
      let profile_to_save := put_last_updated secs (apply_kind0_replacement profile meta_published).2 in
      persist_kind0_publish profile_to_save receipt_json ;!
      write_profile npub (λ _, profile_to_save) ;!
      send id (ProfileUpdate profile_to_save) ;!
      output (CacheImages npub (p_avatar profile_to_save) (p_banner profile_to_save)) ;!
      mret (mkReceipt event_id (length success) (length verified) (pa_connected net)).

Definition update_profile (net : PublishAnswers) (name avatar banner about : string) : Prof Kind0PublishReceipt :=
  publish_vector_profile_kind0 net name avatar banner about.

(** ** Repair of one's own Kind 0 *)

Definition get_sql_setting (key : string) : Prof (option string) :=
  let! account := attempt profile_account in
  if negb (is_okb account) then mret None
  else
    profile_connection ;!
    let! r := attempt (query id (λ d, db_profile_settings d !! key)) in
    mret (default None (res_ok r)).
Definition set_sql_setting (key value : string) : Prof unit :=
  let! account := attempt profile_account in
  if negb (is_okb account) then mret tt
  else
    profile_connection ;!
    exec_ (λ e, "Failed to set setting: " +:+ e) (set_profile_settings <[key := value]>).

Definition setting_u64 (key : string) : Prof (option Z) :=
  let! r := attempt (get_sql_setting key) in
  mret (default None (res_ok r) ≫= parse_unsigned (2 ^ 64 - 1)).
Definition write_repair_timestamp (key : string) : Prof unit :=
  let! secs := profile_now_secs in
  let! _ := attempt (set_sql_setting key (pretty secs)) in
  mret tt.

(** [Kind0RelayFailure], [Kind0PublishReceiptStored]; of the receipt what the code reads. *)
Definition de_relay_failure (f : json) : option (string * string) :=
  fs ← struct_fields ["url"; "error"] f;
  url ← req de_string "url" fs;
  error ← req de_string "error" fs;
  Some (url, error).
Definition receipt_event_id (text : string) : option string :=
  v ← of_text text;
  fs ← struct_fields ["event_id"; "success"; "verified"; "failed"; "at"] v;
  event_id ← req de_string "event_id" fs;
  success ← req (de_list de_string) "success" fs;
  verified ← req (de_list de_string) "verified" fs;
  failed ← req (de_list de_relay_failure) "failed" fs;
  _ ← req (de_int 0 (2 ^ 64 - 1)) "at" fs;
  Some event_id.

(** [maybe_republish_own_kind0] up to its decision. [hits] are the relays' answers, [others]
    what the other tasks do while they are awaited. *)
Definition repair_read (own : option string) (hits : list Kind0ScanHit) (others : ProfileDb → ProfileDb)
    (expected_npub : string) (login_generation : Z) : Prof (option (Profile * Kind0RepairDecision)) :=
  let check : Prof bool := modify (λ d,
    (bool_decide (st_generation d = login_generation) && bool_decide (own = Some expected_npub), d)) in
  let! before_lock := check in
  let! with_lock := check in
  if negb before_lock || negb with_lock then mret None
  else
    let! mine := modify (λ d,
      (find_first (λ p, p_mine p && bool_decide (p_id p = expected_npub)) (st_profiles d), d)) in
    match mine with
    | None => mret None
    | Some p =>
        if negb (has_public_metadata p) then mret None
        else
          let! stored := attempt (get_sql_setting KIND0_PUBLISH_RECEIPT_KEY) in
          let receipt := default None (res_ok stored) ≫= receipt_event_id in
          let! last_success_at := setting_u64 KIND0_REPAIR_LAST_SUCCESS_KEY in
          let! last_failure_at := setting_u64 KIND0_REPAIR_LAST_FAILURE_KEY in
          meanwhile others ;!
          let winner := nip01_kind0_winner hits in
          let! secs := profile_now_secs in
          mret (Some (p, decide_kind0_repair true receipt winner (p_name p) (p_avatar p) secs last_success_at
                           last_failure_at))
    end.

Definition repair_reconcile (expected_npub : string) (winner : option Kind0ScanHit) : Prof unit :=
  match winner with
  | None => mret tt
  | Some hit =>
      let! known := read_profile expected_npub in
      match known with
      | None => mret tt
      | Some p =>
          let! secs := profile_now_secs in
          let p' := put_last_updated secs (apply_kind0_replacement p (kh_metadata hit)).2 in
          let! saved := attempt (set_profile p') in
          if negb (is_okb saved) then mret tt
          else
            write_profile expected_npub (λ _, p') ;!
            let! _ := attempt (emit_update p') in mret tt
      end
  end.

(** [publish] is what publishing meets. *)
Definition repair_publish (publish : PublishAnswers) (p : Profile) : Prof unit :=
  let! r := attempt (publish_vector_profile_kind0 publish (p_name p) (p_avatar p) (p_banner p) (p_about p)) in
  match r with
  | Ok _ => write_repair_timestamp KIND0_REPAIR_LAST_SUCCESS_KEY
  | Err e => if decide (e = PANIC) then mthrow PANIC else write_repair_timestamp KIND0_REPAIR_LAST_FAILURE_KEY
  end.

Definition repair_act (hits : list Kind0ScanHit) (publish : PublishAnswers) (expected_npub : string)
    (read : option (Profile * Kind0RepairDecision)) : Prof unit :=
  match read with
  | None | Some (_, Skip) => mret tt
  | Some (_, Reconcile) => repair_reconcile expected_npub (nip01_kind0_winner hits)
  | Some (p, Publish) => repair_publish publish p
  end.

Definition maybe_republish_own_kind0 (own : option string) (hits : list Kind0ScanHit)
    (others : ProfileDb → ProfileDb) (publish : PublishAnswers) (expected_npub : string) (login_generation : Z)
    : Prof unit :=
  let! read := repair_read own hits others expected_npub login_generation in
  repair_act hits publish expected_npub read.
End load.
