(* ===== verification/ProfileSync.v ===== *)
(** * The profile sync queue ([profile_sync.rs], [cmds/profile_sync.rs]) and the session's ends

    Four queues by priority and one background loop that takes batches from them and loads
    each profile ([Profiles.load_begin] .. [apply_fetched_status]). [sync_step] interleaves
    the loop, at the locks and waits of its body, with the commands that queue, with the
    clock and with whatever the rest of the program does to the profiles. *)

From stdpp Require Import relations.
From S2P Require Import Prelude World Chat FileNames Profiles.

Inductive SyncPriority : Type := Critical | High | Medium | Low.
#[export] Instance SyncPriority_eq_dec : EqDecision SyncPriority.
Proof. solve_decision. Defined.

(** Durations and instants in milliseconds. *)
Definition cache_window (p : SyncPriority) : Z :=
  match p with Critical => 0 | High => 5 * 60 * 1000 | Medium => 30 * 60 * 1000 | Low => 24 * 60 * 60 * 1000 end.
Definition processing_delay (p : SyncPriority) : Z :=
  match p with Critical => 0 | High => 5 * 1000 | Medium => 30 * 1000 | Low => 5 * 60 * 1000 end.
Definition batch_size (p : SyncPriority) : nat :=
  match p with Critical => 10 | High => 20 | Medium => 30 | Low => 50 end.

(** ** The queue *)

Record QueueEntry : Type := mkEntry { qe_npub : string; qe_added_at : Z }.

Record ProfileSyncQueue : Type := mkQueue {
  critical_queue : list QueueEntry;
  high_queue : list QueueEntry;
  medium_queue : list QueueEntry;
  low_queue : list QueueEntry;
  processing : gset string;
  last_fetched : gmap string Z;
  is_processing : bool;
}.
Definition ProfileSyncQueue_new : ProfileSyncQueue := mkQueue [] [] [] [] ∅ ∅ false.

Definition queue_of (p : SyncPriority) (q : ProfileSyncQueue) : list QueueEntry :=
  match p with Critical => critical_queue q | High => high_queue q | Medium => medium_queue q | Low => low_queue q end.
Definition map_queue (p : SyncPriority) (f : list QueueEntry → list QueueEntry) (q : ProfileSyncQueue)
    : ProfileSyncQueue :=
  let 'mkQueue c h m l pr lf ip := q in
  match p with
  | Critical => mkQueue (f c) h m l pr lf ip
  | High => mkQueue c (f h) m l pr lf ip
  | Medium => mkQueue c h (f m) l pr lf ip
  | Low => mkQueue c h m (f l) pr lf ip
  end.

(** [Instant::elapsed], which saturates. *)
Definition elapsed (t at_ : Z) : Z := Z.max 0 (t - at_).

Definition remove_from_all_queues (npub : string) (q : ProfileSyncQueue) : ProfileSyncQueue :=
  let keep := filter (λ e, qe_npub e ≠ npub) in
  let 'mkQueue c h m l pr lf ip := q in mkQueue (keep c) (keep h) (keep m) (keep l) pr lf ip.

Definition add (t : Z) (npub : string) (priority : SyncPriority) (force_refresh : bool) (q : ProfileSyncQueue)
    : ProfileSyncQueue :=
  if bool_decide (npub ∈ processing q) then q
  else if negb force_refresh &&
          from_option (λ last_fetch, elapsed t last_fetch <? cache_window priority) false (last_fetched q !! npub) then q
  else map_queue priority (λ l, l ++ [mkEntry npub t]) (remove_from_all_queues npub q).

(** The queue a batch is taken from. *)
Definition first_queue (q : ProfileSyncQueue) : option SyncPriority :=
  match critical_queue q, high_queue q, medium_queue q, low_queue q with
  | _ :: _, _, _, _ => Some Critical
  | [], _ :: _, _, _ => Some High
  | [], [], _ :: _, _ => Some Medium
  | [], [], [], _ :: _ => Some Low
  | [], [], [], [] => None
  end.

(** The [while]: entries taken, entries left. *)
Fixpoint take_ready (t delay : Z) (n : nat) (l : list QueueEntry) : list QueueEntry * list QueueEntry :=
  match n, l with
  | S n', e :: l' =>
      if delay <=? elapsed t (qe_added_at e) then let '(batch, rest) := take_ready t delay n' l' in (e :: batch, rest)
      else ([], l)
  | _, _ => ([], l)
  end.

Definition get_next_batch (t : Z) (q : ProfileSyncQueue) : list QueueEntry * ProfileSyncQueue :=
  match first_queue q with
  | None => ([], q)
  | Some priority =>
      let '(batch, rest) := take_ready t (processing_delay priority) (batch_size priority) (queue_of priority q) in
      (batch, map_queue priority (λ _, rest) q)
  end.

Definition mark_processing (npub : string) (q : ProfileSyncQueue) : ProfileSyncQueue :=
  let 'mkQueue c h m l pr lf ip := q in mkQueue c h m l ({[ npub ]} ∪ pr) lf ip.
Definition mark_done (t : Z) (npub : string) (q : ProfileSyncQueue) : ProfileSyncQueue :=
  let 'mkQueue c h m l pr lf ip := q in mkQueue c h m l (pr ∖ {[ npub ]}) (<[npub := t]> lf) ip.
Definition set_is_processing (b : bool) (q : ProfileSyncQueue) : ProfileSyncQueue :=
  let 'mkQueue c h m l pr lf _ := q in mkQueue c h m l pr lf b.

(** ** What the commands queue *)

Notation Request := (string * SyncPriority * bool)%type.

Definition add_all (t : Z) (rs : list Request) (q : ProfileSyncQueue) : ProfileSyncQueue :=
  foldl (λ q r, add t r.1.1 r.1.2 r.2 q) q rs.

Definition lacks_metadata (profiles : list Profile) (npub : string) : bool :=
  negb (from_option has_public_metadata false (find_profile npub profiles)).

Definition queue_chat_profiles (profiles : list Profile) (chats : list Chat) (chat_id : string) (is_opening : bool)
    : list Request :=
  match get_chat chats chat_id with
  | None => []
  | Some chat =>
      let base_priority := if is_opening then High else Medium in
      (λ npub, (npub, if lacks_metadata profiles npub then Critical else base_priority, false)) <$> c_participants chat
  end.

Definition sync_all_profiles (profiles : list Profile) : list Request :=
  (λ p, (p_id p, if negb (has_public_metadata p) then Critical else Low, false)) <$> profiles.

Definition parse_priority (s : string) : result SyncPriority :=
  if decide (s = "critical") then Ok Critical
  else if decide (s = "high") then Ok High
  else if decide (s = "medium") then Ok Medium
  else if decide (s = "low") then Ok Low
  else Err ("Invalid priority: " +:+ s).
Definition queue_profile_sync (t : Z) (npub priority : string) (force_refresh : bool) (q : ProfileSyncQueue)
    : result ProfileSyncQueue :=
  match parse_priority priority with
  | Err e => Err e
  | Ok p => Ok (add t npub p force_refresh q)
  end.
Definition refresh_profile_now (t : Z) (npub : string) (q : ProfileSyncQueue) : ProfileSyncQueue :=
  add t npub Critical true q.

(** ** The background loop *)

(** Where the loop is: at its top, before it queues one's own profile, before the queue's lock,
    releasing an empty batch, before a load, waiting for the Kind 0, waiting for the status,
    loaded, releasing; or gone, by a panic. [last_own] is [last_own_profile_sync]. *)
Inductive Phase : Type :=
| Head (last_own : Z)
| QueueOwn (npub : string) (priority : SyncPriority)
| CheckQueue (last_own : Z)
| FoundNothing (last_own : Z)
| Fetching (last_own : Z) (batch : list QueueEntry)
| Waiting (last_own : Z) (batch : list QueueEntry) (net : LoadAnswers) (lacks : bool)
| WaitingStatus (last_own : Z) (batch : list QueueEntry) (status : option Status)
| Fetched (last_own : Z) (batch : list QueueEntry)
| Releasing (last_own : Z)
| Panicked (batch : list QueueEntry).

Definition own_profile_sync_interval : Z := 5 * 60 * 1000.

Notation ProfileObs := (Obs ProfileDb ProfileOut).
Notation ProfileWorld := (World ProfileDb ProfileOut).

(** Asking for one's own Kind 0 to be repaired: the npub and the session. *)
Notation Spawned := (list (string * Z)).

Section loop.
Context `{UnicodeCase}.

(** One move at [t]; [client] says whether there is one, [net] what the next load meets. *)
Definition loop_move (t : Z) (client : bool) (net : LoadAnswers) (ph : Phase) (q : ProfileSyncQueue) (w : ProfileWorld)
    : Phase * ProfileSyncQueue * ProfileObs * Spawned :=
  let d := o_db (w_obs w) in
  match ph with
  | Head last_own =>
      if own_profile_sync_interval <=? elapsed t last_own then
        match find_first p_mine (st_profiles d) with
        | None => (CheckQueue t, q, w_obs w, [])
        | Some own =>
            let empty := negb (has_public_metadata own) in
            (QueueOwn (p_id own) (if empty then Critical else Low), q, w_obs w,
             if negb empty && client then [(p_id own, st_generation d)] else [])
        end
      else (CheckQueue last_own, q, w_obs w, [])
  | QueueOwn npub priority => (CheckQueue t, add t npub priority false q, w_obs w, [])
  | CheckQueue last_own =>
      if is_processing q then (Head last_own, q, w_obs w, [])
      else
        let '(batch, q) := get_next_batch t (set_is_processing true q) in
        let q := foldl (λ q e, mark_processing (qe_npub e) q) q batch in
        (match batch with [] => FoundNothing last_own | _ => Fetching last_own batch end, q, w_obs w, [])
  | FoundNothing last_own | Releasing last_own => (Head last_own, set_is_processing false q, w_obs w, [])
  | Fetching last_own batch =>
      match batch with
      | [] => (Releasing last_own, q, w_obs w, [])
      | e :: _ =>
          let '(r, w') := load_begin net (qe_npub e) w in
          (match r with
           | Ok (Some lacks) => Waiting last_own batch net lacks
           | Ok None => Fetched last_own batch
           | Err _ => Panicked batch
           end, q, w_obs w', [])
      end
  | Waiting last_own batch net lacks =>
      match batch with
      | [] => (Releasing last_own, q, w_obs w, [])
      | e :: _ =>
          let '(r, w') := load_finish net (qe_npub e) lacks w in
          (if is_okb r then WaitingStatus last_own batch (la_status net) else Panicked batch, q, w_obs w', [])
      end
  | WaitingStatus last_own batch status =>
      match batch with
      | [] => (Releasing last_own, q, w_obs w, [])
      | e :: _ =>
          let '(r, w') := apply_fetched_status (qe_npub e) status w in
          (if is_okb r then Fetched last_own batch else Panicked batch, q, w_obs w', [])
      end
  | Fetched last_own batch =>
      match batch with
      | [] => (Releasing last_own, q, w_obs w, [])
      | e :: rest => (match rest with [] => Releasing last_own | _ => Fetching last_own rest end,
                      mark_done t (qe_npub e) q, w_obs w, [])
      end
  | Panicked _ => (ph, q, w_obs w, [])
  end.

(** ** The system *)

(** The queue, the profiles, the loops started, the commands that have read the profiles and
    wait for the queue, the repairs spawned, and the clock. *)
Record SyncSys : Type := mkSync {
  sy_queue : ProfileSyncQueue; sy_obs : ProfileObs; sy_loops : list Phase; sy_waiting : list (list Request);
  sy_repairs : Spawned; sy_now : Z;
}.

Definition sync_init (o : ProfileObs) (t : Z) : SyncSys := mkSync ProfileSyncQueue_new o [] [] [] t.

Definition move_loop (i : nat) (client : bool) (net : LoadAnswers) (fs : list (option string)) (cs : list Z) (s : SyncSys)
    : SyncSys :=
  match sy_loops s !! i with
  | None => s
  | Some ph =>
      let '(ph', q, o, spawned) := loop_move (sy_now s) client net ph (sy_queue s) (mkWorld (sy_obs s) fs cs) in
      mkSync q o (<[i := ph']> (sy_loops s)) (sy_waiting s) (sy_repairs s ++ spawned) (sy_now s)
  end.

Definition on_queue (f : ProfileSyncQueue → ProfileSyncQueue) (s : SyncSys) : SyncSys :=
  mkSync (f (sy_queue s)) (sy_obs s) (sy_loops s) (sy_waiting s) (sy_repairs s) (sy_now s).
Definition put_obs (o : ProfileObs) (s : SyncSys) : SyncSys :=
  mkSync (sy_queue s) o (sy_loops s) (sy_waiting s) (sy_repairs s) (sy_now s).

(** [start_profile_sync_processor]: [setup] starts one. *)
Definition start_profile_sync_processor (s : SyncSys) : SyncSys :=
  mkSync (sy_queue s) (sy_obs s) (sy_loops s ++ [Head (sy_now s)]) (sy_waiting s) (sy_repairs s) (sy_now s).

Definition wait_for_queue (rs : list Request) (s : SyncSys) : SyncSys :=
  mkSync (sy_queue s) (sy_obs s) (sy_loops s) (sy_waiting s ++ [rs]) (sy_repairs s) (sy_now s).
Definition run_waiting (k : nat) (s : SyncSys) : SyncSys :=
  match sy_waiting s !! k with
  | None => s
  | Some rs => mkSync (add_all (sy_now s) rs (sy_queue s)) (sy_obs s) (sy_loops s) (delete k (sy_waiting s))
                 (sy_repairs s) (sy_now s)
  end.

Inductive sync_step : SyncSys → SyncSys → Prop :=
| step_clock s t : sy_now s ≤ t →
    sync_step s (mkSync (sy_queue s) (sy_obs s) (sy_loops s) (sy_waiting s) (sy_repairs s) t)
| step_start s : sync_step s (start_profile_sync_processor s)
| step_loop s i client net fs cs : sync_step s (move_loop i client net fs cs s)
| step_queue s npub priority force : sync_step s (on_queue (add (sy_now s) npub priority force) s)
| step_refresh s npub : sync_step s (on_queue (refresh_profile_now (sy_now s) npub) s)
| step_chat s chats chat_id is_opening :
    sync_step s (wait_for_queue (queue_chat_profiles (st_profiles (o_db (sy_obs s))) chats chat_id is_opening) s)
| step_all s : sync_step s (wait_for_queue (sync_all_profiles (st_profiles (o_db (sy_obs s)))) s)
| step_waiting s k : sync_step s (run_waiting k s)
| step_others s o : sync_step s (put_obs o s).

Definition sync_reachable (s : SyncSys) : Prop := ∃ o t, rtc sync_step (sync_init o t) s.
End loop.

(** ** The two ends of a session *)

(** [logout], the profiles' part: [clear_session], the account's directory removed,
    [clear_nostr_client], no account. *)
Definition logout (d : ProfileDb) : ProfileDb := mkProfileDb [] ∅ ∅ None (st_generation d + 1).

(** [complete_login_from_keys], the profiles' part, with the account's tables. *)
Definition complete_login (npub : string) (rows : gmap string SlimProfile) (settings : gmap string string) (d : ProfileDb)
    : ProfileDb :=
  mkProfileDb [set_mine true (Profile_new npub)] rows settings (Some npub) (st_generation d + 1).

(** ** Facts about the queue *)

Section facts.
Implicit Types (q : ProfileSyncQueue) (l : list QueueEntry).

Definition entries q : list QueueEntry := critical_queue q ++ high_queue q ++ medium_queue q ++ low_queue q.
Definition queued q : list string := qe_npub <$> entries q.

(** Instants added in order, none in the future. *)
Definition in_time (t : Z) l : Prop := StronglySorted Z.le (qe_added_at <$> l) ∧ Forall (λ e, qe_added_at e ≤ t) l.

(** The queue by itself: no npub twice, none that is being processed, in time. *)
Definition queue_ok (t : Z) q : Prop :=
  NoDup (queued q) ∧ (∀ npub, npub ∈ queued q → npub ∉ processing q) ∧
  (∀ p, in_time t (queue_of p q)) ∧ map_Forall (λ _ at_, at_ ≤ t) (last_fetched q).

Lemma in_time_later t t' l : t ≤ t' → in_time t l → in_time t' l.
Proof. intros Ht [Hs Hf]. split; [done|]. eapply Forall_impl; [done|]. simpl; lia. Qed.
Lemma sublist_Forall {A} (P : A → Prop) (l l' : list A) : l' `sublist_of` l → Forall P l → Forall P l'.
Proof. induction 1; intros Hl; [done|apply Forall_cons in Hl as [? ?]; auto..]. Qed.
Lemma filter_is_sublist {A} (P : A → Prop) `{!∀ x, Decision (P x)} (l : list A) : filter P l `sublist_of` l.
Proof. induction l as [|x l IH]; [done|]. rewrite filter_cons. case_decide; by constructor. Qed.

Lemma in_time_sub t l l' : l' `sublist_of` l → in_time t l → in_time t l'.
Proof.
  intros Hl [Hs Hf]. split; [|by eapply sublist_Forall]. clear Hf. induction Hl as [|e l' l Hl IH|e l' l Hl IH]; simpl in *; [done| |].
  - apply StronglySorted_inv in Hs as [Hs He]. constructor; [by apply IH|]. rewrite Forall_fmap in *. by eapply sublist_Forall.
  - apply StronglySorted_inv in Hs as [Hs He]. by apply IH.
Qed.
Lemma in_time_snoc t l npub : in_time t l → in_time t (l ++ [mkEntry npub t]).
Proof.
  intros [Hs Hf]. split; [|apply Forall_app; split; [done|]; repeat constructor; simpl; lia].
  rewrite fmap_app. simpl. induction l as [|e l IH]; simpl in *; [by repeat constructor|].
  apply StronglySorted_inv in Hs as [Hs He]. apply Forall_cons in Hf as [? Hf]. constructor; [by apply IH|].
  apply Forall_app. split; [done|]. by repeat constructor.
Qed.

Lemma queue_ok_later t t' q : t ≤ t' → queue_ok t q → queue_ok t' q.
Proof.
  intros Ht (Hn & Hp & Hi & Hl). split_and!; [done|done|intros p; by eapply in_time_later|].
  eapply map_Forall_impl; [exact Hl|]. simpl; lia.
Qed.

Lemma queue_of_map p f q p' : queue_of p' (map_queue p f q) = if decide (p' = p) then f (queue_of p q) else queue_of p' q.
Proof. by destruct q, p, p'. Qed.
Lemma processing_map p f q : processing (map_queue p f q) = processing q.
Proof. by destruct q, p. Qed.
Lemma last_fetched_map p f q : last_fetched (map_queue p f q) = last_fetched q.
Proof. by destruct q, p. Qed.
Lemma is_processing_map p f q : is_processing (map_queue p f q) = is_processing q.
Proof. by destruct q, p. Qed.
Lemma queue_of_remove p npub q : queue_of p (remove_from_all_queues npub q) = filter (λ e, qe_npub e ≠ npub) (queue_of p q).
Proof. by destruct q, p. Qed.

(** Changing one queue changes the entries there. *)
Lemma entries_map_perm p f q : ∃ rest, entries q ≡ₚ queue_of p q ++ rest ∧ entries (map_queue p f q) ≡ₚ f (queue_of p q) ++ rest.
Proof.
  destruct q as [c h m l pr lf ip]. unfold entries. destruct p; simpl.
  - by exists (h ++ m ++ l).
  - exists (c ++ m ++ l). split; solve_Permutation.
  - exists (c ++ h ++ l). split; solve_Permutation.
  - exists (c ++ h ++ m). split; solve_Permutation.
Qed.

Lemma remove_queued npub q : queued (remove_from_all_queues npub q) = filter (λ n, n ≠ npub) (queued q).
Proof.
  unfold queued, entries. destruct q; simpl.
  by rewrite !fmap_app, !filter_app, !filter_fmap.
Qed.

Lemma queued_map_perm p f q : ∃ rest, queued q ≡ₚ (qe_npub <$> queue_of p q) ++ rest ∧
  queued (map_queue p f q) ≡ₚ (qe_npub <$> f (queue_of p q)) ++ rest.
Proof.
  destruct (entries_map_perm p f q) as (rest & H1 & H2). exists (qe_npub <$> rest). unfold queued.
  by rewrite H1, H2, !fmap_app.
Qed.

Lemma add_cases t npub p force q :
  add t npub p force q = q ∨
  npub ∉ processing q ∧ add t npub p force q = map_queue p (λ l, l ++ [mkEntry npub t]) (remove_from_all_queues npub q).
Proof. unfold add. case_bool_decide as Hp; [by left|]. case_match; [by left|by right]. Qed.

Lemma remove_same npub q :
  processing (remove_from_all_queues npub q) = processing q ∧ last_fetched (remove_from_all_queues npub q) = last_fetched q ∧
  is_processing (remove_from_all_queues npub q) = is_processing q.
Proof. by destruct q. Qed.

Lemma add_same t npub p force q :
  processing (add t npub p force q) = processing q ∧ last_fetched (add t npub p force q) = last_fetched q ∧
  is_processing (add t npub p force q) = is_processing q.
Proof.
  destruct (add_cases t npub p force q) as [->|[_ ->]]; [done|].
  rewrite processing_map, last_fetched_map, is_processing_map. apply remove_same.
Qed.

Lemma add_queued t npub p force q :
  add t npub p force q = q ∨ npub ∉ processing q ∧ queued (add t npub p force q) ≡ₚ npub :: filter (λ n, n ≠ npub) (queued q).
Proof.
  destruct (add_cases t npub p force q) as [->|[Hp ->]]; [by left|right]. split; [done|].
  pose proof (queued_map_perm p (λ l, l ++ [mkEntry npub t]) (remove_from_all_queues npub q)) as (rest & H1 & H2).
  etrans; [exact H2|]. rewrite fmap_app. simpl. rewrite remove_queued in H1. rewrite <- (assoc_L (++)). simpl.
  rewrite <- Permutation_middle. by constructor.
Qed.

Lemma add_ok t npub p force q : queue_ok t q → queue_ok t (add t npub p force q).
Proof.
  intros (Hn & Hp & Hi & Hl). destruct (add_same t npub p force q) as (Hpr & Hlf & _). unfold queue_ok.
  rewrite Hpr, Hlf. destruct (add_queued t npub p force q) as [->|[Hnew Hq]]; [done|].
  assert (∀ x, x ∈ queued (add t npub p force q) → x = npub ∨ x ∈ queued q) as Hin
    by (intros x Hx; rewrite Hq in Hx; apply elem_of_cons in Hx as [?|Hx%list_elem_of_filter]; tauto). split_and!; [| | |done].
  - rewrite Hq. constructor; [|by apply NoDup_filter]. rewrite list_elem_of_filter. tauto.
  - intros x [->|Hx]%Hin; auto.
  - destruct (add_cases t npub p force q) as [->|[_ ->]]; [done|]. intros p'. rewrite queue_of_map.
    assert (∀ p', in_time t (queue_of p' (remove_from_all_queues npub q))) as Hr.
    { intros p''. rewrite queue_of_remove. eapply in_time_sub; [apply filter_is_sublist|apply Hi]. }
    case_decide; [apply in_time_snoc|]; apply Hr.
Qed.

Lemma add_all_ok t rs q : queue_ok t q → queue_ok t (add_all t rs q).
Proof. unfold add_all. revert q. induction rs as [|r rs IH]; simpl; [done|]. intros q Hq. by apply IH, add_ok. Qed.
Lemma add_all_same t rs q :
  processing (add_all t rs q) = processing q ∧ last_fetched (add_all t rs q) = last_fetched q ∧
  is_processing (add_all t rs q) = is_processing q.
Proof.
  unfold add_all. revert q. induction rs as [|r rs IH]; simpl; [done|]. intros q.
  destruct (IH (add t r.1.1 r.1.2 r.2 q)) as (-> & -> & ->). apply add_same.
Qed.

Lemma take_ready_app t delay n l : l = (take_ready t delay n l).1 ++ (take_ready t delay n l).2.
Proof.
  revert n. induction l as [|e l IH]; intros [|n]; simpl; try done. case_match; [|done].
  specialize (IH n). destruct (take_ready t delay n l) as [b r]. simpl in *. by rewrite <- IH.
Qed.

(** Oldest first, the entries old enough are the ones in front. *)
Lemma take_ready_filter t delay n l : in_time t l → 0 ≤ delay →
  (take_ready t delay n l).1 = take n (filter (λ e, delay ≤ elapsed t (qe_added_at e)) l).
Proof.
  intros [Hs _] Hd. revert n. induction l as [|e l IH]; intros [|n]; simpl; try done.
  simpl in Hs. apply StronglySorted_inv in Hs as [Hs He]. rewrite filter_cons. destruct (Z.leb_spec delay (elapsed t (qe_added_at e))) as [Hr|Hr].
  - rewrite decide_True by done. specialize (IH Hs n). destruct (take_ready t delay n l). simpl in *. by rewrite IH.
  - rewrite decide_False by lia. destruct (filter _ l) as [|x l'] eqn:E; [done|].
    assert (x ∈ filter (λ e, delay ≤ elapsed t (qe_added_at e)) l) as [Hx Hin]%list_elem_of_filter by (rewrite E; left).
    rewrite Forall_fmap, Forall_forall in He. specialize (He x Hin). simpl in He. unfold elapsed in *. lia.
Qed.

Lemma first_queue_spec q : match first_queue q with
  | None => entries q = []
  | Some p => queue_of p q ≠ []
  end.
Proof. destruct q as [[|??] [|??] [|??] [|??] ???]; done. Qed.

Lemma next_batch_spec t q batch q' : get_next_batch t q = (batch, q') →
  queued q ≡ₚ (qe_npub <$> batch) ++ queued q' ∧ processing q' = processing q ∧ last_fetched q' = last_fetched q ∧
  is_processing q' = is_processing q ∧ (∀ p, queue_of p q' `sublist_of` queue_of p q) ∧ (length batch ≤ 50)%nat.
Proof.
  unfold get_next_batch. destruct (first_queue q) as [p|]; [|intros [= <- <-]; split_and!; try done; simpl; lia].
  pose proof (take_ready_app t (processing_delay p) (batch_size p) (queue_of p q)) as Happ.
  assert (∀ n l, (length (take_ready t (processing_delay p) n l).1 ≤ n)%nat) as Hlen.
  { intros n l. revert n. induction l as [|e l IH]; intros [|n]; simpl; try lia. case_match; simpl; [|lia].
    specialize (IH n). destruct (take_ready t (processing_delay p) n l). simpl in *. lia. }
  specialize (Hlen (batch_size p) (queue_of p q)). destruct (take_ready _ _ _ _) as [b r]. simpl in *. intros [= <- <-].
  destruct (queued_map_perm p (λ _, r) q) as (rest & H1 & H2).
  rewrite processing_map, last_fetched_map, is_processing_map. split_and!; try done.
  - rewrite H1, H2, Happ, fmap_app. by rewrite (assoc_L (++)).
  - intros p'. rewrite queue_of_map. case_decide; [subst; rewrite Happ; by apply sublist_inserts_l|done].
  - etrans; [exact Hlen|]. destruct p; simpl; lia.
Qed.
End facts.

(** ** Who holds the queue *)

Section exclusive.
Context `{UnicodeCase}.
Implicit Types (q : ProfileSyncQueue) (ph : Phase).

(** What a loop that has set [is_processing] still has to load. *)
Definition holds ph : option (list string) :=
  match ph with
  | Head _ | QueueOwn _ _ | CheckQueue _ => None
  | FoundNothing _ | Releasing _ => Some []
  | Fetching _ batch | Waiting _ batch _ _ | WaitingStatus _ batch _ | Fetched _ batch | Panicked batch =>
      Some (qe_npub <$> batch)
  end.

(** One holder, if the flag is set; what it has left is what is being processed. *)
Definition held (q : ProfileSyncQueue) (loops : list Phase) : Prop :=
  ∃ rest, omap holds loops = (if is_processing q then [rest] else []) ∧ (is_processing q = false → rest = []) ∧
    processing q = list_to_set rest ∧ NoDup rest ∧ (length rest ≤ 50)%nat.

Definition sync_ok (s : SyncSys) : Prop := queue_ok (sy_now s) (sy_queue s) ∧ held (sy_queue s) (sy_loops s).

Lemma omap_insert_holds (loops : list Phase) i ph ph' : loops !! i = Some ph →
  ∃ l k, omap holds loops = l ++ option_list (holds ph) ++ k ∧ omap holds (<[i:=ph']> loops) = l ++ option_list (holds ph') ++ k.
Proof.
  intros Hi. exists (omap holds (take i loops)), (omap holds (drop (S i) loops)).
  assert (∀ x, option_list (holds x) = omap holds [x]) as Hx by (intros x; simpl; by destruct (holds x)).
  rewrite !Hx. rewrite <- !omap_app. split; f_equal; simpl.
  - by rewrite <- (take_drop_middle _ _ _ Hi) at 1.
  - rewrite insert_take_drop; [done|]. by eapply lookup_lt_Some.
Qed.

Lemma held_same q q' loops i ph ph' : held q loops → loops !! i = Some ph → holds ph' = holds ph →
  processing q' = processing q → is_processing q' = is_processing q → held q' (<[i:=ph']> loops).
Proof.
  intros (rest & Ho & Hr) Hi Hh Hp Hip. exists rest. rewrite Hp, Hip.
  destruct (omap_insert_holds loops i ph ph' Hi) as (l & k & H1 & H2). rewrite H2, Hh, <- H1. done.
Qed.

(** The holder is the only one. *)
Lemma held_by q loops i ph rest : held q loops → loops !! i = Some ph → holds ph = Some rest →
  is_processing q = true ∧ processing q = list_to_set rest ∧ NoDup rest ∧ (length rest ≤ 50)%nat ∧
  ∀ ph', omap holds (<[i:=ph']> loops) = option_list (holds ph').
Proof.
  intros (r & Ho & Hr & Hp & Hn & Hl) Hi Hh. destruct (omap_insert_holds loops i ph ph Hi) as (l & k & H1 & _).
  rewrite H1, Hh in Ho. destruct (is_processing q); simpl in Ho; [|by destruct l].
  destruct l as [|x l]; [|by destruct l]. destruct k; simplify_eq/=. split_and!; try done.
  intros ph'. destruct (omap_insert_holds loops i ph ph' Hi) as (l & k & H1' & ->).
  rewrite H1', Hh in H1. destruct l as [|? [|? l]], k; simplify_eq/=. apply app_nil_r.
Qed.

Lemma mark_all q (batch : list QueueEntry) :
  let q' := foldl (λ q e, mark_processing (qe_npub e) q) q batch in
  (∀ p, queue_of p q' = queue_of p q) ∧ queued q' = queued q ∧ last_fetched q' = last_fetched q ∧
  is_processing q' = is_processing q ∧ processing q' = list_to_set (qe_npub <$> batch) ∪ processing q.
Proof.
  revert q. induction batch as [|e batch IH]; intros q; simpl; [split_and!; try done; set_solver|].
  destruct (IH (mark_processing (qe_npub e) q)) as (Hq & -> & -> & -> & ->). split_and!; [|by destruct q..|].
  - intros p. rewrite Hq. by destruct q, p.
  - destruct q; simpl. set_solver.
Qed.

Lemma set_is_processing_same b q :
  (∀ p, queue_of p (set_is_processing b q) = queue_of p q) ∧ queued (set_is_processing b q) = queued q ∧
  last_fetched (set_is_processing b q) = last_fetched q ∧ processing (set_is_processing b q) = processing q ∧
  is_processing (set_is_processing b q) = b.
Proof. by destruct q. Qed.

Lemma set_is_processing_ok t b q : queue_ok t q → queue_ok t (set_is_processing b q).
Proof.
  destruct (set_is_processing_same b q) as (Hq & Hd & Hl & Hp & _). unfold queue_ok. rewrite Hd, Hl, Hp.
  intros (? & ? & ? & ?). split_and!; try done. intros p. by rewrite Hq.
Qed.

(** Taking a batch. *)
Lemma take_batch_ok t q batch q1 : queue_ok t q → get_next_batch t (set_is_processing true q) = (batch, q1) →
  let q' := foldl (λ q e, mark_processing (qe_npub e) q) q1 batch in
  queue_ok t q' ∧ is_processing q' = true ∧ processing q' = list_to_set (qe_npub <$> batch) ∪ processing q ∧
  NoDup (qe_npub <$> batch) ∧ (length batch ≤ 50)%nat.
Proof.
  intros (Hn & Hp & Hi & Hl) Hb. destruct (set_is_processing_same true q) as (Eq & Ed & El & Ep & Eb).
  destruct (next_batch_spec _ _ _ _ Hb) as (Hq & Hp1 & Hl1 & Hb1 & Hsub & Hlen). rewrite Ed in Hq.
  destruct (mark_all q1 batch) as (Mq & Md & Ml & Mb & Mp). intros q'. fold q' in Mq, Md, Ml, Mb, Mp.
  rewrite Hq in Hn. apply NoDup_app in Hn as (Hn1 & Hdisj & Hn2).
  rewrite Mb, Hb1, Eb, Mp, Hp1, Ep. split_and!; try done. unfold queue_ok. rewrite Md, Ml, Mp, Hl1, El, Hp1, Ep. split_and!; try done.
  - intros npub Hin. rewrite elem_of_union, elem_of_list_to_set. intros [Hin'|Hin']; [by eapply Hdisj|].
    eapply Hp; [|exact Hin']. rewrite Hq. apply elem_of_app. by right.
  - intros p. rewrite Mq. eapply in_time_sub; [apply Hsub|]. by rewrite Eq.
Qed.

Lemma mark_done_same t npub q :
  (∀ p, queue_of p (mark_done t npub q) = queue_of p q) ∧ queued (mark_done t npub q) = queued q ∧
  last_fetched (mark_done t npub q) = <[npub:=t]> (last_fetched q) ∧
  processing (mark_done t npub q) = processing q ∖ {[npub]} ∧ is_processing (mark_done t npub q) = is_processing q.
Proof. by destruct q. Qed.

Lemma release_ok t q loops i ph last : queue_ok t q → held q loops → loops !! i = Some ph → holds ph = Some [] →
  queue_ok t (set_is_processing false q) ∧ held (set_is_processing false q) (<[i:=Head last]> loops).
Proof.
  intros Hq Hh Hi Hph. split; [by apply set_is_processing_ok|].
  destruct (held_by _ _ _ _ _ Hh Hi Hph) as (_ & Hp & _ & _ & Ho).
  destruct (set_is_processing_same false q) as (_ & _ & _ & Ep & Eb). exists []. rewrite Ep, Eb, Ho. simpl.
  split_and!; [done..| |lia]. apply NoDup_nil_2.
Qed.

Lemma done_ok t q loops i last e rest : queue_ok t q → held q loops → loops !! i = Some (Fetched last (e :: rest)) →
  queue_ok t (mark_done t (qe_npub e) q) ∧
  held (mark_done t (qe_npub e) q) (<[i:=match rest with [] => Releasing last | _ => Fetching last rest end]> loops).
Proof.
  intros (Hn & Hp & Hi & Hl) Hh Hph. destruct (mark_done_same t (qe_npub e) q) as (Eq & Ed & El & Ep & Eb). split.
  - unfold queue_ok. rewrite Ed, El, Ep. split_and!; [done| |intros p; by rewrite Eq|].
    + intros npub Hin [Hin' _]%elem_of_difference. by eapply Hp.
    + apply map_Forall_insert_2; [lia|done].
  - destruct (held_by _ _ _ _ _ Hh Hph eq_refl) as (Hb & Hset & Hnd & Hlen & Ho). exists (qe_npub <$> rest).
    rewrite Eb, Hb, Ho, Ep, Hset. apply NoDup_cons in Hnd as [He Hnd].
    rewrite length_fmap in Hlen |- *. simpl in Hlen. split_and!; [|done| |done|lia].
    + by destruct rest.
    + simpl. apply set_eq. intros x. rewrite elem_of_difference, elem_of_union, !elem_of_singleton, elem_of_list_to_set. set_solver.
Qed.

Lemma check_ok t q loops i last batch q1 : queue_ok t q → held q loops → loops !! i = Some (CheckQueue last) →
  is_processing q = false → get_next_batch t (set_is_processing true q) = (batch, q1) →
  let q' := foldl (λ q e, mark_processing (qe_npub e) q) q1 batch in
  queue_ok t q' ∧ held q' (<[i:=match batch with [] => FoundNothing last | _ => Fetching last batch end]> loops).
Proof.
  intros Hq (rest & Ho & Hr & Hp & _) Hi Hip Hb q'. destruct (take_batch_ok _ _ _ _ Hq Hb) as (Hq' & Hip' & Hp' & Hnd & Hlen).
  fold q' in Hq', Hip', Hp'. split; [done|]. exists (qe_npub <$> batch). rewrite Hip', Hp', Hp, (Hr Hip). rewrite Hip in Ho.
  rewrite length_fmap. split_and!; try done; [|set_solver].
  destruct (omap_insert_holds loops i _ (match batch with [] => FoundNothing last | _ => Fetching last batch end) Hi)
    as (l & k & H1 & ->). rewrite H1 in Ho. destruct l, k; simplify_eq/=. by destruct batch.
Qed.

Lemma loop_move_ok t client net ph q w ph' q' o spawned loops i :
  queue_ok t q → held q loops → loops !! i = Some ph → loop_move t client net ph q w = (ph', q', o, spawned) →
  queue_ok t q' ∧ held q' (<[i:=ph']> loops).
Proof.
  intros Hq Hh Hi Hm.
  assert (∀ x, holds x = holds ph → queue_ok t q ∧ held q (<[i:=x]> loops)) as Hsame
    by (intros x Hx; split; [done|by eapply held_same]).
  destruct ph as [last|npub p|last|last|last batch|last batch net' lacks|last batch status|last batch|last|batch]; simpl in Hm.
  - repeat case_match; simplify_eq/=; by apply Hsame.
  - simplify_eq. split; [by apply add_ok|]. destruct (add_same t npub p false q) as (Ep & _ & Eb). by eapply held_same.
  - destruct (is_processing q) eqn:Hip; [simplify_eq; by apply Hsame|].
    destruct (get_next_batch t (set_is_processing true q)) as [batch q1] eqn:Hb. simplify_eq. by eapply check_ok.
  - simplify_eq. by eapply release_ok.
  - destruct batch as [|e batch]; [simplify_eq; by apply Hsame|]. destruct (load_begin _ _ _) as [[[]|] ?]; simplify_eq; by apply Hsame.
  - destruct batch as [|e batch]; [simplify_eq; by apply Hsame|]. destruct (load_finish _ _ _ _) as [[] ?]; simplify_eq; by apply Hsame.
  - destruct batch as [|e batch]; [simplify_eq; by apply Hsame|].
    destruct (apply_fetched_status _ _ _) as [[] ?]; simplify_eq; by apply Hsame.
  - destruct batch as [|e batch]; [simplify_eq; by apply Hsame|]. simplify_eq. by apply done_ok.
  - simplify_eq. by eapply release_ok.
  - simplify_eq. by apply Hsame.
Qed.

Lemma held_more q loops ph : held q loops → holds ph = None → held q (loops ++ [ph]).
Proof. intros (rest & Ho & Hr) Hph. exists rest. rewrite omap_app. simpl. by rewrite Hph, app_nil_r. Qed.
Lemma held_queue q q' loops : held q loops → processing q' = processing q → is_processing q' = is_processing q → held q' loops.
Proof. intros (rest & Hr) Hp Hb. exists rest. by rewrite Hp, Hb. Qed.

Lemma sync_step_ok s s' : sync_step s s' → sync_ok s → sync_ok s'.
Proof.
  intros Hstep [Hq Hh]. destruct Hstep as [s t Ht|s|s i client net fs cs|s npub p force|s npub|s chats id opening|s|s k|s o];
    unfold sync_ok; simpl; try done.
  - split; [by eapply queue_ok_later|done].
  - split; [done|by apply held_more].
  - unfold move_loop. destruct (sy_loops s !! i) as [ph|] eqn:Hi; [|done].
    destruct (loop_move _ _ _ _ _ _) as [[[ph' q'] o] spawned] eqn:Hm. simpl. by eapply loop_move_ok.
  - destruct (add_same (sy_now s) npub p force (sy_queue s)) as (Ep & _ & Eb).
    split; [by apply add_ok|by eapply held_queue].
  - destruct (add_same (sy_now s) npub Critical true (sy_queue s)) as (Ep & _ & Eb).
    split; [by apply add_ok|by eapply held_queue].
  - unfold run_waiting. destruct (sy_waiting s !! k) as [rs|]; [|done]. simpl.
    destruct (add_all_same (sy_now s) rs (sy_queue s)) as (Ep & _ & Eb).
    split; [by apply add_all_ok|by eapply held_queue].
Qed.

Lemma sync_reachable_ok s : sync_reachable s → sync_ok s.
Proof.
  intros (o & t & Hs). remember (sync_init o t) as s0 eqn:Hs0.
  assert (sync_ok s0) as H0.
  { subst. split; [split_and!; [apply NoDup_nil_2|set_solver|intros []; split; by constructor|apply map_Forall_empty]|].
    exists []. split_and!; try done; [apply NoDup_nil_2|simpl; lia]. }
  clear Hs0. induction Hs as [|s0 s1 s2 Hstep _ IH]; [done|]. by apply IH, (sync_step_ok s0).
Qed.

Lemma holder_unique q loops i j ph ph' rest rest' : held q loops → loops !! i = Some ph → loops !! j = Some ph' →
  holds ph = Some rest → holds ph' = Some rest' → i = j.
Proof.
  intros Hh Hi Hj Hph Hph'. destruct (held_by _ _ _ _ _ Hh Hi Hph) as (_ & _ & _ & _ & Ho). specialize (Ho (Head 0)).
  destruct (decide (i = j)) as [|Hne]; [done|]. exfalso.
  assert (rest' ∈ omap holds (<[i:=Head 0]> loops)) as Hin; [|rewrite Ho in Hin; by apply elem_of_nil in Hin].
  apply list_elem_of_omap. exists ph'. split; [|done]. eapply list_elem_of_lookup_2. by rewrite list_lookup_insert_ne.
Qed.

(** C12. Whatever the commands, the other tasks and the clock do, and however many loops were
    started: at most one loop is between taking a batch and releasing the queue, and then the
    flag is set and what is being processed is exactly what it still has to load, at most
    fifty; otherwise nothing is being processed. No npub is queued twice, none is queued while
    it is processed, and a batch is what its name says: of the first queue with entries, the
    oldest that have waited long enough, up to the batch size. *)
Theorem sync_exclusive s : sync_reachable s →
  let q := sy_queue s in
  (∀ i j ph ph' rest rest', sy_loops s !! i = Some ph → sy_loops s !! j = Some ph' →
     holds ph = Some rest → holds ph' = Some rest' → i = j) ∧
  (∀ i ph rest, sy_loops s !! i = Some ph → holds ph = Some rest →
     is_processing q = true ∧ processing q = list_to_set rest ∧ NoDup rest ∧ (length rest ≤ 50)%nat) ∧
  (is_processing q = false → processing q = ∅) ∧
  NoDup (queued q) ∧ (∀ npub, npub ∈ queued q → npub ∉ processing q) ∧
  (get_next_batch (sy_now s) q).1 = match first_queue q with
    | None => []
    | Some p => take (batch_size p) (filter (λ e, processing_delay p ≤ elapsed (sy_now s) (qe_added_at e)) (queue_of p q))
    end.
Proof.
  intros Hs. destruct (sync_reachable_ok s Hs) as [(Hn & Hp & Hi & Hl) Hh]. split_and!; try done.
  - intros i j ph ph' rest rest' Hj Hj'. by eapply holder_unique.
  - intros i ph rest Hj Hph. destruct (held_by _ _ _ _ _ Hh Hj Hph) as (? & ? & ? & ? & _). done.
  - destruct Hh as (rest & _ & Hr & -> & _). intros Hip. by rewrite (Hr Hip).
  - unfold get_next_batch. destruct (first_queue (sy_queue s)) as [p|]; [|done].
    rewrite <- take_ready_filter; [by destruct (take_ready _ _ _ _)|done|by destruct p].
Qed.

(** ** A click *)

Definition ahead (q : ProfileSyncQueue) (e : QueueEntry) (n : nat) : Prop :=
  ∃ l1 l2, critical_queue q = l1 ++ e :: l2 ∧ (length l1 ≤ n)%nat.
Definition asked_again (t : Z) (npub : string) q : Prop := ∃ p, mkEntry npub t ∈ queue_of p q.

Lemma critical_of q : critical_queue q = queue_of Critical q.
Proof. done. Qed.

Lemma add_ahead t npub p force q e n : ahead q e n →
  ahead (add t npub p force q) e n ∨ asked_again t (qe_npub e) (add t npub p force q).
Proof.
  intros (l1 & l2 & Hc & Hn). destruct (add_cases t npub p force q) as [->|[_ ->]]; [left; by exists l1, l2|].
  destruct (decide (qe_npub e = npub)) as [<-|Hne].
  - right. exists p. rewrite queue_of_map, decide_True by done. set_solver.
  - left. rewrite critical_of in Hc. unfold ahead. rewrite critical_of, queue_of_map, !queue_of_remove.
    assert (filter (λ e, qe_npub e ≠ npub) (queue_of Critical q) =
      filter (λ e, qe_npub e ≠ npub) l1 ++ e :: filter (λ e, qe_npub e ≠ npub) l2) as Hf
      by (by rewrite Hc, filter_app, filter_cons, decide_True).
    pose proof (length_filter (λ e, qe_npub e ≠ npub) l1) as Hle. case_decide; subst.
    + rewrite Hf, <- (assoc_L (++)). simpl. eexists _, _. split; [done|lia].
    + rewrite Hf. eexists _, _. split; [done|lia].
Qed.

Lemma add_asked t npub p force q npub' : asked_again t npub' q → asked_again t npub' (add t npub p force q).
Proof.
  intros [p' Hin]. destruct (add_cases t npub p force q) as [->|[_ ->]]; [by exists p'|].
  destruct (decide (npub' = npub)) as [->|Hne].
  - exists p. rewrite queue_of_map, decide_True by done. set_solver.
  - exists p'. rewrite queue_of_map, !queue_of_remove.
    assert (mkEntry npub' t ∈ filter (λ e, qe_npub e ≠ npub) (queue_of p' q)) by (by apply list_elem_of_filter).
    case_decide; [subst; apply elem_of_app; by left|done].
Qed.
Lemma add_all_ahead t rs q e n : ahead q e n ∨ asked_again t (qe_npub e) q →
  ahead (add_all t rs q) e n ∨ asked_again t (qe_npub e) (add_all t rs q).
Proof.
  unfold add_all. revert q. induction rs as [|r rs IH]; simpl; [done|]. intros q [Ha|Ha]; apply IH.
  - by apply add_ahead.
  - right. by apply add_asked.
Qed.

(** Everything critical is ready. *)
Lemma take_critical t n l : take_ready t 0 n l = (take n l, drop n l).
Proof.
  revert n. induction l as [|e l IH]; intros [|n]; simpl; try done.
  rewrite (proj2 (Z.leb_le _ _)) by (unfold elapsed; lia). by rewrite IH.
Qed.
Lemma batch_ahead t q e n batch q1 : ahead q e n → get_next_batch t q = (batch, q1) →
  e ∈ batch ∨ ∃ m, ahead q1 e m ∧ (m + 10 ≤ n)%nat.
Proof.
  intros (l1 & l2 & Hc & Hn). unfold get_next_batch.
  assert (first_queue q = Some Critical) as -> by (destruct q as [[|]]; [by destruct l1|done]).
  change (processing_delay Critical) with 0. rewrite take_critical, <- critical_of, Hc.
  change (batch_size Critical) with 10%nat. intros [= <- <-]. destruct (decide (10 ≤ length l1)%nat) as [Hge|Hlt].
  - right. exists (length l1 - 10)%nat. split; [|lia]. exists (drop 10 l1), l2. rewrite critical_of, queue_of_map. simpl.
    rewrite drop_app_le by lia. split; [done|]. rewrite length_drop. lia.
  - left. rewrite take_app_ge by lia. apply elem_of_app. right.
    destruct (10 - length l1)%nat eqn:E; [lia|]. simpl. left.
Qed.

(** Being taken next, in line, or asked for again. *)
Definition progress (t : Z) (q q' : ProfileSyncQueue) (e : QueueEntry) (n : nat) : Prop :=
  qe_npub e ∈ processing q' ∨ asked_again t (qe_npub e) q' ∨
  ∃ m, ahead q' e m ∧ (m ≤ n)%nat ∧ (is_processing q = false → is_processing q' = true → m + 10 ≤ n)%nat.

Lemma progress_queue t q q' e n : ahead q' e n ∨ asked_again t (qe_npub e) q' → is_processing q' = is_processing q →
  progress t q q' e n.
Proof. intros [Ha|Ha] Hb; [|right; by left]. right; right. exists n. split_and!; try done. congruence. Qed.

Lemma ahead_same q q' e n : critical_queue q' = critical_queue q → ahead q e n → ahead q' e n.
Proof. unfold ahead. by intros ->. Qed.

Lemma loop_move_progress t client net ph q w ph' q' o spawned e n :
  ahead q e n → loop_move t client net ph q w = (ph', q', o, spawned) → progress t q q' e n.
Proof.
  intros Ha Hm.
  assert (progress t q q e n) as Hsame by (apply progress_queue; auto).
  destruct ph as [last|npub p|last|last|last batch|last batch net' lacks|last batch status|last batch|last|batch]; simpl in Hm.
  2: { simplify_eq. apply progress_queue; [by apply add_ahead|apply add_same]. }
  2: { destruct (is_processing q) eqn:Hip; [by simplify_eq|].
    destruct (get_next_batch t (set_is_processing true q)) as [batch q1] eqn:Hb.
    destruct (mark_all q1 batch) as (Mq & _ & _ & Mb & Mp). simplify_eq.
    destruct (set_is_processing_same true q) as (Eq & _ & _ & _ & _).
    assert (ahead (set_is_processing true q) e n) as Ha' by (eapply ahead_same; [apply (Eq Critical)|done]).
    destruct (batch_ahead _ _ _ _ _ _ Ha' Hb) as [Hin|(m & Hm & Hle)].
    - left. rewrite Mp. apply elem_of_union_l, elem_of_list_to_set. by apply list_elem_of_fmap_2.
    - right; right. exists m. split_and!; [|lia|done]. eapply ahead_same; [apply (Mq Critical)|done]. }
  2,7: simplify_eq; right; right; exists n; split_and!; [|lia|by destruct q];
    apply (ahead_same q); [by destruct q|done].
  5: { destruct batch as [|e' batch]; [by simplify_eq|]. simplify_eq. destruct (mark_done_same t (qe_npub e') q) as (Eq & _ & _ & _ & Eb).
    apply progress_queue; [left|done]. eapply ahead_same; [apply (Eq Critical)|done]. }
  all: repeat case_match; by simplify_eq.
Qed.

(** C20. A click puts the profile at the end of the critical queue, unless it is being loaded, and
    from there every step of the system keeps it in line: it is taken into the next batch or
    never has more in front of it than before, and ten fewer after every batch that is taken;
    so with [n] in front of it the batch after [n / 10] others has it. Only being asked for
    again, with whatever priority, takes it out of the line. *)
Theorem click_progress s npub n : npub ∉ processing (sy_queue s) → length (critical_queue (sy_queue s)) = n →
  let e := mkEntry npub (sy_now s) in
  ahead (sy_queue (on_queue (refresh_profile_now (sy_now s) npub) s)) e n ∧
  ∀ s1 s2 m, sync_step s1 s2 → ahead (sy_queue s1) e m → progress (sy_now s1) (sy_queue s1) (sy_queue s2) e m.
Proof.
  intros Hp Hn e. split.
  - simpl. unfold refresh_profile_now, add. rewrite bool_decide_false by done. simpl. unfold ahead.
    rewrite critical_of, queue_of_map, queue_of_remove. simpl. eexists _, []. split; [done|].
    etrans; [apply length_filter|]. rewrite <- Hn. done.
  - intros s1 s2 m Hstep Ha. destruct Hstep as [s1 t Ht|s1|s1 i client net fs cs|s1 npub' p force|s1 npub'|s1 chats id opening|s1|s1 k|s1 o];
      simpl; try (apply progress_queue; [by left|done]).
    + unfold move_loop. destruct (sy_loops s1 !! i) as [ph|]; [|apply progress_queue; [by left|done]].
      destruct (loop_move _ _ _ _ _ _) as [[[ph' q'] o] spawned] eqn:Hm. simpl. by eapply loop_move_progress.
    + apply progress_queue; [by apply add_ahead|apply add_same].
    + apply progress_queue; [by apply add_ahead|apply add_same].
    + unfold run_waiting. destruct (sy_waiting s1 !! k) as [rs|]; [|apply progress_queue; [by left|done]].
      simpl. apply progress_queue; [by apply add_all_ahead; left|apply add_all_same].
Qed.

(** A profile fetched more than a day ago, or not since the start, is not protected. *)
Lemma click_demoted t t' npub q : npub ∉ processing q →
  from_option (λ last, cache_window Low ≤ elapsed t' last) True (last_fetched q !! npub) →
  let q' := add t' npub Low false (refresh_profile_now t npub q) in
  mkEntry npub t' ∈ low_queue q' ∧ ∀ e, e ∈ critical_queue q' → qe_npub e ≠ npub.
Proof.
  intros Hp Hl q'. destruct (add_same t npub Critical true q) as (Ep & El & _).
  assert (q' = map_queue Low (λ l, l ++ [mkEntry npub t']) (remove_from_all_queues npub (refresh_profile_now t npub q))) as ->.
  { subst q'. unfold refresh_profile_now, add at 1. rewrite Ep, El, bool_decide_false by done. simpl.
    destruct (last_fetched q !! npub) as [last|]; simpl in *; [|done]. by rewrite (proj2 (Z.ltb_ge _ _)). }
  rewrite critical_of. change (low_queue ?q) with (queue_of Low q). rewrite !queue_of_map, !queue_of_remove. simpl.
  split; [set_solver|]. intros e [He _]%list_elem_of_filter. done.
Qed.

(** ** A logout *)

Definition loads ph : bool :=
  match ph with Head _ | QueueOwn _ _ | CheckQueue _ | Panicked _ => false | _ => true end.

Definition stalled (i : nat) (batch : list QueueEntry) (s : SyncSys) : Prop :=
  sync_ok s ∧ sy_loops s !! i = Some (Panicked batch).

Lemma stalled_step i batch s s' : sync_step s s' → stalled i batch s → stalled i batch s'.
Proof.
  intros Hstep [Hok Hi]. split; [by eapply sync_step_ok|].
  destruct Hstep as [s t Ht|s|s j client net fs cs|s npub p force|s npub|s chats id opening|s|s k|s o]; simpl; try done.
  - by apply lookup_app_l_Some.
  - unfold move_loop. destruct (sy_loops s !! j) as [ph|] eqn:Hj; [|done].
    destruct (loop_move _ _ _ _ _ _) as [[[ph' q'] o] spawned] eqn:Hm. simpl.
    destruct (decide (i = j)) as [<-|Hne]; [|by rewrite list_lookup_insert_ne].
    simplify_eq/=. rewrite list_lookup_insert_eq; [done|]. by eapply lookup_lt_Some.
  - unfold run_waiting. by destruct (sy_waiting s !! k).
Qed.

(** C22. A logout while a loop waits for a Kind 0 that then arrives ends the sync of profiles for
    good: the profile to update is gone, the loop panics holding the queue, and whatever
    happens after that, a new login and a second loop included, the flag stays set, the rest
    of its batch stays marked as being processed, and no loop loads a profile again. *)
Theorem logout_stalls_sync s i last e rest net lacks meta log client net' fs cs :
  sync_reachable s → sy_loops s !! i = Some (Waiting last (e :: rest) net lacks) →
  fetch_result net lacks = Ok (Some meta) →
  let left := move_loop i client net' fs cs (put_obs (mkObs (logout (o_db (sy_obs s))) log) s) in
  ∀ s', rtc sync_step left s' →
    is_processing (sy_queue s') = true ∧ processing (sy_queue s') = list_to_set (qe_npub <$> e :: rest) ∧
    (∀ j ph, sy_loops s' !! j = Some ph → loads ph = false).
Proof.
  intros Hs Hi Hf left s' Hrun.
  assert (stalled i (e :: rest) left) as Hst.
  { split.
    - apply (sync_step_ok (put_obs (mkObs (logout (o_db (sy_obs s))) log) s)); [constructor|].
      apply (sync_step_ok s); [constructor|by apply sync_reachable_ok].
    - subst left. unfold move_loop. simpl. rewrite Hi. simpl. unfold load_finish. rewrite Hf. simpl.
      apply list_lookup_insert_eq. by eapply lookup_lt_Some. }
  assert (stalled i (e :: rest) s') as [[_ Hh] Hi'] by (clear -Hrun Hst; induction Hrun; [done|eauto using stalled_step]).
  destruct (held_by _ _ _ _ _ Hh Hi' eq_refl) as (Hb & Hp & _). split_and!; [done..|].
  intros j ph Hj. destruct (decide (i = j)) as [<-|Hne]; [by simplify_eq|].
  destruct (holds ph) as [r|] eqn:Hph; [|by destruct ph].
  by pose proof (holder_unique _ _ _ _ _ _ _ _ Hh Hi' Hj eq_refl Hph).
Qed.
End exclusive.

(** ** A loop that waits for the Kind 0 of a clicked profile, for the witnesses *)

Definition sync_case : UnicodeCase := {| to_lowercase s := s |}.
Definition sync_net : LoadAnswers :=
  mkAnswers true true (Some "npub1")
    [mkHit 1 "e1" (mkMetadata (Some "zoe") None None None None None None None None None)] (Ok None) None.
Definition sync_db : ProfileDb := mkProfileDb [set_mine true (Profile_new "npub1")] ∅ ∅ (Some "npub1") 1.
Definition sync_clicked : SyncSys :=
  on_queue (refresh_profile_now 0 "npub9") (start_profile_sync_processor (sync_init (mkObs sync_db []) 0)).
Definition sync_moves (n : nat) : SyncSys := Nat.iter n (@move_loop sync_case 0 true sync_net [] []) sync_clicked.

Lemma sync_moves_reachable n : @sync_reachable sync_case (sync_moves n).
Proof.
  exists (mkObs sync_db []), 0. etrans; [apply rtc_once, step_start|]. etrans; [apply rtc_once, step_refresh|].
  fold sync_clicked. unfold sync_moves. induction n as [|n IH]; simpl; [apply rtc_refl|]. etrans; [exact IH|]. apply rtc_once, step_loop.
Qed.

Lemma sync_exclusive_witness :
  let s := sync_moves 2 in
  sy_loops s = [Fetching 0 [mkEntry "npub9" 0]] ∧ is_processing (sy_queue s) = true ∧
  processing (sy_queue s) = list_to_set ["npub9"].
Proof.
  destruct (@sync_exclusive sync_case (sync_moves 2) (sync_moves_reachable 2)) as (_ & Hh & _).
  split; [by vm_compute|]. destruct (Hh 0%nat (Fetching 0 [mkEntry "npub9" 0]) ["npub9"]) as (? & ? & _); [by vm_compute..|done].
Defined.

Lemma click_progress_witness :
  let e := mkEntry "npub9" 0 in
  ahead (sy_queue sync_clicked) e 0 ∧ progress 0 (sy_queue (sync_moves 1)) (sy_queue (sync_moves 2)) e 0 ∧
  "npub9" ∈ processing (sy_queue (sync_moves 2)).
Proof.
  destruct (@click_progress sync_case (start_profile_sync_processor (sync_init (mkObs sync_db []) 0)) "npub9" 0)
    as [Ha Hp]; [set_solver|done|].
  split; [exact Ha|]. split; [|apply (bool_decide_unpack _); by vm_compute].
  apply (Hp (sync_moves 1) (sync_moves 2) 0%nat); [apply step_loop|]. by exists [], [].
Defined.

Lemma logout_stalls_sync_witness :
  let s := sync_moves 3 in
  let left := @move_loop sync_case 0 true sync_net [] [] (put_obs (mkObs (logout (o_db (sy_obs s))) []) s) in
  let back := put_obs (mkObs (complete_login "npub2" ∅ ∅ (o_db (sy_obs left))) []) left in
  is_processing (sy_queue back) = true ∧ (∀ j ph, sy_loops back !! j = Some ph → loads ph = false).
Proof.
  destruct (@logout_stalls_sync sync_case (sync_moves 3) 0 0 (mkEntry "npub9" 0) [] sync_net true
    (mkMetadata (Some "zoe") None None None None None None None None None) [] true sync_net [] []
    (sync_moves_reachable 3)
    ltac:(by vm_compute) ltac:(by vm_compute)
    (put_obs (mkObs (complete_login "npub2" ∅ ∅ (o_db (sy_obs (@move_loop sync_case 0 true sync_net [] []
       (put_obs (mkObs (logout (o_db (sy_obs (sync_moves 3)))) []) (sync_moves 3)))))) [])
       (@move_loop sync_case 0 true sync_net [] []
       (put_obs (mkObs (logout (o_db (sy_obs (sync_moves 3)))) []) (sync_moves 3))))
    ltac:(apply rtc_once, step_others)) as (Hb & _ & Hl).
  split; [exact Hb|exact Hl].
Defined.
