(* ===== verification/DashboardPoll.v ===== *)
(** * Dashboard polls ([dashboard_poll.rs])

    A poll is announced in the squad's group and replicated by every member; the
    first create of an id fixes it. Votes are silent rumors; per voter the one with
    the last stamp counts. The tally is counted when the polls are listed. *)

From stdpp Require Import pretty.
From S2P Require Import Prelude World Json Chat Schema Records EventModel VirtualBucket.

Definition POLL_REPLICA_UPDATED : string := "dashboard_poll_replica_updated".

Record PollOptionWire : Type := mkPollOption { opt_id : string; opt_label : string }.

Record DashboardPollVoteWire : Type := mkVoteWire {
  vw_schema : string; vw_action : string; vw_parent_id : string; vw_poll_id : string;
  vw_option_id : string;
}.

Record DashboardPollCreatedPayload : Type := mkPollPayload {
  pp_parent_id : string; pp_poll_id : string; pp_title : string; pp_description : string;
  pp_options : list PollOptionWire;
}.

Record DashboardPollAnnounceEnvelope : Type := mkPollEnvelope {
  pe_announce_type : string; pe_payload : DashboardPollCreatedPayload;
}.

(** ** Serde *)

Definition option_members (o : PollOptionWire) : list (string * option json) :=
  [("id", Some (JStr (opt_id o))); ("label", Some (JStr (opt_label o)))].
Definition ser_option (o : PollOptionWire) : json := JObj (obj_fields (option_members o)).
Definition ser_options (l : list PollOptionWire) : json := JArr (ser_option <$> l).
Definition de_option (j : json) : option PollOptionWire :=
  fs ← struct_fields ["id"; "label"] j;
  id ← req de_string "id" fs;
  label ← req de_string "label" fs;
  Some (mkPollOption id label).

Definition vote_members (v : DashboardPollVoteWire) : list (string * option json) := [
  ("schema", Some (JStr (vw_schema v)));
  ("action", Some (JStr (vw_action v)));
  ("parent_id", Some (JStr (vw_parent_id v)));
  ("poll_id", Some (JStr (vw_poll_id v)));
  ("option_id", Some (JStr (vw_option_id v)))].
Definition ser_vote (v : DashboardPollVoteWire) : json := JObj (obj_fields (vote_members v)).
Definition de_vote (j : json) : option DashboardPollVoteWire :=
  fs ← struct_fields ["schema"; "action"; "parent_id"; "poll_id"; "option_id"] j;
  schema ← req de_string "schema" fs;
  action ← req de_string "action" fs;
  parent_id ← req de_string "parent_id" fs;
  poll_id ← req de_string "poll_id" fs;
  option_id ← req de_string "option_id" fs;
  Some (mkVoteWire schema action parent_id poll_id option_id).

Definition payload_members (p : DashboardPollCreatedPayload) : list (string * option json) := [
  ("parent_id", Some (JStr (pp_parent_id p)));
  ("poll_id", Some (JStr (pp_poll_id p)));
  ("title", Some (JStr (pp_title p)));
  ("description", Some (JStr (pp_description p)));
  ("options", Some (ser_options (pp_options p)))].
Definition ser_payload (p : DashboardPollCreatedPayload) : json :=
  JObj (obj_fields (payload_members p)).
Definition de_payload (j : json) : option DashboardPollCreatedPayload :=
  fs ← struct_fields ["parent_id"; "poll_id"; "title"; "description"; "options"] j;
  parent_id ← req de_string "parent_id" fs;
  poll_id ← req de_string "poll_id" fs;
  title ← req de_string "title" fs;
  description ← req_or "" de_string "description" fs;
  options ← req (de_list de_option) "options" fs;
  Some (mkPollPayload parent_id poll_id title description options).

Definition envelope_members (e : DashboardPollAnnounceEnvelope) : list (string * option json) :=
  [("type", Some (JStr (pe_announce_type e))); ("payload", Some (ser_payload (pe_payload e)))].
Definition ser_envelope (e : DashboardPollAnnounceEnvelope) : json :=
  JObj (obj_fields (envelope_members e)).
Definition de_envelope (j : json) : option DashboardPollAnnounceEnvelope :=
  fs ← struct_fields ["type"; "payload"] j;
  announce_type ← req de_string "type" fs;
  payload ← req de_payload "payload" fs;
  Some (mkPollEnvelope announce_type payload).

(** ** Wires *)

Definition validate_options (opts : list PollOptionWire) : bool :=
  (2 <=? length opts)%nat &&
  forallb (λ o, negb (blank (opt_id o)) && negb (blank (opt_label o))) opts.

Definition has_dashboard_poll_d_tag (tags : list (list string)) : bool :=
  bool_decide (find_custom tags "d" ≫= tag_content = Some DASHBOARD_POLL_D_TAG).

Inductive PollCreateUpsert : Type :=
| InsertedNew
| IdempotentSamePayload
| IgnoredConflictingPayload.

#[export] Instance PollCreateUpsert_eq_dec : EqDecision PollCreateUpsert.
Proof. solve_decision. Defined.

Definition polls (d : Db) : gmap string PollSqlRow := pl_polls (dv_polls (db_device d)).
Definition votes (d : Db) : gmap (string * string) VoteSqlRow := pl_votes (dv_polls (db_device d)).

(** [INSERT .. ON CONFLICT .. DO UPDATE .. WHERE excluded.voted_at_ms >= ..]. *)
Definition upsert_vote (key : string * string) (v : VoteSqlRow)
    (m : gmap (string * string) VoteSqlRow) : gmap (string * string) VoteSqlRow :=
  match m !! key with
  | Some old => if vo_voted_at_ms old <=? vo_voted_at_ms v then <[key := v]> m else m
  | None => <[key := v]> m
  end.

Record PollOptionDto : Type := mkOptionDto { od_id : string; od_label : string; od_votes : Z }.

Record DashboardPollDto : Type := mkPollDto {
  pd_id : string; pd_parent_id : string; pd_title : string; pd_description : string;
  pd_options : list PollOptionDto; pd_created_at_ms : Z; pd_created_by_npub : string;
}.

(** [SELECT option_id, COUNT(..) .. GROUP BY option_id], as the map it is read into. *)
Definition vote_counts (d : Db) (poll_id : string) : gmap string Z :=
  foldr (λ kv m, <[vo_option_id kv.2 := default 0 (m !! vo_option_id kv.2) + 1]> m) ∅
    (filter (λ kv, kv.1.1 = poll_id) (map_to_list (votes d))).

(** The polls of a parent, oldest first; rows of one millisecond by id (SQL leaves
    their order open). *)
Definition poll_rows (d : Db) (parent_id : string) : list (string * PollSqlRow) :=
  order_by_ms (λ kr : string * PollSqlRow, (po_created_at_ms kr.2, kr.1))
    (filter (λ kr, po_parent_id kr.2 = parent_id) (map_to_list (polls d))).

(** [duration_since(UNIX_EPOCH).unwrap()]: a clock before the epoch panics. *)
Definition final_time : Act Z :=
  let! t := now in
  if t <? 0 then mthrow "second time provided was later than self" else mret t.

Definition emit_poll_replica_updated (parent_id : string) (poll_id : option string) : Act unit :=
  let! handle := attempt (query id (λ _, tt)) in
  if is_okb handle
  then output (Emit POLL_REPLICA_UPDATED
                (JObj [("parent_id", JStr parent_id); ("poll_id", json_opt JStr poll_id)]))
  else mret tt.

Section polls.
Context `{SerdeText} `{Hashing}.

Definition hash_poll_payload (title description options_json : string) : string :=
  sha256_hex (title +:+ "|" +:+ description +:+ "|" +:+ options_json).

Definition try_parse_vote (content : string) : option DashboardPollVoteWire :=
  v ← of_text (trim content) ≫= de_vote;
  if negb (bool_decide (vw_schema v = "pacto.dashboard_poll.v1"))
     || negb (bool_decide (vw_action v = "vote"))
  then None
  else if blank (vw_parent_id v) || blank (vw_poll_id v) || blank (vw_option_id v) then None
  else Some v.

Definition try_parse_create_announce (content : string) : option DashboardPollAnnounceEnvelope :=
  v ← of_text (trim content) ≫= de_envelope;
  if negb (bool_decide (pe_announce_type v = "dashboard_poll_created")) then None
  else if blank (pp_parent_id (pe_payload v)) || blank (pp_poll_id (pe_payload v))
          || blank (pp_title (pe_payload v))
  then None
  else if negb (validate_options (pp_options (pe_payload v))) then None
  else Some v.

Definition payload_hash (p : DashboardPollCreatedPayload) : string :=
  hash_poll_payload (pp_title p) (pp_description p) (to_text (ser_options (pp_options p))).

Definition db_insert_poll_create (mls_group_id create_event_id : string) (created_at_ms : Z)
    (created_by_npub : string) (p : DashboardPollCreatedPayload) : Act PollCreateUpsert :=
  get_db_connection ;!
  let options_json := to_text (ser_options (pp_options p)) in
  let h := payload_hash p in
  let! existed := query id (λ d, po_content_hash <$> polls d !! pp_poll_id p) in
  match existed with
  | Some prev_hash =>
      mret (if bool_decide (prev_hash = h) then IdempotentSamePayload else IgnoredConflictingPayload)
  | None =>
      exec_ id (set_polls <[pp_poll_id p :=
        mkPollRow (pp_parent_id p) mls_group_id (pp_title p) (pp_description p) options_json
          created_at_ms created_by_npub create_event_id h]>) ;!
      mret InsertedNew
  end.

Definition options_of (options_json : string) : option (list PollOptionWire) :=
  of_text options_json ≫= de_list de_option.

Definition option_id_valid_for_poll (options_json option_id : string) : bool :=
  match options_of options_json with
  | Some opts => existsb (λ o, bool_decide (opt_id o = option_id)) opts
  | None => false
  end.

Definition db_apply_vote (parent_id poll_id voter_npub option_id vote_event_id : string)
    (voted_at_ms : Z) : Act bool :=
  get_db_connection ;!
  let! row := query id (λ d, polls d !! poll_id) in
  match row with
  | None => mret false
  | Some row =>
      if negb (bool_decide (trim (po_parent_id row) = trim parent_id)) then mret false
      else if negb (option_id_valid_for_poll (po_options_json row) option_id) then mret false
      else
        exec_ id (set_votes (upsert_vote (poll_id, voter_npub)
          (mkVoteRow option_id vote_event_id voted_at_ms))) ;!
        mret true
  end.

(** ** Listing *)

Definition poll_dto (kr : string * PollSqlRow) (opts : list PollOptionWire) (counts : gmap string Z)
    : DashboardPollDto :=
  mkPollDto kr.1 (po_parent_id kr.2) (po_title kr.2) (po_description kr.2)
    ((λ o, mkOptionDto (opt_id o) (opt_label o) (default 0 (counts !! opt_id o))) <$> opts)
    (po_created_at_ms kr.2) (po_created_by_npub kr.2).

Definition list_dashboard_polls `{SerdeErrors} (parent_id : string) : Act (list DashboardPollDto) :=
  get_db_connection ;!
  (* [prepare] and [query_map] *)
  query id (λ _, tt) ;!
  let! rows := query id (λ d, poll_rows d parent_id) in
  foldM (λ out kr,
    let! opts := of_result (ok_or (options_of (po_options_json kr.2)) (de_error (po_options_json kr.2))) in
    query id (λ _, tt) ;!
    let! counts := query id (λ d, vote_counts d kr.1) in
    mret (out ++ [poll_dto kr opts counts])) [] rows.

(** ** Commands *)

Context `{Nostr}.

(** The client, its signer and its public key. *)
Definition signer_key : Act string := query id (λ _, tt) ;! query id st_signer.

Definition poll_rumor (content pk parent_id poll_id : string) (extra : list (list string)) (ms : Z)
    : OutRumor :=
  mkOutRumor content
    ([["d"; DASHBOARD_POLL_D_TAG]; ["parent"; parent_id]; ["poll"; poll_id]] ++ extra ++
     [["ms"; pretty (ms `mod` 1000)]]) None pk.

Definition send_dashboard_poll_create (mls_group_id parent_id poll_id title description : string)
    (opts : list PollOptionWire) : Act unit :=
  require_key_derivation_version_2_on_handle ;!
  if blank title then mthrow "Title required"
  else if negb (validate_options opts) then mthrow "At least two non-empty options required"
  else
    let! pk := signer_key in
    let envelope := mkPollEnvelope "dashboard_poll_created"
      (mkPollPayload parent_id poll_id title description opts) in
    let content := to_text (ser_envelope envelope) in
    let! t := final_time in
    let built := poll_rumor content pk parent_id poll_id [["pacto_bucket"; "announcements"]] t in
    let! create_id := of_result (ok_or (built_id built) "poll create rumor id missing") in
    send id (SendMls mls_group_id built) ;!
    let! created_by := of_result (to_bech32 pk) in
    db_insert_poll_create mls_group_id create_id (wrap64 t) created_by (pe_payload envelope) ;!
    emit_poll_replica_updated parent_id (Some poll_id) ;!
    let! handle := attempt (query id (λ _, tt)) in
    if is_okb handle
    then store_local_card mls_group_id
           (card_message create_id content (wrap64 t `mod` 2 ^ 64) true created_by)
    else mret tt.

Definition send_dashboard_poll_vote (mls_group_id parent_id poll_id option_id : string) : Act unit :=
  require_key_derivation_version_2_on_handle ;!
  let! pk := signer_key in
  let wire := mkVoteWire "pacto.dashboard_poll.v1" "vote" parent_id poll_id option_id in
  let content := to_text (ser_vote wire) in
  let! t := final_time in
  let built := poll_rumor content pk parent_id poll_id
                 [["option"; option_id]; ["pacto_bucket"; "polls"]] t in
  let! vote_id := of_result (ok_or (built_id built) "rumor id missing") in
  send id (SendMls mls_group_id built) ;!
  let! voter := of_result (to_bech32 pk) in
  db_apply_vote parent_id poll_id voter option_id vote_id (wrap64 t) ;!
  emit_poll_replica_updated parent_id (Some poll_id).
End polls.
