(* ===== verification/StoredEvents.v ===== *)
(** * Stored messages ([stored_event.rs], [db/ids.rs], [db/messaging.rs])

    Every message, reaction and edit is one row of [events], written once: a row with a
    known id is ignored, and with it the time of receipt of the repetition. Chats and
    authors are referred to by integer ids, which [db/ids.rs] creates on demand and
    caches. *)

From Stdlib Require Import Ascii.
From S2P Require Import Prelude World Json Chat Schema Records CatchUp ReadState VirtualBucket FileNames Announce JoinInbox.

Definition msgs (d : Db) : MsgStore := dv_msgs (db_device d).
Definition events (d : Db) : list StoredEventRow := mt_events (msgs d).

Definition MESSAGE_EDIT : Z := 16.
Definition REACTION : Z := 7.

(** ** Events *)

(** The second element of the first tag of that name. *)
Definition get_tag_in (tags : list (list string)) (key : string) : option string :=
  find_custom tags key ≫= tag_content.
Definition get_tag (e : StoredEvent) (key : string) : option string := get_tag_in (se_tags e) key.

Definition get_reply_reference (e : StoredEvent) : option string :=
  find_first (λ t, bool_decide (head t = Some "e") && bool_decide (t !! 3%nat = Some "reply")) (se_tags e)
    ≫= tag_content.

Definition timestamp_ms_from_tags (created_at : Z) (tags : list (list string)) : Z :=
  let ms := match get_tag_in tags "ms" ≫= parse_unsigned U64_MAX with
            | Some ms => if ms <=? 999 then ms else 0
            | None => 0
            end in
  (created_at * 1000 + ms) `mod` 2 ^ 64.

Definition timestamp_ms (e : StoredEvent) : Z := timestamp_ms_from_tags (se_created_at e) (se_tags e).

(** [current_timestamp_ms]: 0 before the epoch, [as u64] otherwise. *)
Definition current_timestamp_ms : Act Z :=
  let! t := now in mret (if t <? 0 then 0 else t `mod` 2 ^ 64).

(** ** Integer ids *)

Section ids.
Context `{Rusqlite}.

Definition chat_id_cache (d : Db) : gmap string Z := st_chat_id_cache (msgs d).
Definition user_id_cache (d : Db) : gmap string Z := st_user_id_cache (msgs d).
Definition chat_ids (d : Db) : gmap string Z := mt_chat_ids (msgs d).
Definition profile_ids (d : Db) : gmap string Z := mt_profile_ids (msgs d).

Definition cache_chat (identifier : string) (id : Z) : Act unit :=
  modify (λ d, (tt, set_id_caches <[identifier := id]> (λ c, c) d)).
Definition cache_user (npub : string) (id : Z) : Act unit :=
  modify (λ d, (tt, set_id_caches (λ c, c) <[npub := id]> d)).

Definition dq : string := String "034"%char EmptyString.

(** [unwrap] panics on a clock before the epoch. *)
Definition unix_secs_or_panic : Act Z :=
  let! t := now in if t <? 0 then mthrow PANIC else mret (t / 1000).

Definition new_chat_row (identifier : string) (secs : Z) : ChatSqlRow :=
  let '(chat_type, participants) :=
    if starts_with "npub1" identifier then (0, "[" +:+ dq +:+ identifier +:+ dq +:+ "]") else (1, "[]") in
  mkChatRow chat_type participants "" (wrap64 secs) "{}" "mentions".

Definition insert_chat (identifier : string) (secs : Z) (d : Db) : result (Z * Db) :=
  match chat_ids d !! identifier with
  | Some _ => Err (constraint_failed "chats.chat_identifier")
  | None =>
      let d' := assign_chat_id identifier d in
      Ok (mt_chat_seq (msgs d'), set_chat_rows <[identifier := new_chat_row identifier secs]> d')
  end.

Definition get_or_create_chat_id (chat_identifier : string) : Act Z :=
  let! cached := modify (λ d, (chat_id_cache d !! chat_identifier, d)) in
  match cached with
  | Some id => mret id
  | None =>
      get_db_connection ;!
      let! existing := attempt (query id (λ d, chat_ids d !! chat_identifier)) in
      let! id := match res_ok existing with
                 | Some (Some id) => mret id
                 | _ => let! secs := unix_secs_or_panic in
                        insert_row (λ e, "Failed to create chat: " +:+ e) (insert_chat chat_identifier secs)
                 end in
      cache_chat chat_identifier id ;!
      mret id
  end.

Definition get_chat_id_by_identifier (chat_identifier : string) : Act Z :=
  let! cached := modify (λ d, (chat_id_cache d !! chat_identifier, d)) in
  match cached with
  | Some id => mret id
  | None =>
      get_db_connection ;!
      let! id := query_row (λ _, "Chat not found: " +:+ chat_identifier)
                   (λ d, ok_or (chat_ids d !! chat_identifier) "") in
      cache_chat chat_identifier id ;!
      mret id
  end.

Definition is_pseudo_chat_identifier (id : string) : bool := bool_decide (id = "__dashboard__").

Definition resolve_chat_id_for_message_load (chat_identifier : string) : Act Z :=
  if starts_with "npub1" chat_identifier || is_pseudo_chat_identifier chat_identifier
  then get_chat_id_by_identifier chat_identifier
  else get_or_create_chat_id chat_identifier.

Definition insert_profile (npub : string) (d : Db) : result (Z * Db) :=
  match profile_ids d !! npub with
  | Some _ => Err (constraint_failed "profiles.npub")
  | None => let d' := assign_profile_id npub d in Ok (mt_profile_seq (msgs d'), d')
  end.

Definition get_or_create_user_id (npub : string) : Act (option Z) :=
  if bool_decide (npub = "") then mret None
  else
    let! cached := modify (λ d, (user_id_cache d !! npub, d)) in
    match cached with
    | Some id => mret (Some id)
    | None =>
        get_db_connection ;!
        let! existing := attempt (query id (λ d, profile_ids d !! npub)) in
        let! id := match res_ok existing with
                   | Some (Some id) => mret id
                   | _ => insert_row (λ e, "Failed to create profile stub: " +:+ e) (insert_profile npub)
                   end in
        cache_user npub id ;!
        mret (Some id)
    end.

(** Reading one row of a query that has started may fail as well. *)
Definition preload_rows (err : string) (store : string → Z → Act unit) (rows : list (string * Z)) : Act unit :=
  foldM (λ _ row, query (λ e, err +:+ e) (λ _, tt) ;! store row.1 row.2) tt rows.

Definition preload_id_caches : Act unit :=
  let! account := attempt get_current_account in
  if negb (is_okb account) then mret tt
  else
    get_db_connection ;!
    query (λ e, "Failed to prepare chat query: " +:+ e) (λ _, tt) ;!
    let! chats := query (λ e, "Failed to query chats: " +:+ e) (λ d, map_to_list (chat_ids d)) in
    modify (λ d, (tt, set_id_caches (λ _, ∅) (λ c, c) d)) ;!
    preload_rows "Failed to read chat row: " cache_chat chats ;!
    query (λ e, "Failed to prepare profile query: " +:+ e) (λ _, tt) ;!
    let! profiles := query (λ e, "Failed to query profiles: " +:+ e) (λ d, map_to_list (profile_ids d)) in
    modify (λ d, (tt, set_id_caches (λ c, c) (λ _, ∅) d)) ;!
    preload_rows "Failed to read profile row: " cache_user profiles.

Definition clear_id_caches : Act unit := modify (λ d, (tt, set_id_caches (λ _, ∅) (λ _, ∅) d)).
End ids.

(** ** Attachments and previews as JSON *)

Definition ser_image (i : ImageMetadata) : json :=
  JObj [("blurhash", JStr (im_blurhash i)); ("width", JNum (im_width i)); ("height", JNum (im_height i))].

Definition IMAGE_FIELDS : list string := ["blurhash"; "width"; "height"].
Definition de_image (j : json) : option ImageMetadata :=
  fs ← struct_fields IMAGE_FIELDS j;
  blurhash ← req de_string "blurhash" fs;
  width ← req de_u32 "width" fs;
  height ← req de_u32 "height" fs;
  Some (mkImage blurhash width height).

Definition ser_attachment (a : Attachment) : json :=
  JObj (obj_fields [("id", Some (JStr (at_id a))); ("key", Some (JStr (at_key a)));
    ("nonce", Some (JStr (at_nonce a))); ("extension", Some (JStr (at_extension a)));
    ("url", Some (JStr (at_url a))); ("path", Some (JStr (at_path a)));
    ("size", Some (JNum (at_size a))); ("img_meta", Some (json_opt ser_image (at_img_meta a)));
    ("downloading", Some (JBool (at_downloading a))); ("downloaded", Some (JBool (at_downloaded a)));
    ("webxdc_topic", JStr <$> at_webxdc_topic a); ("file_name", JStr <$> at_file_name a)]).

Definition ATTACHMENT_FIELDS : list string :=
  ["id"; "key"; "nonce"; "extension"; "url"; "path"; "size"; "img_meta"; "downloading"; "downloaded";
   "webxdc_topic"; "file_name"].

(** [#[serde(default)]] on the struct: absent members are those of [Attachment::default]. *)
Definition de_attachment (j : json) : option Attachment :=
  fs ← struct_fields ATTACHMENT_FIELDS j;
  id ← req_or "" de_string "id" fs;
  key ← req_or "" de_string "key" fs;
  nonce ← req_or "" de_string "nonce" fs;
  extension ← req_or "" de_string "extension" fs;
  url ← req_or "" de_string "url" fs;
  path ← req_or "" de_string "path" fs;
  size ← req_or 0 (de_int 0 U64_MAX) "size" fs;
  img_meta ← opt de_image "img_meta" fs;
  downloading ← req_or false de_bool "downloading" fs;
  downloaded ← req_or true de_bool "downloaded" fs;
  webxdc_topic ← opt de_string "webxdc_topic" fs;
  file_name ← opt de_string "file_name" fs;
  Some (mkAttachment id key nonce extension url path size img_meta downloading downloaded webxdc_topic file_name).

Definition SITE_FIELDS : list string :=
  ["domain"; "og_title"; "og_description"; "og_image"; "og_url"; "og_type"; "title"; "description"; "favicon";
   "og_image_cached"; "favicon_cached"].
Definition ser_site (s : SiteMetadata) : json :=
  JObj [("domain", JStr (sm_domain s)); ("og_title", json_opt JStr (sm_og_title s));
    ("og_description", json_opt JStr (sm_og_description s)); ("og_image", json_opt JStr (sm_og_image s));
    ("og_url", json_opt JStr (sm_og_url s)); ("og_type", json_opt JStr (sm_og_type s));
    ("title", json_opt JStr (sm_title s)); ("description", json_opt JStr (sm_description s));
    ("favicon", json_opt JStr (sm_favicon s)); ("og_image_cached", json_opt JStr (sm_og_image_cached s));
    ("favicon_cached", json_opt JStr (sm_favicon_cached s))].
Definition de_site (j : json) : option SiteMetadata :=
  fs ← struct_fields SITE_FIELDS j;
  domain ← req de_string "domain" fs;
  og_title ← opt de_string "og_title" fs;
  og_description ← opt de_string "og_description" fs;
  og_image ← opt de_string "og_image" fs;
  og_url ← opt de_string "og_url" fs;
  og_type ← opt de_string "og_type" fs;
  title ← opt de_string "title" fs;
  description ← opt de_string "description" fs;
  favicon ← opt de_string "favicon" fs;
  og_image_cached ← opt de_string "og_image_cached" fs;
  favicon_cached ← opt de_string "favicon_cached" fs;
  Some (mkSite domain og_title og_description og_image og_url og_type title description favicon
          og_image_cached favicon_cached).

Section store.
Context `{SerdeText} `{Rusqlite} `{AtRest} `{Nostr} `{NostrKeys}.

Definition tags_text (tags : list (list string)) : string := to_text (JArr ((λ t, JArr (JStr <$> t)) <$> tags)).
(** [serde_json::from_str(..).unwrap_or_default()] *)
Definition tags_of_text (s : string) : list (list string) :=
  default [] (of_text s ≫= de_list (de_list de_string)).

Definition attachments_text (l : list Attachment) : string := to_text (JArr (ser_attachment <$> l)).
Definition attachments_of_text (s : string) : option (list Attachment) :=
  of_text s ≫= de_list de_attachment.

(** ** Saving *)

Definition foreign_keys_hold (row : StoredEventRow) (d : Db) : bool :=
  existsb (λ p, p.2 =? er_chat_id row) (map_to_list (chat_ids d)) &&
  match er_user_id row with
  | Some u => existsb (λ p, p.2 =? u) (map_to_list (profile_ids d))
  | None => true
  end.

Definition stored (id : string) (d : Db) : bool := existsb (λ r, bool_decide (er_id r = id)) (events d).

(** [INSERT OR IGNORE]: a known id is ignored, a dangling foreign key is not. *)
Definition insert_event (row : StoredEventRow) (d : Db) : result (unit * Db) :=
  if stored (er_id row) d then Ok (tt, d)
  else if foreign_keys && negb (foreign_keys_hold row d) then Err foreign_key_failed
  else Ok (tt, set_event_rows (λ l, l ++ [row]) d).

Definition is_encrypted_kind (kind : Z) : bool :=
  (kind =? PRIVATE_DIRECT_MESSAGE) || (kind =? FILE_ATTACHMENT) || (kind =? MESSAGE_EDIT).

Definition event_row (event : StoredEvent) (content : string) : StoredEventRow :=
  mkEventRow (se_id event) (se_kind event) (se_chat_id event) (se_user_id event) content
    (tags_text (se_tags event)) (se_reference_id event) (wrap64 (se_created_at event))
    (wrap64 (se_received_at event)) (se_mine event) (se_pending event) (se_failed event)
    (se_wrapper_event_id event) (se_npub event) (se_virtual_bucket event).

Definition save_event (event : StoredEvent) : Act unit :=
  get_db_connection ;!
  let! content := if is_encrypted_kind (se_kind event)
                  then let! nonce := now in mret (internal_encrypt nonce (se_content event))
                  else mret (se_content event) in
  insert_row (λ e, "Failed to save event: " +:+ e) (insert_event (event_row event content)).

Definition save_reaction_event (reaction : Reaction) (chat_id : Z) (user_id : option Z) (mine : bool) : Act unit :=
  let! created := now in
  let! received_at := current_timestamp_ms in
  save_event (mkStoredEvent (r_id reaction) REACTION chat_id user_id (r_emoji reaction)
    [["e"; r_reference_id reaction]] (Some (r_reference_id reaction))
    (if created <? 0 then 0 else created / 1000) received_at mine false false None
    (Some (r_author_id reaction)) None).

Definition event_exists (event_id : string) : Act bool :=
  get_db_connection ;!
  query (λ e, "Failed to check event existence: " +:+ e) (stored event_id).

Definition message_tags (m : Message) : list (list string) :=
  (if 0 <? m_at m `mod` 1000 then [["ms"; pretty (m_at m `mod` 1000)]] else []) ++
  (if bool_decide (m_replied_to m = "") then [] else [["e"; m_replied_to m; ""; "reply"]]) ++
  match m_attachments m with
  | [] => []
  | l => [["attachments"; attachments_text l]]
  end ++
  match m_preview_metadata m with
  | Some preview => [["link_preview"; to_text (ser_site preview)]]
  | None => []
  end.

Definition message_kind (m : Message) : Z :=
  match m_rumor_kind m with
  | Some k => k
  | None => if bool_decide (m_attachments m = []) then PRIVATE_DIRECT_MESSAGE else FILE_ATTACHMENT
  end.

Definition message_to_stored_event (m : Message) (chat_id : Z) (user_id : option Z) : Act StoredEvent :=
  let kind := message_kind m in
  let tags := message_tags m in
  let virtual_bucket := match m_virtual_bucket m with
                        | Some b => Some b
                        | None => normalize_virtual_bucket_for_message kind (m_content m) tags
                        end in
  let! received_at := current_timestamp_ms in
  mret (mkStoredEvent (m_id m) kind chat_id user_id (m_content m) tags None (m_at m / 1000) received_at
    (m_mine m) (m_pending m) (m_failed m) (m_wrapper_event_id m) (m_npub m) virtual_bucket).

Definition save_reaction (chat_id : Z) (reaction : Reaction) : Act unit :=
  let! known := event_exists (r_id reaction) in
  if (known : bool) then mret tt
  else
    let! user_id := get_or_create_user_id (r_author_id reaction) in
    let! account := attempt get_current_account in
    save_reaction_event reaction chat_id user_id (bool_decide (account = Ok (r_author_id reaction))).

Definition save_message (chat_id : string) (message : Message) : Act unit :=
  let! chat_int_id := get_or_create_chat_id chat_id in
  let! user_int_id := match m_npub message with
                      | Some npub => get_or_create_user_id npub
                      | None => mret None
                      end in
  let! event := message_to_stored_event message chat_int_id user_int_id in
  save_event event ;!
  foldM (λ _ reaction, save_reaction chat_int_id reaction) tt (m_reactions message).

(** The log line of a failure cuts the id at eight bytes. *)
Definition save_chat_messages (chat_id : string) (messages : list Message) : Act unit :=
  foldM (λ _ message,
    let! r := attempt (save_message chat_id message) in
    match r with
    | Ok _ => mret tt
    | Err e => if decide (e = PANIC) then mthrow PANIC
               else let! _ := slice_to (min 8 (String.length (m_id message))) (m_id message) in mret tt
    end) tt messages.

(** ** Reading *)

Definition parse_event_row (r : StoredEventRow) : StoredEvent :=
  mkStoredEvent (er_id r) (er_kind r `mod` 2 ^ 16) (er_chat_id r) (er_user_id r) (er_content r)
    (tags_of_text (er_tags r)) (er_reference_id r) (er_created_at r `mod` 2 ^ 64)
    (er_received_at r `mod` 2 ^ 64) (er_mine r) (er_pending r) (er_failed r) (er_wrapper_event_id r)
    (er_npub r) (er_virtual_bucket r).

(** [rows.filter_map(|r| r.ok()).collect()]: a row that cannot be fetched ends the rows,
    silently. *)
Fixpoint rows_ok {A} (rows : list A) : Act (list A) :=
  match rows with
  | [] => mret []
  | row :: rows' =>
      let! r := attempt (query id (λ _, tt)) in
      if is_okb r then let! rest := rows_ok rows' in mret (row :: rest) else mret []
  end.

(** [LIMIT l OFFSET n], of [usize] values cast to [i64]; a negative limit is none. *)
Definition page {A} (limit offset : Z) (rows : list A) : list A :=
  let rest := let n := wrap64 offset in
              if n <? Z.of_nat (length rows) then drop (Z.to_nat n) rows else [] in
  let n := wrap64 limit in
  if (n <? 0) || (Z.of_nat (length rest) <=? n) then rest else take (Z.to_nat n) rest.

(** [ORDER BY created_at DESC]; rows of one second come in rowid order, which SQLite leaves
    open. *)
Definition newest_first : list StoredEventRow → list StoredEventRow := sort_by_key (λ r, - er_created_at r).
(** [ORDER BY created_at ASC, rowid ASC] *)
Definition oldest_first : list StoredEventRow → list StoredEventRow := sort_by_key er_created_at.

Definition BUCKET_FILTERS : list string := ["announcements"; "inbox"; "polls"; "join_requests"].

Definition in_bucket (bucket : option string) (r : StoredEventRow) : bool :=
  match bucket with Some b => bool_decide (er_virtual_bucket r = Some b) | None => true end.
Definition of_kinds (kinds : option (list Z)) (r : StoredEventRow) : bool :=
  match kinds with Some ks => bool_decide (er_kind r ∈ ks) | None => true end.

(** Empty stored content is a row of before captions. *)
Definition decrypt_attachment_caption (content : string) : string :=
  if bool_decide (content = "") then "" else default "" (internal_decrypt content).

Definition set_content (content : string) (e : StoredEvent) : StoredEvent :=
  mkStoredEvent (se_id e) (se_kind e) (se_chat_id e) (se_user_id e) content (se_tags e) (se_reference_id e)
    (se_created_at e) (se_received_at e) (se_mine e) (se_pending e) (se_failed e) (se_wrapper_event_id e)
    (se_npub e) (se_virtual_bucket e).

Definition decrypt_event (e : StoredEvent) : StoredEvent :=
  if se_kind e =? PRIVATE_DIRECT_MESSAGE then
    set_content (default "[Decryption failed]" (internal_decrypt (se_content e))) e
  else if se_kind e =? FILE_ATTACHMENT then set_content (decrypt_attachment_caption (se_content e)) e
  else e.

Definition select_events (chat_id : Z) (kinds : option (list Z)) (bucket : option string) (limit offset : Z)
    (d : Db) : list StoredEventRow :=
  page limit offset (newest_first
    (filter (λ r, (er_chat_id r =? chat_id) && of_kinds kinds r && in_bucket bucket r = true) (events d))).

Definition get_events (chat_id : Z) (kinds : option (list Z)) (limit offset : Z)
    (virtual_bucket_filter : option string) : Act (list StoredEvent) :=
  let bucket := b ← trim <$> virtual_bucket_filter; if decide (b ∈ BUCKET_FILTERS) then Some b else None in
  get_db_connection ;!
  query (λ e, "Failed to prepare events query: " +:+ e) (λ _, tt) ;!
  if match kinds with Some ks => bool_decide (length ks ∈ [1; 2; 3]%nat) | None => true end then
    let! rows := query (λ e, "Failed to query events: " +:+ e)
                   (select_events chat_id kinds bucket limit offset) in
    let! rows := rows_ok rows in
    mret (decrypt_event ∘ parse_event_row <$> rows)
  else mthrow "Unsupported number of kinds".

Definition refers_to (ids : list string) (r : StoredEventRow) : bool :=
  match er_reference_id r with Some i => bool_decide (i ∈ ids) | None => false end.

Definition get_related_events (reference_ids : list string) : Act (list StoredEvent) :=
  match reference_ids with
  | [] => mret []
  | _ =>
      get_db_connection ;!
      query (λ e, "Failed to prepare related events query: " +:+ e) (λ _, tt) ;!
      let! rows := query (λ e, "Failed to query related events: " +:+ e) (λ d,
        oldest_first (filter (λ r, refers_to reference_ids r = true) (events d))) in
      let! rows := rows_ok rows in
      mret (parse_event_row <$> rows)
  end.

(** ** Counting *)

Definition MESSAGE_KINDS : list Z := [PRIVATE_DIRECT_MESSAGE; FILE_ATTACHMENT; APPLICATION_SPECIFIC].

Definition is_timeline (chat_id : Z) (r : StoredEventRow) : bool :=
  (er_chat_id r =? chat_id) && bool_decide (er_kind r ∈ MESSAGE_KINDS).

Definition count_where (p : StoredEventRow → bool) (d : Db) : Z :=
  Z.of_nat (length (filter (λ r, p r = true) (events d))).

Definition get_chat_message_count (chat_id : string) : Act Z :=
  let! chat_int_id := resolve_chat_id_for_message_load chat_id in
  get_db_connection ;!
  query (λ e, "Failed to count messages: " +:+ e) (count_where (is_timeline chat_int_id)).

Definition is_direct (chat_id : Z) (mine : bool) (r : StoredEventRow) : bool :=
  (er_chat_id r =? chat_id) && bool_decide (er_kind r ∈ [PRIVATE_DIRECT_MESSAGE; FILE_ATTACHMENT]) &&
  Bool.eqb (er_mine r) mine.

Definition get_dm_sent_received (chat_identifier : string) : Act (bool * bool) :=
  let! chat_int_id := get_chat_id_by_identifier chat_identifier in
  get_db_connection ;!
  let! from_me := query (λ e, "get_dm_sent_received (from_me): " +:+ e)
                    (λ d, existsb (is_direct chat_int_id true) (events d)) in
  let! from_them := query (λ e, "get_dm_sent_received (from_them): " +:+ e)
                      (λ d, existsb (is_direct chat_int_id false) (events d)) in
  mret (from_me, from_them).

(** Without a connection these answer as if nothing were stored. *)
Definition with_db {A} (none : A) (m : Act A) : Act A :=
  let! conn := attempt get_db_connection in
  if is_okb conn then m else mret none.

Definition message_exists_in_db (message_id : string) : Act bool :=
  with_db false (query (λ e, "Failed to check event existence: " +:+ e) (stored message_id)).

(** ** Gift wraps *)

Definition wraps (wrapper_id : string) (r : StoredEventRow) : bool :=
  bool_decide (er_wrapper_event_id r = Some wrapper_id).

Definition wrapper_event_exists (wrapper_event_id : string) : Act bool :=
  with_db false
    (let! in_events := query (λ e, "Failed to check wrapper event existence: " +:+ e)
                         (λ d, existsb (wraps wrapper_event_id) (events d)) in
     let! in_discarded := attempt (query id (λ d, bool_decide (wrapper_event_id ∈ mt_discarded (msgs d)))) in
     mret (in_events || default false (res_ok in_discarded))).

Definition record_discarded_giftwrap (wrapper_id : string) : Act unit :=
  get_db_connection ;!
  exec_ (λ e, "Failed to record discarded giftwrap: " +:+ e) (set_discarded (λ s, {[wrapper_id]} ∪ s)).

Definition set_wrapper (wrapper_id : string) (r : StoredEventRow) : StoredEventRow :=
  mkEventRow (er_id r) (er_kind r) (er_chat_id r) (er_user_id r) (er_content r) (er_tags r)
    (er_reference_id r) (er_created_at r) (er_received_at r) (er_mine r) (er_pending r) (er_failed r)
    (Some wrapper_id) (er_npub r) (er_virtual_bucket r).

Definition unwrapped (event_id : string) (r : StoredEventRow) : bool :=
  bool_decide (er_id r = event_id) && bool_decide (er_wrapper_event_id r ∈ [None; Some ""]).

(** [UPDATE .. WHERE p], with the number of rows. *)
Definition update_rows (p : StoredEventRow → bool) (f : StoredEventRow → StoredEventRow) (d : Db) : Z * Db :=
  (count_where p d, set_event_rows (fmap (λ r, if p r then f r else r)) d).

Definition update_wrapper_event_id (event_id wrapper_event_id : string) : Act bool :=
  with_db false
    (let! n := execute (λ e, "Failed to update wrapper event ID: " +:+ e)
                 (update_rows (unwrapped event_id) (set_wrapper wrapper_event_id)) in
     mret (0 <? n)).

Definition load_recent_wrapper_ids (days : Z) : Act (gset string) :=
  with_db ∅
    (let! secs := unix_secs_or_panic in
     let cutoff_secs := Z.max 0 (secs - (days * 86400) `mod` 2 ^ 64) in
     query (λ e, "Failed to prepare wrapper_id query: " +:+ e) (λ _, tt) ;!
     let! rows := query (λ e, "Failed to query wrapper_ids: " +:+ e) (λ d,
       omap (λ r, match er_wrapper_event_id r with
                  | Some w => if negb (bool_decide (w = "")) && (wrap64 cutoff_secs <=? er_created_at r)
                              then Some w else None
                  | None => None
                  end) (events d)) in
     (* one row that cannot be fetched drops all of them *)
     let! fetched := attempt (foldM (λ _ _, query id (λ _, tt)) tt rows) in
     mret (if is_okb fetched then list_to_set rows else ∅)).

(** ** Tags that change after a message is stored *)

Definition set_tags (tags : string) (r : StoredEventRow) : StoredEventRow :=
  mkEventRow (er_id r) (er_kind r) (er_chat_id r) (er_user_id r) (er_content r) tags
    (er_reference_id r) (er_created_at r) (er_received_at r) (er_mine r) (er_pending r) (er_failed r)
    (er_wrapper_event_id r) (er_npub r) (er_virtual_bucket r).

Definition has_id (id : string) (r : StoredEventRow) : bool := bool_decide (er_id r = id).
Definition event_row_of (id : string) (d : Db) : option StoredEventRow := find_first (has_id id) (events d).

(** The first tag of that name is replaced, or one is added. *)
Fixpoint put_tag (key value : string) (tags : list (list string)) : list (list string) :=
  match tags with
  | [] => [[key; value]]
  | t :: tags' => if bool_decide (head t = Some key) then [key; value] :: tags' else t :: put_tag key value tags'
  end.

Definition read_tags (msg_id : string) : Act (list (list string)) :=
  let! text := query_row (λ e, "Event not found: " +:+ e)
                 (λ d, ok_or (er_tags <$> event_row_of msg_id d) "Query returned no rows") in
  mret (tags_of_text text).

Definition write_tags (msg_id : string) (tags : list (list string)) : Act unit :=
  exec_ (λ e, "Failed to update event: " +:+ e) (λ d, (update_rows (has_id msg_id) (set_tags (tags_text tags)) d).2).

Definition set_download (downloaded : bool) (path : string) (a : Attachment) : Attachment :=
  mkAttachment (at_id a) (at_key a) (at_nonce a) (at_extension a) (at_url a) path (at_size a) (at_img_meta a)
    false downloaded (at_webxdc_topic a) (at_file_name a).

Definition stored_attachments (tags : list (list string)) : list Attachment :=
  default [] (attachments_of_text (default "[]" (get_tag_in tags "attachments"))).

Definition update_attachment_downloaded_status (msg_id attachment_id : string) (downloaded : bool) (path : string)
    : Act unit :=
  get_db_connection ;!
  let! tags := read_tags msg_id in
  let attachments := stored_attachments tags in
  let this a := bool_decide (at_id a = attachment_id) in
  if existsb this attachments then
    write_tags msg_id
      (put_tag "attachments" (attachments_text (update_first this (set_download downloaded path) attachments)) tags)
  else mthrow "Attachment not found in event".

Definition save_link_preview_metadata (msg_id : string) (metadata : SiteMetadata) : Act unit :=
  get_db_connection ;!
  let! tags := read_tags msg_id in
  write_tags msg_id (put_tag "link_preview" (to_text (ser_site metadata)) tags).

(** ** Deleting a chat *)

Definition delete_chat_row (chat_id : Z) (d : Db) : Db :=
  let d' := if foreign_keys
            then set_legacy (filter (λ p, p.2.1 ≠ chat_id)) (set_event_rows (filter (λ r, er_chat_id r ≠ chat_id)) d)
            else d in
  set_chat_rows (filter (λ p, chat_ids d !! p.1 ≠ Some chat_id)) (set_chat_ids (filter (λ p, p.2 ≠ chat_id)) d').

Definition delete_chat (chat_identifier : string) : Act unit :=
  get_db_connection ;!
  let! found := query (λ e, "Failed to look up chat " +:+ chat_identifier +:+ ": " +:+ e)
                  (λ d, chat_ids d !! chat_identifier) in
  match found with
  | None => mthrow ("Chat not found: " +:+ chat_identifier)
  | Some chat_int_id =>
      exec_ (λ e, "Failed to delete events: " +:+ e) (set_event_rows (filter (λ r, er_chat_id r ≠ chat_int_id))) ;!
      let! _ := attempt (exec_ id (set_legacy (filter (λ p, p.2.1 ≠ chat_int_id)))) in
      exec_ (λ e, "Failed to delete chat: " +:+ e) (delete_chat_row chat_int_id) ;!
      modify (λ d, (tt, set_id_caches (delete chat_identifier) (λ c, c) d)) ;!
      let! _ := attempt (delete_entries_for_chat chat_identifier) in
      mret tt
  end.

Definition dm_created_at_at_or_before_cutoff (created_at_secs deleted_at_secs : Z) : bool :=
  created_at_secs <=? deleted_at_secs `mod` 2 ^ 64.

Definition upsert_dm_deletion_cutoff (peer_npub : string) (deleted_at : Z) : Act unit :=
  get_db_connection ;!
  exec_ (λ e, "Failed to upsert dm deletion cutoff: " +:+ e) (set_cutoffs <[peer_npub := deleted_at]>).

Definition get_dm_deletion_cutoff (peer_npub : string) : Act (option Z) :=
  get_db_connection ;!
  query (λ e, "Failed to read dm deletion cutoff: " +:+ e) (λ d, mt_cutoffs (msgs d) !! peer_npub).

(** The command; the chat leaves the memory at once or when the lock is free. *)
Definition delete_dm_chat (chat_id : string) : Act unit :=
  let! t := now in
  let deleted_at := if t <? 0 then 0 else wrap64 (t / 1000) in
  upsert_dm_deletion_cutoff chat_id deleted_at ;!
  let! r := attempt (delete_chat chat_id) in
  match r with
  | Err e => if starts_with "Chat not found:" e then mret tt else mthrow e
  | Ok _ => mret tt
  end ;!
  modify (λ d, (tt, set_chats (filter (λ c, c_id c ≠ chat_id)) d)).

(** ** Repairs and indexes *)

Definition set_npub (npub : string) (r : StoredEventRow) : StoredEventRow :=
  mkEventRow (er_id r) (er_kind r) (er_chat_id r) (er_user_id r) (er_content r) (er_tags r)
    (er_reference_id r) (er_created_at r) (er_received_at r) (er_mine r) (er_pending r) (er_failed r)
    (er_wrapper_event_id r) (Some npub) (er_virtual_bucket r).

(** [length(npub)] counts characters. *)
Definition char_count (s : string) : nat :=
  length (filter (λ a, (128 <=? code a)%N && (code a <? 192)%N = false) (bytes s)).

Definition legacy_reaction (r : StoredEventRow) : bool :=
  (er_kind r =? REACTION) &&
  match er_npub r with Some n => bool_decide (char_count n = 64%nat) | None => false end.

(** [to_bech32] of a public key does not fail; [expect] would panic. *)
Definition repair_legacy_hex_reaction_npubs : Act unit :=
  query (λ e, "Failed to prepare legacy reaction npub scan: " +:+ e) (λ _, tt) ;!
  let! rows := query (λ e, "Failed to scan legacy reaction npubs: " +:+ e)
                 (λ d, (λ r, (er_id r, default "" (er_npub r))) <$> filter (λ r, legacy_reaction r = true) (events d)) in
  let! rows := rows_ok rows in
  foldM (λ _ row,
    match pk_from_hex row.2 with
    | None => mret tt
    | Some pubkey =>
        match to_bech32 pubkey with
        | Err _ => mthrow PANIC
        | Ok bech32 =>
            exec_ (λ e, "Failed to repair legacy reaction npub for " +:+ row.1 +:+ ": " +:+ e)
              (λ d, (update_rows (has_id row.1) (set_npub bech32) d).2)
        end
    end) tt rows.

Record AttachmentRef : Type := mkAttachmentRef {
  ar_hash : string; ar_message_id : string; ar_chat_id : string; ar_url : string; ar_key : string;
  ar_nonce : string; ar_extension : string; ar_size : Z;
}.

Definition EMPTY_FILE_HASH : string := "e3b0c44298fc1c149afbf4c8996fb92427ae41e4649b934ca495991b7852b855".

Definition chat_identifier_of (d : Db) (chat_id : Z) : option string :=
  fst <$> find_first (λ p, p.2 =? chat_id) (map_to_list (chat_ids d)).

Definition index_attachment (message_id chat_id : string) (index : gmap string AttachmentRef) (a : Attachment)
    : gmap string AttachmentRef :=
  if bool_decide (at_id a ∈ [""; EMPTY_FILE_HASH]) || bool_decide (at_url a = "") then index
  else <[at_id a := mkAttachmentRef (at_id a) message_id chat_id (at_url a) (at_key a) (at_nonce a)
                      (at_extension a) (at_size a)]> index.

(** Of files with one hash the last row counts; the rows come in rowid order, which SQLite
    leaves open. *)
Definition build_file_hash_index : Act (gmap string AttachmentRef) :=
  get_db_connection ;!
  query (λ e, "Failed to prepare attachment query: " +:+ e) (λ _, tt) ;!
  let! rows := query (λ e, "Failed to query attachments: " +:+ e) (λ d,
    omap (λ r, if er_kind r =? FILE_ATTACHMENT
               then (λ c, (er_id r, c, er_tags r)) <$> chat_identifier_of d (er_chat_id r) else None) (events d)) in
  foldM (λ _ _, query (λ e, "Failed to collect attachment rows: " +:+ e) (λ _, tt)) tt rows ;!
  mret (foldl (λ index row, let '(message_id, chat_id, tags) := row in
    foldl (index_attachment message_id chat_id) index (stored_attachments (tags_of_text tags))) ∅ rows).
End store.

(** ** The chat rows *)

Section chats.
Context `{SerdeText}.

Record SlimChatDB : Type := mkSlim {
  sl_id : string; sl_chat_type : ChatType; sl_participants : list string; sl_last_read : string;
  sl_created_at : Z; sl_metadata : gmap string string; sl_notification_level : NotificationLevel;
}.

Definition METADATA_FIELDS : list string := ["custom_fields"].

(** Of repeated keys of a [HashMap] the last one counts. *)
Definition de_string_map (j : json) : option (gmap string string) :=
  match j with
  | JObj fs => foldl (λ m p, <[p.1 := p.2]> m) ∅ <$> mapM (λ p, pair p.1 <$> de_string p.2) fs
  | _ => None
  end.
Definition de_metadata (j : json) : option (gmap string string) :=
  fs ← struct_fields METADATA_FIELDS j; req de_string_map "custom_fields" fs.

Definition slim_from_row (p : string * ChatSqlRow) : SlimChatDB :=
  let '(id, r) := p in
  mkSlim id (from_i32 (ct_chat_type r)) (default [] (de_strings (ct_participants r))) (ct_last_read r)
    (ct_created_at r `mod` 2 ^ 64) (default ∅ (of_text (ct_metadata r) ≫= de_metadata))
    (from_db_str (ct_notification_level r)).

(** [SlimChatDB::to_chat]; the messages are loaded separately. *)
Definition to_chat (s : SlimChatDB) : Chat :=
  mkChat (sl_id s) (sl_chat_type s) (sl_participants s) [] (sl_last_read s) (sl_created_at s) (sl_metadata s)
    (sl_notification_level s) ∅.

Definition get_all_chats : Act (list SlimChatDB) :=
  get_db_connection ;!
  query (λ e, "Failed to prepare statement: " +:+ e) (λ _, tt) ;!
  let! rows := query (λ e, "Failed to query chats: " +:+ e)
                 (λ d, sort_by_key (λ p, - ct_created_at p.2) (map_to_list (db_chats d))) in
  foldM (λ _ _, query (λ e, "Failed to collect chats: " +:+ e) (λ _, tt)) tt rows ;!
  mret (slim_from_row <$> rows).
End chats.
