(* ===== verification/MessageViews.v ===== *)
(** * Edits and message views ([db/messaging.rs], [message.rs], [cmds/chat.rs])

    A message is shown with the edits its author sent in time, the reactions to it, its
    attachments and the message it replies to. Live messages get their edits one by one;
    a view composes them from the rows. Which edits count is decided twice: by one SQL
    condition on saved rows, and in Rust before an edit is saved. *)

From Stdlib Require Import Ascii.
From S2P Require Import Prelude World Json Chat Schema Records ReadState VirtualBucket FileNames Announce JoinInbox.
From S2P Require Import DashboardPoll StoredEvents SideEffects.

(** ** Which edits count *)

Definition chat_row_of (d : Db) (chat_id : Z) : option (string * ChatSqlRow) :=
  c ← chat_identifier_of d chat_id; (pair c) <$> db_chats d !! c.

(** The SQL condition on an edit [e], its message [m] and the chat [c] of the message. *)
Definition edit_condition (d : Db) (e m : StoredEventRow) (c : string * ChatSqlRow) : bool :=
  (er_kind e =? MESSAGE_EDIT) &&
  bool_decide (er_kind m ∈ [PRIVATE_DIRECT_MESSAGE; FILE_ATTACHMENT]) &&
  bool_decide (mt_legacy (msgs d) !! er_id m = None) &&
  (er_chat_id e =? er_chat_id m) &&
  (if er_mine m then er_mine e
   else negb (er_mine e) &&
     match er_npub e, (match er_npub m with
                       | Some n => Some n
                       | None => if ct_chat_type c.2 =? to_i32 DirectMessage then Some c.1 else None
                       end) with
     | Some a, Some b => bool_decide (a = b)
     | _, _ => false
     end) &&
  ((er_created_at m <=? er_created_at e) && (er_created_at e <=? er_created_at m + EDIT_WINDOW_SECS)) &&
  ((0 <? er_received_at m) && (0 <? er_received_at e)) &&
  (er_received_at e - er_received_at m <=? EDIT_WINDOW_SECS * 1000).

(** [authorized_edits_from_sql], of one row: the two joins and the condition. *)
Definition edit_authorized (d : Db) (e : StoredEventRow) : bool :=
  match ref ← er_reference_id e; m ← event_row_of ref d; c ← chat_row_of d (er_chat_id m); Some (m, c) with
  | Some (m, c) => edit_condition d e m c
  | None => false
  end.

Definition authorized_edits (d : Db) : list StoredEventRow := filter (λ e, edit_authorized d e = true) (events d).

Definition saved_edit_is_authorized (edit_id : string) : Act bool :=
  get_db_connection ;!
  query (λ e, "Failed to authorize saved edit: " +:+ e) (λ d, existsb (has_id edit_id) (authorized_edits d)).

(** [stored_edit_is_authorized] *)
Definition stored_edit_is_authorized (original edit : StoredEvent) (dm_peer : option string) (edited_at_ms : Z)
    : bool :=
  ((se_kind original =? PRIVATE_DIRECT_MESSAGE) || (se_kind original =? FILE_ATTACHMENT)) &&
  (se_chat_id original =? se_chat_id edit) &&
  edit_received_in_time (se_received_at original) (se_received_at edit) &&
  edit_is_authorized (of_original (se_mine original) (se_npub original) dm_peer) (timestamp_ms original)
    (of_edit (se_mine edit) (se_npub edit)) edited_at_ms.

Section views.
Context `{SerdeText} `{Rusqlite} `{AtRest} `{Nostr} `{NostrKeys}.

Definition dm_peer_for_chat (chat_id : Z) : Act (option string) :=
  let! r := attempt (query id (λ d,
    c ← chat_row_of d chat_id; if ct_chat_type c.2 =? to_i32 DirectMessage then Some c.1 else None)) in
  mret (default None (res_ok r)).

Definition edit_is_authorized_before_save (edit : StoredEvent) : Act bool :=
  get_db_connection ;!
  if negb (se_kind edit =? MESSAGE_EDIT) then mret false
  else
    match se_reference_id edit with
    | None => mret false
    | Some reference_id =>
        let! original := query (λ e, "Failed to load edit original: " +:+ e) (λ d,
          m ← event_row_of reference_id d;
          if decide (mt_legacy (msgs d) !! er_id m = None) then Some (parse_event_row m) else None) in
        match original with
        | None => mret false
        | Some original =>
            let! dm_peer := dm_peer_for_chat (se_chat_id original) in
            mret (stored_edit_is_authorized original edit dm_peer (timestamp_ms edit))
        end
    end.

Definition get_authorized_message_edits (chat_id message_id : string) : Act (list StoredEvent) :=
  get_db_connection ;!
  query id (λ _, tt) ;!
  let! rows := query id (λ d, oldest_first (filter (λ e,
    bool_decide (er_reference_id e = Some message_id) &&
    bool_decide ((m ← event_row_of message_id d; chat_identifier_of d (er_chat_id m)) = Some chat_id) = true)
    (authorized_edits d))) in
  foldM (λ _ _, query id (λ _, tt)) tt rows ;!
  of_result (rmapM (λ e, match internal_decrypt (se_content e) with
                         | Some c => Ok (set_content c e)
                         | None => Err "Failed to decrypt saved edit"
                         end) (parse_event_row <$> rows)).

(** ** Live edits *)

Definition clear_preview (m : Message) : Message :=
  mkMessage (m_id m) (m_content m) (m_replied_to m) (m_replied_to_content m) (m_replied_to_npub m)
    (m_replied_to_has_attachment m) None (m_attachments m) (m_reactions m) (m_at m) (m_pending m) (m_failed m)
    (m_mine m) (m_npub m) (m_wrapper_event_id m) (m_edited m) (m_edit_history m) (m_rumor_kind m)
    (m_virtual_bucket m).

(** The loop over the saved edits of a message, and whether one was new. *)
Definition reconcile_edit (message_id : string) (st : bool * Chat) (edit : StoredEvent) : bool * Chat :=
  let '(changed, chat) := st in
  let edited_at := timestamp_ms edit in
  match edit_target chat message_id (of_edit (se_mine edit) (se_npub edit)) edited_at with
  | Some message =>
      let '(applied, message') := apply_edit message (se_id edit) (se_content edit) edited_at in
      (changed || applied, update_message chat message_id (λ _, message'))
  | None => (changed, chat)
  end.

Definition reconcile_chat (message_id : string) (edits : list StoredEvent) (chat : Chat) : option Message * Chat :=
  let '(changed, chat) := foldl (reconcile_edit message_id) (false, chat) edits in
  if changed then
    let chat := update_message chat message_id clear_preview in (get_message chat message_id, chat)
  else (None, chat).

Definition reconcile_message_edits (chat_id message_id : string) : Act unit :=
  let! edits := get_authorized_message_edits chat_id message_id in
  match edits with
  | [] => mret tt
  | _ =>
      let! updated := modify (λ d,
        match get_chat (st_chats d) chat_id with
        | None => (None, d)
        | Some chat => let '(message, chat') := reconcile_chat message_id edits chat in (message, put_chat chat_id chat' d)
        end) in
      match updated with
      | Some message => output (EmitMessage "message_update" chat_id message)
      | None => mret tt
      end
  end.

Definition persist_message_and_reconcile_edits (chat_id : string) (message : Message) : Act unit :=
  save_message chat_id message ;!
  reconcile_message_edits chat_id (m_id message).

Definition set_chat_id (chat_id : Z) (e : StoredEvent) : StoredEvent :=
  mkStoredEvent (se_id e) (se_kind e) chat_id (se_user_id e) (se_content e) (se_tags e) (se_reference_id e)
    (se_created_at e) (se_received_at e) (se_mine e) (se_pending e) (se_failed e) (se_wrapper_event_id e)
    (se_npub e) (se_virtual_bucket e).

Definition receive_message_edit (chat_id : string) (event : StoredEvent) : Act unit :=
  let! chat_int_id := get_chat_id_by_identifier chat_id in
  let! message_id := of_result (ok_or (se_reference_id event) "Edit target missing") in
  save_event (set_chat_id chat_int_id event) ;!
  reconcile_message_edits chat_id message_id.

(** ** The message a reply shows *)

Record ReplyContext : Type := mkReplyContext {
  rc_content : string; rc_npub : option string; rc_has_attachment : bool;
}.

(** Reference, content and time of an edit. *)
Definition edit_columns (e : StoredEventRow) : string * string * Z :=
  (default "" (er_reference_id e), er_content e,
   timestamp_ms_from_tags (er_created_at e `mod` 2 ^ 64) (tags_of_text (er_tags e))).

(** Newest first, of one time the one saved last: the first edit of a message counts. *)
Definition latest_edit (edits : list (string * string * Z)) (id : string) : option string :=
  x ← find_first (λ e, bool_decide (e.1.1 = id)) (sort_by_key (λ e, - e.2) edits); Some x.1.2.

Definition reply_context (latest : option string) (r : StoredEventRow) : Act ReplyContext :=
  let! npub := match er_npub r with
               | None => if er_mine r then let! account := attempt get_current_account in mret (res_ok account)
                         else mret None
               | Some npub => mret (Some npub)
               end in
  let content := default (er_content r) latest in
  mret (mkReplyContext
    (if er_kind r =? PRIVATE_DIRECT_MESSAGE then default "[Decryption failed]" (internal_decrypt content)
     else if er_kind r =? FILE_ATTACHMENT then decrypt_attachment_caption content else "")
    npub (er_kind r =? FILE_ATTACHMENT)).

Definition get_reply_contexts (message_ids : list string) : Act (gmap string ReplyContext) :=
  match message_ids with
  | [] => mret ∅
  | _ =>
      get_db_connection ;!
      query (λ e, "Failed to prepare reply context query: " +:+ e) (λ _, tt) ;!
      let! rows := query (λ e, "Failed to query reply contexts: " +:+ e)
                     (λ d, filter (λ r, er_id r ∈ message_ids) (events d)) in
      let! rows := rows_ok rows in
      query (λ e, "Failed to prepare edit query: " +:+ e) (λ _, tt) ;!
      let! edits := query (λ e, "Failed to query edits: " +:+ e) (λ d,
        reverse (oldest_first (filter (λ e, refers_to message_ids e = true) (authorized_edits d)))) in
      let! edits := rows_ok edits in
      foldM (λ contexts r,
        let! ctx := reply_context (latest_edit (edit_columns <$> edits) (er_id r)) r in
        mret (<[er_id r := ctx]> contexts)) ∅ rows
  end.

Definition fill_reply (contexts : gmap string ReplyContext) (m : Message) : Message :=
  if bool_decide (m_replied_to m = "") then m
  else match contexts !! m_replied_to m with
       | Some ctx => set_reply (Some (rc_content ctx)) (rc_npub ctx) (Some (rc_has_attachment ctx)) m
       | None => m
       end.

Definition populate_reply_context (message : Message) : Act Message :=
  if bool_decide (m_replied_to message = "") then mret message
  else
    let! contexts := get_reply_contexts [m_replied_to message] in
    mret (fill_reply contexts message).

(** ** Views *)

Definition is_vote_event (e : StoredEvent) : bool :=
  (se_kind e =? APPLICATION_SPECIFIC) && bool_decide (is_Some (try_parse_vote (trim (se_content e)))).

Definition view_reactions (related : list StoredEvent) (id : string) : list Reaction :=
  omap (λ e, if bool_decide (se_reference_id e = Some id) && (se_kind e =? REACTION)
             then Some (mkReaction (se_id e) id (default "" (se_npub e)) (se_content e)) else None) related.

Definition edit_entry (e : StoredEvent) : EditEntry :=
  mkEntry (se_id e) (default (se_content e) (internal_decrypt (se_content e))) (timestamp_ms e).

Definition view_edits (related : list StoredEvent) (authorized : list string) (id : string) : list EditEntry :=
  sort_by_key ee_edited_at (omap (λ e,
    if bool_decide (se_reference_id e = Some id) && (se_kind e =? MESSAGE_EDIT) && bool_decide (se_id e ∈ authorized)
    then Some (edit_entry e) else None) related).

Definition tag_attachments (e : StoredEvent) : option (list Attachment) :=
  get_tag e "attachments" ≫= attachments_of_text.

(** The attachments of file messages: of their tags, or of the legacy row. *)
Definition legacy_attachments (ids : list string) : Act (gmap string (list Attachment)) :=
  match ids with
  | [] => mret ∅
  | _ =>
      get_db_connection ;!
      let! has_table := attempt (query id (λ _, tt)) in
      if negb (is_okb has_table) then mret ∅
      else foldM (λ found id,
        let! r := attempt (query (λ e, e) (λ d, snd <$> mt_legacy (msgs d) !! id)) in
        mret (match (default None (res_ok r) : option string) ≫= attachments_of_text with
              | Some l => <[id := l]> found
              | None => found
              end)) ∅ ids
  end.

(** The content, whether it was edited, and the history. *)
Definition edited_content (original : EditEntry) (edits : list EditEntry)
    : string * bool * option (list EditEntry) :=
  match edits with
  | [] => (ee_content original, false, None)
  | _ => (from_option ee_content (ee_content original) (last edits), true, Some (original :: edits))
  end.

Definition view_message (attachments : list Attachment) (reactions : list Reaction) (edits : list EditEntry)
    (e : StoredEvent) : Message :=
  let at_ := timestamp_ms e in
  let '(content, edited, history) := edited_content (mkEntry (se_id e) (se_content e) at_) edits in
  mkMessage (se_id e) content (default "" (get_reply_reference e)) None None None
    ((get_tag e "link_preview" ≫= of_text) ≫= de_site) attachments reactions at_ (se_pending e) (se_failed e)
    (se_mine e) (se_npub e) (se_wrapper_event_id e) edited history
    (if se_kind e =? APPLICATION_SPECIFIC then Some (se_kind e) else None)
    (match se_virtual_bucket e with
     | Some b => Some b
     | None => normalize_virtual_bucket_for_message (se_kind e) (se_content e) (se_tags e)
     end).

Definition get_authorized_edit_ids (message_ids : list string) : Act (list string) :=
  get_db_connection ;!
  query id (λ _, tt) ;!
  let! ids := query id (λ d, er_id <$> filter (λ e, refers_to message_ids e = true) (authorized_edits d)) in
  foldM (λ _ _, query id (λ _, tt)) tt ids ;!
  mret ids.

Definition get_message_views (chat_id limit offset : Z) (virtual_bucket_filter : option string)
    : Act (list Message) :=
  let! message_events := get_events chat_id (Some MESSAGE_KINDS) limit offset virtual_bucket_filter in
  let message_events := filter (λ e, is_vote_event e = false) message_events in
  match message_events with
  | [] => mret []
  | _ =>
      let message_ids := se_id <$> message_events in
      let! related := get_related_events message_ids in
      let! authorized := get_authorized_edit_ids message_ids in
      let files := filter (λ e, se_kind e = FILE_ATTACHMENT) message_events in
      let! legacy := legacy_attachments (se_id <$> filter (λ e, tag_attachments e = None) files) in
      let attachments_of e :=
        if se_kind e =? FILE_ATTACHMENT then
          match tag_attachments e with Some l => l | None => default [] (legacy !! se_id e) end
        else [] in
      let messages := (λ e, view_message (attachments_of e) (view_reactions related (se_id e))
                              (view_edits related authorized (se_id e)) e) <$> message_events in
      match filter (λ i, i ≠ "") (m_replied_to <$> messages) with
      | [] => mret messages
      | reply_ids =>
          let! contexts := get_reply_contexts reply_ids in
          mret (fill_reply contexts <$> messages)
      end
  end.

Definition get_chat_last_messages (chat_id : string) (count : Z) : Act (list Message) :=
  let! chat_int_id := resolve_chat_id_for_message_load chat_id in
  get_message_views chat_int_id count 0 None.

(** ** Around a message *)

Definition get_messages_around_id (chat_id target_message_id : string) (context_before : Z) : Act (list Message) :=
  let! chat_int_id := resolve_chat_id_for_message_load chat_id in
  get_db_connection ;!
  let! here := attempt (query_row id (λ d,
    ok_or (er_created_at <$> find_first (λ r, has_id target_message_id r && (er_chat_id r =? chat_int_id)) (events d)) "")) in
  let! target_timestamp :=
    match here with
    | Ok t => mret t
    | Err _ => query_row (λ e, "Target message not found in any chat: " +:+ e)
                 (λ d, ok_or (er_created_at <$> event_row_of target_message_id d) "Query returned no rows")
    end in
  get_db_connection ;!
  let! older_count := query (λ e, "Failed to count older messages: " +:+ e)
    (count_where (λ r, is_timeline chat_int_id r && (er_created_at r <? target_timestamp))) in
  let! total_count := get_chat_message_count chat_id in
  let start_position := Z.max 0 (older_count - context_before) in
  get_message_views chat_int_id (Z.max 0 (total_count - start_position)) 0 None.

(** ** The commands, which also load what they read *)

Definition load_into (add : Chat → Message → Chat) (sort : list Message → list Message) (chat_id : string)
    (messages : list Message) : Act unit :=
  match messages with
  | [] => mret tt
  | _ => modify (λ d,
      match get_chat (st_chats d) chat_id with
      | None => (tt, d)
      | Some chat =>
          let chat := foldl add chat messages in
          (tt, put_chat chat_id (set_messages (sort (c_messages chat)) chat) d)
      end)
  end.

Definition push_new (c : Chat) (m : Message) : Chat :=
  if existsb (λ m', bool_decide (m_id m' = m_id m)) (c_messages c) then c
  else set_messages (c_messages c ++ [m]) c.

Definition get_chat_messages_paginated (chat_id : string) (limit offset : Z) : Act (list Message) :=
  let! chat_int_id := resolve_chat_id_for_message_load chat_id in
  let! messages := get_message_views chat_int_id limit offset None in
  load_into push_new (sort_by_key m_at) chat_id messages ;!
  mret messages.

Definition load_views (chat_id : string) (messages : list Message) : Act (list Message) :=
  load_into (λ c m, (internal_add_message c m).2) (λ l, l) chat_id messages ;!
  mret messages.

Definition message_views_command (chat_id : string) (limit offset : Z) (virtual_bucket_filter : option string)
    : Act (list Message) :=
  let! chat_int_id := resolve_chat_id_for_message_load chat_id in
  let! messages := get_message_views chat_int_id limit offset virtual_bucket_filter in
  load_views chat_id messages.

Definition messages_around_command (chat_id target_message_id : string) (context_before : Z) : Act (list Message) :=
  let! messages := get_messages_around_id chat_id target_message_id context_before in
  load_views chat_id messages.

Definition evict_chat_messages (chat_id : string) (keep_count : nat) : Act unit :=
  modify (λ d,
    match get_chat (st_chats d) chat_id with
    | None => (tt, d)
    | Some chat =>
        let ms := c_messages chat in
        (tt, put_chat chat_id (set_messages (drop (length ms - keep_count) ms) chat) d)
    end).
End views.

(** ** Replay of what the stored messages of a squad do *)

Section replay.
Context `{SerdeText} `{SerdeErrors} `{Rusqlite} `{EvmRead.Alloy} `{Roster.Signatures} `{EvmRead.Contracts}.
Context `{EvmRead.ProcessEnv} `{Nostr} `{NostrKeys} `{AtRest}.

Definition replay_automation_side_effects_for_chat (chat_id : string) : Act Z :=
  let! chat_int_id := resolve_chat_id_for_message_load chat_id in
  let! messages := get_message_views chat_int_id 2000 0 None in
  replay_messages chat_id messages.
End replay.
