(* ===== verification/MessageFacts.v ===== *)
(** * Facts about the stored messages

    Reading loops, the edits of a message in the order they count, what a view and a reply
    make of them, and what saving an event does. *)

From Stdlib Require Import Ascii.
From S2P Require Import Prelude World Json Chat Schema Records ReadState VirtualBucket FileNames Announce JoinInbox.
From S2P Require Import DashboardPoll StoredEvents SideEffects MessageViews.

(** ** Loops over rows *)

Section loops.
Context {A : Type}.
Implicit Types (o : World.Obs Db Effect) (rows : list A).

Lemma lwp_rows_ok rows o (Q : list A → World.Obs Db Effect → Prop) : Q rows o → lwp (rows_ok rows) o Q.
Proof.
  revert Q. induction rows as [|row rows IH]; intros Q HQ; cbn [rows_ok]; [by lstep|].
  do 3 lstep. lstep. by apply IH, lwp_ret.
Qed.


Lemma lwp_collect (err : string → string) rows o (Q : unit → World.Obs Db Effect → Prop) :
  Q tt o → lwp (foldM (λ _ _, query err (λ _, tt)) tt rows) o Q.
Proof. intros HQ. induction rows as [|row rows IH]; simpl; [by lstep|]. by do 2 lstep. Qed.
End loops.

Section facts.
Context `{SerdeText} `{Rusqlite} `{AtRest} `{Nostr} `{NostrKeys}.
Implicit Types (o : World.Obs Db Effect) (d : Db).

(** ** The edits of a message *)

Definition row_time (e : StoredEventRow) : Z := timestamp_ms (parse_event_row e).

Definition edit_rows (d : Db) (id : string) : list StoredEventRow :=
  filter (λ e, er_reference_id e = Some id ∧ edit_authorized d e = true) (events d).

(** In the order they count, the last one first shown. *)
Definition sorted_edits (d : Db) (id : string) : list StoredEventRow := sort_by_key row_time (edit_rows d id).

Definition ids_unique (d : Db) : Prop := NoDup (er_id <$> events d).
(** Stamps of half a billion years from now do not wrap in milliseconds. *)
Definition time_ok (r : StoredEventRow) : Prop := 0 ≤ er_created_at r < 2 ^ 54.
Definition times_ok (d : Db) : Prop := Forall time_ok (events d).

Lemma timestamp_second created tags :
  0 ≤ created < 2 ^ 54 → timestamp_ms_from_tags created tags / 1000 = created.
Proof.
  intros Hc. unfold timestamp_ms_from_tags.
  assert (∃ ms, 0 ≤ ms ≤ 999 ∧ match get_tag_in tags "ms" ≫= parse_unsigned U64_MAX with
    | Some ms => if ms <=? 999 then ms else 0 | None => 0 end = ms) as (ms & Hms & ->).
  { destruct (get_tag_in tags "ms" ≫= parse_unsigned U64_MAX) as [ms|] eqn:E; [|by exists 0].
    destruct (Z.leb_spec ms 999); [|by exists 0]. exists ms. split; [|done]. split; [|done].
    destruct (get_tag_in tags "ms") as [s|]; [|done]. apply parse_unsigned_range in E. lia. }
  rewrite Z.mod_small by lia. rewrite Z.div_add_l by lia. rewrite Z.div_small; lia.
Qed.

Lemma row_time_second r : time_ok r → row_time r / 1000 = er_created_at r.
Proof.
  intros Hr. unfold row_time, timestamp_ms, parse_event_row. simpl. unfold time_ok in Hr.
  rewrite Z.mod_small by lia. by apply timestamp_second.
Qed.

Lemma row_time_created d l r r' : times_ok d → l ⊆ events d → r ∈ l → r' ∈ l →
  row_time r = row_time r' → er_created_at r = er_created_at r'.
Proof.
  intros Ht Hl Hr Hr' Heq. unfold times_ok in Ht. rewrite Forall_forall in Ht.
  rewrite <- (row_time_second r), <- (row_time_second r'); [congruence|auto..].
Qed.

Lemma filter_sub {A} (P : A → Prop) `{!∀ x, Decision (P x)} (l : list A) : filter P l ⊆ l.
Proof. by intros x [_ Hx]%list_elem_of_filter. Qed.

(** Reading the rows by second first does not matter. *)
Lemma sort_oldest_first d l : times_ok d → l ⊆ events d →
  sort_by_key row_time (oldest_first l) = sort_by_key row_time l.
Proof. intros Ht Hl. apply sort_by_key_twice. intros r r' Hr Hr'. by eapply row_time_created. Qed.

Lemma unique_row d r r' : ids_unique d → r ∈ events d → r' ∈ events d → er_id r = er_id r' → r = r'.
Proof.
  intros Hu [i Hi]%list_elem_of_lookup [j Hj]%list_elem_of_lookup Heq.
  enough (i = j) by naive_solver. eapply NoDup_lookup; [exact Hu|..];
    rewrite list_lookup_fmap; [by rewrite Hi|by rewrite Hj, Heq].
Qed.

Lemma event_row_of_Some d id r : event_row_of id d = Some r → r ∈ events d ∧ er_id r = id.
Proof. intros [? ?]%find_first_Some. unfold has_id in *. by bool_facts. Qed.

Lemma event_row_of_in d r : ids_unique d → r ∈ events d → event_row_of (er_id r) d = Some r.
Proof.
  intros Hu Hr. destruct (event_row_of (er_id r) d) as [r'|] eqn:Hf.
  - apply event_row_of_Some in Hf as [? ?]. f_equal. by eapply unique_row.
  - apply find_first_None in Hf. rewrite Forall_forall in Hf. specialize (Hf r Hr).
    unfold has_id in Hf. by rewrite bool_decide_eq_true_2 in Hf.
Qed.

Lemma edit_authorized_inv d e : edit_authorized d e = true →
  ∃ m c, er_reference_id e = Some (er_id m) ∧ event_row_of (er_id m) d = Some m ∧
    chat_row_of d (er_chat_id m) = Some c ∧ edit_condition d e m c = true.
Proof.
  unfold edit_authorized. destruct (er_reference_id e) as [id|]; simpl; [|done].
  destruct (event_row_of id d) as [m|] eqn:Hm; simpl; [|done].
  destruct (chat_row_of d (er_chat_id m)) as [c|] eqn:Hc; simpl; [|done].
  intros He. destruct (event_row_of_Some d id m Hm) as [_ <-]. eauto 8.
Qed.

Lemma edit_condition_kind d e m c : edit_condition d e m c = true → er_kind e = MESSAGE_EDIT.
Proof. unfold edit_condition. intros ?. by bool_facts. Qed.

(** What a view shows of them, and what a reply quotes. *)
Definition entry_of (r : StoredEventRow) : EditEntry := edit_entry (parse_event_row r).

Lemma authorized_ids d ids r : ids_unique d → r ∈ events d →
  er_id r ∈ (er_id <$> filter (λ e, refers_to ids e = true) (authorized_edits d)) ↔
  refers_to ids r = true ∧ edit_authorized d r = true.
Proof.
  intros Hu Hr. rewrite list_elem_of_fmap. split.
  - intros (r' & Heq & [Href [Ha Hr']%list_elem_of_filter]%list_elem_of_filter).
    by rewrite (unique_row d r r').
  - intros [Href Ha]. exists r. split; [done|]. apply list_elem_of_filter. split; [done|].
    by apply list_elem_of_filter.
Qed.

Lemma refers_to_iff ids r : refers_to ids r = true ↔ ∃ id, er_reference_id r = Some id ∧ id ∈ ids.
Proof.
  unfold refers_to. destruct (er_reference_id r) as [id|]; [|naive_solver].
  split; [intros ?; bool_facts; eauto|]. intros (? & [= <-] & ?). by apply bool_decide_eq_true_2.
Qed.

Lemma view_edits_spec d ids id : ids_unique d → times_ok d → id ∈ ids →
  view_edits (parse_event_row <$> oldest_first (filter (λ r, refers_to ids r = true) (events d)))
    (er_id <$> filter (λ e, refers_to ids e = true) (authorized_edits d)) id =
  entry_of <$> sorted_edits d id.
Proof.
  intros Hu Ht Hid. unfold view_edits.
  rewrite (omap_filter _ _ entry_of (λ r, er_reference_id r = Some id ∧ edit_authorized d r = true)).
  2:{ intros r Hr. unfold oldest_first, sort_by_key in Hr. rewrite sort_by_perm in Hr.
      apply list_elem_of_filter in Hr as [Href Hr]. unfold parse_event_row. cbn [se_reference_id se_kind se_id].
      case_decide as Hd.
      - destruct Hd as [Hd Ha]. pose proof (edit_authorized_inv d r Ha) as (m & c & _ & _ & _ & Hk%edit_condition_kind).
        rewrite Hk, !bool_decide_eq_true_2; [done|by apply authorized_ids|done].
      - destruct (bool_decide (er_reference_id r = Some id)) eqn:Hd1; [|done]. bool_facts.
        rewrite (bool_decide_eq_false_2 (er_id r ∈ _)); [by rewrite andb_false_r|].
        rewrite authorized_ids by done. naive_solver. }
  rewrite sort_by_key_fmap. unfold sorted_edits, edit_rows. f_equal.
  unfold oldest_first. rewrite sort_by_key_filter.
  assert (filter (λ r, er_reference_id r = Some id ∧ edit_authorized d r = true)
    (filter (λ r, refers_to ids r = true) (events d)) =
    filter (λ r, er_reference_id r = Some id ∧ edit_authorized d r = true) (events d)) as ->.
  { rewrite list_filter_filter. apply list_filter_iff. intros r. rewrite refers_to_iff. naive_solver. }
  apply (sort_oldest_first d); [done|apply filter_sub].
Qed.

Lemma latest_edit_spec d ids id : times_ok d → id ∈ ids →
  latest_edit (edit_columns <$> reverse (oldest_first (filter (λ e, refers_to ids e = true) (authorized_edits d)))) id =
  er_content <$> last (sorted_edits d id).
Proof.
  intros Ht Hid. unfold latest_edit. rewrite sort_by_key_fmap, find_first_filter.
  change (λ x, - (edit_columns x).2) with (λ x, - row_time x).
  rewrite sort_by_key_reverse, (sort_oldest_first d); [|done|].
  2:{ intros r Hr. apply filter_sub in Hr. by apply filter_sub in Hr. }
  rewrite filter_fmap, filter_reverse, sort_by_key_filter.
  assert (filter (λ e, bool_decide ((edit_columns e).1.1 = id) = true)
    (filter (λ e, refers_to ids e = true) (authorized_edits d)) = edit_rows d id) as ->.
  { unfold authorized_edits, edit_rows. rewrite !list_filter_filter. apply list_filter_iff. intros e.
    rewrite refers_to_iff, bool_decide_eq_true. unfold edit_columns. simpl. split.
    - intros [[Hd (r & Hr & _)] Ha]. rewrite Hr in Hd. simpl in Hd. naive_solver.
    - intros [Hr Ha]. rewrite Hr. naive_solver. }
  change (sort_by_key row_time (edit_rows d id)) with (sorted_edits d id).
  rewrite fmap_reverse, head_reverse, fmap_last. by destruct (last (sorted_edits d id)).
Qed.

(** ** Fault-free reading *)

Lemma lwp_connected o (Q : unit → World.Obs Db Effect → Prop) :
  is_Some (st_account (o_db o)) → Q tt o → lwp get_db_connection o Q.
Proof. intros [a Ha] HQ. unfold get_db_connection, get_current_account. lstep. lstep; [by rewrite Ha|]. by lstep. Qed.

(** What a reply to row [r] quotes. *)
Definition quote_npub (d : Db) (r : StoredEventRow) : option string :=
  match er_npub r with
  | Some n => Some n
  | None => if er_mine r then st_account d else None
  end.
Definition quote_content (d : Db) (r : StoredEventRow) : string :=
  let content := default (er_content r) (er_content <$> last (sorted_edits d (er_id r))) in
  if er_kind r =? PRIVATE_DIRECT_MESSAGE then default "[Decryption failed]" (internal_decrypt content)
  else if er_kind r =? FILE_ATTACHMENT then decrypt_attachment_caption content else "".
Definition quote (d : Db) (r : StoredEventRow) : ReplyContext :=
  mkReplyContext (quote_content d r) (quote_npub d r) (er_kind r =? FILE_ATTACHMENT).

Lemma lwp_reply_context latest r o :
  is_Some (st_account (o_db o)) → latest = er_content <$> last (sorted_edits (o_db o) (er_id r)) →
  lwp (reply_context latest r) o (λ ctx o', o' = o ∧ ctx = quote (o_db o) r).
Proof.
  intros [a Ha] ->. unfold reply_context, quote, quote_content, quote_npub. lstep.
  destruct (er_npub r) as [n|]; [by do 2 lstep|]. destruct (er_mine r); [|by do 2 lstep].
  lstep. lstep. unfold get_current_account. lstep; [by rewrite Ha|]. lstep. lstep. by rewrite Ha.
Qed.

Lemma rows_insert_lookup {V} (f : StoredEventRow → V) rows : ∀ (m : gmap string V) id, NoDup (er_id <$> rows) →
  foldl (λ m r, <[er_id r := f r]> m) m rows !! id =
  match find_first (has_id id) rows with Some r => Some (f r) | None => m !! id end.
Proof.
  induction rows as [|r rows IH]; intros m id Hnd; [done|]. apply NoDup_cons in Hnd as [Hr Hnd].
  cbn [foldl find_first]. rewrite IH by done. unfold has_id at 2. case_bool_decide as Hid.
  - subst id. rewrite lookup_insert_eq. destruct (find_first (has_id (er_id r)) rows) as [r'|] eqn:Hf; [|done].
    apply find_first_Some in Hf as [Hin Hid]. unfold has_id in Hid. bool_facts. exfalso. apply Hr.
    apply list_elem_of_fmap. eauto.
  - destruct (find_first (has_id id) rows); [done|]. by rewrite lookup_insert_ne.
Qed.

Lemma find_first_among id (ids : list string) d :
  find_first (has_id id) (filter (λ r, er_id r ∈ ids) (events d)) =
  if decide (id ∈ ids) then event_row_of id d else None.
Proof.
  unfold event_row_of. induction (events d) as [|r l IH]; [by case_decide|]. rewrite filter_cons.
  destruct (decide (er_id r ∈ ids)) as [Hr|Hr].
  - cbn [find_first]. destruct (has_id id r) eqn:Hid; [|exact IH]. unfold has_id in Hid. bool_facts. subst.
    by rewrite decide_True.
  - rewrite IH. cbn [find_first]. destruct (has_id id r) eqn:Hid; [|done]. unfold has_id in Hid. bool_facts. subst.
    by rewrite !decide_False by done.
Qed.

Lemma lwp_reply_contexts ids o : is_Some (st_account (o_db o)) → ids_unique (o_db o) → times_ok (o_db o) →
  lwp (get_reply_contexts ids) o (λ m o', o' = o ∧
    ∀ id, id ∈ ids → m !! id = quote (o_db o) <$> event_row_of id (o_db o)).
Proof.
  intros Ha Hu Ht. unfold get_reply_contexts. destruct ids as [|i0 ids0]; [lstep; split; [done|]; by intros id ?%not_elem_of_nil|].
  set (ids := i0 :: ids0). lstep. apply lwp_connected; [done|]. do 4 lstep. lstep. apply lwp_rows_ok. do 4 lstep.
  lstep. apply lwp_rows_ok.
  set (rows := filter (λ r, er_id r ∈ ids) (events (o_db o))).
  set (latest := edit_columns <$> _).
  assert (∀ l (m : gmap string ReplyContext), l ⊆ rows → lwp (foldM (λ contexts r, let! ctx := reply_context (latest_edit latest (er_id r)) r in
      World.mret (<[er_id r := ctx]> contexts)) m l) o (λ m' o', o' = o ∧
      m' = foldl (λ m r, <[er_id r := quote (o_db o) r]> m) m l)) as Hloop.
  { induction l as [|r l IH]; intros m Hl; simpl; [by lstep|]. lstep. lstep.
    eapply lwp_mono; [apply lwp_reply_context; [done|]|].
    - apply latest_edit_spec; [done|]. specialize (Hl r (list_elem_of_here _ _)).
      by apply list_elem_of_filter in Hl as [? _].
    - intros ctx o' [-> ->]. lstep. apply IH. intros x Hx. apply Hl. by apply list_elem_of_further. }
  eapply lwp_mono; [by apply Hloop|]. intros m' o' [-> ->]. split; [done|]. intros id Hid.
  assert (NoDup (er_id <$> rows)) as Hnd.
    { apply (sublist_NoDup _ (er_id <$> events (o_db o))); [done|]. apply fmap_sublist, sublist_filter. }
  rewrite rows_insert_lookup by done. unfold rows. rewrite find_first_among, decide_True by done.
  by destruct (event_row_of id (o_db o)).
Qed.

(** ** Views *)

(** The message of a row before its edits. *)
Definition original_entry (r : StoredEventRow) : EditEntry :=
  let e := decrypt_event (parse_event_row r) in mkEntry (se_id e) (se_content e) (timestamp_ms e).

Definition shown_edits (m : Message) : string * bool * option (list EditEntry) :=
  (m_content m, m_edited m, m_edit_history m).

(** What a view of row [r] shows. *)
Record view_of (d : Db) (r : StoredEventRow) (v : Message) : Prop := {
  vo_id : m_id v = er_id r;
  vo_edits : shown_edits v = edited_content (original_entry r) (entry_of <$> sorted_edits d (er_id r));
  vo_reply : m_replied_to v = default "" (get_reply_reference (parse_event_row r));
  vo_kind : m_rumor_kind v = if er_kind r `mod` 2 ^ 16 =? APPLICATION_SPECIFIC then Some APPLICATION_SPECIFIC else None;
  vo_quote : m_replied_to v ≠ "" → ∀ w, event_row_of (m_replied_to v) d = Some w →
    m_replied_to_content v = Some (quote_content d w);
}.

Definition bucket_filter (f : option string) : option string :=
  b ← trim <$> f; if decide (b ∈ BUCKET_FILTERS) then Some b else None.

(** The rows a page of views is made of. *)
Definition shown_rows (d : Db) (chat_id limit offset : Z) (f : option string) : list StoredEventRow :=
  filter (λ r, is_vote_event (decrypt_event (parse_event_row r)) = false)
    (select_events chat_id (Some MESSAGE_KINDS) (bucket_filter f) limit offset d).

Lemma page_sub {A} limit offset (l : list A) : page limit offset l ⊆ l.
Proof.
  assert (∀ n (l : list A), drop n l ⊆ l) as Hd.
  { intros n l' x Hx. rewrite <- (take_drop n l'). apply elem_of_app. by right. }
  assert (∀ n (l : list A), take n l ⊆ l) as Hk.
  { intros n l' x Hx. rewrite <- (take_drop n l'). apply elem_of_app. by left. }
  unfold page. destruct (wrap64 offset <? Z.of_nat (length l)); cbv zeta; case_match; intros x Hx;
    repeat first [apply Hk in Hx | apply Hd in Hx]; set_solver.
Qed.

Lemma select_sub chat_id kinds bucket limit offset d : select_events chat_id kinds bucket limit offset d ⊆ events d.
Proof.
  unfold select_events, newest_first, sort_by_key. intros r Hr%page_sub. rewrite sort_by_perm in Hr.
  by apply filter_sub in Hr.
Qed.

Lemma decrypt_event_fields e : se_id (decrypt_event e) = se_id e ∧ se_kind (decrypt_event e) = se_kind e ∧
  se_tags (decrypt_event e) = se_tags e ∧ timestamp_ms (decrypt_event e) = timestamp_ms e ∧
  get_reply_reference (decrypt_event e) = get_reply_reference e.
Proof. unfold decrypt_event. by destruct (se_kind e =? PRIVATE_DIRECT_MESSAGE), (se_kind e =? FILE_ATTACHMENT). Qed.

Lemma view_message_edits atts rs es e :
  shown_edits (view_message atts rs es e) =
  edited_content (mkEntry (se_id e) (se_content e) (timestamp_ms e)) es.
Proof. unfold view_message. by destruct (edited_content _ es) as [[content edited] history]. Qed.
Lemma view_message_fields atts rs es e : let v := view_message atts rs es e in
  m_id v = se_id e ∧ m_replied_to v = default "" (get_reply_reference e) ∧
  m_rumor_kind v = if se_kind e =? APPLICATION_SPECIFIC then Some (se_kind e) else None.
Proof. unfold view_message. by destruct (edited_content _ es) as [[content edited] history]. Qed.

Lemma fill_reply_fields contexts v : let v' := fill_reply contexts v in
  m_id v' = m_id v ∧ shown_edits v' = shown_edits v ∧ m_replied_to v' = m_replied_to v ∧
  m_rumor_kind v' = m_rumor_kind v.
Proof. unfold fill_reply. case_bool_decide; [done|]. by destruct (contexts !! _). Qed.

Lemma lwp_legacy ids o (Q : gmap string (list Attachment) → World.Obs Db Effect → Prop) :
  is_Some (st_account (o_db o)) → (∀ m, Q m o) → lwp (legacy_attachments ids) o Q.
Proof.
  intros Ha HQ. unfold legacy_attachments.
  assert (∀ l (m : gmap string (list Attachment)), lwp (foldM (λ found id,
    let! r := attempt (query (λ e, e) (λ d, snd <$> mt_legacy (msgs d) !! id)) in
    World.mret (match default None (res_ok r) ≫= attachments_of_text with
                | Some l => <[id := l]> found
                | None => found
                end)) m l) o Q) as Hloop.
  { induction l as [|id l IH]; intros m; simpl; [lstep; apply HQ|]. do 5 lstep. apply IH. }
  destruct ids as [|i ids]; [lstep; apply HQ|]. lstep. apply lwp_connected; [done|]. do 3 lstep.
  exact (Hloop (i :: ids) ∅).
Qed.

Lemma lwp_get_events chat_id limit offset f o : is_Some (st_account (o_db o)) →
  lwp (get_events chat_id (Some MESSAGE_KINDS) limit offset f) o (λ es o', o' = o ∧
    es = decrypt_event ∘ parse_event_row <$>
           select_events chat_id (Some MESSAGE_KINDS) (bucket_filter f) limit offset (o_db o)).
Proof.
  intros Ha. unfold get_events. lstep. apply lwp_connected; [done|]. lstep. lstep.
  do 2 lstep. lstep. apply lwp_rows_ok. by lstep.
Qed.

Lemma lwp_related ids o : is_Some (st_account (o_db o)) → ids ≠ [] →
  lwp (get_related_events ids) o (λ es o', o' = o ∧
    es = parse_event_row <$> oldest_first (filter (λ r, refers_to ids r = true) (events (o_db o)))).
Proof.
  intros Ha Hids. unfold get_related_events. destruct ids as [|i ids]; [done|]. lstep. apply lwp_connected; [done|].
  do 4 lstep. lstep. apply lwp_rows_ok. by lstep.
Qed.

Lemma lwp_authorized_ids ids o : is_Some (st_account (o_db o)) →
  lwp (get_authorized_edit_ids ids) o (λ l o', o' = o ∧
    l = er_id <$> filter (λ e, refers_to ids e = true) (authorized_edits (o_db o))).
Proof.
  intros Ha. unfold get_authorized_edit_ids. lstep. apply lwp_connected; [done|].
  do 5 lstep. apply lwp_collect. by lstep.
Qed.

(** A view before the quotes are filled in. *)
Definition view_pre (d : Db) (r : StoredEventRow) (v : Message) : Prop :=
  m_id v = er_id r ∧
  shown_edits v = edited_content (original_entry r) (entry_of <$> sorted_edits d (er_id r)) ∧
  m_replied_to v = default "" (get_reply_reference (parse_event_row r)) ∧
  m_rumor_kind v = if er_kind r `mod` 2 ^ 16 =? APPLICATION_SPECIFIC then Some APPLICATION_SPECIFIC else None.

Lemma composed_view d ids atts rs r : ids_unique d → times_ok d → er_id r ∈ ids →
  let e := decrypt_event (parse_event_row r) in
  view_pre d r (view_message atts rs
    (view_edits (parse_event_row <$> oldest_first (filter (λ r, refers_to ids r = true) (events d)))
       (er_id <$> filter (λ e, refers_to ids e = true) (authorized_edits d)) (se_id e)) e).
Proof.
  intros Hu Ht Hr e. unfold view_pre.
  destruct (decrypt_event_fields (parse_event_row r)) as (Hid & Hk & _ & _ & Href).
  change (se_id e) with (se_id (decrypt_event (parse_event_row r))). rewrite Hid. simpl.
  rewrite view_message_edits, view_edits_spec by done.
  match goal with |- context [view_message ?a ?b ?c ?e] => destruct (view_message_fields a b c e) as (-> & -> & ->) end.
  unfold e, original_entry. rewrite Hid, Href, Hk. split; [done|]. split; [done|]. split; [done|].
  unfold parse_event_row. simpl. destruct (Z.eqb_spec (er_kind r `mod` 2 ^ 16) APPLICATION_SPECIFIC) as [Heq|]; [by rewrite Heq|done].
Qed.

Lemma filled_view d contexts r v : view_pre d r v →
  (m_replied_to v ≠ "" → contexts !! m_replied_to v = quote d <$> event_row_of (m_replied_to v) d) →
  view_of d r (fill_reply contexts v).
Proof.
  intros (Hid & He & Hr & Hk) Hc. destruct (fill_reply_fields contexts v) as (Hid' & He' & Hr' & Hk').
  split; [congruence..|]. rewrite Hr'. intros Hne w Hw. unfold fill_reply.
  rewrite bool_decide_eq_false_2 by done. rewrite Hc, Hw by done. done.
Qed.

Lemma fill_reply_none contexts v : m_replied_to v = "" → fill_reply contexts v = v.
Proof. intros Hr. unfold fill_reply. by rewrite bool_decide_eq_true_2. Qed.

Lemma lwp_quotes rows vs o :
  is_Some (st_account (o_db o)) → ids_unique (o_db o) → times_ok (o_db o) → Forall2 (view_pre (o_db o)) rows vs →
  lwp (match filter (λ i, i ≠ "") (m_replied_to <$> vs) with
       | [] => World.mret vs
       | reply_ids => let! contexts := get_reply_contexts reply_ids in World.mret (fill_reply contexts <$> vs)
       end) o (λ vs o', o' = o ∧ Forall2 (view_of (o_db o)) rows vs).
Proof.
  intros Ha Hu Ht Hpre.
  assert (∀ contexts, (∀ v, v ∈ vs → m_replied_to v ≠ "" →
      contexts !! m_replied_to v = quote (o_db o) <$> event_row_of (m_replied_to v) (o_db o)) →
      Forall2 (view_of (o_db o)) rows (fill_reply contexts <$> vs)) as Hfill.
  { intros contexts. induction Hpre as [|r v rows vs Hv _ IH]; intros Hc; [constructor|].
    constructor; [|apply IH; set_solver]. apply filled_view; [done|]. apply Hc. apply list_elem_of_here. }
  destruct (filter _ _) as [|i ids] eqn:Hids.
  - lstep. split; [done|].
    assert (∀ v, v ∈ vs → m_replied_to v = "") as Hnone.
    { intros v Hv. destruct (decide (m_replied_to v = "")); [done|]. exfalso.
      apply (not_elem_of_nil (m_replied_to v)). rewrite <- Hids. apply list_elem_of_filter. split; [done|].
      by apply list_elem_of_fmap_2. }
    replace vs with (fill_reply ∅ <$> vs).
    { apply Hfill. intros v Hv Hne. by rewrite Hnone in Hne. }
    rewrite <- (list_fmap_id vs) at 2. apply list_fmap_ext. intros k v Hv%list_elem_of_lookup_2.
    by apply fill_reply_none, Hnone.
  - rewrite <- Hids. lstep. eapply lwp_mono; [by apply lwp_reply_contexts|]. intros contexts o' [-> Hc].
    lstep. split; [done|]. apply Hfill. intros v Hv Hne. apply Hc. rewrite Hids, <- Hids.
    apply list_elem_of_filter. split; [done|]. by apply list_elem_of_fmap_2.
Qed.

Lemma lwp_views chat_id limit offset f o :
  is_Some (st_account (o_db o)) → ids_unique (o_db o) → times_ok (o_db o) →
  lwp (get_message_views chat_id limit offset f) o (λ vs o', o' = o ∧
    Forall2 (view_of (o_db o)) (shown_rows (o_db o) chat_id limit offset f) vs).
Proof.
  intros Ha Hu Ht. unfold get_message_views. lstep. eapply lwp_mono; [by apply lwp_get_events|].
  intros es o' [-> ->].
  rewrite filter_fmap.
  change (filter _ (select_events _ _ _ _ _ _)) with (shown_rows (o_db o) chat_id limit offset f).
  set (rows := shown_rows (o_db o) chat_id limit offset f).
  assert (rows ⊆ events (o_db o)) as Hsub.
  { intros r Hr%filter_sub. by apply select_sub in Hr. }
  set (es := decrypt_event ∘ parse_event_row <$> rows).
  assert (se_id <$> es = er_id <$> rows) as Hids.
  { unfold es. rewrite <- list_fmap_compose. apply list_fmap_ext. intros k r _. simpl.
    by destruct (decrypt_event_fields (parse_event_row r)) as [-> _]. }
  destruct es as [|e0 es0] eqn:Hes.
  { apply fmap_nil_inv in Hes. rewrite Hes. lstep. split; [done|constructor]. }
  rewrite <- Hes, Hids in *. assert (er_id <$> rows ≠ []) as Hne by (by rewrite <- Hids, Hes).
  lstep. eapply lwp_mono; [by apply lwp_related|]. intros related o' [-> ->].
  lstep. eapply lwp_mono; [by apply lwp_authorized_ids|]. intros authorized o' [-> ->].
  lstep. apply lwp_legacy; [done|]. intros legacy.
  apply lwp_quotes; [done..|]. unfold es. rewrite !Forall2_fmap_r. apply Forall_Forall2_diag, Forall_forall.
  intros r Hr. apply composed_view; [done..|apply list_elem_of_fmap; eauto].
Qed.
End facts.
