(* ===== verification/EvmFacts.v ===== *)
(** * Facts about addresses and chain reads

    Printing and parsing of addresses are inverse, a normalized address is the
    printed form, and contract reads change nothing. *)

From Stdlib Require Import Ascii.
From S2P Require Import Prelude World Json Schema Records EvmRead.

(** ** Texts of graphic characters are not trimmed *)

Definition graphic (a : ascii) : Prop := (33 ≤ code a ≤ 126)%N.

Lemma graphic_headless l : Forall graphic l →
  headless ws2 ws3 l ∧ headless ws2_rev ws3_rev l.
Proof.
  unfold graphic. intros Hl. destruct l as [|a [|b [|c l]]]; simpl; [done|..];
    repeat match goal with H : Forall _ (_ :: _) |- _ => apply Forall_cons in H as [? H] end;
    repeat split;
    unfold ws2_rev, ws3_rev, ws1, ws2, ws3;
    repeat match goal with
      | |- context [(?x =? ?y)%N] => destruct (N.eqb_spec x y); try lia
      | |- context [(?x <=? ?y)%N] => destruct (N.leb_spec x y); try lia
      end; done.
Qed.

Lemma trim_graphic s : Forall graphic (String.list_ascii_of_string s) → trim s = s.
Proof.
  intros Hs. unfold trim, trim_bytes. rewrite (drop_ws_id ws2 ws3) by (exact (proj1 (graphic_headless _ Hs))).
  rewrite (drop_ws_id ws2_rev ws3_rev) by (apply (proj2 (graphic_headless _ (proj2 (Forall_reverse _ _) Hs)))).
  by rewrite reverse_involutive, String.string_of_list_ascii_of_string.
Qed.

Lemma string_app_nil s : s +:+ "" = s.
Proof. induction s as [|c s IH]; [done|]. change (String c (s +:+ "") = String c s). by f_equal. Qed.

Lemma list_ascii_app s t :
  String.list_ascii_of_string (s +:+ t) =
  String.list_ascii_of_string s ++ String.list_ascii_of_string t.
Proof. induction s as [|a s IH]; simpl; [done|]. f_equal. exact IH. Qed.

(** Decimal numbers are graphic. *)
Lemma pretty_N_go_graphic x s :
  Forall graphic (String.list_ascii_of_string s) →
  Forall graphic (String.list_ascii_of_string (pretty_N_go x s)).
Proof.
  revert s. induction (N.lt_wf_0 x) as [x _ IH]. intros s Hs.
  assert (x = 0 ∨ 0 < x)%N as [->|Hx] by lia; [by rewrite pretty_N_go_0|].
  rewrite pretty_N_go_step by done. apply IH; [by apply N.div_lt|]. simpl.
  constructor; [|done]. unfold graphic. rewrite pretty_N_char_code by (by apply N.mod_lt).
  assert (x `mod` 10 < 10)%N as Hm by (by apply N.mod_lt). revert Hm. generalize (x `mod` 10)%N. lia.
Qed.

Lemma trim_pretty n : 0 ≤ n → trim (pretty n) = pretty n.
Proof.
  intros Hn. apply trim_graphic. destruct n as [|p|p]; [| |lia].
  - change (pretty 0) with "0". repeat constructor; unfold graphic; vm_compute; done.
  - change (pretty (Zpos p)) with (pretty (Npos p)). unfold pretty, pretty_N.
    case_decide; [done|]. by apply pretty_N_go_graphic.
Qed.

(** ** Hex digits *)

Lemma nibble_roundtrip d : 0 ≤ d < 16 → nibble_value (nibble d) = Some d.
Proof.
  intros Hd. assert (d ∈ seqZ 0 16) as Hin by (apply elem_of_seqZ; lia).
  assert (Forall (λ d, nibble_value (nibble d) = Some d) (seqZ 0 16)) as Hall
    by (repeat constructor).
  rewrite Forall_forall in Hall. by apply Hall.
Qed.

Lemma nibble_value_range a d : nibble_value a = Some d → 0 ≤ d < 16.
Proof.
  unfold nibble_value. intros H. repeat case_match; simplify_eq;
    repeat match goal with E : _ && _ = true |- _ => apply andb_true_iff in E as [?%Z.leb_le ?%Z.leb_le] end; lia.
Qed.

Lemma nibble_lower a d : nibble_value a = Some d → nibble d = lower_ascii a.
Proof.
  intros H. destruct a as [[] [] [] [] [] [] [] []]; vm_compute in H; try discriminate;
    injection H as <-; vm_compute; reflexivity.
Qed.

Lemma nibble_graphic a : is_Some (nibble_value a) → graphic a.
Proof.
  intros [d H]. unfold nibble_value in H. unfold graphic. repeat case_match; simplify_eq;
    repeat match goal with E : _ && _ = true |- _ => apply andb_true_iff in E as [?%Z.leb_le ?%Z.leb_le] end; lia.
Qed.

Lemma all_hex_graphic s : all_hex s = true → Forall graphic (String.list_ascii_of_string s).
Proof.
  unfold all_hex. intros Hs. apply Is_true_true, forallb_True in Hs. eapply Forall_impl; [exact Hs|].
  intros a Ha%bool_decide_unpack. by apply nibble_graphic.
Qed.

Lemma hex_fixed_value k : ∀ n acc v, 0 ≤ n →
  hex_value (hex_fixed k n acc) v = hex_value acc (v * 16 ^ Z.of_nat k + n `mod` 16 ^ Z.of_nat k).
Proof.
  induction k as [|k IH]; intros n acc v Hn.
  - simpl. rewrite Z.mod_1_r. f_equal. lia.
  - simpl hex_fixed. rewrite IH by (apply Z.div_pos; lia). simpl.
    rewrite nibble_roundtrip by (apply Z.mod_pos_bound; lia). simpl. f_equal.
    rewrite Nat2Z.inj_succ, Z.pow_succ_r by lia.
    rewrite (Z.rem_mul_r n 16) by lia. lia.
Qed.

Lemma hex_fixed_length k n acc :
  String.length (hex_fixed k n acc) = (k + String.length acc)%nat.
Proof. revert n acc. induction k as [|k IH]; intros n acc; [done|]. simpl. rewrite IH. simpl. lia. Qed.

Lemma all_hex_cons a s : all_hex (String a s) = bool_decide (is_Some (nibble_value a)) && all_hex s.
Proof. done. Qed.

Lemma hex_fixed_all_hex k n acc : 0 ≤ n → all_hex acc = true → all_hex (hex_fixed k n acc) = true.
Proof.
  revert n acc. induction k as [|k IH]; intros n acc Hn Ha; [done|]. simpl.
  apply IH; [apply Z.div_pos; lia|]. rewrite all_hex_cons, Ha, andb_true_r.
  apply bool_decide_eq_true_2. exists (n `mod` 16). apply nibble_roundtrip, Z.mod_pos_bound. lia.
Qed.

Lemma hex_fixed_split j k : ∀ n acc, 0 ≤ n →
  hex_fixed (k + j) n acc = hex_fixed j (n / 16 ^ Z.of_nat k) (hex_fixed k n acc).
Proof.
  induction k as [|k IH]; intros n acc Hn; [by rewrite Z.div_1_r|].
  simpl. rewrite IH by (apply Z.div_pos; lia). f_equal.
  rewrite Nat2Z.inj_succ, Z.pow_succ_r by lia. by rewrite Z.div_div by lia.
Qed.

Lemma hex_value_bound s : ∀ acc v, 0 ≤ acc → hex_value s acc = Some v →
  acc * 16 ^ Z.of_nat (String.length s) ≤ v < (acc + 1) * 16 ^ Z.of_nat (String.length s).
Proof.
  induction s as [|a s IH]; intros acc v Hacc Hv; simpl in Hv.
  - injection Hv as <-. simpl. lia.
  - apply bind_Some in Hv as (d & Hd & Hv). pose proof (nibble_value_range a d Hd).
    apply IH in Hv; [|lia]. change (String.length (String a s)) with (S (String.length s)).
    rewrite Nat2Z.inj_succ, Z.pow_succ_r by lia.
    pose proof (Z.pow_pos_nonneg 16 (Z.of_nat (String.length s)) ltac:(lia) ltac:(lia)). nia.
Qed.

(** Printing the value of a hex text gives the text in lower case. *)
Lemma hex_fixed_of_value s : ∀ acc v rest, 0 ≤ acc → hex_value s acc = Some v →
  hex_fixed (String.length s) v rest = to_ascii_lowercase s +:+ rest.
Proof.
  induction s as [|a s IH]; intros acc v rest Hacc Hv; simpl in Hv; [done|].
  apply bind_Some in Hv as (d & Hd & Hv). pose proof (nibble_value_range a d Hd) as Hr.
  assert (0 ≤ acc * 16 + d) as Hacc' by lia.
  pose proof (hex_value_bound s _ v Hacc' Hv) as Hb.
  assert (0 ≤ v) as Hv0.
  { etrans; [|apply Hb]. apply Z.mul_nonneg_nonneg; [lia|]. apply Z.pow_nonneg. lia. }
  change (String.length (String a s)) with (S (String.length s)). rewrite <- Nat.add_1_r.
  rewrite hex_fixed_split by done. rewrite (IH _ _ rest Hacc' Hv). simpl.
  replace (v / 16 ^ Z.of_nat (String.length s)) with (acc * 16 + d).
  2: { apply (Z.div_unique _ _ _ (v - (acc * 16 + d) * 16 ^ Z.of_nat (String.length s))); lia. }
  rewrite Z.add_comm, Z_mod_plus_full, Z.mod_small by done. by rewrite (nibble_lower a d Hd).
Qed.

(** ** Addresses *)

Definition address_ok (a : Z) : Prop := 0 ≤ a < 2 ^ 160.

Lemma parse_address_hex a : address_ok a → parse_address (address_hex a) = Ok a.
Proof.
  intros Ha. unfold parse_address.
  assert (all_hex (hex_fixed 40 a "") = true) as Hhex by (by apply hex_fixed_all_hex; [apply Ha|]).
  assert (strip_0x (trim (address_hex a)) = hex_fixed 40 a "") as ->.
  { rewrite trim_graphic; [done|]. unfold address_hex. rewrite list_ascii_app. apply Forall_app.
    split; [repeat constructor; unfold graphic; vm_compute; done|by apply all_hex_graphic]. }
  rewrite Hhex, hex_fixed_length. simpl negb. simpl orb. cbn iota.
  rewrite hex_fixed_value by apply Ha. simpl hex_value.
  rewrite Z.mod_small by (unfold address_ok in Ha; lia). done.
Qed.

Lemma all_hex_value s : all_hex s = true → ∀ acc, is_Some (hex_value s acc).
Proof.
  induction s as [|a s IH]; intros Hs acc; [by eexists|].
  rewrite all_hex_cons in Hs. apply andb_true_iff in Hs as [[d Hd]%bool_decide_eq_true Hs].
  simpl. rewrite Hd. simpl. by apply IH.
Qed.

(** What parses is an address, and its printed form is the normalized text. *)
Lemma parse_address_spec s a : parse_address s = Ok a →
  address_ok a ∧ normalize_hex_address s = Some (address_hex a).
Proof.
  unfold parse_address, normalize_hex_address. set (h := strip_0x (trim s)).
  destruct (String.length h =? 40)%nat eqn:Hl; simpl; [|done].
  destruct (all_hex h) eqn:Hh; simpl; [|done]. apply Nat.eqb_eq in Hl.
  destruct (hex_value h 0) as [v|] eqn:Hv; simpl; [|done]. intros [= ->].
  pose proof (hex_value_bound h 0 a (Z.le_refl 0) Hv) as Hb. rewrite Hl in Hb. split.
  - unfold address_ok. simpl in Hb. lia.
  - f_equal. unfold address_hex. f_equal. pose proof (hex_fixed_of_value h 0 a "" (Z.le_refl 0) Hv) as Hx.
    rewrite Hl in Hx. by rewrite Hx, string_app_nil.
Qed.

Lemma normalize_parses s t : normalize_hex_address s = Some t →
  ∃ a, parse_address s = Ok a ∧ address_ok a ∧ t = address_hex a ∧ parse_address t = Ok a.
Proof.
  intros Ht. assert (∃ a, parse_address s = Ok a) as [a Ha].
  { clear -Ht. revert Ht. unfold normalize_hex_address, parse_address. set (h := strip_0x (trim s)).
    destruct (String.length h =? 40)%nat eqn:Hl; simpl; [|done].
    destruct (all_hex h) eqn:Hh; simpl; [|done]. intros _.
    destruct (all_hex_value h Hh 0) as [v Hv]. rewrite Hv. by exists v. }
  exists a. pose proof (parse_address_spec s a Ha) as [Hok Hn].
  split; [done|]. split; [done|]. rewrite Hn in Ht. injection Ht as <-.
  split; [done|]. by apply parse_address_hex.
Qed.

(** ** Contract reads *)

Lemma eth_call_quiet {A} err (f : Z → A) : quiet (eth_call_decode err f : Act A).
Proof. unfold eth_call_decode. apply quiet_bind; [apply quiet_now|intros ?; apply quiet_query]. Qed.
#[export] Hint Resolve eth_call_quiet : quiet.

(** A read answers what the contract says at some view, or fails. *)
Lemma dwp_eth_call {A} err (f : Z → A) (o : World.Obs Db Effect) (Q : result A → _ → Prop) :
  (∀ e, Q (Err (err e)) o) → (∀ view, Q (Ok (f view)) o) → dwp (eth_call_decode err f) o Q.
Proof. intros HE HO. unfold eth_call_decode. apply dwp_bind, dwp_now. intros view. by apply dwp_query. Qed.

Lemma lwp_eth_call {A} err (f : Z → A) (o : World.Obs Db Effect) (Q : A → _ → Prop) :
  (∀ view, Q (f view) o) → lwp (eth_call_decode err f) o Q.
Proof. intros HO. unfold eth_call_decode. apply lwp_bind, lwp_now. intros view. by apply lwp_query. Qed.

(** ** Readers

    [reads m o P]: from [o], whatever fails, [m] leaves everything as it is, and
    what it returns satisfies [P]. *)
Definition reads {A} (m : Act A) (o : World.Obs Db Effect) (P : A → Prop) : Prop :=
  dwp m o (λ r o', o' = o ∧ ∀ a, r = Ok a → P a).

Section reads.
Context {A : Type} (o : World.Obs Db Effect).
Implicit Types P : A → Prop.

Lemma reads_mono (m : Act A) P P' : reads m o P → (∀ a, P a → P' a) → reads m o P'.
Proof. intros Hm HP. eapply dwp_mono; [exact Hm|]. naive_solver. Qed.

Lemma reads_ret (a : A) P : P a → reads (World.mret a) o P.
Proof. intros HP. apply dwp_ret. naive_solver. Qed.

Lemma reads_throw e P : reads (mthrow e) o P.
Proof. by apply dwp_throw. Qed.

Lemma reads_of_result (r : result A) P : (∀ a, r = Ok a → P a) → reads (of_result r) o P.
Proof. intros HP. by apply dwp_of_result. Qed.

Lemma reads_query err (f : Db → A) P : P (f (o_db o)) → reads (query err f) o P.
Proof. intros HP. apply dwp_query; naive_solver. Qed.

Lemma reads_query_row err (f : Db → result A) P :
  (∀ a, f (o_db o) = Ok a → P a) → reads (query_row err f) o P.
Proof. intros HP. apply dwp_query_row; naive_solver. Qed.

Lemma reads_eth_call err (f : Z → A) P : (∀ view, P (f view)) → reads (eth_call_decode err f) o P.
Proof. intros HP. apply dwp_eth_call; naive_solver. Qed.

Lemma reads_attempt (m : Act A) P :
  reads m o P → reads (attempt m) o (λ r, ∀ a, r = Ok a → P a).
Proof.
  intros Hm. apply dwp_attempt. eapply dwp_mono; [exact Hm|]. intros r o' [-> HP].
  split; [done|]. by intros ? [= ->].
Qed.

Lemma reads_quiet (m : Act A) : quiet m → reads m o (λ _, True).
Proof. intros Hm. eapply dwp_mono; [apply Hm|]. naive_solver. Qed.
End reads.

Lemma reads_bind {A B} (m : Act A) (k : A → Act B) o (P : A → Prop) (Q : B → Prop) :
  reads m o P → (∀ a, P a → reads (k a) o Q) → reads (World.mbind m k) o Q.
Proof.
  intros Hm Hk. apply dwp_bind. eapply dwp_mono; [exact Hm|].
  intros [a|e] o' [-> HP]; [by apply Hk, HP|done].
Qed.

(** Skip a reader whose answer does not matter. *)
Lemma reads_skip {A B} (m : Act A) (k : A → Act B) o (Q : B → Prop) :
  quiet m → (∀ a, reads (k a) o Q) → reads (World.mbind m k) o Q.
Proof. intros Hm Hk. eapply reads_bind; [by apply reads_quiet|]. naive_solver. Qed.

Lemma map_err_with_ok {A} f (r : result A) a : map_err_with f r = Ok a → r = Ok a.
Proof. by destruct r. Qed.

Lemma ok_or_ok {A} (x : option A) e a : ok_or x e = Ok a → x = Some a.
Proof. destruct x; simpl; congruence. Qed.

(** ** Contracts answer with words of their type *)

Definition deployment_ok (d : Deployment) : Prop :=
  address_ok (dp_safe d) ∧ address_ok (dp_quartermaster d) ∧ address_ok (dp_mutinyModule d) ∧
  address_ok (dp_treasuryAuthority d) ∧ address_ok (dp_squadAdminProxy d) ∧
  0 ≤ dp_captainHatId d < 2 ^ 256 ∧ 0 ≤ dp_crewHatId d < 2 ^ 256.

Class ContractsLaws `{Contracts} : Prop := {
  deployment_words : ∀ n v r t, deployment_ok (deployment n v r t);
  active_words : ∀ n v r t, deployment_ok (active n v r t);
}.

(** The five modules a deployment lists. *)
Definition modules (d : Deployment) : list Z :=
  [dp_safe d; dp_quartermaster d; dp_mutinyModule d; dp_treasuryAuthority d; dp_squadAdminProxy d].

Lemma mentions_module chain id th d to : deployment_ok d →
  deployment_mentions_module (dto_of chain id th d) to = bool_decide (to ∈ modules d).
Proof.
  intros (H1 & H2 & H3 & H4 & H5 & _). unfold deployment_mentions_module, dto_of, modules.
  cbn -[parse_address address_hex]. rewrite (parse_address_hex _ H1), (parse_address_hex _ H2),
    (parse_address_hex _ H3), (parse_address_hex _ H4), (parse_address_hex _ H5).
  cbn -[Z.eqb]. apply eq_true_iff_eq. rewrite bool_decide_eq_true, !orb_true_iff, !Z.eqb_eq.
  rewrite !elem_of_cons, elem_of_nil. naive_solver.
Qed.
