(* ===== verification/AnnounceFacts.v ===== *)
(** * Facts about the readers of announcements *)

From S2P Require Import Prelude World Json Chat Schema Records EvmRead EvmFacts AccessControl.
From S2P Require Import Announce SquadInfra WarGame Stickers Roster Allowlist JoinInbox SideEffects.

(** ** Statements without effect on the database *)

Lemma quiet_slice_to n s : quiet (slice_to n s).
Proof. unfold slice_to. quiet_tac. Qed.
#[export] Hint Resolve quiet_slice_to : quiet.
Lemma quiet_clip n s : quiet (clip n s).
Proof. unfold clip. quiet_tac. Qed.
Lemma quiet_now_ms : quiet now_ms.
Proof. unfold now_ms. quiet_tac. Qed.
Lemma quiet_now_nanos : quiet now_nanos.
Proof. unfold now_nanos. quiet_tac. Qed.
Lemma quiet_unix_now_secs : quiet unix_now_secs.
Proof. unfold unix_now_secs. quiet_tac. Qed.
#[export] Hint Resolve quiet_clip quiet_now_ms quiet_now_nanos quiet_unix_now_secs : quiet.

Lemma quiet_treasury_id e : quiet (new_treasury_row_id e).
Proof. unfold new_treasury_row_id. quiet_tac. Qed.
Lemma quiet_infra_id e : quiet (new_squad_infra_id e).
Proof. unfold new_squad_infra_id. quiet_tac. Qed.
Lemma quiet_ensure_tables : quiet ensure_join_inbox_tables.
Proof. unfold ensure_join_inbox_tables, SquadCatalog.table_exists. quiet_tac. Qed.
#[export] Hint Resolve quiet_treasury_id quiet_infra_id quiet_ensure_tables : quiet.

Lemma quiet_address_purpose a : quiet (address_purpose a).
Proof. unfold address_purpose. quiet_tac. Qed.
#[export] Hint Resolve quiet_address_purpose : quiet.
Lemma quiet_ensure_address a : quiet (ensure_address_allowed_on_squad_roster a).
Proof. unfold ensure_address_allowed_on_squad_roster. quiet_tac. Qed.
#[export] Hint Resolve quiet_ensure_address : quiet.

Section quiet.
Context `{SerdeText} `{SerdeErrors} `{Rusqlite} `{Alloy} `{Signatures} `{Nostr} `{NostrKeys} `{AtRest}.

Lemma quiet_load_packs : quiet load_sticker_packs.
Proof. unfold load_sticker_packs. quiet_tac. Qed.
Lemma quiet_verify p n a t s : quiet (verify_squad_roster_bind_cert p n a t s).
Proof. unfold verify_squad_roster_bind_cert. quiet_tac. Qed.
Lemma quiet_stored_war_game p : quiet (pacto_gov_wargame_stored_row p).
Proof. unfold pacto_gov_wargame_stored_row. quiet_tac. Qed.
Lemma quiet_read_meta p : quiet (read_meta_row p).
Proof. unfold read_meta_row. quiet_tac. Qed.
Lemma quiet_secret_epoch p : quiet (secret_epoch p).
Proof. unfold secret_epoch. quiet_tac. Qed.
Lemma quiet_has_secret p : quiet (has_secret_row p).
Proof. unfold has_secret_row. quiet_tac. Qed.
Lemma quiet_read_secret p : quiet (read_secret_row p).
Proof. unfold read_secret_row. quiet_tac. Qed.
End quiet.
#[export] Hint Resolve quiet_load_packs quiet_verify quiet_stored_war_game quiet_read_meta
  quiet_secret_epoch quiet_has_secret quiet_read_secret : quiet.

(** ** Relations and what readers say *)

Section related.
Context (R : Db → Db → Prop) `{!Reflexive R}.

(** Go on from a reader with what it says, or without. *)
Lemma rel_reads {A B} (m : Act A) (k : A → Act B) o (P : A → Prop) :
  EvmFacts.reads m o P → (∀ a, P a → dwp (k a) o (λ _ o', R (o_db o) (o_db o'))) →
  dwp (World.mbind m k) o (λ _ o', R (o_db o) (o_db o')).
Proof.
  intros Hm Hk. apply dwp_bind. eapply dwp_mono; [exact Hm|].
  intros [a|e] o' [-> HP]; [by apply Hk, HP|done].
Qed.

Lemma rel_skip {A B} (m : Act A) (k : A → Act B) o :
  quiet m → (∀ a, dwp (k a) o (λ _ o', R (o_db o) (o_db o'))) →
  dwp (World.mbind m k) o (λ _ o', R (o_db o) (o_db o')).
Proof. intros Hm Hk. eapply rel_reads; [by apply reads_quiet|]. auto. Qed.

Lemma rel_quiet {A} (m : Act A) o : quiet m → dwp m o (λ _ o', R (o_db o) (o_db o')).
Proof. intros Hm. eapply dwp_mono; [apply Hm|]. by intros r o' ->. Qed.
End related.

(** ** What a reader of an announcement knows *)

Lemma trimmed_opt_Some v s : trimmed_opt v = Some s → trim s = s ∧ blank s = false.
Proof.
  unfold trimmed_opt. destruct v as [x|]; [|done]. destruct (blank x) eqn:Hb; [done|].
  intros [= <-]. by rewrite trim_idemp, blank_trim.
Qed.

Section announced.
Context `{SerdeText}.

Lemma announced_spec ty key content chat author_npub author p parent :
  announced ty key content chat author_npub = Some (author, p, parent) →
  trimmed_opt author_npub = Some author ∧ announce_payload ty content = Some p ∧
  json_nonempty_str p key = Some parent ∧ trim parent = trim chat ∧ blank chat = false.
Proof.
  unfold announced. intros Ha.
  apply bind_Some in Ha as (a & Ha & Hb). apply bind_Some in Hb as (q & Hq & Hb).
  apply bind_Some in Hb as (g & Hg & Hb).
  destruct (side_effect_parent_matches_chat _ _) eqn:Hm; [|done]. injection Hb as <- <- <-.
  apply parent_matches_spec in Hm as [? ?]. done.
Qed.

Lemma dwp_if_member chat author m o (Q : result unit → World.Obs Db Effect → Prop) :
  Q (Ok tt) o → (∀ e, Q (Err e) o) →
  (listed_for (o_db o) (trim chat) author → dwp m o Q) → dwp (if_member chat author m) o Q.
Proof.
  intros Hok He Hm. unfold if_member. apply dwp_bind.
  eapply dwp_quiet; [apply quiet_is_author_mls_member|apply member_closed|].
  intros [[]|e] Hr; [by apply Hm, Hr|by apply dwp_ret|apply He].
Qed.

Lemma keeps_if_member R `{!Reflexive R, !Transitive R} chat author m :
  keeps R m → keeps R (if_member chat author m).
Proof. intros Hm o. by apply dwp_if_member. Qed.

Lemma keeps_ignore {A} R `{!Reflexive R, !Transitive R} (m : Act A) : keeps R m → keeps R (ignore m).
Proof. intros Hm. unfold ignore. keeps_tac. Qed.

Lemma keeps_when R `{!Reflexive R, !Transitive R} b m : keeps R m → keeps R (when b m).
Proof. intros Hm. destruct b; [done|apply keeps_ret, _]. Qed.
End announced.
