(* ===== verification/WriteLocks.v ===== *)
(** * One write at a time per signer ([evm/access_control/write_serialize.rs])

    Governance and Squad Admin writes hold the lock of each signer they spend the
    nonce of, one or two, taken in address order. A state has the locks of the map and
    the tasks that write; an execution is a list of tasks, one move each. Which of
    the tasks waiting for a lock gets it is left open (tokio's queue). *)

From Stdlib Require Import Zwf.
From S2P Require Import Prelude EvmRead EvmFacts.

(** The key of a signer's lock in [GOV_WRITE_LOCKS]. *)
Definition lock_key (signer_address : Address) : string := address_hex signer_address.

(** The locks a guard is made of, in the order they are taken. *)
Definition with_gov_write_lock (signer_address : Address) : list Address := [signer_address].

Definition with_gov_write_locks (a b : Address) : list Address :=
  if a =? b then with_gov_write_lock a
  else
    let '(lo, hi) := if a <? b then (a, b) else (b, a) in
    with_gov_write_lock lo ++ with_gov_write_lock hi.

(** A write: of one signer ([gov_module_write.rs], [squad_admin_write.rs]) or of the
    payer and the roster signer ([war_game_deploy.rs]). *)
Inductive Write : Type := OneSigner (a : Address) | TwoSigners (a b : Address).

Definition locks_of (w : Write) : list Address :=
  match w with
  | OneSigner a => with_gov_write_lock a
  | TwoSigners a b => with_gov_write_locks a b
  end.

(** A task takes its locks one after the other, writes, and drops its guards. *)
Inductive Task : Type :=
| Taking (guards todo : list Address)
| Writing (guards : list Address)
| Over.

(** [GOV_WRITE_LOCKS], with the task that holds each lock, and the tasks. *)
Record State : Type := mkState { held : gmap string nat; tasks : list Task }.

Definition start (ws : list Write) : State := mkState ∅ ((λ w, Taking [] (locks_of w)) <$> ws).

Definition took (guards todo : list Address) : Task :=
  match todo with [] => Writing guards | _ => Taking guards todo end.

(** One move of task [i]; a task whose lock is held waits. *)
Definition move (i : nat) (s : State) : State :=
  match tasks s !! i with
  | Some (Taking guards (k :: todo)) =>
      match held s !! lock_key k with
      | Some _ => s
      | None => mkState (<[lock_key k := i]> (held s)) (<[i := took (guards ++ [k]) todo]> (tasks s))
      end
  | Some (Writing guards) =>
      mkState (foldr (λ k m, delete (lock_key k) m) (held s) guards) (<[i := Over]> (tasks s))
  | _ => s
  end.

Definition moves (l : list nat) (s : State) : State := foldl (flip move) s l.

(** Whether task [i] can go on. *)
Definition ready (i : nat) (s : State) : bool :=
  match tasks s !! i with
  | Some (Taking _ (k :: _)) => bool_decide (held s !! lock_key k = None)
  | Some (Writing _) => true
  | _ => false
  end.

Definition guards_of (t : Task) : list Address :=
  match t with Taking g _ => g | Writing g => g | Over => [] end.
Definition todo_of (t : Task) : list Address :=
  match t with Taking _ todo => todo | _ => [] end.

(** Moves a task has still to make. *)
Definition left_of (t : Task) : nat :=
  match t with Taking _ todo => S (length todo) | Writing _ => 1 | Over => 0 end.
Definition left (s : State) : nat := sum_list (left_of <$> tasks s).

(** ** What every execution keeps *)

Definition write_ok (w : Write) : Prop :=
  match w with OneSigner a => address_ok a | TwoSigners a b => address_ok a ∧ address_ok b end.

(** The locks a task has and wants are those of its write, in address order. *)
Definition task_ok (w : Write) (t : Task) : Prop :=
  t = Over ∨ guards_of t ++ todo_of t = locks_of w ∧ (∀ g, t ≠ Taking g []).

Record inv (ws : list Write) (s : State) : Prop := {
  iv_tasks : Forall2 task_ok ws (tasks s);
  iv_held : ∀ key i, held s !! key = Some i ↔
    ∃ t k, tasks s !! i = Some t ∧ k ∈ guards_of t ∧ lock_key k = key;
}.

Lemma lock_key_inj a b : address_ok a → address_ok b → lock_key a = lock_key b → a = b.
Proof.
  intros Ha Hb Hk. pose proof (parse_address_hex a Ha) as H1. unfold lock_key in Hk.
  rewrite Hk, parse_address_hex in H1 by done. congruence.
Qed.

(** The address order. *)
Lemma locks_sorted w : StronglySorted Z.lt (locks_of w).
Proof.
  destruct w as [a|a b]; simpl; [repeat constructor|]. unfold with_gov_write_locks.
  destruct (Z.eqb_spec a b); [repeat constructor|]. destruct (Z.ltb_spec a b); repeat constructor; lia.
Qed.

Lemma locks_ok w : write_ok w → Forall address_ok (locks_of w).
Proof.
  unfold locks_of, with_gov_write_locks, with_gov_write_lock.
  destruct w as [a|a b]; simpl; [|intros [??]; destruct (a =? b), (a <? b); simpl];
    rewrite ?Forall_cons, ?Forall_nil; tauto.
Qed.

Lemma locks_nonempty w : locks_of w ≠ [].
Proof.
  destruct w as [a|a b]; simpl; [done|]. unfold with_gov_write_locks.
  destruct (a =? b); [done|]. by destruct (a <? b).
Qed.

Section keeps.
Context (ws : list Write) (Hws : Forall write_ok ws).

Lemma task_of s i t : inv ws s → tasks s !! i = Some t → ∃ w, ws !! i = Some w ∧ write_ok w ∧ task_ok w t.
Proof.
  intros Hs Ht. destruct (Forall2_lookup_r _ _ _ _ _ (iv_tasks _ _ Hs) Ht) as (w & Hw & Hok).
  exists w. split; [done|]. split; [|done]. by eapply Forall_lookup_1.
Qed.

Lemma task_addresses s i t k : inv ws s → tasks s !! i = Some t →
  k ∈ guards_of t ++ todo_of t → address_ok k.
Proof.
  intros Hs Ht Hk. destruct (task_of s i t Hs Ht) as (w & _ & Hw & [->|[He _]]); [set_solver|].
  rewrite He in Hk. pose proof (locks_ok w Hw) as Hall. rewrite Forall_forall in Hall. auto.
Qed.

Lemma locks_inv_start : inv ws (start ws).
Proof.
  split.
  - unfold start. simpl. apply Forall2_fmap_r, Forall_Forall2_diag, Forall_forall. intros w _.
    right. split; [done|]. intros g [= _ Hl]. by apply (locks_nonempty w).
  - intros key i. unfold start. simpl. rewrite lookup_empty. split; [done|].
    intros (t & k & Ht & Hk & _). rewrite list_lookup_fmap in Ht.
    destruct (ws !! i); simplify_eq/=. set_solver.
Qed.

Lemma took_guards g todo : guards_of (took g todo) = g ∧ todo_of (took g todo) = todo.
Proof. by destruct todo. Qed.

Lemma locks_inv_take s i g k todo : inv ws s → tasks s !! i = Some (Taking g (k :: todo)) →
  held s !! lock_key k = None →
  inv ws (mkState (<[lock_key k := i]> (held s)) (<[i := took (g ++ [k]) todo]> (tasks s))).
Proof.
  intros Hs Ht Hfree. destruct (took_guards (g ++ [k]) todo) as [Hg Htd]. split; simpl.
  - destruct (task_of s i _ Hs Ht) as (w & Hw & _ & [|[He _]]); [done|]. simpl in He.
    rewrite <- (list_insert_id ws i w Hw). apply Forall2_insert; [apply (iv_tasks _ _ Hs)|].
    right. rewrite Hg, Htd, <- app_assoc. split; [done|]. by destruct todo.
  - intros key j. destruct (decide (lock_key k = key)) as [<-|Hne].
    + rewrite lookup_insert_eq. split.
      * intros [= <-]. exists (took (g ++ [k]) todo), k. rewrite list_lookup_insert_eq by by eapply lookup_lt_Some.
        rewrite Hg. split; [done|]. split; [set_solver|done].
      * intros (t & k' & Hj & Hk' & Hkey). destruct (decide (i = j)) as [->|Hij]; [done|].
        rewrite list_lookup_insert_ne in Hj by done.
        rewrite (proj2 (iv_held _ _ Hs (lock_key k) j)) in Hfree by eauto. done.
    + rewrite lookup_insert_ne, (iv_held _ _ Hs) by done. destruct (decide (i = j)) as [<-|Hij].
      * rewrite list_lookup_insert_eq by by eapply lookup_lt_Some. split.
        -- intros (t & k' & Hj & Hk' & Hkey). simplify_eq/=. exists (took (g ++ [k]) todo), k'.
           rewrite Hg. split; [done|]. split; [set_solver|done].
        -- intros (t & k' & [= <-] & Hk' & Hkey). rewrite Hg in Hk'.
           apply elem_of_app in Hk' as [Hk'|Hk'%list_elem_of_singleton]; [|by subst]. eauto.
      * by rewrite list_lookup_insert_ne.
Qed.

Lemma release_lookup (guards : list Address) (m : gmap string nat) key :
  foldr (λ k m, delete (lock_key k) m) m guards !! key =
  if decide (key ∈ lock_key <$> guards) then None else m !! key.
Proof.
  induction guards as [|k guards IH]; [done|]. simpl. destruct (decide (lock_key k = key)) as [->|Hne].
  - rewrite lookup_delete_eq, decide_True by set_solver. done.
  - rewrite lookup_delete_ne, IH by done.
    destruct (decide (key ∈ lock_key <$> guards)); [rewrite decide_True by set_solver|
      rewrite decide_False by set_solver]; done.
Qed.

Lemma locks_inv_release s i g : inv ws s → tasks s !! i = Some (Writing g) →
  inv ws (mkState (foldr (λ k m, delete (lock_key k) m) (held s) g) (<[i := Over]> (tasks s))).
Proof.
  intros Hs Ht. split; simpl.
  - destruct (task_of s i _ Hs Ht) as (w & Hw & _ & _). rewrite <- (list_insert_id ws i w Hw).
    apply Forall2_insert; [apply (iv_tasks _ _ Hs)|by left].
  - intros key j. rewrite release_lookup. case_decide as Hin.
    + apply list_elem_of_fmap in Hin as (k & -> & Hk). split; [done|].
      intros (t & k' & Hj & Hk' & Hkey). exfalso. destruct (decide (i = j)) as [<-|Hij].
      * rewrite list_lookup_insert_eq in Hj by by eapply lookup_lt_Some. injection Hj as <-. by apply elem_of_nil in Hk'.
      * rewrite list_lookup_insert_ne in Hj by done. apply Hij.
        assert (held s !! lock_key k = Some i) as H1 by (apply (iv_held _ _ Hs); eauto).
        assert (held s !! lock_key k = Some j) as H2 by (apply (iv_held _ _ Hs); eauto). congruence.
    + rewrite (iv_held _ _ Hs). destruct (decide (i = j)) as [<-|Hij]; [|by rewrite list_lookup_insert_ne].
      rewrite list_lookup_insert_eq by by eapply lookup_lt_Some. split.
      * intros (t & k & Hj & Hk & <-). simplify_eq/=. exfalso. apply Hin. by apply list_elem_of_fmap_2.
      * intros (t & k & [= <-] & Hk & _). set_solver.
Qed.

Lemma locks_inv_move i s : inv ws s → inv ws (move i s).
Proof.
  intros Hs. unfold move. destruct (tasks s !! i) as [[g [|k todo]|g|]|] eqn:Ht; try done.
  - destruct (held s !! lock_key k) eqn:Hh; [done|by apply locks_inv_take].
  - by apply locks_inv_release.
Qed.

Lemma locks_inv_moves l : ∀ s, inv ws s → inv ws (moves l s).
Proof. induction l as [|i l IH]; intros s Hs; [done|]. by apply (IH (move i s)), locks_inv_move. Qed.
End keeps.

(** ** No deadlock *)

Section progress.
Context (ws : list Write) (Hws : Forall write_ok ws).

(** A task stuck on a lock waits for a task that wants only higher ones, so somebody
    can go on. *)
Lemma stuck_ready s : inv ws s → ∀ k i g todo,
  tasks s !! i = Some (Taking g (k :: todo)) → ∃ j, ready j s = true.
Proof.
  intros Hs k. induction k as [k IH] using (well_founded_induction (Zwf_up_well_founded (2 ^ 160))).
  intros i g todo Ht. destruct (held s !! lock_key k) as [j|] eqn:Hh.
  2: { exists i. unfold ready. rewrite Ht. by apply bool_decide_eq_true. }
  assert (address_ok k) as Hk by (eapply (task_addresses ws Hws s i _ k Hs Ht); set_solver).
  apply (iv_held _ _ Hs) in Hh as (t & k' & Hj & Hk' & Hkey).
  assert (k' = k) as -> by (apply lock_key_inj; [|done|done]; eapply (task_addresses ws Hws s j t k' Hs Hj), elem_of_app; by left).
  destruct (task_of ws Hws s j t Hs Hj) as (w & _ & _ & [->|[He Hne]]); [set_solver|].
  destruct t as [g' [|k2 todo']|g'|]; simpl in *; [by destruct (Hne g')| |exists j; unfold ready; by rewrite Hj|set_solver].
  eapply (IH k2); [|exact Hj]. pose proof (locks_sorted w) as Hsort. rewrite <- He in Hsort.
  assert (k < k2) by (eapply (StronglySorted_app_1_elem_of _ _ _ _ _ Hsort); set_solver).
  assert (address_ok k2) as [_ ?] by (eapply (task_addresses ws Hws s j _ k2 Hs Hj); set_solver).
  unfold Zwf_up. lia.
Qed.

Lemma sum_cons t l : sum_list (left_of <$> t :: l) = (left_of t + sum_list (left_of <$> l))%nat.
Proof. done. Qed.

Lemma all_over s : left s = 0%nat → Forall (λ t, t = Over) (tasks s).
Proof.
  unfold left. induction (tasks s) as [|t l IH]; intros Hl; [apply Forall_nil_2|]. rewrite sum_cons in Hl.
  apply Forall_cons_2; [destruct t; simpl in Hl; (done || lia)|apply IH; lia].
Qed.

Lemma some_ready s : inv ws s → left s ≠ 0%nat → ∃ i, ready i s = true.
Proof.
  intros Hs Hl. assert (∃ i t, tasks s !! i = Some t ∧ t ≠ Over) as (i & t & Ht & Hne).
  { unfold left in Hl. induction (tasks s) as [|t l IH]; [done|]. destruct (decide (left_of t = 0%nat)) as [H0|H0].
    - rewrite sum_cons in Hl. destruct IH as (i & t' & Hi & Hne); [lia|]. by exists (S i), t'.
    - exists 0%nat, t. split; [done|]. intros ->. by apply H0. }
  destruct (task_of ws Hws s i t Hs Ht) as (w & _ & _ & [->|[_ Hg]]); [done|].
  destruct t as [g [|k todo]|g|]; [by destruct (Hg g)|by eapply stuck_ready| |done].
  exists i. unfold ready. by rewrite Ht.
Qed.

Lemma sum_insert (l : list Task) i t t' : l !! i = Some t → left_of t = S (left_of t') →
  sum_list (left_of <$> l) = S (sum_list (left_of <$> <[i := t']> l)).
Proof.
  revert i. induction l as [|x l IH]; intros [|i] Hi He; [done|done| |].
  - injection Hi as ->. change (<[0%nat := t']> (t :: l)) with (t' :: l). rewrite !sum_cons. lia.
  - change (<[S i := t']> (x :: l)) with (x :: <[i := t']> l). rewrite !sum_cons, (IH i Hi He). lia.
Qed.

Lemma ready_move i s : ready i s = true → left s = S (left (move i s)).
Proof.
  unfold ready, move, left. destruct (tasks s !! i) as [[g [|k todo]|g|]|] eqn:Ht; try done.
  - intros Hh%bool_decide_eq_true. rewrite Hh. apply (sum_insert _ _ _ _ Ht). by destruct todo.
  - intros _. by apply (sum_insert _ _ _ _ Ht).
Qed.

Lemma finish n : ∀ s, inv ws s → left s = n →
  ∃ l, length l = n ∧ Forall (λ t, t = Over) (tasks (moves l s)).
Proof.
  induction n as [|n IH]; intros s Hs Hn; [exists []; split; [done|by apply all_over]|].
  destruct (some_ready s Hs) as [i Hi]; [lia|]. pose proof (ready_move i s Hi) as Hm.
  destruct (IH (move i s)) as (l & Hl & Hover); [by apply locks_inv_move|lia|].
  exists (i :: l). split; [simpl; lia|done].
Qed.
End progress.

Definition signers_of (w : Write) : list Address :=
  match w with OneSigner a => [a] | TwoSigners a b => [a; b] end.

Lemma signers_locks w a : a ∈ locks_of w ↔ a ∈ signers_of w.
Proof.
  destruct w as [x|x y]; simpl; [done|]. unfold with_gov_write_locks, with_gov_write_lock.
  destruct (Z.eqb_spec x y); [set_solver|]. destruct (x <? y); simpl; set_solver.
Qed.

(** C31. Signer locks neither deadlock nor let two writes share a signer. However the
    moves of any number of writes interleave: a task that writes holds the lock of
    every signer of its write, no two tasks that write share a signer, and unless all
    are over some task can go on; every such move leaves one less to make, so that
    all writes can be finished from where they stand. *)
Theorem writes_proceed ws l : Forall write_ok ws →
  let s := moves l (start ws) in
  (∀ i w g, ws !! i = Some w → tasks s !! i = Some (Writing g) → ∀ a, a ∈ g ↔ a ∈ signers_of w) ∧
  (∀ i j g g', i ≠ j → tasks s !! i = Some (Writing g) → tasks s !! j = Some (Writing g') → g ## g') ∧
  (Forall (λ t, t = Over) (tasks s) ∨ ∃ i, ready i s = true) ∧
  (∀ i, ready i s = true → left s = S (left (move i s))) ∧
  ∃ l', length l' = left s ∧ Forall (λ t, t = Over) (tasks (moves l' s)).
Proof.
  intros Hws s. assert (inv ws s) as Hs by (by apply locks_inv_moves, locks_inv_start). split_and!.
  - intros i w g Hw Hi a. destruct (task_of ws Hws s i _ Hs Hi) as (w' & Hw' & _ & [|[He _]]); [done|].
    simplify_eq/=. rewrite app_nil_r in He. subst g. apply signers_locks.
  - intros i j g g' Hij Hi Hj a Ha Ha'. apply Hij.
    assert (held s !! lock_key a = Some i) as H1 by (apply (iv_held _ _ Hs); eauto).
    assert (held s !! lock_key a = Some j) as H2 by (apply (iv_held _ _ Hs); eauto). congruence.
  - destruct (decide (left s = 0%nat)); [left; by apply all_over|right; by eapply some_ready].
  - intros i. apply ready_move.
  - by eapply finish.
Qed.

(** Two deployments that name the same two signers in opposite orders. *)
Lemma writes_proceed_witness :
  let s := moves [0%nat; 1%nat] (start [TwoSigners 1 2; TwoSigners 2 1]) in
  ready 1 s = false ∧
  ∃ l', length l' = 5%nat ∧ Forall (λ t, t = Over) (tasks (moves l' s)).
Proof.
  intros s. split; [vm_compute; reflexivity|].
  assert (Forall write_ok [TwoSigners 1 2; TwoSigners 2 1]) as Hws
    by (rewrite !Forall_cons, Forall_nil; unfold write_ok, address_ok; lia).
  destruct (writes_proceed _ [0%nat; 1%nat] Hws) as (_ & _ & _ & _ & l' & Hl & Hover).
  exists l'. split; [rewrite Hl; vm_compute; reflexivity|exact Hover].
Defined.
