(* ===== verification/ContentPolicy.v ===== *)
(** * Content restrictions of a squad ([squad_content_policy.rs])

    Two flags per squad, each replicated as a last-writer-wins register written
    by admins only; turning [restrict_event_create] on removes the events of
    everybody else in the same transaction. *)

From stdpp Require Import pretty.
From S2P Require Import Prelude World Json Chat Schema Records.

Definition POLICY_SCHEMA : string := "pacto.squad_content_policy.v1".
Definition MAX_FUTURE_SKEW_MS : Z := 5 * 60 * 1000.
Definition ERR_NOT_MEMBER : string := "squad_records_not_member".
Definition ERR_NOT_ADMIN : string := "squad_records_not_admin".
Definition ERR_WRONG_GROUP : string := "squad_records_wrong_group".

(** [SquadContentPolicy::default()] *)
Definition policy_default : SquadContentPolicy := mkPolicy false 0 None false 0 None.

Record SquadContentPolicyWire : Type := mkPolicyWire {
  pw_schema : string;
  pw_parent_id : string;
  pw_restrict_event_create : bool;
  pw_restrict_event_create_updated_at_ms : Z;
  pw_restrict_doc_add : bool;
  pw_restrict_doc_add_updated_at_ms : Z;
}.

Inductive PolicyFlag : Type := RestrictEventCreate | RestrictDocAdd.

Definition PolicyFlag_parse (flag : string) : result PolicyFlag :=
  if decide (flag = "restrict_event_create") then Ok RestrictEventCreate
  else if decide (flag = "restrict_doc_add") then Ok RestrictDocAdd
  else Err ("Unknown squad content policy flag: " +:+ flag).

Record PolicyApplyOutcome : Type := mkOutcome {
  oc_changed : bool;
  oc_event_create_turned_on : bool;
  oc_deleted_events : nat;
}.

Record SquadContentPolicyView : Type := mkPolicyView {
  v_restrict_event_create : bool;
  v_restrict_event_create_updated_at_ms : Z;
  v_restrict_doc_add : bool;
  v_restrict_doc_add_updated_at_ms : Z;
  v_caller_is_admin : bool;
  v_admin_is_member : bool;
}.

(** ** Serde of the wire *)

Definition policy_members (w : SquadContentPolicyWire) : list (string * option json) := [
  ("schema", Some (JStr (pw_schema w)));
  ("parent_id", Some (JStr (pw_parent_id w)));
  ("restrict_event_create", Some (JBool (pw_restrict_event_create w)));
  ("restrict_event_create_updated_at_ms",
    Some (JNum (pw_restrict_event_create_updated_at_ms w)));
  ("restrict_doc_add", Some (JBool (pw_restrict_doc_add w)));
  ("restrict_doc_add_updated_at_ms", Some (JNum (pw_restrict_doc_add_updated_at_ms w)))].

Definition ser_policy (w : SquadContentPolicyWire) : json := JObj (obj_fields (policy_members w)).

Definition POLICY_FIELDS : list string :=
  ["schema"; "parent_id"; "restrict_event_create"; "restrict_event_create_updated_at_ms";
   "restrict_doc_add"; "restrict_doc_add_updated_at_ms"].

Definition de_policy (j : json) : option SquadContentPolicyWire :=
  fs ← struct_fields POLICY_FIELDS j;
  schema ← req de_string "schema" fs;
  parent_id ← req de_string "parent_id" fs;
  ev ← req de_bool "restrict_event_create" fs;
  ev_at ← req de_i64 "restrict_event_create_updated_at_ms" fs;
  doc ← req de_bool "restrict_doc_add" fs;
  doc_at ← req de_i64 "restrict_doc_add_updated_at_ms" fs;
  Some (mkPolicyWire schema parent_id ev ev_at doc doc_at).

(** ** The replica *)

(** An absent row is the default policy. *)
Definition stored_policy (d : Db) (parent_id : string) : SquadContentPolicy :=
  default policy_default (db_policies d !! parent_id).

Definition load_policy (parent_id : string) : Act SquadContentPolicy :=
  query (λ e, "Failed to load squad content policy: " +:+ e)
    (λ d, stored_policy d parent_id).

Definition policy_stamp_ok (now_ms ms : Z) : bool :=
  (0 <=? ms) && (ms <=? saturating_add now_ms MAX_FUTURE_SKEW_MS).

Definition try_parse_wire `{SerdeText} (content : string) (now_ms : Z)
    : option SquadContentPolicyWire :=
  w ← of_text (trim content) ≫= de_policy;
  if negb (bool_decide (pw_schema w = POLICY_SCHEMA))
     || blank (pw_parent_id w)
     || negb (policy_stamp_ok now_ms (pw_restrict_event_create_updated_at_ms w))
     || negb (policy_stamp_ok now_ms (pw_restrict_doc_add_updated_at_ms w))
  then None else Some w.

(** The two assignments blocks of [merge_policy]. *)
Definition merge_event_flag (next : SquadContentPolicy) (stored : SquadContentPolicy)
    (incoming : SquadContentPolicyWire) (author_npub : string) (outcome : PolicyApplyOutcome)
    : SquadContentPolicy * PolicyApplyOutcome :=
  if pw_restrict_event_create_updated_at_ms incoming
     >? restrict_event_create_updated_at_ms stored
  then (mkPolicy (pw_restrict_event_create incoming)
          (pw_restrict_event_create_updated_at_ms incoming) (Some author_npub)
          (restrict_doc_add next) (restrict_doc_add_updated_at_ms next)
          (restrict_doc_add_by_npub next),
        mkOutcome true
          (pw_restrict_event_create incoming && negb (restrict_event_create stored))
          (oc_deleted_events outcome))
  else (next, outcome).

Definition merge_doc_flag (next : SquadContentPolicy) (stored : SquadContentPolicy)
    (incoming : SquadContentPolicyWire) (author_npub : string) (outcome : PolicyApplyOutcome)
    : SquadContentPolicy * PolicyApplyOutcome :=
  if pw_restrict_doc_add_updated_at_ms incoming >? restrict_doc_add_updated_at_ms stored
  then (mkPolicy (restrict_event_create next) (restrict_event_create_updated_at_ms next)
          (restrict_event_create_by_npub next) (pw_restrict_doc_add incoming)
          (pw_restrict_doc_add_updated_at_ms incoming) (Some author_npub),
        mkOutcome true (oc_event_create_turned_on outcome) (oc_deleted_events outcome))
  else (next, outcome).

Definition merge_policy (stored : SquadContentPolicy) (incoming : SquadContentPolicyWire)
    (author_npub : string) (author_is_admin : bool)
    : SquadContentPolicy * PolicyApplyOutcome :=
  let outcome := mkOutcome false false 0 in
  if negb author_is_admin then (stored, outcome)
  else
    let '(next, outcome) := merge_event_flag stored stored incoming author_npub outcome in
    merge_doc_flag next stored incoming author_npub outcome.

Definition upsert_policy (parent_id : string) (p : SquadContentPolicy) : Act unit :=
  exec_ (λ e, "Failed to store squad content policy: " +:+ e)
    (set_policies (λ m, <[parent_id := p]> m)).

Definition restriction_err (e : string) : string := "Failed to apply event restriction: " +:+ e.

(** The three [DELETE]s for one event. *)
Definition delete_event (event_id : string) : Act unit :=
  exec_ restriction_err (set_rsvps (filter (λ kr, kr.1.1 ≠ event_id))) ;!
  exec_ restriction_err (set_pending (filter (λ kr, p_record_id kr.2 ≠ event_id))) ;!
  exec_ restriction_err (set_events (delete event_id)).

(** The ids the restriction removes, in the order the query returns them. *)
Definition doomed_events (d : Db) (parent_id : string) (admin_npubs : list string) : list string :=
  (filter (λ kr : string * EventSqlRow,
     e_parent_id kr.2 = parent_id ∧ e_author_npub kr.2 ∉ admin_npubs)
    (map_to_list (db_events d))).*1.

Definition delete_restricted_events (parent_id : string) (admin_npubs : list string) : Act nat :=
  let! doomed := query restriction_err (λ d, doomed_events d parent_id admin_npubs) in
  foldM (λ _ event_id, delete_event event_id) tt doomed ;!
  mret (length doomed).

Definition apply_policy (incoming : SquadContentPolicyWire) (author_npub : string)
    (author_is_admin : bool) (admin_npubs : list string) : Act PolicyApplyOutcome :=
  tx (λ e, "Failed to open policy transaction: " +:+ e)
     (λ e, "Failed to commit squad content policy: " +:+ e)
    (let! stored := load_policy (pw_parent_id incoming) in
     let '(next, outcome) := merge_policy stored incoming author_npub author_is_admin in
     if negb (oc_changed outcome) then mret (outcome, false)
     else
       upsert_policy (pw_parent_id incoming) next ;!
       let! outcome :=
         if oc_event_create_turned_on outcome && negb (bool_decide (admin_npubs = []))
         then
           let! n := delete_restricted_events (pw_parent_id incoming) admin_npubs in
           mret (mkOutcome (oc_changed outcome) (oc_event_create_turned_on outcome) n)
         else mret outcome in
       mret (outcome, true)).

Definition build_set_wire (stored : SquadContentPolicy) (parent_id : string)
    (flag : PolicyFlag) (value : bool) (now_ms : Z) : SquadContentPolicyWire :=
  match flag with
  | RestrictEventCreate =>
      mkPolicyWire POLICY_SCHEMA parent_id value
        (Z.max now_ms (saturating_add (restrict_event_create_updated_at_ms stored) 1))
        (restrict_doc_add stored) (restrict_doc_add_updated_at_ms stored)
  | RestrictDocAdd =>
      mkPolicyWire POLICY_SCHEMA parent_id (restrict_event_create stored)
        (restrict_event_create_updated_at_ms stored) value
        (Z.max now_ms (saturating_add (restrict_doc_add_updated_at_ms stored) 1))
  end.

(** ** Ingest and commands *)

Definition now_ms : Act Z :=
  let! t := now in
  if t <? 0 then mthrow "second time provided was later than self"
  else mret (wrap64 t).

Definition require_parent_group (mls_group_id parent_id : string) : result unit :=
  if side_effect_parent_matches_chat mls_group_id parent_id then Ok tt
  else Err ERR_WRONG_GROUP.

Definition require_admin (role : SquadGroupRole) : result unit :=
  if negb (is_member role) then Err ERR_NOT_MEMBER
  else if negb (is_admin role) then Err ERR_NOT_ADMIN
  else Ok tt.

Definition view_roles (participants admins : list string) (caller_npub : string) : bool * bool :=
  let is_member npub := existsb (λ p, bool_decide (trim p = trim npub)) participants in
  let caller_is_admin :=
    is_member caller_npub && existsb (λ a, bool_decide (a = trim caller_npub)) admins in
  (caller_is_admin, existsb is_member admins).

Section app.
Context `{SerdeText} `{Nostr}.

Definition apply_and_emit (mls_group_id : string) (wire : SquadContentPolicyWire)
    (author_npub : string) (author_is_admin : bool) : Act PolicyApplyOutcome :=
  let! admins :=
    if author_is_admin && pw_restrict_event_create wire
    then group_admin_npubs mls_group_id else mret [] in
  let! outcome := with_conn (apply_policy wire author_npub author_is_admin admins) in
  (if oc_changed outcome
   then output (Emit "squad_content_policy_updated"
                 (JObj [("parentId", JStr (pw_parent_id wire))]))
   else mret tt) ;!
  (if (0 <? oc_deleted_events outcome)%nat
   then output (Emit "squad_event_replica_updated"
                 (JObj [("parentId", JStr (pw_parent_id wire)); ("eventId", JNull)]))
   else mret tt) ;!
  mret outcome.

Definition process_rumor (rumor : RumorEvent) (context : RumorContext)
    : Act RumorProcessingResult :=
  match cx_conversation_type context with
  | CDirectMessage => mret Ignored
  | CMlsGroup =>
      let! now := now_ms in
      match try_parse_wire (ru_content rumor) now with
      | None => mret SquadRecordSilent
      | Some wire =>
          if negb (is_okb (require_parent_group (cx_conversation_id context)
                             (pw_parent_id wire)))
          then mret SquadRecordSilent
          else
            let tag_parent := find_custom (ru_tags rumor) "parent" ≫= tag_content in
            if match tag_parent with
               | Some p => negb (bool_decide (p = pw_parent_id wire))
               | None => false
               end
            then mret SquadRecordSilent
            else
              let! _ := query (λ _, "App handle not initialized") (λ _, tt) in
              let! author := of_result (map_err_with (λ e, "pubkey bech32: " +:+ e)
                                          (to_bech32 (ru_pubkey rumor))) in
              let! role := group_role (cx_conversation_id context) author in
              (if is_admin role
               then apply_and_emit (cx_conversation_id context) wire author true ;! mret tt
               else mret tt) ;!
              mret SquadRecordSilent
      end
  end.

Definition chat_participants (chat_id : string) : Act (list string) :=
  let! loaded := modify (λ d, (loaded_participants (st_chats d) chat_id, d)) in
  match loaded with
  | Some parts => mret parts
  | None =>
      let! r := attempt (with_conn
        (let! raw := query id (λ d, ct_participants <$> db_chats d !! chat_id) in
         mret (default [] (raw ≫= de_strings)))) in
      mret (default [] (res_ok r))
  end.

Definition policy_view (mls_group_id parent_id caller_npub : string)
    : Act SquadContentPolicyView :=
  let! policy := with_conn (load_policy parent_id) in
  let! admins := group_admin_npubs mls_group_id in
  let! participants := chat_participants (trim mls_group_id) in
  let '(caller_is_admin, admin_is_member) := view_roles participants admins caller_npub in
  mret (mkPolicyView (restrict_event_create policy)
    (restrict_event_create_updated_at_ms policy) (restrict_doc_add policy)
    (restrict_doc_add_updated_at_ms policy) caller_is_admin admin_is_member).

Definition get_squad_content_policy (mls_group_id parent_id : string)
    : Act SquadContentPolicyView :=
  of_result (require_parent_group mls_group_id parent_id) ;!
  let! caller := get_current_account in
  policy_view mls_group_id parent_id caller.

Definition policy_rumor (parent_id content pk : string) (now : Z) : OutRumor :=
  mkOutRumor content
    [["d"; SQUAD_CONTENT_POLICY_D_TAG]; ["parent"; parent_id]; ["ms"; pretty (Z.rem now 1000)]]
    None pk.

Definition set_squad_content_policy (mls_group_id parent_id flag : string) (value : bool)
    : Act SquadContentPolicyView :=
  require_key_derivation_version_2_on_handle ;!
  let! flag := of_result (PolicyFlag_parse flag) in
  of_result (require_parent_group mls_group_id parent_id) ;!
  let! (pk, caller) := signer_identity in
  let! role := group_role mls_group_id caller in
  of_result (require_admin role) ;!
  let! stored := with_conn (load_policy parent_id) in
  let! now := now_ms in
  let wire := build_set_wire stored parent_id flag value now in
  send id (SendMls mls_group_id (policy_rumor parent_id (to_text (ser_policy wire)) pk now)) ;!
  apply_and_emit mls_group_id wire caller true ;!
  policy_view mls_group_id parent_id caller.
End app.
