(* ===== verification/SquadEvent.v ===== *)
(** * The event replica ([squad_event.rs], second half)

    The SQLite replica of a squad's events: creates, updates, cancels and RSVPs
    applied under the author's role, operations that arrive before their create
    queued and drained later, and the listing for the webview. *)

From S2P Require Import Prelude World Json Chat Schema Records Pending.
From S2P Require Import CivilTime ContentPolicy EventModel.

Record EventRow : Type := mkEventRow {
  row_event_id : string;
  row_parent_id : string;
  row_mls_group_id : string;
  row_series_id : option string;
  row_fields : EventFields;
  row_status : EventStatus;
  row_author_npub : string;
  row_created_at_ms : Z;
  row_updated_at_ms : Z;
  row_updated_by_npub : string;
  row_content_hash : string;
}.

(** Rumor identity for one op. *)
Record OpMeta : Type := mkOpMeta {
  om_rumor_id : string;
  om_mls_group_id : string;
  om_signer_npub : string;
}.

Module Applied.
Inductive t : Type :=
| Changed (inserted : bool)
| Replay
| Queued
| SeriesCard
| Ignored.

#[export] Instance t_eq_dec : EqDecision t.
Proof. solve_decision. Defined.

Definition changed (a : t) : bool :=
  match a with
  | Changed _ => true
  | _ => false
  end.
End Applied.

Record SquadEventRsvpDto : Type := mkRsvpDto {
  rd_member_npub : string; rd_status : RsvpStatus; rd_updated_at_ms : Z;
}.

Record SquadEventDto : Type := mkEventDto {
  dto_id : string;
  dto_parent_id : string;
  dto_mls_group_id : string;
  dto_series_id : option string;
  dto_fields : EventFields;
  dto_status : EventStatus;
  dto_author_npub : string;
  dto_created_at_ms : Z;
  dto_updated_at_ms : Z;
  dto_updated_by_npub : string;
  dto_rsvps : list SquadEventRsvpDto;
  dto_my_rsvp : option RsvpStatus;
  dto_can_edit : bool;
}.

(** Author or admin, and still a member. *)
Definition may_edit (role : SquadGroupRole) (is_author : bool) : bool :=
  is_member role && (is_author || is_admin role).

Definition may_create (parent_id : string) (role : SquadGroupRole) : Act bool :=
  if negb (is_member role) then mret false
  else if is_admin role then mret true
  else
    let! p := load_policy parent_id in
    mret (negb (restrict_event_create p)).

(** The column values of the [INSERT] of [insert_create]. *)
Definition new_event_row (parent_id mls_group_id : string) (series_id : option string)
    (f : EventFields) (author_npub : string) (ms : Z) (hash : string) : EventSqlRow :=
  mkEventSqlRow parent_id mls_group_id series_id (f_kind f) (f_title f) (f_summary f)
    (f_start_unix f) (f_end_unix f) (f_start_date f) (f_end_date f) (f_start_tzid f)
    (Place_as_str (f_place f)) (f_location f) (f_channel_id f) "active"
    author_npub ms ms author_npub hash.

(** The first [UPDATE] of [apply_write]. *)
Definition update_event_row (f : EventFields) (ms : Z) (by_npub hash : string)
    (r : EventSqlRow) : EventSqlRow :=
  mkEventSqlRow (e_parent_id r) (e_mls_group_id r) (e_series_id r) (f_kind f) (f_title f)
    (f_summary f) (f_start_unix f) (f_end_unix f) (f_start_date f) (f_end_date f)
    (f_start_tzid f) (Place_as_str (f_place f)) (f_location f) (f_channel_id f)
    (e_status r) (e_author_npub r) (e_created_at_ms r) ms by_npub hash.

(** The second [UPDATE]. *)
Definition cancel_event_row (r : EventSqlRow) : EventSqlRow :=
  mkEventSqlRow (e_parent_id r) (e_mls_group_id r) (e_series_id r) (e_nip52_kind r)
    (e_title r) (e_summary r) (e_start_unix r) (e_end_unix r) (e_start_date r)
    (e_end_date r) (e_start_tzid r) (e_place_kind r) (e_location r) (e_channel_id r)
    "cancelled" (e_author_npub r) (e_created_at_ms r) (e_updated_at_ms r)
    (e_updated_by_npub r) (e_content_hash r).

Definition upsert_rsvp (event_id member_npub : string) (status : RsvpStatus)
    (updated_at_ms : Z) (rumor_id : string) : Act Applied.t :=
  let! stored := query (λ e, "Failed to load squad event rsvp: " +:+ e)
                   (λ d, db_rsvps d !! (event_id, member_npub)) in
  let write :=
    exec_ (λ e, "Failed to store squad event rsvp: " +:+ e)
      (set_rsvps (insert (event_id, member_npub)
        (mkRsvpRow (RsvpStatus_as_str status) updated_at_ms rumor_id))) ;!
    mret (Applied.Changed false) in
  match stored with
  | Some r =>
      if bool_decide (rs_rumor_id r = rumor_id) then mret Applied.Replay
      else if updated_at_ms <=? rs_updated_at_ms r then mret Applied.Ignored
      else write
  | None => write
  end.

Definition purge_expired_pending (now_ms : Z) : Act unit :=
  exec_ (λ e, "Failed to purge squad event ops: " +:+ e)
    (set_pending (purge_rows (saturating_sub now_ms PENDING_TTL_MS))).

Definition my_rsvp_updated_at (event_id npub : string) : Act (option Z) :=
  query id (λ d, rs_updated_at_ms <$> db_rsvps d !! (event_id, npub)).

Section replica.
Context `{Chrono} `{SerdeText} `{Hashing} `{Rusqlite}.

Definition row_from_sql (event_id : string) (r : EventSqlRow) : result EventRow :=
  let? kind := if (0 <=? e_nip52_kind r) && (e_nip52_kind r <=? 65535)
               then Ok (e_nip52_kind r) else Err (invalid_column_type 4 "nip52_kind") in
  let? place := ok_or (Place_parse (e_place_kind r)) (invalid_column_type 12 "place_kind") in
  let? status := ok_or (EventStatus_parse (e_status r)) (invalid_column_type 15 "status") in
  Ok (mkEventRow event_id (e_parent_id r) (e_mls_group_id r) (e_series_id r)
    (mkFields kind (e_title r) (e_summary r) (e_start_unix r) (e_end_unix r)
      (e_start_date r) (e_end_date r) (e_start_tzid r) place (e_location r)
      (e_channel_id r))
    status (e_author_npub r) (e_created_at_ms r) (e_updated_at_ms r)
    (e_updated_by_npub r) (e_content_hash r)).

Definition load_row (event_id : string) : Act (option EventRow) :=
  query_row (λ e, "Failed to load squad event: " +:+ e)
    (λ d, transpose (row_from_sql event_id <$> db_events d !! event_id)).

Definition insert_create (event_id : string) (w : EventWire) (f : EventFields)
    (meta : OpMeta) (role : SquadGroupRole) : Act Applied.t :=
  let! ok := may_create (w_parent_id w) role in
  if negb ok then mret Applied.Ignored
  else
    tx (λ e, "Failed to begin squad event insert: " +:+ e)
       (λ e, "Failed to commit squad event insert: " +:+ e)
      (insert_row (λ e, "Failed to insert squad event: " +:+ e)
         (λ d, match db_events d !! event_id with
               | Some _ => Err (constraint_failed "squad_events.event_id")
               | None => Ok (tt, set_events (insert event_id
                   (new_event_row (w_parent_id w) (om_mls_group_id meta) (w_series_id w) f
                      (om_signer_npub meta) (w_updated_at_ms w)
                      (content_hash w (om_signer_npub meta)))) d)
               end) ;!
       (match w_rsvp w with
        | Some status =>
            upsert_rsvp event_id (om_signer_npub meta) status (w_updated_at_ms w)
              (om_rumor_id meta) ;! mret tt
        | None => mret tt
        end) ;!
       mret (Applied.Changed true, true)).

(** Fields: newest wins; cancel: sticky. *)
Definition apply_write (row : EventRow) (w : EventWire) (f : EventFields)
    (meta : OpMeta) (role : SquadGroupRole) : Act Applied.t :=
  if negb (bool_decide (row_mls_group_id row = om_mls_group_id meta))
     || negb (bool_decide (row_parent_id row = w_parent_id w))
  then mret Applied.Ignored
  else if negb (may_edit role (bool_decide (om_signer_npub meta = row_author_npub row)))
  then mret Applied.Ignored
  else
    let hash := content_hash w (om_signer_npub meta) in
    if bool_decide (hash = row_content_hash row) then mret Applied.Replay
    else
      let newer := w_updated_at_ms w >? row_updated_at_ms row in
      let cancels := bool_decide (w_op w = Cancel)
                     && negb (bool_decide (row_status row = Cancelled)) in
      (if newer
       then exec_ (λ e, "Failed to update squad event: " +:+ e)
              (set_events (alter (update_event_row f (w_updated_at_ms w)
                 (om_signer_npub meta) hash) (row_event_id row)))
       else mret tt) ;!
      (if cancels
       then exec_ (λ e, "Failed to cancel squad event: " +:+ e)
              (set_events (alter cancel_event_row (row_event_id row)))
       else mret tt) ;!
      mret (if newer || cancels then Applied.Changed false else Applied.Ignored).

Definition queue (event_id : string) (w : EventWire) (meta : OpMeta) (now_ms : Z)
    : Act Applied.t :=
  purge_expired_pending now_ms ;!
  let payload := to_text (ser_wire w) in
  exec_ (λ e, "Failed to queue squad event op: " +:+ e)
    (set_pending (insert_or_ignore (om_rumor_id meta)
      (mkPendingRow event_id (w_parent_id w) (om_mls_group_id meta) (om_signer_npub meta)
         (Op_as_str (w_op w)) payload (w_updated_at_ms w)))) ;!
  exec_ (λ e, "Failed to trim squad event ops: " +:+ e)
    (set_pending (trim_rows (w_parent_id w) (om_signer_npub meta) MAX_PENDING_PER_AUTHOR)) ;!
  mret Applied.Queued.

Definition apply_op (w : EventWire) (meta : OpMeta) (role : SquadGroupRole) (now_ms : Z)
    : Act Applied.t :=
  if negb (is_member role)
     || negb (side_effect_parent_matches_chat (om_mls_group_id meta) (w_parent_id w))
  then mret Applied.Ignored
  else if bool_decide (w_op w = SeriesCard) then
    let! ok := if bool_decide (is_Some (series_card_content w))
               then may_create (w_parent_id w) role else mret false in
    mret (if (ok : bool) then Applied.SeriesCard else Applied.Ignored)
  else
    match w_id w with
    | None => mret Applied.Ignored
    | Some event_id =>
        let! row := load_row event_id in
        match w_op w with
        | Create =>
            match fields_from_wire w with
            | None => mret Applied.Ignored
            | Some fields =>
                match row with
                | Some row =>
                    if bool_decide (row_series_id row = w_series_id w)
                    then apply_write row w fields meta role
                    else mret Applied.Ignored
                | None => insert_create event_id w fields meta role
                end
            end
        | Update | Cancel =>
            match fields_from_wire w with
            | None => mret Applied.Ignored
            | Some fields =>
                if bool_decide (w_op w = Cancel)
                   && negb (bool_decide (w_status w = Some (EventStatus_as_str Cancelled)))
                then mret Applied.Ignored
                else
                  match row with
                  | Some row => apply_write row w fields meta role
                  | None => queue event_id w meta now_ms
                  end
            end
        | Rsvp =>
            match w_status w ≫= RsvpStatus_parse with
            | None => mret Applied.Ignored
            | Some status =>
                match row with
                | Some row =>
                    if negb (bool_decide (row_mls_group_id row = om_mls_group_id meta))
                       || negb (bool_decide (row_parent_id row = w_parent_id w))
                    then mret Applied.Ignored
                    else upsert_rsvp event_id (om_signer_npub meta) status
                           (w_updated_at_ms w) (om_rumor_id meta)
                | None => queue event_id w meta now_ms
                end
            end
        | SeriesCard => mret Applied.Ignored
        end
    end.

Definition pending_for_stored (event_id : string) : Act (option (string * list string)) :=
  let! row := load_row event_id in
  match row with
  | None => mret None
  | Some row =>
      let! authors := query id (λ d, authors_of event_id (db_pending d)) in
      mret (Some (row_mls_group_id row, authors))
  end.

(** One iteration of the drain loop. *)
Definition drain_one (event_id : string) (role_of : string → SquadGroupRole) (now_ms : Z)
    (changed : bool) (kr : string * PendingRow) : Act bool :=
  let '(rumor_id, r) := kr in
  let! changed :=
    match parse_wire (p_payload_json r) with
    | Some w =>
        if bool_decide (w_id w = Some event_id) then
          let meta := mkOpMeta rumor_id (p_mls_group_id r) (p_author_npub r) in
          let! applied := apply_op w meta (role_of (p_author_npub r)) now_ms in
          mret (changed || Applied.changed applied)
        else mret changed
    | None => mret changed
    end in
  exec_ (λ e, "Failed to clear squad event op: " +:+ e) (set_pending (delete rumor_id)) ;!
  mret changed.

Definition drain_pending (event_id : string) (role_of : string → SquadGroupRole)
    (now_ms : Z) : Act bool :=
  purge_expired_pending now_ms ;!
  let! row := load_row event_id in
  match row with
  | None => mret false
  | Some _ =>
      let! pending := query id (λ d, rows_of event_id (db_pending d)) in
      foldM (drain_one event_id role_of now_ms) false pending
  end.

Definition card_content (w : EventWire) (applied : Applied.t) : option json :=
  match w_op w, applied with
  | Create, (Applied.Changed true | Applied.Replay) =>
      match w_series_id w with
      | None =>
          fields ← fields_from_wire w;
          id ← w_id w;
          Some (created_card_content id (w_parent_id w) fields)
      | Some _ => None
      end
  | SeriesCard, Applied.SeriesCard => series_card_content w
  | _, _ => None
  end.

(** ** Listing *)

(** The RSVP rows of the parent's events, oldest first. *)
Definition rsvp_rows (d : Db) (parent_id : string) : list ((string * string) * RsvpRow) :=
  order_by_ms (λ kr : (string * string) * RsvpRow, (rs_updated_at_ms kr.2, kr.1.2))
    (filter (λ kr, e_parent_id <$> db_events d !! kr.1.1 = Some parent_id)
      (map_to_list (db_rsvps d))).

(** [rsvps.entry(event_id).or_default().push(dto)]; undecodable rows are skipped. *)
Definition push_rsvp (m : gmap string (list SquadEventRsvpDto))
    (kr : (string * string) * RsvpRow) : gmap string (list SquadEventRsvpDto) :=
  match RsvpStatus_parse (rs_status kr.2) with
  | None => m
  | Some status =>
      <[kr.1.1 := default [] (m !! kr.1.1) ++
                  [mkRsvpDto kr.1.2 status (rs_updated_at_ms kr.2)]]> m
  end.

Definition event_rows (d : Db) (parent_id : string) : list (string * EventSqlRow) :=
  order_by_ms (λ kr : string * EventSqlRow, (e_created_at_ms kr.2, kr.1))
    (filter (λ kr, e_parent_id kr.2 = parent_id) (map_to_list (db_events d))).

Definition event_dto (rsvps : gmap string (list SquadEventRsvpDto)) (caller_npub : string)
    (row : EventRow) : SquadEventDto :=
  let rsvps := default [] (rsvps !! row_event_id row) in
  mkEventDto (row_event_id row) (row_parent_id row) (row_mls_group_id row)
    (row_series_id row) (row_fields row) (row_status row) (row_author_npub row)
    (row_created_at_ms row) (row_updated_at_ms row) (row_updated_by_npub row) rsvps
    (rd_status <$> find_first (λ r, bool_decide (rd_member_npub r = caller_npub)) rsvps)
    (bool_decide (row_author_npub row = caller_npub)).

Definition load_events (parent_id caller_npub : string) : Act (list SquadEventDto) :=
  let! rows := query id (λ d, rsvp_rows d parent_id) in
  let rsvps := foldl push_rsvp ∅ rows in
  (* [prepare] and [query_map] *)
  query id (λ _, tt) ;!
  let! rows := query_row (λ e, "Failed to list squad events: " +:+ e)
    (λ d, rmapM (λ kr, row_from_sql kr.1 kr.2) (event_rows d parent_id)) in
  mret (event_dto rsvps caller_npub <$> rows).
End replica.
