(* ===== verification/SquadEventCommands.v ===== *)
(** * Ingest and commands of the events ([squad_event.rs], async glue)

    The rumor handler and the webview commands: role lookup, the shared apply
    path that drains queued children, the outgoing rumor, the local card. *)

From stdpp Require Import pretty.
From S2P Require Import Prelude World Json Chat Schema Records Pending.
From S2P Require Import CivilTime ContentPolicy EventModel SquadEvent.

(** [unwrap_or(0)] before the epoch; [as i64] otherwise. *)
Definition now_ms : Act Z :=
  let! t := now in
  mret (if t <? 0 then 0 else wrap64 t).

Definition emit_replica_updated (parent_id : string) (event_id : option string) : Act unit :=
  let! handle := attempt (query id (λ _, tt)) in
  if is_okb handle
  then output (Emit REPLICA_UPDATED_EVENT
                (JObj [("parentId", JStr parent_id); ("eventId", json_opt JStr event_id)]))
  else mret tt.

Definition require_id (value what : string) : result unit :=
  if blank value then Err (what +:+ " required") else Ok tt.

Definition ensure_announcements_group (mls_group_id parent_id : string) : result unit :=
  if side_effect_parent_matches_chat mls_group_id parent_id then Ok tt
  else Err err.WRONG_GROUP.

Definition ensure_may_create (parent_id : string) (role : SquadGroupRole) : Act unit :=
  if negb (is_member role) then mthrow err.NOT_MEMBER
  else
    let! ok := may_create parent_id role in
    if negb ok then mthrow err.CREATE_RESTRICTED else mret tt.

(** The [seen] loop of [validate_series_ids]. *)
Fixpoint distinct_ids (ids : list string) (seen : gset string) : bool :=
  match ids with
  | [] => true
  | id :: ids' =>
      negb (blank id) && negb (bool_decide (id ∈ seen)) && distinct_ids ids' ({[id]} ∪ seen)
  end.

Definition validate_series_ids (series_id : string) (event_ids : list string) : result unit :=
  if blank series_id || negb (bool_decide (length event_ids = WEEKLY_SERIES_COUNT))
  then Err err.INVALID_SERIES
  else if distinct_ids event_ids ∅ then Ok tt
  else Err err.INVALID_SERIES.

Section commands.
Context `{Chrono} `{SerdeText} `{Hashing} `{Rusqlite} `{Nostr}.

(** The roles of the queued authors, looked up one by one. *)
Definition roles_of (group_id : string) (authors : list string)
    : Act (gmap string SquadGroupRole) :=
  foldM (λ roles author,
    let! role := group_role group_id author in
    mret (<[author := role]> roles)) ∅ authors.

Definition drain_stored (event_id : string) : Act bool :=
  let! stored := with_conn (pending_for_stored event_id) in
  match stored with
  | None => mret false
  | Some (_, []) => mret false
  | Some (group_id, authors) =>
      let! roles := roles_of group_id authors in
      with_conn
        (let! now := now_ms in
         drain_pending event_id (λ npub, default role_default (roles !! npub)) now)
  end.

(** [Applied::Queued | Applied::Ignored] *)
Definition settled (applied : Applied.t) : bool :=
  match applied with
  | Applied.Queued | Applied.Ignored => false
  | _ => true
  end.

Definition apply_and_emit (w : EventWire) (meta : OpMeta) (role : SquadGroupRole)
    : Act Applied.t :=
  let! applied := with_conn (let! now := now_ms in apply_op w meta role now) in
  let! drained :=
    match w_id w with
    | Some id => if settled applied then drain_stored id else mret false
    | None => mret false
    end in
  (if Applied.changed applied || drained
   then emit_replica_updated (w_parent_id w) (w_id w) else mret tt) ;!
  mret applied.

Definition process_rumor (rumor : RumorEvent) (context : RumorContext)
    : Act RumorProcessingResult :=
  match cx_conversation_type context with
  | CDirectMessage => mret SquadRecordSilent
  | CMlsGroup =>
      match parse_wire (ru_content rumor) with
      | None => mret SquadRecordSilent
      | Some w =>
          let group_id := cx_conversation_id context in
          if negb (side_effect_parent_matches_chat group_id (w_parent_id w))
          then mret SquadRecordSilent
          else
            let! now := now_ms in
            if negb (stamp_acceptable (w_updated_at_ms w) now) then mret SquadRecordSilent
            else
              let! _ := query (λ _, "App handle not initialized") (λ _, tt) in
              let! signer := of_result (map_err_with (λ e, "pubkey bech32: " +:+ e)
                                          (to_bech32 (ru_pubkey rumor))) in
              let! role := group_role group_id signer in
              let meta := mkOpMeta (ru_id rumor) group_id signer in
              let! applied := apply_and_emit w meta role in
              match card_content w applied with
              | None => mret SquadRecordSilent
              | Some content =>
                  mret (SquadRecordCard (card_message (ru_id rumor) (to_text content)
                    (extract_millisecond_timestamp rumor) (cx_is_mine context) signer))
              end
      end
  end.

(** ** Commands *)

Definition row_in_parent (mls_group_id parent_id event_id : string) : Act EventRow :=
  let! row := load_row event_id in
  of_result (ok_or
    (r ← row;
     if bool_decide (row_parent_id r = parent_id) && bool_decide (row_mls_group_id r = mls_group_id)
     then Some r else None)
    err.NOT_FOUND).

Definition editable_row (mls_group_id parent_id event_id npub : string)
    (role : SquadGroupRole) : Act EventRow :=
  if negb (is_member role) then mthrow err.NOT_MEMBER
  else
    let! row := row_in_parent mls_group_id parent_id event_id in
    if negb (bool_decide (row_author_npub row = npub)) && negb (is_admin role)
    then mthrow err.NOT_EDITABLE
    else mret row.

(** The rumor [send_wire] builds. *)
Definition wire_rumor (d_tag parent_id content pk : string) (updated_at_ms : Z) (card : bool)
    : OutRumor :=
  let at_ms := Z.max 0 updated_at_ms in
  mkOutRumor content
    ([["d"; d_tag]; ["parent"; parent_id]; ["ms"; pretty (at_ms `mod` 1000)]]
     ++ (if card then [["pacto_bucket"; "announcements"]] else []))
    (Some (at_ms / 1000)) pk.

Definition send_wire (mls_group_id parent_id pk : string) (w : EventWire) (card : bool)
    : Act string :=
  let built := wire_rumor SQUAD_EVENT_D_TAG parent_id (to_text (ser_wire w)) pk
                 (w_updated_at_ms w) card in
  let! rumor_id := of_result (ok_or (built_id built) "squad event rumor id missing") in
  send id (SendMls mls_group_id built) ;!
  mret rumor_id.

Definition set_can_edit (dto : SquadEventDto) (b : bool) : SquadEventDto :=
  mkEventDto (dto_id dto) (dto_parent_id dto) (dto_mls_group_id dto) (dto_series_id dto)
    (dto_fields dto) (dto_status dto) (dto_author_npub dto) (dto_created_at_ms dto)
    (dto_updated_at_ms dto) (dto_updated_by_npub dto) (dto_rsvps dto) (dto_my_rsvp dto) b.

Definition list_squad_events (parent_id : string) : Act (list SquadEventDto) :=
  let! caller := get_current_account in
  let! events := with_conn (load_events parent_id caller) in
  let! (_, out) := foldM (λ '(roles, out) ev,
    let! role :=
      match (roles : gmap string SquadGroupRole) !! dto_mls_group_id ev with
      | Some role => mret role
      | None => group_role (dto_mls_group_id ev) caller
      end in
    mret (<[dto_mls_group_id ev := role]> roles,
          out ++ [set_can_edit ev (may_edit role (dto_can_edit ev))])) (∅, []) events in
  mret out.

Definition send_squad_event_create (mls_group_id parent_id event_id : string)
    (event : SquadEventInput) : Act unit :=
  require_key_derivation_version_2_on_handle ;!
  of_result (ensure_announcements_group mls_group_id parent_id) ;!
  of_result (require_id event_id "Event id") ;!
  let! fields := of_result (fields_from_input event) in
  let! (pk, npub) := signer_identity in
  let! role := group_role mls_group_id npub in
  let! existing := with_conn (ensure_may_create parent_id role ;! load_row event_id) in
  match existing with
  | Some row =>
      if bool_decide (row_author_npub row = npub) && bool_decide (row_series_id row = None)
         && bool_decide (row_parent_id row = parent_id)
      then mret tt
      else mthrow "Event id already in use"
  | None =>
      let! now := now_ms in
      let w := event_wire Create event_id parent_id None fields now in
      let! rumor_id := send_wire mls_group_id parent_id pk w true in
      let meta := mkOpMeta rumor_id mls_group_id npub in
      apply_and_emit w meta role ;!
      store_local_card mls_group_id
        (card_message rumor_id (to_text (created_card_content event_id parent_id fields))
           (Z.max 0 (w_updated_at_ms w)) true npub)
  end.

(** One occurrence of the series loop. *)
Definition send_occurrence (mls_group_id parent_id series_id pk npub : string)
    (role : SquadGroupRole) (event_id : string) (fields : EventFields)
    (row : option EventRow) : Act unit :=
  match row with
  | Some row =>
      if bool_decide (row_series_id row = Some series_id)
         && bool_decide (row_author_npub row = npub)
         && bool_decide (row_parent_id row = parent_id)
      then mret tt
      else mthrow "Event id already in use"
  | None =>
      let! now := now_ms in
      let w := event_wire Create event_id parent_id (Some series_id) fields now in
      let! rumor_id := send_wire mls_group_id parent_id pk w false in
      apply_and_emit w (mkOpMeta rumor_id mls_group_id npub) role ;!
      mret tt
  end.

(** [iter().map(|id| load_row(c, id)).collect()] *)
Definition load_rows (event_ids : list string) : Act (list (option EventRow)) :=
  foldM (λ rows id, let! row := load_row id in mret (rows ++ [row])) [] event_ids.

Definition send_squad_event_series (mls_group_id parent_id series_id : string)
    (event_ids : list string) (event : SquadEventInput) : Act unit :=
  require_key_derivation_version_2_on_handle ;!
  of_result (ensure_announcements_group mls_group_id parent_id) ;!
  of_result (validate_series_ids series_id event_ids) ;!
  let! occurrences := of_result (occurrences event WEEKLY_SERIES_COUNT) in
  let! (pk, npub) := signer_identity in
  let! role := group_role mls_group_id npub in
  let! existing := with_conn (ensure_may_create parent_id role ;! load_rows event_ids) in
  foldM (λ _ '((event_id, fields), row),
           send_occurrence mls_group_id parent_id series_id pk npub role event_id fields row)
    tt (zip (zip event_ids occurrences) existing) ;!
  match head occurrences with
  | None => mthrow "index out of bounds"
  | Some first =>
      let! now := now_ms in
      let card := series_card_wire series_id parent_id first WEEKLY_SERIES_COUNT now in
      let! content := of_result (ok_or (series_card_content card) "Invalid series card") in
      let! rumor_id := send_wire mls_group_id parent_id pk card true in
      store_local_card mls_group_id
        (card_message rumor_id (to_text content) (Z.max 0 (w_updated_at_ms card)) true npub)
  end.

(** The stamp of an own write: after the stored one, even past its clock. *)
Definition next_stamp (now stored : Z) : Z := Z.max now (saturating_add stored 1).

Definition send_squad_event_update (mls_group_id parent_id event_id : string)
    (event : SquadEventInput) : Act unit :=
  require_key_derivation_version_2_on_handle ;!
  of_result (ensure_announcements_group mls_group_id parent_id) ;!
  let! fields := of_result (fields_from_input event) in
  let! (pk, npub) := signer_identity in
  let! role := group_role mls_group_id npub in
  let! row := with_conn (editable_row mls_group_id parent_id event_id npub role) in
  if bool_decide (row_status row = Cancelled) then mthrow err.NOT_EDITABLE
  else
    let! now := now_ms in
    let stamp := next_stamp now (row_updated_at_ms row) in
    let w := event_wire Update event_id parent_id (row_series_id row) fields stamp in
    let! rumor_id := send_wire mls_group_id parent_id pk w false in
    apply_and_emit w (mkOpMeta rumor_id mls_group_id npub) role ;!
    mret tt.

Definition send_squad_event_cancel (mls_group_id parent_id event_id : string) : Act unit :=
  require_key_derivation_version_2_on_handle ;!
  of_result (ensure_announcements_group mls_group_id parent_id) ;!
  let! (pk, npub) := signer_identity in
  let! role := group_role mls_group_id npub in
  let! row := with_conn (editable_row mls_group_id parent_id event_id npub role) in
  if bool_decide (row_status row = Cancelled) then mret tt
  else
    let! now := now_ms in
    let stamp := next_stamp now (row_updated_at_ms row) in
    let w := event_wire Cancel event_id parent_id (row_series_id row) (row_fields row) stamp in
    let! rumor_id := send_wire mls_group_id parent_id pk w false in
    apply_and_emit w (mkOpMeta rumor_id mls_group_id npub) role ;!
    mret tt.

(** The lookup closure of [send_squad_event_rsvp]. *)
Definition rsvp_target (mls_group_id parent_id event_id npub : string) : Act (option Z) :=
  let! row := row_in_parent mls_group_id parent_id event_id in
  if bool_decide (row_status row = Cancelled) then mthrow err.NOT_EDITABLE
  else my_rsvp_updated_at event_id npub.

Definition send_squad_event_rsvp (mls_group_id parent_id event_id : string)
    (status : RsvpStatus) : Act unit :=
  require_key_derivation_version_2_on_handle ;!
  of_result (ensure_announcements_group mls_group_id parent_id) ;!
  let! (pk, npub) := signer_identity in
  let! role := group_role mls_group_id npub in
  if negb (is_member role) then mthrow err.NOT_MEMBER
  else
    let! previous := with_conn (rsvp_target mls_group_id parent_id event_id npub) in
    let! now := now_ms in
    let stamp := match previous with
                 | Some prev => next_stamp now prev
                 | None => now
                 end in
    let w := rsvp_wire event_id parent_id status stamp in
    let! rumor_id := send_wire mls_group_id parent_id pk w false in
    apply_and_emit w (mkOpMeta rumor_id mls_group_id npub) role ;!
    mret tt.
End commands.
