(* ===== verification/EventSpec.v ===== *)
(** * The event replica as pure state transformers

    [apply_spec] says what one operation does to the database when nothing
    fails; the effectful [apply_op] is shown to refine it: an [Ok] outcome is the
    specification's, an error leaves the database as it was or after a prefix of
    the operation's statements ([apply_op_dwp]). *)

From S2P Require Import Prelude World Json Chat Schema Records Pending.
From S2P Require Import CivilTime ContentPolicy EventModel SquadEvent.

Notation Obs := (World.Obs Db Effect).

(** ** Raw rows and decoded rows *)

Section decode.
Context `{Rusqlite}.

Definition decodes (id : string) (r : EventSqlRow) (row : EventRow) : Prop :=
  row_from_sql id r = Ok row.

Record decoded (id : string) (r : EventSqlRow) (row : EventRow) : Prop := {
  dc_id : row_event_id row = id;
  dc_parent : row_parent_id row = e_parent_id r;
  dc_group : row_mls_group_id row = e_mls_group_id r;
  dc_series : row_series_id row = e_series_id r;
  dc_author : row_author_npub row = e_author_npub r;
  dc_created : row_created_at_ms row = e_created_at_ms r;
  dc_updated : row_updated_at_ms row = e_updated_at_ms r;
  dc_by : row_updated_by_npub row = e_updated_by_npub r;
  dc_hash : row_content_hash row = e_content_hash r;
  dc_status : e_status r = EventStatus_as_str (row_status row);
  dc_kind : f_kind (row_fields row) = e_nip52_kind r ∧ 0 ≤ e_nip52_kind r ≤ 65535;
  dc_place : e_place_kind r = Place_as_str (f_place (row_fields row));
}.

Lemma EventStatus_parse_inv s st : EventStatus_parse s = Some st → s = EventStatus_as_str st.
Proof. unfold EventStatus_parse. repeat case_decide; naive_solver. Qed.
Lemma Place_parse_inv s p : Place_parse s = Some p → s = Place_as_str p.
Proof. unfold Place_parse. repeat case_decide; naive_solver. Qed.

Lemma row_from_sql_ok id r row : row_from_sql id r = Ok row → decoded id r row.
Proof.
  unfold row_from_sql. intros (kind & Hk & Hr)%rbind_ok.
  apply rbind_ok in Hr as (place & Hp & Hr). apply rbind_ok in Hr as (st & Hs & [= <-]).
  destruct (EventStatus_parse (e_status r)) eqn:Es; [|done].
  destruct (Place_parse (e_place_kind r)) eqn:Ep; [|done]. simplify_eq/=.
  destruct (_ && _) eqn:Eb; [|done]. simplify_eq/=. bool_facts.
  split; try done; simpl; [by apply EventStatus_parse_inv|by apply Place_parse_inv].
Qed.

Definition row_ok (r : EventSqlRow) : Prop :=
  0 ≤ e_nip52_kind r ≤ 65535 ∧ is_Some (Place_parse (e_place_kind r)) ∧
  is_Some (EventStatus_parse (e_status r)).

Lemma row_from_sql_total id r : row_ok r → ∃ row, row_from_sql id r = Ok row.
Proof.
  intros ([Hk1 Hk2] & [p Hp] & [s Hs]). unfold row_from_sql.
  rewrite !(proj2 (Z.leb_le _ _)) by lia. simpl. rewrite Hp, Hs. simpl. eauto.
Qed.

(** Every stored row decodes: the replica's well-formedness. *)
Definition rows_ok (d : Db) : Prop := map_Forall (λ _, row_ok) (db_events d).

Lemma load_row_dwp id o (Q : result (option EventRow) → Obs → Prop) :
  (∀ e, Q (Err e) o) →
  (∀ r row, db_events (o_db o) !! id = Some r → decoded id r row → Q (Ok (Some row)) o) →
  (db_events (o_db o) !! id = None → Q (Ok None) o) →
  dwp (load_row id) o Q.
Proof.
  intros HE HS HN. unfold load_row. apply dwp_query_row; [by intros|].
  intros a. destruct (db_events (o_db o) !! id) as [r|] eqn:Hr; simpl.
  - destruct (row_from_sql id r) as [row|e] eqn:Hd; [|done]. intros [= <-].
    eapply HS; [done|]. by apply row_from_sql_ok.
  - intros [= <-]. by apply HN.
Qed.
End decode.

(** ** The specification *)

Section spec.
Context `{Chrono} `{SerdeText} `{Hashing}.

Definition may_create_spec (d : Db) (parent : string) (role : SquadGroupRole) : bool :=
  is_member role && (is_admin role || negb (restrict_event_create (stored_policy d parent))).

(** Same group and parent, and the signer may edit. *)
Definition write_allowed (r : EventSqlRow) (w : EventWire) (meta : OpMeta)
    (role : SquadGroupRole) : bool :=
  bool_decide (e_mls_group_id r = om_mls_group_id meta) &&
  bool_decide (e_parent_id r = w_parent_id w) &&
  may_edit role (bool_decide (om_signer_npub meta = e_author_npub r)).

Definition write_newer (r : EventSqlRow) (w : EventWire) : bool :=
  w_updated_at_ms w >? e_updated_at_ms r.
Definition write_cancels (r : EventSqlRow) (w : EventWire) : bool :=
  bool_decide (w_op w = Cancel) && negb (bool_decide (e_status r = "cancelled")).

Definition updated_row (r : EventSqlRow) (w : EventWire) (f : EventFields) (npub : string)
    : EventSqlRow :=
  if write_newer r w then update_event_row f (w_updated_at_ms w) npub (content_hash w npub) r
  else r.
Definition written_row (r : EventSqlRow) (w : EventWire) (f : EventFields) (npub : string)
    : EventSqlRow :=
  if write_cancels r w then cancel_event_row (updated_row r w f npub) else updated_row r w f npub.

Definition write_spec (r : EventSqlRow) (w : EventWire) (f : EventFields) (meta : OpMeta)
    (role : SquadGroupRole) : Applied.t * EventSqlRow :=
  if negb (write_allowed r w meta role) then (Applied.Ignored, r)
  else if bool_decide (content_hash w (om_signer_npub meta) = e_content_hash r)
  then (Applied.Replay, r)
  else if write_newer r w || write_cancels r w
  then (Applied.Changed false, written_row r w f (om_signer_npub meta))
  else (Applied.Ignored, r).

Definition rsvp_spec (stored : option RsvpRow) (status : RsvpStatus) (ms : Z) (rumor_id : string)
    : Applied.t * option RsvpRow :=
  let new := Some (mkRsvpRow (RsvpStatus_as_str status) ms rumor_id) in
  match stored with
  | Some r =>
      if bool_decide (rs_rumor_id r = rumor_id) then (Applied.Replay, stored)
      else if ms <=? rs_updated_at_ms r then (Applied.Ignored, stored)
      else (Applied.Changed false, new)
  | None => (Applied.Changed false, new)
  end.

Definition put_event (id : string) (r : EventSqlRow) (d : Db) : Db := set_events (<[id := r]>) d.
Definition put_rsvp (id npub : string) (r : option RsvpRow) (d : Db) : Db :=
  set_rsvps (partial_alter (λ _, r) (id, npub)) d.

Definition rsvp_write (d : Db) (id npub : string) (status : RsvpStatus) (ms : Z)
    (rumor_id : string) : Applied.t * Db :=
  let '(a, r) := rsvp_spec (db_rsvps d !! (id, npub)) status ms rumor_id in
  (a, put_rsvp id npub r d).

Definition create_spec (d : Db) (id : string) (w : EventWire) (f : EventFields)
    (meta : OpMeta) (role : SquadGroupRole) : Applied.t * Db :=
  if negb (may_create_spec d (w_parent_id w) role) then (Applied.Ignored, d)
  else
    let d' := put_event id
      (new_event_row (w_parent_id w) (om_mls_group_id meta) (w_series_id w) f
         (om_signer_npub meta) (w_updated_at_ms w) (content_hash w (om_signer_npub meta))) d in
    (Applied.Changed true,
     match w_rsvp w with
     | Some status => (rsvp_write d' id (om_signer_npub meta) status (w_updated_at_ms w)
                         (om_rumor_id meta)).2
     | None => d'
     end).

Definition queued_row (id : string) (w : EventWire) (meta : OpMeta) : PendingRow :=
  mkPendingRow id (w_parent_id w) (om_mls_group_id meta) (om_signer_npub meta)
    (Op_as_str (w_op w)) (to_text (ser_wire w)) (w_updated_at_ms w).

Definition purge_spec (now_ms : Z) (m : pending) : pending :=
  purge_rows (saturating_sub now_ms PENDING_TTL_MS) m.
Definition enqueue_spec (id : string) (w : EventWire) (meta : OpMeta) (now_ms : Z) (m : pending)
    : pending :=
  insert_or_ignore (om_rumor_id meta) (queued_row id w meta) (purge_spec now_ms m).
Definition queue_spec (id : string) (w : EventWire) (meta : OpMeta) (now_ms : Z) (d : Db) : Db :=
  set_pending (λ m, trim_rows (w_parent_id w) (om_signer_npub meta) MAX_PENDING_PER_AUTHOR
                      (enqueue_spec id w meta now_ms m)) d.

(** What the parts of a child operation may carry. *)
Definition cancel_marked (w : EventWire) : bool :=
  negb (bool_decide (w_op w = Cancel)) ||
  bool_decide (w_status w = Some (EventStatus_as_str Cancelled)).

Definition stored_spec (d : Db) (id : string) (r : EventSqlRow) (w : EventWire) (meta : OpMeta)
    (role : SquadGroupRole) : Applied.t * Db :=
  match w_op w with
  | Create =>
      match fields_from_wire w with
      | Some f =>
          if bool_decide (e_series_id r = w_series_id w)
          then let '(a, r') := write_spec r w f meta role in (a, put_event id r' d)
          else (Applied.Ignored, d)
      | None => (Applied.Ignored, d)
      end
  | Update | Cancel =>
      match fields_from_wire w with
      | Some f =>
          if cancel_marked w
          then let '(a, r') := write_spec r w f meta role in (a, put_event id r' d)
          else (Applied.Ignored, d)
      | None => (Applied.Ignored, d)
      end
  | Rsvp =>
      match w_status w ≫= RsvpStatus_parse with
      | Some status =>
          if bool_decide (e_mls_group_id r = om_mls_group_id meta)
             && bool_decide (e_parent_id r = w_parent_id w)
          then rsvp_write d id (om_signer_npub meta) status (w_updated_at_ms w) (om_rumor_id meta)
          else (Applied.Ignored, d)
      | None => (Applied.Ignored, d)
      end
  | SeriesCard => (Applied.Ignored, d)
  end.

(** A child operation that may wait in the queue. *)
Definition child_ok (w : EventWire) : bool :=
  match w_op w with
  | Update | Cancel => bool_decide (is_Some (fields_from_wire w)) && cancel_marked w
  | Rsvp => bool_decide (is_Some (w_status w ≫= RsvpStatus_parse))
  | _ => false
  end.

Definition missing_spec (d : Db) (id : string) (w : EventWire) (meta : OpMeta)
    (role : SquadGroupRole) (now_ms : Z) : Applied.t * Db :=
  match w_op w with
  | Create =>
      match fields_from_wire w with
      | Some f => create_spec d id w f meta role
      | None => (Applied.Ignored, d)
      end
  | _ => if child_ok w then (Applied.Queued, queue_spec id w meta now_ms d)
         else (Applied.Ignored, d)
  end.

Definition apply_spec (d : Db) (w : EventWire) (meta : OpMeta) (role : SquadGroupRole)
    (now_ms : Z) : Applied.t * Db :=
  if negb (is_member role
           && side_effect_parent_matches_chat (om_mls_group_id meta) (w_parent_id w))
  then (Applied.Ignored, d)
  else if bool_decide (w_op w = SeriesCard) then
    (if bool_decide (is_Some (series_card_content w)) && may_create_spec d (w_parent_id w) role
     then Applied.SeriesCard else Applied.Ignored, d)
  else
    match w_id w with
    | None => (Applied.Ignored, d)
    | Some id =>
        match db_events d !! id with
        | Some r => stored_spec d id r w meta role
        | None => missing_spec d id w meta role now_ms
        end
    end.
End spec.
