(* ===== verification/EventRefines.v ===== *)
(** * [apply_op] refines [apply_spec], whatever fails *)

From S2P Require Import Prelude World Json Chat Schema Records Pending.
From S2P Require Import CivilTime ContentPolicy EventModel SquadEvent EventSpec.

Lemma put_event_same d id r : db_events d !! id = Some r → put_event id r d = d.
Proof. intros Hr. apply Db_ext; try reflexivity. by apply insert_id. Qed.

Lemma put_rsvp_same d id npub : put_rsvp id npub (db_rsvps d !! (id, npub)) d = d.
Proof. apply Db_ext; try reflexivity. apply (partial_alter_self (db_rsvps d)). Qed.

Lemma put_rsvp_Some d id npub r : put_rsvp id npub (Some r) d = set_rsvps (insert (id, npub) r) d.
Proof. reflexivity. Qed.

Lemma alter_event d id r f :
  db_events d !! id = Some r → set_events (alter f id) d = put_event id (f r) d.
Proof.
  intros Hr. apply Db_ext; try reflexivity. apply map_eq. intros k.
  change (alter f id (db_events d) !! k = <[id := f r]> (db_events d) !! k).
  destruct (decide (k = id)) as [->|Hne].
  - by rewrite lookup_alter_eq, Hr, lookup_insert_eq.
  - by rewrite lookup_alter_ne, lookup_insert_ne.
Qed.

Lemma put_event_twice d id r r' : put_event id r (put_event id r' d) = put_event id r d.
Proof. apply Db_ext; try reflexivity. apply (insert_insert_eq (db_events d)). Qed.

Lemma put_event_lookup d id r : db_events (put_event id r d) !! id = Some r.
Proof. apply (lookup_insert_eq (db_events d)). Qed.

Lemma upsert_rsvp_dwp id npub status ms rumor_id o :
  dwp (upsert_rsvp id npub status ms rumor_id) o (λ r o',
    o_log o' = o_log o ∧
    match r with
    | Ok a => (a, o_db o') = rsvp_write (o_db o) id npub status ms rumor_id
    | Err _ => o_db o' = o_db o
    end).
Proof.
  unfold upsert_rsvp, rsvp_write, rsvp_spec. destruct o as [d l]. dstep. dstep; [done|].
  assert (dwp (exec_ (λ e, "Failed to store squad event rsvp: " +:+ e)
      (set_rsvps (insert (id, npub) (mkRsvpRow (RsvpStatus_as_str status) ms rumor_id))) ;!
    mret (Applied.Changed false)) (mkObs d l) (λ r o', o_log o' = l ∧
      match r with
      | Ok a => (a, o_db o') = (Applied.Changed false,
                  put_rsvp id npub (Some (mkRsvpRow (RsvpStatus_as_str status) ms rumor_id)) d)
      | Err _ => o_db o' = d
      end)) as Hw by (dstep; dstep; [done|]; by apply dwp_ret).
  destruct (db_rsvps d !! (id, npub)) as [r|] eqn:Hr; [|exact Hw].
  destruct (bool_decide _); [apply dwp_ret; by rewrite <- Hr, put_rsvp_same|].
  destruct (_ <=? _); [apply dwp_ret; by rewrite <- Hr, put_rsvp_same|exact Hw].
Qed.

Lemma may_create_dwp parent role o :
  dwp (may_create parent role) o (λ r o', o' = o ∧
    (∀ b, r = Ok b → b = may_create_spec (o_db o) parent role)).
Proof.
  unfold may_create, may_create_spec. destruct (is_member role), (is_admin role); simpl;
    try (apply dwp_ret; split; [done|by intros ? [= <-]]).
  unfold load_policy. dstep. dstep; [done|]. apply dwp_ret. split; [done|by intros ? [= <-]].
Qed.

Section refine.
Context `{Chrono} `{SerdeText} `{Hashing} `{Rusqlite}.

(** An insert is atomic: the event with its author's RSVP, or nothing. *)
Lemma insert_create_dwp id w f meta role o :
  db_events (o_db o) !! id = None →
  dwp (insert_create id w f meta role) o (λ r o',
    o_log o' = o_log o ∧
    match r with
    | Ok a => (a, o_db o') = create_spec (o_db o) id w f meta role
    | Err _ => o_db o' = o_db o
    end).
Proof.
  intros Hnone. unfold insert_create, create_spec. destruct o as [d l]. simpl in *. dstep.
  eapply dwp_mono; [apply may_create_dwp|]. intros [b|e] o' [-> Hb]; [|done]. simpl in *.
  rewrite <- (Hb b eq_refl). destruct b; simpl; [|by apply dwp_ret].
  dstep; [done|]. dstep. apply dwp_insert_row; [done|]. simpl. rewrite Hnone.
  intros [] d' [= <-]. dstep.
  destruct (w_rsvp w) as [status|].
  - dstep. eapply dwp_mono; [apply upsert_rsvp_dwp|]. intros [a|e] o' [Hl Ho]; simpl in *; [|done].
    apply dwp_ret, dwp_ret. simpl. split; [|done]. split; [done|].
    apply (f_equal snd) in Ho. simpl in Ho. by rewrite Ho.
  - apply dwp_ret, dwp_ret. done.
Qed.

Lemma write_allowed_spec r row id w meta role :
  decoded id r row →
  write_allowed r w meta role = true ↔
  (negb (bool_decide (row_mls_group_id row = om_mls_group_id meta))
   || negb (bool_decide (row_parent_id row = w_parent_id w))) = false ∧
  may_edit role (bool_decide (om_signer_npub meta = row_author_npub row)) = true.
Proof.
  intros Hd. unfold write_allowed. rewrite (dc_group _ _ _ Hd), (dc_parent _ _ _ Hd),
    (dc_author _ _ _ Hd), !andb_true_iff, orb_false_iff, !negb_false_iff. tauto.
Qed.

Lemma status_cancelled r row id :
  decoded id r row →
  bool_decide (row_status row = Cancelled) = bool_decide (e_status r = "cancelled").
Proof. intros Hd. rewrite (dc_status _ _ _ Hd). by destruct (row_status row). Qed.

Lemma apply_write_dwp id r row w f meta role o :
  db_events (o_db o) !! id = Some r → decoded id r row →
  dwp (apply_write row w f meta role) o (λ res o',
    o_log o' = o_log o ∧
    match res with
    | Ok a => (a, o_db o') = ((write_spec r w f meta role).1,
                put_event id (write_spec r w f meta role).2 (o_db o))
    | Err _ => o_db o' = o_db o ∨
        (write_allowed r w meta role = true ∧
         content_hash w (om_signer_npub meta) ≠ e_content_hash r ∧
         write_newer r w = true ∧ write_cancels r w = true ∧
         o_db o' = put_event id (updated_row r w f (om_signer_npub meta)) (o_db o))
    end).
Proof.
  intros Hr Hd. unfold apply_write, write_spec. destruct o as [d l]; simpl in *.
  destruct (write_allowed r w meta role) eqn:Ha; simpl.
  2:{ rewrite put_event_same by done.
      destruct (_ || _) eqn:E1; [by apply dwp_ret|]. destruct (may_edit _ _) eqn:E2;
        [|by apply dwp_ret].
      by rewrite (proj2 (write_allowed_spec _ _ _ _ _ _ Hd) (conj E1 E2)) in Ha. }
  destruct (proj1 (write_allowed_spec _ _ _ _ _ _ Hd) Ha) as [-> ->]. simpl.
  rewrite (dc_hash _ _ _ Hd). destruct (bool_decide (_ = e_content_hash r)) eqn:Hh; bool_facts.
  { rewrite put_event_same by done. by apply dwp_ret. }
  rewrite (status_cancelled _ _ _ Hd), (dc_updated _ _ _ Hd), (dc_id _ _ _ Hd).
  change (w_updated_at_ms w >? e_updated_at_ms r) with (write_newer r w).
  change (bool_decide (w_op w = Cancel) && _) with (write_cancels r w).
  unfold written_row, updated_row.
  destruct (write_newer r w) eqn:Hn, (write_cancels r w) eqn:Hc; simpl.
  - dstep. dstep; [auto|]. dstep. apply dwp_exec_.
    + intros e. simpl. split; [done|]. right. split_and!; try done.
      by apply alter_event.
    + apply dwp_ret. simpl. split; [done|]. rewrite (alter_event d id r) by done.
      rewrite (alter_event _ id _) by apply put_event_lookup. by rewrite put_event_twice.
  - dstep. dstep; [auto|]. dstep. apply dwp_ret, dwp_ret. simpl.
    by rewrite (alter_event d id r).
  - dstep. apply dwp_ret. dstep. apply dwp_exec_; [auto|]. apply dwp_ret. simpl.
    by rewrite (alter_event d id r).
  - dstep. apply dwp_ret. dstep. apply dwp_ret, dwp_ret. simpl. by rewrite put_event_same.
Qed.

(** The databases a failed enqueue can leave. *)
Definition queue_prefix (d d' : Db) (id : string) (w : EventWire) (meta : OpMeta) (now : Z) : Prop :=
  d' = d ∨ d' = set_pending (purge_spec now) d ∨ d' = set_pending (enqueue_spec id w meta now) d.

Lemma set_pending_compose f g d : set_pending f (set_pending g d) = set_pending (λ m, f (g m)) d.
Proof. reflexivity. Qed.

Lemma queue_dwp id w meta now o :
  dwp (queue id w meta now) o (λ r o',
    o_log o' = o_log o ∧
    match r with
    | Ok a => a = Applied.Queued ∧ o_db o' = queue_spec id w meta now (o_db o)
    | Err _ => queue_prefix (o_db o) (o_db o') id w meta now
    end).
Proof.
  unfold queue, purge_expired_pending, queue_prefix. destruct o as [d l].
  dstep. dstep; [auto|]. dstep. dstep; [auto|]. dstep. dstep; [auto|]. by apply dwp_ret.
Qed.

(** The databases a failed operation can leave. *)
Inductive apply_prefix (d : Db) (w : EventWire) (meta : OpMeta) (role : SquadGroupRole)
    (now : Z) : Db → Prop :=
| prefix_none : apply_prefix d w meta role now d
| prefix_fields id r f :
    w_id w = Some id → db_events d !! id = Some r → fields_from_wire w = Some f →
    is_member role = true → write_allowed r w meta role = true →
    content_hash w (om_signer_npub meta) ≠ e_content_hash r →
    write_newer r w = true → write_cancels r w = true →
    apply_prefix d w meta role now (put_event id (updated_row r w f (om_signer_npub meta)) d)
| prefix_queue id d' :
    w_id w = Some id → db_events d !! id = None → is_member role = true → child_ok w = true →
    queue_prefix d d' id w meta now →
    apply_prefix d w meta role now d'.

Definition refines_apply (o : Obs) (w : EventWire) (meta : OpMeta) (role : SquadGroupRole)
    (now : Z) (res : result Applied.t) (o' : Obs) : Prop :=
  o_log o' = o_log o ∧
  match res with
  | Ok a => (a, o_db o') = apply_spec (o_db o) w meta role now
  | Err _ => apply_prefix (o_db o) w meta role now (o_db o')
  end.

Lemma child_ok_fields w f :
  (w_op w = Update ∨ w_op w = Cancel) → fields_from_wire w = Some f →
  child_ok w = cancel_marked w.
Proof.
  intros Ho Hf. unfold child_ok. rewrite Hf.
  by destruct Ho as [-> | ->]; rewrite bool_decide_eq_true_2.
Qed.

(** The write branch of [apply_op], for a create replay, an update or a cancel. *)
Lemma write_branch_dwp id r row w f meta role now o :
  w_id w = Some id → db_events (o_db o) !! id = Some r → decoded id r row →
  is_member role = true → fields_from_wire w = Some f →
  dwp (apply_write row w f meta role) o (λ res o',
    o_log o' = o_log o ∧
    match res with
    | Ok a => (a, o_db o') =
        (let '(a, r') := write_spec r w f meta role in (a, put_event id r' (o_db o)))
    | Err _ => apply_prefix (o_db o) w meta role now (o_db o')
    end).
Proof.
  intros Hid Hr Hd Hm Hf. eapply dwp_mono; [by eapply apply_write_dwp|].
  intros [a|e] o' [Hl Ho]; (split; [done|]).
  - rewrite Ho. by destruct (write_spec r w f meta role).
  - destruct Ho as [->|(Ha & Hh & Hn & Hc & ->)]; [constructor|].
    by eapply prefix_fields.
Qed.

Lemma queue_branch_dwp id w meta role now o :
  w_id w = Some id → db_events (o_db o) !! id = None → is_member role = true →
  child_ok w = true →
  dwp (queue id w meta now) o (λ res o',
    o_log o' = o_log o ∧
    match res with
    | Ok a => (a, o_db o') = (Applied.Queued, queue_spec id w meta now (o_db o))
    | Err _ => apply_prefix (o_db o) w meta role now (o_db o')
    end).
Proof.
  intros Hid Hr Hm Hc. eapply dwp_mono; [apply queue_dwp|].
  intros [a|e] o' [Hl Ho]; (split; [done|]).
  - by destruct Ho as [-> ->].
  - by eapply prefix_queue.
Qed.

Lemma apply_ret (o : Obs) w meta role now a :
  apply_spec (o_db o) w meta role now = (a, o_db o) →
  dwp (mret a) o (refines_apply o w meta role now).
Proof. intros He. apply dwp_ret. by split. Qed.

(** The branches on a stored row. *)
Lemma apply_stored_spec id r row w meta role now (o : Obs) :
  w_id w = Some id → db_events (o_db o) !! id = Some r → decoded id r row →
  is_member role = true →
  side_effect_parent_matches_chat (om_mls_group_id meta) (w_parent_id w) = true →
  w_op w ≠ SeriesCard →
  apply_spec (o_db o) w meta role now = stored_spec (o_db o) id r w meta role.
Proof.
  intros Hid Hr Hd Hm Hp Hs. unfold apply_spec. rewrite Hm, Hp. simpl.
  rewrite bool_decide_eq_false_2 by done. by rewrite Hid, Hr.
Qed.

Lemma apply_missing_spec id w meta role now (o : Obs) :
  w_id w = Some id → db_events (o_db o) !! id = None → is_member role = true →
  side_effect_parent_matches_chat (om_mls_group_id meta) (w_parent_id w) = true →
  w_op w ≠ SeriesCard →
  apply_spec (o_db o) w meta role now = missing_spec (o_db o) id w meta role now.
Proof.
  intros Hid Hr Hm Hp Hs. unfold apply_spec. rewrite Hm, Hp. simpl.
  rewrite bool_decide_eq_false_2 by done. by rewrite Hid, Hr.
Qed.

Lemma cancel_marked_neg w :
  bool_decide (w_op w = Cancel) &&
  negb (bool_decide (w_status w = Some (EventStatus_as_str Cancelled))) = negb (cancel_marked w).
Proof. unfold cancel_marked. by rewrite negb_orb, negb_involutive. Qed.

Lemma series_branch_dwp w meta role now o :
  is_member role = true →
  side_effect_parent_matches_chat (om_mls_group_id meta) (w_parent_id w) = true →
  w_op w = SeriesCard →
  dwp (let! ok := if bool_decide (is_Some (series_card_content w))
                  then may_create (w_parent_id w) role else mret false in
       mret (if (ok : bool) then Applied.SeriesCard else Applied.Ignored)) o
    (refines_apply o w meta role now).
Proof.
  intros Hm Hp Hs. dstep. unfold refines_apply, apply_spec.
  rewrite Hm, Hp, (bool_decide_eq_true_2 _ Hs). simpl.
  destruct (bool_decide (is_Some _)); simpl; [|by apply dwp_ret, dwp_ret].
  eapply dwp_mono; [apply may_create_dwp|]. intros [b|e] o' [-> Hb]; [|by split; [|constructor]].
  apply dwp_ret. simpl. rewrite (Hb b eq_refl). by destruct (may_create_spec _ _ _).
Qed.

(** Updates and cancels of a stored row. *)
Lemma stored_write_dwp id r row w meta role now o :
  w_id w = Some id → db_events (o_db o) !! id = Some r → decoded id r row →
  is_member role = true → (w_op w = Update ∨ w_op w = Cancel) →
  dwp (match fields_from_wire w with
       | None => mret Applied.Ignored
       | Some fields =>
           if bool_decide (w_op w = Cancel)
              && negb (bool_decide (w_status w = Some (EventStatus_as_str Cancelled)))
           then mret Applied.Ignored
           else apply_write row w fields meta role
       end) o (λ res o', o_log o' = o_log o ∧
    match res with
    | Ok a => (a, o_db o') = stored_spec (o_db o) id r w meta role
    | Err _ => apply_prefix (o_db o) w meta role now (o_db o')
    end).
Proof.
  intros Hid Hr Hd Hm Hop.
  assert (stored_spec (o_db o) id r w meta role =
    match fields_from_wire w with
    | Some f => if cancel_marked w
                then let '(a, r') := write_spec r w f meta role in (a, put_event id r' (o_db o))
                else (Applied.Ignored, o_db o)
    | None => (Applied.Ignored, o_db o)
    end) as -> by (unfold stored_spec; by destruct Hop as [-> | ->]).
  destruct (fields_from_wire w) as [f|] eqn:Hf; [|by apply dwp_ret].
  rewrite cancel_marked_neg. destruct (cancel_marked w); simpl; [|by apply dwp_ret].
  by apply write_branch_dwp.
Qed.

(** Updates and cancels that arrive before their create. *)
Lemma missing_write_dwp id w meta role now o :
  w_id w = Some id → db_events (o_db o) !! id = None → is_member role = true →
  (w_op w = Update ∨ w_op w = Cancel) →
  dwp (match fields_from_wire w with
       | None => mret Applied.Ignored
       | Some fields =>
           if bool_decide (w_op w = Cancel)
              && negb (bool_decide (w_status w = Some (EventStatus_as_str Cancelled)))
           then mret Applied.Ignored
           else queue id w meta now
       end) o (λ res o', o_log o' = o_log o ∧
    match res with
    | Ok a => (a, o_db o') = missing_spec (o_db o) id w meta role now
    | Err _ => apply_prefix (o_db o) w meta role now (o_db o')
    end).
Proof.
  intros Hid Hr Hm Hop.
  assert (missing_spec (o_db o) id w meta role now =
    if child_ok w then (Applied.Queued, queue_spec id w meta now (o_db o))
    else (Applied.Ignored, o_db o)) as -> by (unfold missing_spec; by destruct Hop as [-> | ->]).
  destruct (fields_from_wire w) as [f|] eqn:Hf.
  2:{ apply dwp_ret. replace (child_ok w) with false; [done|].
      unfold child_ok. rewrite Hf. by destruct Hop as [-> | ->]. }
  rewrite cancel_marked_neg, (child_ok_fields w f) by done.
  destruct (cancel_marked w) eqn:Hcm; simpl; [|by apply dwp_ret].
  apply queue_branch_dwp; try done. by rewrite (child_ok_fields w f).
Qed.

(** Every outcome of [apply_op], under any faults. *)
Lemma apply_op_dwp w meta role now o :
  dwp (apply_op w meta role now) o (refines_apply o w meta role now).
Proof.
  unfold apply_op.
  destruct (is_member role) eqn:Hm; simpl.
  2:{ apply apply_ret. unfold apply_spec. by rewrite Hm. }
  destruct (side_effect_parent_matches_chat _ _) eqn:Hp; simpl.
  2:{ apply apply_ret. unfold apply_spec. by rewrite Hm, Hp. }
  destruct (bool_decide (w_op w = SeriesCard)) eqn:Hsc; bool_facts;
    [by apply series_branch_dwp|].
  destruct (w_id w) as [id|] eqn:Hid.
  2:{ apply apply_ret. unfold apply_spec. rewrite Hm, Hp. simpl.
      by rewrite bool_decide_eq_false_2, Hid. }
  dstep. apply load_row_dwp.
  - intros e. split; [done|constructor].
  - intros r row Hr Hd. unfold refines_apply. rewrite (apply_stored_spec id r row) by done.
    destruct (w_op w) eqn:Hop; [| | | |done].
    + unfold stored_spec; rewrite Hop.
      destruct (fields_from_wire w) as [f|] eqn:Hf; [|by apply dwp_ret].
      rewrite (dc_series _ _ _ Hd). destruct (bool_decide _); [|by apply dwp_ret].
      by apply write_branch_dwp.
    + pose proof (stored_write_dwp id r row w meta role now o) as Hx. rewrite Hop in Hx. auto.
    + unfold stored_spec; rewrite Hop.
      destruct (w_status w ≫= RsvpStatus_parse) as [st|]; [|by apply dwp_ret].
      rewrite (dc_group _ _ _ Hd), (dc_parent _ _ _ Hd), <- negb_andb.
      destruct (_ && _); simpl; [|by apply dwp_ret].
      eapply dwp_mono; [apply upsert_rsvp_dwp|]. intros [a|e] o' [Hl Ho]; (split; [done|]);
        [done|rewrite Ho; constructor].
    + pose proof (stored_write_dwp id r row w meta role now o) as Hx. rewrite Hop in Hx. auto.
  - intros Hr. unfold refines_apply. rewrite (apply_missing_spec id) by done.
    destruct (w_op w) eqn:Hop; [| | | |done].
    + unfold missing_spec; rewrite Hop.
      destruct (fields_from_wire w) as [f|] eqn:Hf; [|by apply dwp_ret].
      eapply dwp_mono; [by apply insert_create_dwp|]. intros [a|e] o' [Hl Ho]; (split; [done|]);
        [done|rewrite Ho; constructor].
    + pose proof (missing_write_dwp id w meta role now o) as Hx. rewrite Hop in Hx. auto.
    + assert (missing_spec (o_db o) id w meta role now =
        if child_ok w then (Applied.Queued, queue_spec id w meta now (o_db o))
        else (Applied.Ignored, o_db o)) as -> by (unfold missing_spec; by rewrite Hop).
      destruct (w_status w ≫= RsvpStatus_parse) as [st|] eqn:Hst;
        assert (child_ok w = bool_decide (is_Some (w_status w ≫= RsvpStatus_parse))) as Hc
          by (unfold child_ok; by rewrite Hop); rewrite Hst in Hc.
      * rewrite bool_decide_eq_true_2 in Hc by eauto. rewrite Hc. by apply queue_branch_dwp.
      * rewrite bool_decide_eq_false_2 in Hc by apply is_Some_None. rewrite Hc. by apply dwp_ret.
    + pose proof (missing_write_dwp id w meta role now o) as Hx. rewrite Hop in Hx. auto.
Qed.

(** ** Without faults, an operation succeeds *)

Definition succeeds {A} (m : Act A) (o : Obs) : Prop := lwp m o (λ _ _, True).

Lemma load_row_lwp id o :
  rows_ok (o_db o) → lwp (load_row id) o (λ row o', o' = o ∧
    match row with
    | Some row => ∃ r, db_events (o_db o) !! id = Some r ∧ decoded id r row
    | None => db_events (o_db o) !! id = None
    end).
Proof.
  intros Hok. unfold load_row. destruct (db_events (o_db o) !! id) as [r|] eqn:Hr.
  - destruct (row_from_sql_total id r) as [row Hrow]; [by eapply Hok|].
    eapply lwp_query_row; [by rewrite Hr; simpl; rewrite Hrow|].
    split; [done|]. exists r. split; [done|]. by apply row_from_sql_ok.
  - eapply lwp_query_row; [by rewrite Hr|]. done.
Qed.

Lemma may_create_lwp parent role o : lwp (may_create parent role) o (λ _ o', o' = o).
Proof.
  unfold may_create, load_policy. destruct (negb _); [by apply lwp_ret|].
  destruct (is_admin role); [by apply lwp_ret|]. lstep. lstep. by lstep.
Qed.

Lemma upsert_rsvp_succeeds id npub st ms rumor o : succeeds (upsert_rsvp id npub st ms rumor) o.
Proof.
  unfold succeeds, upsert_rsvp. lstep. lstep.
  repeat (first [done | lstep]).
Qed.

Lemma insert_create_succeeds id w f meta role o :
  db_events (o_db o) !! id = None → succeeds (insert_create id w f meta role) o.
Proof.
  intros Hr. unfold succeeds, insert_create. lstep. eapply lwp_mono; [apply may_create_lwp|].
  intros b o' ->. destruct b; simpl; [|by lstep]. lstep. lstep.
  eapply lwp_insert_row; [by rewrite Hr|]. lstep. destruct (w_rsvp w).
  - lstep. eapply lwp_mono; [apply upsert_rsvp_succeeds|]. intros. lstep. by lstep.
  - lstep. by lstep.
Qed.

Lemma apply_write_succeeds row w f meta role o : succeeds (apply_write row w f meta role) o.
Proof.
  unfold succeeds, apply_write. repeat (destruct (_ : bool); [by lstep|]).
  repeat (first [done | lstep | case_match]).
Qed.

Lemma queue_succeeds id w meta now o : succeeds (queue id w meta now) o.
Proof. unfold succeeds, queue, purge_expired_pending. by repeat lstep. Qed.

Lemma apply_op_succeeds w meta role now o :
  rows_ok (o_db o) → succeeds (apply_op w meta role now) o.
Proof.
  intros Hok. unfold succeeds, apply_op. destruct (_ || _); [by lstep|].
  destruct (bool_decide _).
  { lstep. destruct (bool_decide _); [|lstep; by lstep].
    eapply lwp_mono; [apply may_create_lwp|]. intros. by lstep. }
  destruct (w_id w) as [id|]; [|by lstep]. lstep.
  eapply lwp_mono; [by apply load_row_lwp|]. intros row o' [-> Hrow].
  destruct (w_op w); [| | | |by lstep].
  1,2,4: destruct (fields_from_wire w); [|by lstep].
  - destruct row; [|by apply insert_create_succeeds].
    destruct (bool_decide _); [apply apply_write_succeeds|by lstep].
  - destruct (_ && _); [by lstep|]. destruct row; [apply apply_write_succeeds|apply queue_succeeds].
  - destruct (_ && _); [by lstep|]. destruct row; [apply apply_write_succeeds|apply queue_succeeds].
  - destruct (w_status w ≫= _); [|by lstep]. destruct row; [|apply queue_succeeds].
    destruct (_ || _); [by lstep|apply upsert_rsvp_succeeds].
Qed.

(** The fault-free outcome is the specification's. *)
Lemma apply_op_lwp w meta role now o :
  rows_ok (o_db o) →
  lwp (apply_op w meta role now) o (λ a o',
    o_log o' = o_log o ∧ (a, o_db o') = apply_spec (o_db o) w meta role now).
Proof.
  intros Hok. eapply lwp_mono; [eapply lwp_dwp; [by apply apply_op_succeeds|apply apply_op_dwp]|].
  by intros a o' [_ Hr].
Qed.
End refine.
