(* ===== verification/EventSteps.v ===== *)
(** * The event replica as a transition system

    [ev_step] lists the ways one operation can move the database, errors
    included; whatever [apply_op] does under whatever faults is one of them. The
    invariants of the replica are proved on the steps and carried to the drain
    loop, the ingest path and the commands by the [keeps] rules. *)

From S2P Require Import Prelude World Json Chat Schema Records Pending CivilTime ContentPolicy.
From S2P Require Import EventModel EventValidation SquadEvent EventSpec EventRefines.
From S2P Require Import SquadEventCommands.

Section steps.
Context `{Chrono} `{SerdeText} `{Hashing} `{Rusqlite}.

(** The signer is a member and writes through the parent's own group. *)
Definition admitted (w : EventWire) (meta : OpMeta) (role : SquadGroupRole) : Prop :=
  is_member role = true ∧
  side_effect_parent_matches_chat (om_mls_group_id meta) (w_parent_id w) = true.

Inductive ev_step (w : EventWire) (meta : OpMeta) (role : SquadGroupRole) (now : Z) (d : Db)
    : Db → Prop :=
| step_skip : ev_step w meta role now d d
| step_insert id f :
    admitted w meta role → w_id w = Some id → db_events d !! id = None →
    w_op w = Create → fields_from_wire w = Some f →
    may_create_spec d (w_parent_id w) role = true →
    ev_step w meta role now d (create_spec d id w f meta role).2
| step_write id r f r' :
    admitted w meta role → w_id w = Some id → db_events d !! id = Some r →
    fields_from_wire w = Some f → write_allowed r w meta role = true →
    content_hash w (om_signer_npub meta) ≠ e_content_hash r →
    (r' = updated_row r w f (om_signer_npub meta) ∨ r' = written_row r w f (om_signer_npub meta)) →
    ev_step w meta role now d (put_event id r' d)
| step_rsvp id r status :
    admitted w meta role → w_id w = Some id → db_events d !! id = Some r →
    w_op w = Rsvp → e_mls_group_id r = om_mls_group_id meta → e_parent_id r = w_parent_id w →
    ev_step w meta role now d
      (rsvp_write d id (om_signer_npub meta) status (w_updated_at_ms w) (om_rumor_id meta)).2
| step_queue id f :
    admitted w meta role → w_id w = Some id → db_events d !! id = None → child_ok w = true →
    (f = purge_spec now ∨ f = enqueue_spec id w meta now ∨
     f = λ m, trim_rows (w_parent_id w) (om_signer_npub meta) MAX_PENDING_PER_AUTHOR
                (enqueue_spec id w meta now m)) →
    ev_step w meta role now d (set_pending f d).

Lemma write_step id r f w meta role now d :
  admitted w meta role → w_id w = Some id → db_events d !! id = Some r →
  fields_from_wire w = Some f →
  ev_step w meta role now d
    (let '(_, r') := write_spec r w f meta role in put_event id r' d).
Proof.
  intros Ha Hid Hr Hf. unfold write_spec.
  assert (ev_step w meta role now d (put_event id r d)) as Hskip
    by (rewrite put_event_same by done; constructor).
  destruct (write_allowed r w meta role) eqn:Hw; simpl; [|done].
  destruct (bool_decide _) eqn:Hh; [done|]. bool_facts.
  destruct (_ || _); [|done]. eapply step_write; eauto.
Qed.

Lemma apply_spec_step w meta role now d :
  ev_step w meta role now d (apply_spec d w meta role now).2.
Proof.
  unfold apply_spec. destruct (is_member role) eqn:Hm; simpl; [|constructor].
  destruct (side_effect_parent_matches_chat _ _) eqn:Hp; simpl; [|constructor].
  assert (admitted w meta role) as Ha by done.
  destruct (bool_decide (w_op w = SeriesCard)); [constructor|].
  destruct (w_id w) as [id|] eqn:Hid; [|constructor].
  destruct (db_events d !! id) as [r|] eqn:Hr.
  - unfold stored_spec. destruct (w_op w) eqn:Hop; try constructor;
      repeat case_match; try constructor; simpl;
      try (match goal with Hf : fields_from_wire w = Some ?f |- _ =>
        pose proof (write_step id r f w meta role now d Ha Hid Hr Hf) as Hs end;
        match goal with Hw : write_spec _ _ _ _ _ = _ |- _ => by rewrite Hw in Hs end).
    bool_facts. by eapply step_rsvp.
  - unfold missing_spec. destruct (w_op w) eqn:Hop; [|destruct (child_ok w) eqn:Hc..];
      try constructor; simpl; try (eapply step_queue; eauto; done).
    destruct (fields_from_wire w) as [f|] eqn:Hf; [|constructor].
    destruct (may_create_spec d (w_parent_id w) role) eqn:Hmc; [by eapply step_insert|].
    unfold create_spec. rewrite Hmc. constructor.
Qed.

Lemma apply_prefix_step w meta role now d d' :
  admitted w meta role → apply_prefix d w meta role now d' → ev_step w meta role now d d'.
Proof.
  intros Ha [|id r f Hid Hr Hf Hm Hw Hh Hn Hc|id d'' Hid Hr Hm Hc [-> | [-> | ->]]].
  - constructor.
  - eapply step_write; eauto.
  - constructor.
  - eapply step_queue; eauto.
  - eapply step_queue; eauto.
Qed.

(** One operation makes one step, whatever fails. *)
Lemma apply_op_step w meta role now o :
  dwp (apply_op w meta role now) o
    (λ _ o', o_log o' = o_log o ∧ ev_step w meta role now (o_db o) (o_db o')).
Proof.
  destruct (decide (admitted w meta role)) as [Ha|Ha].
  - eapply dwp_mono; [apply apply_op_dwp|]. intros [a|e] o' [Hl Ho]; (split; [done|]).
    + apply (f_equal snd) in Ho. simpl in Ho. rewrite Ho. apply apply_spec_step.
    + by apply apply_prefix_step.
  - unfold apply_op, admitted in *. 
    destruct (is_member role), (side_effect_parent_matches_chat _ _); simpl in *;
      try (apply dwp_ret; split; [done|constructor]). naive_solver.
Qed.

(** Which rows a step changes, and by whose right. *)
Lemma put_event_changed d id r id' :
  db_events (put_event id r d) !! id' ≠ db_events d !! id' → id' = id.
Proof.
  intros Hne. destruct (decide (id' = id)) as [|Hd]; [done|]. destruct Hne.
  by apply (lookup_insert_ne (db_events d)).
Qed.

Lemma rsvp_write_events d id npub st ms rumor :
  db_events (rsvp_write d id npub st ms rumor).2 = db_events d.
Proof. unfold rsvp_write. by destruct (rsvp_spec _ _ _ _). Qed.

Lemma rsvp_write_changed d id npub st ms rumor id' npub' :
  db_rsvps (rsvp_write d id npub st ms rumor).2 !! (id', npub') ≠ db_rsvps d !! (id', npub') →
  id' = id ∧ npub' = npub.
Proof.
  unfold rsvp_write. destruct (rsvp_spec _ _ _ _) as [a s]. simpl. intros Hne.
  destruct (decide ((id', npub') = (id, npub))) as [[= -> ->]|Hd]; [done|]. destruct Hne.
  by apply (lookup_partial_alter_ne (λ _, s) (db_rsvps d)).
Qed.

Lemma may_edit_right role r npub :
  may_edit role (bool_decide (npub = e_author_npub r)) = true →
  npub = e_author_npub r ∨ is_admin role = true.
Proof.
  unfold may_edit. intros [_ [Hb|Hb]%orb_true_iff]%andb_true_iff; [left|by right].
  by bool_facts.
Qed.

Lemma ev_step_tables w meta role now d d' :
  ev_step w meta role now d d' →
  (∀ id, db_events d' !! id ≠ db_events d !! id → w_id w = Some id ∧
     match db_events d !! id with
     | Some r => e_mls_group_id r = om_mls_group_id meta ∧ e_parent_id r = w_parent_id w ∧
         (om_signer_npub meta = e_author_npub r ∨ is_admin role = true)
     | None => (is_admin role = true ∨
           restrict_event_create (stored_policy d (w_parent_id w)) = false) ∧
         (e_author_npub <$> db_events d' !! id) = Some (om_signer_npub meta)
     end) ∧
  (∀ id npub, db_rsvps d' !! (id, npub) ≠ db_rsvps d !! (id, npub) →
     w_id w = Some id ∧ npub = om_signer_npub meta).
Proof.
  intros [|id f _ Hid Hr _ _ Hmc|id r f r' _ Hid Hr _ Hw _ _|id r st _ Hid Hr _ _ _|id f _ _ _ _ _].
  - done.
  - assert (is_admin role = true ∨
      restrict_event_create (stored_policy d (w_parent_id w)) = false) as Hright.
    { apply andb_true_iff in Hmc as [_ [?|?%negb_true_iff]%orb_true_iff]; auto. }
    unfold create_spec. rewrite Hmc. simpl. set (row := new_event_row _ _ _ _ _ _ _).
    assert (∀ d', db_events d' = db_events (put_event id row d) →
      ∀ id', db_events d' !! id' ≠ db_events d !! id' → w_id w = Some id' ∧
        match db_events d !! id' with
        | Some r => e_mls_group_id r = om_mls_group_id meta ∧ e_parent_id r = w_parent_id w ∧
            (om_signer_npub meta = e_author_npub r ∨ is_admin role = true)
        | None => (is_admin role = true ∨
              restrict_event_create (stored_policy d (w_parent_id w)) = false) ∧
            (e_author_npub <$> db_events d' !! id') = Some (om_signer_npub meta)
        end) as Hev.
    { intros d2 -> id' ->%put_event_changed. rewrite Hr. split; [done|].
      by rewrite put_event_lookup. }
    destruct (w_rsvp w) as [st|]; (split; [apply Hev|]).
    + apply rsvp_write_events.
    + intros id' npub' Hne.
      by destruct (rsvp_write_changed (put_event id row d) id _ st _ _ id' npub' Hne) as [-> ->].
    + done.
    + done.
  - split; [|done]. intros id' ->%put_event_changed. split; [done|]. rewrite Hr.
    unfold write_allowed in Hw. apply andb_true_iff in Hw as [[Hg Hp]%andb_true_iff He].
    bool_facts. split_and!; [done..|]. by apply may_edit_right.
  - split; [by rewrite rsvp_write_events|]. intros id' npub' [-> ->]%rsvp_write_changed. done.
  - done.
Qed.

Lemma keeps_apply_op (R : Db → Db → Prop) w meta role now :
  (∀ d d', ev_step w meta role now d d' → R d d') → keeps R (apply_op w meta role now).
Proof.
  intros HR o. eapply dwp_mono; [apply apply_op_step|]. intros r o' [_ Hs]. by apply HR.
Qed.

(** ** The paths above [apply_op] *)

Lemma quiet_load_row id : quiet (load_row id).
Proof. unfold load_row. quiet_tac. Qed.

Lemma quiet_may_create parent role : quiet (may_create parent role).
Proof. unfold may_create, load_policy. quiet_tac. Qed.
#[local] Hint Resolve quiet_load_row quiet_may_create : quiet.

Lemma quiet_pending_for_stored id : quiet (pending_for_stored id).
Proof. unfold pending_for_stored. quiet_tac. Qed.
#[local] Hint Resolve quiet_pending_for_stored : quiet.

(** A relation every step of the replica keeps: operations of any author, queue
    maintenance, and the removal of a drained row. *)
Class ReplicaKept (R : Db → Db → Prop) : Prop := {
  kept_refl :: Reflexive R;
  kept_trans :: Transitive R;
  kept_step w meta role now d d' : ev_step w meta role now d d' → R d d';
  kept_purge now d : R d (set_pending (purge_spec now) d);
  kept_clear k d : R d (set_pending (delete k) d);
  kept_local chats d : R d (set_chats (λ _, chats) d);
}.

Section kept.
Context (R : Db → Db → Prop) `{!ReplicaKept R}.

Lemma kept_apply_op w meta role now : keeps R (apply_op w meta role now).
Proof. apply keeps_apply_op, kept_step. Qed.

Lemma kept_drain_pending id role_of now : keeps R (drain_pending id role_of now).
Proof.
  unfold drain_pending, drain_one, purge_expired_pending. keeps_tac.
  - apply kept_purge.
  - apply kept_apply_op.
  - apply kept_clear.
Qed.

Lemma kept_store_local_card group msg : keeps R (store_local_card group msg).
Proof.
  unfold store_local_card. keeps_tac.
  - apply keeps_modify. intros d. simpl. apply kept_refl.
  - apply keeps_modify. intros d. destruct (add_message_to_chat _ _ _ _). apply kept_local.
Qed.

Context `{Nostr}.

Lemma kept_drain_stored id : keeps R (drain_stored id).
Proof.
  unfold drain_stored, roles_of, with_conn, now_ms. keeps_tac. apply kept_drain_pending.
Qed.

Lemma kept_apply_and_emit w meta role : keeps R (apply_and_emit w meta role).
Proof.
  unfold apply_and_emit, with_conn, now_ms, emit_replica_updated. keeps_tac.
  - apply kept_apply_op.
  - apply kept_drain_stored.
Qed.

Lemma kept_process_rumor rumor context : keeps R (process_rumor rumor context).
Proof. unfold process_rumor, now_ms. keeps_tac. apply kept_apply_and_emit. Qed.

Lemma kept_send_occurrence group parent series pk npub role id f row :
  keeps R (send_occurrence group parent series pk npub role id f row).
Proof. unfold send_occurrence, send_wire, now_ms. keeps_tac. apply kept_apply_and_emit. Qed.
End kept.
End steps.

#[export] Hint Resolve kept_apply_and_emit kept_store_local_card kept_send_occurrence
  kept_process_rumor : pacto.
#[export] Hint Resolve quiet_load_row quiet_may_create quiet_pending_for_stored : quiet.

(** ** The commands *)

Section commands.
Context `{Chrono} `{SerdeText} `{Hashing} `{Rusqlite} `{Nostr}.

Inductive Command : Type :=
| CIngest (rumor : RumorEvent) (context : RumorContext)
| CCreate (mls_group_id parent_id event_id : string) (event : SquadEventInput)
| CSeries (mls_group_id parent_id series_id : string) (event_ids : list string)
    (event : SquadEventInput)
| CUpdate (mls_group_id parent_id event_id : string) (event : SquadEventInput)
| CCancel (mls_group_id parent_id event_id : string)
| CRsvp (mls_group_id parent_id event_id : string) (status : RsvpStatus)
| CList (parent_id : string).

(** The entry points of the module: one call of a handler or a command. *)
Definition run_command (c : Command) : Act unit :=
  match c with
  | CIngest rumor context => process_rumor rumor context ;! mret tt
  | CCreate g p id e => send_squad_event_create g p id e
  | CSeries g p s ids e => send_squad_event_series g p s ids e
  | CUpdate g p id e => send_squad_event_update g p id e
  | CCancel g p id => send_squad_event_cancel g p id
  | CRsvp g p id st => send_squad_event_rsvp g p id st
  | CList p => list_squad_events p ;! mret tt
  end.

(** A history: every call's result is handed back, the next one runs anyway. *)
Definition run_commands (cs : list Command) : Act unit :=
  foldM (λ _ c, attempt (run_command c) ;! mret tt) tt cs.

Lemma quiet_row_in_parent group parent id : quiet (row_in_parent group parent id).
Proof. unfold row_in_parent. quiet_tac. Qed.
#[local] Hint Resolve quiet_row_in_parent : quiet.

Lemma quiet_editable_row group parent id npub role :
  quiet (editable_row group parent id npub role).
Proof. unfold editable_row. quiet_tac. Qed.

Lemma quiet_ensure_may_create parent role : quiet (ensure_may_create parent role).
Proof. unfold ensure_may_create. quiet_tac. Qed.

Lemma quiet_rsvp_target group parent id npub : quiet (rsvp_target group parent id npub).
Proof. unfold rsvp_target, my_rsvp_updated_at. quiet_tac. Qed.

Lemma quiet_load_rows ids : quiet (load_rows ids).
Proof. unfold load_rows. apply quiet_foldM. intros rows id. quiet_tac. Qed.

Lemma quiet_load_events parent caller : quiet (load_events parent caller).
Proof. unfold load_events. quiet_tac. Qed.
#[local] Hint Resolve quiet_editable_row quiet_ensure_may_create quiet_rsvp_target
  quiet_load_rows quiet_load_events : quiet.

Lemma quiet_list_squad_events parent : quiet (list_squad_events parent).
Proof.
  unfold list_squad_events. quiet_tac. apply quiet_foldM. intros [roles out] ev. quiet_tac.
Qed.
#[local] Hint Resolve quiet_list_squad_events : quiet.

Lemma kept_run_command (R : Db → Db → Prop) `{!ReplicaKept R} c : keeps R (run_command c).
Proof.
  destruct c; simpl; unfold send_squad_event_create, send_squad_event_series,
    send_squad_event_update, send_squad_event_cancel, send_squad_event_rsvp,
    send_wire, with_conn, now_ms; keeps_tac; try solve [eauto with pacto].
Qed.

Lemma kept_run_commands (R : Db → Db → Prop) `{!ReplicaKept R} cs : keeps R (run_commands cs).
Proof. unfold run_commands. keeps_tac. apply kept_run_command, _. Qed.
End commands.

(** * What every history of the event replica keeps

    Instances of [ReplicaKept]: rows only move forward and cancelled rows stay
    cancelled ([replica_le]), stored rows are valid ([rows_valid]), and nothing
    outside the event tables and the loaded chats changes ([event_frame]). *)

(** ** Forward only *)

(** The later row: same identity; equal stamps mean equal content; a cancelled
    event is cancelled for good. *)
Record row_le (r r' : EventSqlRow) : Prop := {
  rl_parent : e_parent_id r' = e_parent_id r;
  rl_group : e_mls_group_id r' = e_mls_group_id r;
  rl_series : e_series_id r' = e_series_id r;
  rl_author : e_author_npub r' = e_author_npub r;
  rl_created : e_created_at_ms r' = e_created_at_ms r;
  rl_stamp : e_updated_at_ms r < e_updated_at_ms r' ∨
             cancel_event_row r' = cancel_event_row r;
  rl_cancelled : e_status r = "cancelled" → e_status r' = "cancelled";
}.

Lemma cancel_event_row_stamp r r' :
  cancel_event_row r' = cancel_event_row r → e_updated_at_ms r' = e_updated_at_ms r.
Proof. by intros [=]. Qed.

#[export] Instance row_le_refl : Reflexive row_le.
Proof. intros r. split; auto. Qed.
#[export] Instance row_le_trans : Transitive row_le.
Proof.
  intros r1 r2 r3 [] []. split; try congruence; auto.
  destruct rl_stamp0 as [?|E1], rl_stamp1 as [?|E2]; [left; lia|left..|right; congruence].
  - apply cancel_event_row_stamp in E2. lia.
  - apply cancel_event_row_stamp in E1. lia.
Qed.

Definition rsvp_le (r r' : RsvpRow) : Prop :=
  rs_updated_at_ms r < rs_updated_at_ms r' ∨ r' = r.

#[export] Instance rsvp_le_preorder : PreOrder rsvp_le.
Proof.
  split; [by right|]. intros r1 r2 r3 [?| ->] [?| ->]; unfold rsvp_le; auto; left; lia.
Qed.

(** Every entry survives, related by [R]. *)
Definition entries_le {K A} `{Countable K} (R : A → A → Prop) (m m' : gmap K A) : Prop :=
  ∀ k a, m !! k = Some a → ∃ a', m' !! k = Some a' ∧ R a a'.

Section entries.
Context {K A : Type} `{Countable K} (R : A → A → Prop) `{!Reflexive R, !Transitive R}.
Implicit Types m : gmap K A.

Lemma entries_le_refl m : entries_le R m m.
Proof using Reflexive0. intros k a Ha. eauto. Qed.
Lemma entries_le_trans m1 m2 m3 :
  entries_le R m1 m2 → entries_le R m2 m3 → entries_le R m1 m3.
Proof using Transitive0.
  intros H12 H23 k a Ha. destruct (H12 k a Ha) as (a2 & H2 & HR).
  destruct (H23 k a2 H2) as (a3 & H3 & HR'). exists a3. split; [done|by etrans].
Qed.
Lemma entries_le_insert m k a :
  (∀ a0, m !! k = Some a0 → R a0 a) → entries_le R m (<[k := a]> m).
Proof using Reflexive0.
  intros Ha k' a' Hk. destruct (decide (k' = k)) as [->|Hne].
  - exists a. rewrite lookup_insert_eq. auto.
  - exists a'. by rewrite lookup_insert_ne.
Qed.
End entries.

Record replica_le (d d' : Db) : Prop := {
  le_events : entries_le row_le (db_events d) (db_events d');
  le_rsvps : entries_le rsvp_le (db_rsvps d) (db_rsvps d');
}.

#[export] Instance replica_le_refl : Reflexive replica_le.
Proof. intros d. split; apply entries_le_refl, _. Qed.
#[export] Instance replica_le_trans : Transitive replica_le.
Proof. intros d1 d2 d3 [] []. split; eapply entries_le_trans; eauto; apply _. Qed.

Section step.
Context `{Chrono} `{SerdeText} `{Hashing}.

Lemma updated_row_le r w f npub : row_le r (updated_row r w f npub).
Proof.
  unfold updated_row, write_newer. destruct (_ >? _) eqn:Hn; [|reflexivity].
  apply Z.gtb_lt in Hn. split; try done. by left.
Qed.

Lemma cancel_event_row_le r : row_le r (cancel_event_row r).
Proof. split; try done. by right. Qed.

Lemma written_row_le r w f npub : row_le r (written_row r w f npub).
Proof.
  unfold written_row. destruct (write_cancels r w); [|apply updated_row_le].
  etrans; [apply updated_row_le|apply cancel_event_row_le].
Qed.

Lemma rsvp_write_le d id npub st ms rumor :
  replica_le d (rsvp_write d id npub st ms rumor).2.
Proof.
  unfold rsvp_write, rsvp_spec. 
  assert (∀ r', (∀ r0, db_rsvps d !! (id, npub) = Some r0 → rsvp_le r0 r') →
    replica_le d (put_rsvp id npub (Some r') d)) as Hput.
  { intros r' Hr. split; [apply entries_le_refl, _|].
    by apply entries_le_insert; [apply _|]. }
  destruct (db_rsvps d !! (id, npub)) as [r|] eqn:Hr; simpl; [|by apply Hput].
  destruct (bool_decide _); simpl; [by rewrite <- Hr, put_rsvp_same|].
  destruct (_ <=? _) eqn:Hms; simpl; [by rewrite <- Hr, put_rsvp_same|].
  apply Hput. intros r0 [= <-]. left. simpl. bool_facts. lia.
Qed.

Lemma put_event_le d id r r' :
  db_events d !! id = Some r → row_le r r' → replica_le d (put_event id r' d).
Proof.
  intros Hr Hle. split; [|apply entries_le_refl, _].
  apply entries_le_insert; [apply _|]. intros r0 Hr0. by simplify_eq.
Qed.

Lemma put_event_fresh_le d id r : db_events d !! id = None → replica_le d (put_event id r d).
Proof.
  intros Hr. split; [|apply entries_le_refl, _].
  apply entries_le_insert; [apply _|]. intros r0 Hr0. by simplify_eq.
Qed.

Lemma ev_step_le w meta role now d d' : ev_step w meta role now d d' → replica_le d d'.
Proof.
  intros [|id f _ _ Hr _ _ Hmc|id r f r' _ _ Hr _ _ _ Hr'|id r st _ _ Hr _ _ _|id f _ _ _ _ _].
  - reflexivity.
  - unfold create_spec. rewrite Hmc. simpl.
    destruct (w_rsvp w); [|by apply put_event_fresh_le].
    etrans; [by apply put_event_fresh_le|apply rsvp_write_le].
  - eapply put_event_le; [done|].
    destruct Hr' as [-> | ->]; [apply updated_row_le|apply written_row_le].
  - apply rsvp_write_le.
  - split; apply entries_le_refl, _.
Qed.

#[export] Instance replica_le_kept : ReplicaKept replica_le.
Proof.
  split; try apply _; [apply ev_step_le|intros; split; apply entries_le_refl, _..].
Qed.
End step.

(** ** Nothing else changes *)

Record event_frame (d d' : Db) : Prop := {
  fr_policies : db_policies d' = db_policies d;
  fr_docs : db_docs d' = db_docs d;
  fr_doc_pending : db_doc_pending d' = db_doc_pending d;
  fr_groups : db_groups d' = db_groups d;
  fr_chats : db_chats d' = db_chats d;
  fr_settings : db_settings d' = db_settings d;
  fr_device : db_device d' = db_device d;
  fr_account : st_account d' = st_account d;
  fr_signer : st_signer d' = st_signer d;
  fr_engine : st_engine d' = st_engine d;
}.

Section frame.
Context `{Chrono} `{SerdeText} `{Hashing}.

#[export] Instance event_frame_refl : Reflexive event_frame.
Proof. by split. Qed.
#[export] Instance event_frame_trans : Transitive event_frame.
Proof. intros d1 d2 d3 [] []. split; congruence. Qed.

Lemma rsvp_write_frame d id npub st ms rumor :
  event_frame d (rsvp_write d id npub st ms rumor).2.
Proof. unfold rsvp_write. by destruct (rsvp_spec _ _ _ _). Qed.

#[export] Instance event_frame_kept : ReplicaKept event_frame.
Proof.
  split; try apply _; [|done..]. intros w meta role now d d' [|id f _ _ _ _ _ Hmc|?|?|?];
    try done; [|apply rsvp_write_frame].
  unfold create_spec. rewrite Hmc. simpl. destruct (w_rsvp w); [|done].
  etrans; [|apply rsvp_write_frame]. done.
Qed.
End frame.

(** ** Stored rows are valid *)

Section valid.
Context `{Chrono} `{SerdeText} `{Hashing} `{Rusqlite}.

(** Columns that decode to fields the validator accepts. *)
Definition row_valid (r : EventSqlRow) : Prop :=
  ∃ row, row_from_sql "" r = Ok row ∧ fields_wf (row_fields row).

Definition rsvp_valid (r : RsvpRow) : Prop := is_Some (RsvpStatus_parse (rs_status r)).

Record rows_valid (d : Db) : Prop := {
  rv_events : map_Forall (λ _, row_valid) (db_events d);
  rv_rsvps : map_Forall (λ _, rsvp_valid) (db_rsvps d);
}.

(** The columns that hold the fields [f] with status [st]. *)
Record holds (f : EventFields) (st : EventStatus) (r : EventSqlRow) : Prop := {
  h_kind : e_nip52_kind r = f_kind f;
  h_title : e_title r = f_title f;
  h_summary : e_summary r = f_summary f;
  h_start_unix : e_start_unix r = f_start_unix f;
  h_end_unix : e_end_unix r = f_end_unix f;
  h_start_date : e_start_date r = f_start_date f;
  h_end_date : e_end_date r = f_end_date f;
  h_tzid : e_start_tzid r = f_start_tzid f;
  h_place : e_place_kind r = Place_as_str (f_place f);
  h_location : e_location r = f_location f;
  h_channel : e_channel_id r = f_channel_id f;
  h_status : e_status r = EventStatus_as_str st;
}.

Lemma holds_decodes id f st r :
  0 ≤ f_kind f ≤ 65535 → holds f st r →
  ∃ row, row_from_sql id r = Ok row ∧ row_fields row = f ∧ row_status row = st.
Proof.
  intros [Hk1 Hk2] []. unfold row_from_sql. rewrite h_kind0, h_place0, h_status0.
  rewrite !(proj2 (Z.leb_le _ _)) by lia.
  rewrite Place_parse_as_str, EventStatus_parse_as_str. simpl. eexists.
  split; [reflexivity|]. simpl. split; [|done]. destruct f; simpl in *. by f_equal.
Qed.

Lemma decodes_holds id r row :
  row_from_sql id r = Ok row → holds (row_fields row) (row_status row) r.
Proof.
  intros Hd. pose proof (row_from_sql_ok _ _ _ Hd) as Hdec. destruct Hdec.
  unfold row_from_sql in Hd. repeat (apply rbind_ok in Hd as (? & ? & Hd)).
  injection Hd as <-. simpl in *. split; try done; simpl. by destruct dc_kind.
Qed.

Lemma fields_valid_kind f : fields_valid f → 0 ≤ f_kind f ≤ 65535.
Proof.
  intros (_ & _ & _ & [(Hk & _)|(Hk & _)]); rewrite Hk;
    [unfold KIND_TIMED|unfold KIND_ALL_DAY]; lia.
Qed.

Lemma row_valid_holds r :
  row_valid r ↔ ∃ f st, holds f st r ∧ fields_wf f.
Proof.
  split.
  - intros (row & Hd & Hv). exists (row_fields row), (row_status row).
    split; [by eapply decodes_holds|done].
  - intros (f & st & Hh & Hv).
    destruct (holds_decodes "" f st r (fields_valid_kind f (proj1 Hv)) Hh) as (row & Hd & Hf & _).
    exists row. by rewrite Hf.
Qed.

Lemma updated_row_valid r w f npub :
  row_valid r → fields_wf f → row_valid (updated_row r w f npub).
Proof.
  unfold updated_row. destruct (write_newer r w); [|done]. rewrite !row_valid_holds.
  intros (f0 & st & [] & _) Hv. exists f, st. by split.
Qed.

Lemma cancel_event_row_valid r : row_valid r → row_valid (cancel_event_row r).
Proof.
  rewrite !row_valid_holds. intros (f & st & [] & Hv). exists f, Cancelled. by split.
Qed.

Lemma new_event_row_valid parent group series f npub ms hash :
  fields_wf f → row_valid (new_event_row parent group series f npub ms hash).
Proof. intros Hv. apply row_valid_holds. exists f, Active. by split. Qed.

Lemma rows_valid_put_event d id r : rows_valid d → row_valid r → rows_valid (put_event id r d).
Proof. intros [He Hr] Hv. split; [|done]. by apply map_Forall_insert_2. Qed.

Lemma rows_valid_rsvp_write d id npub st ms rumor :
  rows_valid d → rows_valid (rsvp_write d id npub st ms rumor).2.
Proof.
  intros [He Hr]. unfold rsvp_write, rsvp_spec.
  assert (rsvp_valid (mkRsvpRow (RsvpStatus_as_str st) ms rumor)) as Hv.
  { unfold rsvp_valid. simpl. rewrite RsvpStatus_parse_as_str. eauto. }
  assert (rows_valid (put_rsvp id npub (Some (mkRsvpRow (RsvpStatus_as_str st) ms rumor)) d))
    as Hput by (split; [done|]; by apply map_Forall_insert_2).
  destruct (db_rsvps d !! (id, npub)) as [r|] eqn:E; simpl; [|done].
  destruct (bool_decide _); simpl; [by rewrite <- E, put_rsvp_same|].
  by destruct (_ <=? _); simpl; [rewrite <- E, put_rsvp_same|].
Qed.

#[export] Instance rows_valid_kept : ReplicaKept (λ d d', rows_valid d → rows_valid d').
Proof.
  split.
  - by intros d.
  - intros d1 d2 d3. auto.
  - intros w meta role now d d' Hs Hv.
    destruct Hs as [|id f _ _ _ _ Hf Hmc|id r f r' _ _ Hr Hf _ _ Hr'|id r st|]; [done|..].
    + unfold create_spec. rewrite Hmc. simpl. apply fields_from_wire_wf in Hf.
      assert (rows_valid (put_event id (new_event_row (w_parent_id w) (om_mls_group_id meta)
        (w_series_id w) f (om_signer_npub meta) (w_updated_at_ms w)
        (content_hash w (om_signer_npub meta))) d)) as Hput
        by by apply rows_valid_put_event, new_event_row_valid.
      destruct (w_rsvp w); [by apply rows_valid_rsvp_write|done].
    + apply rows_valid_put_event; [done|]. apply fields_from_wire_wf in Hf.
      pose proof (rv_events _ Hv id r Hr) as Hrv.
      assert (row_valid (updated_row r w f (om_signer_npub meta))) by by apply updated_row_valid.
      destruct Hr' as [-> | ->]; [done|]. unfold written_row.
      destruct (write_cancels r w); [by apply cancel_event_row_valid|done].
    + by apply rows_valid_rsvp_write.
    + by destruct Hv.
  - intros now d []. by split.
  - intros k d []. by split.
  - intros chats d []. by split.
Qed.

Lemma row_valid_ok r : row_valid r → row_ok r.
Proof.
  intros (row & Hd & _).
  apply row_from_sql_ok in Hd as []. unfold row_ok. split; [by destruct dc_kind|]. split.
  - rewrite dc_place, Place_parse_as_str. eauto.
  - rewrite dc_status, EventStatus_parse_as_str. eauto.
Qed.

Lemma rows_valid_ok d : rows_valid d → rows_ok d.
Proof. intros [He _] k r Hr. eapply row_valid_ok, He, Hr. Qed.
End valid.
