(* ===== verification/EventConverge.v ===== *)
(** * Convergence: delivery order does not matter

    A stored event row is a last-writer-wins register for its columns and a
    sticky flag for its status, an RSVP a register of its own; the replicas that
    get the same operations in different orders agree. *)

From S2P Require Import Prelude World Json Lww Chat Schema Records Pending.
From S2P Require Import CivilTime ContentPolicy EventModel EventValidation.
From S2P Require Import SquadEvent EventSpec EventRefines SquadEventCommands EventSteps.
From S2P Require Import EventSteps.

Section rows.
Context `{Chrono} `{SerdeText} `{Hashing}.

(** A write that reached the replica: the wire, its decoded fields, its signer. *)
Record Delivery : Type := mkDelivery {
  dl_wire : EventWire;
  dl_meta : OpMeta;
  dl_role : SquadGroupRole;
  dl_now : Z;
  dl_fields : EventFields;
}.

Definition dl_npub (x : Delivery) : string := om_signer_npub (dl_meta x).
Definition dl_stamp (x : Delivery) : Z := w_updated_at_ms (dl_wire x).
Definition dl_hash (x : Delivery) : string := content_hash (dl_wire x) (dl_npub x).
Definition dl_cancels (x : Delivery) : Prop := w_op (dl_wire x) = Cancel.

Definition row_apply (r : EventSqlRow) (x : Delivery) : EventSqlRow :=
  (write_spec r (dl_wire x) (dl_fields x) (dl_meta x) (dl_role x)).2.

(** The columns a write sets, the others blanked. *)
Definition content_of (r : EventSqlRow) : EventSqlRow :=
  mkEventSqlRow "" "" None (e_nip52_kind r) (e_title r) (e_summary r) (e_start_unix r)
    (e_end_unix r) (e_start_date r) (e_end_date r) (e_start_tzid r) (e_place_kind r)
    (e_location r) (e_channel_id r) "" "" 0 (e_updated_at_ms r) (e_updated_by_npub r)
    (e_content_hash r).
Definition delivered (x : Delivery) (r : EventSqlRow) : EventSqlRow :=
  update_event_row (dl_fields x) (dl_stamp x) (dl_npub x) (dl_hash x) r.
Definition blank_row : EventSqlRow :=
  mkEventSqlRow "" "" None 0 "" "" None None None None "" "" "" None "" "" 0 0 "" "".

(** The row may take the write; a write it already holds changes nothing. *)
Definition delivery_ok (r : EventSqlRow) (x : Delivery) : Prop :=
  write_allowed r (dl_wire x) (dl_meta x) (dl_role x) = true ∧
  (dl_hash x = e_content_hash r →
   dl_stamp x ≤ e_updated_at_ms r ∧ (dl_cancels x → e_status r = "cancelled")).

(** No hash collision between different writes. *)
Definition delivery_compat (x y : Delivery) : Prop :=
  dl_hash x = dl_hash y → dl_stamp x = dl_stamp y ∧ (dl_cancels x ↔ dl_cancels y).

#[export] Instance row_register : Register EventSqlRow Delivery EventSqlRow := {
  reg_stamp := e_updated_at_ms;
  reg_val := content_of;
  wr_stamp := dl_stamp;
  wr_val x := content_of (delivered x blank_row);
  reg_ok := delivery_ok;
  wr_compat := delivery_compat;
  reg_apply := row_apply;
}.

Lemma write_newer_spec r x : write_newer r (dl_wire x) = true ↔ e_updated_at_ms r < dl_stamp x.
Proof. unfold write_newer, dl_stamp. rewrite Z.gtb_ltb. apply Z.ltb_lt. Qed.

Lemma write_cancels_spec r x :
  write_cancels r (dl_wire x) = true ↔ dl_cancels x ∧ e_status r ≠ "cancelled".
Proof.
  unfold write_cancels, dl_cancels.
  by rewrite andb_true_iff, negb_true_iff, bool_decide_eq_true, bool_decide_eq_false.
Qed.

(** One applied write, by cases. *)
Lemma row_apply_newer r x :
  delivery_ok r x → e_updated_at_ms r < dl_stamp x →
  row_apply r x = if write_cancels r (dl_wire x)
                  then cancel_event_row (delivered x r) else delivered x r.
Proof.
  intros [Ha Hh] Hn. unfold row_apply, write_spec. rewrite Ha. simpl.
  rewrite bool_decide_eq_false_2 by (intros He; destruct (Hh He); lia).
  pose proof (proj2 (write_newer_spec r x) Hn) as Hw. rewrite Hw. simpl.
  unfold written_row, updated_row. by rewrite Hw.
Qed.

Lemma row_apply_older r x :
  delivery_ok r x → dl_stamp x ≤ e_updated_at_ms r →
  row_apply r x = if write_cancels r (dl_wire x) then cancel_event_row r else r.
Proof.
  intros [Ha Hh] Hn. unfold row_apply, write_spec. rewrite Ha. simpl.
  assert (write_newer r (dl_wire x) = false) as Hw.
  { apply not_true_iff_false. rewrite write_newer_spec. lia. }
  destruct (bool_decide _) eqn:He; bool_facts; simpl.
  - destruct (write_cancels r (dl_wire x)) eqn:Hc; [|done].
    apply write_cancels_spec in Hc as [Hc Hs]. by destruct (Hh He) as [_ Hs']; destruct Hs, Hs'.
  - rewrite Hw. simpl. unfold written_row, updated_row. rewrite Hw.
    by destruct (write_cancels r (dl_wire x)).
Qed.

Lemma row_apply_identity r x :
  e_parent_id (row_apply r x) = e_parent_id r ∧ e_mls_group_id (row_apply r x) = e_mls_group_id r ∧
  e_series_id (row_apply r x) = e_series_id r ∧ e_author_npub (row_apply r x) = e_author_npub r ∧
  e_created_at_ms (row_apply r x) = e_created_at_ms r.
Proof.
  unfold row_apply, write_spec, written_row, updated_row.
  repeat (case_match; simpl); done.
Qed.

Lemma row_apply_status r x :
  delivery_ok r x →
  e_status (row_apply r x) = "cancelled" ↔ e_status r = "cancelled" ∨ dl_cancels x.
Proof.
  intros Hok. destruct (Z.lt_ge_cases (e_updated_at_ms r) (dl_stamp x));
    [rewrite row_apply_newer by done|rewrite row_apply_older by done];
    destruct (write_cancels r (dl_wire x)) eqn:Hc; simpl;
    try (apply write_cancels_spec in Hc; tauto);
    (split; [tauto|intros [?|Hx]; [done|]]; destruct (decide (e_status r = "cancelled")); [done|];
     exfalso; apply not_true_iff_false in Hc; apply Hc, write_cancels_spec; done).
Qed.

#[export] Instance row_register_laws : RegisterLaws EventSqlRow Delivery EventSqlRow.
Proof.
  split; simpl.
  - intros r x Hok Hn. rewrite row_apply_newer by done. by destruct (write_cancels _ _).
  - intros r x Hok Hn. rewrite row_apply_older by done. by destruct (write_cancels _ _).
  - intros r x y [Ha Hh] Hy Hc. pose proof (row_apply_identity r y) as (Hp & Hg & _ & Hau & _).
    split.
    { revert Ha. unfold write_allowed. by rewrite Hp, Hg, Hau. }
    intros He. pose proof (row_apply_status r y Hy) as Hst.
    destruct (Z.lt_ge_cases (e_updated_at_ms r) (dl_stamp y)) as [Hn|Hn].
    + assert (e_content_hash (row_apply r y) = dl_hash y ∧
              e_updated_at_ms (row_apply r y) = dl_stamp y) as [Hh' Hu].
      { rewrite row_apply_newer by done. by destruct (write_cancels _ _). }
      rewrite Hh' in He. destruct (Hc He) as [Hs Hcc]. split; [lia|]. tauto.
    + assert (e_content_hash (row_apply r y) = e_content_hash r ∧
              e_updated_at_ms (row_apply r y) = e_updated_at_ms r) as [Hh' Hu].
      { rewrite row_apply_older by done. by destruct (write_cancels _ _). }
      rewrite Hh' in He. destruct (Hh He) as [Hs Hcc]. split; [lia|]. tauto.
Qed.

(** ** Whole rows *)

Lemma row_fold_identity xs : ∀ r,
  e_parent_id (reg_fold r xs) = e_parent_id r ∧ e_mls_group_id (reg_fold r xs) = e_mls_group_id r ∧
  e_series_id (reg_fold r xs) = e_series_id r ∧ e_author_npub (reg_fold r xs) = e_author_npub r ∧
  e_created_at_ms (reg_fold r xs) = e_created_at_ms r.
Proof.
  induction xs as [|x xs IH]; intros r; [done|].
  change (reg_fold r (x :: xs)) with (reg_fold (row_apply r x) xs).
  destruct (IH (row_apply r x)) as (-> & -> & -> & -> & ->). apply row_apply_identity.
Qed.

Lemma row_fold_status xs : ∀ r, writes_ok r xs →
  e_status (reg_fold r xs) = "cancelled" ↔ e_status r = "cancelled" ∨ ∃ x, x ∈ xs ∧ dl_cancels x.
Proof.
  induction xs as [|x xs IH]; intros r Hok.
  { split; [by left|]. intros [?|(x & []%not_elem_of_nil & _)]. done. }
  change (reg_fold r (x :: xs)) with (reg_fold (row_apply r x) xs).
  pose proof (writes_ok_tail r x xs Hok) as Hok'. rewrite (IH (row_apply r x) Hok').
  destruct Hok as [[Hx _]%Forall_cons _]. rewrite row_apply_status by done.
  setoid_rewrite elem_of_cons. naive_solver.
Qed.

(** Statuses other than the two the code writes never appear. *)
Definition status_known (r : EventSqlRow) : Prop :=
  e_status r = "active" ∨ e_status r = "cancelled".

Lemma row_fold_status_known xs : ∀ r, status_known r → status_known (reg_fold r xs).
Proof.
  induction xs as [|x xs IH]; intros r Hs; [done|].
  change (reg_fold r (x :: xs)) with (reg_fold (row_apply r x) xs). apply IH.
  unfold row_apply, write_spec, written_row, updated_row.
  repeat (case_match; simpl); try done; by right.
Qed.

Lemma row_eq r r' :
  content_of r = content_of r' → e_parent_id r = e_parent_id r' →
  e_mls_group_id r = e_mls_group_id r' → e_series_id r = e_series_id r' →
  e_author_npub r = e_author_npub r' → e_created_at_ms r = e_created_at_ms r' →
  e_status r = e_status r' → r = r'.
Proof. destruct r, r'. unfold content_of; simpl. intros [=]; intros; by simplify_eq. Qed.

Lemma row_fold_converges r xs ys :
  status_known r → xs ≡ₚ ys → writes_ok r xs → NoDup (dl_stamp <$> xs) →
  reg_fold r xs = reg_fold r ys.
Proof.
  intros Hst Hp Hok Hnd. pose proof (writes_ok_perm r xs ys Hp Hok) as Hok'.
  pose proof (reg_converges r xs ys Hp Hok Hnd) as Hv.
  destruct (row_fold_identity xs r) as (I1 & I2 & I3 & I4 & I5).
  destruct (row_fold_identity ys r) as (J1 & J2 & J3 & J4 & J5).
  apply row_eq; try congruence; [exact (f_equal snd Hv)|].
  pose proof (row_fold_status xs r Hok) as Hx. pose proof (row_fold_status ys r Hok') as Hy.
  assert ((∃ x, x ∈ xs ∧ dl_cancels x) ↔ (∃ x, x ∈ ys ∧ dl_cancels x)) as Hxy
    by (split; intros (x & Hin & Hc); exists x; split; [|done| |done];
        [by rewrite <- Hp|by rewrite Hp]).
  destruct (row_fold_status_known xs r Hst) as [Ha|Ha],
    (row_fold_status_known ys r Hst) as [Hb|Hb]; try congruence; exfalso.
  - assert (e_status (reg_fold r xs) = "cancelled") by tauto. congruence.
  - assert (e_status (reg_fold r ys) = "cancelled") by tauto. congruence.
Qed.
End rows.

(** ** Delivering writes through [apply_op] *)

Section deliver.
Context `{Chrono} `{SerdeText} `{Hashing} `{Rusqlite}.

Definition deliver (x : Delivery) : Act unit :=
  apply_op (dl_wire x) (dl_meta x) (dl_role x) (dl_now x) ;! mret tt.
Definition deliver_all (xs : list Delivery) : Act unit := foldM (λ _ x, deliver x) tt xs.

(** A field write addressed to the event: a replayed create of the same series,
    an update, or a marked cancel. *)
Record write_delivery (id : string) (r : EventSqlRow) (x : Delivery) : Prop := {
  wd_id : w_id (dl_wire x) = Some id;
  wd_admitted : admitted (dl_wire x) (dl_meta x) (dl_role x);
  wd_fields : fields_from_wire (dl_wire x) = Some (dl_fields x);
  wd_op : (w_op (dl_wire x) = Create ∧ e_series_id r = w_series_id (dl_wire x)) ∨
          ((w_op (dl_wire x) = Update ∨ w_op (dl_wire x) = Cancel) ∧
           cancel_marked (dl_wire x) = true);
}.

Lemma apply_spec_write id r x d :
  write_delivery id r x → db_events d !! id = Some r →
  (apply_spec d (dl_wire x) (dl_meta x) (dl_role x) (dl_now x)).2 =
    put_event id (row_apply r x) d.
Proof.
  intros [Hid [Hm Hp] Hf Hop] Hr. unfold apply_spec. rewrite Hm, Hp. simpl.
  rewrite bool_decide_eq_false_2 by (destruct Hop as [[-> _]|[[-> | ->] _]]; done).
  rewrite Hid, Hr. unfold stored_spec, row_apply. rewrite Hf.
  destruct Hop as [[-> Hs]|[[-> | ->] Hc]].
  - rewrite bool_decide_eq_true_2 by done. by destruct (write_spec _ _ _ _ _).
  - rewrite Hc. by destruct (write_spec _ _ _ _ _).
  - rewrite Hc. by destruct (write_spec _ _ _ _ _).
Qed.

Lemma deliver_lwp id r x o :
  rows_valid (o_db o) → db_events (o_db o) !! id = Some r → write_delivery id r x →
  lwp (deliver x) o (λ _ o', rows_valid (o_db o') ∧
    db_events (o_db o') !! id = Some (row_apply r x)).
Proof.
  intros Hv Hr Hx. unfold deliver. lstep.
  eapply lwp_mono; [eapply lwp_dwp; [apply apply_op_lwp; by apply rows_valid_ok|]|].
  { apply (kept_apply_op (λ d d', rows_valid d → rows_valid d')). }
  intros a o' [[_ Ha] Hk]. lstep. split; [by apply Hk|].
  apply (f_equal snd) in Ha. simpl in Ha. rewrite Ha, (apply_spec_write id r) by done.
  apply put_event_lookup.
Qed.

Lemma write_delivery_apply id r x y :
  write_delivery id r x → write_delivery id (row_apply r y) x.
Proof.
  intros [? ? ? Hop]. destruct (row_apply_identity r y) as (_ & _ & Hs & _).
  split; try done. by rewrite Hs.
Qed.

Lemma deliver_all_lwp id r xs o :
  rows_valid (o_db o) → db_events (o_db o) !! id = Some r →
  Forall (write_delivery id r) xs → writes_ok r xs →
  lwp (deliver_all xs) o (λ _ o', db_events (o_db o') !! id = Some (reg_fold r xs)).
Proof.
  intros Hv Hr Hx Hok.
  eapply lwp_mono;
    [eapply (lwp_foldM _ (λ l _ o', ∃ r', rows_valid (o_db o') ∧
      db_events (o_db o') !! id = Some r' ∧ Forall (write_delivery id r') l ∧
      writes_ok r' l ∧ reg_fold r' l = reg_fold r xs))|].
  - intros x l [] o1 (r' & Hv' & Hr' & [Hx' Hl]%Forall_cons & Hok' & Hf).
    eapply lwp_mono; [by apply (deliver_lwp id r')|]. intros _ o2 [Hv2 Hr2].
    exists (row_apply r' x). split_and!; [done|done| | |done].
    + eapply Forall_impl; [exact Hl|]. intros y. apply write_delivery_apply.
    + exact (writes_ok_tail r' x l Hok').
  - exists r. done.
  - intros _ o' (r' & _ & Hr' & _ & _ & Hf). by rewrite <- Hf.
Qed.

(** ** RSVPs *)

Record RsvpWrite : Type := mkRsvpWrite {
  rw_status : RsvpStatus; rw_stamp : Z; rw_rumor : string;
}.

Definition rsvp_apply (s : option RsvpRow) (x : RsvpWrite) : option RsvpRow :=
  (rsvp_spec s (rw_status x) (rw_stamp x) (rw_rumor x)).2.

#[export] Instance rsvp_register : Register (option RsvpRow) RsvpWrite (option RsvpRow) := {
  reg_stamp s := from_option rs_updated_at_ms (-1) s;
  reg_val s := s;
  wr_stamp := rw_stamp;
  wr_val x := Some (mkRsvpRow (RsvpStatus_as_str (rw_status x)) (rw_stamp x) (rw_rumor x));
  reg_ok s x := 0 ≤ rw_stamp x ∧
    ∀ r, s = Some r → rs_rumor_id r = rw_rumor x → rw_stamp x ≤ rs_updated_at_ms r;
  wr_compat x y := rw_rumor x = rw_rumor y → rw_stamp x = rw_stamp y;
  reg_apply := rsvp_apply;
}.

#[export] Instance rsvp_register_laws :
  RegisterLaws (option RsvpRow) RsvpWrite (option RsvpRow).
Proof.
  split; simpl; unfold rsvp_apply, rsvp_spec.
  - intros [r|] x [H0' Hok] Hlt; simpl in *; [|done]. specialize (Hok r eq_refl).
    destruct (bool_decide _) eqn:E; bool_facts; simpl; [specialize (Hok E); lia|].
    destruct (_ <=? _) eqn:E'; bool_facts; simpl; [lia|done].
  - intros [r|] x [H0' Hok] Hle; simpl in *; [|lia].
    destruct (bool_decide _); [done|]. destruct (_ <=? _) eqn:E'; bool_facts; simpl; [done|lia].
  - intros [r|] x y [H0' Hok] [H0'' Hoky] Hc; simpl in *; (split; [done|]).
    + intros r'. destruct (bool_decide _); simpl; [naive_solver|].
      destruct (_ <=? _); simpl; [naive_solver|]. intros [= <-] He. simpl in *.
      rewrite Hc by done. done.
    + intros r' [= <-] He. simpl in *. by rewrite Hc by done.
Qed.

(** An RSVP of [npub] to the stored event. *)
Record rsvp_delivery (id npub : string) (r : EventSqlRow) (x : Delivery) (y : RsvpWrite)
    : Prop := {
  rv_id : w_id (dl_wire x) = Some id;
  rv_admitted : admitted (dl_wire x) (dl_meta x) (dl_role x);
  rv_op : w_op (dl_wire x) = Rsvp;
  rv_npub : dl_npub x = npub;
  rv_group : e_mls_group_id r = om_mls_group_id (dl_meta x);
  rv_parent : e_parent_id r = w_parent_id (dl_wire x);
  rv_status : w_status (dl_wire x) = Some (RsvpStatus_as_str (rw_status y));
  rv_stamp : rw_stamp y = dl_stamp x;
  rv_rumor : rw_rumor y = om_rumor_id (dl_meta x);
}.

Lemma put_rsvp_lookup d id npub s : db_rsvps (put_rsvp id npub s d) !! (id, npub) = s.
Proof. apply (lookup_partial_alter_eq (λ _, s) (db_rsvps d)). Qed.

Lemma apply_spec_rsvp id npub r x y d :
  rsvp_delivery id npub r x y → db_events d !! id = Some r →
  (apply_spec d (dl_wire x) (dl_meta x) (dl_role x) (dl_now x)).2 =
    put_rsvp id npub (rsvp_apply (db_rsvps d !! (id, npub)) y) d.
Proof.
  intros [Hid [Hm Hp] Hop <- Hg Hpa Hst Hms Hru] Hr. unfold apply_spec. rewrite Hm, Hp. simpl.
  rewrite bool_decide_eq_false_2 by (rewrite Hop; done).
  rewrite Hid, Hr. unfold stored_spec. rewrite Hop, Hst. simpl.
  rewrite RsvpStatus_parse_as_str, !bool_decide_eq_true_2 by done. simpl.
  unfold rsvp_write, rsvp_apply. rewrite Hms, Hru. unfold dl_npub, dl_stamp.
  by destruct (rsvp_spec _ _ _ _).
Qed.

Lemma deliver_rsvp_lwp id npub r x y o :
  rows_valid (o_db o) → db_events (o_db o) !! id = Some r → rsvp_delivery id npub r x y →
  lwp (deliver x) o (λ _ o', rows_valid (o_db o') ∧ db_events (o_db o') !! id = Some r ∧
    db_rsvps (o_db o') !! (id, npub) = rsvp_apply (db_rsvps (o_db o) !! (id, npub)) y).
Proof.
  intros Hv Hr Hx. unfold deliver. lstep.
  eapply lwp_mono; [eapply lwp_dwp; [apply apply_op_lwp; by apply rows_valid_ok|]|].
  { apply (kept_apply_op (λ d d', rows_valid d → rows_valid d')). }
  intros a o' [[_ Ha] Hk]. lstep. split; [by apply Hk|].
  apply (f_equal snd) in Ha. simpl in Ha. rewrite Ha, (apply_spec_rsvp id npub r x y) by done.
  split; [done|]. apply put_rsvp_lookup.
Qed.

Lemma deliver_rsvps_lwp id npub r : ∀ xs ys o,
  rows_valid (o_db o) → db_events (o_db o) !! id = Some r →
  Forall2 (rsvp_delivery id npub r) xs ys →
  lwp (deliver_all xs) o (λ _ o',
    db_rsvps (o_db o') !! (id, npub) = reg_fold (db_rsvps (o_db o) !! (id, npub)) ys).
Proof.
  induction xs as [|x xs IH]; intros ys o Hv Hr Hf.
  - apply Forall2_nil_inv_l in Hf as ->. by apply lwp_ret.
  - apply Forall2_cons_inv_l in Hf as (y & ys' & Hx & Hf & ->).
    unfold deliver_all. simpl. lstep. eapply lwp_mono; [by apply (deliver_rsvp_lwp id npub r x y)|].
    intros [] o1 (Hv1 & Hr1 & Hs1).
    eapply lwp_mono; [by apply (IH ys' o1)|]. intros [] o2 Hs2. simpl in *. by rewrite Hs2, Hs1.
Qed.
End deliver.
