(* ===== verification/EventQueue.v ===== *)
(** * The queue of early children: bound, drain, and order independence

    Operations that arrive before their create wait in the queue; draining leaves
    none behind, and gives the event the row it would have had if the create had
    come first. *)

From S2P Require Import Prelude World Json Lww Chat Schema Records Pending.
From S2P Require Import CivilTime ContentPolicy EventModel EventValidation.
From S2P Require Import SquadEvent EventSpec EventRefines SquadEventCommands EventSteps.
From S2P Require Import EventSteps EventConverge.

Section queue.
Context `{Chrono} `{SerdeText} `{Hashing} `{Rusqlite}.

(** ** A stored event's operations never queue *)

Lemma step_stored_pending w meta role now d d' id :
  ev_step w meta role now d d' → w_id w = Some id → is_Some (db_events d !! id) →
  db_pending d' = db_pending d ∧ is_Some (db_events d' !! id).
Proof.
  intros Hs Hid Hr. pose proof (ev_step_le _ _ _ _ _ _ Hs) as [Hle _].
  assert (is_Some (db_events d' !! id)) as Hr'.
  { destruct Hr as [r Hr]. destruct (Hle id r Hr) as (r' & -> & _). eauto. }
  split; [|done].
  destruct Hs as [|id' f _ Hid' Hn _ _ Hmc|id' r0 f r' _ Hid' Hr0 _ _ _ _|
    id' r0 st _ Hid' Hr0 _ _ _|id' f _ Hid' Hn _ _]; try done.
  - rewrite Hid in Hid'. injection Hid' as <-. rewrite Hn in Hr. by destruct Hr.
  - unfold rsvp_write. by destruct (rsvp_spec _ _ _ _).
  - rewrite Hid in Hid'. injection Hid' as <-. rewrite Hn in Hr. by destruct Hr.
Qed.

(** Every queued row of the event is still to be visited. *)
Definition left_to_drain (id : string) (l : list (string * PendingRow)) (o : Obs) : Prop :=
  is_Some (db_events (o_db o) !! id) ∧
  ∀ k r, db_pending (o_db o) !! k = Some r → p_record_id r = id → k ∈ l.*1.

Lemma drain_one_dwp id role_of now b kr l o :
  left_to_drain id (kr :: l) o →
  dwp (drain_one id role_of now b kr) o (λ r o', is_okb r = true → left_to_drain id l o').
Proof.
  intros [Hr Hl]. destruct kr as [k row]. unfold drain_one.
  apply dwp_bind. apply dwp_mono with (P := λ _ o', left_to_drain id ((k, row) :: l) o').
  - destruct (parse_wire _) as [w|]; [|by apply dwp_ret].
    destruct (bool_decide (w_id w = Some id)) eqn:Hid; bool_facts; [|by apply dwp_ret].
    apply dwp_bind. eapply dwp_mono; [apply apply_op_step|]. intros r o' [_ Hs].
    destruct (step_stored_pending _ _ _ _ _ _ id Hs Hid Hr) as [Hp Hr'].
    assert (left_to_drain id ((k, row) :: l) o') as Hl'.
    { split; [done|]. rewrite Hp. exact Hl. }
    destruct r; [by apply dwp_ret|done].
  - intros [b'|e] o' [Hr' Hl']; [|done]. dstep. dstep; [done|]. apply dwp_ret. intros _.
    split; [done|]. simpl. intros k' r' [Hne Hk']%lookup_delete_Some Hid'. simpl in *.
    specialize (Hl' k' r' Hk' Hid'). by apply elem_of_cons in Hl' as [->|?].
Qed.

Lemma drain_loop_dwp id role_of now rows : ∀ b o,
  left_to_drain id rows o →
  dwp (foldM (drain_one id role_of now) b rows) o
    (λ r o', is_okb r = true → left_to_drain id [] o').
Proof.
  induction rows as [|kr rows IH]; intros b o Hl; simpl; [by apply dwp_ret|].
  apply dwp_bind. eapply dwp_mono; [by apply drain_one_dwp|].
  intros [b'|e] o' Hl'; [|done]. by apply IH, Hl'.
Qed.

(** ** The effect of one operation on events and RSVPs *)

(** The tables an operation on a stored event looks at. *)
Record agree (d d' : Db) : Prop := {
  ag_events : db_events d = db_events d';
  ag_rsvps : db_rsvps d = db_rsvps d';
  ag_policies : db_policies d = db_policies d';
}.

Lemma agree_put_event id r d d' : agree d d' → agree (put_event id r d) (put_event id r d').
Proof. intros [He Hr Hp]. split; simpl; congruence. Qed.

Lemma agree_rsvp_write d d' id npub st ms rumor :
  agree d d' → agree (rsvp_write d id npub st ms rumor).2 (rsvp_write d' id npub st ms rumor).2.
Proof.
  intros [He Hr Hp]. unfold rsvp_write. rewrite Hr. destruct (rsvp_spec _ _ _ _).
  split; simpl; congruence.
Qed.

Lemma stored_spec_agree d d' id r w meta role :
  agree d d' → agree (stored_spec d id r w meta role).2 (stored_spec d' id r w meta role).2.
Proof.
  intros Ha. unfold stored_spec.
  assert (∀ f, agree (let '(a, r') := write_spec r w f meta role in (a, put_event id r' d)).2
                     (let '(a, r') := write_spec r w f meta role in (a, put_event id r' d')).2)
    as Hw by (intros f; destruct (write_spec _ _ _ _ _); by apply agree_put_event).
  destruct (w_op w); try done.
  1,2,4: destruct (fields_from_wire w); [|done]; by case_match.
  destruct (w_status w ≫= _); [|done]. destruct (_ && _); [|done]. by apply agree_rsvp_write.
Qed.

Lemma apply_spec_stored id r w meta role now d :
  w_id w = Some id → admitted w meta role → w_op w ≠ SeriesCard →
  db_events d !! id = Some r →
  apply_spec d w meta role now = stored_spec d id r w meta role.
Proof.
  intros Hid [Hm Hp] Hop Hr. unfold apply_spec. rewrite Hm, Hp. simpl.
  rewrite bool_decide_eq_false_2 by done. by rewrite Hid, Hr.
Qed.

(** ** Early and late children *)

Record child_delivery (id : string) (x : Delivery) : Prop := {
  cd_id : w_id (dl_wire x) = Some id;
  cd_admitted : admitted (dl_wire x) (dl_meta x) (dl_role x);
  cd_child : child_ok (dl_wire x) = true;
  cd_typed : wire_typed (dl_wire x);
  cd_addressed : wire_addressed (dl_wire x);
}.

Record create_delivery (id : string) (d : Db) (c : Delivery) : Prop := {
  cr_id : w_id (dl_wire c) = Some id;
  cr_admitted : admitted (dl_wire c) (dl_meta c) (dl_role c);
  cr_op : w_op (dl_wire c) = Create;
  cr_fields : fields_from_wire (dl_wire c) = Some (dl_fields c);
  cr_allowed : may_create_spec d (w_parent_id (dl_wire c)) (dl_role c) = true;
}.

Lemma child_op id x : child_delivery id x → w_op (dl_wire x) ≠ SeriesCard ∧ w_op (dl_wire x) ≠ Create.
Proof. intros []. unfold child_ok in *. by destruct (w_op (dl_wire x)). Qed.

Lemma apply_spec_child id x d :
  child_delivery id x → db_events d !! id = None →
  (apply_spec d (dl_wire x) (dl_meta x) (dl_role x) (dl_now x)).2 =
    queue_spec id (dl_wire x) (dl_meta x) (dl_now x) d.
Proof.
  intros Hx Hr. destruct (child_op id x Hx) as [Hs Hc]. destruct Hx as [Hid [Hm Hp] Hch _ _].
  unfold apply_spec. rewrite Hm, Hp. simpl. rewrite bool_decide_eq_false_2 by done.
  rewrite Hid, Hr. unfold missing_spec. rewrite Hch. by destruct (w_op (dl_wire x)).
Qed.

Lemma apply_spec_create id c d :
  create_delivery id d c → db_events d !! id = None →
  (apply_spec d (dl_wire c) (dl_meta c) (dl_role c) (dl_now c)).2 =
    (create_spec d id (dl_wire c) (dl_fields c) (dl_meta c) (dl_role c)).2.
Proof.
  intros [Hid [Hm Hp] Hop Hf Ha] Hr.
  unfold apply_spec. rewrite Hm, Hp. simpl. rewrite bool_decide_eq_false_2 by by rewrite Hop.
  rewrite Hid, Hr. unfold missing_spec. by rewrite Hop, Hf.
Qed.

Lemma create_spec_agree d d' id w f meta role :
  agree d d' → agree (create_spec d id w f meta role).2 (create_spec d' id w f meta role).2.
Proof.
  intros Ha. unfold create_spec, may_create_spec, stored_policy. rewrite (ag_policies _ _ Ha).
  destruct (negb _); [done|]. simpl.
  destruct (w_rsvp w); [apply agree_rsvp_write|]; by apply agree_put_event.
Qed.

Lemma create_spec_facts d id w f meta role :
  may_create_spec d (w_parent_id w) role = true →
  is_Some (db_events (create_spec d id w f meta role).2 !! id) ∧
  db_pending (create_spec d id w f meta role).2 = db_pending d.
Proof.
  intros Ha. unfold create_spec. rewrite Ha. simpl.
  assert (is_Some (db_events (put_event id (new_event_row (w_parent_id w) (om_mls_group_id meta)
    (w_series_id w) f (om_signer_npub meta) (w_updated_at_ms w)
    (content_hash w (om_signer_npub meta))) d) !! id)) as Hs
    by (rewrite put_event_lookup; eauto).
  destruct (w_rsvp w); [|done]. unfold rsvp_write. by destruct (rsvp_spec _ _ _ _).
Qed.

(** The child waits in the queue, and nothing else does for this event. *)
Record waiting (id : string) (x : Delivery) (m : pending) : Prop := {
  wt_row : m !! om_rumor_id (dl_meta x) = Some (queued_row id (dl_wire x) (dl_meta x));
  wt_only : ∀ k r, m !! k = Some r → p_record_id r = id → k = om_rumor_id (dl_meta x);
}.

Lemma queue_waiting id x d :
  (∀ k r, db_pending d !! k = Some r → p_record_id r ≠ id) →
  db_pending d !! om_rumor_id (dl_meta x) = None →
  (length (author_rows (w_parent_id (dl_wire x)) (dl_npub x) (db_pending d))
     < MAX_PENDING_PER_AUTHOR)%nat →
  waiting id x (db_pending (queue_spec id (dl_wire x) (dl_meta x) (dl_now x) d)).
Proof.
  intros Hno Hfresh Hlen. unfold queue_spec. simpl.
  assert (purge_spec (dl_now x) (db_pending d) !! om_rumor_id (dl_meta x) = None) as Hp.
  { destruct (purge_spec _ _ !! _) eqn:E; [|done]. apply purge_rows_lookup in E as [E _]. congruence. }
  rewrite trim_rows_id.
  - split.
    + apply insert_or_ignore_lookup. auto.
    + intros k r [[Hk _]%purge_rows_lookup|(_ & -> & _)]%insert_or_ignore_lookup Hid; [|done].
      by destruct (Hno k r).
  - unfold enqueue_spec, insert_or_ignore. rewrite Hp.
    etrans; [by apply author_rows_insert|].
    pose proof (author_rows_subseteq (w_parent_id (dl_wire x)) (dl_npub x) _ _
      (purge_rows_subseteq (saturating_sub (dl_now x) PENDING_TTL_MS) (db_pending d))) as Hle.
    unfold purge_spec, dl_npub in *. lia.
Qed.

(** Draining applies the waiting child under the role its author has now. *)
Lemma drain_waiting `{!SerdeTextLaws} id x r role_of now o :
  rows_valid (o_db o) → db_events (o_db o) !! id = Some r →
  child_delivery id x → waiting id x (db_pending (o_db o)) →
  role_of (dl_npub x) = dl_role x →
  saturating_sub now PENDING_TTL_MS ≤ dl_stamp x →
  lwp (drain_pending id role_of now) o (λ _ o',
    agree (stored_spec (o_db o) id r (dl_wire x) (dl_meta x) (dl_role x)).2 (o_db o')).
Proof.
  intros Hv Hr Hx [Hrow Hu] Hrole Httl. pose proof (child_op id x Hx) as [Hs _].
  destruct Hx as [Hid Hadm Hch Hty Had].
  unfold drain_pending, purge_expired_pending. lstep. lstep.
  set (m := purge_rows (saturating_sub now PENDING_TTL_MS) (db_pending (o_db o))).
  assert (m !! om_rumor_id (dl_meta x) = Some (queued_row id (dl_wire x) (dl_meta x))) as Hm.
  { apply purge_rows_lookup. split; [done|]. exact Httl. }
  assert (rows_of id m = [(om_rumor_id (dl_meta x), queued_row id (dl_wire x) (dl_meta x))]) as Hrows.
  { apply rows_of_single; [done..|]. intros k r' [Hk _]%purge_rows_lookup. by apply Hu. }
  lstep. eapply lwp_mono; [apply load_row_lwp; exact (rows_valid_ok _ Hv)|].
  intros row o' [-> Hload]. destruct row as [row|]; [|simpl in Hload; by rewrite Hr in Hload].
  lstep. lstep. change (rows_of id _) with (rows_of id m). rewrite Hrows. unfold foldM, drain_one.
  lstep. lstep. simpl. rewrite parse_ser_wire by done. rewrite bool_decide_eq_true_2 by done.
  lstep. eapply lwp_mono; [apply apply_op_lwp; exact (rows_valid_ok _ Hv)|].
  intros a o' [_ Ha]. apply (f_equal snd) in Ha. simpl in Ha.
  assert (mkOpMeta (om_rumor_id (dl_meta x)) (om_mls_group_id (dl_meta x))
    (om_signer_npub (dl_meta x)) = dl_meta x) as Hmeta by by destruct (dl_meta x).
  unfold dl_npub in Hrole. rewrite Hmeta, Hrole in Ha.
  rewrite (apply_spec_stored id r) in Ha by done.
  repeat lstep. rewrite Ha.
  assert (agree (o_db o) (set_pending (purge_rows (saturating_sub now PENDING_TTL_MS)) (o_db o)))
    as Hag by by split.
  by destruct (stored_spec_agree _ _ id r (dl_wire x) (dl_meta x) (dl_role x) Hag).
Qed.
End queue.
