(* ===== verification/EventOwn.v ===== *)
(** * Own writes and the listing

    What the webview can rely on: a send that reports success is in the local
    replica, and the listing is exactly the stored events with their RSVPs. *)

From S2P Require Import Prelude World Json Lww Chat Schema Records Pending.
From S2P Require Import CivilTime ContentPolicy EventModel EventValidation.
From S2P Require Import SquadEvent EventSpec EventRefines SquadEventCommands EventSteps.
From S2P Require Import EventSteps EventConverge EventQueue.

Section own.
Context `{Chrono} `{SerdeText} `{Hashing} `{Rusqlite} `{Nostr}.

(** A stored event's operation, through the shared apply path. *)
Lemma apply_and_emit_stored id r w meta role o :
  w_id w = Some id → admitted w meta role → w_op w ≠ SeriesCard →
  db_events (o_db o) !! id = Some r →
  dwp (apply_and_emit w meta role) o (λ res o', ∀ a, res = Ok a →
    a = (stored_spec (o_db o) id r w meta role).1 ∧
    replica_le (stored_spec (o_db o) id r w meta role).2 (o_db o')).
Proof.
  intros Hid Ha Hop Hr. unfold apply_and_emit. apply dwp_bind.
  apply dwp_mono with (P := λ res o', ∀ a, res = Ok a →
    a = (stored_spec (o_db o) id r w meta role).1 ∧
    o_db o' = (stored_spec (o_db o) id r w meta role).2).
  - unfold with_conn, now_ms. apply dwp_bind.
    apply dwp_quiet_any; [auto with quiet|]. intros [[]|e]; [|done].
    dstep. dstep. dstep. dstep. intros. eapply dwp_mono; [apply apply_op_dwp|].
    intros res o' [_ Hres] a ->. rewrite (apply_spec_stored id r) in Hres by done.
    destruct (stored_spec _ _ _ _ _ _). naive_solver.
  - intros [a|e] o' Hres; [|done]. destruct (Hres a eq_refl) as [-> Hdb]. rewrite <- Hdb.
    assert (keeps replica_le (
      let! drained :=
        match w_id w with
        | Some id =>
            if settled (stored_spec (o_db o) id r w meta role).1 then drain_stored id else mret false
        | None => mret false
        end in
      (if Applied.changed (stored_spec (o_db o) id r w meta role).1 || drained
       then emit_replica_updated (w_parent_id w) (w_id w) else mret tt) ;!
      mret (stored_spec (o_db o) id r w meta role).1)) as Hk.
    { unfold emit_replica_updated. keeps_tac. apply kept_drain_stored, _. }
    rewrite Hid in *.
    apply dwp_mono with (P := λ res o2, replica_le (o_db o') (o_db o2) ∧
      ∀ a, res = Ok a → a = (stored_spec (o_db o) id r w meta role).1).
    + apply dwp_and; [apply Hk|]. dstep.
      apply dwp_mono with (P := λ _ _, True); [by intros ? ?|]. intros [dr|e] o2 _; [|done].
      dstep. apply dwp_mono with (P := λ _ _, True); [by intros ? ?|].
      intros [[]|e] o3 _; [|done]. apply dwp_ret. by intros ? [= <-].
    + intros res o2 [Hle Hok] a Hr'. split; [by apply Hok|done].
Qed.

(** ** Cancelling and updating one's own view *)

Lemma editable_row_dwp group parent id npub role o :
  dwp (editable_row group parent id npub role) o (λ res o', o' = o ∧
    ∀ row, res = Ok row → is_member role = true ∧
      ∃ r, db_events (o_db o) !! id = Some r ∧ row_from_sql id r = Ok row ∧
        e_parent_id r = parent ∧ e_mls_group_id r = group ∧
        (e_author_npub r = npub ∨ is_admin role = true)).
Proof.
  unfold editable_row. destruct (is_member role) eqn:Hm; simpl; [|by apply dwp_throw].
  unfold row_in_parent, load_row. dstep. dstep. dstep; [done|].
  destruct (db_events (o_db o) !! id) as [r|] eqn:Hr; simpl in *;
    [|simplify_eq/=; by apply dwp_of_result].
  destruct (row_from_sql id r) as [row|e] eqn:Hd; [|done]. simplify_eq/=.
  apply dwp_of_result. destruct (_ && _) eqn:Hb; simpl; [|done].
  apply andb_true_iff in Hb as [Hp Hg]. bool_facts.
  pose proof (row_from_sql_ok _ _ _ Hd) as Hdec.
  rewrite (dc_author _ _ _ Hdec).
  destruct (bool_decide (e_author_npub r = npub)) eqn:Hau, (is_admin role) eqn:Had; simpl;
    [..|by apply dwp_throw];
    (apply dwp_ret; split; [done|]; intros row' [= <-]; split; [done|]; exists r;
     bool_facts; rewrite <- (dc_parent _ _ _ Hdec), <- (dc_group _ _ _ Hdec);
     split_and!; by auto).
Qed.

Lemma now_ms_dwp o (Q : result Z → Obs → Prop) :
  (∀ t, i64_ok t → Q (Ok t) o) → dwp now_ms o Q.
Proof.
  intros HQ. unfold now_ms. dstep. dstep. apply dwp_ret. apply HQ.
  destruct (t <? 0); [unfold i64_ok, i64_min, i64_max; lia|apply wrap64_ok].
Qed.

Lemma next_stamp_gt now stored :
  i64_ok stored → stored < i64_max → stored < next_stamp now stored.
Proof. intros Hs Hlt. pose proof (saturating_succ_gt stored Hs Hlt). unfold next_stamp. lia. Qed.

(** An own write: addressed to a row the caller may edit, with a newer stamp. *)
Lemma own_write_spec op id r f group parent npub role rumor stamp :
  (op = Update ∨ op = Cancel) → is_member role = true →
  side_effect_parent_matches_chat group parent = true →
  e_parent_id r = parent → e_mls_group_id r = group →
  (e_author_npub r = npub ∨ is_admin role = true) → fields_wf f →
  e_updated_at_ms r < stamp →
  content_hash (event_wire op id parent (e_series_id r) f stamp) npub ≠ e_content_hash r →
  ∀ d, db_events d !! id = Some r →
  stored_spec d id r (event_wire op id parent (e_series_id r) f stamp) 
    (mkOpMeta rumor group npub) role =
  (Applied.Changed false,
   put_event id (written_row r (event_wire op id parent (e_series_id r) f stamp) f npub) d).
Proof.
  intros Hop Hm Hp Hpa Hg Hau [Hf Hch] Hlt Hh d Hr.
  set (w := event_wire op id parent (e_series_id r) f stamp) in *.
  assert (fields_from_wire w = Some f) as Hfw by by apply fields_from_event_wire.
  assert (cancel_marked w = true) as Hc
    by (unfold cancel_marked, w; destruct Hop as [-> | ->]; done).
  assert (write_allowed r w (mkOpMeta rumor group npub) role = true) as Hw.
  { unfold write_allowed, may_edit. simpl.
    rewrite Hm, (bool_decide_eq_true_2 _ Hg), (bool_decide_eq_true_2 _ Hpa). simpl.
    destruct Hau as [Hau|Hau];
       [by rewrite (bool_decide_eq_true_2 _ (eq_sym Hau))|rewrite Hau; apply orb_true_r]. }
  assert (write_newer r w = true) as Hn
    by (unfold write_newer; simpl; rewrite Z.gtb_ltb; by apply Z.ltb_lt).
  unfold stored_spec, write_spec. rewrite Hfw, Hc, Hw, Hn. simpl.
  rewrite (bool_decide_eq_false_2 _ Hh). by destruct Hop as [-> | ->].
Qed.

(** No two different writes with one hash, as far as the stored rows go. *)
Definition no_collision (d : Db) : Prop :=
  ∀ id r w npub, db_events d !! id = Some r →
    w_updated_at_ms w ≠ e_updated_at_ms r → content_hash w npub ≠ e_content_hash r.

(** Stamps of stored rows leave room for one more. *)
Definition stamps_ok (d : Db) : Prop :=
  ∀ id r, db_events d !! id = Some r → i64_ok (e_updated_at_ms r) ∧ e_updated_at_ms r < i64_max.

(** The shared tail of the update and cancel commands. *)
Lemma own_write_lands op id r f group parent pk npub role now o :
  (op = Update ∨ op = Cancel) → is_member role = true →
  side_effect_parent_matches_chat group parent = true →
  e_parent_id r = parent → e_mls_group_id r = group →
  (e_author_npub r = npub ∨ is_admin role = true) → fields_wf f →
  db_events (o_db o) !! id = Some r → no_collision (o_db o) → stamps_ok (o_db o) →
  let w := event_wire op id parent (e_series_id r) f (next_stamp now (e_updated_at_ms r)) in
  dwp (let! rumor_id := send_wire group parent pk w false in
       apply_and_emit w (mkOpMeta rumor_id group npub) role ;! mret tt) o
    (λ res o', res = Ok tt → ∃ r', db_events (o_db o') !! id = Some r' ∧
       row_le (written_row r w f npub) r').
Proof.
  intros Hop Hm Hp Hpa Hg Hau Hf Hr Hcoll Hst w.
  destruct (Hst id r Hr) as [Hi Hlt]. pose proof (next_stamp_gt now _ Hi Hlt) as Hnew.
  assert (content_hash w npub ≠ e_content_hash r) as Hh
    by (eapply Hcoll; [exact Hr|]; unfold w; simpl; lia).
  unfold send_wire. dstep. dstep. dstep. destruct (ok_or _ _) as [rumor|e]; [|done].
  dstep. dstep; [done|]. apply dwp_ret. dstep.
  pose proof (own_write_spec op id r f group parent npub role rumor _ Hop Hm Hp Hpa Hg Hau Hf Hnew Hh
    (o_db o) Hr) as Hspec.
  eapply dwp_mono.
  - apply (apply_and_emit_stored id r); [done|by split| |exact Hr].
    by destruct Hop as [-> | ->].
  - intros [a|e] o' Hres; [|done]. apply dwp_ret. intros _.
    destruct (Hres a eq_refl) as [_ [Hle _]]. simpl in Hle. fold w in Hspec. rewrite Hspec in Hle.
    apply (Hle id). apply put_event_lookup.
Qed.

(** ** The listing *)

Definition rsvp_dto (kr : (string * string) * RsvpRow) : option SquadEventRsvpDto :=
  (λ st, mkRsvpDto kr.1.2 st (rs_updated_at_ms kr.2)) <$> RsvpStatus_parse (rs_status kr.2).

(** The decodable RSVPs of one event, oldest first. *)
Definition rsvps_listed (d : Db) (parent id : string) : list SquadEventRsvpDto :=
  omap rsvp_dto (filter (λ kr, kr.1.1 = id) (rsvp_rows d parent)).

Lemma push_rsvps rows id : ∀ m,
  default [] (foldl push_rsvp m rows !! id) =
    default [] (m !! id) ++ omap rsvp_dto (filter (λ kr, kr.1.1 = id) rows).
Proof.
  induction rows as [|kr rows IH]; intros m; simpl; [by rewrite app_nil_r|].
  rewrite IH. unfold push_rsvp. destruct (decide (kr.1.1 = id)) as [<-|Hne].
  - rewrite filter_cons_True by done. simpl. unfold rsvp_dto at 2.
    destruct (RsvpStatus_parse (rs_status kr.2)) as [st|]; simpl; [|done].
    rewrite lookup_insert_eq. simpl. by rewrite <- app_assoc.
  - rewrite filter_cons_False by done.
    destruct (RsvpStatus_parse _); simpl; [by rewrite lookup_insert_ne|done].
Qed.

(** What a listed event says about its row. *)
Record listed (d : Db) (parent caller : string) (kr : string * EventSqlRow)
    (dto : SquadEventDto) : Prop := {
  ls_id : dto_id dto = kr.1;
  ls_row : ∃ row, row_from_sql kr.1 kr.2 = Ok row ∧ dto_fields dto = row_fields row ∧
    dto_status dto = row_status row ∧ dto_author_npub dto = e_author_npub kr.2 ∧
    dto_parent_id dto = e_parent_id kr.2 ∧ dto_mls_group_id dto = e_mls_group_id kr.2 ∧
    dto_updated_at_ms dto = e_updated_at_ms kr.2;
  ls_rsvps : dto_rsvps dto = rsvps_listed d parent kr.1;
  ls_mine : dto_my_rsvp dto =
    rd_status <$> find_first (λ r, bool_decide (rd_member_npub r = caller))
                    (rsvps_listed d parent kr.1);
  ls_edit : dto_can_edit dto = bool_decide (e_author_npub kr.2 = caller);
}.

Lemma event_dto_listed d parent caller kr row :
  row_from_sql kr.1 kr.2 = Ok row →
  listed d parent caller kr (event_dto (foldl push_rsvp ∅ (rsvp_rows d parent)) caller row).
Proof.
  intros Hd. pose proof (row_from_sql_ok _ _ _ Hd) as Hdec.
  assert (default [] (foldl push_rsvp ∅ (rsvp_rows d parent) !! row_event_id row) =
    rsvps_listed d parent kr.1) as Hl.
  { rewrite push_rsvps, (dc_id _ _ _ Hdec), lookup_empty. done. }
  split; simpl; rewrite ?Hl; try done.
  - apply Hdec.
  - exists row. split_and!; [done..|apply Hdec|apply Hdec|apply Hdec|apply Hdec].
  - by rewrite (dc_author _ _ _ Hdec).
Qed.

Lemma event_rows_elem d parent k r :
  (k, r) ∈ event_rows d parent ↔ db_events d !! k = Some r ∧ e_parent_id r = parent.
Proof.
  unfold event_rows. rewrite order_by_ms_elem, list_elem_of_filter, elem_of_map_to_list.
  simpl. tauto.
Qed.

Lemma event_rows_sorted d parent :
  StronglySorted (ms_le (λ kr : string * EventSqlRow, (e_created_at_ms kr.2, kr.1)))
    (event_rows d parent).
Proof. apply order_by_ms_sorted. Qed.

Lemma event_rows_nodup d parent : NoDup (event_rows d parent).*1.
Proof.
  unfold event_rows. rewrite order_by_ms_perm.
  eapply sublist_NoDup; [apply (NoDup_fst_map_to_list (db_events d))|].
  apply fmap_sublist, sublist_filter.
Qed.
End own.
