(* ===== verification/Toy.v ===== *)
(** * A concrete environment, for the witnesses

    Small total stand-ins for the third-party crates: a calendar that counts
    minutes and days, an identity hash, the text codec of [Json.PlainText], and
    an example squad with an admin, a member and one event. They show that the
    hypotheses of the theorems can hold; no theorem is about them. *)

From stdpp Require Import pretty.
From S2P Require Import Prelude World Json Chat Schema Records.
From S2P Require Import Records Pending CivilTime EventModel EventValidation SquadEvent.
From S2P Require Import EventSpec EventSteps EventOwn.

#[export] Existing Instance PlainText.codec.
#[export] Existing Instance PlainText.codec_laws.

(** Zone 1 has a gap from minute 120 to 180 and an ambiguous hour from 600. *)
Definition toy_zone (z n : Z) : LocalResult :=
  if z =? 0 then Single (n * 60)
  else if (120 <=? n) && (n <? 180) then LNone
  else if (600 <=? n) && (n <? 660) then Ambiguous (n * 60) (n * 60 + 3600)
  else Single (n * 60).

#[export] Instance toy_chrono : Chrono := {
  NaiveDate := Z;
  NaiveTime := Z;
  NaiveDateTime := Z;
  Tz := Z;
  tz_of_str s := if decide (s = "UTC") then Some 0
                 else if decide (s = "Gap") then Some 1 else None;
  ndt_parse s _ := parse_unsigned i64_max s;
  nd_parse s _ := parse_unsigned i64_max s;
  nd_format d _ := pretty d;
  ndt_add_days n d := Some (n + d * 1440);
  ndt_add_minutes n m := Some (n + m);
  nd_add_days d k := Some (d + k);
  nd_le a b := a <=? b;
  nt_from_hms h m _ := if (h <? 24) && (m <? 60) then Some (h * 60 + m) else None;
  nd_and_time d t := d * 1440 + t;
  tz_from_local := toy_zone;
  local_from_local := toy_zone 0;
}.

#[export] Instance toy_hashing : Hashing := { sha256_hex s := s }.

#[export] Instance toy_nostr : Nostr := {
  to_bech32 pk := Ok pk;
  built_id r := Some (or_content r);
  hex_decode s := Some (String.list_byte_of_string s);
}.

#[export] Instance toy_rusqlite : Rusqlite := {
  invalid_column_type _ name := "Invalid column type: " +:+ name;
  constraint_failed name := "UNIQUE constraint failed: " +:+ name;
  foreign_keys := true;
  foreign_key_failed := "FOREIGN KEY constraint failed";
}.

(** ** The example squad *)

Definition toy_squad : Db :=
  mkDb ∅ ∅ ∅ ∅ ∅ ∅ [mkGroupRow "g" "" "alice" "squad" None 0 0 false "[]"] ∅
    {[KEY_DERIVATION_VERSION := "2"]} (mkDevice ∅ ∅ ∅ ∅ ∅ ∅ ∅ ∅ ∅ ∅ (mkEvm ∅ ∅ ∅ ∅ ∅) (mkPolls ∅ ∅) (mkShared ∅ ∅ ∅ ∅ ∅)
      (mkMsgs [] ∅ ∅ 0 ∅ 0 ∅ ∅ ∅ ∅))
    (Some "alice") "alice" [Chat_new "g" MlsGroup ["alice"; "bob"] 0]
    [mkEngineGroup (String.list_byte_of_string "g") ["alice"] ["alice"; "bob"]].

Definition toy_obs (d : Db) : World.Obs Db Effect := mkObs d [].

Definition toy_fields : EventFields :=
  mkFields KIND_TIMED "Assembly" "" (Some 3600) (Some 7200) None None "UTC" Online "Hall" None.
Definition toy_fields' : EventFields :=
  mkFields KIND_TIMED "General assembly" "" (Some 3600) None None None "UTC" Offline "Park" None.

Definition member : SquadGroupRole := mkRole true false.
Definition admin : SquadGroupRole := mkRole true true.

Definition toy_create : EventWire := event_wire Create "e" "g" None toy_fields 1000.
Definition toy_update : EventWire := event_wire Update "e" "g" None toy_fields' 2000.
Definition toy_cancel : EventWire := event_wire Cancel "e" "g" None toy_fields 3000.
Definition toy_rsvp : EventWire := rsvp_wire "e" "g" Declined 2500.

(** The row the creation by [bob] leaves. *)
Definition toy_row : EventSqlRow :=
  new_event_row "g" "g" None toy_fields "bob" 1000 (content_hash toy_create "bob").

Definition toy_stored : Db := set_events (<["e" := toy_row]>) toy_squad.

(** ** The hypotheses of the theorems hold of the example squad *)

Lemma toy_row_valid : row_valid toy_row.
Proof.
  apply new_event_row_valid. split; [|done]. apply validate_fields_ok. vm_compute. reflexivity.
Qed.

Lemma toy_squad_valid : rows_valid toy_squad.
Proof. split; apply map_Forall_empty. Qed.

Lemma toy_stored_valid : rows_valid toy_stored.
Proof.
  split; [|apply map_Forall_empty]. apply map_Forall_insert_2; [apply toy_row_valid|].
  apply map_Forall_empty.
Qed.

Lemma toy_stored_stamps : stamps_ok toy_stored.
Proof.
  intros id r Hr. unfold toy_stored, put_event in Hr. simpl in Hr.
  apply lookup_insert_Some in Hr as [[<- <-]|[_ []%lookup_empty_Some]].
  unfold i64_ok, i64_min, i64_max. simpl. lia.
Qed.

(** Texts are digits, so a line break ends them. *)
Lemma bits_line p q s s' :
  PlainText.bits p +:+ String (Ascii.ascii_of_nat 10) s =
  PlainText.bits q +:+ String (Ascii.ascii_of_nat 10) s' → p = q.
Proof.
  revert q. induction p as [p IH|p IH|]; intros [q|q|]; simpl; intros Hs; try done;
    injection Hs as Hs; f_equal; by apply IH.
Qed.

Lemma print_line j j' s s' :
  to_text j +:+ String (Ascii.ascii_of_nat 10) s =
  to_text j' +:+ String (Ascii.ascii_of_nat 10) s' → j = j'.
Proof.
  intros Hs%bits_line%(inj encode). 
  apply (f_equal PlainText.of_tree) in Hs. by rewrite !PlainText.of_to_tree in Hs.
Qed.

Lemma JObj_inj fs fs' : JObj fs = JObj fs' → fs = fs'.
Proof. by intros [=]. Qed.

Lemma ser_wire_stamp w w' : ser_wire w = ser_wire w' → w_updated_at_ms w = w_updated_at_ms w'.
Proof.
  intros Hs. assert (obj_fields (wire_members w) = obj_fields (wire_members w')) as Hs'
    by (apply JObj_inj; exact Hs).
  apply (f_equal (field "updated_at_ms")) in Hs'.
  assert (∀ w, field "updated_at_ms" (obj_fields (wire_members w)) =
    Some (Some (JNum (w_updated_at_ms w)))) as Hf.
  { intros w0. apply field_obj; [change (NoDup WIRE_FIELDS); apply (bool_decide_unpack _); vm_compute; exact I|].
    unfold wire_members. do 18 apply list_elem_of_further. apply list_elem_of_here. }
  rewrite !Hf in Hs'. congruence.
Qed.

Lemma toy_stored_no_collision : no_collision toy_stored.
Proof.
  intros id r w npub Hr Hms Hh. unfold toy_stored in Hr. simpl in Hr.
  apply lookup_insert_Some in Hr as [[<- <-]|[_ []%lookup_empty_Some]].
  change (e_content_hash toy_row) with (content_hash toy_create "bob") in Hh.
  unfold content_hash, sha256_hex, toy_hashing in Hh.
  apply print_line in Hh. by apply ser_wire_stamp in Hh.
Qed.
