(* ===== verification/ProfileTheorems.v ===== *)
(** * The properties of profiles

    The Kind 0 that counts does not depend on the order of the relays; a save round-trips;
    the periodic repair of one's own Kind 0 is confined, but to the session it started in. *)

From Stdlib Require Import Ascii.
From S2P Require Import Prelude World Json FileNames Profiles Toy.

(** ** Which Kind 0 counts does not depend on the order of the relays *)

Section winner.
Implicit Types (h : Kind0ScanHit).

Definition hit_key h : Z * string := (kh_created_at h, kh_event_id h).

Lemma string_compare_trans_le a b c :
  String.compare a b ≠ Gt → String.compare b c ≠ Gt → String.compare a c ≠ Gt.
Proof.
  revert b c. induction a as [|x a IH]; intros [|y b] [|z c]; simpl; try done.
  unfold Ascii.compare.
  destruct (N.compare_spec (Ascii.N_of_ascii x) (Ascii.N_of_ascii y)) as [Hxy|Hxy|Hxy]; try done;
    destruct (N.compare_spec (Ascii.N_of_ascii y) (Ascii.N_of_ascii z)) as [Hyz|Hyz|Hyz]; try done;
    destruct (N.compare_spec (Ascii.N_of_ascii x) (Ascii.N_of_ascii z)) as [Hxz|Hxz|Hxz]; try done; try lia.
  apply IH.
Qed.

Lemma string_compare_refl a : String.compare a a = Eq.
Proof. induction a as [|x a IH]; simpl; [done|]. unfold Ascii.compare. by rewrite N.compare_refl. Qed.
Lemma string_compare_antisym a b : String.compare a b ≠ Gt → String.compare b a ≠ Gt → a = b.
Proof.
  intros Hab Hba. rewrite String.compare_antisym in Hba. destruct (String.compare a b) eqn:E; try done.
  by apply String.compare_eq_iff in E.
Qed.

Lemma hit_le_iff a b : hit_le a b = true ↔
  kh_created_at a < kh_created_at b ∨
  kh_created_at a = kh_created_at b ∧ String.compare (kh_event_id a) (kh_event_id b) ≠ Gt.
Proof.
  unfold hit_le. destruct (Z.compare_spec (kh_created_at a) (kh_created_at b)).
  - destruct (String.compare _ _); naive_solver lia.
  - naive_solver lia.
  - split; [done|]. intros [?|[? ?]]; lia.
Qed.

Lemma hit_le_total a b : hit_le a b = false → hit_le b a = true.
Proof.
  intros Hab. apply hit_le_iff. apply not_true_iff_false in Hab. rewrite hit_le_iff in Hab.
  rewrite String.compare_antisym. destruct (Z.lt_total (kh_created_at a) (kh_created_at b)) as [?|[?|?]];
    [tauto| |left; lia]. right. split; [done|]. destruct (String.compare _ _); naive_solver.
Qed.
Lemma hit_le_trans a b c : hit_le a b = true → hit_le b c = true → hit_le a c = true.
Proof.
  rewrite !hit_le_iff. intros [?|[? ?]] [?|[? ?]]; [left; lia..|]. right. split; [lia|].
  by eapply string_compare_trans_le.
Qed.

Lemma max_hit_spec hits : ∀ best, let m := max_hit best hits in
  m ∈ best :: hits ∧ ∀ h, h ∈ best :: hits → hit_le h m = true.
Proof.
  induction hits as [|h hits IH]; intros best; simpl.
  - split; [left|]. intros h ->%list_elem_of_singleton. apply hit_le_iff. right. split; [done|].
    by rewrite string_compare_refl.
  - destruct (IH (if hit_le best h then h else best)) as [Hin Hle]. split.
    + destruct (hit_le best h); set_solver.
    + intros x Hx. assert (hit_le best h = true ∨ hit_le h best = true) as Hbh
        by (destruct (hit_le best h) eqn:E; [by left|right; by apply hit_le_total]).
      apply elem_of_cons in Hx as [->|Hx]; [|apply elem_of_cons in Hx as [->|Hx]; [|apply Hle; by right]].
      * destruct (hit_le best h) eqn:E; [eapply hit_le_trans; [exact E|]|]; apply Hle; left.
      * destruct (hit_le best h) eqn:E; [apply Hle; left|]. eapply hit_le_trans; [by apply hit_le_total|]. apply Hle; left.
Qed.

Lemma winner_order hits hits' : hits ≡ₚ hits' → NoDup (hit_key <$> hits) →
  nip01_kind0_winner hits = nip01_kind0_winner hits'.
Proof.
  intros Hp Hnd. destruct hits as [|h l]; [by apply Permutation_nil_l in Hp as ->|].
  destruct hits' as [|h' l']; [by apply Permutation_nil_r in Hp|]. simpl. f_equal.
  destruct (max_hit_spec l h) as [Hin Hle], (max_hit_spec l' h') as [Hin' Hle'].
  assert (hit_le (max_hit h l) (max_hit h' l') = true) as H1 by (apply Hle'; by rewrite <- Hp).
  assert (hit_le (max_hit h' l') (max_hit h l) = true) as H2 by (apply Hle; by rewrite Hp).
  assert (hit_key (max_hit h l) = hit_key (max_hit h' l')) as Hk.
  { apply hit_le_iff in H1, H2. unfold hit_key. f_equal; [lia|]. apply string_compare_antisym; naive_solver lia. }
  rewrite <- Hp in Hin'. apply list_elem_of_lookup in Hin as [i Hi], Hin' as [j Hj].
  assert (i = j) as ->; [|congruence]. eapply NoDup_lookup; [exact Hnd| |]; rewrite list_lookup_fmap;
    [by rewrite Hi|by rewrite Hj, Hk].
Qed.
End winner.

(** ** What publishing does when the relays take the event and show it again *)

Section publishing.
Context `{UnicodeCase} `{NostrMetadata} `{SerdeText}.

Lemma mbind_ok {D E A B} (m : M D E A) (k : A → M D E B) a w w' : m w = (Ok a, w') → mbind m k w = k a w'.
Proof. intros Hm. unfold mbind. by rewrite Hm. Qed.

Lemma profile_now_secs_at t ts o fs : 0 ≤ t →
  profile_now_secs (mkWorld o fs (t :: ts)) = (Ok (t / 1000), mkWorld o fs ts).
Proof. intros Ht. unfold profile_now_secs, mbind, now; simpl. by rewrite (proj2 (Z.ltb_ge t 0)). Qed.

Definition verified_urls (net : PublishAnswers) (success : list string) : list string :=
  filter (λ url, pa_reads_back net url = true) success.

(** The profile after its own Kind 0 was published at [secs]. *)
Definition published_profile (p : Profile) (json : string) (meta : Metadata) (secs : Z) : Profile :=
  put_last_updated secs (apply_kind0_replacement p (default meta (metadata_of_text json))).2.

Lemma publish_takes net name avatar banner about d log t1 t2 ts acc npub p json eid success failed :
  let meta := build_metadata_from_vector_profile p name avatar banner about in
  let receipt := to_text (ser_receipt eid success (verified_urls net success) failed (t1 / 1000)) in
  let p' := published_profile p json meta (t2 / 1000) in
  0 ≤ t1 → 0 ≤ t2 → st_profile_account d = Some acc →
  pa_own net = Ok npub → find_profile npub (st_profiles d) = Some p →
  kind0_metadata_json_without_evm meta = Ok json → pa_event_id net = Ok eid → pa_sent net = Ok (success, failed) →
  (required_kind0_acks (pa_connected net) ≤ length (verified_urls net success))%nat →
  publish_vector_profile_kind0 net name avatar banner about (mkWorld (mkObs d log) [] (t1 :: t2 :: ts)) =
    (Ok (mkReceipt eid (length success) (length (verified_urls net success)) (pa_connected net)),
     mkWorld
       (mkObs (mkProfileDb (update_profile_in npub (λ _, p') (st_profiles d)) (<[p_id p := profile_row p']> (db_profiles d))
                 (<[KIND0_PUBLISH_RECEIPT_KEY := receipt]> (db_profile_settings d)) (st_profile_account d) (st_generation d))
          (log ++ [SendKind0 eid json; ProfileUpdate p'; CacheImages npub (p_avatar p') (p_banner p')])) [] ts).
Proof.
  intros meta receipt p' Ht1 Ht2 Hacc Hown Hp Hjson Heid Hsent Hq.
  assert (length (verified_urls net success) ≤ length success)%nat as Hle by apply length_filter.
  unfold publish_vector_profile_kind0. rewrite Hown, Heid, Hsent.
  erewrite mbind_ok by done. erewrite mbind_ok by done. simpl. rewrite Hp. erewrite mbind_ok by done.
  fold meta. rewrite Hjson. erewrite mbind_ok by done. erewrite mbind_ok by done. erewrite mbind_ok by done.
  erewrite mbind_ok by done. simpl. rewrite (proj2 (Nat.ltb_ge _ _)) by lia. fold (verified_urls net success).
  unfold kind0_verified_quorum_met. rewrite (proj2 (Nat.leb_le _ _)) by done. simpl.
  erewrite mbind_ok by (by apply profile_now_secs_at). erewrite mbind_ok by done. simpl. rewrite Hp.
  erewrite mbind_ok by done. erewrite mbind_ok by (by apply profile_now_secs_at).
  erewrite mbind_ok by (unfold persist_kind0_publish, profile_connection, profile_account, attempt, query_row, query, mbind,
    call, of_result, tx, exec_, execute; simpl; repeat (rewrite Hacc; simpl); reflexivity).
  erewrite mbind_ok by done. erewrite mbind_ok by done. erewrite mbind_ok by done. simpl. unfold set_obs; simpl.
  by rewrite <- !app_assoc.
Qed.
End publishing.

(** ** What the repair of one's own Kind 0 may do *)

Section repair.
Context `{UnicodeCase} `{NostrMetadata} `{SerdeText}.
Implicit Types (d : ProfileDb) (p : Profile).

(** Nothing but the profiles of [ids] and the three settings of the repair. *)
Definition changes_only (ids : string → Prop) d d' : Prop :=
  st_profile_account d' = st_profile_account d ∧ st_generation d' = st_generation d ∧
  (∀ id, ¬ ids id → find_profile id (st_profiles d') = find_profile id (st_profiles d) ∧
                    db_profiles d' !! id = db_profiles d !! id) ∧
  (∀ key, key ∉ [KIND0_PUBLISH_RECEIPT_KEY; KIND0_REPAIR_LAST_SUCCESS_KEY; KIND0_REPAIR_LAST_FAILURE_KEY] →
     db_profile_settings d' !! key = db_profile_settings d !! key).

#[export] Instance changes_only_refl ids : Reflexive (changes_only ids).
Proof. by intros d. Qed.
#[export] Instance changes_only_trans ids : Transitive (changes_only ids).
Proof.
  intros d1 d2 d3 (Ha & Hg & Hp & Hs) (Ha' & Hg' & Hp' & Hs').
  split_and!; [congruence..| |]; intros k Hk; [split|]; naive_solver congruence.
Qed.

Lemma find_profile_id id l p : find_profile id l = Some p → p_id p = id.
Proof. unfold find_profile. intros (? & ?%bool_decide_eq_true)%find_first_Some. done. Qed.

Lemma find_update_profile id id' f l : (∀ p, p_id p = id → p_id (f p) = id) →
  find_profile id' (update_profile_in id f l) =
    if decide (id' = id) then f <$> find_profile id l else find_profile id' l.
Proof.
  intros Hf. unfold find_profile. induction l as [|p l IH]; simpl; [by case_decide|].
  destruct (decide (p_id p = id)) as [Hid|Hid].
  - rewrite (bool_decide_true _ Hid). simpl. pose proof (Hf p Hid) as Hfp. rewrite Hfp, Hid.
    case_decide as Hd; [subst; by rewrite bool_decide_true|]. by rewrite bool_decide_false.
  - rewrite (bool_decide_false _ Hid). simpl. rewrite IH. case_decide as Hd; [|done].
    subst. by rewrite bool_decide_false.
Qed.

Lemma changes_profile (ids : string → Prop) id p' d : ids id → p_id p' = id →
  changes_only ids d (set_profiles (update_profile_in id (λ _, p')) d).
Proof.
  intros Hid Hp. split_and!; try done. intros id' Hid'. split; [|done]. simpl.
  rewrite find_update_profile by done. by case_decide; [subst|].
Qed.
Lemma changes_row (ids : string → Prop) id p' d : ids id → p_id p' = id →
  changes_only ids d (set_profile_rows <[p_id p' := profile_row p']> d).
Proof.
  intros Hid Hp. split_and!; try done. intros id' Hid'. split; [done|]. simpl.
  apply lookup_insert_ne. naive_solver.
Qed.
Lemma changes_setting (ids : string → Prop) key value d :
  key ∈ [KIND0_PUBLISH_RECEIPT_KEY; KIND0_REPAIR_LAST_SUCCESS_KEY; KIND0_REPAIR_LAST_FAILURE_KEY] →
  changes_only ids d (set_profile_settings <[key := value]> d).
Proof. intros Hk. split_and!; try done. intros k Hk'. simpl. apply lookup_insert_ne. naive_solver. Qed.

Definition is_kind0 (e : ProfileOut) : bool := match e with SendKind0 _ _ => true | _ => false end.
Definition kind0_sent (l : list ProfileOut) : nat := length (filter (λ e, is_kind0 e = true) l).

(** What a computation did: these changes, and at most [n] Kind 0 events sent. *)
Definition did (ids : string → Prop) (n : nat) (o o' : Obs ProfileDb ProfileOut) : Prop :=
  changes_only ids (o_db o) (o_db o') ∧ ∃ new, o_log o' = o_log o ++ new ∧ (kind0_sent new ≤ n)%nat.

Lemma did_refl ids n o : did ids n o o.
Proof. split; [done|]. exists []. split; [by rewrite app_nil_r|]. unfold kind0_sent; simpl; lia. Qed.
Lemma did_trans ids n m o1 o2 o3 : did ids n o1 o2 → did ids m o2 o3 → did ids (n + m) o1 o3.
Proof.
  intros (Hc & new & Hl & Hn) (Hc' & new' & Hl' & Hn'). split; [by etrans|]. exists (new ++ new').
  rewrite Hl', Hl, app_assoc. split; [done|]. revert Hn Hn'. unfold kind0_sent. rewrite filter_app, length_app. lia.
Qed.
Lemma did_change ids o d' : changes_only ids (o_db o) d' → did ids 0 o (mkObs d' (o_log o)).
Proof. intros Hc. split; [done|]. exists []. by rewrite app_nil_r. Qed.
Lemma did_output ids o e : did ids (if is_kind0 e then 1 else 0) o (mkObs (o_db o) (o_log o ++ [e])).
Proof. split; [done|]. exists [e]. split; [done|]. unfold kind0_sent. rewrite filter_cons. by destruct (is_kind0 e). Qed.

(** Sequencing: what is left to do may do what is left. *)
Lemma dwp_did {A B} ids n m (c : Prof A) (k : A → Prof B) o :
  dwp c o (λ r o', did ids n o o' ∧ ∀ a, r = Ok a → dwp (k a) o' (λ _ o'', did ids m o' o'')) →
  dwp (mbind c k) o (λ _ o', did ids (n + m) o o').
Proof.
  intros Hc. apply dwp_bind. eapply dwp_mono; [exact Hc|]. intros [a|e] o' [Hd Hk].
  - eapply dwp_mono; [by apply Hk|]. intros r o'' Hd'. by eapply did_trans.
  - eapply (did_trans _ n m); [done|apply did_refl].
Qed.

Lemma dwp_quiet_did {A B} ids n (c : Prof A) (k : A → Prof B) o :
  quiet c → (∀ a, dwp (k a) o (λ _ o', did ids n o o')) → dwp (mbind c k) o (λ _ o', did ids n o o').
Proof.
  intros Hc Hk. apply dwp_bind. apply dwp_quiet_any; [done|]. intros [a|e]; [apply Hk|apply did_refl].
Qed.
Lemma dwp_read_did {B} ids n id (k : option Profile → Prof B) o :
  dwp (k (find_profile id (st_profiles (o_db o)))) o (λ _ o', did ids n o o') →
  dwp (mbind (read_profile id) k) o (λ _ o', did ids n o o').
Proof. intros Hk. apply dwp_bind, dwp_modify. by destruct o. Qed.

Lemma set_profile_did ids id p o : ids id → p_id p = id → dwp (set_profile p) o (λ _ o', did ids 0 o o').
Proof.
  intros Hid Hp. unfold set_profile, profile_connection, profile_account.
  apply dwp_quiet_did; [quiet_tac|intros _]. apply dwp_exec_; [intros ?; apply did_refl|].
  apply did_change. by eapply changes_row.
Qed.
Lemma write_profile_did ids id p o : ids id → p_id p = id →
  dwp (write_profile id (λ _, p)) o (λ r o', did ids 0 o o').
Proof. intros Hid Hp. apply dwp_modify, did_change. by apply changes_profile. Qed.
Lemma persist_did ids id p receipt o : ids id → p_id p = id →
  dwp (persist_kind0_publish p receipt) o (λ _ o', did ids 0 o o').
Proof.
  intros Hid Hp. unfold persist_kind0_publish, profile_connection, profile_account.
  apply dwp_quiet_did; [quiet_tac|intros _]. apply dwp_quiet_did; [quiet_tac|intros _].
  apply dwp_tx; [intros ?; apply did_refl|]. apply dwp_bind, dwp_exec_; [intros ?; destruct o; apply did_refl|].
  apply dwp_bind, dwp_exec_; [intros ?; destruct o; apply did_refl|]. apply dwp_ret. simpl.
  split; [|intros ?; destruct o; apply did_refl]. apply (did_change _ o).
  etrans; [by apply (changes_setting ids KIND0_PUBLISH_RECEIPT_KEY receipt); left|]. by eapply changes_row.
Qed.

Lemma quiet_profile_now_secs : quiet profile_now_secs.
Proof. unfold profile_now_secs. quiet_tac. Qed.

Lemma dwp_then_did {A B} ids n (c : Prof A) (k : A → Prof B) o :
  dwp c o (λ _ o', did ids 0 o o') → (∀ a o', dwp (k a) o' (λ _ o'', did ids n o' o'')) →
  dwp (mbind c k) o (λ _ o', did ids n o o').
Proof.
  intros Hc Hk. apply (dwp_did _ 0 n). eapply dwp_mono; [exact Hc|]. intros r o' Hd. split; [done|]. intros a _. apply Hk.
Qed.

Lemma publish_did net name avatar banner about o :
  dwp (publish_vector_profile_kind0 net name avatar banner about) o (λ _ o', did (λ id, pa_own net = Ok id) 1 o o').
Proof.
  unfold publish_vector_profile_kind0. destruct (pa_own net) as [npub|e] eqn:Hown;
    [|apply dwp_bind, dwp_of_result, did_refl]; simpl.
  apply dwp_bind, dwp_of_result, dwp_read_did. simpl.
  apply dwp_quiet_did; [quiet_tac|intros p]. apply dwp_quiet_did; [quiet_tac|intros json].
  apply dwp_quiet_did; [quiet_tac|intros eid]. apply (dwp_did _ 1 0). apply dwp_output.
  split; [apply (did_output _ o (SendKind0 eid json))|]. intros _ _.
  set (o1 := mkObs _ _). clearbody o1. clear o.
  apply dwp_quiet_did; [quiet_tac|intros [success failed]].
  case_match; [apply dwp_throw, did_refl|]. case_match; [apply dwp_throw, did_refl|].
  apply dwp_quiet_did; [apply quiet_profile_now_secs|intros at_]. apply dwp_read_did.
  destruct (find_profile npub (st_profiles (o_db o1))) as [q|] eqn:Hq;
    [|apply dwp_bind, dwp_of_result, did_refl]; simpl.
  apply dwp_bind, dwp_of_result. simpl. apply dwp_quiet_did; [apply quiet_profile_now_secs|intros secs].
  apply find_profile_id in Hq.
  apply dwp_then_did; [by apply (persist_did _ npub)|intros _ o2].
  apply dwp_then_did; [by apply write_profile_did|intros _ o3].
  apply dwp_then_did; [apply dwp_send; [intros ?; apply did_refl|apply (did_output _ _ (ProfileUpdate _))]|intros _ o4].
  apply dwp_then_did; [apply dwp_output; apply (did_output _ _ (CacheImages _ _ _))|intros _ o5].
  apply dwp_ret, did_refl.
Qed.

Lemma get_sql_setting_reads key o :
  dwp (get_sql_setting key) o (λ r o', o' = o ∧ ∀ v, default None (res_ok r) = Some v →
    db_profile_settings (o_db o) !! key = Some v ∧ is_Some (st_profile_account (o_db o))).
Proof.
  unfold get_sql_setting, profile_connection. apply dwp_bind, dwp_attempt. unfold profile_account at 1.
  apply dwp_query_row; [intros e; simpl; by apply dwp_ret|]. intros acc Hacc. simpl.
  apply dwp_bind, dwp_quiet_any; [unfold profile_account; quiet_tac|]. intros [_|e]; [|done].
  apply dwp_bind, dwp_attempt, dwp_query; simpl; [intros e; by apply dwp_ret|]. apply dwp_ret. split; [done|].
  intros v Hv. split; [done|]. by destruct (st_profile_account (o_db o)).
Qed.

(** Why a repair may publish. *)
Definition may_publish (own : option string) (hits : list Kind0ScanHit) (npub : string) (g : Z) d p : Prop :=
  hits = [] ∧ own = Some npub ∧ st_generation d = g ∧
  p ∈ st_profiles d ∧ p_mine p = true ∧ p_id p = npub ∧ has_public_metadata p = true ∧
  is_Some (st_profile_account d) ∧
  ∃ text eid, db_profile_settings d !! KIND0_PUBLISH_RECEIPT_KEY = Some text ∧ receipt_event_id text = Some eid.

Lemma decide_publish session receipt hits name avatar secs success failure :
  decide_kind0_repair session receipt (nip01_kind0_winner hits) name avatar secs success failure = Publish →
  session = true ∧ is_Some receipt ∧ hits = [] ∧
  within secs KIND0_REPAIR_SUCCESS_INTERVAL_SECS success = false ∧
  within secs KIND0_REPAIR_FAILURE_BACKOFF_SECS failure = false.
Proof.
  unfold decide_kind0_repair. destruct session; [|done]. destruct hits as [|h hits]; simpl; [|by destruct (kind0_echoes_local _ _ _)].
  destruct receipt; simpl; [|done]. destruct (within _ _ success); [done|]. destruct (within _ _ failure); [done|].
  intros _. eauto.
Qed.

Lemma repair_read_spec own hits others npub g o :
  dwp (repair_read own hits others npub g) o (λ r o',
    o_log o' = o_log o ∧ (o_db o' = o_db o ∨ o_db o' = others (o_db o)) ∧
    ∀ p, r = Ok (Some (p, Publish)) → may_publish own hits npub g (o_db o) p).
Proof.
  destruct o as [d log]. unfold repair_read. do 2 (apply dwp_bind, dwp_modify; simpl).
  destruct (bool_decide (st_generation d = g) && bool_decide (own = Some npub)) eqn:Hs; simpl; [|apply dwp_ret; naive_solver].
  apply andb_true_iff in Hs as [Hg%bool_decide_eq_true Hown%bool_decide_eq_true].
  apply dwp_bind, dwp_modify; simpl.
  destruct (find_first _ (st_profiles d)) as [p|] eqn:Hp; [|apply dwp_ret; naive_solver].
  apply find_first_Some in Hp as (Hin & [Hmine Hid%bool_decide_eq_true]%andb_true_iff).
  destruct (has_public_metadata p) eqn:Hpub; simpl; [|apply dwp_ret; naive_solver].
  apply dwp_bind, dwp_attempt. eapply dwp_mono; [apply get_sql_setting_reads|]. intros stored ? [-> Hstored].
  unfold setting_u64. do 2 (apply dwp_bind, dwp_quiet_any; [unfold get_sql_setting, profile_connection, profile_account; quiet_tac|];
    intros [?|?]; [|naive_solver]).
  apply dwp_bind, dwp_modify; simpl. apply dwp_bind, dwp_quiet_any; [apply quiet_profile_now_secs|].
  intros [secs|?]; [|naive_solver]. apply dwp_ret. simpl. split; [done|]. split; [by right|].
  intros ? [= <- Hd]. apply decide_publish in Hd as (_ & [eid Heid] & Hhits & _ & _).
  apply bind_Some in Heid as (text & Htext & Heid). destruct (Hstored text Htext). unfold may_publish. eauto 12.
Qed.

(** With nothing failing, the repair also waits out the two intervals. *)
Definition first_secs (w : World ProfileDb ProfileOut) : Z := default 0 (head (w_clock w)) / 1000.
Definition stored_u64 d key : option Z := db_profile_settings d !! key ≫= parse_unsigned (2 ^ 64 - 1).

Lemma get_sql_setting_ok key d log cs acc : st_profile_account d = Some acc →
  get_sql_setting key (mkWorld (mkObs d log) [] cs) = (Ok (db_profile_settings d !! key), mkWorld (mkObs d log) [] cs).
Proof.
  intros Hacc. unfold get_sql_setting, profile_connection, profile_account, mbind, attempt, query_row, query, mbind, call,
    of_result; simpl. repeat (rewrite Hacc; simpl). done.
Qed.
Lemma setting_u64_ok key d log cs acc : st_profile_account d = Some acc →
  setting_u64 key (mkWorld (mkObs d log) [] cs) = (Ok (stored_u64 d key), mkWorld (mkObs d log) [] cs).
Proof. intros Hacc. unfold setting_u64, mbind at 1, attempt. by rewrite (get_sql_setting_ok key _ _ _ _ Hacc). Qed.

Definition waited d (secs : Z) : Prop :=
  within secs KIND0_REPAIR_SUCCESS_INTERVAL_SECS (stored_u64 d KIND0_REPAIR_LAST_SUCCESS_KEY) = false ∧
  within secs KIND0_REPAIR_FAILURE_BACKOFF_SECS (stored_u64 d KIND0_REPAIR_LAST_FAILURE_KEY) = false.

Lemma repair_read_waits own hits others npub g p w : w_faults w = [] → is_Some (st_profile_account (o_db (w_obs w))) →
  (repair_read own hits others npub g w).1 = Ok (Some (p, Publish)) → waited (o_db (w_obs w)) (first_secs w).
Proof.
  destruct w as [[d log] fs cs]; simpl. intros -> [acc Hacc]. unfold repair_read, first_secs.
  erewrite mbind_ok by done. erewrite mbind_ok by done. simpl. case_match; [done|].
  erewrite mbind_ok by done. simpl. destruct (find_first _ (st_profiles d)) as [q|]; [|done].
  case_match; [done|]. unfold mbind at 1, attempt at 1, set_obs; simpl. rewrite (get_sql_setting_ok _ _ _ _ _ Hacc).
  erewrite mbind_ok by (by eapply setting_u64_ok). erewrite mbind_ok by (by eapply setting_u64_ok).
  unfold mbind at 1, meanwhile at 1, modify at 1; simpl.
  unfold profile_now_secs, mbind, now; simpl. destruct cs as [|t cs]; simpl; [|destruct (t <? 0); [done|]; simpl];
    intros [= _ Hd]; apply decide_publish in Hd as (_ & _ & _ & Hs & Hf); by split.
Qed.

Lemma write_repair_timestamp_did ids key o :
  key ∈ [KIND0_REPAIR_LAST_SUCCESS_KEY; KIND0_REPAIR_LAST_FAILURE_KEY] →
  dwp (write_repair_timestamp key) o (λ _ o', did ids 0 o o').
Proof.
  intros Hk. unfold write_repair_timestamp. apply dwp_quiet_did; [apply quiet_profile_now_secs|intros secs].
  apply dwp_then_did; [|intros _ ?; apply dwp_ret, did_refl]. apply dwp_attempt. unfold set_sql_setting, profile_connection.
  apply dwp_quiet_did; [unfold profile_account; quiet_tac|intros acc]. case_match; [apply dwp_ret, did_refl|].
  apply dwp_quiet_did; [unfold profile_account; quiet_tac|intros _].
  apply dwp_exec_; [intros ?; apply did_refl|]. apply did_change, changes_setting. set_solver.
Qed.
Lemma repair_reconcile_did npub winner o : dwp (repair_reconcile npub winner) o (λ _ o', did (λ id, id = npub) 0 o o').
Proof.
  unfold repair_reconcile. destruct winner as [hit|]; [|apply dwp_ret, did_refl]. apply dwp_read_did.
  destruct (find_profile npub _) as [p|] eqn:Hp; [|apply dwp_ret, did_refl]. apply find_profile_id in Hp.
  apply dwp_quiet_did; [apply quiet_profile_now_secs|intros secs].
  apply dwp_then_did; [apply dwp_attempt; by apply (set_profile_did _ npub)|intros saved o1].
  case_match; [apply dwp_ret, did_refl|].
  apply dwp_then_did; [by apply write_profile_did|intros _ o2].
  apply dwp_then_did; [|intros _ ?; apply dwp_ret, did_refl].
  apply dwp_attempt, dwp_send; [intros ?; apply did_refl|apply (did_output _ _ (ProfileUpdate _))].
Qed.
Lemma repair_publish_did net p o :
  dwp (repair_publish net p) o (λ _ o', did (λ id, pa_own net = Ok id) 1 o o').
Proof.
  unfold repair_publish. apply (dwp_did _ 1 0). apply dwp_attempt. eapply dwp_mono; [apply publish_did|]. simpl.
  intros r o' Hd. split; [done|]. intros a _.
  repeat case_match; try (apply write_repair_timestamp_did; set_solver). apply dwp_throw, did_refl.
Qed.

Lemma repair_act_did hits publish npub (a : option (Profile * Kind0RepairDecision)) o :
  ∃ n, dwp (repair_act hits publish npub a) o (λ _ o', did (λ id, id = npub ∨ pa_own publish = Ok id) n o o') ∧
    (n ≤ 1)%nat ∧ (n = 1%nat → ∃ p, a = Some (p, Publish)).
Proof.
  assert (∀ n (ids : string → Prop) o', (∀ id, ids id → id = npub ∨ pa_own publish = Ok id) → did ids n o o' →
    did (λ id, id = npub ∨ pa_own publish = Ok id) n o o') as Hmono.
  { intros n ids o' Hids ((Ha & Hg & Hp & Hk) & Hn). split; [|done]. split_and!; try done. intros id Hid. apply Hp. naive_solver. }
  destruct a as [[p []]|]; simpl.
  1,4: exists 0%nat; split_and!; [apply dwp_ret, did_refl|lia|done].
  - exists 0%nat. split_and!; [|lia|done]. eapply dwp_mono; [apply repair_reconcile_did|]. simpl. intros _ o'.
    apply Hmono. by left.
  - exists 1%nat. split_and!; [|lia|eauto]. eapply dwp_mono; [apply repair_publish_did|]. simpl. intros _ o'.
    apply Hmono. by right.
Qed.

(** C13. The periodic repair of one's own Kind 0, whatever fails, whatever the relays answer and
    whatever the other tasks do while it waits for them: it sends at most one Kind 0, and one
    only when no relay showed any, the session it was started for still was the current one
    when it took the lock, its profile has a name or picture, and a receipt of an earlier
    publication is stored; if nothing fails, also only half an hour after the last success and
    five minutes after the last failure it noted. It changes the one profile, that of the
    signer, and its own three settings, and nothing else. *)
Theorem repair_confined own hits others publish npub g w :
  let d := o_db (w_obs w) in
  let w' := (maybe_republish_own_kind0 own hits others publish npub g w).2 in
  ∃ base new, (base = d ∨ base = others d) ∧ o_log (w_obs w') = o_log (w_obs w) ++ new ∧
    changes_only (λ id, id = npub ∨ pa_own publish = Ok id) base (o_db (w_obs w')) ∧
    (kind0_sent new ≤ 1)%nat ∧
    (kind0_sent new = 1%nat → ∃ p, may_publish own hits npub g d p ∧ (w_faults w = [] → waited d (first_secs w))).
Proof.
  intros d w'. pose proof (repair_read_spec own hits others npub g (w_obs w) w eq_refl) as (Hlog & Hdb & Hpub).
  pose proof (λ p, repair_read_waits own hits others npub g p w) as Hwait. subst w'. unfold maybe_republish_own_kind0, mbind.
  destruct (repair_read own hits others npub g w) as [[a|e] w1]; simpl in *.
  - destruct (repair_act_did hits publish npub a (w_obs w1)) as (n & Hact & Hn & Hp).
    destruct (Hact w1 eq_refl) as (Hch & new & Hnew & Hs).
    exists (o_db (w_obs w1)), new. rewrite Hnew, Hlog. split_and!; try done; [lia|].
    intros H1'. destruct Hp as [p ->]; [lia|]. exists p. specialize (Hpub p eq_refl). split; [done|]. intros Hf.
    apply (Hwait p Hf); [|done]. by destruct Hpub as (_ & _ & _ & _ & _ & _ & _ & ? & _).
  - exists (o_db (w_obs w1)), []. rewrite Hlog, app_nil_r. split_and!; try done. unfold kind0_sent; simpl; lia.
Qed.
End repair.

(** ** Saving one's profile *)

Section saving.
Context `{UnicodeCase} `{NostrMetadata} `{SerdeTextLaws}.

(** What saving these four texts should leave: an empty one keeps what is there. *)
Definition saved_profile (p : Profile) (name avatar banner about : string) (secs : Z) : Profile :=
  mkProfile (p_id p) (text_or name (p_name p)) (p_display_name p) (p_nickname p) (p_lud06 p) (p_lud16 p)
    (text_or banner (p_banner p)) (text_or avatar (p_avatar p)) (text_or about (p_about p)) (p_website p) (p_nip05 p)
    (p_status p) secs (p_mine p) (p_blocked p) false
    (if differs (p_avatar p) (text_or avatar (p_avatar p)) then "" else p_avatar_cached p)
    (if differs (p_banner p) (text_or banner (p_banner p)) then "" else p_banner_cached p).

Lemma default_some_text s : default "" (some_text s) = s.
Proof. unfold some_text. case_bool_decide; by subst. Qed.
Lemma default_url s : s = "" ∨ url_text s = Some s → default "" (some_text s ≫= url_text) = s.
Proof. unfold some_text. intros [->|Hs]; [done|]. case_bool_decide; [by subst|]. simpl. by rewrite Hs. Qed.

Lemma published_is_saved p name avatar banner about json secs :
  let meta := build_metadata_from_vector_profile p name avatar banner about in
  metadata_of_text json = Some meta →
  (∀ u, u ∈ [p_website p; text_or avatar (p_avatar p); text_or banner (p_banner p)] → u = "" ∨ url_text u = Some u) →
  published_profile p json meta secs = saved_profile p name avatar banner about secs.
Proof.
  intros meta Hjson Hurl. unfold published_profile. rewrite Hjson. unfold saved_profile. simpl.
  rewrite !default_some_text, !default_url; [done|apply Hurl; set_solver..].
Qed.

Lemma receipt_reads_back eid success verified failed at_ : 0 ≤ at_ < 2 ^ 64 →
  receipt_event_id (to_text (ser_receipt eid success verified failed at_)) = Some eid.
Proof.
  intros Hat. unfold receipt_event_id. rewrite of_to_text.
  - simpl. unfold req, field; simpl. rewrite !(mapM_fmap_Some de_string JStr) by done. simpl.
    assert (mapM de_relay_failure ((λ f, JObj [("url", JStr f.1); ("error", JStr f.2)]) <$> failed) = Some failed) as ->
      by (apply mapM_fmap_Some; by intros []).
    simpl. by rewrite !(proj2 (Z.leb_le _ _)) by lia.
  - assert (∀ l : list string, forallb json_ok (JStr <$> l) = true) as Hs by (induction l; by simpl).
    simpl. rewrite !Hs. simpl. rewrite bool_decide_true by (unfold i64_min; lia).
    assert (forallb json_ok ((λ f, JObj [("url", JStr f.1); ("error", JStr f.2)]) <$> failed) = true) as ->; [|done].
    by induction failed.
Qed.

(** C15. Saving one's profile: when the relays that must take the event take it and show it again
    and nothing else fails, the profile in memory and its row are what was asked for, text by
    text, an empty one keeping what was there; nickname, status, block and the images still
    shown are kept, the links have to be in the form the URL parser writes, and the [bot] flag
    is dropped, as the published Kind 0 has none. Reading the row back at the next start gives
    the profile but for the purpose of its status, [last_updated] and [mine], and the receipt
    the repair asks for names the event. *)
Theorem profile_save_roundtrip net name avatar banner about d log t1 t2 ts acc npub p json eid success failed :
  let meta := build_metadata_from_vector_profile p name avatar banner about in
  let saved := saved_profile p name avatar banner about (t2 / 1000) in
  0 ≤ t1 < 2 ^ 64 → 0 ≤ t2 → st_profile_account d = Some acc →
  pa_own net = Ok npub → find_profile npub (st_profiles d) = Some p →
  (∀ u, u ∈ [p_website p; text_or avatar (p_avatar p); text_or banner (p_banner p)] → u = "" ∨ url_text u = Some u) →
  kind0_metadata_json_without_evm meta = Ok json → metadata_of_text json = Some meta →
  pa_event_id net = Ok eid → pa_sent net = Ok (success, failed) →
  (required_kind0_acks (pa_connected net) ≤ length (verified_urls net success))%nat →
  ∃ receipt d' log',
    update_profile net name avatar banner about (mkWorld (mkObs d log) [] (t1 :: t2 :: ts)) =
      (Ok receipt, mkWorld (mkObs d' log') [] ts) ∧
    find_profile npub (st_profiles d') = Some saved ∧ db_profiles d' !! npub = Some (profile_row saved) ∧
    to_profile (profile_row saved) =
      put_status (mkStatus (su_title (p_status p)) "" (su_url (p_status p))) (put_last_updated 0 (set_mine false saved)) ∧
    (∃ text, db_profile_settings d' !! KIND0_PUBLISH_RECEIPT_KEY = Some text ∧ receipt_event_id text = Some eid).
Proof.
  intros meta saved Ht1 Ht2 Hacc Hown Hp Hurl Hjson Hread Heid Hsent Hq. pose proof (find_profile_id _ _ _ Hp) as Hid.
  unfold update_profile. erewrite publish_takes; try done; [|lia]. fold meta.
  subst meta. rewrite published_is_saved by done. fold saved. eexists _, _, _. split; [reflexivity|]. simpl.
  rewrite find_update_profile by done. rewrite decide_True by done. rewrite Hp. split; [done|].
  rewrite <- Hid at 1. rewrite lookup_insert_eq. split; [done|]. split; [done|].
  eexists. rewrite lookup_insert_eq. split; [done|]. apply receipt_reads_back.
  split; [apply Z.div_pos; lia|apply Z.div_lt_upper_bound; lia].
Qed.

End saving.

Section crossing.
Context `{UnicodeCase} `{NostrMetadata} `{SerdeText}.

(** The session the repair checks is that of its start: when another account has logged in
    while it waits for the relays, the Kind 0 it then sends is signed by that account and
    carries the first one's name, and that account's own profile takes the name over, in memory
    and in its database. *)
Theorem repair_crosses_accounts own others publish npub g p p_b d log t1 t2 ts w1 acc npub_b json eid success failed :
  let meta := build_metadata_from_vector_profile p_b (p_name p) (p_avatar p) (p_banner p) (p_about p) in
  repair_read own [] others npub g w1 = (Ok (Some (p, Publish)), mkWorld (mkObs d log) [] (t1 :: t2 :: ts)) →
  0 ≤ t1 → 0 ≤ t2 → p_name p ≠ "" →
  pa_own publish = Ok npub_b → find_profile npub_b (st_profiles d) = Some p_b → st_profile_account d = Some acc →
  kind0_metadata_json_without_evm meta = Ok json → metadata_of_text json = Some meta →
  pa_event_id publish = Ok eid → pa_sent publish = Ok (success, failed) →
  (required_kind0_acks (pa_connected publish) ≤ length (verified_urls publish success))%nat →
  let o := w_obs (maybe_republish_own_kind0 own [] others publish npub g w1).2 in
  md_name meta = Some (p_name p) ∧ SendKind0 eid json ∈ o_log o ∧
  ∃ p', find_profile npub_b (st_profiles (o_db o)) = Some p' ∧ db_profiles (o_db o) !! npub_b = Some (profile_row p') ∧
    p_name p' = p_name p.
Proof.
  intros meta Hread Ht1 Ht2 Hname Hown Hp Hacc Hjson Hback Heid Hsent Hq o.
  assert (text_or (p_name p) (p_name p_b) = p_name p) as Hn by (unfold text_or; by rewrite bool_decide_false).
  split; [by simpl; rewrite Hn|]. subst o. unfold maybe_republish_own_kind0. erewrite mbind_ok by exact Hread. simpl.
  unfold repair_publish. erewrite mbind_ok by (unfold attempt; by erewrite publish_takes by done). simpl.
  pose proof (find_profile_id _ _ _ Hp) as Hid. fold meta.
  set (p' := published_profile p_b json meta (t2 / 1000)).
  match goal with |- context [write_repair_timestamp ?k ?w'] =>
    generalize (write_repair_timestamp_did (λ _, False) k (w_obs w') ltac:(set_solver) w' eq_refl);
    generalize (write_repair_timestamp k w') end.
  intros wr ((_ & _ & Hsame & _) & new & Hlog & _).
  rewrite Hlog. split; [set_solver|]. exists p'. simpl in *.
  destruct (Hsame npub_b) as [-> ->]; [tauto|]. rewrite find_update_profile by done. rewrite decide_True by done.
  rewrite Hp, <- Hid at 1. rewrite lookup_insert_eq. split_and!; [done..|]. subst p'. unfold published_profile.
  rewrite Hback. simpl. done.
Qed.
End crossing.

(** ** A crate, an account and its relays, for the witnesses *)

Definition toy_member (k : string) (fs : list (string * json)) : option string := opt de_string k fs ≫= id.

Definition toy_metadata : NostrMetadata := {|
  url_text s := Some s;
  metadata_value m := Ok (JObj (omap (λ kv, (λ s, (kv.1, JStr s)) <$> kv.2)
    [("name", md_name m); ("display_name", md_display_name m); ("about", md_about m); ("website", md_website m);
     ("picture", md_picture m); ("banner", md_banner m); ("nip05", md_nip05 m); ("lud06", md_lud06 m);
     ("lud16", md_lud16 m)]));
  metadata_of_text s :=
    v ← of_text s; fs ← struct_fields [] v;
    Some (mkMetadata (toy_member "name" fs) (toy_member "display_name" fs) (toy_member "about" fs)
      (toy_member "website" fs) (toy_member "picture" fs) (toy_member "banner" fs) (toy_member "nip05" fs)
      (toy_member "lud06" fs) (toy_member "lud16" fs) None);
|}.

Definition toy_profile_case : UnicodeCase := {| to_lowercase := to_ascii_lowercase |}.

Definition toy_own (id name : string) : Profile :=
  mkProfile id name "" "" "" "" "" "https://a.example/1.jpg" "hi" "" "" Status_new 5 true false true "/c/1" "".
Definition toy_session (id name : string) (generation : Z) : ProfileDb :=
  mkProfileDb [toy_own id name] {[ id := profile_row (toy_own id name) ]}
    {[ KIND0_PUBLISH_RECEIPT_KEY := to_text (ser_receipt "e0" ["r"] ["r"] [] 1) ]} (Some id) generation.
Definition toy_relays (own event : string) : PublishAnswers :=
  mkPublishAnswers (Ok own) (Ok event) 3 (Ok (["r1"; "r2"], [("r3", "rate-limited")])) (λ _, true).

Lemma profile_save_roundtrip_witness :
  p_bot (toy_own "npub1" "ann") = true ∧
  let p := toy_own "npub1" "ann" in
  let saved := @saved_profile p "Ann" "" "" "bye" 3 in
  ∃ receipt d' log',
    @update_profile toy_profile_case toy_metadata _ (toy_relays "npub1" "e1") "Ann" "" "" "bye"
      (mkWorld (mkObs (toy_session "npub1" "ann" 1) []) [] [2000; 3000]) = (Ok receipt, mkWorld (mkObs d' log') [] []) ∧
    find_profile "npub1" (st_profiles d') = Some saved ∧ db_profiles d' !! "npub1" = Some (profile_row saved) ∧
    to_profile (profile_row saved) =
      put_status (mkStatus (su_title (p_status p)) "" (su_url (p_status p))) (put_last_updated 0 (set_mine false saved)) ∧
    (∃ text, db_profile_settings d' !! KIND0_PUBLISH_RECEIPT_KEY = Some text ∧ receipt_event_id text = Some "e1").
Proof.
  split; [done|]. intros p saved.
  eapply (@profile_save_roundtrip toy_profile_case toy_metadata _ _ (toy_relays "npub1" "e1") "Ann" "" "" "bye"
    (toy_session "npub1" "ann" 1) [] 2000 3000 [] "npub1" "npub1" p _ "e1" ["r1"; "r2"]);
    try lia; try reflexivity; try (vm_compute; reflexivity).
  intros u _. by right.
Defined.

Lemma repair_crosses_accounts_witness :
  let others := λ _, toy_session "npub2" "bob" 3 in
  let w := mkWorld (mkObs (toy_session "npub1" "ann" 1) []) [] [1000; 2000; 3000; 4000] in
  let o := w_obs (@maybe_republish_own_kind0 toy_profile_case toy_metadata _ (Some "npub1") [] others
                    (toy_relays "npub2" "e1") "npub1" 1 w).2 in
  st_generation (o_db o) = 3 ∧ ∃ json, SendKind0 "e1" json ∈ o_log o ∧
  ∃ p', find_profile "npub2" (st_profiles (o_db o)) = Some p' ∧ db_profiles (o_db o) !! "npub2" = Some (profile_row p') ∧
    p_name p' = "ann".
Proof.
  split; [by vm_compute|].
  edestruct (@repair_crosses_accounts toy_profile_case toy_metadata _ (Some "npub1")
    (λ _, toy_session "npub2" "bob" 3) (toy_relays "npub2" "e1") "npub1" 1 (toy_own "npub1" "ann") (toy_own "npub2" "bob")
    (toy_session "npub2" "bob" 3) [] 2000 3000 [4000]
    (mkWorld (mkObs (toy_session "npub1" "ann" 1) []) [] [1000; 2000; 3000; 4000]) "npub2" "npub2")
    as (_ & Hsent & Hp); [vm_compute; reflexivity|lia|lia|done|done|done|done|vm_compute; reflexivity|vm_compute; reflexivity|
      reflexivity|reflexivity|vm_compute; lia|].
  eexists. split; [exact Hsent|exact Hp].
Defined.
