(* ===== verification/MessageTheorems.v ===== *)
(** * The properties of the stored messages

    The two checks of an edit agree, live messages show what a reload shows, replies quote
    what the quoted message shows, and rows are written once. *)

From Stdlib Require Import Ascii.
From S2P Require Import Prelude World Json Chat Schema Records CatchUp ReadState VirtualBucket FileNames Announce.
From S2P Require Import JoinInbox DashboardPoll StoredEvents SideEffects MessageViews MessageFacts Toy.

Section messages.
Context `{SerdeText} `{Rusqlite} `{AtRest} `{Nostr} `{NostrKeys}.
Implicit Types (o : World.Obs Db Effect) (d : Db).

(** ** What a reply quotes *)

(** Saved edits can be decrypted, as those this device saved can. *)
Definition edits_readable (d : Db) : Prop :=
  Forall (λ e, er_kind e = MESSAGE_EDIT → er_content e ≠ "" ∧ is_Some (internal_decrypt (er_content e))) (events d).

Lemma sorted_edit_in d id e : e ∈ sorted_edits d id →
  e ∈ events d ∧ er_reference_id e = Some id ∧ edit_authorized d e = true.
Proof.
  unfold sorted_edits, sort_by_key. rewrite sort_by_perm. unfold edit_rows.
  intros [[? ?] ?]%list_elem_of_filter. done.
Qed.

Lemma sorted_edit_readable d id e : edits_readable d → e ∈ sorted_edits d id →
  er_content e ≠ "" ∧ is_Some (internal_decrypt (er_content e)).
Proof.
  intros Hd (He & _ & (m & c & _ & _ & _ & Hk%edit_condition_kind)%edit_authorized_inv)%sorted_edit_in.
  unfold edits_readable in Hd. rewrite Forall_forall in Hd. by apply Hd.
Qed.

Lemma shown_row d chat_id limit offset f r : r ∈ shown_rows d chat_id limit offset f →
  r ∈ events d ∧ er_kind r ∈ MESSAGE_KINDS ∧ er_chat_id r = chat_id.
Proof.
  intros Hr%filter_sub. unfold select_events in Hr. apply page_sub in Hr.
  unfold newest_first, sort_by_key in Hr. rewrite sort_by_perm in Hr.
  apply list_elem_of_filter in Hr as [Hc Hr]. bool_facts. unfold of_kinds in *. by bool_facts.
Qed.

Lemma message_kinds_u16 k : k ∈ MESSAGE_KINDS → k `mod` 2 ^ 16 = k.
Proof. intros Hk. repeat (apply elem_of_cons in Hk as [->|Hk]; [done|]). by apply not_elem_of_nil in Hk. Qed.

(** A quote is what the quoted text or file shows. *)
Lemma quote_is_shown d r v : edits_readable d → er_kind r ∈ MESSAGE_KINDS → view_of d r v → m_rumor_kind v = None →
  quote_content d r = m_content v.
Proof.
  intros Hd Hk [_ He _ Hrk _] Hnone. rewrite Hrk, message_kinds_u16 in Hnone by done.
  unfold shown_edits in He. unfold quote_content.
  assert (m_content v = (edited_content (original_entry r) (entry_of <$> sorted_edits d (er_id r))).1.1) as -> by (by rewrite <- He).
  assert (er_kind r = PRIVATE_DIRECT_MESSAGE ∨ er_kind r = FILE_ATTACHMENT) as Hkind.
  { repeat (apply elem_of_cons in Hk as [Hk|Hk]; [rewrite Hk in Hnone |- *; auto; done|]). by apply not_elem_of_nil in Hk. }
  assert (∀ e, e ∈ sorted_edits d (er_id r) → er_content e ≠ "" ∧ is_Some (internal_decrypt (er_content e))) as Hread
    by (intros e; by apply sorted_edit_readable).
  destruct (sorted_edits d (er_id r)) as [|e es _] using rev_ind.
  - unfold original_entry, decrypt_event. simpl. rewrite message_kinds_u16 by done.
    destruct Hkind as [-> | ->]; reflexivity.
  - rewrite last_snoc, fmap_app. simpl. destruct (Hread e) as [Hne [c Hc]]; [set_solver|].
    unfold edited_content. destruct ((entry_of <$> es) ++ [entry_of e]) as [|x l] eqn:Hl; [by destruct es|].
    rewrite <- Hl, last_snoc. simpl. unfold decrypt_attachment_caption. rewrite bool_decide_eq_false_2 by done.
    rewrite Hc. by destruct Hkind as [-> | ->].
Qed.

(** C26. A reply quotes what the quoted message shows. When no call fails, on every page of views
    the text quoted by a reply to a text or file message of the page is the text that message
    shows, its edits by its author in time included. *)
Theorem replies_quote_views chat_id limit offset f o :
  is_Some (st_account (o_db o)) → ids_unique (o_db o) → times_ok (o_db o) → edits_readable (o_db o) →
  lwp (get_message_views chat_id limit offset f) o (λ vs o', o' = o ∧
    ∀ v w, v ∈ vs → w ∈ vs → m_replied_to v = m_id w → m_id w ≠ "" → m_rumor_kind w = None →
      m_replied_to_content v = Some (m_content w)).
Proof.
  intros Ha Hu Ht Hd. eapply lwp_mono; [by apply lwp_views|]. intros vs o' [-> Hvs]. split; [done|].
  intros v w Hv Hw Hr Hne Hk.
  apply list_elem_of_lookup in Hv as [i Hi]. apply list_elem_of_lookup in Hw as [j Hj].
  destruct (Forall2_lookup_r _ _ _ _ _ Hvs Hi) as (rv & _ & Hvv).
  destruct (Forall2_lookup_r _ _ _ _ _ Hvs Hj) as (rw & Hrw & Hww).
  apply list_elem_of_lookup_2, shown_row in Hrw as (Hin & Hkw & _).
  assert (m_id w = er_id rw) as Hid by apply Hww.
  rewrite (vo_quote _ _ _ Hvv) with (w := rw); [|by rewrite Hr|by rewrite Hr, Hid; apply event_row_of_in].
  by rewrite (quote_is_shown _ _ w).
Qed.
End messages.

(** ** Rows are written once *)

Section stored.
Context `{SerdeText} `{!SerdeTextLaws} `{Rusqlite} `{AtRest} `{Nostr} `{NostrKeys}.
Implicit Types (o : World.Obs Db Effect) (d : Db) (r : StoredEventRow).

(** The tags that change after a message is stored: the state of its files, its preview. *)
Definition lasting_tags (tags : list (list string)) : list (list string) :=
  filter (λ t, head t ∉ [Some "attachments"; Some "link_preview"]) tags.

(** What a row says for good. A gift wrap is filled in once, the author of a reaction
    repaired. *)
Record row_follows r r' : Prop := {
  rf_id : er_id r' = er_id r;
  rf_kind : er_kind r' = er_kind r;
  rf_chat : er_chat_id r' = er_chat_id r;
  rf_user : er_user_id r' = er_user_id r;
  rf_content : er_content r' = er_content r;
  rf_reference : er_reference_id r' = er_reference_id r;
  rf_created : er_created_at r' = er_created_at r;
  rf_received : er_received_at r' = er_received_at r;
  rf_mine : er_mine r' = er_mine r;
  rf_pending : er_pending r' = er_pending r;
  rf_failed : er_failed r' = er_failed r;
  rf_tags : lasting_tags (tags_of_text (er_tags r')) = lasting_tags (tags_of_text (er_tags r));
  rf_wrapper : er_wrapper_event_id r ∉ [None; Some ""] → er_wrapper_event_id r' = er_wrapper_event_id r;
  rf_npub : er_kind r ≠ REACTION → er_npub r' = er_npub r;
}.

(** The rows of before come first, each as it was, and ids stay unique. *)
Definition grows d d' : Prop :=
  ids_unique d → ids_unique d' ∧ ∃ l1 l2, events d' = l1 ++ l2 ∧ Forall2 row_follows (events d) l1.

#[export] Instance row_follows_refl : Reflexive row_follows.
Proof. by intros r. Qed.
#[export] Instance row_follows_trans : Transitive row_follows.
Proof.
  intros r1 r2 r3 R12 R23. destruct R12, R23. constructor; try congruence.
  - intros Hw. rewrite rf_wrapper1, rf_wrapper0; [done..|]. by rewrite rf_wrapper0.
  - intros Hk. rewrite rf_npub1, rf_npub0; [done..|]. congruence.
Qed.

Lemma grows_pointwise d d' : Forall2 row_follows (events d) (events d') → grows d d'.
Proof.
  intros HF Hu. split; [|exists (events d'), []; by rewrite app_nil_r].
  unfold ids_unique in *. enough (er_id <$> events d' = er_id <$> events d) as -> by done.
  clear Hu. induction HF as [|r r' l l' Hr _ IH]; [done|]. cbn. f_equal; [apply Hr|done].
Qed.
Lemma grows_same d d' : events d' = events d → grows d d'.
Proof. intros Hd. apply grows_pointwise. rewrite Hd. by apply Forall_Forall2_diag, Forall_forall. Qed.

#[export] Instance grows_refl : Reflexive grows.
Proof. intros d. by apply grows_same. Qed.
#[export] Instance grows_trans : Transitive grows.
Proof.
  intros d1 d2 d3 G12 G23 Hu. destruct (G12 Hu) as [Hu2 (l1 & l2 & E2 & F2)].
  destruct (G23 Hu2) as [Hu3 (l1' & l2' & E3 & F3)]. split; [done|].
  rewrite E2 in F3. apply Forall2_app_inv_l in F3 as (k1 & k2 & F1' & F2' & ->).
  exists k1, (k2 ++ l2'). rewrite E3, app_assoc. split; [done|]. by etrans.
Qed.

Lemma grows_insert row d u d' : insert_event row d = Ok (u, d') → grows d d'.
Proof.
  unfold insert_event. destruct (stored (er_id row) d) eqn:Hs; [by intros [= _ <-]|].
  destruct (foreign_keys && _); [done|]. intros [= _ <-] Hu.
  change (events (set_event_rows _ d)) with (events d ++ [row]). split.
  - unfold ids_unique. change (events (set_event_rows _ d)) with (events d ++ [row]). rewrite fmap_app.
    apply NoDup_app. split; [done|]. split; [|apply NoDup_singleton]. intros i Hi ->%list_elem_of_singleton.
    apply list_elem_of_fmap in Hi as (r & Hid & Hr). unfold stored in Hs.
    assert (existsb (λ r, bool_decide (er_id r = er_id row)) (events d) = true) as Hc; [|congruence].
    apply existsb_exists. exists r. split; [by apply list_elem_of_In|]. by apply bool_decide_eq_true_2.
  - exists (events d), [row]. split; [done|]. by apply Forall_Forall2_diag, Forall_forall.
Qed.

Lemma grows_update p f d : (ids_unique d → ∀ r, r ∈ events d → p r = true → row_follows r (f r)) →
  grows d (update_rows p f d).2.
Proof.
  intros Hf Hu. apply grows_pointwise; [|done].
  change (events (update_rows p f d).2) with ((λ r, if p r then f r else r) <$> events d).
  rewrite Forall2_fmap_r. apply Forall_Forall2_diag, Forall_forall. intros r Hr.
  simpl. destruct (p r) eqn:Hp; [by apply Hf|done].
Qed.

(** *** Tags *)

Lemma tags_text_roundtrip tags : tags_of_text (tags_text tags) = tags.
Proof.
  unfold tags_of_text, tags_text. rewrite of_to_text.
  - simpl. assert (∀ l : list string, de_list de_string (JArr (JStr <$> l)) = Some l) as Hs.
    { intros l. cbn [de_list]. induction l as [|x l IH]; [done|]. cbn [fmap list_fmap mapM] in *. by rewrite IH. }
    assert (mapM (de_list de_string) ((λ t, JArr (JStr <$> t)) <$> tags) = Some tags) as ->; [|done].
    induction tags as [|t tags IH]; [done|]. cbn [fmap list_fmap mapM]. by rewrite Hs, IH.
  - simpl. apply forallb_forall. intros j Hj%list_elem_of_In. apply list_elem_of_fmap in Hj as (t & -> & _). simpl.
    apply forallb_forall. intros j Hj%list_elem_of_In. by apply list_elem_of_fmap in Hj as (x & -> & _).
Qed.

Lemma put_tag_lasting key value tags : Some key ∈ [Some "attachments"; Some "link_preview"] →
  lasting_tags (put_tag key value tags) = lasting_tags tags.
Proof.
  intros Hk. assert (∀ l, lasting_tags ([key; value] :: l) = lasting_tags l) as Hnew.
  { intros l. unfold lasting_tags. rewrite filter_cons_False; [done|]. simpl. by intros Hn. }
  induction tags as [|t tags IH]; [apply (Hnew [])|]. cbn [put_tag]. case_bool_decide as Ht.
  - rewrite Hnew. unfold lasting_tags. rewrite filter_cons_False; [done|]. rewrite Ht. by intros Hn.
  - unfold lasting_tags in *. rewrite !filter_cons. by rewrite IH.
Qed.

(** *** The operations *)

Lemma keeps_modify_grows {A} (f : Db → A * Db) :
  (∀ d, events (f d).2 = events d) → keeps grows (modify f : Act A).
Proof. intros Hf. refine (keeps_modify grows _ _). intros d. by apply grows_same. Qed.
Lemma quiet_db_connection : quiet get_db_connection.
Proof. unfold get_db_connection. quiet_tac. Qed.
Lemma dwp_rows_sub {A} (rows : list A) o :
  dwp (rows_ok rows) o (λ res _, match res with Ok rows' => rows' ⊆ rows | Err _ => True end).
Proof.
  induction rows as [|row rows IH]; cbn [rows_ok]; [by dstep|].
  do 3 dstep; dstep; [apply list_subseteq_nil|].
  eapply dwp_mono; [apply IH|]. intros [rest|e] o' Hr; [|done]. dstep. set_solver.
Qed.
Lemma quiet_rows_ok {A} (rows : list A) : quiet (rows_ok rows).
Proof. induction rows as [|row rows IH]; cbn [rows_ok]; quiet_tac. Qed.

Lemma keeps_insert_grows {A} err (f : Db → result (A * Db)) :
  (∀ d a d', f d = Ok (a, d') → events d' = events d) → keeps grows (insert_row err f : Act A).
Proof. intros Hf. refine (keeps_insert_row grows _ _ _). intros d a d' Hd. by apply grows_same, (Hf _ a). Qed.
End stored.

#[export] Hint Resolve quiet_db_connection quiet_rows_ok : quiet.

(** Follow the shape; what is left writes something else than [events]. *)
Ltac grows_tac :=
  keeps_tac;
  repeat first
    [ solve [eauto with pacto]
    | refine (keeps_modify_grows _ _); intros ?; repeat case_match; done
    | solve [by apply grows_same] ].

Section store_operations.
Context `{SerdeText} `{!SerdeTextLaws} `{Rusqlite} `{AtRest} `{Nostr} `{NostrKeys}.
Implicit Types (o : World.Obs Db Effect) (d : Db) (r : StoredEventRow).

Lemma events_assign_chat chat d : events (assign_chat_id chat d) = events d.
Proof. unfold events, msgs, assign_chat_id, set_msgs. cbn. by destruct (mt_chat_ids _ !! chat). Qed.
Lemma events_assign_profile npub d : events (assign_profile_id npub d) = events d.
Proof. done. Qed.

Lemma keeps_insert_chat err chat secs : keeps grows (insert_row err (insert_chat chat secs) : Act Z).
Proof.
  refine (keeps_insert_grows _ _ _). intros d i d'. unfold insert_chat. destruct (chat_ids d !! chat); [done|].
  intros [= _ <-]. apply events_assign_chat.
Qed.
Lemma keeps_insert_profile err npub : keeps grows (insert_row err (insert_profile npub) : Act Z).
Proof.
  refine (keeps_insert_grows _ _ _). intros d i d'. unfold insert_profile. destruct (profile_ids d !! npub); [done|].
  intros [= _ <-]. apply events_assign_profile.
Qed.
Lemma keeps_insert_event err row : keeps grows (insert_row err (insert_event row) : Act unit).
Proof. refine (keeps_insert_row grows _ _ _). intros d u d'. apply grows_insert. Qed.
Hint Resolve keeps_insert_chat keeps_insert_profile keeps_insert_event : pacto.

Lemma keeps_chat_id chat : keeps grows (get_or_create_chat_id chat).
Proof. unfold get_or_create_chat_id, cache_chat, unix_secs_or_panic. grows_tac. Qed.
Lemma keeps_known_chat_id chat : keeps grows (get_chat_id_by_identifier chat).
Proof. unfold get_chat_id_by_identifier, cache_chat. grows_tac. Qed.
Hint Resolve keeps_chat_id keeps_known_chat_id : pacto.
Lemma keeps_resolve chat : keeps grows (resolve_chat_id_for_message_load chat).
Proof. unfold resolve_chat_id_for_message_load. grows_tac. Qed.
Lemma keeps_user_id npub : keeps grows (get_or_create_user_id npub).
Proof. unfold get_or_create_user_id, cache_user. grows_tac. Qed.

Lemma keeps_save_event event : keeps grows (save_event event).
Proof. unfold save_event. grows_tac. Qed.
Hint Resolve keeps_resolve keeps_user_id keeps_save_event : pacto.

Lemma keeps_save_message chat message : keeps grows (save_message chat message).
Proof.
  unfold save_message, save_reaction, save_reaction_event, message_to_stored_event, current_timestamp_ms,
    event_exists. grows_tac.
Qed.
Hint Resolve keeps_save_message : pacto.
Lemma keeps_save_messages chat messages : keeps grows (save_chat_messages chat messages).
Proof. unfold save_chat_messages, slice_to. grows_tac. Qed.

Lemma quiet_edits chat message : quiet (get_authorized_message_edits chat message).
Proof. unfold get_authorized_message_edits. quiet_tac. Qed.
Hint Resolve quiet_edits : quiet.
Lemma keeps_reconcile chat message : keeps grows (reconcile_message_edits chat message).
Proof. unfold reconcile_message_edits. grows_tac. Qed.
Hint Resolve keeps_reconcile : pacto.
Lemma keeps_persist chat message : keeps grows (persist_message_and_reconcile_edits chat message).
Proof. unfold persist_message_and_reconcile_edits. grows_tac. Qed.
Lemma keeps_receive_edit chat event : keeps grows (receive_message_edit chat event).
Proof. unfold receive_message_edit. grows_tac. Qed.
Lemma keeps_reaction reaction chat user mine : keeps grows (save_reaction_event reaction chat user mine).
Proof. unfold save_reaction_event, current_timestamp_ms. grows_tac. Qed.

Lemma quiet_context latest r : quiet (reply_context latest r).
Proof. unfold reply_context. quiet_tac. Qed.
Lemma quiet_contexts ids : quiet (get_reply_contexts ids).
Proof.
  pose proof quiet_context. unfold get_reply_contexts. quiet_tac.
Qed.
Lemma quiet_legacy ids : quiet (legacy_attachments ids).
Proof. unfold legacy_attachments. quiet_tac. all: apply quiet_foldM; intros ? ?; quiet_tac. Qed.
Lemma quiet_events chat kinds limit offset f : quiet (get_events chat kinds limit offset f).
Proof. unfold get_events. quiet_tac. Qed.
Lemma quiet_related ids : quiet (get_related_events ids).
Proof. unfold get_related_events. quiet_tac. Qed.
Lemma quiet_edit_ids ids : quiet (get_authorized_edit_ids ids).
Proof. unfold get_authorized_edit_ids. quiet_tac. Qed.
Hint Resolve quiet_contexts quiet_legacy quiet_events quiet_related quiet_edit_ids : quiet.
Lemma quiet_views chat limit offset f : quiet (get_message_views chat limit offset f).
Proof. unfold get_message_views. quiet_tac. Qed.
Hint Resolve quiet_views : quiet.
Lemma keeps_load_into add sort chat messages : keeps grows (load_into add sort chat messages).
Proof. unfold load_into. grows_tac. Qed.
Hint Resolve keeps_load_into : pacto.
Lemma keeps_page chat limit offset : keeps grows (get_chat_messages_paginated chat limit offset).
Proof. unfold get_chat_messages_paginated. grows_tac. Qed.
Lemma keeps_views chat limit offset f : keeps grows (message_views_command chat limit offset f).
Proof. unfold message_views_command, load_views. grows_tac. Qed.
Lemma keeps_around chat target before : keeps grows (messages_around_command chat target before).
Proof. unfold messages_around_command, get_messages_around_id, get_chat_message_count, load_views. grows_tac. Qed.
Lemma keeps_evict chat count : keeps grows (evict_chat_messages chat count).
Proof. unfold evict_chat_messages. grows_tac. Qed.
Lemma keeps_preload : keeps grows preload_id_caches.
Proof. unfold preload_id_caches, preload_rows, cache_chat, cache_user. grows_tac. Qed.

(** *** Rewriting a row *)

Lemma keeps_wrapper event wrapper : keeps grows (update_wrapper_event_id event wrapper).
Proof.
  unfold update_wrapper_event_id, with_db. grows_tac. refine (keeps_execute grows _ _ _). intros d.
  apply grows_update. intros _ r _ Hr. unfold unwrapped in Hr. bool_facts. split; try done.
Qed.

Lemma grows_tags id key value r d : event_row_of id d = Some r → Some key ∈ [Some "attachments"; Some "link_preview"] →
  grows d (update_rows (has_id id) (set_tags (tags_text (put_tag key value (tags_of_text (er_tags r))))) d).2.
Proof.
  intros Hr Hk. apply event_row_of_Some in Hr as [Hr <-]. apply grows_update. intros Hu r' Hr' Hid.
  unfold has_id in Hid. bool_facts. rewrite (unique_row d r' r) by done. split; try done. simpl.
  by rewrite tags_text_roundtrip, put_tag_lasting.
Qed.

Lemma keeps_rewrite id key (check : list (list string) → result string) :
  Some key ∈ [Some "attachments"; Some "link_preview"] →
  keeps grows (get_db_connection ;! let! tags := read_tags id in
    match check tags with Ok value => write_tags id (put_tag key value tags) | Err e => World.mthrow e end).
Proof.
  intros Hk o. dskip. unfold read_tags. do 3 dstep; [done|]. dstep. unfold write_tags.
  destruct (event_row_of id (o_db o)) as [r|] eqn:Hr; simplify_eq/=. destruct (check _) as [value|e].
  - dstep; [done|]. by apply grows_tags.
  - by dstep.
Qed.

(** The two operations that rewrite tags have that shape. *)
Lemma keeps_ext {A} (m m' : Act A) : (∀ w, m w = m' w) → keeps grows m' → keeps grows m.
Proof. intros Hm Hk o w Hw. rewrite Hm. by apply Hk. Qed.

Lemma keeps_preview id metadata : keeps grows (save_link_preview_metadata id metadata).
Proof.
  apply (keeps_rewrite id "link_preview" (λ _, Ok (to_text (ser_site metadata)))). set_solver.
Qed.
Lemma keeps_downloaded id attachment downloaded path :
  keeps grows (update_attachment_downloaded_status id attachment downloaded path).
Proof.
  set (this a := bool_decide (at_id a = attachment)).
  refine (keeps_ext _ _ _ (keeps_rewrite id "attachments" (λ tags,
    if existsb this (stored_attachments tags)
    then Ok (attachments_text (update_first this (set_download downloaded path) (stored_attachments tags)))
    else Err "Attachment not found in event") _)); [|set_solver].
  intros w. unfold update_attachment_downloaded_status, World.mbind. destruct (get_db_connection w) as [[[]|e] w']; [|done].
  destruct (read_tags id w') as [[tags|e] w'']; [|done]. fold this. by destruct (existsb this _).
Qed.

Lemma grows_in d d' r r' : grows d d' → ids_unique d → r ∈ events d → r' ∈ events d' → er_id r' = er_id r →
  row_follows r r'.
Proof.
  intros G Hu Hr Hr' Hid. destruct (G Hu) as [Hu' (l1 & l2 & E & F)].
  apply list_elem_of_lookup in Hr as [i Hi]. destruct (Forall2_lookup_l _ _ _ _ _ F Hi) as (r2 & Hl & Hf).
  rewrite (unique_row d' r' r2); [done..| |by rewrite Hid; destruct Hf].
  rewrite E. apply elem_of_app. left. by eapply list_elem_of_lookup_2.
Qed.

Lemma keeps_repair : keeps grows repair_legacy_hex_reaction_npubs.
Proof.
  intros o. destruct (decide (ids_unique (o_db o))) as [Hu|Hu]; [|by intros w Hw].
  unfold repair_legacy_hex_reaction_npubs. dskip. do 2 dstep; [done|].
  set (rows := (λ r, (er_id r, default "" (er_npub r))) <$> filter (λ r, legacy_reaction r = true) (events (o_db o))).
  dstep. eapply dwp_quiet; [apply quiet_rows_ok|apply (dwp_rows_sub rows o)|]. intros [rows'|e] Hsub; [|done].
  apply dwp_foldM with (I := λ l (_ : unit) o', l ⊆ rows ∧ grows (o_db o) (o_db o')); [by intros ? ? [_ ?]| |by split].
  intros row l _ o' [Hl G]. assert (l ⊆ rows) as Hl' by (intros x Hx; apply Hl; by right).
  destruct (pk_from_hex row.2) as [pubkey|]; [|by dstep]. destruct (to_bech32 pubkey) as [bech32|e]; [|by dstep].
  assert (grows (o_db o') (update_rows (has_id row.1) (set_npub bech32) (o_db o')).2) as G'.
  { apply grows_update. intros _ r' Hr' Hid. unfold has_id in Hid. bool_facts. split; try done. intros Hk.
    assert (row ∈ rows) as Hrow by (apply Hl; left). apply list_elem_of_fmap in Hrow as (r & -> & Hr).
    apply list_elem_of_filter in Hr as [Hleg Hr]. unfold legacy_reaction in Hleg. bool_facts.
    destruct (grows_in _ _ r r' G Hu Hr Hr' Hid). congruence. }
  dstep; [done|]. split; [done|]. by etrans.
Qed.

(** *** Times and replies of a row that follows another *)

Lemma find_lasting key tags : Some key ∉ [Some "attachments"; Some "link_preview"] →
  find_custom (lasting_tags tags) key = find_custom tags key.
Proof.
  intros Hk. unfold find_custom, lasting_tags. induction tags as [|t tags IH]; [done|]. rewrite filter_cons.
  case_decide as Ht; cbn [find_first]; [by rewrite IH|]. rewrite bool_decide_eq_false_2; [done|].
  intros Heq. rewrite Heq in Ht. contradiction.
Qed.

Lemma row_follows_time r r' : row_follows r r' → row_time r' = row_time r.
Proof.
  intros F. unfold row_time, timestamp_ms, parse_event_row, timestamp_ms_from_tags, get_tag_in. simpl.
  rewrite <- (find_lasting "ms" (tags_of_text (er_tags r'))), <- (find_lasting "ms" (tags_of_text (er_tags r)))
    by set_solver. by rewrite (rf_tags _ _ F), (rf_created _ _ F).
Qed.

(** The store of messages: saving, what changes later, reading, which loads. *)
Inductive StoreOp : Type :=
| Save (chat : string) (messages : list Message)
| Persist (chat : string) (message : Message)
| SaveEvent (event : StoredEvent)
| React (reaction : Reaction) (chat_id : Z) (user_id : option Z) (mine : bool)
| ReceiveEdit (chat : string) (event : StoredEvent)
| SetWrapper (event_id wrapper_id : string)
| DiscardWrap (wrapper_id : string)
| SetDownloaded (event_id attachment_id : string) (downloaded : bool) (path : string)
| SavePreview (event_id : string) (metadata : SiteMetadata)
| RepairReactions
| ReadPage (chat : string) (limit offset : Z)
| ReadViews (chat : string) (limit offset : Z) (virtual_bucket_filter : option string)
| ReadAround (chat target : string) (context_before : Z)
| Evict (chat : string) (keep_count : nat)
| PreloadIds.

Definition discard {A} (m : Act A) : Act unit := m ;! mret tt.

Definition store_op (op : StoreOp) : Act unit :=
  match op with
  | Save chat messages => save_chat_messages chat messages
  | Persist chat message => persist_message_and_reconcile_edits chat message
  | SaveEvent event => save_event event
  | React reaction chat_id user_id mine => save_reaction_event reaction chat_id user_id mine
  | ReceiveEdit chat event => receive_message_edit chat event
  | SetWrapper event_id wrapper_id => discard (update_wrapper_event_id event_id wrapper_id)
  | DiscardWrap wrapper_id => record_discarded_giftwrap wrapper_id
  | SetDownloaded event_id attachment_id b path => update_attachment_downloaded_status event_id attachment_id b path
  | SavePreview event_id metadata => save_link_preview_metadata event_id metadata
  | RepairReactions => repair_legacy_hex_reaction_npubs
  | ReadPage chat limit offset => discard (get_chat_messages_paginated chat limit offset)
  | ReadViews chat limit offset f => discard (message_views_command chat limit offset f)
  | ReadAround chat target before => discard (messages_around_command chat target before)
  | Evict chat count => evict_chat_messages chat count
  | PreloadIds => preload_id_caches
  end.

(** One after the other, whether each succeeds or not. *)
Definition store_ops (ops : list StoreOp) : Act unit :=
  foldM (λ _ op, let! _ := attempt (store_op op) in mret tt) tt ops.

Hint Resolve keeps_save_messages keeps_persist keeps_reaction keeps_receive_edit keeps_preview keeps_downloaded
  keeps_repair keeps_evict keeps_preload keeps_wrapper keeps_page keeps_views keeps_around : pacto.
Lemma keeps_store_op op : keeps grows (store_op op).
Proof. destruct op; simpl; unfold discard, record_discarded_giftwrap; grows_tac. Qed.

(** C7. A stored message stays. Over any history of saving, receiving, reacting, editing,
    downloading, repairing and reading, whatever fails, every row of the start is still there, in
    its place, with the same content, author, kind, chat, marks, times of sending and of
    receipt, and reference, but for the npub of a reaction's author, which the repair rewrites;
    its gift wrap is filled in at most once, and of its tags only those of files and previews
    change. No two rows have one id. *)
Theorem store_append_only ops o : ids_unique (o_db o) →
  dwp (store_ops ops) o (λ _ o', ids_unique (o_db o') ∧ ∃ l1 l2, events (o_db o') = l1 ++ l2 ∧
    Forall2 (λ r r', row_follows r r' ∧ row_time r' = row_time r) (events (o_db o)) l1).
Proof.
  intros Hu. assert (keeps grows (store_ops ops)) as Hk.
  { unfold store_ops. apply keeps_foldM; [apply _..|]. intros [] op. apply keeps_bind; [apply _| |intros ?].
    - apply keeps_attempt, keeps_store_op.
    - apply keeps_ret, _. }
  eapply dwp_mono; [apply Hk|]. intros res o' G. destruct (G Hu) as [Hu' (l1 & l2 & E & F)]. split; [done|].
  exists l1, l2. split; [done|]. eapply Forall2_impl; [exact F|]. intros r r' Hr. split; [done|].
  by apply row_follows_time.
Qed.
End store_operations.

(** ** The two checks of an edit *)

Section edit_checks.
Context `{SerdeText} `{Rusqlite} `{AtRest} `{Nostr} `{NostrKeys}.
Implicit Types (o : World.Obs Db Effect) (d : Db) (r m : StoredEventRow).

(** What the columns hold: a 16-bit kind, a receipt in [i64] and a stamp that does not wrap. *)
Definition row_in_range r : Prop :=
  time_ok r ∧ 0 ≤ er_kind r < 2 ^ 16 ∧ i64_min ≤ er_received_at r ≤ i64_max.
Definition event_in_range (e : StoredEvent) : Prop :=
  0 ≤ se_created_at e < 2 ^ 54 ∧ 0 ≤ se_received_at e < 2 ^ 64.

Definition dm_peer_of (c : string * ChatSqlRow) : option string :=
  if ct_chat_type c.2 =? to_i32 DirectMessage then Some c.1 else None.

(** The receipt times: the same window over [i64] columns and over [u64] values. *)
Lemma receipt_agrees (m e : Z) : i64_min ≤ m ≤ i64_max → 0 ≤ e < 2 ^ 64 →
  edit_received_in_time (m `mod` 2 ^ 64) e =
  ((0 <? m) && (0 <? wrap64 e)) && (wrap64 e - m <=? EDIT_WINDOW_SECS * 1000).
Proof.
  intros Hm He. unfold edit_received_in_time.
  assert (((1 <=? m `mod` 2 ^ 64) && (m `mod` 2 ^ 64 <=? i64_max)) = (0 <? m)) as ->.
  { unfold i64_min, i64_max in *. destruct (Z.ltb_spec 0 m).
    - rewrite Z.mod_small by lia. apply andb_true_iff. split; apply Z.leb_le; lia.
    - apply andb_false_iff. destruct (decide (m = 0)) as [->|]; [by left|right].
      rewrite <- (Zmod_unique m (2 ^ 64) (-1) (m + 2 ^ 64)) by lia. apply Z.leb_gt. lia. }
  assert (((1 <=? e) && (e <=? i64_max)) = (0 <? wrap64 e)) as ->.
  { unfold wrap64, i64_max in *. destruct (Z.ltb_spec e (2 ^ 63)).
    - rewrite Z.mod_small by lia. destruct (Z.ltb_spec 0 (e + 2 ^ 63 - 2 ^ 63)).
      + apply andb_true_iff. split; apply Z.leb_le; lia.
      + apply andb_false_iff. left. apply Z.leb_gt. lia.
    - rewrite <- (Zmod_unique (e + 2 ^ 63) (2 ^ 64) 1 (e - 2 ^ 63)) by lia.
      rewrite (proj2 (Z.ltb_ge _ _)) by lia. apply andb_false_iff. right. apply Z.leb_gt. lia. }
  destruct (Z.ltb_spec 0 m) as [Hm0|]; [|done]. destruct (Z.ltb_spec 0 (wrap64 e)) as [He0|]; [|done].
  assert (wrap64 e = e) as Hw.
  { unfold wrap64, i64_max in *. destruct (decide (e < 2 ^ 63)); [rewrite Z.mod_small; lia|].
    rewrite <- (Zmod_unique (e + 2 ^ 63) (2 ^ 64) 1 (e - 2 ^ 63)) in He0 by lia. lia. }
  rewrite Hw, Z.mod_small by (unfold i64_max in *; lia). simpl.
  destruct (Z.leb_spec (e - m) (EDIT_WINDOW_SECS * 1000)); [apply Z.leb_le|apply Z.leb_gt]; unfold EDIT_WINDOW_SECS in *; lia.
Qed.

(** The authors: SQL compares columns, Rust [EditAuthor]s. *)
Lemma authors_agree mine_m mine_e (npub_m npub_e peer : option string) :
  same_author (of_original mine_m npub_m peer) (of_edit mine_e npub_e) =
  (if mine_m then mine_e
   else negb mine_e && match npub_e, (match npub_m with Some n => Some n | None => peer end) with
                       | Some a, Some b => bool_decide (a = b)
                       | _, _ => false
                       end).
Proof.
  unfold of_edit, of_original. destruct mine_m, mine_e, npub_m, npub_e, peer; simpl; try done;
    apply bool_decide_ext; split; congruence.
Qed.

Lemma condition_agrees d m c edit content :
  row_in_range m → event_in_range edit → se_kind edit = MESSAGE_EDIT →
  edit_condition d (event_row edit content) m c =
  bool_decide (mt_legacy (msgs d) !! er_id m = None) &&
  stored_edit_is_authorized (parse_event_row m) edit (dm_peer_of c) (timestamp_ms edit).
Proof.
  intros (Ht & Hk & Hrec) [Hct Hr] Hkind.
  unfold edit_condition, stored_edit_is_authorized, edit_is_authorized, event_row, parse_event_row.
  cbn [er_kind er_chat_id er_mine er_npub er_created_at er_received_at er_reference_id se_kind se_chat_id se_received_at
    se_mine se_npub]. cbv zeta.
  assert (timestamp_ms (parse_event_row m) / 1000 = er_created_at m) as Hm by (by apply row_time_second).
  unfold parse_event_row in Hm. rewrite Hm.
  rewrite Hkind, receipt_agrees, authors_agree, (Z.mod_small (er_kind m)) by done.
  assert (timestamp_ms edit / 1000 = se_created_at edit) as -> by (by apply timestamp_second).
  rewrite (wrap64_id (se_created_at edit)) by (unfold i64_ok, i64_min, i64_max; lia).
  assert (bool_decide (er_kind m ∈ [PRIVATE_DIRECT_MESSAGE; FILE_ATTACHMENT]) =
    (er_kind m =? PRIVATE_DIRECT_MESSAGE) || (er_kind m =? FILE_ATTACHMENT)) as ->.
  { apply eq_true_iff_eq. rewrite bool_decide_eq_true, orb_true_iff, !Z.eqb_eq, !elem_of_cons. set_solver. }
  rewrite (Z.eqb_sym (se_chat_id edit)). unfold dm_peer_of. cbn [Z.eqb].
  apply eq_true_iff_eq. rewrite !andb_true_iff. tauto.
Qed.

Lemma find_first_app {A} (p : A → bool) (l l' : list A) :
  find_first p (l ++ l') = match find_first p l with Some x => Some x | None => find_first p l' end.
Proof. induction l as [|x l IH]; [done|]. cbn. by destruct (p x). Qed.

Lemma existsb_filter {A} (p : A → bool) (l : list A) (P : A → Prop) `{!∀ x, Decision (P x)} :
  existsb p (filter P l) = existsb (λ x, p x && bool_decide (P x)) l.
Proof.
  induction l as [|x l IH]; [done|]. rewrite filter_cons. case_decide; cbn [existsb]; rewrite IH.
  - by rewrite bool_decide_eq_true_2, andb_true_r.
  - by rewrite bool_decide_eq_false_2, andb_false_r.
Qed.

Lemma existsb_none {A} (p q : A → bool) l : existsb p l = false → existsb (λ x, p x && q x) l = false.
Proof. induction l as [|x l IH]; [done|]. cbn. intros [Hx Hl]%orb_false_iff. by rewrite Hx, IH. Qed.

(** The database once the row of a new event is in. *)
Definition with_row d row : Db := set_event_rows (λ l, l ++ [row]) d.

Lemma authorized_new d row : stored (er_id row) d = false →
  existsb (has_id (er_id row)) (authorized_edits (with_row d row)) = edit_authorized (with_row d row) row.
Proof.
  intros Hs. unfold authorized_edits. rewrite existsb_filter.
  change (events (with_row d row)) with (events d ++ [row]). rewrite existsb_app.
  rewrite existsb_none by exact Hs. cbn. unfold has_id. rewrite bool_decide_eq_true_2, orb_false_r by done. simpl.
  by destruct (edit_authorized (with_row d row) row).
Qed.

(** What the check before saving reads of the rows. *)
Definition checked_before d (edit : StoredEvent) : bool :=
  match ref ← se_reference_id edit; event_row_of ref d with
  | Some m => bool_decide (mt_legacy (msgs d) !! er_id m = None) &&
      stored_edit_is_authorized (parse_event_row m) edit (chat_row_of d (er_chat_id m) ≫= dm_peer_of) (timestamp_ms edit)
  | None => false
  end.

Lemma lwp_check_before edit o : is_Some (st_account (o_db o)) → se_kind edit = MESSAGE_EDIT →
  lwp (edit_is_authorized_before_save edit) o (λ b o', o' = o ∧ b = checked_before (o_db o) edit).
Proof.
  intros Ha Hk. unfold edit_is_authorized_before_save, checked_before. lstep. apply lwp_connected; [done|].
  rewrite Hk, Z.eqb_refl. simpl. destruct (se_reference_id edit) as [ref|]; [|by lstep]. simpl. do 2 lstep.
  destruct (event_row_of ref (o_db o)) as [m|]; simpl; [|by lstep].
  case_decide as Hl; simpl; [|rewrite bool_decide_eq_false_2 by done; by lstep].
  rewrite bool_decide_eq_true_2 by done. unfold dm_peer_for_chat. do 4 lstep. lstep. lstep. split; [done|]. simpl.
  by destruct (chat_row_of (o_db o) (er_chat_id m)).
Qed.

Lemma authorized_agrees d edit content :
  Forall row_in_range (events d) → Forall (λ r, is_Some (chat_row_of d (er_chat_id r))) (events d) →
  event_in_range edit → se_kind edit = MESSAGE_EDIT → stored (se_id edit) d = false →
  edit_authorized (with_row d (event_row edit content)) (event_row edit content) = checked_before d edit.
Proof.
  intros Hrows Hchats He Hk Hs. unfold edit_authorized, checked_before.
  change (er_reference_id (event_row edit content)) with (se_reference_id edit).
  destruct (se_reference_id edit) as [ref|]; [|done]. simpl.
  assert (event_row_of ref (with_row d (event_row edit content)) =
    match event_row_of ref d with
    | Some m => Some m
    | None => if bool_decide (se_id edit = ref) then Some (event_row edit content) else None
    end) as ->.
  { unfold event_row_of. change (events (with_row d (event_row edit content))) with (events d ++ [event_row edit content]).
    rewrite find_first_app. by destruct (find_first _ _). }
  destruct (event_row_of ref d) as [m|] eqn:Hm; simpl.
  - apply event_row_of_Some in Hm as [Hm _]. rewrite Forall_forall in Hrows, Hchats.
    change (chat_row_of (with_row d (event_row edit content))) with (chat_row_of d).
    destruct (Hchats m Hm) as [c Hc]. rewrite Hc. simpl.
    change (edit_condition (with_row d (event_row edit content))) with (edit_condition d).
    rewrite condition_agrees by auto. by destruct c.
  - case_bool_decide; [|done]. simpl. destruct (chat_row_of _ _) as [c|]; [|done]. simpl.
    unfold edit_condition, event_row. cbn. rewrite Hk. reflexivity.
Qed.

(** C8. The two checks of an edit agree. When no call fails, a new edit of a stored message, its
    values in range and its chat known, is found authorised by the SQL condition once saved
    exactly when the check in Rust before saving authorised it. *)
Theorem edit_checks_agree edit o :
  is_Some (st_account (o_db o)) →
  Forall row_in_range (events (o_db o)) →
  Forall (λ r, is_Some (chat_row_of (o_db o) (er_chat_id r))) (events (o_db o)) →
  event_in_range edit → se_kind edit = MESSAGE_EDIT → stored (se_id edit) (o_db o) = false →
  (∀ content, foreign_keys_hold (event_row edit content) (o_db o) = true) →
  lwp (let! before := edit_is_authorized_before_save edit in
       save_event edit ;!
       let! after := saved_edit_is_authorized (se_id edit) in
       World.mret (before, after)) o (λ checks _, checks.1 = checks.2).
Proof.
  intros Ha Hrows Hchats He Hk Hs Hfk. lstep. eapply lwp_mono; [by apply lwp_check_before|]. intros b o' [-> ->].
  unfold save_event. lstep. lstep. apply lwp_connected; [done|]. rewrite Hk. cbn [is_encrypted_kind]. simpl.
  lstep. do 2 lstep. lstep.
  lstep; [unfold insert_event; change (er_id (event_row edit (internal_encrypt _ _))) with (se_id edit); rewrite Hs, Hfk,
    andb_false_r; reflexivity|].
  unfold saved_edit_is_authorized. lstep. lstep. apply lwp_connected; [exact Ha|]. do 2 lstep. simpl.
  change (se_id edit) with (er_id (event_row edit (internal_encrypt t (se_content edit)))).
  change (set_event_rows _ (o_db o)) with (with_row (o_db o) (event_row edit (internal_encrypt t (se_content edit)))).
  rewrite authorized_new by exact Hs. by rewrite authorized_agrees.
Qed.
End edit_checks.

(** ** What live messages show *)

Section live.
Context `{SerdeText} `{Rusqlite} `{AtRest} `{Nostr} `{NostrKeys}.
Implicit Types (o : World.Obs Db Effect) (d : Db) (r : StoredEventRow) (S E : list EditEntry).

Lemma shown_edits_eq m content edited history :
  shown_edits m = (content, edited, history) → m_content m = content ∧ m_edit_history m = history.
Proof. unfold shown_edits. by intros [= -> _ ->]. Qed.

(** One edit: ignored when seen, sorted in otherwise. *)
Definition add_entry S (x : EditEntry) : list EditEntry :=
  if bool_decide (ee_event_id x ∈ ee_event_id <$> S) then S else sort_by_key ee_edited_at (S ++ [x]).

Lemma edited_content_cons orig S : S ≠ [] →
  edited_content orig S = (from_option ee_content (ee_content orig) (last S), true, Some (orig :: S)).
Proof. by destruct S. Qed.

Lemma apply_edit_shown m orig S x :
  shown_edits m = edited_content orig S → (m_id m, m_at m) = (ee_event_id orig, ee_edited_at orig) →
  StronglySorted (λ x y, ee_edited_at x ≤ ee_edited_at y) S → ee_event_id x ≠ ee_event_id orig →
  shown_edits (apply_edit m (ee_event_id x) (ee_content x) (ee_edited_at x)).2 = edited_content orig (add_entry S x).
Proof.
  intros Hm [= Hid Hat] Hs Hx. unfold add_entry. case_bool_decide as Hin.
  - rewrite apply_edit_seen; [done|]. rewrite edited_content_cons in Hm by (by destruct S; [apply not_elem_of_nil in Hin|]).
    apply shown_edits_eq in Hm as [_ ->]. simpl. by right.
  - assert (original_of m = orig ∧ edits_of m = S ∧ history_wf m ∧
      ee_event_id x ∉ ee_event_id <$> default [] (m_edit_history m)) as (Ho & He & Hwf & Hnew).
    { destruct S as [|y S'].
      - apply shown_edits_eq in Hm as [Hc Hh]. unfold original_of, edits_of, history_wf. rewrite Hh, Hid, Hat, Hc.
        by destruct orig.
      - rewrite edited_content_cons in Hm by done. apply shown_edits_eq in Hm as [_ Hh].
        unfold original_of, edits_of, history_wf. rewrite Hh. split_and!; [done..|]. simpl. rewrite elem_of_cons. naive_solver. }
    destruct (apply_edit_new m _ (ee_content x) (ee_edited_at x) Hwf Hnew) as (m' & Ha & Hh & Hc).
    rewrite Ho, He in Hh, Hc. destruct x as [i c t]. simpl in *. rewrite edited_content_cons.
    2:{ intros Hnil. apply (f_equal length) in Hnil. unfold sort_by_key in Hnil. rewrite sort_by_perm, length_app in Hnil.
        simpl in Hnil. lia. }
    rewrite Ha. unfold shown_edits. simpl. rewrite Hh, Hc.
    assert (m_edited m' = true) as ->; [|done].
    revert Ha. unfold apply_edit. destruct (match m_edit_history m with Some _ => _ | None => _ end); by intros [= <-].
Qed.

Lemma sort_by_key_id {A} (key : A → Z) l : StronglySorted (λ x y, key x ≤ key y) l → sort_by_key key l = l.
Proof.
  intros Hs. apply (sorted_by_key_unique key); [apply sort_by_key_sorted|done|]. intros v. apply sort_by_key_stable.
Qed.

(** A list of edits of different ids. *)
Lemma add_entries E : ∀ S, StronglySorted (λ x y, ee_edited_at x ≤ ee_edited_at y) S → NoDup (ee_event_id <$> E) →
  foldl add_entry S E = sort_by_key ee_edited_at (S ++ filter (λ x, ee_event_id x ∉ ee_event_id <$> S) E).
Proof.
  induction E as [|x E IH]; intros S Hs Hnd; cbn [foldl].
  - rewrite app_nil_r. symmetry. by apply sort_by_key_id.
  - apply NoDup_cons in Hnd as [Hx Hnd]. rewrite filter_cons. unfold add_entry at 2. case_bool_decide as Hin.
    + rewrite decide_False by (by intros ?). by apply IH.
    + rewrite decide_True by done. rewrite IH; [|apply sort_by_key_sorted|done].
      rewrite sort_by_key_app_sorted, <- app_assoc. simpl. do 3 f_equal. apply filter_ext_in. intros y Hy.
      assert (ee_event_id <$> sort_by_key ee_edited_at (S ++ [x]) ≡ₚ ee_event_id <$> S ++ [x]) as ->
        by (unfold sort_by_key; by rewrite sort_by_perm).
      rewrite fmap_app, elem_of_app. simpl. rewrite list_elem_of_singleton.
      split; [naive_solver|]. intros Hn [?|Heq]; [done|].
      apply Hx. rewrite <- Heq. by apply list_elem_of_fmap_2.
Qed.

Definition apply_stored m (e : StoredEvent) : Message := (apply_edit m (se_id e) (se_content e) (timestamp_ms e)).2.
Definition entry_of_stored (e : StoredEvent) : EditEntry := mkEntry (se_id e) (se_content e) (timestamp_ms e).
(** What decides whether an edit counts, and what the edits do not change. *)
Definition edit_key m : string * Z * bool * option string * option Z :=
  (m_id m, m_at m, m_mine m, m_npub m, m_rumor_kind m).

Lemma apply_stored_key m e : edit_key (apply_stored m e) = edit_key m.
Proof. unfold apply_stored, apply_edit. by case_match. Qed.

Lemma add_entry_sorted S x : StronglySorted (λ x y, ee_edited_at x ≤ ee_edited_at y) S →
  StronglySorted (λ x y, ee_edited_at x ≤ ee_edited_at y) (add_entry S x).
Proof. intros Hs. unfold add_entry. case_bool_decide; [done|]. apply sort_by_key_sorted. Qed.

Lemma apply_all_shown orig (es : list StoredEvent) : ∀ m S,
  shown_edits m = edited_content orig S → (m_id m, m_at m) = (ee_event_id orig, ee_edited_at orig) →
  StronglySorted (λ x y, ee_edited_at x ≤ ee_edited_at y) S → (∀ e, e ∈ es → se_id e ≠ ee_event_id orig) →
  shown_edits (foldl apply_stored m es) = edited_content orig (foldl add_entry S (entry_of_stored <$> es)).
Proof.
  induction es as [|e es IH]; intros m S Hm Hk Hs He; [done|]. cbn [foldl fmap list_fmap]. apply IH.
  - apply (apply_edit_shown m orig S (entry_of_stored e)); [done..|]. apply He. left.
  - pose proof (apply_stored_key m e) as Hkey. unfold edit_key in Hkey. injection Hkey as -> -> _ _ _. done.
  - by apply add_entry_sorted.
  - intros e' He'. apply He. by right.
Qed.

Lemma get_message_update c id m (f : Message → Message) : get_message c id = Some m → m_id (f m) = id →
  get_message (update_message c id f) id = Some (f m).
Proof.
  unfold get_message, update_message. simpl. intros Hg Hid. induction (c_messages c) as [|x l IH]; [done|].
  cbn [find_first update_first] in *. destruct (bool_decide (m_id x = id)) eqn:Hx; cbn [find_first].
  - injection Hg as ->. by rewrite bool_decide_eq_true_2.
  - rewrite Hx. by apply IH.
Qed.

Definition peer_of (c : Chat) : option string :=
  if decide (c_chat_type c = DirectMessage) then Some (c_id c) else None.

Lemma reconcile_all id (es : list StoredEvent) : ∀ changed c m,
  get_message c id = Some m →
  (∀ e, e ∈ es → accepts_edit m (peer_of c) (of_edit (se_mine e) (se_npub e)) (timestamp_ms e) = true) →
  let c' := (foldl (reconcile_edit id) (changed, c) es).2 in
  get_message c' id = Some (foldl apply_stored m es) ∧ c_id c' = c_id c ∧ c_chat_type c' = c_chat_type c.
Proof.
  induction es as [|e es IH]; intros changed c m Hm Hes; [done|]. cbn [foldl]. unfold reconcile_edit at 2 4 6.
  assert (edit_target c id (of_edit (se_mine e) (se_npub e)) (timestamp_ms e) = Some m) as ->.
  { unfold edit_target. rewrite Hm. pose proof (Hes e (list_elem_of_here _ _)) as He. unfold peer_of in He. simpl. by rewrite He. }
  destruct (apply_edit m (se_id e) (se_content e) (timestamp_ms e)) as [applied m'] eqn:Ha.
  assert (apply_stored m e = m') as Hm' by (unfold apply_stored; by rewrite Ha). rewrite Hm'.
  assert (m_id m = id) as Hid by (apply find_first_Some in Hm as [_ Hm]; by bool_facts).
  pose proof (apply_stored_key m e) as Hkey. rewrite Hm' in Hkey. unfold edit_key in Hkey. injection Hkey as Hi Ht Hmi Hn Hk.
  destruct (IH (changed || applied) (update_message c id (λ _, m')) m') as (Hg & Hc & Hty); [| |done].
  - apply (get_message_update c id m); [done|congruence].
  - intros e' He'. specialize (Hes e' (list_elem_of_further _ _ _ He')).
    unfold accepts_edit in *. rewrite Hk, Hmi, Hn, Ht. exact Hes.
Qed.

(** *** What receiving an edit leaves *)

(** All the checks and views read besides [events]. *)
Definition tables d : gmap string Z * gmap string Z * gmap string (Z * string) * gmap string ChatSqlRow * option string :=
  (chat_ids d, profile_ids d, mt_legacy (msgs d), db_chats d, st_account d).

Lemma chat_row_tables d d' : tables d' = tables d → chat_row_of d' = chat_row_of d.
Proof. unfold tables, chat_row_of, chat_identifier_of. by intros [= -> _ _ -> _]. Qed.

Lemma edit_authorized_tables d d' e id : tables d' = tables d → er_reference_id e = Some id →
  event_row_of id d' = event_row_of id d → edit_authorized d' e = edit_authorized d e.
Proof.
  intros Ht He Hr. unfold edit_authorized. rewrite He. simpl. rewrite Hr, (chat_row_tables d d' Ht).
  unfold edit_condition. by injection Ht as _ _ -> _ _.
Qed.

Lemma lwp_known_chat chat id o : is_Some (st_account (o_db o)) → chat_ids (o_db o) !! chat = Some id →
  (∀ i, chat_id_cache (o_db o) !! chat = Some i → i = id) →
  lwp (get_chat_id_by_identifier chat) o (λ i o', i = id ∧ o_log o' = o_log o ∧ events (o_db o') = events (o_db o) ∧
    tables (o_db o') = tables (o_db o) ∧ st_chats (o_db o') = st_chats (o_db o) ∧
    ∀ i, chat_id_cache (o_db o') !! chat = Some i → i = id).
Proof.
  intros Ha Hid Hc. unfold get_chat_id_by_identifier. do 2 lstep.
  destruct (chat_id_cache (o_db o) !! chat) as [i|] eqn:Hi; [lstep; rewrite Hi, (Hc i) by done; naive_solver|].
  lstep. apply lwp_connected; [done|].
  lstep. lstep; [by rewrite Hid|]. lstep. unfold cache_chat. lstep. lstep. split_and!; [done..|]. intros i.
  unfold chat_id_cache, msgs. simpl. rewrite lookup_insert_eq. congruence.
Qed.

Lemma lwp_save_edit e o : is_Some (st_account (o_db o)) → se_kind e = MESSAGE_EDIT →
  (∀ content, foreign_keys_hold (event_row e content) (o_db o) = true) →
  lwp (save_event e) o (λ _ o', o_log o' = o_log o ∧ tables (o_db o') = tables (o_db o) ∧
    st_chats (o_db o') = st_chats (o_db o) ∧ chat_id_cache (o_db o') = chat_id_cache (o_db o) ∧ ∃ n, events (o_db o') = if stored (se_id e) (o_db o) then events (o_db o)
      else events (o_db o) ++ [event_row e (internal_encrypt n (se_content e))]).
Proof.
  intros Ha Hk Hfk. unfold save_event. lstep. apply lwp_connected; [done|]. rewrite Hk. cbn [is_encrypted_kind]. simpl.
  do 3 lstep. lstep. set (row := event_row e _).
  assert (insert_event row (o_db o) = Ok (tt, if stored (er_id row) (o_db o) then o_db o else with_row (o_db o) row)) as Hi.
  { unfold insert_event, row. rewrite Hfk, andb_false_r. by destruct (stored _ _). }
  lstep; [exact Hi|]. change (er_id row) with (se_id e). split_and!; [done|by destruct (stored _ _)..|].
  exists t. by destruct (stored _ _).
Qed.

Definition readable d : Prop :=
  Forall (λ e, er_kind e = MESSAGE_EDIT → is_Some (internal_decrypt (er_content e))) (events d).

(** A saved edit as it is applied. *)
Definition decrypted r : StoredEvent :=
  set_content (default (er_content r) (internal_decrypt (er_content r))) (parse_event_row r).

Lemma edit_row_facts d id e : e ∈ edit_rows d id → e ∈ events d ∧ er_reference_id e = Some id ∧
  edit_authorized d e = true ∧ er_kind e = MESSAGE_EDIT.
Proof.
  unfold edit_rows. intros [[Href Hauth] He]%list_elem_of_filter. split_and!; [done..|].
  destruct (edit_authorized_inv d e Hauth) as (m & c & _ & _ & _ & Hk). by eapply edit_condition_kind.
Qed.

Lemma lwp_saved_edits chat id r o : is_Some (st_account (o_db o)) → event_row_of id (o_db o) = Some r →
  chat_identifier_of (o_db o) (er_chat_id r) = Some chat → readable (o_db o) →
  lwp (get_authorized_message_edits chat id) o (λ es o', o' = o ∧
    es = decrypted <$> oldest_first (edit_rows (o_db o) id)).
Proof.
  intros Ha Hr Hc Hd. unfold get_authorized_message_edits. lstep. apply lwp_connected; [done|]. do 5 lstep.
  apply lwp_collect. rewrite Hr. simpl. rewrite Hc.
  assert (filter (λ e, bool_decide (er_reference_id e = Some id) && bool_decide (Some chat = Some chat) = true)
    (authorized_edits (o_db o)) = edit_rows (o_db o) id) as ->.
  { unfold authorized_edits, edit_rows. rewrite list_filter_filter. apply list_filter_iff. intros e.
    rewrite andb_true_iff, !bool_decide_eq_true. naive_solver. }
  eapply lwp_of_result; [|split; [done|reflexivity]].
  assert (∀ l, (∀ e, e ∈ l → is_Some (internal_decrypt (er_content e))) →
    rmapM (λ e, match internal_decrypt (se_content e) with
                | Some c => Ok (set_content c e)
                | None => Err "Failed to decrypt saved edit"
                end) (parse_event_row <$> l) = Ok (decrypted <$> l)) as Hall.
  { induction l as [|e l IH]; intros Hl; [done|]. cbn [fmap list_fmap rmapM]. unfold decrypted at 1.
    destruct (Hl e (list_elem_of_here _ _)) as [c Hec]. change (se_content (parse_event_row e)) with (er_content e).
    rewrite Hec. rewrite IH; [done|]. intros e' He'. apply Hl. by right. }
  apply Hall. intros e He. unfold oldest_first, sort_by_key in He. rewrite sort_by_perm in He.
  apply edit_row_facts in He as (He & _ & _ & Hk). unfold readable in Hd. rewrite Forall_forall in Hd. by apply Hd.
Qed.

(** At most one row more. *)
Definition one_more d d' : Prop :=
  events d' = events d ∨ ∃ row, stored (er_id row) d = false ∧ events d' = events d ++ [row].

Lemma stored_false id d : stored id d = false → id ∉ er_id <$> events d.
Proof.
  intros Hs (r & Hid & Hr)%list_elem_of_fmap. unfold stored in Hs.
  assert (existsb (λ r, bool_decide (er_id r = id)) (events d) = true) as Hc; [|congruence].
  apply existsb_exists. exists r. split; [by apply list_elem_of_In|]. by apply bool_decide_eq_true_2.
Qed.

Lemma one_more_unique d d' : one_more d d' → ids_unique d → ids_unique d'.
Proof.
  unfold ids_unique. intros [-> | (row & Hs & ->)] Hu; [done|]. rewrite fmap_app. apply NoDup_app.
  split; [done|]. split; [|apply NoDup_singleton]. intros i Hi ->%list_elem_of_singleton.
  by apply stored_false in Hs.
Qed.

Lemma one_more_row d d' id r : one_more d d' → event_row_of id d = Some r → event_row_of id d' = Some r.
Proof.
  unfold event_row_of. intros [-> | (row & _ & ->)] Hr; [done|]. by rewrite find_first_app, Hr.
Qed.

Lemma one_more_edits d d' id r : one_more d d' → tables d' = tables d → event_row_of id d = Some r →
  ∃ new, edit_rows d' id = edit_rows d id ++ new ∧ (length new ≤ 1)%nat.
Proof.
  intros Hm Ht Hr. pose proof (one_more_row d d' id r Hm Hr) as Hr'.
  assert (∀ l : list StoredEventRow, filter (λ e, er_reference_id e = Some id ∧ edit_authorized d' e = true) l =
    filter (λ e, er_reference_id e = Some id ∧ edit_authorized d e = true) l) as Hf.
  { intros l. apply list_filter_iff. intros e.
    split; intros [He ?]; (split; [done|]); [rewrite <- (edit_authorized_tables d d' e id)|
      rewrite (edit_authorized_tables d d' e id)]; congruence. }
  unfold edit_rows. rewrite Hf. destruct Hm as [-> | (row & _ & ->)].
  - exists []. rewrite app_nil_r. simpl. split; [done|lia].
  - rewrite filter_app. eexists. split; [done|]. apply length_filter.
Qed.

Lemma filter_none {A} (P : A → Prop) `{!∀ x, Decision (P x)} (l : list A) :
  (∀ x, x ∈ l → ¬ P x) → filter P l = [].
Proof.
  induction l as [|x l IH]; intros Hl; [done|]. rewrite filter_cons_False by (apply Hl; left).
  apply IH. intros y Hy. apply Hl. by right.
Qed.
Lemma filter_all {A} (P : A → Prop) `{!∀ x, Decision (P x)} (l : list A) :
  (∀ x, x ∈ l → P x) → filter P l = l.
Proof.
  induction l as [|x l IH]; intros Hl; [done|]. rewrite filter_cons_True by (apply Hl; left).
  f_equal. apply IH. intros y Hy. apply Hl. by right.
Qed.

Lemma filter_unseen (rows new : list StoredEventRow) : NoDup (er_id <$> rows ++ new) →
  filter (λ x, er_id x ∉ er_id <$> rows) (rows ++ new) = new.
Proof.
  rewrite fmap_app. intros (_ & Hdis & _)%NoDup_app. rewrite filter_app, filter_none, filter_all; [done|..].
  - intros x Hx Hin. apply (Hdis (er_id x)); [done|]. by apply list_elem_of_fmap_2.
  - intros x Hx Hn. by apply Hn, list_elem_of_fmap_2.
Qed.

Lemma sorted_entries d id :
  entry_of <$> sorted_edits d id = sort_by_key ee_edited_at (entry_of <$> edit_rows d id).
Proof. unfold sorted_edits. by rewrite sort_by_key_fmap. Qed.

Lemma edits_grow d d' id r : one_more d d' → tables d' = tables d → event_row_of id d = Some r → ids_unique d' →
  foldl add_entry (entry_of <$> sorted_edits d id)
    (entry_of_stored <$> (decrypted <$> oldest_first (edit_rows d' id))) = entry_of <$> sorted_edits d' id.
Proof.
  intros Hm Ht Hr Hu. destruct (one_more_edits d d' id r Hm Ht Hr) as (new & Hnew & Hlen).
  assert (NoDup (er_id <$> edit_rows d' id)) as Hnd
    by (apply (sublist_NoDup _ (er_id <$> events d')); [done|apply fmap_sublist, sublist_filter]).
  rewrite <- list_fmap_compose. change (entry_of_stored ∘ decrypted) with entry_of.
  rewrite !sorted_entries, add_entries; [|apply sort_by_key_sorted|].
  2:{ rewrite <- list_fmap_compose. change (ee_event_id ∘ entry_of) with er_id. unfold oldest_first, sort_by_key.
      by rewrite sort_by_perm. }
  assert (filter (λ x, ee_event_id x ∉ ee_event_id <$> sort_by_key ee_edited_at (entry_of <$> edit_rows d id))
    (entry_of <$> oldest_first (edit_rows d' id)) = entry_of <$> new) as ->.
  { rewrite filter_fmap. f_equal. unfold oldest_first.
    rewrite (list_filter_iff _ (λ x, er_id x ∉ er_id <$> edit_rows d id)).
    2:{ intros x. simpl. assert (ee_event_id <$> sort_by_key ee_edited_at (entry_of <$> edit_rows d id) ≡ₚ
          er_id <$> edit_rows d id) as ->; [|done]. unfold sort_by_key. rewrite sort_by_perm, <- list_fmap_compose. done. }
    rewrite sort_by_key_filter, Hnew, filter_unseen by (by rewrite <- Hnew).
    destruct new as [|x [|y new]]; [done..|simpl in Hlen; lia]. }
  by rewrite sort_by_key_app_sorted, <- fmap_app, <- Hnew.
Qed.

(** *** A live message and its row *)

(** The live message [m] of the loaded chat [c] stands for the row [r]: the same author and
    time, in a chat of the same type. *)
Record stands_for d (chat_id : string) (c : Chat) (m : Message) r : Prop := {
  is_chat : get_chat (st_chats d) chat_id = Some c;
  is_message : get_message c (er_id r) = Some m;
  is_row : event_row_of (er_id r) d = Some r;
  is_chat_row : ∃ row, chat_row_of d (er_chat_id r) = Some (chat_id, row) ∧
    (ct_chat_type row =? to_i32 DirectMessage) = bool_decide (c_chat_type c = DirectMessage);
  is_chat_id : chat_ids d !! chat_id = Some (er_chat_id r);
  is_cached : ∀ i, chat_id_cache d !! chat_id = Some i → i = er_chat_id r;
  is_key : edit_key m = (er_id r, row_time r, er_mine r, er_npub r, None);
}.
(** It shows what a view of [r] shows. *)
Definition in_step d (chat_id : string) (c : Chat) (m : Message) r : Prop :=
  stands_for d chat_id c m r ∧
  shown_edits m = edited_content (original_entry r) (entry_of <$> sorted_edits d (er_id r)).

Lemma original_entry_key r : (er_id r, row_time r) = (ee_event_id (original_entry r), ee_edited_at (original_entry r)).
Proof. unfold original_entry. destruct (decrypt_event_fields (parse_event_row r)) as (-> & _ & _ & -> & _). done. Qed.

Lemma peer_of_eq c : peer_of c = if bool_decide (c_chat_type c = DirectMessage) then Some (c_id c) else None.
Proof. unfold peer_of. case_decide; case_bool_decide; congruence. Qed.

(** An edit the SQL condition admits is admitted again by the check on the live message. *)
Lemma accepted d chat_id c m r e : stands_for d chat_id c m r → times_ok d → e ∈ edit_rows d (er_id r) →
  accepts_edit m (peer_of c) (of_edit (er_mine e) (er_npub e)) (row_time e) = true.
Proof.
  intros Hs Ht (He & Href & Hauth & _)%edit_row_facts. destruct (edit_authorized_inv d e Hauth) as (m0 & c0 & Href' & Hm0 & Hc0 & Hcond).
  assert (m0 = r) as -> by (pose proof (is_row _ _ _ _ _ Hs); congruence).
  destruct (is_chat_row _ _ _ _ _ Hs) as (row & Hrow & Hty). rewrite Hrow in Hc0. injection Hc0 as <-.
  pose proof (is_key _ _ _ _ _ Hs) as Hkey. unfold edit_key in Hkey. injection Hkey as _ Hat Hmine Hnpub Hkind.
  unfold accepts_edit, edit_is_authorized. rewrite Hkind, Hat, Hmine, Hnpub. cbv zeta.
  pose proof (event_row_of_Some _ _ _ Hm0) as [Hr _]. unfold times_ok in Ht. rewrite Forall_forall in Ht.
  rewrite !row_time_second, bool_decide_eq_true_2 by auto. rewrite authors_agree.
  unfold edit_condition in Hcond. cbn [fst snd] in Hcond. rewrite Hty in Hcond.
  rewrite peer_of_eq. pose proof (get_chat_Some _ _ _ (is_chat _ _ _ _ _ Hs)) as [_ ->].
  rewrite !andb_true_iff in *. tauto.
Qed.

Lemma in_step_one_more d d' chat_id c m r : in_step d chat_id c m r → one_more d d' → tables d' = tables d →
  ids_unique d' →
  (∀ e, e ∈ edit_rows d' (er_id r) → er_id e ≠ er_id r) →
  shown_edits (foldl apply_stored m (decrypted <$> oldest_first (edit_rows d' (er_id r)))) =
  edited_content (original_entry r) (entry_of <$> sorted_edits d' (er_id r)).
Proof.
  intros [Hs Hsh] Hm Ht Hu Hne. pose proof (f_equal fst (original_entry_key r)) as Hk1. cbn [fst] in Hk1.
  pose proof (is_key _ _ _ _ _ Hs) as Hkey. unfold edit_key in Hkey. injection Hkey as Hid Hat _ _ _.
  rewrite (apply_all_shown (original_entry r) _ _ (entry_of <$> sorted_edits d (er_id r))).
  - by rewrite (edits_grow d d' (er_id r) r Hm Ht (is_row _ _ _ _ _ Hs) Hu).
  - exact Hsh.
  - rewrite Hid, Hat. apply original_entry_key.
  - rewrite sorted_entries. apply sort_by_key_sorted.
  - intros e (e' & -> & He')%list_elem_of_fmap. rewrite <- Hk1. unfold oldest_first, sort_by_key in He'.
    rewrite sort_by_perm in He'. change (se_id (decrypted e')) with (er_id e'). by apply Hne.
Qed.

Lemma apply_all_key (es : list StoredEvent) : ∀ m, edit_key (foldl apply_stored m es) = edit_key m.
Proof. induction es as [|e es IH]; intros m; [done|]. cbn [foldl]. by rewrite IH, apply_stored_key. Qed.

(** The loaded chat after the loop: the message with all its saved edits, its preview perhaps
    dropped. *)
Lemma reconcile_chat_spec d chat_id c m r (es : list StoredEvent) : stands_for d chat_id c m r →
  (∀ e, e ∈ es → accepts_edit m (peer_of c) (of_edit (se_mine e) (se_npub e)) (timestamp_ms e) = true) →
  let m' := foldl apply_stored m es in
  ∃ out c' m'', reconcile_chat (er_id r) es c = (out, c') ∧ get_message c' (er_id r) = Some m'' ∧
    c_id c' = c_id c ∧ c_chat_type c' = c_chat_type c ∧ shown_edits m'' = shown_edits m' ∧ edit_key m'' = edit_key m'.
Proof.
  intros Hs Hes m'. unfold reconcile_chat.
  pose proof (reconcile_all (er_id r) es false c m (is_message _ _ _ _ _ Hs) Hes) as (Hg & Hc & Hty).
  destruct (foldl (reconcile_edit (er_id r)) (false, c) es) as [changed c1]. cbn [snd] in Hg, Hc, Hty. fold m' in Hg.
  destruct changed; [|by exists None, c1, m'].
  eexists _, _, (clear_preview m'). split; [reflexivity|]. split; [|done]. apply (get_message_update c1 (er_id r) m' clear_preview Hg).
  pose proof (f_equal (λ k, k.1.1.1.1) (apply_all_key es m)) as Hk. fold m' in Hk. cbn in Hk. cbn. rewrite Hk.
  pose proof (f_equal (λ k, k.1.1.1.1) (is_key _ _ _ _ _ Hs)) as Hk'. exact Hk'.
Qed.

Lemma chat_row_identifier d id chat row : chat_row_of d id = Some (chat, row) → chat_identifier_of d id = Some chat.
Proof.
  unfold chat_row_of. destruct (chat_identifier_of d id) as [i|]; [|done]. simpl. destruct (db_chats d !! i); [|done].
  by intros [= -> _].
Qed.

Lemma stands_for_step d d' chat_id c c' m m' r : stands_for d chat_id c m r → one_more d d' → tables d' = tables d →
  (∀ i, chat_id_cache d' !! chat_id = Some i → i = er_chat_id r) → get_chat (st_chats d') chat_id = Some c' →
  get_message c' (er_id r) = Some m' → c_chat_type c' = c_chat_type c → edit_key m' = edit_key m →
  stands_for d' chat_id c' m' r.
Proof.
  intros Hs Hm Ht Hcache Hc Hg Hty Hk. destruct Hs as [? ? Hrow (row & Hcr & Hct) Hid _ Hkey]. split; try done.
  - by apply (one_more_row d).
  - exists row. by rewrite (chat_row_tables _ _ Ht), Hty.
  - injection Ht as Hids _ _ _ _. by rewrite Hids.
  - congruence.
Qed.

Lemma edit_row_other d r e : ids_unique d → event_row_of (er_id r) d = Some r → e ∈ edit_rows d (er_id r) →
  er_id e ≠ er_id r.
Proof.
  intros Hu Hr (He & Href & Hauth & Hk)%edit_row_facts Heq.
  destruct (edit_authorized_inv d e Hauth) as (m & c & Href' & Hm & _ & Hc). assert (m = r) as -> by congruence.
  pose proof (event_row_of_Some _ _ _ Hr) as [Hin _]. rewrite (unique_row d e r) in Hk by done.
  unfold edit_condition in Hc. rewrite !andb_true_iff, bool_decide_eq_true, Hk in Hc.
  destruct Hc as [[[[[[[_ Hc] _] _] _] _] _] _]. unfold MESSAGE_EDIT in Hc.
  repeat (apply elem_of_cons in Hc as [Hc|Hc]; [done|]). by apply not_elem_of_nil in Hc.
Qed.

Lemma lwp_reconcile d chat_id c m r o : in_step d chat_id c m r → one_more d (o_db o) → tables (o_db o) = tables d →
  st_chats (o_db o) = st_chats d → (∀ i, chat_id_cache (o_db o) !! chat_id = Some i → i = er_chat_id r) →
  is_Some (st_account (o_db o)) → ids_unique (o_db o) → times_ok (o_db o) → readable (o_db o) →
  lwp (reconcile_message_edits chat_id (er_id r)) o (λ _ o', events (o_db o') = events (o_db o) ∧
    tables (o_db o') = tables (o_db o) ∧ ∃ c' m', in_step (o_db o') chat_id c' m' r).
Proof.
  intros Hin Hm Ht Hst Hcache Ha Hu Htm Hd. pose proof Hin as [Hs Hsh].
  assert (get_chat (st_chats (o_db o)) chat_id = Some c) as Hc by (rewrite Hst; apply Hs).
  assert (stands_for (o_db o) chat_id c m r) as Hs'
    by (apply (stands_for_step d (o_db o) chat_id c c m m r); [done..|apply Hs|done|done]).
  destruct (is_chat_row _ _ _ _ _ Hs') as (row & Hrow & Hty). apply chat_row_identifier in Hrow.
  pose proof (is_row _ _ _ _ _ Hs') as Hr.
  unfold reconcile_message_edits. lstep. eapply lwp_mono; [by apply (lwp_saved_edits chat_id (er_id r) r)|].
  intros es o' [-> ->]. set (es := decrypted <$> oldest_first (edit_rows (o_db o) (er_id r))).
  assert (shown_edits (foldl apply_stored m es) =
    edited_content (original_entry r) (entry_of <$> sorted_edits (o_db o) (er_id r))) as Hshown.
  { apply (in_step_one_more d (o_db o) chat_id c); [done..|]. intros e. by apply edit_row_other. }
  destruct (reconcile_chat_spec (o_db o) chat_id c m r es Hs') as (out & c' & m' & Hrec & Hg & Hci & Hct & Hs1 & Hk1).
  { intros e (e' & -> & He')%list_elem_of_fmap. apply (accepted (o_db o) chat_id c m r e'); [done..|].
    unfold oldest_first, sort_by_key in He'. by rewrite sort_by_perm in He'. }
  set (d' := put_chat chat_id c' (o_db o)).
  assert (events d' = events (o_db o) ∧ tables d' = tables (o_db o) ∧ ∃ c' m', in_step d' chat_id c' m' r) as Hend.
  { split_and!; [done..|]. exists c', m'. split; [|by rewrite Hs1, Hshown].
    apply (stands_for_step (o_db o) _ chat_id c c' m m' r); try done; [by left| |by rewrite Hk1, apply_all_key].
    unfold put_chat. cbn. apply (update_first_get (λ _, c') chat_id _ c); [|done]. intros _ _. rewrite Hci.
    by apply get_chat_Some in Hc as [_ ?]. }
  destruct es as [|e0 es0] eqn:Hes.
  - lstep. split_and!; [done..|]. exists c, m. split; [done|]. by rewrite <- Hshown.
  - rewrite <- Hes in *. lstep. lstep. rewrite Hc, Hrec. cbn. destruct out; lstep; exact Hend.
Qed.

(** C6. A live message shows what a reload shows. When no call fails, and the live message shows
    what a view of its row shows, it still does after an edit of it is received, new, repeated
    or refused, whatever the order of arrival: the same text, the same history, and every page
    of views agrees. *)
Theorem live_edits_match_views chat_id edit limit offset f c m r o :
  (∀ n s, internal_decrypt (internal_encrypt n s) = Some s) →
  is_Some (st_account (o_db o)) → ids_unique (o_db o) → times_ok (o_db o) → readable (o_db o) →
  in_step (o_db o) chat_id c m r →
  se_kind edit = MESSAGE_EDIT → se_reference_id edit = Some (er_id r) → 0 ≤ se_created_at edit < 2 ^ 54 →
  (∀ content, foreign_keys_hold (event_row (set_chat_id (er_chat_id r) edit) content) (o_db o) = true) →
  lwp (receive_message_edit chat_id edit ;! get_message_views (er_chat_id r) limit offset f) o (λ vs o',
    ∃ c' m', in_step (o_db o') chat_id c' m' r ∧
      ∀ v, v ∈ vs → m_id v = er_id r → shown_edits v = shown_edits m').
Proof.
  intros Hcrypt Ha Hu Htm Hd Hin Hk Href Hcr Hfk. pose proof Hin as [Hs _].
  unfold receive_message_edit. lstep. lstep.
  eapply lwp_mono; [apply (lwp_known_chat chat_id (er_chat_id r)); [done|apply Hs|apply Hs]|].
  intros i o1 (-> & _ & He1 & Ht1 & Hst1 & Hcache1). lstep. rewrite Href. lstep; [done|]. lstep.
  assert (st_account (o_db o1) = st_account (o_db o)) as Ha1 by (by injection Ht1).
  assert (stored (se_id edit) (o_db o1) = stored (se_id edit) (o_db o)) as Hst by (unfold stored; by rewrite He1).
  eapply lwp_mono; [apply lwp_save_edit; [by rewrite Ha1|done|]|].
  { intros content. specialize (Hfk content). unfold foreign_keys_hold in *. by injection Ht1 as -> -> _ _ _. }
  intros _ o2 (_ & Ht2 & Hst2 & Hc2 & n & He2). rewrite He1 in He2. change (se_id (set_chat_id _ edit)) with (se_id edit) in He2.
  rewrite Hst in He2. set (row := event_row _ _) in He2.
  assert (one_more (o_db o) (o_db o2)) as Hm.
  { destruct (stored (se_id edit) (o_db o)) eqn:Hse; [by left|]. right. by exists row. }
  assert (times_ok (o_db o2) ∧ readable (o_db o2)) as [Htm2 Hd2].
  { unfold times_ok, readable. rewrite He2. destruct (stored (se_id edit) (o_db o)); [by split|]. split; apply Forall_app; (split; [done|]).
    - apply Forall_singleton. unfold time_ok, row. simpl. rewrite wrap64_id by (unfold i64_ok, i64_min, i64_max; lia). done.
    - apply Forall_singleton. intros _. unfold row. simpl. rewrite Hcrypt. eauto. }
  eapply lwp_mono; [apply (lwp_reconcile (o_db o) chat_id c m r)|]; try done; [congruence..|by rewrite Hc2| |by eapply one_more_unique|].
  { injection Ht2 as _ _ _ _ ->. by rewrite Ha1. }
  intros _ o3 (He3 & Ht3 & c' & m' & Hin').
  assert (∀ d d', events d' = events d → ids_unique d → times_ok d → ids_unique d' ∧ times_ok d') as Hsame
    by (unfold ids_unique, times_ok; by intros ? ? ->).
  destruct (Hsame (o_db o2) (o_db o3)) as [Hu3 Htm3]; [done|by eapply one_more_unique|done|].
  eapply lwp_mono; [apply lwp_views; [|done|done]|].
  { injection Ht3 as _ _ _ _ ->. injection Ht2 as _ _ _ _ ->. by rewrite Ha1. }
  intros vs o4 [-> Hvs]. exists c', m'. split; [done|]. intros v Hv Hid. destruct Hin' as [Hs' ->].
  apply list_elem_of_lookup in Hv as [k Hv]. destruct (Forall2_lookup_r _ _ _ _ _ Hvs Hv) as (r' & Hr' & Hview).
  apply list_elem_of_lookup_2, shown_row in Hr' as (Hin3 & _ & _). pose proof (is_row _ _ _ _ _ Hs') as Hrow.
  apply event_row_of_Some in Hrow as [Hrow _].
  assert (r' = r) as -> by (apply (unique_row (o_db o3)); [done..|]; destruct Hview; congruence).
  by destruct Hview.
Qed.
End live.

(** ** Deleted chats *)

Section deleting.
Context `{SerdeText} `{Rusqlite} `{AtRest} `{Nostr} `{NostrKeys}.
Implicit Types (o : World.Obs Db Effect) (d : Db) (r : StoredEventRow).

Definition same_msgs d d' : Prop := msgs d' = msgs d.
#[export] Instance same_msgs_refl : Reflexive same_msgs.
Proof. by intros d. Qed.
#[export] Instance same_msgs_trans : Transitive same_msgs.
Proof. unfold same_msgs. by intros ??? -> ->. Qed.

Lemma keeps_delete_entries chat : keeps same_msgs (delete_entries_for_chat chat).
Proof.
  unfold delete_entries_for_chat, delete_rows. keeps_tac. refine (keeps_execute same_msgs _ _ _). by intros d.
Qed.

Definition without (i : Z) (rows : list StoredEventRow) : list StoredEventRow := filter (λ r, er_chat_id r ≠ i) rows.
Lemma without_twice i rows : without i (without i rows) = without i rows.
Proof. unfold without. rewrite list_filter_filter. apply list_filter_iff. intros r. tauto. Qed.

(** What a chat leaves when it is deleted: its rows, its id and its cached id are gone. *)
Definition chat_gone d (chat : string) (i : Z) d' : Prop :=
  events d' = without i (events d) ∧ chat_ids d' !! chat = None ∧ chat_id_cache d' !! chat = None ∧
  mt_chat_seq (msgs d') = mt_chat_seq (msgs d).

Lemma delete_row_gone d d1 chat i : chat_ids d !! chat = Some i → events d1 = without i (events d) →
  chat_ids d1 = chat_ids d → mt_chat_seq (msgs d1) = mt_chat_seq (msgs d) →
  chat_gone d chat i (set_id_caches (delete chat) (λ c, c) (delete_chat_row i d1)).
Proof.
  intros Hi He Hc Hs. unfold chat_gone, delete_chat_row. split_and!.
  - destruct foreign_keys; [|done]. change (without i (events d1) = without i (events d)). by rewrite He, without_twice.
  - transitivity (filter (λ p : string * Z, p.2 ≠ i) (chat_ids d1) !! chat); [by destruct foreign_keys|].
    rewrite Hc. apply map_lookup_filter_None_2. right. intros x Hx. simpl. rewrite Hi in Hx. injection Hx as <-. tauto.
  - transitivity (delete chat (chat_id_cache d1) !! chat); [by destruct foreign_keys|apply lookup_delete_eq].
  - rewrite <- Hs. by destruct foreign_keys.
Qed.

Lemma delete_chat_dwp chat i o : chat_ids (o_db o) !! chat = Some i →
  dwp (delete_chat chat) o (λ res o', match res with
    | Ok _ => chat_gone (o_db o) chat i (o_db o')
    | Err _ => events (o_db o') = events (o_db o) ∨ events (o_db o') = without i (events (o_db o))
    end).
Proof.
  intros Hi. unfold delete_chat. dstep. apply dwp_quiet_any; [apply quiet_db_connection|]. intros [u|e]; [|by left].
  dstep. dstep; [by left|]. rewrite Hi. dstep. dstep; [by left|]. do 2 dstep.
  assert (∀ o1, events (o_db o1) = without i (events (o_db o)) → chat_ids (o_db o1) = chat_ids (o_db o) →
    mt_chat_seq (msgs (o_db o1)) = mt_chat_seq (msgs (o_db o)) →
    dwp (exec_ (λ e, "Failed to delete chat: " +:+ e) (delete_chat_row i) ;!
         modify (λ d, (tt, set_id_caches (delete chat) (λ c, c) d)) ;!
         let! _ := attempt (delete_entries_for_chat chat) in World.mret tt) o1 (λ res o', match res with
    | Ok _ => chat_gone (o_db o) chat i (o_db o')
    | Err _ => events (o_db o') = events (o_db o) ∨ events (o_db o') = without i (events (o_db o))
    end)) as Htail.
  { intros o1 He Hc Hs. dstep. dstep; [by right|]. do 2 dstep. dstep. dstep. eapply dwp_mono; [apply keeps_delete_entries|].
    intros res o' Hm. unfold same_msgs in Hm. dstep. simpl in Hm.
    pose proof (delete_row_gone (o_db o) (o_db o1) chat i Hi He Hc Hs) as Hg.
    unfold chat_gone, events, chat_ids, chat_id_cache in *. by rewrite Hm. }
  dstep; [intros|]; apply Htail; done.
Qed.

Lemma insert_chat_fresh chat secs d j d' : insert_chat chat secs d = Ok (j, d') →
  events d' = events d ∧ j = mt_chat_seq (msgs d) + 1.
Proof.
  unfold insert_chat. destruct (chat_ids d !! chat) as [i|] eqn:Hc; [done|]. intros [= <- <-].
  unfold chat_ids, msgs in Hc. unfold events, msgs, assign_chat_id, set_msgs. cbn. by rewrite Hc.
Qed.

Lemma new_chat_dwp chat o : chat_ids (o_db o) !! chat = None → chat_id_cache (o_db o) !! chat = None →
  dwp (get_or_create_chat_id chat) o (λ res o', match res with
    | Ok j => events (o_db o') = events (o_db o) ∧ j = mt_chat_seq (msgs (o_db o)) + 1
    | Err _ => True
    end).
Proof.
  intros Hc Hcache. destruct o as [d log]. simpl in Hc, Hcache. unfold get_or_create_chat_id. do 2 dstep. rewrite Hcache. dskip.
  dstep. dstep. apply dwp_quiet with (P := λ res, match res with Ok (Some _) => False | _ => True end);
    [apply quiet_query|apply dwp_query; [done|cbn; by rewrite Hc]|].
  intros res Hres. assert (res_ok res = Some None ∨ res_ok res = None) as Hr by (destruct res as [[?|]|]; [done|by left|by right]).
  assert (dwp (let! secs := unix_secs_or_panic in
    insert_row (λ e, "Failed to create chat: " +:+ e) (insert_chat chat secs) : Act Z) (mkObs d log) (λ res' o', match res' with
      | Ok j => events (o_db o') = events d ∧ j = mt_chat_seq (msgs d) + 1 | Err _ => True end)) as Hins.
  { dstep. apply dwp_quiet_any; [unfold unix_secs_or_panic; quiet_tac|]. intros [secs|e]; [|done].
    dstep; [done|]. by eapply insert_chat_fresh. }
  dstep. destruct Hr as [-> | ->]; (eapply dwp_mono; [exact Hins|]); intros [j|e] o' Hj; try done;
    unfold cache_chat; by repeat dstep.
Qed.

(** C27. A deleted chat stays gone. Whatever fails, a deletion that reports success has removed the
    rows of the chat and no others, and when a message arrives afterwards the chat is created
    under an id none of the stored rows has, so nothing of before is shown in it. *)
Theorem deleted_chat_stays_gone chat i o :
  chat_ids (o_db o) !! chat = Some i →
  (∀ r, r ∈ events (o_db o) → er_chat_id r ≤ mt_chat_seq (msgs (o_db o))) →
  dwp (let! deleted := attempt (delete_chat chat) in
       let! created := attempt (get_or_create_chat_id chat) in
       World.mret (deleted, created)) o (λ res o', match res with
    | Ok (Ok _, Ok j) => events (o_db o') = without i (events (o_db o)) ∧ ∀ r, r ∈ events (o_db o') → er_chat_id r ≠ j
    | _ => True
    end).
Proof.
  intros Hi Hseq. do 2 dstep. eapply dwp_mono; [by apply delete_chat_dwp|].
  intros [u|e] o1 Hgone; cbn beta iota in *; dstep; dstep.
  2:{ apply (dwp_mono _ _ (λ _ _, True)); [by intros w _|]. intros [j|e'] o' _; by dstep. }
  destruct Hgone as (He & Hc & Hcache & Hs). eapply dwp_mono; [by apply new_chat_dwp|].
  intros [j|e] o' Hj; dstep; [|done]. destruct Hj as [He' ->]. rewrite He', He. split; [done|].
  intros r [_ Hr]%list_elem_of_filter. specialize (Hseq r Hr). lia.
Qed.
End deleting.

(** ** Witnesses *)

#[local] Instance plain_keys : NostrKeys := {
  keys_generate bits := bits; keys_parse s := Some (len s);
  key_npub k := Ok (pretty k); key_nsec k := Ok (pretty k);
  pk_parse s := Some s; pk_from_hex s := Some s;
}.
#[local] Instance plain_at_rest : AtRest := { internal_encrypt _ s := s; internal_decrypt s := Some s }.

(** Bob's message, his edit of it ten seconds later, and Alice's reply. *)
Definition toy_message : StoredEventRow :=
  mkEventRow "m1" PRIVATE_DIRECT_MESSAGE 1 None "hello" (tags_text []) None 1000 1000500 false false false
    (Some "w1") (Some "bob") None.
Definition toy_edit_row : StoredEventRow :=
  mkEventRow "e1" MESSAGE_EDIT 1 None "hello there" (tags_text [["e"; "m1"]]) (Some "m1") 1010 1010500 false false false
    None (Some "bob") None.
Definition toy_reply : StoredEventRow :=
  mkEventRow "m2" PRIVATE_DIRECT_MESSAGE 1 None "hi" (tags_text [["e"; "m1"; ""; "reply"]]) None 1020 1020500 true false
    false (Some "w2") (Some "alice") None.
Definition toy_chatting (rows : list StoredEventRow) : Db :=
  set_event_rows (λ _, rows) (assign_chat_id "g" (set_chat_rows <["g" := mkChatRow 1 "[]" "" 0 "{}" "mentions"]> toy_squad)).

Lemma toy_unique : ids_unique (toy_chatting [toy_message; toy_edit_row; toy_reply]).
Proof. apply (bool_decide_unpack _). vm_compute. exact I. Qed.
Lemma toy_times : times_ok (toy_chatting [toy_message; toy_edit_row; toy_reply]).
Proof. apply (bool_decide_unpack _). vm_compute. exact I. Qed.

Lemma replies_quote_views_witness :
  let o := toy_obs (toy_chatting [toy_message; toy_edit_row; toy_reply]) in
  lwp (get_message_views 1 10 0 None) o (λ vs o', o' = o ∧
    ∀ v w, v ∈ vs → w ∈ vs → m_replied_to v = m_id w → m_id w ≠ "" → m_rumor_kind w = None →
      m_replied_to_content v = Some (m_content w)) ∧
  match run (get_message_views 1 10 0 None) o with
  | (Ok [v; w], _) => (m_replied_to_content v, m_content w) = (Some "hello there", "hello there")
  | _ => False
  end.
Proof.
  intros o. split; [|vm_compute; reflexivity].
  apply (replies_quote_views 1 10 0 None o); [by eexists|apply toy_unique|apply toy_times|].
  repeat (apply Forall_cons_2; [try done; by intros _; split; [|eexists]|]). apply Forall_nil_2.
Defined.

Lemma store_append_only_witness :
  let o := toy_obs (toy_chatting [toy_message]) in
  let ops := [SetWrapper "m1" "w9"; SavePreview "m1" (mkSite "d" None None None None None None None None None None);
              Save "g" []; RepairReactions; ReadPage "g" 10 0] in
  dwp (store_ops ops) o (λ _ o', ids_unique (o_db o') ∧ ∃ l1 l2, events (o_db o') = l1 ++ l2 ∧
    Forall2 (λ r r', row_follows r r' ∧ row_time r' = row_time r) (events (o_db o)) l1).
Proof.
  intros o ops. apply (store_append_only ops o). apply (bool_decide_unpack _). vm_compute. exact I.
Defined.

Definition toy_new_edit : StoredEvent :=
  mkStoredEvent "e1" MESSAGE_EDIT 1 None "hello there" [["e"; "m1"]] (Some "m1") 1010 1010500 false false false
    None (Some "bob") None.

Lemma edit_checks_agree_witness :
  let o := toy_obs (toy_chatting [toy_message]) in
  lwp (let! before := edit_is_authorized_before_save toy_new_edit in
       save_event toy_new_edit ;!
       let! after := saved_edit_is_authorized (se_id toy_new_edit) in
       World.mret (before, after)) o (λ checks _, checks.1 = checks.2) ∧
  fst (run (edit_is_authorized_before_save toy_new_edit) o) = Ok true.
Proof.
  intros o. split; [|vm_compute; reflexivity].
  apply (edit_checks_agree toy_new_edit o); [by eexists| | |done..|].
  - apply (bool_decide_unpack _). vm_compute. exact I.
  - apply (bool_decide_unpack _). vm_compute. exact I.
  - by intros content.
Defined.

(** Bob's message as it is shown live. *)
Definition toy_live : Message := view_message [] [] [] (decrypt_event (parse_event_row toy_message)).
Definition toy_live_chat : Chat := set_messages [toy_live] (Chat_new "g" MlsGroup ["alice"; "bob"] 0).
Definition toy_open : Db := set_chats (λ _, [toy_live_chat]) (toy_chatting [toy_message]).

Lemma live_edits_match_views_witness :
  let o := toy_obs toy_open in
  lwp (receive_message_edit "g" toy_new_edit ;! get_message_views 1 10 0 None) o (λ vs o',
    ∃ c' m', in_step (o_db o') "g" c' m' toy_message ∧
      ∀ v, v ∈ vs → m_id v = er_id toy_message → shown_edits v = shown_edits m') ∧
  m_content <$> (c ← get_chat (st_chats (o_db (run (receive_message_edit "g" toy_new_edit) o).2)) "g";
                 get_message c "m1") = Some "hello there".
Proof.
  intros o. split; [|vm_compute; reflexivity].
  apply (live_edits_match_views "g" toy_new_edit 10 0 None toy_live_chat toy_live toy_message o);
    [done|by eexists|apply (bool_decide_unpack _); vm_compute; exact I|apply (bool_decide_unpack _); vm_compute; exact I
    | | |done..|by intros content].
  - apply Forall_singleton. done.
  - split; [|vm_compute; reflexivity]. split; [vm_compute; reflexivity..| |vm_compute; reflexivity|done|vm_compute; reflexivity].
    eexists. split; [vm_compute; reflexivity|done].
Defined.

Lemma deleted_chat_stays_gone_witness :
  let o := toy_obs (toy_chatting [toy_message]) in
  dwp (let! deleted := attempt (delete_chat "g") in
       let! created := attempt (get_or_create_chat_id "g") in
       World.mret (deleted, created)) o (λ res o', match res with
    | Ok (Ok _, Ok j) => events (o_db o') = without 1 (events (o_db o)) ∧ ∀ r, r ∈ events (o_db o') → er_chat_id r ≠ j
    | _ => True
    end) ∧
  fst (run (delete_chat "g" ;! get_or_create_chat_id "g") o) = Ok 2.
Proof.
  intros o. split; [|vm_compute; reflexivity]. apply (deleted_chat_stays_gone "g" 1 o); [vm_compute; reflexivity|].
  intros r Hr. apply list_elem_of_singleton in Hr as ->. by vm_compute.
Defined.
