(* ===== verification/RemindersTheorems.v ===== *)
(** * The properties of the event reminders

    A reminder is delivered at most once per event start, over any sequence of
    scans, failures included; a missed one always has its Catch up entry. *)

From S2P Require Import Prelude World Json Chat Notification Schema Records CivilTime CatchUp.
From S2P Require Import SquadEvent Reminders Toy.

(** ** What a statement of the scan does to the tables *)

Lemma set_fires_fires f d : fires (set_fires f d) = f (fires d).
Proof. done. Qed.
Lemma set_fires_events f d : db_events (set_fires f d) = db_events d.
Proof. done. Qed.
Lemma set_fires_catch_up f d : catch_up (set_fires f d) = catch_up d.
Proof. done. Qed.
Lemma set_catch_up_fires f d : fires (set_catch_up f d) = fires d.
Proof. done. Qed.
Lemma set_catch_up_catch_up f d : catch_up (set_catch_up f d) = f (catch_up d).
Proof. done. Qed.

Lemma lookup_update_fires (p : (string * Z) * FireRow → bool) (f : FireRow → FireRow) (m : FireTable) k :
  update_fires p f m !! k = (λ r, if p (k, r) then f r else r) <$> m !! k.
Proof. unfold update_fires. rewrite map_lookup_imap. by destruct (m !! k). Qed.

Definition fired_at (m : FireTable) (k : string * Z) (r : FireRow) : Prop :=
  m !! k = Some r ∧ fi_state r = "fired".

(** From one table to a later one of the same scan: fired rows stay, and a row
    that has become missed has its Catch up entry. *)
Record scan_rel (d d' : Db) : Prop := {
  sr_fired : ∀ k r, fired_at (fires d) k r → fired_at (fires d') k r;
  sr_missed : ∀ k r, fires d' !! k = Some r → fi_state r = "missed" →
    (∃ r0, fires d !! k = Some r0 ∧ fi_state r0 = "missed") ∨
    is_Some (catch_up d' !! event_reminder_source_id k.1 k.2);
  sr_entries : ∀ source, is_Some (catch_up d !! source) → is_Some (catch_up d' !! source);
}.

#[export] Instance scan_rel_refl : Reflexive scan_rel.
Proof. intros d. split; [done| |done]. intros k r Hk Hs. left. by exists r. Qed.

#[export] Instance scan_rel_trans : Transitive scan_rel.
Proof.
  intros d1 d2 d3 [F1 M1 E1] [F2 M2 E2]. split; [auto| |auto].
  intros k r Hk Hs. destruct (M2 k r Hk Hs) as [(r0 & H0 & S0)|?]; [|by right].
  destruct (M1 k r0 H0 S0) as [?|?]; [by left|right; auto].
Qed.

(** A statement on fire rows that neither touches fired rows nor makes a missed one. *)
Lemma rel_update (p : (string * Z) * FireRow → bool) (f : FireRow → FireRow) d :
  (∀ k r, fi_state r = "fired" → p (k, r) = false) →
  (∀ k r, p (k, r) = true → fi_state (f r) = "missed" → fi_state r = "missed") →
  scan_rel d (set_fires (update_fires p f) d).
Proof.
  intros Hf Hm. split; [| |done].
  - intros k r [Hk Hs]. rewrite set_fires_fires. split; [|done].
    rewrite lookup_update_fires, Hk. simpl. by rewrite Hf.
  - intros k r. rewrite set_fires_fires, lookup_update_fires. intros Hk Hs. left.
    destruct (fires d !! k) as [r0|] eqn:H0; simplify_eq/=. exists r0. split; [done|].
    destruct (p (k, r0)) eqn:Hp; eauto.
Qed.

Lemma droppable_not_fired id keep k r : fi_state r = "fired" → droppable id keep (k, r) = false.
Proof.
  intros Hs. unfold droppable. simpl. rewrite (bool_decide_eq_false_2 (fi_state r = _)) by congruence.
  by rewrite andb_false_r.
Qed.

Lemma keeps_move_missed id start : keeps scan_rel (move_missed id start).
Proof.
  unfold move_missed, update_fire_rows. refine (keeps_execute scan_rel _ _ _). intros d. simpl. apply rel_update.
  - intros k r Hs. unfold missed_elsewhere. simpl.
    rewrite (bool_decide_eq_false_2 (fi_state r = _)) by congruence. by rewrite andb_false_r.
  - by intros k r _ Hm.
Qed.

Lemma keeps_drop_scheduled id keep : keeps scan_rel (drop_scheduled id keep).
Proof.
  unfold drop_scheduled, update_fire_rows. refine (keeps_execute scan_rel _ _ _). intros d. simpl.
  apply rel_update; [intros; by apply droppable_not_fired|done].
Qed.

Lemma keeps_drop_orphans : keeps scan_rel drop_orphans.
Proof.
  unfold drop_orphans. refine (keeps_execute scan_rel _ _ _). intros d. simpl. apply rel_update; [|done].
  intros k r Hs. unfold orphaned. simpl. by rewrite (bool_decide_eq_false_2 (fi_state r = _)) by congruence.
Qed.

Lemma rel_upsert id fire start state d :
  (∀ r, fires d !! (id, fire) = Some r → fi_state r ≠ "fired") →
  (state = Missed → is_Some (catch_up d !! event_reminder_source_id id fire)) →
  scan_rel d (set_fires <[(id, fire) := mkFireRow start (FireState_as_db_str state)]> d).
Proof.
  intros Hf Hm. split; [| |done].
  - intros k r [Hk Hs]. rewrite set_fires_fires. split; [|done]. rewrite lookup_insert_ne; [done|].
    intros <-. by destruct (Hf r).
  - intros k r. rewrite set_fires_fires, lookup_insert_Some. intros [[<- <-]|[Hne Hk]] Hs.
    + right. simpl in Hs. apply Hm. by destruct state.
    + left. by exists r.
Qed.

Section insert.
Context `{Rusqlite}.

Lemma rel_insert_if_new source row d n d' :
  insert_if_new source row d = Ok (n, d') → scan_rel d d' ∧ is_Some (catch_up d' !! source).
Proof.
  unfold insert_if_new. destruct (id_taken _ _ _); [done|].
  destruct (catch_up d !! source) as [r|] eqn:Hr; intros [= <- <-]; [by rewrite Hr|].
  rewrite set_catch_up_catch_up, lookup_insert. rewrite decide_True by done. split; [|done].
  split; rewrite ?set_catch_up_fires; [done| |].
  - intros k r Hk Hs. left. by exists r.
  - intros s Hs. rewrite set_catch_up_catch_up. rewrite lookup_insert_is_Some. destruct (decide (source = s)); auto.
Qed.

Lemma keeps_insert_entry kind chat source : keeps scan_rel (insert_entry kind chat source).
Proof.
  unfold insert_entry, generate_id, now_epoch_seconds, random_u64. keeps_tac.
  refine (keeps_insert_row scan_rel _ _ _). intros d n d' Hd. by apply rel_insert_if_new in Hd as [? _].
Qed.

Lemma entry_keeps_fires kind chat source :
  keeps (λ d d', fires d = fires d') (insert_entry kind chat source).
Proof.
  unfold insert_entry, generate_id, now_epoch_seconds, random_u64.
  assert (Transitive (λ d d', fires d = fires d')) by (intros ???; congruence).
  assert (Reflexive (λ d d', fires d = fires d')) by done. keeps_tac.
  refine (keeps_insert_row (λ d d', fires d = fires d') _ _ _). intros d n d'.
  unfold insert_if_new. by repeat case_match; intros [= <- <-].
Qed.

(** The entry is there once the call has succeeded. *)
Lemma insert_entry_there kind chat source o :
  dwp (insert_entry kind chat source) o (λ r o',
    (scan_rel (o_db o) (o_db o') ∧ fires (o_db o) = fires (o_db o')) ∧
    (is_okb r = true → is_Some (catch_up (o_db o') !! source))).
Proof.
  apply dwp_and; [apply dwp_and; [apply keeps_insert_entry|apply entry_keeps_fires]|]. unfold insert_entry. dskip. dskip.
  dstep. dstep; [done|]. dstep. intros _.
  match goal with H : insert_if_new _ _ _ = _ |- _ => by apply rel_insert_if_new in H as [_ ?] end.
Qed.
End insert.

(** ** The scan of one source *)

Section scan.
Context `{Chrono, Rusqlite}.

(** What one source adds to the outcome. *)
Definition fires_now (now_ms : Z) (src : ReminderSource) (d d' : Db) : Prop :=
  ∃ s f, start_at_ms src = Some s ∧ now_ms < wrap64 (s + START_GRACE_MS) ∧
    (∀ f' r, fired_at (fires d) (src_event_id src, f') r → fi_start_at_ms r ≠ s) ∧
    fired_at (fires d') (src_event_id src, f) (mkFireRow s "fired").

Lemma not_fired_for_start id start m :
  existsb (is_fired id start) (map_to_list m) = false →
  ∀ f r, fired_at m (id, f) r → fi_start_at_ms r ≠ start.
Proof.
  intros Hf f r [Hm Hs] Hst. assert (((id, f), r) ∈ map_to_list m) as Hin by (by apply elem_of_map_to_list).
  assert (existsb (is_fired id start) (map_to_list m) = true) as Ht; [|congruence].
  apply existsb_exists. exists ((id, f), r). split; [by apply list_elem_of_In|].
  unfold is_fired. simpl. by rewrite !bool_decide_eq_true_2.
Qed.

Lemma prior_not_fired d id fire :
  (r ← fires d !! (id, fire); FireState_from_db_str (fi_state r)) ≠ Some Fired →
  ∀ r, fires d !! (id, fire) = Some r → fi_state r ≠ "fired".
Proof. intros Hp r Hr Hs. apply Hp. rewrite Hr. simpl. by rewrite Hs. Qed.

(** The branches after the bookkeeping, from a state whose prior row is known. *)
Lemma upsert_spec d0 o id fire start state :
  scan_rel d0 (o_db o) →
  (∀ r, fires (o_db o) !! (id, fire) = Some r → fi_state r ≠ "fired") →
  (state = Missed → is_Some (catch_up (o_db o) !! event_reminder_source_id id fire)) →
  dwp (upsert_fire id fire start state) o (λ r o',
    scan_rel d0 (o_db o') ∧
    (is_okb r = true →
     fires (o_db o') !! (id, fire) = Some (mkFireRow start (FireState_as_db_str state)))).
Proof.
  intros Hrel Hf Hm. unfold upsert_fire. dstep; [by split|]. split.
  - etrans; [exact Hrel|]. by apply rel_upsert.
  - intros _. by rewrite set_fires_fires, lookup_insert_eq.
Qed.

Lemma scan_source_spec now_ms un out src o :
  dwp (scan_source now_ms un out src) o (λ r o',
    scan_rel (o_db o) (o_db o') ∧
    match r with
    | Ok out' => due out' = due out ∨
                 due out' = due out ++ [due_of src] ∧ fires_now now_ms src (o_db o) (o_db o')
    | Err _ => True
    end).
Proof.
  unfold scan_source. set (start := start_at_ms src). apply dwp_bind.
  eapply (dwp_mono _ _ (λ _ o1, scan_rel (o_db o) (o_db o1))).
  { destruct start; [|by dstep]. apply dwp_bind. eapply dwp_mono; [apply keeps_move_missed|].
    intros [n|e] o1 ?; [by dstep|done]. }
  intros [[]|e] o1 H1; [|done]. apply dwp_bind. eapply dwp_mono; [apply keeps_drop_scheduled|].
  intros [n|e] o2 H2; [|by split; [etrans|]].
  assert (scan_rel (o_db o) (o_db o2)) as Hrel by (by etrans). clear H1 H2.
  destruct (desired_fire_at_ms src start) as [fire|]; [|dstep; by split; [|left]].
  destruct start as [st|] eqn:Hstart; [|dstep; by split; [|left]].
  destruct (wrap64 _ <=? now_ms) eqn:Hg; bool_facts; [dstep; by split; [|left]|].
  apply dwp_bind. unfold fire_state. dstep; [done|].
  set (prior := r ← fires (o_db o2) !! (src_event_id src, fire); FireState_from_db_str (fi_state r)).
  destruct (bool_decide (prior = Some Fired)) eqn:Hp1; simpl; [dstep; by split; [|left]|].
  destruct (bool_decide (prior = Some Missed)) eqn:Hp2; simpl; [dstep; by split; [|left]|].
  bool_facts. pose proof (prior_not_fired _ _ _ Hp1) as Hnf.
  destruct (now_ms <? fire); bool_facts.
  { apply dwp_bind. eapply dwp_mono; [by apply (upsert_spec (o_db o))|].
    intros [[]|e] o3 [H3 _]; [dstep; by split; [|left]|by split]. }
  destruct (_ && (fire <? un)).
  - destruct (now_ms <? st).
    + apply dwp_bind. eapply dwp_mono; [apply insert_entry_there|].
      intros [b|e] o3 [[H3 Hf3] Hthere]; [|by split; [etrans|]].
      apply dwp_bind. eapply dwp_mono; [apply (upsert_spec (o_db o) o3)|].
      * by etrans.
      * by rewrite <- Hf3.
      * intros _. by apply Hthere.
      * intros [[]|e] o4 [H4 _]; [dstep; by split; [|left]|by split].
    + apply dwp_bind. eapply dwp_mono; [by apply (upsert_spec (o_db o))|].
      intros [[]|e] o3 [H3 _]; [dstep; by split; [|left]|by split].
  - apply dwp_bind. unfold fired_for_start. dstep; [done|].
    destruct (existsb _ _) eqn:Hex; [dstep; by split; [|left]|].
    apply dwp_bind. eapply dwp_mono; [by apply (upsert_spec (o_db o))|].
    intros [[]|e] o3 [H3 Hrow]; [dstep; split; [done|right; split; [done|]]|by split].
    exists st, fire. split; [done|]. split; [done|]. split.
    + intros f' r Hfr. apply (not_fired_for_start _ _ _ Hex f' r). by apply (sr_fired _ _ Hrel).
    + split; [by apply Hrow|done].
Qed.

(** ** The whole scan *)

Lemma fires_now_mono now_ms src d0 d d' d1 :
  scan_rel d0 d → scan_rel d' d1 → fires_now now_ms src d d' → fires_now now_ms src d0 d1.
Proof.
  intros Hd0 Hd1 (s & f & Hs & Hn & Hno & Hf). exists s, f. split; [done|]. split; [done|]. split.
  - intros f' r Hr. apply (Hno f' r). by apply (sr_fired _ _ Hd0).
  - by apply (sr_fired _ _ Hd1).
Qed.

Definition due_sources (now_ms : Z) (sources : list ReminderSource) (d d' : Db)
    (out : ScanOutcome) : Prop :=
  ∃ ps, ps `sublist_of` sources ∧ due out = due_of <$> ps ∧
    Forall (λ src, fires_now now_ms src d d') ps.

Lemma due_sources_mono now_ms sources d d' d1 out :
  scan_rel d' d1 → due_sources now_ms sources d d' out → due_sources now_ms sources d d1 out.
Proof.
  intros H1 (ps & Hps & Hd & Hall). exists ps. split; [done|]. split; [done|].
  eapply Forall_impl; [exact Hall|]. intros src. by apply fires_now_mono.
Qed.

Lemma scan_loop now_ms un sources o :
  dwp (foldM (scan_source now_ms un) scan_default sources) o (λ r o',
    scan_rel (o_db o) (o_db o') ∧
    match r with
    | Ok out => due_sources now_ms sources (o_db o) (o_db o') out
    | Err _ => True
    end).
Proof.
  set (d0 := o_db o).
  refine (dwp_foldM _ (λ l' out o', ∃ pre, sources = pre ++ l' ∧ scan_rel d0 (o_db o') ∧
    due_sources now_ms pre d0 (o_db o') out) _ _ _ _ _ _ _).
  - intros out o' (pre & -> & Hrel & Hdue). rewrite app_nil_r. by split.
  - intros src l' out o1 (pre & -> & Hrel & ps & Hps & Hdue & Hall).
    eapply dwp_mono; [apply scan_source_spec|]. intros [out'|e] o2 [H2 Hout];
      [|by split; [etrans|]].
    exists (pre ++ [src]). split; [by rewrite <- app_assoc|]. split; [by etrans|].
    assert (Forall (λ src, fires_now now_ms src d0 (o_db o2)) ps) as Hall2.
    { eapply Forall_impl; [exact Hall|]. intros x. by apply fires_now_mono. }
    destruct Hout as [Hsame|[Hadd Hfires]].
    + exists ps. split; [by apply sublist_inserts_r|]. split; [congruence|done].
    + exists (ps ++ [src]). split; [by apply sublist_app|]. split; [rewrite Hadd, Hdue; symmetry; exact (fmap_app due_of ps [src])|].
      apply Forall_app. split; [done|]. constructor; [|done]. by apply (fires_now_mono _ _ _ (o_db o1) (o_db o2)).
  - exists []. split; [done|]. split; [done|]. exists []. split; [done|]. by split.
Qed.

Lemma rel_resolve_where d p t : scan_rel d (set_catch_up (resolve_where p t) d).
Proof.
  split; rewrite ?set_catch_up_fires; [done| |].
  - intros k r Hk Hs. left. by exists r.
  - intros source [r Hr]. rewrite set_catch_up_catch_up. unfold resolve_where.
    rewrite map_lookup_imap, Hr. simpl. by eexists.
Qed.

Lemma keeps_resolve_entry source : keeps scan_rel (resolve_entry source).
Proof.
  unfold resolve_entry, now_epoch_seconds, update_open. keeps_tac.
  refine (keeps_execute scan_rel _ _ _). intros d. apply rel_resolve_where.
Qed.

Lemma keeps_resolve_started now_ms : keeps scan_rel (resolve_started now_ms).
Proof.
  unfold resolve_started. keeps_tac. apply keeps_resolve_entry.
Qed.

(** The outcome of a scan that commits. *)
Record scan_done (now_ms : Z) (npub : string) (d d' : Db) (out : ScanOutcome) : Prop := {
  sd_fired : ∀ k r, fired_at (fires d) k r → now_ms < fi_start_at_ms r + START_GRACE_MS →
    fired_at (fires d') k r;
  sd_due : ∃ ps, ps `sublist_of` sources_of d npub ∧ due out = due_of <$> ps ∧
    Forall (λ src, ∃ s f, start_at_ms src = Some s ∧ now_ms < s + START_GRACE_MS ∧
      (∀ f' r, fired_at (fires d) (src_event_id src, f') r → fi_start_at_ms r ≠ s) ∧
      fired_at (fires d') (src_event_id src, f) (mkFireRow s "fired")) ps;
  sd_missed : ∀ k r, fires d' !! k = Some r → fi_state r = "missed" →
    (∃ r0, fires d !! k = Some r0 ∧ fi_state r0 = "missed") ∨
    is_Some (catch_up d' !! event_reminder_source_id k.1 k.2);
  sd_entries : ∀ source, is_Some (catch_up d !! source) → is_Some (catch_up d' !! source);
}.

Lemma start_ok src s : start_at_ms src = Some s → i64_ok s.
Proof.
  unfold start_at_ms. intros Hs. repeat case_match; simplify_eq/=;
    repeat match goal with
    | H : (_ <$> _) = Some _ |- _ => apply fmap_Some in H as (? & ? & ->)
    | H : (_ ≫= _) = Some _ |- _ => apply bind_Some in H as (? & ? & ?)
    end; apply wrap64_ok.
Qed.

Lemma grace_left now_ms s :
  i64_ok now_ms → i64_ok s → now_ms < wrap64 (s + START_GRACE_MS) → now_ms < s + START_GRACE_MS.
Proof.
  intros Hn Hs Hw. destruct (decide (i64_ok (s + START_GRACE_MS))) as [Hok|Hno].
  - by rewrite wrap64_id in Hw.
  - unfold i64_ok, i64_min, i64_max, START_GRACE_MS in *. lia.
Qed.

Lemma run_scan_spec npub now_ms un o :
  i64_ok now_ms →
  dwp (run_scan npub now_ms un) o (λ r o',
    match r with
    | Ok out => scan_done now_ms npub (o_db o) (o_db o') out
    | Err _ => o_db o' = o_db o
    end).
Proof.
  intros Hnow. unfold run_scan, load_sources. apply dwp_bind. dstep. dstep; [done|]. dstep; [done|].
  apply dwp_tx; [done|]. apply dwp_bind. eapply dwp_mono; [apply scan_loop|].
  intros [out|e] o1 [H1 Hdue]; [|done]. apply dwp_bind.
  eapply dwp_mono; [apply keeps_drop_orphans|]. intros [n|e] o2 H2; [|done].
  apply dwp_bind. eapply dwp_mono; [apply keeps_resolve_started|]. intros [m|e] o3 H3; [|done].
  unfold forget_started. dstep. dstep; [done|]. dstep. split; [|done].
  assert (scan_rel (o_db o1) (o_db o3)) as H13 by (by etrans).
  pose proof (due_sources_mono _ _ _ _ _ _ H13 Hdue) as (ps & Hps & Hd & Hall).
  assert (scan_rel (o_db o) (o_db o3)) as [HF HM HE] by (by etrans).
  split; rewrite ?set_fires_fires.
  - intros k r Hr Hlt. destruct (HF k r Hr) as [Hk Hs]. split; [|done].
    apply map_lookup_filter_Some. by split.
  - exists ps. split; [done|]. split; [done|]. eapply Forall_impl; [exact Hall|].
    intros src (s & f & Hs & Hlt & Hno & [Hk Hst]). pose proof (grace_left _ _ Hnow (start_ok _ _ Hs) Hlt).
    exists s, f. split; [done|]. split; [done|]. split; [done|]. split; [|done].
    apply map_lookup_filter_Some. by split.
  - intros k r [Hk _]%map_lookup_filter_Some Hs. apply (HM k r Hk Hs).
  - exact HE.
Qed.
End scan.

(** ** Histories of scans *)

Section history.
Context `{Chrono, Rusqlite}.

Lemma sources_unique d npub x y :
  x ∈ sources_of d npub → y ∈ sources_of d npub → src_event_id x = src_event_id y → x = y.
Proof.
  unfold sources_of. intros ([k e] & -> & Hk)%list_elem_of_fmap ([k' e'] & -> & Hk')%list_elem_of_fmap.
  simpl. intros ->. apply elem_of_map_to_list in Hk, Hk'. by simplify_eq.
Qed.

Lemma sources_ids d npub : NoDup (src_event_id <$> sources_of d npub).
Proof.
  unfold sources_of. rewrite <- list_fmap_compose.
  change (NoDup ((map_to_list (db_events d)).*1)). apply NoDup_fst_map_to_list.
Qed.

(** The scan hands out a reminder of event [id] for the start [s]. *)
Definition hands_out (d : Db) (npub : string) (out : ScanOutcome) (id : string) (s : Z) : Prop :=
  ∃ src, src ∈ sources_of d npub ∧ src_event_id src = id ∧ start_at_ms src = Some s ∧
    due_of src ∈ due out.

(** A scan at some time, or any other change that leaves the fire rows alone. *)
Inductive Step : Type :=
| Scan (npub : string) (now_ms unlocked_at_ms : Z)
| Other (f : Db → Db).

Definition step (w : World Db Effect) (s : Step) : World Db Effect :=
  match s with
  | Scan npub now_ms un => (run_scan npub now_ms un w).2
  | Other f => set_obs (mkObs (f (o_db (w_obs w))) (o_log (w_obs w))) w
  end.

Fixpoint steps_ok (now_ms : Z) (l : list Step) (end_ms : Z) : Prop :=
  match l with
  | [] => now_ms ≤ end_ms
  | Scan _ t _ :: l' => now_ms ≤ t ∧ i64_ok t ∧ steps_ok t l' end_ms
  | Other f :: l' => (∀ d, fires (f d) = fires d) ∧ steps_ok now_ms l' end_ms
  end.

Definition settled (id : string) (s now_ms : Z) (d : Db) : Prop :=
  (∃ f, fired_at (fires d) (id, f) (mkFireRow s "fired")) ∨ s + START_GRACE_MS ≤ now_ms.

Lemma settled_steps id s l : ∀ now_ms end_ms w,
  steps_ok now_ms l end_ms → settled id s now_ms (o_db (w_obs w)) →
  settled id s end_ms (o_db (w_obs (foldl step w l))).
Proof.
  induction l as [|[npub t un|f] l IH]; intros now_ms end_ms w Hl Hs; simpl in *.
  - destruct Hs as [?|?]; [by left|right; lia].
  - destruct Hl as (Hle & Ht & Hl). apply (IH t end_ms); [done|].
    pose proof (run_scan_spec npub t un (w_obs w) Ht w eq_refl) as Hspec.
    destruct (run_scan npub t un w) as [[out|e] w']; simpl in *;
      [|rewrite Hspec; destruct Hs as [?|?]; [by left|right; lia]].
    destruct Hs as [[f Hf]|?]; [|right; lia].
    destruct (decide (t < s + START_GRACE_MS)); [left|right; lia].
    exists f. by apply (sd_fired _ _ _ _ _ Hspec).
  - destruct Hl as [Hf Hl]. apply (IH now_ms end_ms); [done|]. unfold settled in *. simpl. by rewrite Hf.
Qed.

Lemma hands_out_facts now_ms npub d d' out id s :
  scan_done now_ms npub d d' out → hands_out d npub out id s →
  now_ms < s + START_GRACE_MS ∧
  (∀ f r, fired_at (fires d) (id, f) r → fi_start_at_ms r ≠ s) ∧
  ∃ f, fired_at (fires d') (id, f) (mkFireRow s "fired").
Proof.
  intros [_ (ps & Hps & Hd & Hall) _ _] (src & Hin & <- & Hs & Hdue).
  rewrite Hd in Hdue. apply list_elem_of_fmap in Hdue as (src' & Heq & Hin').
  assert (src' = src) as ->.
  { apply (sources_unique d npub); [by eapply elem_of_sublist|done|]. by inversion Heq. }
  rewrite Forall_forall in Hall. destruct (Hall _ Hin') as (s' & f & Hs' & Hlt & Hno & Hf).
  simplify_eq. split; [done|]. split; [done|]. by exists f.
Qed.

(** C5. No reminder is handed out twice: one scan hands out an event at most once,
    and once a committed scan has handed out an event for a start time, no later
    scan of any sequence hands out that event for that start again, whatever the
    RSVPs, leads and replica changes between them, whichever calls fail, as long
    as the clock does not go back. *)
Theorem reminder_once npub1 npub2 t1 t2 un1 un2 id s l w w1 out1 w2 w3 out2 :
  i64_ok t1 → i64_ok t2 → steps_ok t1 l t2 →
  run_scan npub1 t1 un1 w = (Ok out1, w1) →
  hands_out (o_db (w_obs w)) npub1 out1 id s →
  w2 = foldl step w1 l →
  run_scan npub2 t2 un2 w2 = (Ok out2, w3) →
  NoDup (due_event_id <$> due out1) ∧ ¬ hands_out (o_db (w_obs w2)) npub2 out2 id s.
Proof.
  intros Ht1 Ht2 Hl Hr1 Hd1 -> Hr2.
  pose proof (run_scan_spec npub1 t1 un1 (w_obs w) Ht1 w eq_refl) as H1. rewrite Hr1 in H1.
  set (w2 := foldl step w1 l) in *.
  pose proof (run_scan_spec npub2 t2 un2 (w_obs w2) Ht2 w2 eq_refl) as H2. rewrite Hr2 in H2.
  simpl in H1, H2. destruct (hands_out_facts _ _ _ _ _ _ _ H1 Hd1) as (_ & _ & f & Hf). split.
  - destruct H1 as [_ (ps & Hps & -> & _) _ _].
    rewrite <- list_fmap_compose. change (NoDup (src_event_id <$> ps)).
    eapply sublist_NoDup; [apply (sources_ids (o_db (w_obs w)) npub1)|by apply fmap_sublist].
  - intros Hd2. destruct (hands_out_facts _ _ _ _ _ _ _ H2 Hd2) as (Hlt & Hno & _).
    pose proof (settled_steps id s l t1 t2 w1 Hl (or_introl (ex_intro _ f Hf))) as [[f' Hf']|Hle].
    + by apply (Hno f' _ Hf').
    + lia.
Qed.
End history.

(** ** Missed reminders are in Catch up *)

Section missed.
Context `{Chrono, ChronoLocal, Rusqlite}.

Definition missed_recorded (d : Db) : Prop :=
  ∀ k r, fires d !! k = Some r → fi_state r = "missed" →
    is_Some (catch_up d !! event_reminder_source_id k.1 k.2).

Definition missed_kept (d d' : Db) : Prop := missed_recorded d → missed_recorded d'.

#[export] Instance missed_kept_refl : Reflexive missed_kept.
Proof. intros d Hd. exact Hd. Qed.
#[export] Instance missed_kept_trans : Transitive missed_kept.
Proof. intros d1 d2 d3 H12 H23 H'. auto. Qed.

Lemma rel_missed d d' : scan_rel d d' → missed_kept d d'.
Proof.
  intros [_ HM HE] Hd k r Hk Hs. destruct (HM k r Hk Hs) as [(r0 & Hr0 & S0)|?]; [|done].
  apply HE. by eapply Hd.
Qed.

Lemma keeps_rel {A} (m : Act A) : keeps scan_rel m → keeps missed_kept m.
Proof. intros Hm o. eapply dwp_mono; [apply Hm|]. intros r o'. apply rel_missed. Qed.

Lemma keeps_run_scan npub t un : i64_ok t → keeps missed_kept (run_scan npub t un).
Proof.
  intros Ht o. eapply dwp_mono; [by apply run_scan_spec|]. intros [out|e] o' Hs; [|rewrite Hs; reflexivity].
  intros Hd k r Hk Hst. destruct (sd_missed _ _ _ _ _ Hs k r Hk Hst) as [(r0 & H2 & S0)|?]; [|done].
  apply (sd_entries _ _ _ _ _ Hs). by eapply Hd.
Qed.

Lemma keeps_update_open err p t : keeps missed_kept (update_open err p t).
Proof.
  apply keeps_rel. unfold update_open. refine (keeps_execute scan_rel _ _ _). intros d.
  apply rel_resolve_where.
Qed.

Lemma keeps_deliver ds stored : keeps missed_kept (deliver ds stored).
Proof.
  unfold deliver, deliver_one, emit_event_reminder, window_focused. destruct ds; [apply keeps_ret, _|].
  keeps_tac. refine (keeps_modify missed_kept _ _). done.
Qed.

Lemma keeps_scan_and_deliver un : keeps missed_kept (scan_and_deliver un).
Proof.
  assert (∀ npub, keeps missed_kept (scan_connected npub un)) as Hconn.
  { intros npub o. unfold scan_connected. apply dwp_bind. unfold reminder_now_ms.
    apply dwp_bind, dwp_now. intros t. dstep.
    assert (i64_ok (if t <? 0 then 0 else wrap64 t)) as Ht by (case_match; [done|apply wrap64_ok]).
    revert Ht. generalize (if t <? 0 then 0 else wrap64 t). intros t' Ht. revert o.
    unfold notify_resolved, emit_catch_up_changed.
    change (keeps missed_kept (let! scanned := attempt
      (let! outcome := run_scan npub t' un in
       let! stored := stored_levels (due outcome) in mret (outcome, stored)) in
      match scanned with
      | Err _ => mret tt
      | Ok (outcome, stored) =>
          (if (0 <? missed outcome + resolved outcome)%nat then output (Emit CATCH_UP_CHANGED_EVENT JNull)
           else mret tt) ;!
          let! _ := deliver (due outcome) stored in mret tt
      end)).
    pose proof (keeps_run_scan npub t' un Ht). pose proof keeps_deliver.
    unfold stored_levels, stored_notification_level. keeps_tac; auto. }
  unfold scan_and_deliver, get_current_account, get_db_connection, get_current_account. keeps_tac; auto.
Qed.

(** Every missed reminder is in Catch up: the operations of the reminders (a
    scan with its delivery, both commands that write) keep it true that a [missed]
    row has an entry under its event and fire time, whichever calls fail. A
    scan writes the row and the entry in one transaction. *)
Theorem missed_has_entry o un event_id lead mute unlocked :
  missed_recorded (o_db o) →
  dwp (scan_and_deliver un) o (λ _ o', missed_recorded (o_db o')) ∧
  dwp (set_squad_event_reminder_prefs unlocked event_id lead mute) o
    (λ _ o', missed_recorded (o_db o')) ∧
  dwp (resolve_squad_event_reminder_catch_up event_id) o (λ _ o', missed_recorded (o_db o')).
Proof.
  intros Hd.
  assert (∀ {A} (m : Act A), keeps missed_kept m → dwp m o (λ _ o', missed_recorded (o_db o'))) as Hk.
  { intros A m Hm. eapply dwp_mono; [apply Hm|]. intros r o' Ho. by apply Ho. }
  pose proof keeps_scan_and_deliver. pose proof keeps_update_open.
  split; [by apply Hk|]. split; apply Hk.
  - unfold set_squad_event_reminder_prefs, with_conn, get_db_connection, get_current_account,
      save_prefs, resolve_event_reminder_entries, now_epoch_seconds, notify_resolved,
      emit_catch_up_changed. keeps_tac; auto. intros Hm. exact Hm.
  - unfold resolve_squad_event_reminder_catch_up, with_conn, get_db_connection, get_current_account,
      resolve_event_reminder_entries, now_epoch_seconds, notify_resolved, emit_catch_up_changed.
    keeps_tac; auto.
Qed.
End missed.

(** ** The example squad, with an accepted invitation *)

#[export] Instance toy_local : ChronoLocal := { local_format _ _ := Some "01:00" }.

Definition toy_invited : Db :=
  set_rsvps <[("e", "alice") := mkRsvpRow "accepted" 0 "r"]> toy_stored.
(** Ten minutes before the start of the event. *)
Definition toy_now : Z := 3000000.
Definition toy_scan (faults : list (option string)) : World Db Effect :=
  (scan_and_deliver 0 (mkWorld (toy_obs toy_invited) faults [toy_now; 0])).2.

(** A committed scan marks a reminder as fired before it is shown, and nothing
    shows it later: when the read of the stored notification level that follows
    the commit fails, the reminder of the example is lost, no banner and no Catch
    up entry, though its row says [fired]; without that failure it is shown. *)
Theorem reminder_lost :
  let lost := w_obs (toy_scan (replicate 17 None ++ [Some "disk I/O error"])) in
  let shown := w_obs (toy_scan []) in
  o_log lost = [] ∧ catch_up (o_db lost) = ∅ ∧
  fires (o_db lost) !! ("e", 2700000) = Some (mkFireRow 3600000 "fired") ∧
  o_log shown = [ShowBanner "Event reminder" "Assembly — starts 01:00"] ∧
  fires (o_db shown) = fires (o_db lost).
Proof. split_and!; vm_compute; reflexivity. Qed.

Definition toy_first : result ScanOutcome * World Db Effect :=
  run_scan "alice" toy_now 0 (mkWorld (toy_obs toy_invited) [] []).
(** A minute later, with the lead changed to five minutes in between. *)
Definition toy_between : list Step := [Other (set_device (put_prefs <["e" := mkPrefsRow 5 0]>))].
Definition toy_second : result ScanOutcome * World Db Effect :=
  run_scan "alice" (toy_now + 60000) 0 (foldl step toy_first.2 toy_between).
Definition toy_outcome (r : result ScanOutcome) : ScanOutcome :=
  match r with Ok o => o | Err _ => scan_default end.

Lemma reminder_once_witness :
  due_event_id <$> due (toy_outcome toy_first.1) = ["e"] ∧
  ¬ hands_out (o_db (w_obs (foldl step toy_first.2 toy_between))) "alice"
      (toy_outcome toy_second.1) "e" 3600000.
Proof.
  split; [vm_compute; reflexivity|].
  refine (proj2 (reminder_once "alice" "alice" toy_now (toy_now + 60000) 0 0 "e" 3600000 toy_between
    (mkWorld (toy_obs toy_invited) [] []) toy_first.2 (toy_outcome toy_first.1)
    (foldl step toy_first.2 toy_between) toy_second.2 (toy_outcome toy_second.1) _ _ _ _ _ _ _)).
  - split; vm_compute; discriminate.
  - split; vm_compute; discriminate.
  - split; [by intros d|vm_compute; discriminate].
  - change (toy_first = (Ok (toy_outcome toy_first.1), toy_first.2)).
    assert (toy_first.1 = Ok (toy_outcome toy_first.1)) as Ho by (vm_compute; reflexivity).
    rewrite <- Ho. by destruct toy_first.
  - exists (source_of toy_invited "alice" "e" toy_row).
    split; [vm_compute; apply list_elem_of_here|]. split; [vm_compute; reflexivity|].
    split; [vm_compute; reflexivity|]. vm_compute. apply list_elem_of_here.
  - reflexivity.
  - change (toy_second = (Ok (toy_outcome toy_second.1), toy_second.2)).
    assert (toy_second.1 = Ok (toy_outcome toy_second.1)) as Ho by (vm_compute; reflexivity).
    rewrite <- Ho. by destruct toy_second.
Defined.

Lemma missed_has_entry_witness :
  missed_recorded toy_invited ∧
  dwp (scan_and_deliver 0) (toy_obs toy_invited) (λ _ o', missed_recorded (o_db o')).
Proof.
  assert (missed_recorded toy_invited) as Hd by (intros k r Hk; change ((∅ : FireTable) !! k = Some r) in Hk; by apply lookup_empty_Some in Hk).
  split; [exact Hd|]. exact (proj1 (missed_has_entry (toy_obs toy_invited) 0 "e" 15 false None Hd)).
Defined.
