(* ===== verification/CatchUpTheorems.v ===== *)
(** * The properties of Catch up

    No entry is lost or reopened by anything but an explicit deletion or the
    action-needed command, over histories that mix messages, welcomes, read marks,
    the Catch up commands and the reminder scans; a welcome is announced once. *)

From S2P Require Import Prelude World Json Chat Notification Schema Records CivilTime CatchUp.
From S2P Require Import ReadState SquadCatalog CatchUpCommands SquadEvent Reminders Toy.

(** Same entry, perhaps resolved since; a resolved one is untouched. *)
Definition entry_follows (r r' : CatchUpRow) : Prop :=
  r' = r ∨ cu_resolved_at r = None ∧ ∃ t, r' = resolved_row t r.

Definition entries_kept (d d' : Db) : Prop :=
  ∀ source r, catch_up d !! source = Some r →
    ∃ r', catch_up d' !! source = Some r' ∧ entry_follows r r'.

#[export] Instance entries_kept_refl : Reflexive entries_kept.
Proof. intros d source r Hr. exists r. split; [done|by left]. Qed.

#[export] Instance entries_kept_trans : Transitive entries_kept.
Proof.
  intros d1 d2 d3 H12 H23 source r Hr. destruct (H12 source r Hr) as (r2 & H2 & F2).
  destruct (H23 source r2 H2) as (r3 & H3 & F3). exists r3. split; [done|].
  destruct F2 as [->|(Hn & t & ->)]; [done|]. right. split; [done|].
  destruct F3 as [->|(Hc & t' & ->)]; [by exists t|done].
Qed.

(** A statement on other tables. *)
Lemma kept_same d d' : catch_up d' = catch_up d → entries_kept d d'.
Proof. intros Hd source r Hr. rewrite Hd. exists r. split; [done|by left]. Qed.

Section kept.
Context `{Rusqlite}.

Lemma kept_insert source row d n d' : insert_if_new source row d = Ok (n, d') → entries_kept d d'.
Proof.
  unfold insert_if_new. destruct (id_taken _ _ _); [done|].
  destruct (catch_up d !! source) eqn:Hs; intros [= <- <-]; [done|].
  intros k r Hk. exists r. split; [|by left].
  change (<[source := row]> (catch_up d) !! k = Some r). rewrite lookup_insert_ne; [done|congruence].
Qed.

Lemma kept_resolve p t d : entries_kept d (set_catch_up (resolve_where p t) d).
Proof.
  intros source r Hr. change (catch_up (set_catch_up (resolve_where p t) d))
    with (resolve_where p t (catch_up d)). unfold resolve_where. rewrite map_lookup_imap, Hr. simpl.
  eexists. split; [done|]. unfold hit, is_open. case_match; [|by left]. bool_facts. right. eauto.
Qed.

Lemma keeps_insert_entry_kept kind chat source : keeps entries_kept (insert_entry kind chat source).
Proof.
  unfold insert_entry, generate_id, now_epoch_seconds, random_u64. keeps_tac.
  refine (keeps_insert_row entries_kept _ _ _). intros d n d'. apply kept_insert.
Qed.

Lemma keeps_update_open_kept err p t : keeps entries_kept (update_open err p t).
Proof.
  unfold update_open. refine (keeps_execute entries_kept _ _ _). intros d. apply kept_resolve.
Qed.

Lemma keeps_resolve_entry_kept source : keeps entries_kept (resolve_entry source).
Proof.
  pose proof keeps_update_open_kept. unfold resolve_entry, now_epoch_seconds. keeps_tac; auto.
Qed.
End kept.

(** ** Every operation keeps the entries *)

Section operations.
Context `{SerdeText, SerdeErrors, Rusqlite, Chrono, ChronoLocal}.

(** What may touch an entry, deletions and the action-needed command apart. *)
Inductive CatchOp : Type :=
| ORecord (kind : EventKind) (is_own mention_hit : bool) (chat_id source : string)
| OWelcome (chat_id wrapper : string)
| OWelcomeDone (wrapper : string)
| OMarkRead (chat_id : string) (message_id : option string)
| OSetLevel (chat_id : string) (level : NotificationLevel)
| OResolve (source : string)
| OResolveAll (kind squad_id : option string)
| OScan (unlocked_at_ms : Z)
| OSetPrefs (unlocked_at_ms : option Z) (event_id : string) (lead : Z) (mute : bool)
| OResolveReminder (event_id : string).

Definition perform (op : CatchOp) : Act unit :=
  match op with
  | ORecord kind is_own mention_hit chat_id source =>
      record_admitted_event_for_handle kind is_own mention_hit chat_id source
  | OWelcome chat_id wrapper => let! _ := record_welcome_for_handle chat_id wrapper in mret tt
  | OWelcomeDone wrapper => resolve_welcome_for_handle wrapper
  | OMarkRead chat_id message_id => let! _ := mark_as_read chat_id message_id in mret tt
  | OSetLevel chat_id level => let! _ := set_notification_level chat_id level in mret tt
  | OResolve source => let! _ := resolve_catch_up_entry source in mret tt
  | OResolveAll kind squad_id => let! _ := resolve_all_catch_up_entries kind squad_id in mret tt
  | OScan un => scan_and_deliver un
  | OSetPrefs un event_id lead mute => set_squad_event_reminder_prefs un event_id lead mute
  | OResolveReminder event_id => resolve_squad_event_reminder_catch_up event_id
  end.

(** Operations one after the other, whether each succeeds or not. *)
Definition perform_all (l : list CatchOp) : Act unit :=
  foldM (λ _ op, let! _ := attempt (perform op) in mret tt) tt l.

Lemma keeps_exec_same err (f : Db → Db) :
  (∀ d, catch_up (f d) = catch_up d) → keeps entries_kept (exec_ err f : Act unit).
Proof. intros Hf. refine (keeps_exec_ entries_kept _ _ _). intros d. by apply kept_same. Qed.

Lemma keeps_modify_same {A} (f : Db → A * Db) :
  (∀ d, catch_up (f d).2 = catch_up d) → keeps entries_kept (modify f : Act A).
Proof. intros Hf. refine (keeps_modify entries_kept _ _). intros d. by apply kept_same. Qed.

Lemma keeps_execute_same {A} err (f : Db → A * Db) :
  (∀ d, catch_up (f d).2 = catch_up d) → keeps entries_kept (execute err f : Act A).
Proof. intros Hf. refine (keeps_execute entries_kept _ _ _). intros d. by apply kept_same. Qed.

Lemma quiet_conn : quiet get_db_connection.
Proof. unfold get_db_connection, get_current_account. quiet_tac. Qed.

Lemma keeps_conn : keeps entries_kept get_db_connection.
Proof. apply quiet_keeps; [apply _|apply quiet_conn]. Qed.

Lemma keeps_counter : keeps entries_kept update_unread_counter.
Proof.
  unfold update_unread_counter. keeps_tac; by apply keeps_modify_same.
Qed.

Lemma keeps_save_chat chat : keeps entries_kept (save_chat chat).
Proof.
  unfold save_chat. apply keeps_bind; [apply _|apply keeps_conn|intros ?]. by apply keeps_exec_same.
Qed.

Lemma keeps_mark chat_id message_id : keeps entries_kept (mark_as_read chat_id message_id).
Proof.
  pose proof keeps_conn. pose proof keeps_save_chat. pose proof keeps_counter.
  pose proof keeps_update_open_kept.
  unfold mark_as_read, resolve_chat_message_entries_for_handle, resolve_chat_message_entries,
    now_epoch_seconds. keeps_tac; auto; apply keeps_modify_same; [|done].
  intros d. unfold apply_read. destruct (get_chat _ _); [|done]. destruct message_id; [done|].
  by destruct (set_as_read _).
Qed.

Lemma keeps_level chat_id level : keeps entries_kept (set_notification_level chat_id level).
Proof.
  pose proof keeps_save_chat. pose proof keeps_counter.
  unfold set_notification_level. keeps_tac; auto; apply keeps_modify_same.
  intros d. by destruct (get_chat _ _).
Qed.
Lemma keeps_filtered kind squad_id : keeps entries_kept (with_conn (filtered_entries kind squad_id)).
Proof.
  pose proof keeps_conn.
  unfold with_conn, filtered_entries, resolve_squad_chat_ids, list_unresolved_entries, get_squad_inner.
  keeps_tac; auto.
Qed.

Lemma keeps_commands source kind squad_id :
  keeps entries_kept (resolve_catch_up_entry source) ∧
  keeps entries_kept (resolve_all_catch_up_entries kind squad_id).
Proof.
  pose proof keeps_conn. pose proof keeps_mark. pose proof keeps_resolve_entry_kept.
  pose proof keeps_filtered. split.
  - unfold resolve_catch_up_entry, with_conn, get_entry. keeps_tac; auto.
  - unfold resolve_all_catch_up_entries. keeps_tac; auto.
Qed.

Lemma keeps_recording kind is_own mention_hit chat_id source :
  keeps entries_kept (record_admitted_event_for_handle kind is_own mention_hit chat_id source) ∧
  keeps entries_kept (record_welcome_for_handle chat_id source) ∧
  keeps entries_kept (resolve_welcome_for_handle source).
Proof.
  pose proof keeps_conn. pose proof keeps_insert_entry_kept. pose proof keeps_resolve_entry_kept.
  unfold record_admitted_event_for_handle, record_admitted_event, record_welcome_for_handle,
    record_welcome, resolve_welcome_for_handle.
  split_and!; keeps_tac; auto.
Qed.

Lemma keeps_scan npub t un : keeps entries_kept (run_scan npub t un).
Proof.
  pose proof keeps_insert_entry_kept. pose proof keeps_resolve_entry_kept.
  unfold run_scan, load_sources, scan_source, move_missed, drop_scheduled, update_fire_rows,
    fire_state, upsert_fire, record_missed_event_reminder, fired_for_start, drop_orphans,
    resolve_started, forget_started.
  keeps_tac; auto; try (by apply keeps_execute_same); by apply kept_same.
Qed.

Lemma keeps_delivery un : keeps entries_kept (scan_and_deliver un).
Proof.
  pose proof keeps_conn. pose proof keeps_scan.
  unfold scan_and_deliver, get_current_account, scan_connected, reminder_now_ms, stored_levels,
    stored_notification_level, emit_catch_up_changed, deliver, deliver_one, emit_event_reminder,
    window_focused.
  keeps_tac; auto; by apply keeps_modify_same.
Qed.

Lemma keeps_perform op : keeps entries_kept (perform op).
Proof.
  destruct op; cbn [perform].
  - apply keeps_recording.
  - apply keeps_bind; [apply _|apply (keeps_recording GroupMessage false false)|intros ?]. apply keeps_ret, _.
  - apply (keeps_recording GroupMessage false false "").
  - apply keeps_bind; [apply _|apply keeps_mark|intros ?]. apply keeps_ret, _.
  - apply keeps_bind; [apply _|apply keeps_level|intros ?]. apply keeps_ret, _.
  - apply keeps_bind; [apply _|apply (keeps_commands source None None)|intros ?]. apply keeps_ret, _.
  - apply keeps_bind; [apply _|apply (keeps_commands "")|intros ?]. apply keeps_ret, _.
  - apply keeps_delivery.
  - pose proof keeps_conn. pose proof keeps_delivery. pose proof keeps_update_open_kept.
    unfold set_squad_event_reminder_prefs, with_conn, save_prefs, resolve_event_reminder_entries,
      now_epoch_seconds, notify_resolved, emit_catch_up_changed.
    keeps_tac; auto. by apply kept_same.
  - pose proof keeps_conn. pose proof keeps_update_open_kept.
    unfold resolve_squad_event_reminder_catch_up, with_conn, resolve_event_reminder_entries,
      now_epoch_seconds, notify_resolved, emit_catch_up_changed.
    keeps_tac; auto.
Qed.

Lemma keeps_perform_all l : keeps entries_kept (perform_all l).
Proof.
  unfold perform_all. pose proof keeps_perform. keeps_tac; auto.
Qed.

(** C28. Over any history of arriving events and welcomes, read marks, level
    changes, the clearing commands, reminder scans and reminder commands, whichever
    calls fail: no Catch up entry disappears, its id, kind, chat and creation time
    never change, and once it is resolved it stays resolved at the same time. Only
    [record_action_needed_entry] reopens, and only the entry of its own source. *)
Theorem entries_never_reopen :
  (∀ l o, dwp (perform_all l) o (λ _ o', ∀ source r, catch_up (o_db o) !! source = Some r →
     ∃ r', catch_up (o_db o') !! source = Some r' ∧
       (r' = r ∨ cu_resolved_at r = None ∧ ∃ t, r' = resolved_row t r))) ∧
  (∀ chat_id source o, dwp (record_action_needed_entry chat_id source) o (λ _ o',
     ∀ k r, k ≠ source → catch_up (o_db o) !! k = Some r → catch_up (o_db o') !! k = Some r)).
Proof.
  split.
  - intros l o. eapply dwp_mono; [apply keeps_perform_all|]. intros r o' Hk. exact Hk.
  - intros chat_id source o. unfold record_action_needed_entry, with_conn. apply dwp_bind.
    apply (dwp_quiet_any _ _ _ quiet_conn). intros [[]|e]; [|done].
    unfold record_or_reopen_action_needed, generate_id, now_epoch_seconds, random_u64. do 2 dskip.
    apply dwp_insert_row; [done|]. intros u d Hd k r Hk Hr. simpl. unfold reopen_or_insert in Hd.
    destruct (id_taken _ _ _); [done|].
    destruct (catch_up (o_db o) !! source) as [r0|]; injection Hd as <- <-.
    + change (<[source := mkCatchUpRow (cu_id r0) (cu_kind r0) (cu_chat_id r0) (cu_created_at r0) None]>
        (catch_up (o_db o)) !! k = Some r). by rewrite lookup_insert_ne.
    + match goal with |- context [set_catch_up (insert _ ?row)] =>
        change (<[source := row]> (catch_up (o_db o)) !! k = Some r) end. by rewrite lookup_insert_ne.
Qed.

Lemma seconds_read (f : list (option string)) (o : World.Obs Db Effect) c :
  ∃ t c', now_epoch_seconds (mkWorld o f c) = (Ok t, mkWorld o f c').
Proof. destruct c as [|? ?]; unfold now_epoch_seconds, now, mbind, mret; simpl; eauto. Qed.

Lemma generate_id_reads kind (f : list (option string)) (o : World.Obs Db Effect) c :
  ∃ gid c', generate_id kind (mkWorld o f c) = (Ok gid, mkWorld o f c').
Proof.
  unfold generate_id, mbind at 1. destruct (seconds_read f o c) as (t & c1 & ->).
  unfold random_u64, now, mbind, mret. destruct c1; eauto.
Qed.

#[local] Opaque generate_id now_epoch_seconds.

(** With an account and no failing call, the generated id alone decides. *)
Lemma welcome_seen chat_id wrapper w :
  w_faults w = [] → is_Some (st_account (o_db (w_obs w))) →
  is_Some (catch_up (o_db (w_obs w)) !! wrapper) →
  (record_welcome_for_handle chat_id wrapper w).1 = Ok false ∨
  ∃ gid, (generate_id KWelcome w).1 = Ok gid ∧
    id_taken gid wrapper (catch_up (o_db (w_obs w))) = true.
Proof.
  destruct w as [[d log] f c]. simpl. intros -> [npub Hacc] [r Hr].
  unfold record_welcome_for_handle, record_welcome, insert_entry, get_db_connection,
    get_current_account, query_row, query, call, attempt, insert_row, call, of_result, mbind, set_obs.
  simpl. rewrite Hacc. simpl.
  destruct (generate_id_reads KWelcome [] (mkObs d log) c) as (gid & c1 & ->). simpl.
  destruct (seconds_read [] (mkObs d log) c1) as (t & c2 & ->). simpl. unfold insert_if_new. simpl.
  destruct (id_taken gid wrapper (catch_up d)) eqn:Ht; [right; by exists gid|left]. by rewrite Hr.
Qed.

#[local] Transparent generate_id now_epoch_seconds.

(** A welcome is announced once. The first sighting answers [true] and stores
    its row, or fails to write and stores nothing; any history of other operations
    keeps the row; and while it is there a new sighting of the wrapper event
    changes nothing and, unless one of its own calls fails or its random id is
    taken, answers [false], before and after a restart. *)
Theorem welcome_once chat_id wrapper o :
  dwp (record_welcome_for_handle chat_id wrapper) o (λ r o',
    ∃ b, r = Ok b ∧
      (b = false → o' = o ∧ is_Some (catch_up (o_db o) !! wrapper)) ∧
      (b = true → o' = o ∨
         catch_up (o_db o) !! wrapper = None ∧ is_Some (catch_up (o_db o') !! wrapper))) ∧
  (is_Some (catch_up (o_db o) !! wrapper) → ∀ l,
   dwp (perform_all l) o (λ _ o1,
     is_Some (catch_up (o_db o1) !! wrapper) ∧
     ∀ chat_id' w, w_obs w = o1 → w_faults w = [] → is_Some (st_account (o_db o1)) →
       (record_welcome_for_handle chat_id' wrapper w).1 = Ok false ∨
       ∃ gid, (generate_id KWelcome w).1 = Ok gid ∧
         id_taken gid wrapper (catch_up (o_db o1)) = true)).
Proof.
  split.
  - unfold record_welcome_for_handle. apply dwp_bind, dwp_attempt.
    set (Q := λ (r : result bool) o', ∃ b, r = Ok b ∧ _).
    assert (∀ e : string, dwp (mret true : Act bool) o Q) as Hfail.
    { intros e. dstep. exists true. split; [done|]. split; [done|by left]. }
    apply (dwp_quiet_any _ _ _ quiet_conn). intros [[]|e]; [|by apply Hfail].
    apply dwp_bind, dwp_attempt. unfold record_welcome, insert_entry, generate_id, now_epoch_seconds,
      random_u64. do 2 (dskip; [|by apply Hfail]). apply dwp_bind, dwp_insert_row.
    + intros e. by apply Hfail.
    + intros n d Hd. dstep. dstep. exists (0 <? n). split; [done|].
      unfold insert_if_new in Hd. destruct (id_taken _ _ _); [done|].
      destruct (catch_up (o_db o) !! wrapper) as [r|] eqn:Hr; injection Hd as <- <-.
      * split; [|done]. intros _. split; [by destruct o|by exists r].
      * split; [done|]. intros _. right. split; [done|]. eexists. by apply lookup_insert_eq.
  - intros [r Hr] l. eapply dwp_mono; [apply keeps_perform_all|]. intros res o1 Hk.
    destruct (Hk wrapper r Hr) as (r' & Hr' & _). split; [by exists r'|].
    intros chat_id' w Hw Hf Hacc. rewrite <- Hw in *. apply welcome_seen; [done|done|by exists r'].
Qed.
End operations.
