(* ===== verification/ReadStateTheorems.v ===== *)
(** * The properties of the read state

    The unread feed replays to the counts, marking a chat as read clears its
    count, its Catch up entries and its stored row, and what clearing one Catch up
    entry reports. *)

From S2P Require Import Prelude World Json Chat Notification Schema Records CatchUp.
From S2P Require Import ReadState SquadCatalog CatchUpCommands Toy.

(** ** The unread feed *)

(** A listener that overlays each update on what it shows; absent is zero. *)
Definition shown (m : gmap string Z) (chat_id : string) : Z := default 0 (m !! chat_id).

Lemma diff_lookup last current k :
  diff_unread_counts last current !! k =
  match current !! k, last !! k with
  | Some c, l => if decide (l = Some c) then None else Some c
  | None, Some _ => Some 0
  | None, None => None
  end.
Proof.
  unfold diff_unread_counts. rewrite lookup_union, lookup_fmap, !map_lookup_filter.
  destruct (current !! k) as [c|] eqn:Hc, (last !! k) as [l|] eqn:Hl; simpl;
    rewrite ?Hc, ?Hl; simpl; repeat (case_guard || case_decide || simplify_option_eq); try done;
    naive_solver.
Qed.

(** The unread feed is exact: [update_unread_counter] cannot fail, remembers the
    counts it computed, sends at most one update, and a listener that overlays it on
    the counts remembered before shows, for every chat, the new count; the update
    names only chats whose shown count may have changed. Muted chats and chats with
    blocked peers count nothing. *)
Theorem unread_feed_exact o :
  let last := st_last_unread (db_device (o_db o)) in
  let counts := unread_counts_by_chat (st_blocked (db_device (o_db o))) (st_chats (o_db o)) in
  let changed := diff_unread_counts last counts in
  dwp update_unread_counter o (λ r o',
    r = Ok (sum_counts counts) ∧
    o_db o' = set_last_unread_counts counts (o_db o) ∧
    ∃ badge, o_log o' =
      o_log o ++ (if bool_decide (changed = ∅) then []
                  else [Emit "unread_counts_changed" (counts_json changed)]) ++ badge ∧
      badge `sublist_of` [SetBadge (if 0 <? sum_counts counts then Some (sum_counts counts) else None)]) ∧
  (∀ chat_id, shown (changed ∪ last) chat_id = shown counts chat_id) ∧
  (∀ chat_id c, changed !! chat_id = Some c → last !! chat_id ≠ Some c ∨ c = 0).
Proof.
  intros last counts changed. split; [|split].
  - unfold update_unread_counter. do 4 dstep. fold last counts changed.
    set (o1 := mkObs _ (o_log o)).
    apply dwp_bind. eapply (dwp_mono _ _ (λ r o2, r = Ok tt ∧ o_db o2 = o_db o1 ∧
      o_log o2 = o_log o ++ (if bool_decide (changed = ∅) then []
        else [Emit "unread_counts_changed" (counts_json changed)]))).
    { case_bool_decide; dstep; [by rewrite app_nil_r|done]. }
    intros r o2 (-> & Hdb & Hlog). apply dwp_bind, dwp_attempt. dstep.
    + dstep. split; [done|]. split; [by rewrite Hdb|]. exists []. rewrite app_nil_r.
      split; [done|]. apply sublist_nil_l.
    + dstep. split; [done|]. split; [by rewrite Hdb|]. eexists. rewrite Hlog, <- app_assoc. by split.
  - intros k. unfold shown, changed. rewrite lookup_union, diff_lookup.
    destruct (counts !! k), (last !! k); simpl; try case_decide; simplify_eq/=; done.
  - intros k c. unfold changed. rewrite diff_lookup.
    destruct (counts !! k), (last !! k); try case_decide; intros [= <-]; auto.
Qed.

(** ** Marking as read *)

Lemma walk_at_newest l msg :
  find_first (λ m, negb (m_mine m)) l = Some msg → m_id msg ≠ "" → unread_walk (m_id msg) l = 0.
Proof.
  destruct l as [|x l]; simpl; [done|]. intros Hf Hid. destruct (m_mine x); [done|].
  simpl in Hf. simplify_eq. by rewrite (bool_decide_eq_false_2 (_ = "")), bool_decide_eq_true_2.
Qed.

Lemma set_as_read_unread blocked c c' :
  set_as_read c = (true, c') → c_last_read c' ≠ "" → chat_unread blocked c' = 0.
Proof.
  unfold set_as_read. destruct (find_first _ _) as [msg|] eqn:Hf; [|done]. intros [= <-] Hid.
  unfold chat_unread. destruct (negb _); [done|]. destruct (_ && _); [done|]. simpl in *.
  by rewrite (walk_at_newest _ msg).
Qed.

Lemma update_first_same {A} (p : A → bool) l x :
  find_first p l = Some x → update_first p (λ _, x) l = l.
Proof.
  induction l as [|y l IH]; simpl; [done|]. destruct (p y); [by intros [= ->]|].
  intros Hf. by rewrite IH.
Qed.

Lemma get_chat_put chats chat_id chat chat' :
  get_chat chats chat_id = Some chat → c_id chat' = c_id chat →
  get_chat (update_first (λ c, bool_decide (c_id c = chat_id)) (λ _, chat') chats) chat_id = Some chat'.
Proof.
  unfold get_chat. induction chats as [|y l IH]; simpl; [done|].
  destruct (bool_decide (c_id y = chat_id)) eqn:Hy; simpl.
  - intros [= ->] Hid. bool_facts. by rewrite bool_decide_eq_true_2 by congruence.
  - rewrite Hy. auto.
Qed.

Lemma set_as_read_id c : c_id (set_as_read c).2 = c_id c.
Proof. unfold set_as_read. by destruct (find_first _ _). Qed.
Lemma set_as_read_false c : (set_as_read c).1 = false → (set_as_read c).2 = c.
Proof. unfold set_as_read. by destruct (find_first _ _). Qed.

Section mark.
Context `{SerdeText}.

(** The outcome of marking a chat as read in a fault-free execution. *)
Definition marked (chat_id : string) (d : Db) (b : bool) (d' : Db) : Prop :=
  match get_chat (st_chats d) chat_id with
  | Some chat =>
      b = (set_as_read chat).1 ∧
      if b then
        get_chat (st_chats d') chat_id = Some (set_as_read chat).2 ∧
        db_chats d' = upsert_chat_row (set_as_read chat).2 (db_chats d) ∧
        ∃ t, catch_up d' = resolve_where (message_of_chat chat_id) t (catch_up d)
      else st_chats d' = st_chats d ∧ db_chats d' = db_chats d ∧ catch_up d' = catch_up d
  | None => b = false ∧ d' = d
  end.

Lemma lwp_counter o (Q : Z → World.Obs Db Effect → Prop) :
  (∀ n m l, Q n (mkObs (set_last_unread_counts m (o_db o)) l)) → lwp update_unread_counter o Q.
Proof.
  intros HQ. unfold update_unread_counter. do 4 lstep. apply lwp_bind.
  case_bool_decide; do 5 lstep; apply HQ.
Qed.

Lemma lwp_seconds o (Q : Z → World.Obs Db Effect → Prop) :
  (∀ t, Q t o) → lwp now_epoch_seconds o Q.
Proof. intros HQ. unfold now_epoch_seconds. lstep. lstep. lstep. apply HQ. Qed.

Lemma mark_as_read_lwp chat_id o :
  is_Some (st_account (o_db o)) →
  lwp (mark_as_read chat_id None) o (λ b o', marked chat_id (o_db o) b (o_db o')).
Proof.
  intros Hacc. unfold mark_as_read, apply_read, marked. lstep. lstep.
  destruct (get_chat (st_chats (o_db o)) chat_id) as [chat|] eqn:Hget; simpl; [|by lstep].
  pose proof (set_as_read_id chat) as Hid. pose proof (set_as_read_false chat) as Hfalse.
  destruct (set_as_read chat) as [b chat'] eqn:Hread. simpl in *.
  destruct b; simpl; [|lstep; split; [done|]; split; [|done]].
  2:{ rewrite Hfalse by done. simpl. by apply update_first_same. }
  lstep. apply lwp_counter. intros n m l. lstep.
  unfold resolve_chat_message_entries_for_handle. lstep. lstep. apply lwp_connection; [done|]. lstep. lstep.
  unfold resolve_chat_message_entries. lstep. apply lwp_seconds. intros t. unfold update_open.
  lstep. lstep. lstep. lstep. simpl.
  erewrite (get_chat_put _ _ chat); [|done..]. lstep. lstep. unfold save_chat. lstep.
  apply lwp_connection; [done|]. lstep. lstep. split; [done|]. split; [|split; [done|by exists t]].
  by erewrite (get_chat_put _ _ chat).
Qed.

(** Somebody else has written in a loaded chat. *)
Definition readable (chats : list Chat) (chat_id : string) : Prop :=
  ∃ chat, get_chat chats chat_id = Some chat ∧ Exists (λ m, m_mine m = false) (c_messages chat).

Lemma set_as_read_iff c : (set_as_read c).1 = true ↔ Exists (λ m, m_mine m = false) (c_messages c).
Proof.
  unfold set_as_read. destruct (find_first _ _) as [msg|] eqn:Hf; simpl.
  - split; [intros _|done]. apply find_first_Some in Hf as [Hin Hm]. apply Exists_exists.
    exists msg. split; [by apply list_elem_of_In, in_rev, list_elem_of_In|]. by apply negb_true_iff in Hm.
  - split; [done|]. intros (m & Hin & Hm)%Exists_exists. apply find_first_None in Hf.
    rewrite Forall_forall in Hf. specialize (Hf m). rewrite Hm in Hf. simpl in Hf.
    discriminate Hf. by apply list_elem_of_In, in_rev; rewrite rev_involutive; apply list_elem_of_In.
Qed.

Lemma marked_readable chat_id d b d' :
  marked chat_id d b d' → b = true ↔ readable (st_chats d) chat_id.
Proof.
  unfold marked, readable. destruct (get_chat (st_chats d) chat_id) as [chat|].
  - intros [-> _]. rewrite set_as_read_iff. split; [by exists chat|]. by intros (? & [= <-] & ?).
  - intros [-> _]. split; [done|]. by intros (? & ? & _).
Qed.

Lemma resolve_where_lookup p t (m : CatchUpTable) source :
  resolve_where p t m !! source =
  (λ r, if is_open r && p source r then resolved_row t r else r) <$> m !! source.
Proof. unfold resolve_where. rewrite map_lookup_imap. by destruct (m !! source). Qed.

(** Marking a chat as read lands everywhere, when no call fails: exactly when
    the chat is loaded and somebody else has written in it, [mark_as_read] answers
    [true], the chat's unread count is zero (the last message read having an id), its
    row is stored with the new mark, and every open mention or direct-message entry
    of the chat is resolved, those of other chats and kinds untouched; otherwise it
    answers [false] and changes nothing of this. *)
Theorem mark_read_lands chat_id o :
  is_Some (st_account (o_db o)) →
  lwp (mark_as_read chat_id None) o (λ b o',
    (b = true ↔ readable (st_chats (o_db o)) chat_id) ∧
    (b = false → st_chats (o_db o') = st_chats (o_db o) ∧ db_chats (o_db o') = db_chats (o_db o) ∧
       catch_up (o_db o') = catch_up (o_db o)) ∧
    (b = true → (∃ chat', get_chat (st_chats (o_db o')) chat_id = Some chat' ∧
         (c_last_read chat' ≠ "" → ∀ blocked, chat_unread blocked chat' = 0) ∧
         ct_last_read <$> db_chats (o_db o') !! c_id chat' = Some (c_last_read chat')) ∧
       ∃ t, ∀ source, catch_up (o_db o') !! source =
         (λ r, if is_open r && message_of_chat chat_id source r then resolved_row t r else r)
           <$> catch_up (o_db o) !! source)).
Proof.
  intros Hacc. eapply lwp_mono; [by apply mark_as_read_lwp|]. intros b o' Hm.
  split; [exact (marked_readable _ _ _ _ Hm)|]. unfold marked in Hm.
  destruct (get_chat (st_chats (o_db o)) chat_id) as [chat|].
  2:{ destruct Hm as [-> ->]. done. }
  destruct Hm as [Hb Hm]. destruct b; [split; [done|]; intros _|split; [by intros _|done]].
  destruct Hm as (Hget & Hrow & t & Hcu). split.
  - exists (set_as_read chat).2. split; [done|]. split.
    + intros Hid blocked. apply (set_as_read_unread _ chat); [|done].
      revert Hb. destruct (set_as_read chat) as [b0 c0]. simpl. by intros <-.
    + rewrite Hrow. unfold upsert_chat_row. rewrite lookup_insert_eq.
      by destruct (db_chats (o_db o) !! _).
  - exists t. intros source. by rewrite Hcu, resolve_where_lookup.
Qed.
End mark.

(** ** Clearing one entry *)

Section clearing.
Context `{SerdeText, SerdeErrors}.

(** What clearing one open entry does and says, when no call fails: it always
    answers [true]. An entry of a derived kind is then resolved, and so is a mention
    or a direct message whose chat is loaded with something from somebody else, with
    its siblings of the chat. A mention or direct message of any other chat is still
    open: nothing at all has changed, and the answer is [true] all the same. *)
Theorem resolve_entry_reports source r o :
  is_Some (st_account (o_db o)) →
  catch_up (o_db o) !! source = Some r → cu_resolved_at r = None →
  lwp (resolve_catch_up_entry source) o (λ b o',
    b = true ∧
    ((message_kind (cu_kind r) = false ∨ readable (st_chats (o_db o)) (cu_chat_id r)) →
       ∃ t, catch_up (o_db o') !! source = Some (resolved_row t r)) ∧
    (message_kind (cu_kind r) = true → ¬ readable (st_chats (o_db o)) (cu_chat_id r) →
       catch_up (o_db o') = catch_up (o_db o))).
Proof.
  intros Hacc Hr Hopen. unfold resolve_catch_up_entry, with_conn, get_entry.
  assert (is_open r = true) as Ho by (by apply bool_decide_eq_true_2).
  lstep. lstep. apply lwp_connection; [done|]. lstep. rewrite Hr. rewrite Ho. simpl.
  destruct (message_kind (cu_kind r)) eqn:Hk.
  - lstep. eapply lwp_mono; [by apply mark_as_read_lwp|]. intros b o' Hm. lstep. split; [done|].
    pose proof (marked_readable _ _ _ _ Hm) as Hread. unfold marked in Hm. split.
    + intros [?|Hyes]; [done|]. apply Hread in Hyes as ->.
      destruct (get_chat _ _) as [chat|]; [|by destruct Hm].
      destruct Hm as (_ & _ & _ & t & Hcu). exists t. rewrite Hcu, resolve_where_lookup, Hr. simpl.
      unfold message_of_chat. by rewrite Ho, Hk, bool_decide_eq_true_2.
    + intros _ Hno. destruct b; [by destruct Hno; apply Hread|].
      destruct (get_chat _ _) as [chat|]; [by destruct Hm as (_ & _ & _ & ?)|by destruct Hm as [_ ->]].
  - lstep. apply lwp_connection; [done|]. unfold resolve_entry. lstep. apply lwp_seconds. intros t.
    unfold update_open. lstep. lstep. lstep.
    assert (0 < count_where (λ s _, bool_decide (s = source)) (catch_up (o_db o)))%nat as Hc.
    { unfold count_where. assert ((source, r) ∈ filter (λ x, hit (λ s _, bool_decide (s = source)) x.1 x.2 = true)
        (map_to_list (catch_up (o_db o)))) as Hin.
      { apply list_elem_of_filter. split; [|by apply elem_of_map_to_list].
        unfold hit. simpl. by rewrite Ho, bool_decide_eq_true_2. }
      destruct (filter _ _); [by apply elem_of_nil in Hin|simpl; lia]. }
    split; [by apply Nat.ltb_lt|]. split; [|done]. intros _. exists t.
    change (resolve_where (λ s _, bool_decide (s = source)) t (catch_up (o_db o)) !! source =
      Some (resolved_row t r)). rewrite resolve_where_lookup, Hr. simpl.
    by rewrite Ho, bool_decide_eq_true_2.
Qed.
End clearing.

(** ** Witnesses: a mention in the chat of the example squad *)

Definition toy_mention : CatchUpRow := mkCatchUpRow "m-1" "mention" "g" 0 None.
Definition toy_message : Message :=
  mkMessage "x" "hello" "" None None None None [] [] 1 false false false (Some "bob")
    None false None None None.
Definition toy_reader (messages : list Message) : Db :=
  set_catch_up <["src" := toy_mention]>
    (set_chats (λ _, [set_messages messages (Chat_new "g" MlsGroup ["alice"; "bob"] 0)]) toy_squad).

Lemma mark_read_lands_witness :
  readable (st_chats (toy_reader [toy_message])) "g" ∧
  lwp (mark_as_read "g" None) (toy_obs (toy_reader [toy_message])) (λ b o',
    b = true ∧ ∃ t, catch_up (o_db o') !! "src" = Some (resolved_row t toy_mention)).
Proof.
  assert (readable (st_chats (toy_reader [toy_message])) "g") as Hread.
  { eexists. split; [vm_compute; reflexivity|]. apply Exists_cons. by left. }
  split; [exact Hread|].
  assert (is_Some (st_account (o_db (toy_obs (toy_reader [toy_message]))))) as Hacc by (by exists "alice").
  eapply lwp_mono; [exact (mark_read_lands "g" _ Hacc)|]. intros b o' (Hb & _ & Hm).
  assert (b = true) as -> by (by apply Hb). split; [reflexivity|].
  destruct (Hm eq_refl) as [_ [t Ht]]. exists t. rewrite Ht. reflexivity.
Defined.

Lemma resolve_entry_reports_witness :
  ¬ readable (st_chats (toy_reader [])) "g" ∧
  lwp (resolve_catch_up_entry "src") (toy_obs (toy_reader [])) (λ b o',
    b = true ∧ catch_up (o_db o') !! "src" = Some toy_mention).
Proof.
  assert (¬ readable (st_chats (toy_reader [])) "g") as Hno.
  { intros (chat & Hget & Hex). vm_compute in Hget. injection Hget as <-. by apply Exists_nil in Hex. }
  split; [exact Hno|].
  assert (is_Some (st_account (o_db (toy_obs (toy_reader []))))) as Hacc by (by exists "alice").
  eapply lwp_mono; [exact (resolve_entry_reports "src" toy_mention _ Hacc eq_refl eq_refl)|].
  intros b o' (Hb & _ & Hsame). split; [exact Hb|]. rewrite Hsame; [reflexivity|reflexivity|exact Hno].
Defined.
