(* ===== verification/SquadCatalogTheorems.v ===== *)
(** * The properties of the squad catalog

    Rows keep their form and read back as written, an upsert lands and keeps the
    creation time, a deletion leaves nothing of the squad, and a row that does not
    parse can be neither replaced nor deleted. *)

From Stdlib Require Import Ascii.
From S2P Require Import Prelude World Json Schema Records CatchUp SquadCatalog Toy.

(** ** The form of a row *)

Definition tag_ok (t : string) : Prop := normalize_commons_tag t = Some t.

Record squad_wf (row : SquadRow) : Prop := {
  wf_id : trim (s_id row) = s_id row ∧ s_id row ≠ "";
  wf_name : trim (s_name row) = s_name row ∧ s_name row ≠ "";
  wf_icon : ∀ i, s_icon_url row = Some i → trim i = i ∧ i ≠ "";
  wf_channels : s_channels row ≠ [] ∧
    Forall (λ c, blank (ch_name c) = false ∧ blank (ch_group_id c) = false) (s_channels row);
  wf_kind : s_kind row = KIND_SQUAD ∧ s_paired_squads row = None ∨
    s_kind row = KIND_SQUAD_PAIR ∧ ∃ p q, s_paired_squads row = Some [p; q] ∧
      Forall (λ p, blank (pr_id p) = false ∧ blank (pr_name p) = false) [p; q];
  wf_visibility : s_visibility row = VIS_PRIVATE ∧ s_commons_tags row = None ∨
    s_visibility row = VIS_PUBLIC ∧ ∀ tags, s_commons_tags row = Some tags →
      (1 ≤ length tags ≤ COMMONS_MAX_TAGS)%nat ∧ NoDup tags ∧ Forall tag_ok tags;
}.

(** *** Normal forms *)

(** Bytes of a tag are neither white space nor part of its encodings. *)
Lemma tag_byte_plain a : tag_byte a = true → ws1 a = false ∧ (code a < 128)%N ∧ a ≠ "#"%char.
Proof. destruct a as [[] [] [] [] [] [] [] []]; intros Ht; try discriminate Ht; done. Qed.

Lemma drop_ws_tag w2 w3 l :
  (∀ a b, w2 a b = true → (128 <= code a)%N) → (∀ a b c, w3 a b c = true → (128 <= code a)%N) →
  Forall (λ a, tag_byte a = true) l → drop_ws w2 w3 l = l.
Proof.
  intros H2 H3 Hl. apply drop_ws_id. destruct Hl as [|a l1 Ha Hl]; simpl; [done|].
  destruct (tag_byte_plain a Ha) as (? & Hlt & _). split; [done|]. destruct Hl as [|b l2 Hb Hl]; [done|].
  split; [destruct (w2 a b) eqn:E; [apply H2 in E; lia|done]|].
  destruct l2 as [|c l3]; [done|]. destruct (w3 a b c) eqn:E; [apply H3 in E; lia|done].
Qed.

Lemma ws_high a b c :
  (ws2 a b = true → (128 <= code a)%N) ∧ (ws2_rev a b = true → (128 <= code a)%N) ∧
  (ws3 a b c = true → (128 <= code a)%N) ∧ (ws3_rev a b c = true → (128 <= code a)%N).
Proof. unfold ws2_rev, ws3_rev, ws2, ws3. generalize (code a) (code b) (code c). intros x y z.
  split_and!; intros Hb;
    repeat match goal with
    | H : (_ || _)%bool = true |- _ => apply orb_true_iff in H as [H|H]
    | H : (_ && _)%bool = true |- _ => apply andb_true_iff in H as [? ?]
    | H : (_ =? _)%N = true |- _ => apply N.eqb_eq in H
    | H : (_ <=? _)%N = true |- _ => apply N.leb_le in H
    end; lia.
Qed.

Lemma trim_tag t : forallb tag_byte (String.list_ascii_of_string t) = true → trim t = t.
Proof.
  intros Ht. assert (Forall (λ a, tag_byte a = true) (String.list_ascii_of_string t)) as Hl.
  { apply Forall_forall. intros a Ha. rewrite forallb_forall in Ht. by apply Ht, list_elem_of_In. }
  unfold trim, trim_bytes. rewrite (drop_ws_tag ws2 ws3);
    [|intros a b; apply (ws_high a b a)|intros a b c; apply (ws_high a b c)|done].
  rewrite (drop_ws_tag ws2_rev ws3_rev);
    [|intros a b; apply (ws_high a b a)|intros a b c; apply (ws_high a b c)|by apply Forall_reverse].
  by rewrite reverse_involutive, String.string_of_list_ascii_of_string.
Qed.

Lemma strip_tag t : forallb tag_byte (String.list_ascii_of_string t) = true → strip_hashes t = t.
Proof.
  destruct t as [|a t]; [done|]. cbn [String.list_ascii_of_string forallb]. intros [Ha _]%andb_true_iff.
  destruct (tag_byte_plain a Ha) as (_ & _ & Hne). simpl.
  destruct a as [[] [] [] [] [] [] [] []]; try done; by destruct Hne.
Qed.

Lemma normalize_tag_normal raw t : normalize_commons_tag raw = Some t → tag_ok t.
Proof.
  unfold normalize_commons_tag at 1.
  assert (to_ascii_lowercase (to_ascii_lowercase (strip_hashes (trim raw))) =
    to_ascii_lowercase (strip_hashes (trim raw))) as Hlow by apply to_ascii_lowercase_idemp.
  revert Hlow. generalize (to_ascii_lowercase (strip_hashes (trim raw))). intros t0 Hlow.
  destruct (bool_decide (t0 = "") || _) eqn:E1; [done|].
  destruct (forallb tag_byte _) eqn:E2; simpl; [|done]. destruct (decide (t0 = "new")) as [|E3]; [done|].
  intros Heq. injection Heq as <-.
  unfold tag_ok, normalize_commons_tag. rewrite (trim_tag t0), (strip_tag t0), Hlow, E1, E2 by done.
  simpl. by rewrite decide_False.
Qed.

Lemma collect_tags_ok out tags res :
  collect_tags out tags = Ok res → NoDup out → Forall tag_ok out →
  NoDup res ∧ Forall tag_ok res ∧ (length res ≤ length out + length tags)%nat ∧
  (length out ≤ length res)%nat.
Proof.
  revert out. induction tags as [|item tags IH]; intros out; simpl; [intros [= <-]; auto with lia|].
  destruct (normalize_commons_tag item) as [t|] eqn:Ht; [|done]. intros Hc Hnd Hall.
  apply normalize_tag_normal in Ht. destruct (decide (t ∈ out)) as [Hin|Hout].
  - destruct (IH out Hc Hnd Hall) as (? & ? & ? & ?). auto with lia.
  - destruct (IH (out ++ [t]) Hc) as (? & ? & Hle & Hge).
    + apply NoDup_app. split; [done|]. split; [|apply NoDup_singleton]. set_solver.
    + apply Forall_app. split; [done|by constructor].
    + rewrite length_app in *. simpl in *. split_and!; [done..|lia|lia].
Qed.

Lemma normalize_tags_ok raw vis res :
  normalize_commons_tags raw vis = Ok res →
  (vis ≠ VIS_PUBLIC → res = None) ∧
  ∀ tags, res = Some tags →
    (1 ≤ length tags ≤ COMMONS_MAX_TAGS)%nat ∧ NoDup tags ∧ Forall tag_ok tags.
Proof.
  unfold normalize_commons_tags. case_bool_decide as Hv; simpl; [|intros [= <-]; by split].
  destruct raw as [[|x raw]|]; [intros [= <-]; by split| |intros [= <-]; by split].
  destruct (COMMONS_MAX_TAGS <? _)%nat eqn:Hn; [done|]. apply Nat.ltb_ge in Hn.
  destruct (collect_tags [] (x :: raw)) as [out|] eqn:Hc; simpl; [|done].
  case_bool_decide as Ho; [done|]. intros [= <-]. split; [done|]. intros tags [= <-].
  destruct (collect_tags_ok _ _ _ Hc) as (Hnd & Hall & Hle & _); [constructor|constructor|].
  simpl in *. split_and!; [destruct out; simpl; [done|lia]|lia|done|done].
Qed.

Lemma check_channels_ok l : check_channels l = Ok tt →
  Forall (λ c, blank (ch_name c) = false ∧ blank (ch_group_id c) = false) l.
Proof.
  induction l as [|c l IH]; simpl; [constructor|].
  destruct (blank (ch_name c)) eqn:?, (blank (ch_group_id c)) eqn:?; try done.
  intros Hl. constructor; auto.
Qed.

Lemma validate_paired_ok kind paired res :
  validate_paired_squads kind paired = Ok res →
  kind ≠ KIND_SQUAD_PAIR ∧ res = None ∨
  kind = KIND_SQUAD_PAIR ∧ ∃ p q, res = Some [p; q] ∧
    Forall (λ p, blank (pr_id p) = false ∧ blank (pr_name p) = false) [p; q].
Proof.
  unfold validate_paired_squads. case_bool_decide as Hk; simpl; [|intros [= <-]; by left].
  destruct paired as [ps|]; [|done]. destruct ps as [|p [|q [|? ?]]]; simpl; try done.
  destruct (blank (pr_id p)) eqn:?, (blank (pr_name p)) eqn:?, (blank (pr_id q)) eqn:?,
    (blank (pr_name q)) eqn:?; simpl; try done.
  intros [= <-]. right. split; [done|]. exists p, q. split; [done|]. by repeat constructor.
Qed.

Lemma normalize_kind_ok raw k : normalize_kind raw = Ok k → k = KIND_SQUAD ∨ k = KIND_SQUAD_PAIR.
Proof. unfold normalize_kind. intros Hk. repeat case_decide; simplify_eq; auto. Qed.
Lemma normalize_visibility_ok raw v :
  normalize_visibility raw = Ok v → v = VIS_PRIVATE ∨ v = VIS_PUBLIC.
Proof. unfold normalize_visibility. intros Hk. repeat case_decide; simplify_eq; auto. Qed.

Lemma prepared_wf input ts row : prepared input ts = Ok row → squad_wf row.
Proof.
  unfold prepared. case_decide as Hid; [done|]. case_decide as Hname; [done|].
  destruct (validate_channels (u_channels input)) as [[]|] eqn:Hch; simpl; [|done].
  destruct (normalize_kind (u_kind input)) as [kind|] eqn:Hk; simpl; [|done].
  destruct (normalize_visibility (u_visibility input)) as [vis|] eqn:Hv; simpl; [|done].
  destruct (normalize_commons_tags _ vis) as [tags|] eqn:Ht; simpl; [|done].
  destruct (validate_paired_squads kind _) as [ps|] eqn:Hp; simpl; [|done]. intros [= <-].
  apply normalize_kind_ok in Hk. apply normalize_visibility_ok in Hv.
  destruct (normalize_tags_ok _ _ _ Ht) as [Hpriv Htags]. apply validate_paired_ok in Hp.
  split; simpl.
  - by rewrite trim_idemp.
  - by rewrite trim_idemp.
  - unfold clean_icon. intros i (s & _ & Hi)%bind_Some. case_decide; simplify_eq. by rewrite trim_idemp.
  - unfold validate_channels in Hch. destruct (u_channels input); [done|]. split; [done|by apply check_channels_ok].
  - destruct Hp as [[Hne ->]|[-> Hpq]]; [left; split; [|done]; by destruct Hk|by right].
  - destruct Hv as [-> | ->]; [left; split; [done|]; by apply Hpriv|right; by split].
Qed.

Lemma created_wf row t : squad_wf row → squad_wf (set_created t row).
Proof. by intros []. Qed.

(** ** The JSON columns read back *)

(** The text of an array is never white space. *)
Class SerdeTextArrays `{SerdeText} : Prop :=
  array_not_blank : ∀ l, blank (to_text (JArr l)) = false.

Definition orders_ok (row : SquadRow) : Prop :=
  Forall (λ c, -2147483648 ≤ ch_order c ≤ 2147483647) (s_channels row).

Section columns.
Context `{SerdeTextLaws, SerdeErrors, !SerdeTextArrays}.

Lemma array_reads {A} (de : json → option A) (se : A → json) l :
  (∀ x, x ∈ l → de (se x) = Some x ∧ json_ok (se x) = true) →
  of_text (to_text (JArr (se <$> l))) ≫= de_list de = Some l.
Proof.
  intros Hl. rewrite of_to_text.
  - simpl. apply mapM_Some. induction l as [|x l IH]; [constructor|].
    constructor; [by apply Hl; left|]. apply IH. intros y Hy. apply Hl. by right.
  - simpl. apply forallb_forall. intros j Hj%list_elem_of_In. apply list_elem_of_fmap in Hj as (x & -> & Hx).
    by apply Hl.
Qed.

Lemma channel_reads c :
  -2147483648 ≤ ch_order c ≤ 2147483647 →
  de_channel (ser_channel c) = Some c ∧ json_ok (ser_channel c) = true.
Proof.
  intros Ho. split.
  - unfold de_channel, ser_channel. set (fs := obj_fields (channel_members c)).
    assert (fs = obj_fields (channel_members c)) as Hfs by done. clearbody fs.
    assert (NoDup (channel_members c).*1) as Hnd
      by (change (NoDup ["name"; "groupId"; "order"; "access"]); apply (bool_decide_unpack _); vm_compute; exact I).
    pose proof (reads_int (-2147483648) 2147483647 (ch_order c) Ho) as Hr.
    unfold de_i32. eapply option_bind_step; [reflexivity|cbv beta]. serde_member Hfs Hnd. serde_member Hfs Hnd. serde_member Hfs Hnd. serde_member Hfs Hnd.
    by destruct c.
  - unfold ser_channel. apply json_obj_ok. unfold channel_members.
    repeat constructor; simpl; intros j; try (by intros [= <-]).
    + intros [= <-]. simpl. apply bool_decide_eq_true. unfold i64_min. lia.
    + destruct (ch_access c); simpl; by intros [= <-].
Qed.

Lemma paired_reads p : de_paired (ser_paired p) = Some p ∧ json_ok (ser_paired p) = true.
Proof.
  split.
  - unfold de_paired, ser_paired, struct_fields. simpl. by destruct p.
  - unfold ser_paired. apply json_obj_ok. unfold paired_members.
    repeat constructor; simpl; intros j; by intros [= <-].
Qed.

(** A row reads back as it was written. *)
Lemma row_reads row : orders_ok row → row_from_query (s_id row) (squad_sql_row row) = Ok row.
Proof.
  intros Ho. unfold row_from_query, squad_sql_row, from_str, optional_column. simpl.
  rewrite (array_reads de_channel ser_channel).
  2:{ intros c Hc. apply channel_reads. unfold orders_ok in Ho. rewrite Forall_forall in Ho. by apply Ho. }
  simpl. destruct (s_commons_tags row) as [tags|] eqn:Et; simpl;
    [rewrite array_not_blank; unfold from_str; rewrite (array_reads de_string JStr) by done; simpl|];
    (destruct (s_paired_squads row) as [ps|] eqn:Ep; simpl;
      [rewrite array_not_blank; unfold from_str;
       rewrite (array_reads de_paired ser_paired) by (intros; apply paired_reads); simpl|]);
    destruct row; simpl in *; by subst.
Qed.
End columns.

(** ** The catalog *)

Section catalog.
Context `{SerdeTextLaws, SerdeErrors, !SerdeTextArrays, Rusqlite}.

Definition catalog_wf (d : Db) : Prop :=
  ∀ id r, squads d !! id = Some r → ∃ row, row_from_query id r = Ok row ∧ squad_wf row.

Definition put_row (row : SquadRow) : Db → Db := set_device (put_squads (upsert_squad_row row)).

Lemma squads_put row d : squads (put_row row d) = upsert_squad_row row (squads d).
Proof. done. Qed.

(** What the table holds after an upsert: the row with the stored creation time. *)
Definition upserted (row : SquadRow) (m : gmap string SquadSqlRow) : SquadRow :=
  match m !! s_id row with
  | Some old => set_created (sq_created_at_ms old) row
  | None => row
  end.

Lemma upserted_row row m :
  upsert_squad_row row m = <[s_id row := squad_sql_row (upserted row m)]> m.
Proof. unfold upsert_squad_row, upserted. by destruct (m !! s_id row). Qed.

Lemma upserted_reads row m :
  orders_ok row →
  row_from_query (s_id row) (squad_sql_row (upserted row m)) = Ok (upserted row m).
Proof.
  intros Ho. assert (s_id row = s_id (upserted row m)) as Hid by (unfold upserted; by destruct (m !! _)).
  rewrite Hid at 1. apply row_reads. unfold upserted. by destruct (m !! _).
Qed.

Lemma upsert_keeps_wf row d :
  squad_wf row → orders_ok row → catalog_wf d → catalog_wf (put_row row d).
Proof.
  intros Hwf Ho Hd id r. rewrite squads_put, upserted_row. intros [[<- <-]|[Hne Hr]]%lookup_insert_Some.
  - exists (upserted row (squads d)). split; [by apply upserted_reads|].
    unfold upserted. destruct (_ !! _); [by apply created_wf|done].
  - by apply Hd.
Qed.

Lemma quiet_get pid : quiet (get_squad_inner pid).
Proof. unfold get_squad_inner. quiet_tac. Qed.
Lemma get_reads pid o :
  dwp (get_squad_inner pid) o (λ r _,
    match r with
    | Ok (Some row) => ∃ sr, squads (o_db o) !! trim pid = Some sr ∧ row_from_query (trim pid) sr = Ok row
    | Ok None => trim pid = "" ∨ squads (o_db o) !! trim pid = None
    | Err _ => True
    end).
Proof.
  unfold get_squad_inner. case_decide; [dstep; by left|]. dstep. dstep; [done|].
  destruct (squads (o_db o) !! trim pid) as [sr|] eqn:Hsr; [|dstep; by right].
  dstep. dstep. destruct (row_from_query _ _) eqn:Hrow; [dstep; eauto|done].
Qed.

Definition input_orders_ok (u : SquadUpsert) : Prop :=
  Forall (λ c, -2147483648 ≤ ch_order c ≤ 2147483647) (u_channels u).

Lemma prepared_orders u ts row : prepared u ts = Ok row → input_orders_ok u → orders_ok row.
Proof.
  unfold prepared. intros Hp Ho. repeat case_decide; try done.
  apply rbind_ok in Hp as (? & _ & Hp). apply rbind_ok in Hp as (? & _ & Hp).
  apply rbind_ok in Hp as (? & _ & Hp). apply rbind_ok in Hp as (? & _ & Hp).
  apply rbind_ok in Hp as (? & _ & Hp). by injection Hp as <-.
Qed.

Lemma prepared_id u ts row :
  prepared u ts = Ok row → s_name row = trim (u_name u) ∧ s_id row = trim (u_id u).
Proof.
  unfold prepared. intros Hp. repeat case_decide; try done.
  apply rbind_ok in Hp as (? & _ & Hp). apply rbind_ok in Hp as (? & _ & Hp).
  apply rbind_ok in Hp as (? & _ & Hp). apply rbind_ok in Hp as (? & _ & Hp).
  apply rbind_ok in Hp as (? & _ & Hp). by injection Hp as <-.
Qed.

(** Reading a row back after its upsert. *)
Lemma get_upserted row (o : World.Obs Db Effect) log :
  squad_wf row → orders_ok row →
  dwp (get_squad_inner (s_id row)) (mkObs (put_row row (o_db o)) log) (λ r o',
    o' = mkObs (put_row row (o_db o)) log ∧
    ∀ saved, r = Ok saved → saved = Some (upserted row (squads (o_db o)))).
Proof.
  intros Hwf Ho. apply (dwp_quiet _ _ _ _ (quiet_get _) (get_reads _ _)).
  destruct (wf_id _ Hwf) as [Htrim Hne].
  assert (squads (put_row row (o_db o)) !! s_id row =
    Some (squad_sql_row (upserted row (squads (o_db o))))) as Hrow
    by (by rewrite squads_put, upserted_row, lookup_insert_eq).
  intros r Hr. split; [done|]. intros saved ->. rewrite Htrim in Hr. simpl in Hr. destruct saved as [saved|].
  - destruct Hr as (sr & Hsr & Hread). rewrite Hrow in Hsr. injection Hsr as <-.
    rewrite upserted_reads in Hread by done. congruence.
  - destruct Hr as [?|Hr]; [done|]. congruence.
Qed.

Definition squads_shrink (d d' : Db) : Prop := squads d' ⊆ squads d.
#[export] Instance squads_shrink_refl : Reflexive squads_shrink.
Proof. intros d. unfold squads_shrink. done. Qed.
#[export] Instance squads_shrink_trans : Transitive squads_shrink.
Proof. intros d1 d2 d3 H12 H23. unfold squads_shrink in *. by etrans. Qed.

Lemma keeps_delete parent_id : keeps squads_shrink (delete_squad parent_id).
Proof.
  unfold delete_squad, delete_squad_inner, delete_join_inbox_rows, table_exists,
    delete_entries_for_chats, delete_rows.
  pose proof quiet_require_kdf. pose proof quiet_get_db_connection. pose proof quiet_get.
  keeps_tac; try (apply quiet_keeps; [apply _|by auto]);
    lazymatch goal with
    | |- keeps _ (execute _ _) => refine (keeps_execute squads_shrink _ _ _); intros d
    | |- squads_shrink ?d _ => idtac
    end;
    first [ change (squads d ⊆ squads d); reflexivity
          | change (delete (trim parent_id) (squads d) ⊆ squads d); apply delete_subseteq ].
Qed.

(** The catalog is typed: every row in it reads back, with a non-empty trimmed
    id and name, at least one channel, a known kind with two named squads exactly
    when it is a pair, a known visibility, and one to three distinct normalized tags
    at most on public squads. Upserts and deletions, whichever calls fail, keep it
    so, and what an upsert answers is such a row with a name of at most fifty
    bytes. *)
Theorem catalog_typed (o : World.Obs Db Effect) :
  catalog_wf (o_db o) →
  (∀ u, input_orders_ok u →
     dwp (upsert_squad u) o (λ r o', catalog_wf (o_db o') ∧
       ∀ row, r = Ok row → squad_wf row ∧ (String.length (s_name row) ≤ SQUAD_NAME_MAX_LENGTH)%nat)) ∧
  (∀ parent_id, dwp (delete_squad parent_id) o (λ _ o', catalog_wf (o_db o'))).
Proof.
  intros Hd. split.
  - intros u Ho. unfold upsert_squad. apply dwp_bind, (dwp_quiet_any _ _ _ quiet_require_kdf).
    intros [[]|e]; [|done]. set (u' := set_name _ u).
    destruct (_ <? _)%nat eqn:Hlen; [by apply dwp_throw|]. apply Nat.ltb_ge in Hlen.
    apply dwp_bind. unfold prepare_row, now_ms. dstep. dstep. dstep. dstep. dstep.
    destruct (prepared u' _) as [row|e] eqn:Hp; [|done].
    pose proof (prepared_wf _ _ _ Hp) as Hwf. pose proof (prepared_orders _ _ _ Hp Ho) as Hor.
    destruct (prepared_id _ _ _ Hp) as [Hname _]. simpl in Hname, Hlen. rewrite trim_idemp in Hname.
    apply dwp_bind, (dwp_quiet_any _ _ _ quiet_get_db_connection). intros [[]|e']; [|done].
    apply dwp_bind, (dwp_quiet_any _ _ _ (quiet_get _)). intros [existing|e']; [|done].
    set (row' := match existing with Some e => _ | None => row end).
    assert (squad_wf row' ∧ orders_ok row' ∧ s_name row' = s_name row) as (Hwf' & Hor' & Hn')
      by (unfold row'; by destruct existing; [split_and!; [apply created_wf|..]|]).
    clearbody row'. apply dwp_bind. unfold upsert_squad_inner. dstep; [done|].
    apply dwp_bind. eapply dwp_mono; [by apply get_upserted|]. intros r o' [-> Hsaved].
    pose proof (upsert_keeps_wf _ _ Hwf' Hor' Hd) as Hd'.
    destruct r as [saved|e']; [|done]. rewrite (Hsaved saved eq_refl). simpl. dstep. split; [done|].
    intros r [= <-]. unfold upserted. destruct (_ !! _); simpl; (split; [|by rewrite Hn', Hname]);
      [by apply created_wf|done].
  - intros parent_id. eapply dwp_mono; [apply keeps_delete|]. intros r o' Hs id sr Hsr.
    apply (Hd id sr). by eapply lookup_weaken.
Qed.
End catalog.

(** ** Upserts and deletions *)

Section landing.
Context `{SerdeTextLaws, SerdeErrors, !SerdeTextArrays, Rusqlite}.

Lemma lwp_get pid (o : World.Obs Db Effect) (Q : option SquadRow → World.Obs Db Effect → Prop) :
  (∀ sr, squads (o_db o) !! trim pid = Some sr → is_okb (row_from_query (trim pid) sr) = true) →
  Q (if decide (trim pid = "") then None
     else squads (o_db o) !! trim pid ≫= λ sr, res_ok (row_from_query (trim pid) sr)) o →
  lwp (get_squad_inner pid) o Q.
Proof.
  intros Hok HQ. unfold get_squad_inner. case_decide; [by lstep|]. lstep. lstep.
  destruct (squads (o_db o) !! trim pid) as [sr|]; [|by lstep]. specialize (Hok sr eq_refl). simpl in HQ.
  lstep. destruct (row_from_query _ _) as [row|]; [|done]. eapply lwp_of_result; [done|]. by lstep.
Qed.

(** A valid upsert lands: with an account and no failing call, and any earlier
    row of the squad readable, [upsert_squad] answers the prepared row, the creation
    time of the earlier row kept; exactly that row is stored, reads back as what was
    answered, and no other squad changes. *)
Theorem upsert_lands u (o : World.Obs Db Effect) :
  can_write (o_db o) → input_orders_ok u →
  (String.length (trim (u_name u)) ≤ SQUAD_NAME_MAX_LENGTH)%nat →
  (∀ ts, is_okb (prepared (set_name (trim (u_name u)) u) ts) = true) →
  (∀ sr, squads (o_db o) !! trim (u_id u) = Some sr →
     is_okb (row_from_query (trim (u_id u)) sr) = true) →
  lwp (upsert_squad u) o (λ row o',
    (∃ ts row0, prepared (set_name (trim (u_name u)) u) ts = Ok row0 ∧
       row = match squads (o_db o) !! trim (u_id u) with
             | Some sr => set_created (sq_created_at_ms sr) row0
             | None => row0
             end) ∧
    s_id row = trim (u_id u) ∧
    squads (o_db o') = <[s_id row := squad_sql_row row]> (squads (o_db o)) ∧
    row_from_query (s_id row) (squad_sql_row row) = Ok row).
Proof.
  intros Hw Ho Hlen Hok Hread. unfold upsert_squad. lstep. apply lwp_require_kdf; [done|].
  set (u' := set_name _ u) in *. rewrite (proj2 (Nat.ltb_ge _ _)) by done. lstep.
  unfold prepare_row, now_ms. do 3 lstep. lstep. match goal with |- context [prepared u' ?t] => generalize t; intros ts end.
  destruct (prepared u' ts) as [row0|e] eqn:Hp; [|specialize (Hok ts); by rewrite Hp in Hok].
  eapply lwp_of_result; [done|]. lstep. apply lwp_connection; [apply Hw|]. lstep.
  pose proof (prepared_wf _ _ _ Hp) as Hwf. pose proof (prepared_orders _ _ _ Hp Ho) as Hor.
  destruct (prepared_id _ _ _ Hp) as [_ Hid]. destruct (wf_id _ Hwf) as [Htrim Hne].
  change (u_id u') with (u_id u) in Hid.
  apply lwp_get; [by rewrite Htrim, Hid|]. rewrite Htrim, decide_False by done.
  set (row := match _ with Some e => _ | None => row0 end).
  assert (row = upserted row0 (squads (o_db o)) ∧ squad_wf row ∧ orders_ok row ∧
    upserted row (squads (o_db o)) = row ∧ s_id row = s_id row0) as (Hrow & Hwf' & Hor' & Hup & Hid').
  { unfold row, upserted. rewrite Hid. destruct (squads (o_db o) !! trim (u_id u)) as [sr|] eqn:Hsr; simpl.
    - specialize (Hread sr eq_refl). destruct (row_from_query _ sr) as [e|] eqn:He; [|done]. simpl.
      assert (s_created_at_ms e = sq_created_at_ms sr) as ->.
      { unfold row_from_query in He. apply rbind_ok in He as (? & _ & He).
        apply rbind_ok in He as (? & _ & He). apply rbind_ok in He as (? & _ & He). by injection He as <-. }
      rewrite Hid, Hsr. split_and!; [done|by apply created_wf|done|done|done].
    - by rewrite Hid, Hsr. }
  clearbody row. lstep. unfold upsert_squad_inner. lstep. lstep.
  set (o1 := mkObs _ _).
  assert (squads (o_db o1) = <[s_id row := squad_sql_row row]> (squads (o_db o))) as Ho1.
  { change (upsert_squad_row row (squads (o_db o)) = <[s_id row := squad_sql_row row]> (squads (o_db o))).
    by rewrite upserted_row, Hup. }
  clearbody o1. destruct (wf_id _ Hwf') as [Htrim' Hne']. pose proof (upserted_reads row (squads (o_db o)) Hor') as Hback.
  rewrite Hup in Hback. apply lwp_get; rewrite Htrim', Ho1, lookup_insert_eq.
  - intros sr [= <-]. by rewrite Hback.
  - rewrite decide_False by done. simpl. rewrite Hback. simpl. eapply lwp_of_result; [done|].
    split; [|split; [congruence|by split]].
    exists ts, row0. split; [done|]. rewrite Hrow. unfold upserted. by rewrite Hid.
Qed.
(** Every step that has no case to decide. *)
Ltac lsteps :=
  repeat lazymatch goal with
    | |- lwp (match _ with _ => _ end) _ _ => fail
    | |- lwp _ _ _ => lstep
    end.

(** A deletion leaves nothing of the squad: with no failing call and a readable
    or absent row, [delete_squad] removes exactly the squad's row, the accounts and
    addresses of its members, its join inbox with the secret, and the Catch up
    entries of its channels. *)
Theorem delete_traceless parent_id (o : World.Obs Db Effect) :
  let pid := trim parent_id in
  can_write (o_db o) → pid ≠ "" →
  (∀ sr, squads (o_db o) !! pid = Some sr → is_okb (row_from_query pid sr) = true) →
  lwp (delete_squad parent_id) o (λ _ o',
    squads (o_db o') = delete pid (squads (o_db o)) ∧
    (∀ k, dv_member_evm (db_device (o_db o')) !! k =
       if decide (k.1 = pid) then None else dv_member_evm (db_device (o_db o)) !! k) ∧
    (∀ k, dv_member_evm_account (db_device (o_db o')) !! k =
       if decide (k.1 = pid) then None else dv_member_evm_account (db_device (o_db o)) !! k) ∧
    dv_join_meta (db_device (o_db o')) = delete pid (dv_join_meta (db_device (o_db o))) ∧
    dv_join_secret (db_device (o_db o')) = delete pid (dv_join_secret (db_device (o_db o))) ∧
    ∀ source r, catch_up (o_db o') !! source = Some r ↔
      catch_up (o_db o) !! source = Some r ∧
      ¬ ∃ sr row c, squads (o_db o) !! pid = Some sr ∧ row_from_query pid sr = Ok row ∧
          c ∈ s_channels row ∧ ch_group_id c = cu_chat_id r).
Proof.
  intros pid Hw Hne Hread. unfold delete_squad. lstep. apply lwp_require_kdf; [done|]. lstep.
  apply lwp_connection; [apply Hw|]. unfold delete_squad_inner. fold pid. rewrite decide_False by done.
  assert (trim pid = pid) as Htrim by apply trim_idemp.
  lstep. apply lwp_get; rewrite Htrim; [done|]. rewrite decide_False by done.
  set (channels := match _ with Some row => _ | None => [] end).
  assert (∀ chat, chat ∈ channels ↔ ∃ sr row c, squads (o_db o) !! pid = Some sr ∧
    row_from_query pid sr = Ok row ∧ c ∈ s_channels row ∧ ch_group_id c = chat) as Hch.
  { unfold channels. intros chat. destruct (squads (o_db o) !! pid) as [sr|] eqn:Hsr; simpl.
    2:{ rewrite elem_of_nil. split; [done|]. by intros (? & ? & ? & ? & _). }
    specialize (Hread sr eq_refl). destruct (row_from_query pid sr) as [row|] eqn:Hrow; [|done]. simpl.
    rewrite list_elem_of_fmap. split.
    - intros (c & -> & Hc). by exists sr, row, c.
    - intros (sr' & row' & c & Hs & Hr & Hc & <-). injection Hs as <-. rewrite Hrow in Hr.
      injection Hr as <-. by exists c. }
  clearbody channels. do 4 lstep. unfold delete_join_inbox_rows, table_exists. rewrite Htrim.
  rewrite decide_False by done. lsteps.
  assert (∀ A (m : gmap (string * string) A) k, filter (λ x, x.1.1 ≠ pid) m !! k =
    if decide (k.1 = pid) then None else m !! k) as Hfilter.
  { intros A m k. destruct (m !! k) as [x|] eqn:Hk.
    - case_decide; [by apply map_lookup_filter_None; right; intros y _ Hn; apply Hn|].
      by apply map_lookup_filter_Some.
    - case_decide; apply map_lookup_filter_None; by left. }
  unfold delete_entries_for_chats, delete_rows.
  destruct channels as [|c0 cs]; lsteps; (split_and!; [done|by intros|by intros|done|done|]);
    intros source r.
  - split; [|by intros []]. intros Hr. split; [done|]. intros Hex. by apply Hch, elem_of_nil in Hex.
  - change (filter (λ x : string * CatchUpRow, bool_decide (cu_chat_id x.2 ∈ c0 :: cs) = false)
      (catch_up (o_db o)) !! source = Some r ↔ catch_up (o_db o) !! source = Some r ∧
      ¬ ∃ sr row c, squads (o_db o) !! pid = Some sr ∧ row_from_query pid sr = Ok row ∧
          c ∈ s_channels row ∧ ch_group_id c = cu_chat_id r).
    rewrite map_lookup_filter_Some, bool_decide_eq_false. simpl. by rewrite <- Hch.
Qed.

(** A catalog row whose JSON does not parse is stuck: the list skips it, and no
    command can replace or delete the squad, since each of them reads the row first
    and gives up with nothing changed. *)
Theorem malformed_squad_stuck pid sr e (o : World.Obs Db Effect) :
  trim pid = pid → pid ≠ "" →
  squads (o_db o) !! pid = Some sr → row_from_query pid sr = Err e →
  dwp (delete_squad pid) o (λ r o', is_okb r = false ∧ o' = o) ∧
  (∀ u, trim (u_id u) = pid → dwp (upsert_squad u) o (λ r o', is_okb r = false ∧ o' = o)) ∧
  dwp (get_squad pid) o (λ r o', is_okb r = false ∧ o' = o) ∧
  dwp list_squads o (λ r o', o' = o ∧ ∀ rows, r = Ok rows → pid ∉ s_id <$> rows).
Proof.
  intros Htrim Hne Hsr He.
  assert (dwp (get_squad_inner pid) o (λ r o', is_okb r = false ∧ o' = o)) as Hget.
  { unfold get_squad_inner. rewrite Htrim, decide_False by done. dstep. dstep; [done|].
    rewrite Hsr. dstep. dstep. by rewrite He. }
  split_and!.
  - unfold delete_squad. apply dwp_bind, (dwp_quiet_any _ _ _ quiet_require_kdf). intros [[]|]; [|done].
    apply dwp_bind, (dwp_quiet_any _ _ _ quiet_get_db_connection). intros [[]|]; [|done].
    unfold delete_squad_inner. rewrite Htrim, decide_False by done.
    apply dwp_bind. eapply dwp_mono; [exact Hget|]. by intros [?|?] o' [? ->].
  - intros u Hid. unfold upsert_squad. apply dwp_bind, (dwp_quiet_any _ _ _ quiet_require_kdf).
    intros [[]|]; [|done]. destruct (_ <? _)%nat; [by apply dwp_throw|].
    apply dwp_bind. unfold prepare_row, now_ms. dstep. dstep. dstep. dstep. dstep.
    destruct (prepared _ _) as [row|] eqn:Hp; [|done]. destruct (prepared_id _ _ _ Hp) as [_ Hrow].
    apply dwp_bind, (dwp_quiet_any _ _ _ quiet_get_db_connection). intros [[]|]; [|done].
    change (u_id (set_name (trim (u_name u)) u)) with (u_id u) in Hrow. rewrite Hrow, Hid.
    apply dwp_bind. eapply dwp_mono; [exact Hget|]. by intros [?|?] o' [? ->].
  - unfold get_squad, with_conn. apply dwp_bind, (dwp_quiet_any _ _ _ quiet_get_db_connection).
    by intros [[]|]; [|done].
  - unfold list_squads, with_conn, list_squads_inner.
    apply dwp_bind, (dwp_quiet_any _ _ _ quiet_get_db_connection). intros [[]|]; [|done].
    dstep. dstep; [done|]. dstep; [done|]. split; [done|]. intros rows [= <-] Hin.
    apply list_elem_of_fmap in Hin as (row & Hid & Hrow). unfold readable_rows in Hrow.
    apply list_elem_of_omap in Hrow as ([id sr'] & Hx & Hok). simpl in Hok.
    rewrite order_by_ms_elem in Hx. apply elem_of_map_to_list in Hx.
    destruct (row_from_query id sr') as [row'|] eqn:Hq; [|done]. injection Hok as ->.
    assert (s_id row = id) as Hrid.
    { unfold row_from_query in Hq. apply rbind_ok in Hq as (? & _ & Hq).
      apply rbind_ok in Hq as (? & _ & Hq). apply rbind_ok in Hq as (? & _ & Hq). by injection Hq as <-. }
    rewrite Hrid in Hid. subst id. rewrite Hsr in Hx. injection Hx as <-. congruence.
Qed.
End landing.

(** ** Witnesses: a public squad with two channels *)

#[export] Instance toy_serde_errors : SerdeErrors := { de_error _ := "EOF while parsing" }.

Lemma digits_plain p : forallb tag_byte (String.list_ascii_of_string (PlainText.bits p)) = true.
Proof. induction p as [p IH|p IH|]; simpl; [exact IH|exact IH|done]. Qed.

#[export] Instance toy_arrays : SerdeTextArrays.
Proof.
  intros l. apply bool_decide_eq_false. change (trim (PlainText.print (JArr l)) ≠ "").
  unfold PlainText.print. rewrite trim_tag by apply digits_plain. intros Hb.
  assert (encode (PlainText.to_tree (JArr l)) = 1%positive) as He.
  { revert Hb. by destruct (encode (PlainText.to_tree (JArr l))). }
  pose proof (decode_encode (PlainText.to_tree (JArr l))) as Hd. rewrite He in Hd.
  vm_compute in Hd. discriminate Hd.
Qed.

Definition toy_upsert : SquadUpsert :=
  mkUpsert " s1 " " Chess club " None
    [mkChannel "announcements" "g" 0 None; mkChannel "general" "h" 1 (Some "open")]
    None None (Some "Public") (Some ["#Chess"; "games"; "chess"]) None None.
Definition toy_squad_row : SquadRow :=
  mkSquad "s1" "Chess club" None (u_channels toy_upsert) "squad" None "public"
    (Some ["chess"; "games"]) 7 7.
Definition toy_catalog (r : SquadSqlRow) : Db := set_device (put_squads <["s1" := r]>) toy_squad.

Lemma toy_can_write r : can_write (o_db (toy_obs (toy_catalog r))).
Proof. split; [by exists "alice"|reflexivity]. Qed.

Lemma toy_row_back : row_from_query "s1" (squad_sql_row toy_squad_row) = Ok toy_squad_row.
Proof. apply (row_reads toy_squad_row). repeat constructor; simpl; lia. Qed.

Lemma toy_catalog_only r id sr :
  squads (o_db (toy_obs (toy_catalog r))) !! id = Some sr → id = "s1" ∧ sr = r.
Proof.
  change (squads (o_db (toy_obs (toy_catalog r)))) with ({["s1" := r]} : gmap string SquadSqlRow).
  by intros [<- <-]%lookup_singleton_Some.
Qed.

Lemma catalog_typed_witness :
  catalog_wf (o_db (toy_obs (toy_catalog (squad_sql_row toy_squad_row)))) ∧
  dwp (delete_squad "s1") (toy_obs (toy_catalog (squad_sql_row toy_squad_row)))
    (λ _ o', catalog_wf (o_db o')).
Proof.
  assert (catalog_wf (o_db (toy_obs (toy_catalog (squad_sql_row toy_squad_row))))) as Hwf.
  { intros id sr Hsr. destruct (toy_catalog_only _ id sr Hsr) as [-> ->].
    exists toy_squad_row. split; [apply toy_row_back|].
    apply (prepared_wf (mkUpsert "s1" "Chess club" None (u_channels toy_upsert) None None (Some "public")
      (Some ["chess"; "games"]) (Some 7) (Some 7)) 0). vm_compute. reflexivity. }
  split; [exact Hwf|]. exact (proj2 (catalog_typed _ Hwf) "s1").
Defined.

Lemma upsert_lands_witness :
  lwp (upsert_squad toy_upsert) (toy_obs (toy_catalog (squad_sql_row toy_squad_row)))
    (λ row o', s_id row = "s1" ∧ squads (o_db o') !! "s1" = Some (squad_sql_row row)).
Proof.
  eapply lwp_mono.
  - refine (upsert_lands toy_upsert _ (toy_can_write _) _ _ _ _).
    + repeat constructor; simpl; lia.
    + vm_compute. lia.
    + intros ts. vm_compute. reflexivity.
    + intros sr Hsr. destruct (toy_catalog_only _ _ _ Hsr) as [_ ->].
      change (is_okb (row_from_query "s1" (squad_sql_row toy_squad_row)) = true). by rewrite toy_row_back.
  - intros row o' (_ & Hid & Hsq & _). assert (s_id row = "s1") as Hs1 by exact Hid.
    split; [exact Hs1|]. rewrite Hsq, Hs1. apply lookup_insert_eq.
Defined.

Lemma delete_traceless_witness :
  lwp (delete_squad " s1 ") (toy_obs (toy_catalog (squad_sql_row toy_squad_row)))
    (λ _ o', squads (o_db o') = ∅).
Proof.
  eapply lwp_mono.
  - refine (delete_traceless " s1 " _ (toy_can_write _) _ _); [vm_compute; discriminate|].
    intros sr Hsr. destruct (toy_catalog_only _ _ _ Hsr) as [_ ->].
      change (is_okb (row_from_query "s1" (squad_sql_row toy_squad_row)) = true). by rewrite toy_row_back.
  - intros u o' [Hsq _]. rewrite Hsq. vm_compute. reflexivity.
Defined.

Definition toy_broken : SquadSqlRow := mkSquadRow "Chess club" None "squad" "private" None None "" 7 7.

Lemma malformed_squad_stuck_witness :
  dwp (delete_squad "s1") (toy_obs (toy_catalog toy_broken)) (λ r o',
    is_okb r = false ∧ o' = toy_obs (toy_catalog toy_broken)).
Proof.
  refine (proj1 (malformed_squad_stuck "s1" toy_broken _ _ _ _ _ _)).
  - vm_compute. reflexivity.
  - discriminate.
  - vm_compute. reflexivity.
  - vm_compute. reflexivity.
Defined.
