(* ===== verification/AccessTheorems.v ===== *)
(** * The properties of access control

    Whatever fails, nothing is granted that the chain did not grant to the account's
    own roster address, a war-game payload is believed only if the registry confirms
    it, and without failures the decision is the table's. *)

From S2P Require Import Prelude World Json Schema Records EvmRead EvmFacts AccessControl.
From S2P Require Import Toy.

(** ** The snapshot *)

#[export] Instance capability_as_str_inj : Inj (=) (=) capability_as_str.
Proof. intros [] [] H; first [reflexivity|discriminate H]. Qed.

Lemma CAPABILITY_KEYS_all c : c ∈ CAPABILITY_KEYS.
Proof. apply (bool_decide_unpack _). by destruct c. Qed.

Lemma foldl_insert_lookup {A B} (key : A → string) `{!Inj (=) (=) key} (f : A → B) l (m : gmap string B) a :
  a ∈ l → foldl (λ m x, <[key x := f x]> m) m l !! key a = Some (f a).
Proof.
  assert (∀ l (m : gmap string B), m !! key a = Some (f a) → foldl (λ m x, <[key x := f x]> m) m l !! key a = Some (f a))
    as Hkeep.
  { clear l m. induction l as [|x l IH]; intros m Hm; simpl; [done|]. apply IH.
    destruct (decide (key x = key a)) as [Heq|Hne].
    - rewrite Heq. apply (inj key) in Heq as ->. by rewrite lookup_insert_eq.
    - by rewrite lookup_insert_ne. }
  revert m. induction l as [|x l IH]; intros m; [set_solver|]. simpl.
  intros [->|Hl]%elem_of_cons; [|by apply IH]. apply Hkeep. by rewrite lookup_insert_eq.
Qed.

Lemma snapshot_flag pid ctx full paused c :
  sc_capabilities (build_snapshot pid ctx full paused) !! capability_as_str c = Some (flag_of ctx c).
Proof. apply (foldl_insert_lookup capability_as_str), CAPABILITY_KEYS_all. Qed.

Lemma deny_reason_text c ctx : deny_reason c ctx ≠ "".
Proof.
  unfold deny_reason, captain_reason. case_decide; destruct c; try done; by case_match.
Qed.

(** The safe's hat is shown but never grants. *)
Lemma capability_safe_irrelevant c roster captain crew safe safe' :
  capability_allowed c (mkHats roster captain crew safe) =
  capability_allowed c (mkHats roster captain crew safe').
Proof. done. Qed.

Section access.
Context `{SerdeText, Rusqlite, Alloy, Contracts, ProcessEnv}.
Implicit Types (o : World.Obs Db Effect) (d : Db).

(** What [require_capability] does with a snapshot. *)
Definition decide_capability (c : GovCapability) (ctx : HatContext) : result unit :=
  if capability_allowed c ctx then Ok tt
  else Err (wallet_err_json "ACL_DENIED" (deny_reason c ctx) None).

Lemma flag_decides pid ctx full paused c :
  let flag := sc_capabilities (build_snapshot pid ctx full paused) !! capability_as_str c in
  (if default false (fl_allowed <$> flag) then World.mret tt
   else mthrow (wallet_err_json "ACL_DENIED"
     (default "Access denied" (f ← flag; if decide (fl_reason f = "") then None else Some (fl_reason f)))
     None)) = (of_result (decide_capability c ctx) : Act unit).
Proof.
  cbv zeta. rewrite snapshot_flag. unfold decide_capability.
  destruct (capability_allowed c ctx) eqn:Ha.
  - unfold flag_of. by rewrite Ha.
  - replace (flag_of ctx c) with (mkFlag false (deny_reason c ctx)) by (unfold flag_of; by rewrite Ha).
    change (mthrow (wallet_err_json "ACL_DENIED" (default "Access denied"
      (if decide (deny_reason c ctx = "") then None else Some (deny_reason c ctx))) None) =
      (of_result (Err (wallet_err_json "ACL_DENIED" (deny_reason c ctx) None)) : Act unit)).
    by rewrite decide_False by apply deny_reason_text.
Qed.

(** ** Who is asked *)

(** The account as the roster query names it. *)
Definition roster_member (account : string) : string := default account (trimmed_opt (Some account)).

(** The account's roster address on [pid]: the bound EVM account, by its row. *)
Definition bound_roster d (pid : string) (roster : Z) : Prop :=
  ∃ account binding row, st_account d = Some account ∧
    dv_member_evm_account (db_device d) !! (pid, roster_member account) = Some binding ∧
    blank (ma_evm_account_id binding) = false ∧
    evm_accounts d !! ma_evm_account_id binding = Some row ∧
    parse_address (ea_address row) = Ok roster.

Lemma parse_address_trim s : parse_address (trim s) = parse_address s.
Proof. unfold parse_address. by rewrite trim_idemp. Qed.

Lemma reads_account o : reads get_current_account o (λ m, st_account (o_db o) = Some m).
Proof. apply reads_query_row. intros m Hm. by apply ok_or_ok in Hm. Qed.

Lemma reads_map_err {A} f (m : Act A) o P : reads m o P → reads (map_err_m f m) o P.
Proof.
  intros Hm. eapply reads_bind; [by apply reads_attempt|]. intros r HP.
  apply reads_of_result. intros a Ha%map_err_with_ok. by apply HP.
Qed.

Lemma reads_connection {A} (k : unit → Act A) o P :
  reads (k tt) o P → reads (World.mbind get_db_connection k) o P.
Proof. intros Hk. apply reads_skip; [quiet_tac|]. by intros []. Qed.

Lemma reads_binding pid account o :
  trim pid = pid → st_account (o_db o) = Some account →
  reads (get_squad_member_evm_account_id pid (Some account)) o (λ id, ∀ a, id = Some a →
    ∃ binding, dv_member_evm_account (db_device (o_db o)) !! (pid, roster_member account) =
      Some binding ∧ blank a = false ∧ ma_evm_account_id binding = a).
Proof.
  intros Hp Ha. unfold get_squad_member_evm_account_id. rewrite Hp.
  apply (reads_bind _ _ _ (λ m, m = roster_member account)).
  { unfold roster_member. destruct (trimmed_opt (Some account)); [by apply reads_ret|].
    eapply reads_mono; [apply reads_account|]. simpl. congruence. }
  intros m ->. case_decide; [by apply reads_ret|]. apply reads_connection.
  eapply reads_bind; [by apply (reads_query o _ _ (λ id,
    id = ma_evm_account_id <$> dv_member_evm_account (db_device (o_db o)) !! (pid, roster_member account)))|].
  intros id ->. apply reads_ret. intros a Hid. destruct (_ !! _) as [b|]; [|done].
  simpl in Hid. exists b. split; [done|]. by destruct (blank _) eqn:?; simplify_eq.
Qed.

Lemma reads_roster pid o : trim pid = pid →
  reads (resolve_acl_roster_address pid) o (λ roster, bound_roster (o_db o) pid roster ∧ address_ok roster).
Proof.
  intros Hp. unfold resolve_acl_roster_address. rewrite Hp. case_decide; [apply reads_throw|].
  eapply reads_bind; [apply reads_map_err, reads_account|]. intros account Ha. simpl in Ha.
  eapply reads_bind; [by apply reads_binding|]. intros [id|] Hid; [|apply reads_throw].
  destruct (Hid id eq_refl) as (b & Hb & Hbl & <-). apply reads_connection.
  eapply reads_bind; [by apply (reads_query o _ _ (λ a,
    a = ea_address <$> evm_accounts (o_db o) !! ma_evm_account_id b))|]. intros a ->.
  destruct (evm_accounts (o_db o) !! ma_evm_account_id b) as [row|] eqn:Hrow; [|apply reads_throw].
  simpl. destruct (normalize_hex_address (trim (ea_address row))) as [t|] eqn:Ht; [|apply reads_throw].
  apply normalize_parses in Ht as (addr & Hx & Hok & _ & Hy). rewrite parse_address_trim in Hx.
  apply reads_of_result. intros roster Hr%map_err_with_ok.
  assert (roster = addr) as -> by congruence. split; [|done]. by exists account, b, row.
Qed.

(** ** What is asked of the chain *)

(** The squad's governance row for a stack: the first by creation. *)
Definition governance_row d (pid : string) (stack : GovStack) : option (string * InfraSqlRow) :=
  find_first (λ x, bool_decide (in_infra_type x.2 = infra_type stack))
    (order_by_ms infra_created_key (filter (λ x, in_parent_id x.2 = pid) (map_to_list (infra d)))).

Lemma governance_row_spec d pid stack id r : governance_row d pid stack = Some (id, r) →
  infra d !! id = Some r ∧ in_parent_id r = pid ∧ in_infra_type r = infra_type stack.
Proof.
  intros [Hin Ht%bool_decide_eq_true]%find_first_Some.
  apply order_by_ms_elem, list_elem_of_filter in Hin as [Hp Hin].
  by apply elem_of_map_to_list in Hin.
Qed.

Definition row_network (r : InfraSqlRow) : string := to_ascii_lowercase (trim (in_chain r)).

Definition registry_of (stack : GovStack) (addrs : PactoGovDeployAddresses) : option Z :=
  match stack with
  | Live => ad_nave_pirata_registry addrs
  | WarGame => ad_war_game_registry addrs
  end.

(** Where the stack of a squad is read: the hats contract, the registry and the
    network, by the squad's row and the address book; and the top hat. *)
Definition governed d (pid : string) (stack : GovStack) (hats registry top_hat : Z)
    (net : GovReadNetwork) : Prop :=
  ∃ id r addrs, governance_row d pid stack = Some (id, r) ∧
    parse_top_hat_id (trim (in_canonical_ref r)) = Ok top_hat ∧
    pacto_gov_deploy_addresses (row_network r) = Ok addrs ∧ ad_hats addrs = Some hats ∧
    registry_of stack addrs = Some registry ∧ network_by_key (row_network r) = Some net.

Definition chain_of (network : string) (hats : Z) (dep : Deployment) : SquadAclChain :=
  mkAclChain network hats (dp_safe dep) (dp_captainHatId dep) (dp_crewHatId dep)
    (if dp_squadAdminProxy dep =? 0 then None else Some (dp_squadAdminProxy dep)).

Lemma reads_gov_row pid stack o :
  reads (load_gov_infra_row pid stack) o (λ x, ∃ id r,
    governance_row (o_db o) (trim pid) stack = Some (id, r) ∧
    x = (row_network r, trim (in_canonical_ref r))).
Proof.
  unfold load_gov_infra_row. eapply reads_bind.
  { unfold list_squad_infra. instantiate (1 := λ rows, rows = [] ∨ rows = order_by_ms infra_created_key
      (filter (λ x, in_parent_id x.2 = trim pid) (map_to_list (infra (o_db o))))).
    case_decide; [by apply reads_ret; left|]. apply reads_connection.
    apply reads_skip; [quiet_tac|]. intros _. apply reads_query. by right. }
  intros rows Hrows. eapply reads_bind; [by apply reads_of_result, ok_or_ok|].
  intros [id r] Hf. destruct (_ || _); [apply reads_throw|]. apply reads_ret. exists id, r.
  split; [|done]. destruct Hrows as [->| ->]; [done|exact Hf].
Qed.

Lemma network_key k net : network_by_key k = Some net → network_by_key (nw_key net) = Some net.
Proof.
  unfold network_by_key. intros [Hin _]%find_first_Some. revert Hin.
  change (omap (λ k, mkNetwork k <$> chain_id_for_key k) NETWORK_KEYS) with
    [mkNetwork "mainnet" 1; mkNetwork "arbitrum" 42161; mkNetwork "sepolia" 11155111;
     mkNetwork "local" 31337].
  rewrite !elem_of_cons, elem_of_nil. naive_solver.
Qed.

Lemma reads_connect network o : reads (connect_gov_read_provider network) o (λ net,
  network_by_key network = Some net).
Proof.
  unfold connect_gov_read_provider. destruct (network_by_key network); [|apply reads_throw].
  by apply reads_query.
Qed.

Lemma reads_configured code what addr o :
  reads (configured code what addr) o (λ a, addr = Some a).
Proof. by apply reads_of_result, ok_or_ok. Qed.

Section laws.
Context `{!AlloyLaws, !ContractsLaws}.

Lemma parsed_decimal n : 0 ≤ n < 2 ^ 256 → from_str_radix (trim (pretty n)) 10 = Ok n.
Proof. intros Hn. rewrite trim_pretty by lia. by apply from_str_radix_decimal. Qed.

(** The chain context is the deployment's, read back from its DTO. *)
Lemma chain_of_dto o network hats chain id th dep P : deployment_ok dep →
  P (chain_of network hats dep) →
  reads (let! safe := of_result (map_err_with (λ e, wallet_err_json "ACL_SAFE" e None)
           (parse_address (dd_safe (dto_of chain id th dep)))) in
         let! captain_hat_id := parsed_hat_id (dd_captain_hat_id (dto_of chain id th dep)) in
         let! crew_hat_id := parsed_hat_id (dd_crew_hat_id (dto_of chain id th dep)) in
         let squad_admin := res_ok (parse_address (dd_squad_admin_proxy (dto_of chain id th dep))) in
         World.mret (mkAclChain network hats safe captain_hat_id crew_hat_id
           (a ← squad_admin; if a =? 0 then None else Some a))) o P.
Proof.
  intros (Hs & _ & _ & _ & Ha & Hc & Hw) HP. unfold dto_of, parsed_hat_id.
  cbn [dd_safe dd_captain_hat_id dd_crew_hat_id dd_squad_admin_proxy].
  rewrite (parse_address_hex _ Hs), (parse_address_hex _ Ha), (parsed_decimal _ Hc), (parsed_decimal _ Hw).
  by apply reads_ret.
Qed.

Lemma reads_chain pid stack o : trim pid = pid →
  reads (load_chain_context pid stack) o (λ c, ∃ hats registry th net view,
    governed (o_db o) pid stack hats registry th net ∧
    network_by_key (ac_network c) = Some net ∧
    dp_safe (deployment (nw_key net) view registry th) ≠ 0 ∧
    c = chain_of (ac_network c) hats (deployment (nw_key net) view registry th)).
Proof.
  intros Hp. unfold load_chain_context. eapply reads_bind; [by apply reads_gov_row|].
  intros _ (id & r & Hrow & ->). rewrite Hp in Hrow. simpl fst. simpl snd.
  eapply reads_bind; [by apply reads_of_result, map_err_with_ok|]. intros th Hth. simpl in Hth.
  eapply reads_bind; [by apply reads_of_result, map_err_with_ok|]. intros addrs Haddrs. simpl in Haddrs.
  eapply reads_bind; [apply reads_configured|]. intros hats Hhats.
  eapply (reads_bind _ _ _ (λ a, registry_of stack addrs = Some a)); [destruct stack; apply reads_configured|].
  intros registry Hreg. eapply reads_bind; [apply reads_connect|]. intros net Hnet. simpl in Hnet.
  eapply reads_bind.
  { unfold read_nave_pirata_deployment. eapply reads_bind; [by apply (reads_eth_call o _ _ (λ dep,
      ∃ view, dep = deployment (nw_key net) view registry th)); eexists|].
    intros dep [view ->]. apply reads_of_result. intros dto Hdto.
    exact (ex_intro (λ v, deployment_to_dto (nw_key net) (nw_chain_id net) th
      (deployment (nw_key net) v registry th) = Ok dto) view Hdto). }
  intros dto [view Hdto]. unfold deployment_to_dto in Hdto.
  destruct (Z.eqb_spec (dp_safe (deployment (nw_key net) view registry th)) 0) as [|Hs]; [done|].
  injection Hdto as <-. apply chain_of_dto; [apply deployment_words|].
  exists hats, registry, th, net, view. split; [|done]. by exists id, r, addrs.
Qed.
(** ** War games *)

(** The squad's stored payload names [to] as a module of an active war game. *)
Definition payload_claims d (pid : string) (to : Z) : Prop :=
  ∃ id r payload ctx, infra d !! id = Some r ∧ in_parent_id r = pid ∧
    in_infra_type r = "pacto_gov_wargame" ∧ in_provider_payload r = Some payload ∧
    parse_war_game_userop_context payload = Some ctx ∧ targets ctx to = true.

(** The registry the squad's war-game row leads to lists [to] in the squad's active
    round. *)
Definition registry_confirms d (pid : string) (to : Z) : Prop :=
  ∃ id r addrs registry net v1 v2, governance_row d pid WarGame = Some (id, r) ∧
    pacto_gov_deploy_addresses (row_network r) = Ok addrs ∧
    ad_war_game_registry addrs = Some registry ∧ network_by_key (row_network r) = Some net ∧
    activeTopHatId (nw_key net) v1 registry (keccak256 pid) ≠ 0 ∧
    dp_safe (active (nw_key net) v2 registry (keccak256 pid)) ≠ 0 ∧
    to ∈ modules (active (nw_key net) v2 registry (keccak256 pid)).

Lemma reads_payload pid o :
  reads (pacto_gov_wargame_payload_for_parent pid) o (λ p, ∀ payload, p = Some payload →
    ∃ id r, infra (o_db o) !! id = Some r ∧ in_parent_id r = trim pid ∧
      in_infra_type r = "pacto_gov_wargame" ∧ in_provider_payload r = Some payload).
Proof.
  unfold pacto_gov_wargame_payload_for_parent. case_decide; [by apply reads_ret|].
  apply reads_connection. eapply reads_bind; [by apply reads_query_row; intros a Ha; exact Ha|].
  intros row Hrow. apply reads_ret. intros payload Hp.
  destruct row as [s|]; [|done]. simpl in Hp. destruct (blank s); [done|]. injection Hp as ->.
  destruct (head _) as [[id r]|] eqn:Hh; [|done]. destruct (in_provider_payload r) as [p|] eqn:Hpay; [|done].
  injection Hrow as ->. exists id, r.
  apply head_Some_elem_of, order_by_ms_desc_elem, list_elem_of_filter in Hh as [[Hpid Ht] Hin].
  by apply elem_of_map_to_list in Hin.
Qed.

Lemma reads_active net registry sid to o :
  reads (read_war_game_active_deployment net registry sid) o (λ on_chain,
    match on_chain with Some d => deployment_mentions_module d to | None => false end = true →
    ∃ v1 v2, activeTopHatId (nw_key net) v1 registry sid ≠ 0 ∧
      dp_safe (active (nw_key net) v2 registry sid) ≠ 0 ∧
      to ∈ modules (active (nw_key net) v2 registry sid)).
Proof.
  unfold read_war_game_active_deployment. eapply reads_bind; [by apply (reads_eth_call o _ _ (λ t,
    ∃ v, t = activeTopHatId (nw_key net) v registry sid)); eexists|].
  intros _ [v1 ->]. destruct (Z.eqb_spec (activeTopHatId (nw_key net) v1 registry sid) 0) as [|Hth];
    [by apply reads_ret|].
  eapply reads_bind; [by apply (reads_eth_call o _ _ (λ dep,
    ∃ v, dep = active (nw_key net) v registry sid)); eexists|].
  intros _ [v2 ->]. apply reads_ret. unfold war_game_deployment_to_dto.
  destruct (Z.eqb_spec (dp_safe (active (nw_key net) v2 registry sid)) 0) as [|Hs]; [done|].
  rewrite mentions_module by apply active_words. intros Hin%bool_decide_eq_true. by exists v1, v2.
Qed.

(** A poisoned payload cannot steer a write. Whatever fails, asking for the stack
    of a target changes nothing, and the answer is the war game only when the squad's
    stored payload names the target as a module of an active round and the war-game
    registry on chain lists it in the squad's active deployment; so without either
    the answer is the production stack or an error. *)
Theorem wargame_corroborated pid to o :
  dwp (for_wargame_target_corroborated pid to) o (λ r o', o' = o ∧ (r = Ok WarGame →
    payload_claims (o_db o) (trim pid) to ∧ registry_confirms (o_db o) (trim pid) to)).
Proof.
  assert (reads (for_wargame_target_corroborated pid to) o (λ s, s = WarGame →
    payload_claims (o_db o) (trim pid) to ∧ registry_confirms (o_db o) (trim pid) to)) as Hr.
  2: { eapply dwp_mono; [exact Hr|]. intros r o' [-> Hp]. split; [done|]. intros Hw. exact (Hp WarGame Hw eq_refl). }
  unfold for_wargame_target_corroborated. eapply reads_bind; [apply reads_attempt, reads_payload|].
  intros [[payload|]|e] Hpay; [|by apply reads_ret..]. simpl.
  destruct (parse_war_game_userop_context payload) as [ctx|] eqn:Hctx; [|by apply reads_ret].
  destruct (targets ctx to) eqn:Hto; [|by apply reads_ret]. simpl negb. cbn iota.
  eapply reads_bind; [apply reads_gov_row|]. intros _ (id & r & Hrow & ->). simpl fst.
  eapply reads_bind; [by apply reads_of_result, map_err_with_ok|]. intros addrs Haddrs. simpl in Haddrs.
  eapply reads_bind; [apply reads_configured|]. intros registry Hreg.
  eapply reads_bind; [apply reads_connect|]. intros net Hnet. simpl in Hnet.
  eapply reads_bind; [apply (reads_active net registry _ to)|]. intros on_chain Hon. apply reads_ret.
  cbv beta in Hon. intros Hs.
  assert (match on_chain with Some dto => deployment_mentions_module dto to | None => false end = true)
    as Hm by (by destruct (match on_chain with Some _ => _ | None => _ end)).
  destruct (Hon Hm) as (v1 & v2 & Hv). split.
  - destruct (Hpay (Some payload) eq_refl payload eq_refl) as (pid' & pr & ?). 
    exists pid', pr, payload, ctx. naive_solver.
  - exists id, r, addrs, registry, net, v1, v2. naive_solver.
Qed.

(** ** What a snapshot rests on *)

(** [ctx] is what the chain said of the account's roster address on the squad: the
    captain's and the crew's hats of the squad's own deployment, each at a view. *)
Definition hats_on_chain d (pid : string) (stack : GovStack) (ctx : HatContext) : Prop :=
  ∃ roster hats registry th net view v1 v2 v3,
    let dep := deployment (nw_key net) view registry th in
    bound_roster d pid roster ∧ governed d pid stack hats registry th net ∧ dp_safe dep ≠ 0 ∧
    ctx = mkHats (address_hex roster)
            (isWearerOfHat (nw_key net) v1 hats roster (dp_captainHatId dep))
            (isWearerOfHat (nw_key net) v2 hats roster (dp_crewHatId dep))
            (isWearerOfHat (nw_key net) v3 hats (dp_safe dep) (dp_captainHatId dep)).

Lemma reads_is_wearer net hats user hat o :
  reads (is_wearer net hats user hat) o (λ b, ∃ v, b = isWearerOfHat (nw_key net) v hats user hat).
Proof. apply reads_eth_call. by eexists. Qed.

Lemma read_flag_quiet f : quiet (read_flag f).
Proof. unfold read_flag. quiet_tac. Qed.

Lemma reads_evaluate pid stack o :
  reads (evaluate_squad_capabilities pid stack) o (λ snap, ∃ ctx full paused,
    snap = build_snapshot (trim pid) ctx full paused ∧
    (ctx = HatContext_default ∨ hats_on_chain (o_db o) (trim pid) stack ctx)).
Proof.
  unfold evaluate_squad_capabilities. case_decide; [apply reads_throw|].
  eapply reads_bind; [by apply reads_attempt, reads_roster, trim_idemp|].
  intros [roster|e] Hr; [|apply reads_ret; by eexists _, false, false; split; [|left]].
  destruct (Hr roster eq_refl) as [Hb _].
  eapply reads_bind; [by apply reads_chain, trim_idemp|].
  intros c (hats & registry & th & net & view & Hg & Hn & Hs & Hc).
  eapply reads_bind; [apply reads_connect|]. intros net' Hn'. simpl in Hn'.
  assert (net' = net) as -> by congruence.
  rewrite Hc. cbn [ac_hats ac_captain_hat_id ac_crew_hat_id ac_safe ac_squad_admin chain_of].
  eapply reads_bind; [apply reads_is_wearer|]. intros _ [v1 ->].
  eapply reads_bind; [apply reads_is_wearer|]. intros _ [v2 ->].
  eapply reads_bind; [apply reads_is_wearer|]. intros _ [v3 ->].
  apply reads_skip.
  { destruct (_ =? 0); [apply quiet_ret|]. apply quiet_bind; [apply read_flag_quiet|intros ?].
    apply quiet_bind; [apply read_flag_quiet|intros ?; apply quiet_ret]. }
  intros [full paused]. apply reads_ret. eexists _, full, paused. split; [done|]. right.
  by exists roster, hats, registry, th, net, view, v1, v2, v3.
Qed.

Lemma default_denies c : capability_allowed c HatContext_default = false.
Proof. done. Qed.

(** C10. Access control is sound, whatever fails. [require_capability] changes nothing
    and lets a write pass only when the account is bound to a roster address on the
    squad, the squad's governance row names a deployment of its registry, and the
    chain said of that very address what the capability asks for. A snapshot has a
    flag for every capability, allowed on the same grounds only, and a denied one
    gives its reason. *)
Theorem access_sound pid c stack o :
  dwp (require_capability pid c stack) o (λ r o', o' = o ∧ (r = Ok tt →
    ∃ ctx, hats_on_chain (o_db o) (trim pid) stack ctx ∧ capability_allowed c ctx = true)) ∧
  dwp (evaluate_squad_capabilities pid stack) o (λ r o', o' = o ∧ ∀ snap, r = Ok snap →
    ∀ c', ∃ flag, sc_capabilities snap !! capability_as_str c' = Some flag ∧
      (fl_allowed flag = true ↔ fl_reason flag = "") ∧
      (fl_allowed flag = true → ∃ ctx,
         hats_on_chain (o_db o) (trim pid) stack ctx ∧ capability_allowed c' ctx = true)).
Proof.
  split.
  - assert (reads (require_capability pid c stack) o (λ _, ∃ ctx,
      hats_on_chain (o_db o) (trim pid) stack ctx ∧ capability_allowed c ctx = true)) as Hr;
      [|eapply dwp_mono; [exact Hr|]; intros r o' [-> Hp]; split; [done|exact (Hp tt)]].
    eapply reads_bind; [apply reads_evaluate|].
    intros _ (ctx & full & paused & -> & Hctx). rewrite trim_idemp in Hctx.
    rewrite trim_idemp, flag_decides. apply reads_of_result. intros [] Hd. exists ctx.
    unfold decide_capability in Hd. destruct (capability_allowed c ctx) eqn:Ha; [|done].
    split; [|done]. destruct Hctx as [->|?]; [done|done].
  - eapply reads_mono; [apply reads_evaluate|]. intros _ (ctx & full & paused & -> & Hctx) c'.
    exists (flag_of ctx c'). split; [apply snapshot_flag|]. unfold flag_of. simpl.
    destruct (capability_allowed c' ctx) eqn:Ha.
    + split; [done|]. intros _. exists ctx. split; [|done]. destruct Hctx as [->|?]; [done|done].
    + split; [|done]. split; [done|]. intros Hd. by destruct (deny_reason_text c' ctx).
Qed.

(** ** Without failures, the table decides *)

(** A fault-free reader with a known answer. *)
Lemma lwp_gives {A B} (m : Act A) (k : A → Act B) o (P : A → Prop) (Q : B → _ → Prop) :
  lwp m o (λ a o', o' = o ∧ P a) → (∀ a, P a → lwp (k a) o Q) → lwp (World.mbind m k) o Q.
Proof. intros Hm Hk. apply lwp_bind. eapply lwp_mono; [exact Hm|]. intros a o' [-> HP]. by apply Hk. Qed.

Lemma lwp_ok {A B} (r : result A) (k : A → Act B) o (Q : B → _ → Prop) a :
  r = Ok a → lwp (k a) o Q → lwp (World.mbind (of_result r) k) o Q.
Proof. intros -> HQ. apply lwp_bind. by eapply lwp_of_result. Qed.

Lemma lwp_conn {B} (k : unit → Act B) o (Q : B → _ → Prop) :
  is_Some (st_account (o_db o)) → lwp (k tt) o Q → lwp (World.mbind get_db_connection k) o Q.
Proof. intros Ha Hk. apply lwp_bind. by apply lwp_connection. Qed.

Lemma lwp_roster pid roster o : trim pid = pid → pid ≠ "" → bound_roster (o_db o) pid roster →
  lwp (resolve_acl_roster_address pid) o (λ a o', o' = o ∧ a = roster).
Proof.
  intros Hp Hne (account & b & row & Hacc & Hb & Hbl & Hrow & Haddr).
  assert (is_Some (st_account (o_db o))) as Hsome by (by eexists).
  assert (lwp get_current_account o (λ m o', o' = o ∧ m = account)) as Haccount.
  { unfold get_current_account. eapply lwp_query_row; [by rewrite Hacc|done]. }
  unfold resolve_acl_roster_address. rewrite Hp, decide_False by done.
  apply (lwp_gives _ _ _ (λ m, m = account)).
  { unfold map_err_m. lstep. apply lwp_attempt. eapply lwp_mono; [exact Haccount|].
    intros _ _ [-> ->]. by eapply lwp_of_result. }
  intros _ ->. apply (lwp_gives _ _ _ (λ id, id = Some (ma_evm_account_id b))).
  { unfold get_squad_member_evm_account_id. apply (lwp_gives _ _ _ (λ m, m = roster_member account)).
    { unfold roster_member. destruct (trimmed_opt (Some account)); [by lstep|exact Haccount]. }
    intros _ ->. rewrite Hp, decide_False by done. apply lwp_conn; [done|]. apply lwp_bind, lwp_query.
    rewrite Hb. apply lwp_ret. split; [done|].
    simpl. by rewrite Hbl. }
  intros _ ->. apply lwp_conn; [done|]. apply lwp_bind, lwp_query. rewrite Hrow.
  cbn [fmap option_fmap option_map base.mbind option_bind].
  pose proof (parse_address_spec _ _ Haddr) as [Hok Hn].
  assert (normalize_hex_address (trim (ea_address row)) = Some (address_hex roster)) as ->
    by (unfold normalize_hex_address; rewrite trim_idemp; exact Hn).
  rewrite parse_address_hex by done. by eapply lwp_of_result.
Qed.

Lemma lwp_gov_row pid stack o id r : trim pid = pid → pid ≠ "" → is_Some (st_account (o_db o)) →
  governance_row (o_db o) pid stack = Some (id, r) →
  row_network r ≠ "" → trim (in_canonical_ref r) ≠ "" →
  lwp (load_gov_infra_row pid stack) o (λ x o', o' = o ∧ x = (row_network r, trim (in_canonical_ref r))).
Proof.
  intros Hp Hne Hacc Hrow Hn Hr. unfold load_gov_infra_row.
  apply (lwp_gives _ _ _ (λ rows, rows = order_by_ms infra_created_key
      (filter (λ x, in_parent_id x.2 = pid) (map_to_list (infra (o_db o)))))).
  { unfold list_squad_infra. rewrite Hp, decide_False by done. apply lwp_conn; [done|].
    apply lwp_bind, lwp_query. by apply lwp_query. }
  intros _ ->. unfold governance_row in Hrow. rewrite Hrow. apply (lwp_ok _ _ _ _ (id, r)); [done|].
  simpl snd. fold (row_network r). rewrite !bool_decide_eq_false_2 by done. by apply lwp_ret.
Qed.

Lemma network_nonempty k net : network_by_key k = Some net → k ≠ "".
Proof. intros Hk ->. vm_compute in Hk. discriminate. Qed.

Lemma top_hat_nonempty s th : parse_top_hat_id s = Ok th → trim s ≠ "".
Proof. unfold parse_top_hat_id. by case_decide. Qed.

Lemma governed_fun d pid stack h1 r1 t1 n1 h2 r2 t2 n2 :
  governed d pid stack h1 r1 t1 n1 → governed d pid stack h2 r2 t2 n2 →
  h1 = h2 ∧ r1 = r2 ∧ t1 = t2 ∧ n1 = n2.
Proof. intros (?&?&?&?&?&?&?&?&?) (?&?&?&?&?&?&?&?&?). simplify_eq. naive_solver congruence. Qed.

Lemma lwp_configured code what a o : lwp (configured code what (Some a)) o (λ x o', o' = o ∧ x = a).
Proof. by eapply lwp_of_result. Qed.

Lemma lwp_is_wearer net hats user hat o : lwp (is_wearer net hats user hat) o (λ _ o', o' = o ∧ True).
Proof. by apply lwp_eth_call. Qed.

Lemma lwp_chain pid stack o hats registry th net : trim pid = pid → pid ≠ "" →
  is_Some (st_account (o_db o)) → governed (o_db o) pid stack hats registry th net →
  (∀ view, dp_safe (deployment (nw_key net) view registry th) ≠ 0) →
  lwp (load_chain_context pid stack) o (λ c o', o' = o ∧ ∃ view,
    c = chain_of (ac_network c) hats (deployment (nw_key net) view registry th) ∧
    network_by_key (ac_network c) = Some net).
Proof.
  intros Hp Hne Hacc (id & r & addrs & Hrow & Hth & Haddrs & Hhats & Hreg & Hnet) Hsafe.
  unfold load_chain_context. eapply lwp_gives; [eapply lwp_gov_row; try done|].
  { by eapply network_nonempty. }
  { intros Hr. apply top_hat_nonempty in Hth. by rewrite Hr in Hth. }
  intros _ ->. simpl fst. simpl snd. apply (lwp_ok _ _ _ _ th); [by rewrite Hth|].
  apply (lwp_ok _ _ _ _ addrs); [by rewrite Haddrs|]. rewrite Hhats.
  eapply lwp_gives; [apply lwp_configured|]. intros _ ->.
  apply (lwp_gives _ _ _ (λ x, x = registry)).
  { destruct stack; simpl in Hreg; rewrite Hreg; apply lwp_configured. }
  intros _ ->. apply (lwp_gives _ _ _ (λ x, x = net)).
  { unfold connect_gov_read_provider. rewrite Hnet. by apply lwp_query. }
  intros _ ->. apply (lwp_gives _ _ _ (λ x, ∃ view,
    x = dto_of (nw_key net) (nw_chain_id net) th (deployment (nw_key net) view registry th))).
  { unfold read_nave_pirata_deployment. apply lwp_bind, lwp_eth_call. intros view.
    eapply lwp_of_result; [|split; [done|by exists view]].
    unfold deployment_to_dto. by rewrite (proj2 (Z.eqb_neq _ _)) by apply Hsafe. }
  intros _ [view ->]. destruct (deployment_words (nw_key net) view registry th) as
    (Hs & _ & _ & _ & Ha & Hc & Hw). unfold dto_of, parsed_hat_id.
  cbn [dd_safe dd_captain_hat_id dd_crew_hat_id dd_squad_admin_proxy].
  rewrite (parse_address_hex _ Hs), (parse_address_hex _ Ha), (parsed_decimal _ Hc), (parsed_decimal _ Hw).
  do 3 (eapply lwp_ok; [done|]). apply lwp_ret. split; [done|]. by exists view.
Qed.

Lemma lwp_attempt_bind {A B} (m : Act A) (k : A → Act B) o (Q : result B → _ → Prop) :
  lwp m o (λ a o', lwp (attempt (k a)) o' Q) → lwp (attempt (World.mbind m k)) o Q.
Proof.
  intros Hm c. destruct (Hm c) as (a & o' & c' & Hrun & Hk). destruct (Hk c') as (r & o2 & c2 & Hr & HQ).
  exists r, o2, c2. split; [|done]. unfold attempt, World.mbind in *. by rewrite Hrun.
Qed.

Lemma lwp_attempt_result {A} (r : result A) o (Q : result A → _ → Prop) :
  Q r o → lwp (attempt (of_result r : Act A)) o Q.
Proof. intros HQ c. by exists r, o, c. Qed.

Lemma lwp_read_flag f o : lwp (read_flag f) o (λ _ o', o' = o ∧ True).
Proof. unfold read_flag. do 2 lstep. by apply lwp_eth_call; intros view; simpl; lstep. Qed.

Lemma lwp_evaluate pid stack o roster hats registry th net : trim pid = pid → pid ≠ "" →
  bound_roster (o_db o) pid roster → governed (o_db o) pid stack hats registry th net →
  (∀ view, dp_safe (deployment (nw_key net) view registry th) ≠ 0) →
  lwp (evaluate_squad_capabilities pid stack) o (λ snap o', o' = o ∧ ∃ view v1 v2 v3 full paused,
    let dep := deployment (nw_key net) view registry th in
    snap = build_snapshot pid (mkHats (address_hex roster)
      (isWearerOfHat (nw_key net) v1 hats roster (dp_captainHatId dep))
      (isWearerOfHat (nw_key net) v2 hats roster (dp_crewHatId dep))
      (isWearerOfHat (nw_key net) v3 hats (dp_safe dep) (dp_captainHatId dep))) full paused).
Proof.
  intros Hp Hne Hb Hg Hsafe. assert (is_Some (st_account (o_db o))) as Hacc
    by (destruct Hb as (a & _ & _ & Ha & _); by exists a).
  unfold evaluate_squad_capabilities. rewrite Hp, decide_False by done.
  apply (lwp_gives _ _ _ (λ r, r = Ok roster)).
  { apply lwp_attempt. eapply lwp_mono; [by eapply lwp_roster|]. by intros _ _ [-> ->]. }
  intros _ ->. eapply lwp_gives; [by apply lwp_chain|]. intros c (view & -> & Hn).
  cbn [ac_network ac_hats ac_captain_hat_id ac_crew_hat_id ac_safe ac_squad_admin chain_of] in *.
  apply (lwp_gives _ _ _ (λ x, x = net)).
  { unfold connect_gov_read_provider. rewrite Hn. by apply lwp_query. }
  intros _ ->. unfold is_wearer. apply lwp_bind, lwp_eth_call. intros v1.
  apply lwp_bind, lwp_eth_call. intros v2. apply lwp_bind, lwp_eth_call. intros v3.
  apply (lwp_gives _ _ _ (λ _, True)).
  { destruct (_ =? 0); [by apply lwp_ret|]. eapply lwp_gives; [apply lwp_read_flag|]. intros full _.
    eapply lwp_gives; [apply lwp_read_flag|]. intros paused _. by apply lwp_ret. }
  intros [full paused] _. apply lwp_ret. split; [done|]. by exists view, v1, v2, v3, full, paused.
Qed.

(** Without failures the decision is the table's, neither more nor less: for an
    account bound on a squad whose stack is deployed, [require_capability] answers
    exactly what [capability_allowed] says of the hats the chain reports for the
    bound address, and a denial carries the reason of the table. *)
Theorem access_decided pid c stack o roster hats registry th net :
  trim pid ≠ "" → bound_roster (o_db o) (trim pid) roster →
  governed (o_db o) (trim pid) stack hats registry th net →
  (∀ view, dp_safe (deployment (nw_key net) view registry th) ≠ 0) →
  lwp (attempt (require_capability pid c stack)) o (λ r o', o' = o ∧ ∃ view v1 v2 v3,
    let dep := deployment (nw_key net) view registry th in
    let ctx := mkHats (address_hex roster)
      (isWearerOfHat (nw_key net) v1 hats roster (dp_captainHatId dep))
      (isWearerOfHat (nw_key net) v2 hats roster (dp_crewHatId dep))
      (isWearerOfHat (nw_key net) v3 hats (dp_safe dep) (dp_captainHatId dep)) in
    r = if capability_allowed c ctx then Ok tt
        else Err (wallet_err_json "ACL_DENIED" (deny_reason c ctx) None)).
Proof.
  intros Hne Hb Hg Hsafe. unfold require_capability. apply lwp_attempt_bind.
  eapply lwp_mono; [apply (lwp_evaluate (trim pid)); [apply trim_idemp|done..]|].
  intros snap o' (-> & view & v1 & v2 & v3 & full & paused & ->). rewrite flag_decides.
  apply lwp_attempt_result. split; [done|]. by exists view, v1, v2, v3.
Qed.

End laws.
End access.

(** ** The hypotheses hold of an example *)

#[export] Instance toy_alloy : Alloy := {
  from_str_radix s _ := ok_or (parse_unsigned (2 ^ 256 - 1) s) "invalid digit";
  B256_from_str s := parse_unsigned (2 ^ 256 - 1) s;
  keccak256 s := Z.of_nat (String.length s);
}.
#[export] Instance toy_alloy_laws : AlloyLaws.
Proof. intros n Hn. unfold from_str_radix, toy_alloy. by rewrite parse_unsigned_pretty by lia. Qed.

Definition toy_deployment : Deployment := mkDeployment 81 82 83 84 0 11 12 13 14 15 16 0 99.

(** The address 7 wears the crew's hat. *)
#[export] Instance toy_contracts : Contracts := {
  deployment _ _ _ _ := toy_deployment;
  activeTopHatId _ _ _ _ := 3;
  active _ _ _ _ := toy_deployment;
  isWearerOfHat _ _ _ user hat := (user =? 7) && (hat =? 12);
  isExecutorFullPermission _ _ _ _ := false;
  isExecutorPaused _ _ _ _ := false;
}.
#[export] Instance toy_contracts_laws : ContractsLaws.
Proof. split; intros; vm_compute; repeat split; try discriminate; reflexivity. Qed.

#[export] Instance toy_env : ProcessEnv := { env_var _ := None }.

Definition toy_address : string := "0x0000000000000000000000000000000000000007".

(** The squad is deployed on Sepolia and [alice] is bound to that address. *)
Definition toy_governed : Db :=
  set_device (put_member_evm_account (λ _, {[("g", "alice") := mkMemberEvmAccount "acc" 0]}))
    (set_device (put_evm (λ _, mkEvm
       {["i" := mkInfraRow "g" "pacto_gov" "Sepolia" "5" None None 0 0]}
       {["acc" := mkEvmAccount toy_address "squad"]} ∅ ∅ ∅)) toy_squad).

Lemma toy_bound : bound_roster toy_governed (trim "g") 7.
Proof.
  exists "alice", (mkMemberEvmAccount "acc" 0), (mkEvmAccount toy_address "squad").
  repeat split; vm_compute; reflexivity.
Qed.

Definition toy_addrs : PactoGovDeployAddresses :=
  match pacto_gov_deploy_addresses "sepolia" with
  | Ok a => a
  | Err _ => mkAddrs 0 0 0 0 0 0 None None None
  end.

Lemma toy_is_governed : governed toy_governed (trim "g") Live (default 0 (ad_hats toy_addrs))
  (default 0 (ad_nave_pirata_registry toy_addrs)) 5 (mkNetwork "sepolia" 11155111).
Proof.
  exists "i", (mkInfraRow "g" "pacto_gov" "Sepolia" "5" None None 0 0), toy_addrs.
  repeat split; vm_compute; reflexivity.
Qed.

Lemma access_sound_witness :
  dwp (require_capability "g" CrewVote Live) (toy_obs toy_governed) (λ r o', o' = toy_obs toy_governed ∧
    (r = Ok tt → ∃ ctx, hats_on_chain toy_governed (trim "g") Live ctx ∧ capability_allowed CrewVote ctx = true)).
Proof. exact (proj1 (access_sound "g" CrewVote Live (toy_obs toy_governed))). Defined.

Lemma wargame_corroborated_witness :
  dwp (for_wargame_target_corroborated "g" 81) (toy_obs toy_governed) (λ r o', o' = toy_obs toy_governed ∧
    (r = Ok WarGame → payload_claims toy_governed (trim "g") 81 ∧ registry_confirms toy_governed (trim "g") 81)).
Proof. exact (wargame_corroborated "g" 81 (toy_obs toy_governed)). Defined.

(** [alice] may vote as crew. *)
Lemma access_decided_witness :
  lwp (attempt (require_capability "g" CrewVote Live)) (toy_obs toy_governed) (λ r _, r = Ok tt).
Proof.
  eapply lwp_mono;
    [exact (access_decided "g" CrewVote Live (toy_obs toy_governed) 7 _ _ 5 _ ltac:(discriminate)
              toy_bound toy_is_governed ltac:(discriminate))|].
  intros r o' (_ & view & v1 & v2 & v3 & ->). reflexivity.
Defined.
