(* ===== verification/GovReplicaTheorems.v ===== *)
(** * The properties of the governance replica

    Without failing reads the newest block is kept, whatever peers announce; a read
    that fails lets an older block in. *)

From S2P Require Import Prelude World Json Schema Lww Records EvmRead EvmFacts.
From S2P Require Import SquadGovReplica Toy.

Section replica.
Context `{SerdeText}.
Implicit Types (o : World.Obs Db Effect) (k : GovKey).

(** ** Histories of local snapshots and peers' announcements *)

Inductive GovOp : Type :=
| Snapshot (parent_id stack : string) (round : option string) (kind : string) (block_number : Z)
    (tx_hash : option string) (snapshot_json : string)
| Announce (content chat_id : string) (author_npub : option string).

Definition run_op (op : GovOp) : Act unit :=
  match op with
  | Snapshot p s r k b t j => let! _ := attempt (upsert_squad_gov_replica p s r k b t j) in World.mret tt
  | Announce c chat a => maybe_upsert_from_announce c chat a
  end.

(** The row a local snapshot offers at time [t]; announcements offer none. *)
Definition offered (op : GovOp) (t : Z) : option (GovKey * GovReplicaSqlRow) :=
  match op with
  | Snapshot p s r k b tx j =>
      stack ← normalize_stack s;
      kind ← normalize_kind k;
      if decide (trim p = "") then None
      else if snapshot_has_content j then
        Some ((trim p, stack, trim (default "" r), kind), mkGovReplica b (trim (default "" tx)) j t)
      else None
  | Announce _ _ _ => None
  end.

Lemma announce_quiet c chat a : quiet (maybe_upsert_from_announce c chat a).
Proof. unfold maybe_upsert_from_announce. quiet_tac. Qed.

Lemma lwp_member chat author o : is_Some (st_account (o_db o)) →
  lwp (is_author_mls_member_for_chat chat author) o (λ _ o', o' = o).
Proof.
  intros Ha. unfold is_author_mls_member_for_chat. destruct (_ || _); [by lstep|].
  apply lwp_bind, lwp_attempt, lwp_query. cbv beta. destruct (base.mbind _ _); [by apply lwp_ret|].
  apply lwp_bind, lwp_attempt, lwp_connection; [done|]. simpl is_okb. cbv iota.
  unfold chat_db_participants_contain_author. destruct (_ || _); [by apply lwp_ret|].
  apply lwp_bind, lwp_attempt, lwp_query. simpl res_ok. destruct (_ <$> _) as [raw|]; [|by apply lwp_ret].
  by destruct (de_strings raw); apply lwp_ret.
Qed.

Lemma lwp_announce c chat a o : is_Some (st_account (o_db o)) →
  lwp (maybe_upsert_from_announce c chat a) o (λ _ o', o' = o).
Proof.
  intros Ha. unfold maybe_upsert_from_announce.
  destruct (trimmed_opt a) as [author|]; [|by apply lwp_ret].
  destruct (parse_process_announce c) as [p|]; [|by apply lwp_ret].
  destruct (trimmed_opt _) as [parent|]; [|by apply lwp_ret].
  destruct (negb _); [by apply lwp_ret|]. apply lwp_bind.
  eapply lwp_mono; [by apply lwp_member|]. intros _ _ ->. by apply lwp_ret.
Qed.

(** ** One operation, then many *)

Notation offer := (Lww.offer gr_block_number).

Lemma set_gov_replica_id d : set_gov_replica (λ _, gov_replica d) d = d.
Proof. by destruct d as [? ? ? ? ? ? ? ? ? [? ? ? ? ? ? ? ? ? ? [] ?] ? ? ? ?]. Qed.

Definition with_replica (o : World.Obs Db Effect) (m : gmap GovKey GovReplicaSqlRow)
    : World.Obs Db Effect :=
  mkObs (set_gov_replica (λ _, m) (o_db o)) (o_log o).

Lemma with_replica_id o : with_replica o (gov_replica (o_db o)) = o.
Proof. unfold with_replica. rewrite set_gov_replica_id. by destruct o. Qed.

Lemma lwp_upsert_if_newer k r o : 
  lwp (upsert_if_newer (k, r)) o (λ _ o', o' = with_replica o (offer
    (if snapshot_has_content (gr_snapshot_json r) then Some (k, r) else None) (gov_replica (o_db o)))).
Proof.
  unfold upsert_if_newer. simpl. destruct (snapshot_has_content _); simpl;
    [|apply lwp_ret; by rewrite with_replica_id].
  apply lwp_bind, lwp_attempt, lwp_query. simpl.
  destruct (gov_replica (o_db o) !! k) as [p|] eqn:Hk; simpl.
  - destruct (gr_block_number r <? gr_block_number p); simpl.
    + apply lwp_ret. by rewrite insert_id, with_replica_id.
    + apply lwp_bind, lwp_exec_, lwp_ret. done.
  - apply lwp_bind, lwp_exec_, lwp_ret. done.
Qed.

Lemma lwp_op op o : is_Some (st_account (o_db o)) →
  lwp (run_op op) o (λ _ o', ∃ t, o' = with_replica o (offer (offered op t) (gov_replica (o_db o)))).
Proof.
  intros Ha. destruct op as [p s r k b tx j|c chat a]; simpl run_op.
  2: { eapply lwp_mono; [by apply lwp_announce|]. intros _ _ ->. exists 0. by rewrite with_replica_id. }
  assert (∀ e, lwp (attempt (mthrow e : Act bool)) o (λ _ o', o' = o)) as Hthrow by (intros e c; by eexists _, _, _).
  unfold upsert_squad_gov_replica, offered.
  destruct (normalize_stack s) as [stack|]; cbn [base.mbind option_bind];
    [|apply lwp_bind; eapply lwp_mono; [apply Hthrow|]; intros _ _ ->; apply lwp_ret; exists 0; by rewrite with_replica_id].
  destruct (normalize_kind k) as [kind|]; cbn [base.mbind option_bind];
    [|apply lwp_bind; eapply lwp_mono; [apply Hthrow|]; intros _ _ ->; apply lwp_ret; exists 0; by rewrite with_replica_id].
  case_decide; [apply lwp_bind; eapply lwp_mono; [apply Hthrow|]; intros _ _ ->; apply lwp_ret; exists 0; by rewrite with_replica_id|].
  apply lwp_bind, lwp_attempt, lwp_bind. unfold now_ms. apply lwp_bind, lwp_now. intros t.
  apply lwp_ret. apply lwp_bind, lwp_connection; [done|].
  eapply lwp_mono; [apply lwp_upsert_if_newer|]. intros _ _ ->. apply lwp_ret. by eexists.
Qed.

Lemma with_replica_twice o m m' : with_replica (with_replica o m) m' = with_replica o m'.
Proof. done. Qed.

(** What a history offers, in order, and the rows it leaves. *)
Lemma lwp_history ops : ∀ o, is_Some (st_account (o_db o)) →
  lwp (foldM (λ _ op, run_op op) tt ops) o (λ _ o', ∃ ts, length ts = length ops ∧
    o' = with_replica o (foldl (flip offer) (gov_replica (o_db o)) (zip_with offered ops ts))).
Proof.
  induction ops as [|op ops IH]; intros o Ha; simpl.
  - apply lwp_ret. exists []. split; [done|]. by rewrite with_replica_id.
  - apply lwp_bind. eapply lwp_mono; [by apply lwp_op|]. intros [] _ [t ->].
    eapply lwp_mono; [by apply IH|]. intros _ _ (ts & Hl & ->). exists (t :: ts).
    split; [simpl; congruence|]. done.
Qed.

(** C32. The governance replica keeps the newest block. When no call fails, after any
    history of local snapshots and peers' announcements, the row of every squad,
    stack, round and kind is the last of the highest-block snapshots offered for it,
    the row before the history counted first; nothing else changes, and what peers
    announce is not among the offers. *)
Theorem gov_replica_newest ops o : is_Some (st_account (o_db o)) →
  lwp (foldM (λ _ op, run_op op) tt ops) o (λ _ o', ∃ ts, length ts = length ops ∧
    (∃ m, o' = with_replica o m) ∧
    ∀ k, let offers := option_list (gov_replica (o_db o) !! k) ++ offers_for k (zip_with offered ops ts) in
      match gov_replica (o_db o') !! k with
      | Some r => newest gr_block_number offers r
      | None => offers = []
      end).
Proof.
  intros Ha. eapply lwp_mono; [by apply lwp_history|]. intros _ _ (ts & Hl & ->).
  exists ts. split; [done|]. split; [by eexists|]. intros k. cbv zeta.
  change (gov_replica (o_db (with_replica o ?m))) with m. apply history_newest.
Qed.

(** Peers cannot write the replica: an announcement changes nothing, whatever it
    says, whoever sends it and whatever fails. *)
Theorem announce_writes_nothing content chat_id author o :
  dwp (maybe_upsert_from_announce content chat_id author) o (λ r o', o' = o).
Proof. apply announce_quiet. Qed.

(** The order is lost when the database is busy. The read of the stored block
    turns its own failure into "no row": if it fails and the write that follows does
    not, the offered row replaces the stored one, however old its block is. *)
Theorem gov_replica_regress k r o e clock :
  snapshot_has_content (gr_snapshot_json r) = true →
  upsert_if_newer (k, r) (mkWorld o [Some e] clock) =
    (Ok true, mkWorld (with_replica o (<[k := r]> (gov_replica (o_db o)))) [] clock).
Proof. intros Hc. unfold upsert_if_newer. simpl. rewrite Hc. simpl. done. Qed.
End replica.

(** ** Examples *)

Definition toy_snapshot : string := to_text (JObj [("hats", JStr "x")]).
Definition toy_key : GovKey := ("g", "pacto_gov", "", "hats").
Definition toy_block (n : Z) : GovReplicaSqlRow := mkGovReplica n "" toy_snapshot 0.

Lemma gov_replica_newest_witness :
  lwp (foldM (λ _ op, run_op op) tt
        [Snapshot "g" "pacto_gov" None "hats" 10 None toy_snapshot;
         Snapshot "g" "pacto_gov" None "hats" 9 None toy_snapshot]) (toy_obs toy_squad)
    (λ _ o', gr_block_number <$> gov_replica (o_db o') !! toy_key = Some 10).
Proof.
  eapply lwp_mono; [exact (gov_replica_newest _ (toy_obs toy_squad) ltac:(by eexists))|].
  intros _ o' (ts & Hl & _ & Hk). specialize (Hk toy_key).
  destruct ts as [|t1 [|t2 [|]]]; try discriminate Hl.
  replace (offers_for toy_key _) with
    [mkGovReplica 10 "" toy_snapshot t1; mkGovReplica 9 "" toy_snapshot t2] in Hk by (vm_compute; reflexivity).
  change (gov_replica (o_db (toy_obs toy_squad)) !! toy_key) with (@None GovReplicaSqlRow) in Hk.
  destruct (gov_replica (o_db o') !! toy_key) as [x|]; [|discriminate Hk].
  destruct Hk as (l1 & l2 & He & H1 & H2).
  destruct l1 as [|y [|? []]]; simplify_eq/=; [done|].
  apply Forall_inv in H1. simpl in H1. lia.
Defined.

Lemma gov_replica_regress_witness :
  let o := toy_obs (set_gov_replica (λ _, {[toy_key := toy_block 10]}) toy_squad) in
  gr_block_number <$> gov_replica (o_db (w_obs
    (upsert_if_newer (toy_key, toy_block 9) (mkWorld o [Some "busy"] [])).2)) !! toy_key = Some 9.
Proof.
  intros o. rewrite (gov_replica_regress toy_key (toy_block 9) o "busy" []) by (vm_compute; reflexivity).
  vm_compute. reflexivity.
Defined.

(** * The properties of the fee ledgers

    A user operation is booked once and a booking never changes; a listing is the
    newest bookings, with the chain id as it was handed in. *)

(** ** Histories of bookings *)

Inductive Booking : Type :=
| SquadBooking (row : SquadSponsoredFeeUsageInsert)
| GlobalBooking (row : GlobalSponsoredFeeUsageInsert).

(** The callers log a failed booking and go on. *)
Definition book (b : Booking) : Act unit :=
  let! _ := attempt (match b with
                     | SquadBooking row => insert_squad_sponsored_fee_usage row
                     | GlobalBooking row => insert_global_sponsored_fee_usage row
                     end) in
  mret tt.

(** A ledger as the code fills it: ids are made of hashes, one row per hash. *)
Definition ledger_ok (row_id : string → string) (m : gmap string FeeSqlRow) : Prop :=
  map_Forall (λ id r, id = row_id (fe_user_op_hash r) ∧ fe_user_op_hash r ≠ "" ∧
    trim (fe_user_op_hash r) = fe_user_op_hash r ∧ i64_ok (fe_chain_id r)) m ∧
  ∀ id id' r r', m !! id = Some r → m !! id' = Some r' →
    fe_user_op_hash r = fe_user_op_hash r' → id = id'.

Definition ledgers_ok (d : Db) : Prop :=
  ledger_ok sponsored_fee_usage_row_id (squad_fees d) ∧
  ledger_ok global_sponsored_fee_usage_row_id (global_fees d).

(** Only the ledgers moved, no row changed or went, and both stay in form. *)
Definition booked (d d' : Db) : Prop :=
  squad_fees d ⊆ squad_fees d' ∧ global_fees d ⊆ global_fees d' ∧
  (ledgers_ok d → ledgers_ok d') ∧
  d' = set_global_fees (λ _, global_fees d') (set_squad_fees (λ _, squad_fees d') d).

Lemma fees_set_id d : set_global_fees (λ _, global_fees d) (set_squad_fees (λ _, squad_fees d) d) = d.
Proof. by destruct d as [? ? ? ? ? ? ? ? ? [? ? ? ? ? ? ? ? ? ? [] ?] ? ? ? ?]. Qed.

#[export] Instance booked_refl : Reflexive booked.
Proof. intros d. split; [done|]. split; [done|]. split; [done|]. by rewrite fees_set_id. Qed.
#[export] Instance booked_trans : Transitive booked.
Proof.
  intros d d' d'' (H1 & H2 & H3 & H4) (H1' & H2' & H3' & H4').
  split; [by etrans|]. split; [by etrans|]. split; [naive_solver|].
  rewrite H4' at 1. by rewrite H4 at 1.
Qed.

Lemma insert_or_ignore_subseteq id r m : m ⊆ insert_or_ignore id r m.
Proof.
  unfold insert_or_ignore. destruct (bool_decide (is_Some (m !! id))) eqn:Hid; simpl; [done|].
  apply bool_decide_eq_false in Hid. case_match; [done|]. apply insert_subseteq. by apply eq_None_not_Some.
Qed.

Lemma insert_or_ignore_ok row_id r m :
  fe_user_op_hash r ≠ "" → trim (fe_user_op_hash r) = fe_user_op_hash r → i64_ok (fe_chain_id r) →
  ledger_ok row_id m → ledger_ok row_id (insert_or_ignore (row_id (fe_user_op_hash r)) r m).
Proof.
  intros Hne Htr Hch [Hall Huniq]. unfold insert_or_ignore.
  destruct (_ || _) eqn:Hdup; [done|]. apply orb_false_iff in Hdup as [Hid Hhash].
  assert (∀ id x, m !! id = Some x → fe_user_op_hash x ≠ fe_user_op_hash r) as Hfresh.
  { intros id x Hx Heq. apply not_true_iff_false in Hhash. apply Hhash.
    apply existsb_exists. exists (id, x). split; [by apply list_elem_of_In, elem_of_map_to_list|].
    by apply bool_decide_eq_true. }
  split; [by apply map_Forall_insert_2|].
  intros id id' x x' [[<- <-]|[? Hx]]%lookup_insert_Some [[<- <-]|[? Hx']]%lookup_insert_Some Heq;
    [done|by destruct (Hfresh id' x')|by destruct (Hfresh id x)|by eapply Huniq].
Qed.

Lemma booked_squad id r d : id = sponsored_fee_usage_row_id (fe_user_op_hash r) →
  fe_user_op_hash r ≠ "" → trim (fe_user_op_hash r) = fe_user_op_hash r → i64_ok (fe_chain_id r) →
  booked d (set_squad_fees (insert_or_ignore id r) d).
Proof.
  intros -> Hne Htr Hch. split; [apply insert_or_ignore_subseteq|]. split; [done|]. split; [|by destruct d as
    [? ? ? ? ? ? ? ? ? [? ? ? ? ? ? ? ? ? ? [] ?] ? ? ? ?]].
  intros [H1 H2]. split; [|done]. by apply insert_or_ignore_ok.
Qed.

Lemma booked_global id r d : id = global_sponsored_fee_usage_row_id (fe_user_op_hash r) →
  fe_user_op_hash r ≠ "" → trim (fe_user_op_hash r) = fe_user_op_hash r → i64_ok (fe_chain_id r) →
  booked d (set_global_fees (insert_or_ignore id r) d).
Proof.
  intros -> Hne Htr Hch. split; [done|]. split; [apply insert_or_ignore_subseteq|]. split; [|by destruct d as
    [? ? ? ? ? ? ? ? ? [? ? ? ? ? ? ? ? ? ? [] ?] ? ? ? ?]].
  intros [H1 H2]. split; [done|]. by apply insert_or_ignore_ok.
Qed.

Lemma book_keeps b : keeps booked (book b).
Proof.
  destruct b as [row|row]; unfold book, insert_squad_sponsored_fee_usage, insert_global_sponsored_fee_usage,
    with_conn, insert_squad_sponsored_fee_usage_conn, insert_global_sponsored_fee_usage_conn, created_now;
    keeps_tac; first [apply booked_squad|apply booked_global]; simpl; rewrite ?trim_idemp; auto using wrap64_ok.
Qed.

(** Every user operation is booked once, for good. Whatever bookings are made and
    whichever calls fail: no row of either ledger changes or disappears, nothing but
    the ledgers changes, and a ledger keeps its form, with a non-empty trimmed hash in
    every row, the id made of it, and no hash in two rows. *)
Theorem fees_once l o :
  dwp (foldM (λ _ b, book b) tt l) o (λ _ o', booked (o_db o) (o_db o')).
Proof. refine (keeps_foldM booked _ l _ tt o). intros _ b. apply book_keeps. Qed.

(** ** Listing *)

#[export] Instance flip_ms_le_total {A} (key : A → Z * string) : Total (flip (ms_le key)).
Proof. intros a b. destruct (total (ms_le key) a b); [by right|by left]. Qed.
#[export] Instance flip_ms_le_trans {A} (key : A → Z * string) : Transitive (flip (ms_le key)).
Proof. intros a b c Hab Hbc. unfold flip in *. by etrans. Qed.

Lemma newest_first_spec p limit (m : gmap string FeeSqlRow) :
  let l := newest_first p limit m in
  (length l ≤ Z.to_nat limit)%nat ∧ StronglySorted (flip (ms_le fee_key)) l ∧
  (∀ x, x ∈ l → m !! x.1 = Some x.2 ∧ p x = true) ∧
  (∀ x, m !! x.1 = Some x.2 → p x = true → x ∈ l ∨
     length l = Z.to_nat limit ∧ Forall (λ y, ms_le fee_key x y) l).
Proof.
  intros l. set (s := order_by_ms_desc fee_key (filter (λ x, p x = true) (map_to_list m))).
  assert (StronglySorted (flip (ms_le fee_key)) s) as Hs by (apply StronglySorted_merge_sort; apply _).
  assert (∀ x, x ∈ s ↔ m !! x.1 = Some x.2 ∧ p x = true) as Hin.
  { intros [id r]. unfold s. rewrite order_by_ms_desc_elem, list_elem_of_filter, elem_of_map_to_list. naive_solver. }
  pose proof (take_drop (Z.to_nat limit) s) as Htd. change (take (Z.to_nat limit) s) with l in Htd. rewrite <- Htd in Hs.
  apply StronglySorted_app in Hs as (Hcross & Hsl & _).
  split; [unfold l, newest_first; rewrite length_take; lia|]. split; [done|]. split.
  { intros x Hx. apply Hin. rewrite <- Htd. apply elem_of_app. by left. }
  intros x Hx Hp. assert (x ∈ s) as Hxs by (by apply Hin). rewrite <- Htd in Hxs.
  apply elem_of_app in Hxs as [?|Hd]; [by left|]. right. split.
  - unfold l, newest_first. rewrite length_take. fold s. destruct (decide (Z.to_nat limit ≤ length s)%nat); [lia|].
    rewrite drop_ge in Hd by lia. by apply elem_of_nil in Hd.
  - apply Forall_forall. intros y Hy. by apply Hcross.
Qed.

(** A squad's fee listing is its newest bookings: when no call fails, at most the
    asked number and never more than 200, all of this squad, as stored, newest first;
    a booking of the squad is left out only when the listing is full of bookings at
    least as new. *)
Theorem fees_listed parent limit o : is_Some (st_account (o_db o)) → trim parent ≠ "" →
  lwp (list_squad_sponsored_fee_usage parent limit) o (λ l o', o' = o ∧
    ∃ rows, l = listed <$> rows ∧ (length rows ≤ 200)%nat ∧
      StronglySorted (flip (ms_le fee_key)) rows ∧
      (∀ x, x ∈ rows → squad_fees (o_db o) !! x.1 = Some x.2 ∧ fe_parent_id x.2 = Some (trim parent)) ∧
      (∀ x, squad_fees (o_db o) !! x.1 = Some x.2 → fe_parent_id x.2 = Some (trim parent) → x ∈ rows ∨
         length rows = Z.to_nat (clamp_sponsored_fee_usage_limit limit) ∧
         Forall (λ y, ms_le fee_key x y) rows)).
Proof.
  intros Ha Hp. unfold list_squad_sponsored_fee_usage, with_conn. apply lwp_bind, lwp_connection; [done|].
  unfold list_squad_sponsored_fee_usage_conn. rewrite decide_False by done.
  apply lwp_bind, lwp_query, lwp_query. split; [done|].
  set (p := λ x : string * FeeSqlRow, bool_decide (fe_parent_id x.2 = Some (trim parent))).
  destruct (newest_first_spec p (clamp_sponsored_fee_usage_limit limit) (squad_fees (o_db o))) as (Hl & Hs & Hi & Ho).
  eexists. split; [done|]. split.
  { etrans; [exact Hl|]. unfold clamp_sponsored_fee_usage_limit, SPONSORED_FEE_USAGE_LIST_MAX. lia. }
  split; [done|]. split.
  - intros x [? ?%bool_decide_eq_true]%Hi. done.
  - intros x Hx Hpar. apply Ho; [done|]. by apply bool_decide_eq_true.
Qed.

(** The chain id, an [u64] stored [as i64], is listed as it was handed in. *)
Lemma chain_id_roundtrip c : 0 ≤ c < 2 ^ 64 → wrap64 c `mod` 2 ^ 64 = c.
Proof.
  intros Hc. unfold wrap64. rewrite Zminus_mod_idemp_l. 
  replace (c + 2 ^ 63 - 2 ^ 63) with c by lia. by apply Z.mod_small.
Qed.

Definition toy_fee : SquadSponsoredFeeUsageInsert :=
  mkSquadFee "g" "sepolia" 11155111 "alice" "0xa" "7" "0x01" "castVote" "0xb" "0xop" "0xtx".

Lemma fees_listed_witness :
  lwp (list_squad_sponsored_fee_usage "g" (Some 10))
    (toy_obs (set_squad_fees (λ _, {["sfee-0xop" := mkFeeRow "" (Some "g") "sepolia" 11155111 "alice" "0xa" "7"
       "0x01" "castVote" "0xb" "0xop" "0xtx" 5]}) toy_squad)) (λ l _, (length l ≤ 200)%nat).
Proof.
  eapply lwp_mono; [exact (fees_listed "g" (Some 10) (toy_obs (set_squad_fees (λ _,
    {["sfee-0xop" := mkFeeRow "" (Some "g") "sepolia" 11155111 "alice" "0xa" "7"
       "0x01" "castVote" "0xb" "0xop" "0xtx" 5]}) toy_squad)) ltac:(by eexists) ltac:(discriminate))|].
  intros l o' (_ & rows & -> & Hl & _). by rewrite length_fmap.
Defined.
