(* ===== verification/SideEffectTheorems.v ===== *)
(** * What a squad message may change

    Whatever fails and whoever wrote it, a message of one squad's chat reaches the rows
    of that squad only, apart from what an announcement may overwrite in another's row whose
    id it names: of a listed contract the label, ABI reference, notes and time of update, of a
    token the symbol, decimals and time of update; an infra row it takes over. *)

From S2P Require Import Prelude World Json Chat Schema Records EvmRead AccessControl VirtualBucket SquadCatalog.
From S2P Require Import Announce SquadInfra WarGame Stickers Roster Allowlist JoinInbox SideEffects.
From S2P Require Import EvmFacts AnnounceFacts GovReplicaTheorems Toy AccessTheorems.

(** ** Tables that differ in the rows of one squad *)

(** Rows that [mine] does not claim are the same on both sides. *)
Definition only {A V : Type} `{Countable K} (mine : K → V → Prop) (view : A → V) (m m' : gmap K A) : Prop :=
  ∀ k v, ¬ mine k v → (view <$> m !! k = Some v ↔ view <$> m' !! k = Some v).

Section only.
Context {A V : Type} `{Countable K} (mine : K → V → Prop) (view : A → V).
Implicit Types m : gmap K A.

#[export] Instance only_refl : Reflexive (only mine view).
Proof. intros m k v _. done. Qed.
#[export] Instance only_trans : Transitive (only mine view).
Proof. intros m m' m'' H1 H2 k v Hv. rewrite (H1 k v Hv). by apply H2. Qed.

Lemma only_insert m k a :
  mine k (view a) → (∀ b, m !! k = Some b → mine k (view b)) → only mine view m (<[k := a]> m).
Proof.
  intros Ha Hb k' v Hv. destruct (decide (k' = k)) as [->|Hne]; [|by rewrite lookup_insert_ne].
  rewrite lookup_insert_eq. simpl. split; intros Heq.
  - apply fmap_Some in Heq as (b & Hk & ->). by destruct Hv; apply Hb.
  - injection Heq as <-. done.
Qed.

Lemma only_update m k a b : m !! k = Some b → view a = view b → only mine view m (<[k := a]> m).
Proof.
  intros Hk Hab k' v Hv. destruct (decide (k' = k)) as [->|Hne]; [|by rewrite lookup_insert_ne].
  rewrite lookup_insert_eq, Hk. simpl. by rewrite Hab.
Qed.

Lemma only_delete m k : (∀ b, m !! k = Some b → mine k (view b)) → only mine view m (delete k m).
Proof.
  intros Hb k' v Hv. destruct (decide (k' = k)) as [->|Hne]; [|by rewrite lookup_delete_ne].
  rewrite lookup_delete_eq. split; [|done]. intros Heq.
  apply fmap_Some in Heq as (b & Hk & ->). by destruct Hv; apply Hb.
Qed.

Lemma only_alter m k (f : A → A) : (∀ b, m !! k = Some b → mine k (view b) ∧ mine k (view (f b))) →
  only mine view m (alter f k m).
Proof.
  intros Hf k' v Hv. destruct (decide (k' = k)) as [->|Hne]; [|by rewrite lookup_alter_ne].
  rewrite lookup_alter_eq. destruct (m !! k) as [b|] eqn:Hk; [|done]. simpl.
  destruct (Hf b eq_refl). split; intros [= <-]; done.
Qed.

Lemma only_new m k a : m !! k = None → mine k (view a) → only mine view m (<[k := a]> m).
Proof. intros Hn Ha. apply only_insert; [done|]. by rewrite Hn. Qed.
End only.

(** ** The relation *)

(** Everything but the tables announcements fill. *)
Definition cleared (d : Db) : Db :=
  set_infra (λ _, ∅) (set_treasury (λ _, ∅) (set_allowlist (λ _, ∅) (set_tokens (λ _, ∅)
    (set_stickers (λ _, ∅) (set_member_evm (λ _, ∅) (set_join_meta (λ _, ∅) (set_join_secret (λ _, ∅) d))))))).

(** A row of another squad is neither made nor changed, and every id keeps its row or
    has one of [g]. *)
Definition infra_taken_over (g : string) (m m' : gmap string InfraSqlRow) : Prop :=
  (∀ id r, m' !! id = Some r → in_parent_id r ≠ g → m !! id = Some r) ∧
  (∀ id r, m !! id = Some r → ∃ r', m' !! id = Some r' ∧ (r' = r ∨ in_parent_id r' = g)).

(** What identifies a listed contract or token, who listed it and when. *)
Definition allow_identity (r : AllowSqlRow) : (string * string * string) * (string * Z) :=
  (allow_place r, (al_added_by_npub r, al_created_at_ms r)).
Definition token_identity (r : TokenSqlRow) : (string * string * string) * (string * Z) :=
  (token_place r, (tk_added_by_npub r, tk_created_at_ms r)).

Record confined (g : string) (d d' : Db) : Prop := {
  cf_rest : cleared d' = cleared d;
  cf_infra : infra_taken_over g (infra d) (infra d');
  cf_treasury : only (λ _ r, ts_parent_id r = g) (λ r, r) (treasury d) (treasury d');
  cf_stickers : only (λ k _, k.1 = g) (λ r, r) (stickers d) (stickers d');
  cf_roster : only (λ k _, k.1 = g) (λ r, r) (member_evm d) (member_evm d');
  cf_meta : only (λ k _, k = g) (λ r, r) (join_meta d) (join_meta d');
  cf_secret : only (λ k _, k = g) (λ r, r) (join_secret d) (join_secret d');
  cf_allow : only (λ _ v, v.1.1.1 = g) allow_identity (allowlist d) (allowlist d');
  cf_tokens : only (λ _ v, v.1.1.1 = g) token_identity (tokens d) (tokens d');
}.

#[export] Instance infra_taken_over_refl g : Reflexive (infra_taken_over g).
Proof. intros m. split; eauto. Qed.
#[export] Instance infra_taken_over_trans g : Transitive (infra_taken_over g).
Proof.
  intros m m' m'' [Hb Hf] [Hb' Hf']. split; [auto|]. intros id r Hr.
  destruct (Hf id r Hr) as (r' & Hr' & [->|Hp]); [by apply Hf'|].
  destruct (Hf' id r' Hr') as (r'' & Hr'' & [->|Hp']); eauto.
Qed.

#[export] Instance confined_refl g : Reflexive (confined g).
Proof. intros d. by split. Qed.
#[export] Instance confined_trans g : Transitive (confined g).
Proof.
  intros d d' d'' [? ? ? ? ? ? ? ? ?] [? ? ? ? ? ? ? ? ?].
  split; first [congruence | by etrans].
Qed.

Section effects.
Context `{SerdeText} `{SerdeErrors} `{Rusqlite} `{Alloy} `{Signatures} `{Contracts} `{ProcessEnv}.
Context `{Nostr} `{NostrKeys} `{AtRest}.

(** ** One statement *)

Lemma infra_upserted g id r m m' : in_parent_id r = g →
  upsert_infra id r m = Ok m' → infra_taken_over g m m'.
Proof.
  intros Hg Hm. unfold upsert_infra in Hm.
  destruct (infra_taken _ _ _); [done|]. injection Hm as <-. split.
  - intros k r' Hk Hp. destruct (decide (k = id)) as [->|Hne]; [|by rewrite lookup_insert_ne in Hk].
    rewrite lookup_insert_eq in Hk. injection Hk as <-. by destruct (m !! id).
  - intros k r' Hk. destruct (decide (k = id)) as [->|Hne]; [|rewrite lookup_insert_ne; eauto].
    rewrite lookup_insert_eq. eexists. split; [done|]. right. by destruct (m !! id).
Qed.

Lemma treasury_upserted g id r m m' : ts_parent_id r = g →
  upsert_treasury id r m = Ok m' → only (λ _ r, ts_parent_id r = g) (λ r, r) m m'.
Proof.
  intros Hg Hm. unfold upsert_treasury, find_safe in Hm.
  destruct (find_first _ _) as [[k old]|] eqn:Hf; simpl in Hm.
  - injection Hm as <-. apply find_first_Some in Hf as [Hk Hs].
    apply elem_of_map_to_list in Hk. unfold same_safe in Hs. simpl in Hs. bool_facts.
    apply only_alter. intros b Hb. simpl. split; congruence.
  - destruct (m !! id) eqn:Hid; [done|]. injection Hm as <-. by apply only_new.
Qed.

Lemma confined_infra g id r d m :
  upsert_infra id r (infra d) = Ok m → in_parent_id r = g →
  confined g d (set_infra (λ _, m) d).
Proof. intros Hm Hg. split; try done. by eapply infra_upserted. Qed.
Lemma confined_treasury g id r d m :
  upsert_treasury id r (treasury d) = Ok m → ts_parent_id r = g →
  confined g d (set_treasury (λ _, m) d).
Proof. intros Hm Hg. split; try done. by eapply treasury_upserted. Qed.

Lemma confined_stickers g key r d : key.1 = g →
  confined g d (set_stickers (λ _, (upsert_newer_pack key r (stickers d)).2) d).
Proof.
  intros Hg. split; try done. simpl. unfold upsert_newer_pack.
  destruct (stickers d !! key); try case_match; simpl; try done; by apply only_insert.
Qed.

Lemma confined_roster g key r d : key.1 = g →
  confined g d (set_member_evm (λ _, (upsert_issued key r (member_evm d)).2) d).
Proof.
  intros Hg. split; try done. simpl. unfold upsert_issued.
  destruct (member_evm d !! key); try case_match; simpl; try done; by apply only_insert.
Qed.

Lemma confined_meta g r d : confined g d (set_join_meta <[g := r]> d).
Proof. split; try done. by apply only_insert. Qed.
Lemma confined_secret g d : confined g d (set_join_secret (delete g) d).
Proof. split; try done. by apply only_delete. Qed.

(** The two tables of listed addresses. *)
Lemma only_upsert_placed {R V} (place : R → string * string * string) (update : R → R → R) (view : R → (string * string * string) * V)
    table g id r m m' :
  (∀ r, (view r).1 = place r) → (∀ old, view (update old r) = view old) → (place r).1.1 = g →
  upsert_placed place update table id r m = Ok m' → only (λ _ v, v.1.1.1 = g) view m m'.
Proof.
  intros Hv Hu Hg. unfold upsert_placed. destruct (m !! id) as [old|] eqn:Hid.
  - intros [= <-]. by eapply only_update.
  - destruct (existsb _ _); [done|]. intros [= <-]. apply only_new; [done|]. by rewrite Hv.
Qed.

Lemma only_delete_placed {R V} (place : R → string * string * string) (view : R → (string * string * string) * V) g id m :
  (∀ r, (view r).1 = place r) → only (λ _ v, v.1.1.1 = g) view m (delete_placed place id g m).2.
Proof.
  intros Hv. unfold delete_placed. destruct (m !! id) as [r|] eqn:Hid; [|done].
  case_bool_decide; [|done]. apply only_delete. intros b Hb. rewrite Hv. congruence.
Qed.

Lemma confined_allow g id r d m :
  upsert_placed allow_place update_allow "squad_contract_allowlist" id r (allowlist d) = Ok m →
  al_parent_id r = g →
  confined g d (set_allowlist (λ _, m) d).
Proof. intros Hm Hg. split; try done. eapply (only_upsert_placed allow_place update_allow); [done|done|exact Hg|exact Hm]. Qed.
Lemma confined_tokens g id r d m :
  upsert_placed token_place update_token "squad_tracked_tokens" id r (tokens d) = Ok m →
  tk_parent_id r = g →
  confined g d (set_tokens (λ _, m) d).
Proof. intros Hm Hg. split; try done. eapply (only_upsert_placed token_place update_token); [done|done|exact Hg|exact Hm]. Qed.
Lemma confined_allow_delete g id d :
  confined g d (set_allowlist (λ _, (delete_placed allow_place id g (allowlist d)).2) d).
Proof. split; try done. by apply only_delete_placed. Qed.
Lemma confined_tokens_delete g id d :
  confined g d (set_tokens (λ _, (delete_placed token_place id g (tokens d)).2) d).
Proof. split; try done. by apply only_delete_placed. Qed.

(** ** The readers *)

Lemma announced_parent ty key content chat author_npub author p parent :
  announced ty key content chat author_npub = Some (author, p, parent) → parent = trim chat.
Proof.
  intros (_ & _ & Hp & <- & _)%announced_spec. symmetry. by apply trimmed_opt_Some in Hp as [? _].
Qed.

Lemma keeps_treasury_row g p a ch lb e :
  trim p = g → keeps (confined g) (upsert_parent_treasury_row p a ch lb e).
Proof.
  intros <-. unfold upsert_parent_treasury_row. keeps_tac. refine (keeps_insert_row _ _ _ _).
  intros d x d' Hd. apply rbind_ok in Hd as (m & Hm & [= <- <-]). by eapply confined_treasury.
Qed.

Lemma keeps_infra_row g i p ty ch c rev pl :
  trim p = g → keeps (confined g) (upsert_squad_infra_inner i p ty ch c rev pl).
Proof.
  intros <-. unfold upsert_squad_infra_inner. keeps_tac; refine (keeps_insert_row _ _ _ _);
    intros d x d' Hd; apply rbind_ok in Hd as (m & Hm & [= <- <-]); by eapply confined_infra.
Qed.

Lemma keeps_write_allow g i r now : (∀ t, al_parent_id (r t) = g) → keeps (confined g) (write_allow i r now).
Proof.
  intros Hg. unfold write_allow. keeps_tac. refine (keeps_insert_row _ _ _ _).
  intros d x d' Hd. apply rbind_ok in Hd as (m & Hm & [= <- <-]). by eapply confined_allow.
Qed.

Lemma keeps_write_token g i r now : (∀ t, tk_parent_id (r t) = g) → keeps (confined g) (write_token i r now).
Proof.
  intros Hg. unfold write_token. keeps_tac. refine (keeps_insert_row _ _ _ _).
  intros d x d' Hd. apply rbind_ok in Hd as (m & Hm & [= <- <-]). by eapply confined_tokens.
Qed.

Lemma keeps_emit_packs (R : Db → Db → Prop) `{!Reflexive R, !Transitive R} : keeps R emit_sticker_packs_updated.
Proof. unfold emit_sticker_packs_updated. keeps_tac. Qed.

(** The statements and the helpers the readers share. *)
Ltac confined_tac :=
  repeat first
    [ progress keeps_tac
    | apply keeps_if_member
    | apply keeps_ignore
    | apply keeps_when
    | apply keeps_emit_packs
    | lazymatch goal with
      | |- Reflexive _ => apply _
      | |- Transitive _ => apply _
      | |- keeps ?R (execute _ _) => refine (keeps_execute R _ _ _); intros ?
      | |- keeps _ (match ?x with _ => _ end) => destruct x eqn:?
      end ].

Lemma keeps_safe_announce c chat a : keeps (confined (trim chat)) (apply_parent_safe_announce c chat a).
Proof.
  unfold apply_parent_safe_announce. destruct (announced _ _ _ _ _) as [[[author p] parent]|] eqn:Ha;
    [apply announced_parent in Ha as ->|]; confined_tac.
  apply keeps_treasury_row, trim_idemp.
Qed.

Lemma keeps_governance c chat a : keeps (confined (trim chat)) (maybe_upsert_governance_from_announce c chat a).
Proof.
  unfold maybe_upsert_governance_from_announce.
  destruct (announced _ _ _ _ _) as [[[author p] parent]|] eqn:Ha;
    [apply announced_parent in Ha as ->|]; confined_tac.
  apply keeps_infra_row, trim_idemp.
Qed.

Lemma keeps_war_game c chat a : keeps (confined (trim chat)) (maybe_upsert_war_game_from_announce c chat a).
Proof.
  unfold maybe_upsert_war_game_from_announce, persist_pacto_gov_wargame_infra.
  destruct (announced _ _ _ _ _) as [[[author p] parent]|] eqn:Ha;
    [apply announced_parent in Ha as ->|]; confined_tac.
  all: apply keeps_infra_row, trim_idemp.
Qed.

Lemma keeps_sticker_pack c chat a : keeps (confined (trim chat)) (maybe_upsert_sticker_pack_from_announce c chat a).
Proof.
  unfold maybe_upsert_sticker_pack_from_announce.
  destruct (announced _ _ _ _ _) as [[[author p] parent]|] eqn:Ha;
    [apply announced_parent in Ha as ->|]; confined_tac.
  rewrite (surjective_pairing (upsert_newer_pack _ _ _)). by apply confined_stickers.
Qed.

Lemma keeps_allowlist c chat a :
  keeps (confined (trim chat)) (try_apply_squad_contract_allowlist_announce c chat a).
Proof.
  unfold try_apply_squad_contract_allowlist_announce, apply_allow_remove, apply_allow_upsert.
  destruct (announced _ _ _ _ _) as [[[author p] parent]|] eqn:Ha;
    [apply announced_parent in Ha as ->|]; confined_tac; try by apply keeps_write_allow.
  rewrite (surjective_pairing (delete_placed _ _ _ _)). apply confined_allow_delete.
Qed.

Lemma token_plan_parent c chat author plan :
  plan_tracked_tokens_announce c chat author = Some plan →
  match plan with Upsert g _ _ _ _ _ => g | Remove g _ => g end = trim chat.
Proof.
  unfold plan_tracked_tokens_announce. intros Hp.
  apply bind_Some in Hp as (p & _ & Hp). apply bind_Some in Hp as (g & Hg & Hp).
  apply trimmed_opt_Some in Hg as [Hg _].
  destruct (negb _ || _) eqn:Hm; [done|].
  apply orb_false_iff in Hm as [Hm%negb_false_iff _]. apply parent_matches_spec in Hm as [_ Hm].
  destruct (bool_decide (action_of p = "remove")).
  - destruct (json_nonempty_str p "entry_id"); [|done]. injection Hp as <-. congruence.
  - repeat (apply bind_Some in Hp as (? & _ & Hp)). destruct (_ <=? _); [|done].
    injection Hp as <-. congruence.
Qed.

Lemma keeps_tokens c chat a : keeps (confined (trim chat)) (try_apply_squad_tracked_tokens_announce c chat a).
Proof.
  unfold try_apply_squad_tracked_tokens_announce.
  destruct (author ← trimmed_opt a; _) as [[author plan]|] eqn:Ha; [|keeps_tac].
  apply bind_Some in Ha as (x & _ & Ha).
  apply fmap_Some in Ha as (plan' & Hp & [= -> ->]). apply token_plan_parent in Hp.
  apply keeps_if_member; [apply _..|]. unfold apply_token_plan. confined_tac; subst; try by apply keeps_write_token.
  rewrite (surjective_pairing (delete_placed _ _ _ _)). apply confined_tokens_delete.
Qed.

(** *** The roster *)

Lemma matched_parent chat g : side_effect_parent_matches_chat chat g = true → trim g = g → g = trim chat.
Proof. intros [_ Hm]%parent_matches_spec Hg. congruence. Qed.

Lemma keeps_cert chat cert : trim (rc_parent_id cert) = rc_parent_id cert →
  keeps (confined (trim chat)) (apply_verified_roster_bind_cert chat cert).
Proof.
  intros Ht. unfold apply_verified_roster_bind_cert.
  destruct (side_effect_parent_matches_chat _ _) eqn:Hm; [|simpl; confined_tac].
  apply matched_parent in Hm; [|done].
  unfold upsert_certified_squad_member_evm. simpl. confined_tac.
  rewrite (surjective_pairing (upsert_issued _ _ _)). by apply confined_roster.
Qed.

Lemma cert_parent p g cert : roster_bind_cert_from_json p g = Some cert → rc_parent_id cert = g.
Proof.
  unfold roster_bind_cert_from_json. intros Hc. repeat (apply bind_Some in Hc as (? & _ & Hc)).
  destruct (_ <? _); [|done]. apply bind_Some in Hc as (? & _ & Hc). by injection Hc as <-.
Qed.

Lemma nonempty_trimmed p key g : json_nonempty_str p key = Some g → trim g = g.
Proof. by intros [? _]%trimmed_opt_Some. Qed.

Lemma share_spec content author cert : parse_v2_squad_member_evm_share content author = Some cert →
  trim (rc_parent_id cert) = rc_parent_id cert ∧ rc_member_npub cert = trim author.
Proof.
  unfold parse_v2_squad_member_evm_share. intros Hc.
  destruct (bool_decide _); [done|]. apply bind_Some in Hc as (parsed & _ & Hc).
  destruct (negb _); [done|]. destruct (negb _); [done|].
  apply bind_Some in Hc as (p & _ & Hc). apply bind_Some in Hc as (g & Hg & Hc).
  apply bind_Some in Hc as (cert' & Hcert & Hc). apply nonempty_trimmed in Hg.
  case_bool_decide as Hn; [|done]. injection Hc as <-. apply cert_parent in Hcert. by rewrite Hcert.
Qed.

Lemma keeps_share c chat a : keeps (confined (trim chat)) (try_apply_squad_member_evm_share c chat a).
Proof.
  unfold try_apply_squad_member_evm_share.
  destruct (author ← trimmed_opt a; _) as [cert|] eqn:Hc; [|confined_tac].
  apply bind_Some in Hc as (x & _ & [Hp _]%share_spec). confined_tac. by apply keeps_cert.
Qed.

Lemma snapshot_spec content g certs : parse_squad_evm_roster_snapshot_certs content = Some (g, certs) →
  trim g = g ∧ ∀ cert, cert ∈ certs → rc_parent_id cert = g.
Proof.
  unfold parse_squad_evm_roster_snapshot_certs. intros Hc.
  apply bind_Some in Hc as (parsed & _ & Hc). destruct (negb _); [done|]. destruct (negb _); [done|].
  apply bind_Some in Hc as (p & _ & Hc). apply bind_Some in Hc as (g' & Hg & Hc).
  apply bind_Some in Hc as (ms & _ & Hc). injection Hc as <- <-. apply nonempty_trimmed in Hg.
  split; [done|]. intros cert (raw & _ & Hr)%list_elem_of_omap. by apply cert_parent in Hr.
Qed.

Lemma keeps_foldM_in {A B} R `{!Reflexive R, !Transitive R} (f : B → A → Act B) l :
  (∀ b x, x ∈ l → keeps R (f b x)) → ∀ b, keeps R (foldM f b l).
Proof.
  induction l as [|x l IH]; intros Hf b; simpl; [apply keeps_ret, _|].
  apply keeps_bind; [apply _|apply Hf; by left|]. intros b'. apply IH. intros. apply Hf. by right.
Qed.

Lemma keeps_snapshot c chat a : keeps (confined (trim chat)) (try_apply_squad_evm_roster_snapshot c chat a).
Proof.
  unfold try_apply_squad_evm_roster_snapshot. destruct (trimmed_opt a) as [author|]; [|confined_tac].
  destruct (parse_squad_evm_roster_snapshot_certs c) as [[g certs]|] eqn:Hs; [|confined_tac].
  apply snapshot_spec in Hs as [Hg Hcs]. destruct (negb _); [confined_tac|].
  apply keeps_if_member; [apply _..|].
  apply keeps_bind; [apply _|confined_tac|intros conn]. destruct (negb _); [confined_tac|].
  apply keeps_foldM_in; [apply _..|]. intros [] cert Hc. confined_tac. apply keeps_cert. by rewrite (Hcs _ Hc).
Qed.

(** *** The join inbox *)

(** The squad an announcement of the join inbox names. *)
Definition meta_squad (content : string) : option string :=
  val ← parse_value (trim content); trimmed_opt (get_either "squadId" "squad_id" val ≫= de_string).

Lemma meta_wire_squad content w : meta_wire content = Some (Ok w) → meta_squad content = Some (mw_squad_id w).
Proof.
  unfold meta_wire, meta_squad. destruct (negb (starts_brace _)); [done|]. intros Hw.
  apply bind_Some in Hw as (val & Hv & Hw). rewrite Hv. simpl. destruct (_ && _); [done|].
  injection Hw as Hw. apply rbind_ok in Hw as (g & Hg & Hw). apply rbind_ok in Hw as (n & _ & Hw).
  apply rbind_ok in Hw as (e & _ & Hw). injection Hw as <-. by apply ok_or_ok in Hg.
Qed.

Lemma keeps_meta_row g npub holders e t : keeps (confined g) (upsert_meta_row g npub holders e t).
Proof. unfold upsert_meta_row. keeps_tac. apply confined_meta. Qed.

Lemma keeps_drop_secret g e m : keeps (confined g) (drop_old_secret g e m).
Proof.
  unfold drop_old_secret, delete_secret. destruct m as [[[inbox holders] epoch] updated].
  confined_tac. apply confined_secret.
Qed.

Lemma keeps_ok {A B} (R : Db → Db → Prop) (a : A) (k : A → Act B) :
  keeps R (k a) → keeps R (World.mbind (of_result (Ok a)) k).
Proof. done. Qed.

Lemma keeps_apply_meta c g : meta_squad c = Some g → keeps (confined g) (apply_meta_from_content c).
Proof.
  intros Hg. unfold apply_meta_from_content. destruct (meta_wire c) as [[w|e]|] eqn:Hw;
    [|exact (keeps_throw _ e)|confined_tac].
  apply meta_wire_squad in Hw. assert (mw_squad_id w = g) as <- by congruence.
  refine (keeps_ok _ _ _ _). apply keeps_bind; [apply _|confined_tac|intros updated].
  apply keeps_bind; [apply _|confined_tac|intros holders].
  apply keeps_bind; [apply _|confined_tac|intros existing].
  confined_tac; first [apply keeps_drop_secret | apply keeps_meta_row].
Qed.

Lemma keeps_inbox_meta c chat : keeps (confined (trim chat)) (try_apply_join_inbox_meta c chat).
Proof.
  unfold try_apply_join_inbox_meta.
  destruct (val ← parse_value (trim c); _) as [[]|] eqn:Hc; [|confined_tac].
  assert (meta_squad c = Some (trim chat)) as Hg.
  { unfold meta_squad. apply bind_Some in Hc as (val & Hv & Hc). rewrite Hv. simpl.
    destruct (_ && _); [done|]. apply bind_Some in Hc as (g & Hg & Hc). rewrite Hg. f_equal.
    destruct (side_effect_parent_matches_chat _ _) eqn:Hm; [|done].
    apply matched_parent; [done|]. by apply trimmed_opt_Some in Hg as [? _]. }
  confined_tac. by apply keeps_apply_meta.
Qed.

(** ** Messages of others than members *)

(** The author is listed in the chat. *)
Definition by_member (d : Db) (chat : string) (author_npub : option string) : Prop :=
  ∃ author, trimmed_opt author_npub = Some author ∧ listed_for d (trim chat) author.

(** Nothing but the author's own roster row, and the join inbox. *)
Record untouched (author_npub : option string) (d d' : Db) : Prop := {
  un_chats : st_chats d' = st_chats d ∧ db_chats d' = db_chats d;
  un_infra : infra d' = infra d;
  un_treasury : treasury d' = treasury d;
  un_stickers : stickers d' = stickers d;
  un_allow : allowlist d' = allowlist d;
  un_tokens : tokens d' = tokens d;
  un_roster : only (λ k _, trimmed_opt author_npub = Some k.2) (λ r, r) (member_evm d) (member_evm d');
}.

#[export] Instance untouched_refl a : Reflexive (untouched a).
Proof. intros d. by split. Qed.
#[export] Instance untouched_trans a : Transitive (untouched a).
Proof.
  intros d d' d'' [[] ? ? ? ? ? ?] [[] ? ? ? ? ? ?]. split; try congruence; [split; congruence|by etrans].
Qed.

Definition trusted (chat : string) (a : option string) (d d' : Db) : Prop :=
  by_member d chat a ∨ untouched a d d'.

#[export] Instance trusted_refl chat a : Reflexive (trusted chat a).
Proof. intros d. by right. Qed.
#[export] Instance trusted_trans chat a : Transitive (trusted chat a).
Proof.
  intros d d' d'' [?|Hu]; [by left|]. intros [(author & Ha & parts & Hp & Hl)|Hu']; [left|right; by etrans].
  exists author. split; [done|]. exists parts. split; [done|].
  destruct (un_chats _ _ _ Hu) as [Hs Hc]. by rewrite <- Hs, <- Hc.
Qed.

(** Behind the member check anything may happen. *)
Lemma trusted_if_member chat a author m :
  trimmed_opt a = Some author → keeps (trusted chat a) (if_member chat author m).
Proof.
  intros Ha o. apply dwp_if_member; [by right..|]. intros Hl w Hw. left. by exists author.
Qed.

Lemma trusted_quiet {A} chat a (m : Act A) : quiet m → keeps (trusted chat a) m.
Proof. apply quiet_keeps, _. Qed.

Ltac trusted_reader :=
  destruct (announced _ _ _ _ _) as [[[author p] parent]|] eqn:Ha; [|apply keeps_ret, _];
  apply announced_spec in Ha as [Ha _]; by apply trusted_if_member.

Lemma trusted_safe c chat a : keeps (trusted chat a) (apply_parent_safe_announce c chat a).
Proof. unfold apply_parent_safe_announce. trusted_reader. Qed.
Lemma trusted_governance c chat a : keeps (trusted chat a) (maybe_upsert_governance_from_announce c chat a).
Proof. unfold maybe_upsert_governance_from_announce. trusted_reader. Qed.
Lemma trusted_war_game c chat a : keeps (trusted chat a) (maybe_upsert_war_game_from_announce c chat a).
Proof. unfold maybe_upsert_war_game_from_announce. trusted_reader. Qed.
Lemma trusted_sticker_pack c chat a : keeps (trusted chat a) (maybe_upsert_sticker_pack_from_announce c chat a).
Proof. unfold maybe_upsert_sticker_pack_from_announce. trusted_reader. Qed.
Lemma trusted_allowlist c chat a :
  keeps (trusted chat a) (try_apply_squad_contract_allowlist_announce c chat a).
Proof.
  unfold try_apply_squad_contract_allowlist_announce.
  destruct (announced _ _ _ _ _) as [[[author p] parent]|] eqn:Ha; [|apply keeps_ret, _].
  apply announced_spec in Ha as [Ha _]. destruct (claims_other _ _); [apply keeps_ret, _|].
  by apply trusted_if_member.
Qed.
Lemma trusted_tokens c chat a : keeps (trusted chat a) (try_apply_squad_tracked_tokens_announce c chat a).
Proof.
  unfold try_apply_squad_tracked_tokens_announce.
  destruct (author ← trimmed_opt a; _) as [[author plan]|] eqn:Ha; [|apply keeps_ret, _].
  apply bind_Some in Ha as (x & Hx & Ha). apply fmap_Some in Ha as (plan' & _ & [= -> ->]).
  by apply trusted_if_member.
Qed.
Lemma trusted_snapshot c chat a : keeps (trusted chat a) (try_apply_squad_evm_roster_snapshot c chat a).
Proof.
  unfold try_apply_squad_evm_roster_snapshot. destruct (trimmed_opt a) as [author|] eqn:Ha; [|apply keeps_ret, _].
  destruct (parse_squad_evm_roster_snapshot_certs c) as [[g certs]|]; [|apply keeps_ret, _].
  destruct (negb _); [apply keeps_ret, _|]. by apply trusted_if_member.
Qed.

(** A member's own certificate. *)
Lemma trusted_cert chat a cert : trimmed_opt a = Some (rc_member_npub cert) →
  keeps (trusted chat a) (apply_verified_roster_bind_cert chat cert).
Proof.
  intros Ha. unfold apply_verified_roster_bind_cert, upsert_certified_squad_member_evm. confined_tac.
  right. rewrite (surjective_pairing (upsert_issued _ _ _)). split; try done. simpl. unfold upsert_issued.
  destruct (member_evm _ !! _); [case_match|]; simpl; try done; by apply only_insert.
Qed.

Lemma trusted_share c chat a : keeps (trusted chat a) (try_apply_squad_member_evm_share c chat a).
Proof.
  unfold try_apply_squad_member_evm_share.
  destruct (author ← trimmed_opt a; _) as [cert|] eqn:Hc; [|confined_tac].
  apply bind_Some in Hc as (x & Hx & [_ Hn]%share_spec). confined_tac. apply trusted_cert.
  apply trimmed_opt_Some in Hx as Ht. by rewrite Hn, Hx, (proj1 Ht).
Qed.

Lemma trusted_inbox_meta c chat chat' a : keeps (trusted chat a) (try_apply_join_inbox_meta c chat').
Proof.
  unfold try_apply_join_inbox_meta, apply_meta_from_content, upsert_meta_row, drop_old_secret, delete_secret.
  confined_tac; by right.
Qed.

Lemma keeps_and {A} (R R' : Db → Db → Prop) (m : Act A) :
  keeps R m → keeps R' m → keeps (λ d d', R d d' ∧ R' d d') m.
Proof. intros H1' H2' o. apply dwp_and; [apply H1'|apply H2']. Qed.

Lemma announce_keeps R `{!Reflexive R} c chat a : keeps R (SquadGovReplica.maybe_upsert_from_announce c chat a).
Proof. apply quiet_keeps; [apply _|apply announce_quiet]. Qed.

Lemma keeps_side_effects c b chat a :
  keeps (confined (trim chat)) (apply_mls_virtual_bucket_side_effects chat b c a).
Proof.
  unfold apply_mls_virtual_bucket_side_effects. confined_tac;
    auto using keeps_safe_announce, keeps_governance, keeps_war_game, keeps_sticker_pack, keeps_allowlist,
      keeps_tokens, keeps_share, keeps_snapshot, keeps_inbox_meta, announce_keeps, confined_refl.
Qed.

Lemma trusted_side_effects c b chat a :
  keeps (trusted chat a) (apply_mls_virtual_bucket_side_effects chat b c a).
Proof.
  unfold apply_mls_virtual_bucket_side_effects. confined_tac;
    auto using trusted_safe, trusted_governance, trusted_war_game, trusted_sticker_pack, trusted_allowlist,
      trusted_tokens, trusted_share, trusted_snapshot, trusted_inbox_meta, announce_keeps, trusted_refl.
Qed.

(** A replay of stored messages reaches no other squad either. *)
Lemma keeps_replay chat msgs : keeps (confined (trim chat)) (replay_messages chat msgs).
Proof. unfold replay_messages. confined_tac; apply keeps_side_effects. Qed.

(** ** The property *)

(** C11. Whatever fails, a message of one squad's chat changes only that squad's treasury,
    sticker, roster and join inbox rows. Another squad's listed contracts and tokens all
    stay, none is added, and each keeps its squad, chain and address, who added it and when;
    of a contract the label, ABI reference, notes and time of update, of a token the symbol,
    decimals and time of update may be overwritten. Another squad's infra row is left alone or
    becomes this squad's by its id. A message whose author is not listed in the chat changes
    nothing but its author's own roster row and the join inbox. *)
Theorem side_effects_confined chat_id bucket content author_npub (o : World.Obs Db Effect) :
  dwp (apply_mls_virtual_bucket_side_effects chat_id bucket content author_npub) o (λ _ o',
    confined (trim chat_id) (o_db o) (o_db o') ∧
    (¬ by_member (o_db o) chat_id author_npub → untouched author_npub (o_db o) (o_db o'))).
Proof.
  eapply dwp_mono; [apply (keeps_and _ _ _ (keeps_side_effects _ _ _ _) (trusted_side_effects _ _ _ _))|].
  intros r o' [Hc Ht]. split; [done|]. by destruct Ht.
Qed.
End effects.
