(* ===== verification/RosterTheorems.v ===== *)
(** * The roster's certificates

    A dated row of the roster carries a signature that verifies, whoever sent it; a
    certificate this device makes is accepted. *)

From Stdlib Require Import Ascii.
From S2P Require Import Prelude World Json Chat Schema Records FileNames EvmRead EvmFacts AccessControl.
From S2P Require Import Announce Roster AnnounceFacts Toy AccessTheorems.

Section roster.
Context `{SerdeText} `{Alloy} `{Signatures}.

(** ** Histories *)

Inductive RosterOp : Type :=
| Share (content chat_id : string) (author_npub : option string)
| Snapshot (content chat_id : string) (author_npub : option string)
| Certify (parent_id evm_address : string) (issued_at : option Z) (bind_signature : option string)
| BindAccount (parent_id evm_account_id : string)
| ListRoster (parent_id : string) (alt_parent_id : option string).

Definition run_roster_op (op : RosterOp) : Act unit :=
  match op with
  | Share c chat a => try_apply_squad_member_evm_share c chat a
  | Snapshot c chat a => try_apply_squad_evm_roster_snapshot c chat a
  | Certify p addr t s => attempt (upsert_squad_member_evm p addr t s) ;! World.mret tt
  | BindAccount p acc => attempt (upsert_squad_member_evm_account p acc) ;! World.mret tt
  | ListRoster p alt => attempt (list_squad_member_evm p alt) ;! World.mret tt
  end.

(** ** What a row's signature says *)

Definition signed_by (parent npub evm_address : string) (issued_at : Z) (signature : string) : Prop :=
  ∃ addr, parse_address evm_address = Ok addr ∧
    bind_cert_signed (trim parent) (trim npub) addr issued_at signature = Ok addr.

Definition row_certified (k : string * string) (r : MemberEvmRow) : Prop :=
  0 < me_issued_at r → signed_by k.1 k.2 (me_evm_address r) (me_issued_at r) (me_bind_signature r).

Definition certified (d : Db) : Prop := map_Forall row_certified (member_evm d).

(** The rows of everybody but the account only get newer. *)
Definition roster_forward (d d' : Db) : Prop :=
  ∀ k r, member_evm d !! k = Some r → Some k.2 ≠ st_account d →
    ∃ r', member_evm d' !! k = Some r' ∧ me_issued_at r ≤ me_issued_at r'.

Definition roster_step (d d' : Db) : Prop :=
  st_account d' = st_account d ∧ (certified d → certified d') ∧ roster_forward d d'.

#[local] Instance roster_step_refl : Reflexive roster_step.
Proof. intros d. split_and!; [done..|]. intros k r Hk _. eauto with lia. Qed.
#[local] Instance roster_step_trans : Transitive roster_step.
Proof.
  intros d d' d'' (Ha & Hc & Hf) (Ha' & Hc' & Hf'). split_and!; [congruence|auto|].
  intros k r Hk Hne. destruct (Hf k r Hk Hne) as (r' & Hk' & Hle).
  destruct (Hf' k r' Hk' ltac:(congruence)) as (r'' & Hk'' & Hle'). exists r''. split; [done|lia].
Qed.

Lemma signed_address parent npub addr t s x : bind_cert_signed parent npub addr t s = Ok x → x = addr.
Proof.
  unfold bind_cert_signed. intros (sig & _ & Hx)%rbind_ok. apply rbind_ok in Hx as (rec & _ & Hx).
  destruct (Z.eqb_spec rec addr); [|done]. by injection Hx as <-.
Qed.

Lemma reads_verify p n a t s o :
  EvmFacts.reads (verify_squad_roster_bind_cert p n a t s) o (λ _, signed_by p n a t s).
Proof.
  unfold verify_squad_roster_bind_cert. destruct (_ || _); [apply reads_throw|].
  eapply reads_bind; [apply (reads_of_result _ _ (λ addr, parse_address a = Ok addr)); done|]. intros addr Ha.
  eapply reads_bind; [apply (reads_of_result _ _ (λ x, bind_cert_signed (trim p) (trim n) addr t s = Ok x)); done|].
  intros x Hx. apply reads_skip; [auto with quiet|]. intros now. destruct (_ <? _); [apply reads_throw|].
  apply reads_ret. exists addr. split; [done|]. by rewrite (signed_address _ _ _ _ _ _ Hx) in Hx.
Qed.

(** ** The writes *)

Lemma upsert_issued_certified k r m : row_certified k r → map_Forall row_certified m →
  map_Forall row_certified (upsert_issued k r m).2.
Proof.
  intros Hr Hm. unfold upsert_issued. destruct (m !! k); [case_match|]; simpl; try done; by apply map_Forall_insert_2.
Qed.

Lemma upsert_issued_forward k r m k' r' : m !! k' = Some r' →
  ∃ r'', (upsert_issued k r m).2 !! k' = Some r'' ∧ me_issued_at r' ≤ me_issued_at r''.
Proof.
  intros Hk'. unfold upsert_issued. destruct (decide (k' = k)) as [->|Hne].
  - rewrite Hk'. destruct (Z.leb_spec (me_issued_at r') (me_issued_at r)); simpl; [|eauto with lia].
    rewrite lookup_insert_eq. eauto.
  - exists r'. split; [|lia]. destruct (m !! k); [case_match|]; simpl; try done; by rewrite lookup_insert_ne.
Qed.

Lemma step_upsert_issued d k r : row_certified k r →
  roster_step d (set_member_evm (λ _, (upsert_issued k r (member_evm d)).2) d).
Proof.
  intros Hr. split_and!; [done|by apply upsert_issued_certified|].
  intros k' r' Hk' _. by apply upsert_issued_forward.
Qed.

Lemma step_certified p n a t s now o : signed_by p n a t s →
  dwp (upsert_certified_squad_member_evm p n a t s now) o (λ _ o', roster_step (o_db o) (o_db o')).
Proof.
  intros Hs. unfold upsert_certified_squad_member_evm. dstep. dstep; [done|]. dstep.
  rewrite (surjective_pairing (upsert_issued _ _ _)). simpl. apply step_upsert_issued. by intros _.
Qed.

Lemma step_cert chat cert : keeps roster_step (apply_verified_roster_bind_cert chat cert).
Proof.
  intros o. unfold apply_verified_roster_bind_cert. destruct (negb _); [by dstep|].
  eapply (rel_reads roster_step); [apply reads_attempt, reads_verify|]. intros [x|e] Hs; [|simpl; by dstep].
  simpl. apply (rel_skip roster_step); [auto with quiet|]. intros now. apply dwp_bind, dwp_attempt.
  eapply dwp_mono; [by apply step_certified, (Hs x)|]. intros r o' Hr. by dstep.
Qed.

Lemma step_share c chat a : keeps roster_step (try_apply_squad_member_evm_share c chat a).
Proof.
  unfold try_apply_squad_member_evm_share. pose proof step_cert. keeps_tac.
Qed.

Lemma step_snapshot c chat a : keeps roster_step (try_apply_squad_evm_roster_snapshot c chat a).
Proof.
  unfold try_apply_squad_evm_roster_snapshot. pose proof step_cert. keeps_tac.
  apply keeps_if_member; [apply _..|]. keeps_tac.
Qed.

Lemma trimmed_signed p n a t s : signed_by (trim p) n a t s → signed_by p n a t s.
Proof. unfold signed_by. by rewrite trim_idemp. Qed.

Lemma step_certify p addr t s : keeps roster_step (upsert_squad_member_evm p addr t s).
Proof.
  intros o. unfold upsert_squad_member_evm. apply (rel_skip roster_step); [auto with quiet|]. intros _.
  apply (rel_skip roster_step); [auto with quiet|]. intros npub. case_bool_decide; [by dstep|].
  eapply (rel_reads roster_step); [by apply (reads_of_result o _ (λ _, True))|]. intros norm _.
  apply (rel_skip roster_step); [auto with quiet|]. intros _.
  eapply (rel_reads roster_step _ _ _ (λ c, signed_by (trim p) npub norm c.1 c.2)).
  { unfold require_verified_bind_cert_for_upsert.
    apply reads_skip; [auto with quiet|]. intros issued. destruct (issued <=? 0); [apply reads_throw|].
    apply reads_skip; [auto with quiet|]. intros sig. case_bool_decide; [apply reads_throw|].
    eapply reads_bind; [apply reads_verify|]. intros x Hs. by apply reads_ret. }
  intros [issued sig] Hs. apply (rel_skip roster_step); [auto with quiet|]. intros _.
  apply (rel_skip roster_step); [auto with quiet|]. intros now. apply dwp_bind.
  eapply dwp_mono; [by apply step_certified|]. intros [b|e] o' Hr; [by dstep|done].
Qed.

(** The account's own row, without a certificate. *)
Lemma step_own d f p npub addr now : st_account d = Some npub →
  roster_step d (set_member_evm <[(p, npub) := mkMemberEvm addr now 0 ""]> (set_member_evm_account f d)).
Proof.
  intros Ha. split_and!; [done|..].
  - intros Hc. apply map_Forall_insert_2; [|exact Hc]. intros Hpos. simpl in Hpos. lia.
  - intros k r Hk Hne. exists r. split; [|lia]. transitivity (member_evm d !! k); [|done].
    apply lookup_insert_ne. intros <-. by rewrite Ha in Hne.
Qed.

Lemma step_bind_account p acc : keeps roster_step (upsert_squad_member_evm_account p acc).
Proof.
  intros o. unfold upsert_squad_member_evm_account. apply (rel_skip roster_step); [auto with quiet|]. intros _.
  eapply (rel_reads roster_step); [apply reads_account|]. intros npub Ha. simpl in Ha.
  case_bool_decide; [by dstep|]. case_bool_decide; [by dstep|].
  apply (rel_skip roster_step); [auto with quiet|]. intros _. apply (rel_skip roster_step); [quiet_tac|]. intros purpose.
  case_bool_decide; [by dstep|]. apply (rel_skip roster_step); [quiet_tac|]. intros address.
  apply (rel_skip roster_step); [auto with quiet|]. intros norm. apply (rel_skip roster_step); [auto with quiet|]. intros _.
  apply (rel_skip roster_step); [auto with quiet|]. intros now. dstep.
  apply dwp_tx; [done|]. dstep. dstep; [done|]. dstep. dstep; [done|]. dstep. split; [|done].
  dstep. by apply step_own.
Qed.

(** C14. The roster's dated rows are certified. After any history of members' shares and
    snapshots, of this device's certificates and account bindings, whatever fails: if at the
    start every row with an issue date has a signature of its address over its squad, its
    member and that date, it is so at the end; and no row of another member than the account
    goes away or back to an earlier date. *)
Theorem roster_certified ops o :
  dwp (foldM (λ _ op, run_roster_op op) tt ops) o (λ _ o',
    (certified (o_db o) → certified (o_db o')) ∧ roster_forward (o_db o) (o_db o')).
Proof.
  assert (keeps roster_step (foldM (λ _ op, run_roster_op op) tt ops)) as Hk.
  { pose proof step_share. pose proof step_snapshot. pose proof step_certify. pose proof step_bind_account.
    unfold run_roster_op, list_squad_member_evm. keeps_tac. }
  eapply dwp_mono; [apply Hk|]. by intros r o' (_ & Hc & Hf).
Qed.
End roster.

(** ** A certificate of this device *)

Lemma code_range a : 0 ≤ Z.of_N (code a) < 256.
Proof. unfold code. pose proof (N_ascii_bounded a). lia. Qed.

Lemma hex_pair_byte a : hex_pair (nibble (Z.of_N (code a) / 16)) (nibble (Z.of_N (code a) `mod` 16)) = Some a.
Proof.
  pose proof (code_range a) as Ha. unfold hex_pair.
  rewrite (nibble_roundtrip (_ / 16)) by (split; [apply Z.div_pos; lia|apply Z.div_lt_upper_bound; lia]).
  rewrite nibble_roundtrip by (apply Z.mod_pos_bound; lia). simpl. f_equal.
  replace (_ / 16 * 16 + _ `mod` 16) with (Z.of_N (code a)) by (rewrite (Z.div_mod (Z.of_N (code a)) 16) at 1; lia).
  rewrite N2Z.id. apply ascii_N_embedding.
Qed.

Lemma hex_bytes_encode l : hex_bytes (bytes (hex_encode l)) = Some l.
Proof.
  unfold hex_encode. rewrite String.list_ascii_of_string_of_list_ascii.
  induction l as [|a l IH]; [done|]. rewrite bind_cons. cbn [app hex_bytes]. by rewrite hex_pair_byte, IH.
Qed.

Lemma hex_encode_shape l : String.length (hex_encode l) = (2 * length l)%nat ∧ all_hex (hex_encode l) = true.
Proof.
  unfold hex_encode. induction l as [|a l [IHl IHh]]; [done|]. pose proof (code_range a) as Ha.
  rewrite bind_cons. cbn [app String.string_of_list_ascii String.length length]. split.
  - rewrite IHl. lia.
  - rewrite !all_hex_cons, IHh, !bool_decide_eq_true_2; [done|..]; eexists; apply nibble_roundtrip.
    + apply Z.mod_pos_bound. lia.
    + split; [apply Z.div_pos; lia|apply Z.div_lt_upper_bound; lia].
Qed.

Section roundtrip.
Context `{Alloy} `{SignaturesLaws}.

Lemma parse_bind_signature_hex sig : parse_bind_signature ("0x" +:+ hex_encode (sig_as_bytes sig)) = Ok sig.
Proof.
  destruct (hex_encode_shape (sig_as_bytes sig)) as [Hl Hh]. rewrite sig_bytes_length in Hl.
  unfold parse_bind_signature. rewrite trim_graphic.
  - change (strip_0x ("0x" +:+ ?h)) with h. rewrite Hl, Hh. simpl negb. cbn iota. simpl orb. cbn iota.
    rewrite hex_bytes_encode. simpl. by rewrite sig_bytes_roundtrip.
  - rewrite list_ascii_app. apply Forall_app.
    split; [repeat constructor; unfold graphic; vm_compute; done|by apply all_hex_graphic].
Qed.

Lemma signed_verifies w parent npub t s : sign_roster_bind_cert w parent npub t = Ok s →
  bind_cert_signed parent npub (signer_address w) t s = Ok (signer_address w).
Proof.
  unfold sign_roster_bind_cert, bind_cert_signed. intros (sig & Hsig%map_err_with_ok & Hs)%rbind_ok.
  injection Hs as <-. rewrite (parse_bind_signature_hex sig). cbn [rbind].
  rewrite (sign_recover _ _ _ Hsig). cbn [rbind map_err_with]. by rewrite Z.eqb_refl.
Qed.

(** C33. What this device signs, others accept: a certificate made with a key for a squad,
    a member and a date verifies for that key's address, as long as the reader's clock is
    at most five minutes behind the date. *)
Theorem bind_cert_roundtrip w parent npub t s o (clock : Z) clocks :
  sign_roster_bind_cert w (trim parent) (trim npub) t = Ok s →
  blank parent = false → blank npub = false → 0 ≤ clock → 0 ≤ t < 2 ^ 64 →
  t ≤ clock / 1000 + MAX_ISSUED_AT_SKEW_SECS →
  verify_squad_roster_bind_cert parent npub (address_hex (signer_address w)) t s
    (mkWorld o [] (clock :: clocks)) =
  (Ok (signer_address w), (mkWorld o [] clocks : World.World Db Effect)).
Proof.
  intros Hs%signed_verifies Hp Hn Hc Ht Hskew.
  unfold verify_squad_roster_bind_cert. unfold blank in Hp, Hn. rewrite Hp, Hn. cbn [orb].
  unfold World.mbind, of_result. rewrite parse_address_hex by apply signer_address_range. rewrite Hs.
  unfold now. cbn [w_clock]. destruct (Z.ltb_spec clock 0); [lia|].
  destruct (Z.ltb_spec (Z.min (2 ^ 64 - 1) (clock / 1000 + MAX_ISSUED_AT_SKEW_SECS)) t); [lia|done].
Qed.
End roundtrip.

(** ** Examples *)

(** A signature is its signer's byte, a byte of what it signs, and padding. *)
Definition digest (h : Z) : ascii := ascii_of_N (Z.to_N (h `mod` 256)).

#[export] Instance toy_signatures : Signatures := {
  Signature := ascii * ascii;
  PrivateKeySigner := ascii;
  sig_try_from l := match l with a :: b :: _ => Ok (a, b) | _ => Err "short" end;
  sig_as_bytes s := s.1 :: s.2 :: replicate 63 "0"%char;
  recover_address_from_prehash s h :=
    if bool_decide (s.2 = digest h) then Ok (Z.of_N (code s.1)) else Err "mismatch";
  signer_address w := Z.of_N (code w);
  sign_hash_sync w h := Ok (w, digest h);
}.

#[export] Instance toy_signatures_laws : SignaturesLaws.
Proof.
  split; [done|by intros []| |].
  - intros w h s [= <-]. simpl. by rewrite bool_decide_eq_true_2.
  - intros w. pose proof (code_range w). simpl. lia.
Qed.

Definition toy_wallet : @PrivateKeySigner toy_signatures := "b"%char.
Definition toy_bind_cert : string :=
  default "" (res_ok (sign_roster_bind_cert toy_wallet "g" "bob" 1000)).

Lemma bind_cert_roundtrip_witness :
  (verify_squad_roster_bind_cert " g" "bob" (address_hex 98) 1000 toy_bind_cert
     (mkWorld (toy_obs toy_squad) [] [1000000])).1 = Ok 98.
Proof.
  rewrite (bind_cert_roundtrip toy_wallet " g" "bob" 1000 toy_bind_cert (toy_obs toy_squad) 1000000 []);
    first [reflexivity | lia | by vm_compute].
Defined.
