(* ===== verification/WarGameTheorems.v ===== *)
(** * War-game payloads: what a merge keeps

    The round of a merge is the later one; its filed rounds are in order, bounded, and
    leave out the oldest only. *)

From S2P Require Import Prelude World Json Schema Records EvmRead Announce WarGame Toy Chat EvmFacts.
From S2P Require Import AccessControl Lww Stickers AnnounceFacts SquadCatalogTheorems.

(** ** Objects *)

Definition of_key (k : string) (fs : list (string * json)) : list (string * json) := filter (λ p, p.1 = k) fs.

Lemma obj_get_head k fs : obj_get k fs = snd <$> head (of_key k fs).
Proof.
  unfold of_key. induction fs as [|[k' v] fs IH]; [done|]. simpl. rewrite filter_cons. simpl.
  by destruct (decide (k' = k)).
Qed.

Lemma obj_get_reverse k fs : obj_get k (reverse fs) = snd <$> last (of_key k fs).
Proof. rewrite obj_get_head, <- head_reverse. unfold of_key. by rewrite filter_reverse. Qed.

Lemma of_key_remove k k' fs : of_key k' (obj_remove k fs) = if decide (k' = k) then [] else of_key k' fs.
Proof.
  unfold of_key, obj_remove. induction fs as [|[a v] fs IH]; [by case_decide|].
  rewrite (filter_cons _ (a, v)). simpl. destruct (decide (a ≠ k)) as [Hne|He].
  - rewrite !filter_cons. simpl. rewrite IH. repeat case_decide; congruence.
  - rewrite IH. apply dec_stable in He as ->. rewrite filter_cons. simpl. repeat case_decide; congruence.
Qed.

Lemma of_key_put k v k' fs : of_key k fs = [] →
  of_key k' (put_sorted k v fs) = if decide (k' = k) then [(k, v)] else of_key k' fs.
Proof.
  unfold of_key. induction fs as [|[a w] fs IH]; intros Hn; simpl.
  - rewrite filter_cons. simpl. rewrite filter_nil. repeat case_decide; congruence.
  - rewrite filter_cons in Hn. simpl in Hn. destruct (decide (a = k)); [done|].
    destruct (decide (String.le k a)).
    + rewrite (filter_cons _ (k, v)), filter_cons. simpl. repeat case_decide; try congruence; subst. by rewrite Hn.
    + rewrite filter_cons, (filter_cons _ _ fs), IH by done. simpl. repeat case_decide; congruence.
Qed.

Lemma get_remove k k' fs :
  value_get k' (JObj (obj_remove k fs)) = if decide (k' = k) then None else value_get k' (JObj fs).
Proof. simpl. rewrite !obj_get_reverse, of_key_remove. by case_decide. Qed.

Lemma get_insert k v k' fs :
  value_get k' (JObj (obj_insert k v fs)) = if decide (k' = k) then Some v else value_get k' (JObj fs).
Proof.
  simpl. rewrite !obj_get_reverse. unfold obj_insert. rewrite of_key_put.
  - rewrite of_key_remove. by repeat case_decide.
  - rewrite of_key_remove. by case_decide.
Qed.

Lemma get_members k v : value_get k (JObj (members v)) = value_get k v.
Proof. by destruct v. Qed.

Lemma round_of v v' : value_get "round" v = value_get "round" v' → json_round_u64 v = json_round_u64 v'.
Proof. unfold json_round_u64. by intros ->. Qed.



(** ** Filed rounds *)





#[local] Instance round_le_total : Total round_le.
Proof. intros a b. unfold round_le. lia. Qed.
#[local] Instance round_le_trans : Transitive round_le.
Proof. intros a b c. unfold round_le. lia. Qed.



Section merge.
Context `{SerdeText}.





(** ** The merge *)









Lemma snapshot_round v : prior_round_number (war_game_round_snapshot v) = json_round_u64 v.
Proof.
  apply round_of. unfold war_game_round_snapshot. rewrite get_insert, decide_False by done.
  rewrite !get_remove. cbn [decide]. by rewrite get_members.
Qed.









End merge.

(** ** Examples *)






(** * Sticker packs: announcements in any order, and lists that fail

    Members' announcements of packs leave the newest of each, in whatever order they
    arrive; an announced pack whose entries do not read takes the whole list down. *)

(** ** Membership without failures *)

Section membership.
Context `{SerdeText}.

(** The author is listed in the loaded chat, or in the stored one. *)
Definition in_group (d : Db) (chat author : string) : bool :=
  negb (bool_decide (trim chat = "") || bool_decide (trim author = "")) &&
  match loaded_participants (st_chats d) (trim chat) with
  | Some parts => author_listed_in_participants parts (trim author)
  | None => match (ct_participants <$> db_chats d !! trim chat) ≫= de_strings with
            | Some parts => author_listed_in_participants parts (trim author)
            | None => false
            end
  end.

Lemma lwp_in_group chat author o : is_Some (st_account (o_db o)) →
  lwp (is_author_mls_member_for_chat chat author) o (λ b o', o' = o ∧ b = in_group (o_db o) chat author).
Proof.
  intros Ha. unfold is_author_mls_member_for_chat, in_group.
  destruct (bool_decide (trim chat = "") || bool_decide (trim author = "")) eqn:Hb; [by apply lwp_ret|].
  apply lwp_bind, lwp_attempt, lwp_query. cbv beta. cbn [res_ok base.mbind option_bind negb andb].
  destruct (loaded_participants _ _); [by apply lwp_ret|].
  apply lwp_bind, lwp_attempt, lwp_connection; [done|]. cbn [is_okb].
  unfold chat_db_participants_contain_author. rewrite !trim_idemp, Hb.
  apply lwp_bind, lwp_attempt, lwp_query. cbn [res_ok]. destruct (_ <$> _) as [raw|]; [|by apply lwp_ret].
  cbn [base.mbind option_bind]. by destruct (de_strings raw); apply lwp_ret.
Qed.

Lemma lwp_if_member chat author m o (Q : unit → World.Obs Db Effect → Prop) :
  is_Some (st_account (o_db o)) →
  (if in_group (o_db o) chat author then lwp m o Q else Q tt o) → lwp (if_member chat author m) o Q.
Proof.
  intros Ha Hm. unfold if_member. apply lwp_bind. eapply lwp_mono; [by apply lwp_in_group|].
  intros b o' [-> ->]. destruct (in_group _ _ _); [done|by apply lwp_ret].
Qed.
End membership.

(** ** One announcement *)

Section stickers.
Context `{SerdeText} `{SerdeErrors}.

(** Its text, its chat and its author. *)
Notation Announcement := (string * string * option string)%type.

Definition ingest_packs (anns : list Announcement) : Act unit :=
  foldM (λ _ x, maybe_upsert_sticker_pack_from_announce x.1.1 x.1.2 x.2) tt anns.

(** The pack a member's announcement offers. *)
Definition pack_offer (d : Db) (x : Announcement) : option ((string * string) * StickerSqlRow) :=
  '(author, p, squad_id) ← announced "sticker_pack_updated" "squad_id" x.1.1 x.1.2 x.2;
  if in_group d x.1.2 author
  then (λ f, ((squad_id, f.1), f.2)) <$> pack_fields p author else None.

Definition take_newer (c : option ((string * string) * StickerSqlRow)) (m : gmap (string * string) StickerSqlRow) :=
  match c with Some (k, r) => (upsert_newer_pack k r m).2 | None => m end.

Lemma set_stickers_id d : set_stickers (λ _, stickers d) d = d.
Proof. by destruct d as [? ? ? ? ? ? ? ? ? [? ? ? ? ? ? ? ? ? ? ? ? []] ? ? ? ?]. Qed.

Lemma stickers_set d m : stickers (set_stickers (λ _, m) d) = m.
Proof. done. Qed.

Lemma upsert_newer_lookup k r m : (∀ old, m !! k = Some old → sk_updated_at old < sk_updated_at r) →
  (upsert_newer_pack k r m).2 !! k = Some r.
Proof.
  intros Hn. unfold upsert_newer_pack. destruct (m !! k) as [old|]; [|by simpl; rewrite lookup_insert_eq].
  specialize (Hn old eq_refl). destruct (Z.ltb_spec (sk_updated_at old) (sk_updated_at r)); [|lia].
  by simpl; rewrite lookup_insert_eq.
Qed.

Lemma lwp_emit_packs o (Q : unit → World.Obs Db Effect → Prop) :
  is_Some (st_account (o_db o)) → (∀ l, Q tt (mkObs (o_db o) l)) → lwp emit_sticker_packs_updated o Q.
Proof.
  intros Ha HQ. unfold emit_sticker_packs_updated, load_sticker_packs. lstep. lstep. lstep.
  apply lwp_connection; [done|]. lstep. lstep. lstep. by lstep.
Qed.

Lemma lwp_pack_announce x o : is_Some (st_account (o_db o)) →
  lwp (maybe_upsert_sticker_pack_from_announce x.1.1 x.1.2 x.2) o (λ _ o',
    o_db o' = set_stickers (λ _, take_newer (pack_offer (o_db o) x) (stickers (o_db o))) (o_db o)).
Proof.
  intros Ha. unfold maybe_upsert_sticker_pack_from_announce, pack_offer.
  destruct (announced _ _ _ _ _) as [[[author p] squad]|]; cbn [base.mbind option_bind];
    [|apply lwp_ret; symmetry; apply set_stickers_id].
  apply lwp_if_member; [done|]. destruct (in_group _ _ _); [|symmetry; apply set_stickers_id].
  destruct (pack_fields p author) as [[pack row]|]; cbn [fmap option_fmap option_map fst snd take_newer];
    [|apply lwp_ret; symmetry; apply set_stickers_id].
  apply lwp_bind, lwp_attempt, lwp_connection; [done|]. cbn [is_okb negb].
  apply lwp_bind, lwp_attempt, lwp_execute. cbn [res_ok default from_option].
  destruct (upsert_newer_pack _ _ _) as [n m]. cbn [fst snd].
  destruct (0 <? _); [by apply lwp_emit_packs|by apply lwp_ret].
Qed.

(** ** Many, in any order *)

Lemma with_stickers_twice d m m' : set_stickers (λ _, m') (set_stickers (λ _, m) d) = set_stickers (λ _, m') d.
Proof. done. Qed.

Lemma lwp_packs xs : ∀ o, is_Some (st_account (o_db o)) →
  lwp (ingest_packs xs) o (λ _ o',
    o_db o' = set_stickers (λ _, foldl (flip take_newer) (stickers (o_db o)) (pack_offer (o_db o) <$> xs)) (o_db o)).
Proof.
  induction xs as [|x xs IH]; intros o Ha.
  - apply lwp_ret. symmetry. apply set_stickers_id.
  - unfold ingest_packs. cbn [foldM]. apply lwp_bind. eapply lwp_mono; [by apply lwp_pack_announce|].
    intros [] o1 H1. cbv beta in H1. eapply lwp_mono; [apply IH; by rewrite H1|]. intros u2 o2 H2.
    cbv beta in H2. rewrite H2, H1. done.
Qed.

(** With one row per stamp the strict rule is the one of [Lww]. *)
Lemma take_newer_offer c m :
  (∀ k r old, c = Some (k, r) → m !! k = Some old → sk_updated_at old = sk_updated_at r → old = r) →
  take_newer c m = Lww.offer sk_updated_at c m.
Proof.
  intros Hu. destruct c as [[k r]|]; [|done]. unfold take_newer, offer, upsert_newer_pack.
  destruct (m !! k) as [old|] eqn:Hk; simpl; [|done].
  destruct (Z.ltb_spec (sk_updated_at old) (sk_updated_at r)), (Z.ltb_spec (sk_updated_at r) (sk_updated_at old)); simpl;
    [lia|done|by rewrite insert_id|].
  rewrite (Hu k r old) in Hk by (done || lia). by rewrite insert_id.
Qed.

(** The rows offered for a pack, the stored one first. *)
Definition candidates (m : gmap (string * string) StickerSqlRow) (cs : list (option ((string * string) * StickerSqlRow)))
    (k : string * string) : list StickerSqlRow := option_list (m !! k) ++ offers_for k cs.

Definition one_per_stamp (m : gmap (string * string) StickerSqlRow)
    (cs : list (option ((string * string) * StickerSqlRow))) : Prop :=
  ∀ k a b, a ∈ candidates m cs k → b ∈ candidates m cs k → sk_updated_at a = sk_updated_at b → a = b.

Lemma offers_for_snoc (k : string * string) (cs : list (option ((string * string) * StickerSqlRow))) c :
  offers_for k (cs ++ [c]) = offers_for k cs ++ offers_for k [c].
Proof. apply omap_app. Qed.

Lemma take_newer_fold cs m : one_per_stamp m cs →
  foldl (flip take_newer) m cs = foldl (flip (Lww.offer sk_updated_at)) m cs.
Proof.
  induction cs as [|c cs IH] using rev_ind; intros Hu; [done|]. rewrite !foldl_snoc.
  assert (one_per_stamp m cs) as Hu'.
  { intros k a b Ha Hb. apply (Hu k); unfold candidates in *; rewrite offers_for_snoc, app_assoc; set_solver. }
  rewrite IH by done. apply take_newer_offer. intros k r old -> Hold Heq.
  pose proof (history_newest sk_updated_at k cs m) as Hn. cbv zeta in Hn. rewrite Hold in Hn.
  apply newest_max in Hn as [Hin _].
  apply (Hu k); [..|done]; unfold candidates; rewrite offers_for_snoc, app_assoc; apply elem_of_app; [by left|right].
  unfold offers_for. simpl. rewrite decide_True by done. by left.
Qed.

(** C18. Sticker packs converge. Delivered without failures in any two orders, the same
    announcements leave the same packs, unless two rows of one pack have the same stamp;
    each pack is then the newest row that a member of its chat has announced for it, the
    stored row counted, and a row without any is absent. *)
Theorem stickers_converge xs xs' o :
  xs ≡ₚ xs' → is_Some (st_account (o_db o)) →
  one_per_stamp (stickers (o_db o)) (pack_offer (o_db o) <$> xs) →
  ∃ m, lwp (ingest_packs xs) o (λ _ o', o_db o' = set_stickers (λ _, m) (o_db o)) ∧
    lwp (ingest_packs xs') o (λ _ o', o_db o' = set_stickers (λ _, m) (o_db o)) ∧
    ∀ k, let rows := candidates (stickers (o_db o)) (pack_offer (o_db o) <$> xs) k in
      match m !! k with
      | Some r => r ∈ rows ∧ ∀ r', r' ∈ rows → sk_updated_at r' ≤ sk_updated_at r
      | None => rows = []
      end.
Proof.
  intros Hp Ha Hu. set (cs := pack_offer (o_db o) <$> xs) in *. set (cs' := pack_offer (o_db o) <$> xs').
  assert (cs ≡ₚ cs') as Hcs by (by apply fmap_Permutation).
  assert (one_per_stamp (stickers (o_db o)) cs') as Hu'.
  { intros k a b Ha' Hb. apply (Hu k); unfold candidates in *; by rewrite (offers_for_perm k _ _ Hcs). }
  exists (foldl (flip take_newer) (stickers (o_db o)) cs). split_and!.
  - by apply lwp_packs.
  - eapply lwp_mono; [by apply lwp_packs|]. intros _ o' ->. f_equal.
    rewrite !take_newer_fold by done. by rewrite (history_perm sk_updated_at cs cs').
  - intros k rows. rewrite take_newer_fold by done.
    pose proof (history_newest sk_updated_at k cs (stickers (o_db o))) as Hn. cbv zeta in Hn.
    destruct (_ !! k); [by apply newest_max in Hn|done].
Qed.

(** ** A pack that does not read *)

Lemma load_packs_ok o : dwp load_sticker_packs o (λ r _, ∀ l, r = Ok l → l = live_packs (o_db o)).
Proof.
  unfold load_sticker_packs. dskip. dstep. dstep; [done|]. dstep; [done|]. by intros l [= <-].
Qed.

Lemma list_blocked kr o : kr ∈ live_packs (o_db o) → res_ok (from_row kr) = None →
  dwp list_sticker_packs o (λ r o', o' = o ∧ ∀ l, r ≠ Ok l).
Proof.
  intros Hin Hbad. unfold list_sticker_packs. apply dwp_bind.
  eapply dwp_quiet; [auto with quiet|apply load_packs_ok|]. intros [l|e] Hl; [|done].
  rewrite (Hl _ eq_refl). apply dwp_of_result. split; [done|]. intros l' Hok.
  apply rmapM_ok in Hok. apply list_elem_of_lookup in Hin as [n Hn].
  destruct (Forall2_lookup_l _ _ _ _ _ Hok Hn) as (y & _ & Hy). by rewrite Hy in Hbad.
Qed.

(** One member can take the sticker list down. A pack announced with entries of a wrong
    shape is stored when it is newer than the stored one, and from then on, whatever else is
    stored and whatever fails, the list command answers with an error and no packs. *)
Theorem sticker_list_blocked content chat_id author_npub author p squad_id pack_id row o :
  announced "sticker_pack_updated" "squad_id" content chat_id author_npub = Some (author, p, squad_id) →
  pack_fields p author = Some (pack_id, row) →
  is_Some (st_account (o_db o)) → in_group (o_db o) chat_id author = true →
  of_text (sk_entries row) ≫= de_list de_sticker = None → sk_deleted row = false →
  (∀ old, stickers (o_db o) !! (squad_id, pack_id) = Some old → sk_updated_at old < sk_updated_at row) →
  lwp (maybe_upsert_sticker_pack_from_announce content chat_id author_npub) o (λ _ o',
    dwp list_sticker_packs o' (λ r o'', o'' = o' ∧ ∀ l, r ≠ Ok l)).
Proof.
  intros Hann Hf Ha Hg Hbad Hlive Hnew.
  eapply lwp_mono; [apply (lwp_pack_announce (content, chat_id, author_npub) _ Ha)|]. intros u o' Ho'.
  unfold pack_offer in Ho'. cbn [fst snd] in Ho'. rewrite Hann in Ho'. cbn [base.mbind option_bind] in Ho'.
  rewrite Hg, Hf in Ho'. cbn [fmap option_fmap option_map fst snd take_newer] in Ho'.
  apply (list_blocked ((squad_id, pack_id), row)).
  - unfold live_packs. rewrite merge_sort_Permutation. apply list_elem_of_filter. split; [done|].
    apply elem_of_map_to_list. rewrite Ho'.
    rewrite stickers_set. by apply upsert_newer_lookup.
  - unfold from_row. simpl. by rewrite Hbad.
Qed.
End stickers.

(** ** Examples *)

Definition toy_pack (name : string) (entries : list json) (at_ms : Z) : string :=
  to_text (JObj [("type", JStr "sticker_pack_updated");
    ("payload", JObj [("squad_id", JStr "g"); ("pack_id", JStr "cats"); ("name", JStr name);
                      ("entries", JArr entries); ("updated_at", JNum at_ms)])]).

Definition toy_cats (name : string) (at_ms : Z) : StickerSqlRow :=
  mkSticker name (to_text (JArr [])) at_ms "bob" false.

Definition toy_packs : list (string * string * option string) :=
  [(toy_pack "Big cats" [] 20, "g", Some "bob"); (toy_pack "Cats" [] 10, "g", Some "bob")].

Lemma toy_offers : pack_offer toy_squad <$> toy_packs =
  [Some (("g", "cats"), toy_cats "Big cats" 20); Some (("g", "cats"), toy_cats "Cats" 10)].
Proof. vm_compute. reflexivity. Qed.

Lemma two_offers (k k0 : string * string) (r1 r2 a : StickerSqlRow) :
  a ∈ offers_for k [Some (k0, r1); Some (k0, r2)] → a = r1 ∨ a = r2.
Proof.
  unfold offers_for. simpl. case_decide; [|by intros ?%not_elem_of_nil].
  intros [->|[->|?%not_elem_of_nil]%elem_of_cons]%elem_of_cons; auto. done.
Qed.

Lemma toy_one_per_stamp : one_per_stamp ∅ (pack_offer toy_squad <$> toy_packs).
Proof.
  rewrite toy_offers. intros k a b. unfold candidates. rewrite lookup_empty. cbn [option_list app].
  intros [-> | ->]%two_offers [-> | ->]%two_offers; [done| | |done]; intros Heq; discriminate Heq.
Qed.

(** The rename arrives before the pack. *)
Lemma stickers_converge_witness :
  ∃ m, lwp (ingest_packs toy_packs) (toy_obs toy_squad) (λ _ o', o_db o' = set_stickers (λ _, m) toy_squad) ∧
       sk_name <$> m !! ("g", "cats") = Some "Big cats".
Proof.
  destruct (stickers_converge toy_packs _ (toy_obs toy_squad) (reflexivity _) ltac:(by eexists)
    toy_one_per_stamp) as (m & Hm & _ & Hk).
  exists m. split; [exact Hm|]. specialize (Hk ("g", "cats")).
  change (stickers (o_db (toy_obs toy_squad))) with (∅ : gmap (string * string) StickerSqlRow) in Hk.
  change (o_db (toy_obs toy_squad)) with toy_squad in Hk. rewrite toy_offers in Hk. cbv zeta in Hk.
  unfold candidates in Hk. rewrite lookup_empty in Hk. cbn [option_list app] in Hk.
  replace (offers_for _ _) with [toy_cats "Big cats" 20; toy_cats "Cats" 10] in Hk
    by reflexivity.
  destruct (m !! ("g", "cats")) as [r|]; [|discriminate Hk]. destruct Hk as [Hin Hmax].
  specialize (Hmax (toy_cats "Big cats" 20) ltac:(by left)).
  apply elem_of_cons in Hin as [->|[->|?%not_elem_of_nil]%elem_of_cons]; [done| |done].
  exfalso. revert Hmax. by vm_compute.
Defined.

(** A pack with a number for an entry. *)
Definition toy_odd_row : StickerSqlRow := mkSticker "Odd" (to_text (JArr [JNum 1])) 30 "bob" false.

Lemma sticker_list_blocked_witness :
  lwp (maybe_upsert_sticker_pack_from_announce (toy_pack "Odd" [JNum 1] 30) "g" (Some "bob")) (toy_obs toy_squad)
    (λ _ o', dwp list_sticker_packs o' (λ r o'', o'' = o' ∧ ∀ l, r ≠ Ok l)).
Proof.
  eapply (sticker_list_blocked _ "g" (Some "bob") "bob" _ "g" "cats" toy_odd_row); try (vm_compute; reflexivity).
  - by eexists.
  - intros old Hold. vm_compute in Hold. discriminate Hold.
Defined.
