(* ===== verification/JoinInboxTheorems.v ===== *)
(** * The join inbox: epochs, and keys from strangers

    The epoch of a squad's key only grows, whoever announces and whatever fails, but for
    the deletion of the squad and for a command that is overtaken while it waits. The holder's
    copy of the key has no such protection. *)

From Stdlib Require Import Ascii.
From stdpp Require Import pretty.
From S2P Require Import Prelude World Json Chat Schema Records CatchUp FileNames EvmRead EvmFacts AccessControl SquadCatalog.
From S2P Require Import Announce Roster JoinInbox AnnounceFacts WarGameTheorems Toy SquadCatalogTheorems.

Section inbox.
Context `{SerdeText} `{SerdeErrors} `{Nostr} `{NostrKeys} `{AtRest}.

(** ** The app's tasks *)

Inductive Command : Type :=
| Init (squad_id : string)
| Reclaim (squad_id : string)
| AddHolder (squad_id holder_npub : string)
| RemoveHolder (squad_id holder_npub : string)
| RotateKey (squad_id : string)
| KeyShare (content : string).

(** What can happen: a step without an await, a command up to its first await, a waiting
    one up to its next. *)
Inductive InboxEvent : Type :=
| Announced (content chat_id : string)
| GetState (squad_id : string)
| DeleteSquad (parent_id : string)
| Begin (c : Command)
| GoOn (i : nat).

(** A task that waits. For a squad [G] it is also kept whether the task makes [G]'s key,
    and which epoch [G]'s key had when the task last ran. *)
Record Waiting : Type := mkWaiting {
  wa_result : Type; wa_rest : Act (Task Db Effect wa_result); wa_makes_key : bool; wa_epoch : option Z;
}.

Section squad.
Context (G : string).

Definition epoch_of (d : Db) : option Z := jm_key_epoch <$> join_meta d !! G.
Definition epoch_now : Act (option Z) := modify (λ d, (epoch_of d, d)).

Definition stretch {A} (makes_key : bool) (m : Act (Task Db Effect A)) : Act (list Waiting) :=
  let! r := attempt m in
  let! e := epoch_now in
  World.mret match r with Ok (Pending k) => [mkWaiting A k makes_key e] | _ => [] end.

Definition begin (c : Command) : Act (list Waiting) :=
  match c with
  | Init g => stretch (bool_decide (trim g = G)) (join_inbox_init g)
  | Reclaim g => stretch (bool_decide (trim g = G)) (join_inbox_reclaim_if_split g)
  | AddHolder g h => stretch false (join_inbox_add_holder g h)
  | RemoveHolder g h => stretch false (join_inbox_remove_holder g h)
  | RotateKey g => stretch (bool_decide (trim g = G)) (join_inbox_rotate_key g)
  | KeyShare c => stretch false (apply_key_share_from_content c)
  end.

(** The tasks that wait, and whether [G] was deleted or a key of [G] made by a command
    that went on under another epoch than it had left. *)
Definition run_inbox_event (st : list Waiting * bool) (ev : InboxEvent) : Act (list Waiting * bool) :=
  let '(pool, disturbed) := st in
  match ev with
  | Announced c chat => attempt (try_apply_join_inbox_meta c chat) ;! World.mret st
  | GetState g => attempt (join_inbox_get_state g) ;! World.mret st
  | DeleteSquad p => attempt (delete_squad p) ;! World.mret (pool, disturbed || bool_decide (trim p = G))
  | Begin c => let! ws := begin c in World.mret (pool ++ ws, disturbed)
  | GoOn i =>
      match pool !! i with
      | None => World.mret st
      | Some w =>
          let! e := epoch_now in
          let! ws := stretch (wa_makes_key w) (wa_rest w) in
          World.mret (take i pool ++ ws ++ drop (S i) pool,
            disturbed || wa_makes_key w && negb (bool_decide (e = wa_epoch w)))
      end
  end.

(** ** The order of the rows *)

(** A later epoch, or the same key; at the largest epoch any key. *)
Definition advances (r r' : JoinInboxMetaRow) : Prop :=
  jm_key_epoch r < jm_key_epoch r' ∨
  jm_key_epoch r' = jm_key_epoch r ∧ (jm_inbox_npub r' = jm_inbox_npub r ∨ jm_key_epoch r = i64_max).

Definition epochs_ok (m : gmap string JoinInboxMetaRow) : Prop := map_Forall (λ _ r, i64_ok (jm_key_epoch r)) m.

Definition inbox_le (d d' : Db) : Prop :=
  epochs_ok (join_meta d) →
  epochs_ok (join_meta d') ∧
  ∀ r, join_meta d !! G = Some r → ∃ r', join_meta d' !! G = Some r' ∧ advances r r'.

#[local] Instance advances_refl : Reflexive advances.
Proof. intros r. right. auto. Qed.
#[local] Instance advances_trans : Transitive advances.
Proof.
  intros r r' r'' [Hl|[He Hk]] [Hl'|[He' Hk']]; unfold advances; [left; lia|left; lia|left; lia|right].
  split; [lia|]. destruct Hk, Hk'; [left; congruence|right; lia..].
Qed.

#[local] Instance inbox_le_refl : Reflexive inbox_le.
Proof. intros d Hok. split; [done|]. intros r Hr. by exists r. Qed.
#[local] Instance inbox_le_trans : Transitive inbox_le.
Proof.
  intros d d' d'' H1' H2' Hok. destruct (H1' Hok) as [Hok' Hf]. destruct (H2' Hok') as [Hok'' Hf'].
  split; [done|]. intros r Hr. destruct (Hf r Hr) as (r' & Hr' & ?).
  destruct (Hf' r' Hr') as (r'' & Hr'' & ?). exists r''. split; [done|]. by etrans.
Qed.

Lemma inbox_le_put d g row : (epochs_ok (join_meta d) → i64_ok (jm_key_epoch row)) →
  (∀ r, g = G → join_meta d !! G = Some r → i64_ok (jm_key_epoch r) → advances r row) →
  inbox_le d (set_join_meta <[g := row]> d).
Proof.
  intros Hrow Ha Hok. change (join_meta (set_join_meta <[g := row]> d)) with (<[g := row]> (join_meta d)).
  split; [by apply map_Forall_insert_2; auto|]. intros r Hr. destruct (decide (g = G)) as [->|Hne].
  - exists row. rewrite lookup_insert_eq. split; [done|]. apply Ha; [done..|]. by eapply Hok.
  - exists r. by rewrite lookup_insert_ne.
Qed.

(** ** Steps *)

Lemma reads_meta g o : EvmFacts.reads (read_meta_row g) o (λ m, m = meta_of <$> join_meta (o_db o) !! g).
Proof. unfold read_meta_row. apply reads_skip; [auto with quiet|]. intros _. by apply reads_query. Qed.

(** Statements that leave the meta rows alone. *)
Definition same_meta (d d' : Db) : Prop := join_meta d' = join_meta d.
#[local] Instance same_meta_refl : Reflexive same_meta.
Proof. done. Qed.
#[local] Instance same_meta_trans : Transitive same_meta.
Proof. intros d d' d''. unfold same_meta. congruence. Qed.

Lemma same_store g n e enc : keeps same_meta (store_secret_encrypted g n e enc).
Proof. unfold store_secret_encrypted. keeps_tac. done. Qed.
Lemma same_delete g : keeps same_meta (delete_secret g).
Proof. unfold delete_secret. keeps_tac. done. Qed.

Lemma same_inbox_le d d' : same_meta d d' → inbox_le d d'.
Proof. intros Hm Hok. rewrite Hm. split; [done|]. intros r Hr. by exists r. Qed.

Lemma succ_advances r n hs t : i64_ok (jm_key_epoch r) →
  advances r (mkJoinMeta n hs (saturating_add (jm_key_epoch r) 1) t).
Proof.
  intros Hr. unfold advances. simpl. destruct (decide (jm_key_epoch r = i64_max)) as [He|Hne].
  - right. rewrite He. split; [by vm_compute|by right].
  - left. apply saturating_succ_gt; [done|]. unfold i64_ok in Hr. lia.
Qed.

(** What a command read is the stored row's. *)
Lemma meta_row m g (d : Db) r n hs e t : m = meta_of <$> join_meta d !! g → ok_or m "Join inbox not initialized" = Ok (n, hs, e, t) →
  join_meta d !! g = Some r → n = jm_inbox_npub r ∧ e = jm_key_epoch r.
Proof. intros -> Hm Hr. rewrite Hr in Hm. by injection Hm as <- _ <- _. Qed.

(** ** Stretches of a task *)

(** Every stretch moves the key of [G] on, if it begins under the epoch the last one left
    (for a task that makes [G]'s key). *)
Inductive steady {A} (mk : bool) : option Z → Act (Task Db Effect A) → Prop :=
| steady_intro e k :
    (∀ o, (mk = true → epoch_of (o_db o) = e) →
       dwp k o (λ r o', inbox_le (o_db o) (o_db o') ∧
         ∀ k', r = Ok (Pending k') → steady mk (epoch_of (o_db o')) k')) →
    steady mk e k.

(** The rest of a stretch that began at [d]. *)
Definition moves {A} (mk : bool) (d : Db) (m : Act (Task Db Effect A)) (o : World.Obs Db Effect) : Prop :=
  dwp m o (λ r o', inbox_le d (o_db o') ∧ ∀ k', r = Ok (Pending k') → steady mk (epoch_of (o_db o')) k').

Lemma moves_ready {A} mk d (a : A) o : inbox_le d (o_db o) → moves mk d (ready a) o.
Proof. intros Hd. by apply dwp_ret. Qed.
Lemma moves_throw {A} mk d e o : inbox_le d (o_db o) → moves (A := A) mk d (mthrow e) o.
Proof. intros Hd. by apply dwp_throw. Qed.

Lemma moves_reads {A B} mk d (m : Act A) (k : A → Act (Task Db Effect B)) o (P : A → Prop) :
  inbox_le d (o_db o) → EvmFacts.reads m o P → (∀ a, P a → moves mk d (k a) o) →
  moves mk d (World.mbind m k) o.
Proof.
  intros Hd Hm Hk. apply dwp_bind. eapply dwp_mono; [exact Hm|].
  intros [a|e] o' [-> HP]; [by apply Hk, HP|by split].
Qed.
Lemma moves_skip {A B} mk d (m : Act A) (k : A → Act (Task Db Effect B)) o :
  inbox_le d (o_db o) → quiet m → (∀ a, moves mk d (k a) o) → moves mk d (World.mbind m k) o.
Proof. intros Hd Hm Hk. eapply moves_reads; [done|by apply reads_quiet|]. auto. Qed.

Lemma moves_same {A B} mk d (m : Act A) (k : A → Act (Task Db Effect B)) o :
  inbox_le d (o_db o) → keeps same_meta m →
  (∀ a o', same_meta (o_db o) (o_db o') → inbox_le d (o_db o') → moves mk d (k a) o') →
  moves mk d (World.mbind m k) o.
Proof.
  intros Hd Hm Hk. apply dwp_bind. eapply dwp_mono; [apply Hm|]. intros r o' Ho'.
  assert (inbox_le d (o_db o')) by (etrans; [exact Hd|by apply same_inbox_le]).
  destruct r; [by apply Hk|by split].
Qed.

(** A write of the meta row. *)
Lemma moves_put {B} mk d g n hs e t (k : unit → Act (Task Db Effect B)) o :
  inbox_le d (o_db o) → (epochs_ok (join_meta (o_db o)) → i64_ok e) →
  (∀ r, g = G → join_meta (o_db o) !! G = Some r → i64_ok (jm_key_epoch r) →
    advances r (mkJoinMeta n (holders_json hs) e t)) →
  (∀ u o', inbox_le d (o_db o') → moves mk d (k u) o') →
  moves mk d (World.mbind (upsert_meta_row g n hs e t) k) o.
Proof.
  intros Hd He Ha Hk. unfold upsert_meta_row. apply dwp_bind, dwp_bind.
  apply dwp_quiet_any; [auto with quiet|]. intros [[]|err]; [|by split].
  apply dwp_exec_; [intros err; by split|]. apply Hk. etrans; [exact Hd|]. by apply inbox_le_put.
Qed.

Lemma moves_await {A B} mk d (m : Act A) (k : A → Act (Task Db Effect B)) o :
  inbox_le d (o_db o) → quiet m →
  (∀ a o', (mk = true → epoch_of (o_db o') = epoch_of (o_db o)) → moves mk (o_db o') (k a) o') →
  moves mk d (await m k) o.
Proof.
  intros Hd Hm Hk. apply dwp_ret. split; [done|]. intros k1 [= <-]. constructor. intros o1 Ho1.
  apply dwp_bind, dwp_attempt, dwp_quiet_any; [done|]. intros r. apply dwp_ret. split; [done|].
  intros k2 [= <-]. constructor. intros o2 Ho2. apply dwp_bind, dwp_of_result.
  destruct r as [a|e]; [|by split]. apply Hk. intros Hmk. rewrite Ho2, Ho1; done.
Qed.

(** *** Commands *)

Lemma quiet_group_view g : quiet (mls_group_view g).
Proof. unfold mls_group_view. quiet_tac. Qed.
#[local] Hint Resolve quiet_group_view : quiet.
Lemma quiet_is_mls_member g n : quiet (is_mls_member g n).
Proof. unfold is_mls_member. quiet_tac. Qed.
Lemma quiet_required g : quiet (required_squad g).
Proof. unfold required_squad. quiet_tac. Qed.
Lemma quiet_new_key : quiet new_key.
Proof. unfold new_key. quiet_tac. Qed.
Lemma quiet_encrypt n : quiet (encrypt_nsec n).
Proof. unfold encrypt_nsec. quiet_tac. Qed.
Lemma quiet_decrypt n : quiet (decrypt_nsec n).
Proof. unfold decrypt_nsec. quiet_tac. Qed.
Lemma quiet_current : quiet current_npub.
Proof. unfold current_npub. quiet_tac. Qed.
#[local] Hint Resolve quiet_is_mls_member quiet_required quiet_new_key quiet_encrypt quiet_decrypt
  quiet_current : quiet.

Lemma reads_required g o : EvmFacts.reads (required_squad g) o (λ s, s = trim g).
Proof. unfold required_squad. case_bool_decide; [apply reads_throw|by apply reads_ret]. Qed.

(** Up to the next read of the meta row or the next write; branches that end are closed. *)
Ltac meta_steps :=
  repeat first
    [ lazymatch goal with
      | |- moves _ _ (World.mbind (read_meta_row _) _) _ => fail
      | |- moves _ _ (World.mbind (required_squad _) _) _ => fail
      | |- moves _ _ (World.mbind (of_result (ok_or _ "Join inbox not initialized")) _) _ => fail
      | |- moves _ _ (World.mbind _ _) _ => apply moves_skip; [done|solve [quiet_tac]|intros ?]
      | |- moves _ _ (ready _) _ => by apply moves_ready
      | |- moves _ _ (mthrow _) _ => by apply moves_throw
      | |- moves _ _ (match ?x with _ => _ end) _ => destruct x eqn:?
      end ].
Ltac meta_await o H := apply moves_await; [done|solve [quiet_tac]|]; intros ? o H; meta_steps.
Ltac meta_read m Hm := eapply moves_reads; [done|apply reads_meta|]; intros m Hm; meta_steps.
Ltac meta_found m Hx :=
  eapply moves_reads; [done|by apply (reads_of_result _ _ (λ x, ok_or m "Join inbox not initialized" = Ok x))|];
  intros [[[? ?] ?] ?] Hx; meta_steps.
Lemma moves_init g o : moves (bool_decide (trim g = G)) (o_db o) (join_inbox_init g) o.
Proof.
  unfold join_inbox_init. meta_steps. eapply moves_reads; [done|apply reads_required|]. intros ? ->. meta_steps.
  meta_read m Hm. meta_await o1 H1'. meta_await o2 H2'.
  apply moves_same; [done|apply same_store|]. intros _ o3 H3' Hd. apply moves_put; [done|done| |].
  - intros r Hg Hr. exfalso. rewrite bool_decide_eq_true_2 in H1', H2' by done. unfold same_meta in H3'.
    rewrite H3' in Hr. rewrite Hg in Hm. specialize (H1' eq_refl). specialize (H2' eq_refl). unfold epoch_of in *.
    rewrite Hr, H1' in H2'. by destruct (join_meta (o_db o) !! G).
  - intros _ o' Hd'. by apply moves_ready.
Qed.

(** The write of the next epoch, under the epoch that was read. *)
Lemma next_epoch_put (d d' : Db) g (m : option Meta) n hs e t n' hs' t' : m = meta_of <$> join_meta d !! g →
  ok_or m "Join inbox not initialized" = Ok (n, hs, e, t) → (g = G → epoch_of d' = epoch_of d) →
  ∀ r, g = G → join_meta d' !! G = Some r → i64_ok (jm_key_epoch r) →
    advances r (mkJoinMeta n' hs' (saturating_add e 1) t').
Proof.
  intros Hm Hx He r Hg Hr Hok. specialize (He Hg). subst g. unfold epoch_of in He. rewrite Hr in He.
  destruct (join_meta d !! G) as [r0|] eqn:Hr0; [|done]. injection He as He.
  destruct (meta_row m G d r0 n hs e t) as [_ ->]; [by rewrite Hr0|done..|]. rewrite <- He.
  by apply succ_advances.
Qed.

Lemma moves_reclaim g o : moves (bool_decide (trim g = G)) (o_db o) (join_inbox_reclaim_if_split g) o.
Proof.
  unfold join_inbox_reclaim_if_split. meta_steps. eapply moves_reads; [done|apply reads_required|]. intros ? ->.
  meta_steps. meta_read m Hm. meta_found m Hx. meta_await o1 H1'. meta_await o2 H2'.
  apply moves_same; [done|apply same_store|]. intros _ o3 H3' Hd. apply moves_put; [done| | |].
  - intros _. apply sat64_ok.
  - eapply next_epoch_put; [exact Hm|exact Hx|]. intros Hg. rewrite bool_decide_eq_true_2 in H1', H2' by done.
    unfold epoch_of, same_meta in *. rewrite H3', H2', H1'; done.
  - intros _ o' Hd'. by apply moves_ready.
Qed.

Lemma moves_rotate g o : moves (bool_decide (trim g = G)) (o_db o) (join_inbox_rotate_key g) o.
Proof.
  unfold join_inbox_rotate_key. meta_steps. eapply moves_reads; [done|apply reads_required|]. intros ? ->.
  meta_steps. meta_await o0 H0'. meta_read m Hm. meta_found m Hx. meta_await o1 H1'. meta_await o2 H2'.
  apply moves_same; [done|apply same_store|]. intros _ o3 H3' Hd. apply moves_put; [done| | |].
  - intros _. apply sat64_ok.
  - eapply next_epoch_put; [exact Hm|exact Hx|]. intros Hg. rewrite bool_decide_eq_true_2 in H1', H2' by done.
    unfold epoch_of, same_meta in *. rewrite H3', H2', H1'; done.
  - intros _ o' Hd'. by apply moves_ready.
Qed.

(** A new list of holders under the same key. *)
Lemma same_key_put d g n e hs t (m : option Meta) : m = meta_of <$> join_meta d !! g →
  ok_or m "Join inbox not initialized" = Ok (n, hs, e, t) →
  (epochs_ok (join_meta d) → i64_ok e) ∧
  ∀ hs' t' r, g = G → join_meta d !! G = Some r → i64_ok (jm_key_epoch r) → advances r (mkJoinMeta n hs' e t').
Proof.
  intros Hm Hx. split.
  - intros Hok. destruct (join_meta d !! g) as [r|] eqn:Hr; subst m; [|done].
    destruct (meta_row _ _ _ _ _ _ _ _ eq_refl ltac:(by rewrite <- Hx; f_equal; rewrite Hr) Hr) as [_ ->]. by apply (Hok g).
  - intros hs' t' r -> Hr _. destruct (meta_row _ _ _ _ _ _ _ _ Hm Hx Hr) as [-> ->]. right. auto.
Qed.

Lemma moves_add_holder g h o : moves false (o_db o) (join_inbox_add_holder g h) o.
Proof.
  unfold join_inbox_add_holder. meta_steps. meta_await o0 H0'. meta_await o1 H1'.
  meta_read m Hm. meta_found m Hx. destruct (same_key_put _ _ _ _ _ _ _ Hm Hx) as [He Ha].
  apply moves_put; [done|done|apply Ha|]. intros _ o' Hd. meta_await o2 H2'.
Qed.

Lemma moves_remove_holder g h o : moves false (o_db o) (join_inbox_remove_holder g h) o.
Proof.
  unfold join_inbox_remove_holder. meta_steps. meta_await o0 H0'.
  meta_read m Hm. meta_found m Hx. destruct (same_key_put _ _ _ _ _ _ _ Hm Hx) as [He Ha].
  apply moves_put; [done|done|apply Ha|]. intros _ o' Hd.
  apply moves_same; [done|destruct (bool_decide (trim h = _)); [apply same_delete|apply keeps_ret, _]|]. intros _ o'' _ Hd'. meta_steps.
Qed.

Lemma moves_key_share c o : moves false (o_db o) (apply_key_share_from_content c) o.
Proof.
  unfold apply_key_share_from_content. meta_steps. meta_await o0 H0'. meta_read m Hm; try by apply moves_throw.
  all: apply moves_same; [done|apply same_store|]; intros _ o' _ Hd; by apply moves_ready.
Qed.

Lemma keeps_get_state g : keeps inbox_le (join_inbox_get_state g).
Proof. intros o. apply (rel_quiet inbox_le). unfold join_inbox_get_state. quiet_tac. Qed.

(** *** Announcements *)

Lemma wire_epoch content w : meta_wire content = Some (Ok w) → i64_ok (mw_key_epoch w).
Proof.
  unfold meta_wire. destruct (negb (starts_brace _)); [done|]. intros Hw.
  apply bind_Some in Hw as (val & _ & Hw). destruct (_ && _); [done|].
  injection Hw as Hw. apply rbind_ok in Hw as (g & _ & Hw). apply rbind_ok in Hw as (n & _ & Hw).
  apply rbind_ok in Hw as (e & He & Hw). injection Hw as <-. apply ok_or_ok in He.
  apply bind_Some in He as (v & _ & He). destruct v; try done. simpl in *. by case_bool_decide; simplify_eq.
Qed.

Lemma same_drop g e m : keeps same_meta (drop_old_secret g e m).
Proof.
  unfold drop_old_secret. destruct m as [[[n hs] epoch] t]. pose proof same_delete. keeps_tac.
Qed.

Lemma fresh_advances r n hs e t hs' : outdated (meta_of r) n hs e t = false →
  advances r (mkJoinMeta n (holders_json hs') e t).
Proof.
  unfold outdated, meta_of. intros Hf. apply orb_false_iff in Hf as [Hlt Hf]. unfold advances. simpl.
  destruct (Z.ltb_spec e (jm_key_epoch r)); [done|]. destruct (Z.eqb_spec e (jm_key_epoch r)) as [->|Hne]; [|left; lia].
  right. split; [done|]. left. simpl in Hf. apply orb_false_iff in Hf as [Hk _]. by bool_facts.
Qed.

(** A statement that leaves the meta rows alone, and then the rest. *)
Lemma then_same {A B} d (m : Act A) (k : A → Act B) o :
  keeps same_meta m → join_meta (o_db o) = join_meta d →
  (∀ a o', join_meta (o_db o') = join_meta d → dwp (k a) o' (λ _ o'', inbox_le d (o_db o''))) →
  dwp (World.mbind m k) o (λ _ o', inbox_le d (o_db o')).
Proof.
  intros Hm Ho Hk. apply dwp_bind. eapply dwp_mono; [apply Hm|].
  intros [a|e] o' Ho'; [apply Hk|apply same_inbox_le]; unfold same_meta in *; congruence.
Qed.

Lemma keeps_apply_meta_le c : keeps inbox_le (apply_meta_from_content c).
Proof.
  intros o. unfold apply_meta_from_content. destruct (meta_wire c) as [[w|e]|] eqn:Hw;
    [|by apply dwp_bind, dwp_of_result|by apply dwp_ret].
  apply dwp_bind, dwp_of_result. apply (rel_skip inbox_le); [quiet_tac|]. intros t.
  apply (rel_skip inbox_le); [quiet_tac|]. intros hs.
  eapply (rel_reads inbox_le); [apply reads_meta|]. intros m Hm.
  destruct (from_option _ false m) eqn:Hout; [by apply dwp_ret|].
  eapply (then_same (o_db o)); [|done|intros _ o1 Ho1].
  { destruct m; [apply same_drop|apply keeps_ret, _]. }
  eapply then_same; [apply (quiet_keeps same_meta); quiet_tac|done|]. intros hs' o2 Ho2.
  apply dwp_bind. unfold upsert_meta_row. apply dwp_bind, dwp_quiet_any; [auto with quiet|].
  intros [[]|err]; [|by apply same_inbox_le]. apply dwp_exec_; [intros err; by apply same_inbox_le|].
  apply dwp_ret. trans (o_db o2); [by apply same_inbox_le|]. apply inbox_le_put; [intros _; by eapply wire_epoch|].
  intros r Hg Hr _. rewrite Ho2, <- Hg in Hr. simpl in Hm. rewrite Hr in Hm. rewrite Hm in Hout. simpl in Hout.
  by eapply (fresh_advances _ _ hs).
Qed.

Lemma keeps_announced c chat : keeps inbox_le (try_apply_join_inbox_meta c chat).
Proof. unfold try_apply_join_inbox_meta. pose proof keeps_apply_meta_le. keeps_tac. Qed.

Lemma keeps_delete_squad p : trim p ≠ G → keeps inbox_le (delete_squad p).
Proof.
  intros Hp. unfold delete_squad, delete_squad_inner, delete_join_inbox_rows, table_exists,
    delete_entries_for_chats, delete_rows. rewrite trim_idemp.
  pose proof quiet_require_kdf. pose proof quiet_get_db_connection. pose proof quiet_get.
  keeps_tac; try (apply quiet_keeps; [apply _|by auto]);
    lazymatch goal with
    | |- keeps _ (execute _ _) => refine (keeps_execute inbox_le _ _ _); intros d; by apply same_inbox_le
    | |- _ => try by apply same_inbox_le
    end.
  intros Hok. change (join_meta (set_device _ ?d)) with (delete (trim p) (join_meta d)).
  split; [by apply map_Forall_delete|]. intros r Hr. exists r. by rewrite lookup_delete_ne.
Qed.

(** *** Histories *)

(** While nothing disturbed [G]: its key moved on, and what waits goes on to do so. *)
Definition calm (d : Db) (st : list Waiting * bool) (o : World.Obs Db Effect) : Prop :=
  st.2 = false → inbox_le d (o_db o) ∧ Forall (λ w, steady (wa_makes_key w) (wa_epoch w) (wa_rest w)) st.1.

Lemma stretch_total {A} mk (m : Act (Task Db Effect A)) o : dwp (stretch mk m) o (λ r _, ∃ ws, r = Ok ws).
Proof.
  apply dwp_bind, dwp_attempt. apply (dwp_mono _ _ (λ _ _, True)); [done|]. intros r o' _.
  apply dwp_bind, dwp_modify, dwp_ret. by eexists.
Qed.

Lemma stretch_moves {A} mk (m : Act (Task Db Effect A)) o : moves mk (o_db o) m o →
  dwp (stretch mk m) o (λ r o', ∃ ws, r = Ok ws ∧ calm (o_db o) (ws, false) o').
Proof.
  intros Hm. apply dwp_bind, dwp_attempt. eapply dwp_mono; [exact Hm|]. intros r [db log] [Hd Hk].
  apply dwp_bind, dwp_modify, dwp_ret. eexists. split; [done|]. intros _. split; [done|].
  destruct r as [[|k]|]; constructor; [by apply Hk|constructor].
Qed.

Lemma begin_moves c o : dwp (begin c) o (λ r o', ∃ ws, r = Ok ws ∧ calm (o_db o) (ws, false) o').
Proof.
  destruct c; apply stretch_moves; auto using moves_init, moves_reclaim, moves_add_holder, moves_remove_holder,
    moves_rotate, moves_key_share.
Qed.

Lemma keeps_attempted {A} (m : Act A) d st b o : keeps inbox_le m ∨ b = true → (b = false → st.2 = false) → calm d st o →
  dwp (attempt m ;! World.mret (st.1, b)) o (λ r o', ∃ st', r = Ok st' ∧ calm d st' o').
Proof.
  intros Hm Hb Hst. apply dwp_bind, dwp_attempt. destruct Hm as [Hm| ->].
  - eapply dwp_mono; [apply Hm|]. intros r o' Ho'. apply dwp_ret. eexists. split; [done|].
    intros Hf. destruct (Hst (Hb Hf)) as [Hd Hp]. split; [by etrans|done].
  - apply (dwp_mono _ _ (λ _ _, True)); [done|]. intros r o' _. apply dwp_ret. by eexists.
Qed.

Lemma event_calm d st ev o : calm d st o →
  dwp (run_inbox_event st ev) o (λ r o', ∃ st', r = Ok st' ∧ calm d st' o').
Proof.
  destruct st as [pool late]. intros Hst. destruct ev as [c chat|g|p|c|i]; simpl.
  - by apply (keeps_attempted _ d (pool, late) late); [left; apply keeps_announced|..].
  - by apply (keeps_attempted _ d (pool, late) late); [left; apply keeps_get_state|..].
  - apply (keeps_attempted _ d (pool, late)); [|by destruct late|done]. case_bool_decide; [right; apply orb_true_r|].
    left. by apply keeps_delete_squad.
  - apply dwp_bind. eapply dwp_mono; [apply begin_moves|]. intros r o' (ws & -> & Hws). apply dwp_ret.
    eexists. split; [done|]. intros Hl. destruct (Hst Hl) as [Hd Hp]. destruct (Hws eq_refl).
    split; [by etrans|by apply Forall_app].
  - destruct (pool !! i) as [w|] eqn:Hw; [|apply dwp_ret; by eexists].
    apply dwp_bind, dwp_modify. simpl. destruct o as [db log]. simpl.
    destruct (late || _) eqn:Hl.
    + apply dwp_bind. eapply dwp_mono; [apply stretch_total|]. intros r o' [ws ->]. apply dwp_ret. eexists.
      split; [done|]. intros Hf. simpl in Hf. congruence.
    + apply orb_false_iff in Hl as [-> He]. destruct (Hst eq_refl) as [Hd Hp].
      pose proof (Forall_lookup_1 _ _ _ _ Hp Hw) as Hs. destruct w as [A k mk e]. simpl in *.
      apply dwp_bind. eapply dwp_mono; [apply stretch_moves|].
      * inversion Hs as [e' k' Hk]; subst. apply (Hk (mkObs db log)). intros ->. simpl in *. by bool_facts.
      * intros r o' (ws & -> & Hws). apply dwp_ret. eexists. split; [done|]. intros _. destruct (Hws eq_refl) as [Hd' Hp'].
        split; [by etrans|]. simpl. rewrite !Forall_app. split_and!; [by apply Forall_take|done|by apply Forall_drop].
Qed.

(** C29. The epoch of a squad's join inbox only grows, unless the squad is deleted or a
    command that makes its key is overtaken. In any interleaving of announcements, key
    shares, deletions of squads and commands, each command in stretches from one await to the
    next, whatever fails: as long as the squad is not deleted, and no initialisation, reclaim
    or rotation of its key goes on after a wait in which the epoch of the key changed, a squad
    that had a key has one of a later epoch, or the same key in the same epoch; only an epoch
    at the largest number, which any announcement may set, can hold one key after another. *)
Theorem join_epochs evs o : epochs_ok (join_meta (o_db o)) →
  dwp (foldM run_inbox_event ([], false) evs) o (λ r o', ∃ pool disturbed, r = Ok (pool, disturbed) ∧
    (disturbed = false → epochs_ok (join_meta (o_db o')) ∧
       ∀ r, join_meta (o_db o) !! G = Some r → ∃ r', join_meta (o_db o') !! G = Some r' ∧ advances r r')).
Proof.
  intros Hok. apply (dwp_foldM _ (λ _ st o', calm (o_db o) st o')); [| |by intros _; split].
  - intros [pool late] o' Hc. exists pool, late. split; [done|]. intros Hl. by apply (Hc Hl).
  - intros ev evs' st o' Hc. eapply dwp_mono; [by apply event_calm|]. by intros r o'' (st' & -> & Hc').
Qed.
End squad.

(** ** Keys from strangers *)

Lemma share_wire_squad content w : key_share_wire content = Some w →
  trim (kw_squad_id w) = kw_squad_id w ∧ kw_squad_id w ≠ "".
Proof.
  unfold key_share_wire. destruct (negb _); [done|]. intros Hw.
  apply bind_Some in Hw as (x & _ & Hw). destruct (negb _); [done|]. cbv zeta in Hw.
  destruct (_ || _ || _) eqn:Hb; [done|]. injection Hw as <-. simpl in *. rewrite trim_idemp. split; [done|].
  apply orb_false_iff in Hb as [[Hb _]%orb_false_iff _]. by bool_facts.
Qed.

Lemma lwp_ensure_tables (o : World.Obs Db Effect) (Q : unit → World.Obs Db Effect → Prop) :
  Q tt o → lwp ensure_join_inbox_tables o Q.
Proof. intros HQ. unfold ensure_join_inbox_tables, table_exists. do 2 (lstep; lstep). simpl. lstep. lstep. by lstep. Qed.

(** The secret row a share leaves. *)
Definition shared_secret (w : JoinInboxKeyShareWire) (r : JoinInboxSecretRow) : Prop :=
  js_key_epoch r = kw_key_epoch w ∧ js_inbox_npub r = kw_inbox_npub w ∧
  ∃ nonce, js_encrypted_nsec r = internal_encrypt nonce (kw_nsec w).

Lemma stale_secret g o row sec : trim g = g → join_meta (o_db o) !! g = Some row → join_secret (o_db o) !! g = Some sec →
  js_inbox_npub sec ≠ jm_inbox_npub row ∨ js_key_epoch sec ≠ jm_key_epoch row →
  EvmFacts.reads (inbox_keys_for_holder g) o (λ _, False).
Proof.
  intros Hg Hrow Hsec Hne. unfold inbox_keys_for_holder, required_squad. rewrite Hg.
  eapply (reads_bind _ _ _ (λ x, x = g)); [case_bool_decide; [apply reads_throw|by apply reads_ret]|]. intros ? ->.
  apply reads_skip; [quiet_tac|]. intros me. apply reads_skip; [quiet_tac|]. intros _.
  eapply reads_bind; [apply reads_meta|]. intros m Hm. simpl in Hm. rewrite Hrow in Hm. subst m.
  eapply (reads_bind _ _ _ (λ x, x = meta_of row)); [apply reads_of_result; by intros ? [= <-]|].
  intros ? ->. unfold meta_of. apply reads_skip; [quiet_tac|]. intros _.
  eapply (reads_bind _ _ _ (λ x, x = (js_inbox_npub sec, js_key_epoch sec, js_encrypted_nsec sec))).
  { unfold read_secret_row. apply reads_skip; [auto with quiet|]. intros _. apply reads_query_row.
    rewrite Hsec. by intros ? [= <-]. }
  intros ? ->. simpl. destruct (negb _ || negb _) eqn:Hb; [apply reads_throw|]. bool_facts. tauto.
Qed.

(** Any sender can cut a holder off. A key share is not asked who sent it, whether its
    key is the squad's or whether its epoch is the present one: on a holder's device one that
    is of another key or epoch replaces the stored key, and from then on, whatever fails,
    the holder's commands have no key to open requests with. *)
Theorem key_share_overwrites content w k me row o :
  key_share_wire content = Some w → keys_parse (kw_nsec w) = Some k → key_npub k = Ok (kw_inbox_npub w) →
  st_account (o_db o) = Some me → join_meta (o_db o) !! kw_squad_id w = Some row →
  me ∈ parse_holders (jm_holders_json row) →
  kw_inbox_npub w ≠ jm_inbox_npub row ∨ kw_key_epoch w ≠ jm_key_epoch row →
  lwp (alone (apply_key_share_from_content content)) o (λ b o', b = true ∧
    (∃ sec, join_secret (o_db o') !! kw_squad_id w = Some sec ∧ shared_secret w sec) ∧
    dwp (inbox_keys_for_holder (kw_squad_id w)) o' (λ r o'', o'' = o' ∧ ∀ x, r ≠ Ok x)).
Proof.
  intros Hw Hk Hn Ha Hrow Hme Hne. unfold alone, apply_key_share_from_content. rewrite Hw.
  lstep. lstep. eapply lwp_of_result; [by rewrite Hk|]. lstep. eapply lwp_of_result; [done|].
  rewrite bool_decide_eq_true_2 by done. simpl. unfold current_npub, get_current_account.
  lstep. eapply lwp_query_row; [by rewrite Ha|]. unfold encrypt_nsec. apply lwp_await. lstep. lstep. lstep.
  lstep. apply lwp_connection; [by eexists|]. unfold read_meta_row. lstep. lstep. apply lwp_ensure_tables.
  lstep. rewrite Hrow. simpl. rewrite bool_decide_eq_true_2 by done. simpl.
  unfold store_secret_encrypted. lstep. lstep. apply lwp_ensure_tables. unfold unix_now_secs. lstep. lstep. lstep.
  lstep. unfold ready. lstep. apply lwp_ret. apply lwp_ret. split; [done|].
  assert (∀ now, join_secret (set_join_secret <[kw_squad_id w := mkJoinSecret (kw_key_epoch w) (kw_inbox_npub w)
    (internal_encrypt t (kw_nsec w)) now]> (o_db o)) !! kw_squad_id w = Some (mkJoinSecret (kw_key_epoch w) (kw_inbox_npub w)
    (internal_encrypt t (kw_nsec w)) now)) as Hsec by (intros now; apply lookup_insert_eq).
  split; [eexists; split; [apply Hsec|]; split_and!; [done..|by eexists]|].
  destruct (share_wire_squad _ _ Hw) as [Ht _].
  eapply dwp_mono; [eapply (stale_secret _ _ row); [exact Ht|exact Hrow|apply Hsec|exact Hne]|].
  intros r o'' [-> Hr]. split; [done|]. intros x ->. by apply (Hr x).
Qed.
End inbox.

(** ** Examples *)

#[export] Instance toy_nostr_keys : NostrKeys := {
  keys_generate bits := bits;
  keys_parse s := if starts_with "nsec1" s then Some (len s) else None;
  key_npub k := Ok ("npub1" +:+ pretty k);
  key_nsec k := Ok ("nsec1" +:+ pretty k);
  pk_parse s := Some s;
  pk_from_hex s := Some s;
}.
#[export] Instance toy_at_rest : AtRest := { internal_encrypt _ s := s; internal_decrypt s := Some s }.

(** Texts that begin as objects do. *)
Definition braced : SerdeText := {|
  to_text j := "{" +:+ @to_text PlainText.codec j;
  of_text s := match s with String "{" s' => @of_text PlainText.codec s' | _ => None end;
|}.

(** [alice] holds the key of epoch 3, and has it. *)
Definition toy_meta_row : JoinInboxMetaRow :=
  mkJoinMeta "npub1x" (@holders_json braced ["npub1alice"]) 3 50.
Definition toy_inbox : Db :=
  set_join_secret <["g" := mkJoinSecret 3 "npub1x" "nsec1x" 50]> (set_join_meta <["g" := toy_meta_row]> (mkDb ∅ ∅ ∅ ∅ ∅ ∅ (db_groups toy_squad) ∅ (db_settings toy_squad)
    (db_device toy_squad) (Some "npub1alice") "alice" (st_chats toy_squad)
    [mkEngineGroup (String.list_byte_of_string "g") ["npub1alice"] ["npub1alice"; "npub1bob"]])).

Lemma toy_epochs_ok : epochs_ok (join_meta toy_inbox).
Proof. apply map_Forall_insert_2; [by vm_compute|apply map_Forall_empty]. Qed.

Definition toy_events (evs : list InboxEvent) : result (list Waiting * bool) * World.Obs Db Effect :=
  World.run (foldM (@run_inbox_event braced _ _ _ _ "g") ([], false) evs) (toy_obs toy_inbox).

(** A rotation, with an older announcement of another key in between. *)
Definition toy_rotation : list InboxEvent :=
  [Begin (RotateKey "g"); GoOn 0; GoOn 0; GoOn 0; Announced (@meta_content braced "g" "npub1y" ["npub1bob"] 2 99) "g";
   GoOn 0; GoOn 0; GoOn 0].

Lemma join_epochs_witness :
  (toy_events toy_rotation).1 = Ok ([], false) ∧
  ∃ r', join_meta (o_db (toy_events toy_rotation).2) !! "g" = Some r' ∧ 3 ≤ jm_key_epoch r'.
Proof.
  assert ((toy_events toy_rotation).1 = Ok ([], false)) as Hr by (vm_compute; reflexivity). split; [exact Hr|].
  destruct (@join_epochs braced _ _ _ _ "g" toy_rotation (toy_obs toy_inbox) toy_epochs_ok
    (mkWorld (toy_obs toy_inbox) [] []) eq_refl) as (pool & late & Hp & Hf).
  unfold toy_events, World.run in *. destruct (foldM _ _ _ _) as [r w]. simpl in *.
  rewrite Hr in Hp. injection Hp as <- <-.
  destruct (proj2 (Hf eq_refl) toy_meta_row ltac:(reflexivity)) as (r' & Hr' & [Hl|[He _]]); exists r';
    split; try done; simpl in *; lia.
Defined.

(** A rotation is overtaken: the key of epoch 9, announced while it waits for the group,
    gives way to its own of epoch 4. *)
Example overtaken_rotation :
  let '(r, o) := toy_events (take 4 toy_rotation ++
    [Announced (@meta_content braced "g" "npub1y" ["npub1alice"] 9 99) "g"; GoOn 0; GoOn 0; GoOn 0]) in
  r = Ok ([], true) ∧ jm_key_epoch <$> join_meta (o_db o) !! "g" = Some 4.
Proof. by vm_compute. Qed.

(** A stranger's share of epoch 9 with a key of his own. *)
Definition toy_share : JoinInboxKeyShareWire :=
  mkShareWire JOIN_INBOX_KEY_SHARE_SCHEMA "g" "npub18" 9 "nsec1evi".

Lemma key_share_overwrites_witness :
  lwp (alone (@apply_key_share_from_content braced _ _ (@key_share_content braced "g" "npub18" 9 "nsec1evi"))) (toy_obs toy_inbox)
    (λ b o', b = true ∧
      dwp (@inbox_keys_for_holder braced _ _ "g") o' (λ r o'', o'' = o' ∧ ∀ x, r ≠ Ok x)).
Proof.
  eapply lwp_mono.
  - eapply (@key_share_overwrites braced _ _ _ toy_share 8 "npub1alice" toy_meta_row).
    + vm_compute. reflexivity.
    + reflexivity.
    + reflexivity.
    + reflexivity.
    + reflexivity.
    + vm_compute. by left.
    + right. discriminate.
  - intros b o' (Hb & _ & Hd). by split.
Defined.
