(* ===== verification/InfraTheorems.v ===== *)
(** * Governance announcements: rows taken over, and panics

    The row id of a squad's stack is known to everybody, and an announcement says under
    which id its row goes. *)

From Stdlib Require Import Ascii.
From S2P Require Import Prelude World Json Chat Schema Records FileNames EvmRead.
From S2P Require Import EvmFacts AccessControl Announce SquadInfra WarGame Stickers Roster Allowlist.
From S2P Require Import JoinInbox SideEffects AnnounceFacts WarGameTheorems Toy AccessTheorems.
From S2P Require Import SquadCatalogTheorems RosterTheorems JoinInboxTheorems.

(** ** Failing fault-free executions *)

Lemma lwp_attempt_fail {A B} (m : Act A) (k : A → Act B) o e (P : World.Obs Db Effect → Prop) :
  lwp (attempt m) o (λ r o', r = Err e ∧ P o') →
  lwp (attempt (World.mbind m k)) o (λ r o', r = Err e ∧ P o').
Proof.
  intros Hm c. destruct (Hm c) as (r & o' & c' & Hrun & -> & HP). exists (Err e), o', c'. split; [|done].
  unfold attempt, World.mbind in *. destruct (m _) as [[a|e'] w']; simplify_eq/=. done.
Qed.

Lemma lwp_ignore_panic {A} (m : Act A) o (P : World.Obs Db Effect → Prop) :
  lwp (attempt m) o (λ r o', r = Err PANIC ∧ P o') →
  lwp (attempt (ignore m)) o (λ r o', r = Err PANIC ∧ P o').
Proof.
  intros Hm c. destruct (Hm c) as (r & o' & c' & Hrun & -> & HP). exists (Err PANIC), o', c'. split; [|done].
  unfold ignore, World.mbind, attempt in *. destruct (m _) as [[a|e'] w']; [discriminate Hrun|].
  injection Hrun as -> ->. by rewrite decide_True.
Qed.

Section infra.
Context `{SerdeText} `{Rusqlite} `{Alloy}.

Lemma entry_row_id_spec entry id : entry_row_id entry = Some id → trim id = id ∧ id ≠ "" ∧ len id ≤ 72.
Proof.
  unfold entry_row_id. intros Hid. apply bind_Some in Hid as (s & Hs & Hid).
  apply trimmed_opt_Some in Hs as [Ht Hb]. destruct (_ && _) eqn:Hc; [|done]. injection Hid as <-.
  apply andb_true_iff in Hc as [[_ Hc%Z.leb_le]%andb_true_iff _]. split_and!; [done| |done].
  intros ->. done.
Qed.

(** What the announcement has to say, apart from its revision and payload. *)
Record governance_ready (d : Db) (content chat : string) (author_npub : option string) (p : json)
    (id provider kind cref : string) : Prop := {
  gr_account : is_Some (st_account d);
  gr_announced : ∃ author parent,
    announced "governance_updated" "parent_id" content chat author_npub = Some (author, p, parent) ∧
    in_group d chat author = true;
  gr_id : entry_row_id (get_str "entry_id" p) = Some id;
  gr_provider : json_nonempty_str p "provider" = Some provider;
  gr_kind : normalize_infra_type provider = Ok kind;
  gr_not_war_game : kind ≠ "pacto_gov_wargame";
  gr_cref : json_nonempty_str p "canonical_ref" = Some cref;
  gr_cref_len : len cref ≤ SQUAD_INFRA_CANONICAL_REF_MAX;
}.

(** The announcement comes down to its row. *)
Lemma governance_row d content chat a p id provider kind cref o (Q : result unit → World.Obs Db Effect → Prop) :
  governance_ready d content chat a p id provider kind cref → o_db o = d →
  lwp (attempt (ignore (upsert_squad_infra_inner id (trim chat) provider (json_nonempty_str p "chain") cref
    (json_nonempty_str p "pacto_gov_revision") (json_nonempty_str p "provider_payload")))) o Q →
  lwp (attempt (maybe_upsert_governance_from_announce content chat a)) o Q.
Proof.
  intros [Ha (author & parent & Hann & Hg) Hid Hp Hk Hw Hc _] <- Hrow.
  unfold maybe_upsert_governance_from_announce. rewrite Hann.
  apply announced_spec in Hann as (_ & _ & Hpar & Heq & _). apply trimmed_opt_Some in Hpar as [Ht _].
  unfold if_member. apply lwp_attempt_bind. eapply lwp_mono; [by apply lwp_in_group|].
  intros b o' [-> ->]. rewrite Hg, Hp, Hk. cbn [res_ok]. rewrite bool_decide_eq_false_2 by congruence.
  rewrite Hc. unfold new_squad_infra_id. rewrite Hid. apply lwp_attempt_bind, lwp_ret.
  assert (parent = trim chat) as -> by congruence. exact Hrow.
Qed.

(** A cut off its character stops the ingest. When no call fails, a member's governance
    announcement whose revision is longer than 64 bytes, with a character across the 64th,
    changes nothing and panics, and so does everything the message should have done. *)
Theorem governance_panics `{SerdeErrors} `{Signatures} `{Contracts} `{ProcessEnv} `{Nostr} `{NostrKeys} `{AtRest}
    content chat bucket a p id provider kind cref rev o :
  governance_ready (o_db o) content chat a p id provider kind cref →
  is_announcements_governance_announce_content content = true →
  json_nonempty_str p "pacto_gov_revision" = Some rev →
  Z.of_nat SQUAD_INFRA_REVISION_MAX < len rev → is_char_boundary (bytes rev) SQUAD_INFRA_REVISION_MAX = false →
  lwp (attempt (apply_mls_virtual_bucket_side_effects chat bucket content a)) o (λ r o', r = Err PANIC ∧ o' = o).
Proof.
  intros Hr Hc Hrev Hlen Hcut. unfold apply_mls_virtual_bucket_side_effects. rewrite Hc. cbn [when].
  apply (lwp_attempt_fail _ _ o PANIC (λ o', o' = o)). eapply governance_row; [exact Hr|done|].
  apply (lwp_ignore_panic _ o (λ o', o' = o)). destruct Hr as [_ (author & parent & Hann & _) Hid _ Hk _ Hcref Hl].
  apply announced_spec in Hann as (_ & _ & _ & _ & Hb).
  apply entry_row_id_spec in Hid as (Hti & Hne & Hle). apply trimmed_opt_Some in Hrev as Htr. apply trimmed_opt_Some in Hcref as Htc.
  unfold upsert_squad_infra_inner. rewrite Hti, trim_idemp, (proj1 Htc), Hk.
  rewrite bool_decide_eq_false_2 by done. unfold SQUAD_INFRA_ID_MAX. destruct (Z.ltb_spec 72 (len id)); [lia|].
  rewrite bool_decide_eq_false_2 by (unfold blank in Hb; by bool_facts).
  apply lwp_attempt_bind. eapply lwp_of_result; [done|]. cbv zeta.
  rewrite bool_decide_eq_false_2 by (destruct Htc as [? Htc]; unfold blank in Htc; bool_facts; congruence).
  destruct (Z.ltb_spec SQUAD_INFRA_CANONICAL_REF_MAX (len cref)); [lia|].
  apply (lwp_attempt_fail _ _ o PANIC (λ o', o' = o)). rewrite Hrev. unfold trimmed_opt. rewrite (proj2 Htr), (proj1 Htr).
  apply (lwp_attempt_fail _ _ o PANIC (λ o', o' = o)). unfold clip. destruct (Z.ltb_spec (Z.of_nat SQUAD_INFRA_REVISION_MAX) (len rev)); [|lia].
  unfold slice_to. rewrite Hcut. by apply (lwp_attempt_result (Err PANIC)).
Qed.

(** ** Rows taken over *)

Lemma lwp_of_attempt {A} (m : Act A) o (Q : A → World.Obs Db Effect → Prop) :
  lwp (attempt m) o (λ r o', ∃ a, r = Ok a ∧ Q a o') → lwp m o Q.
Proof.
  intros Hm c. destruct (Hm c) as (r & o' & c' & Hrun & x & -> & HQ). exists x, o', c'. split; [|done].
  unfold attempt in Hrun. by destruct (m _) as [r' w']; injection Hrun as -> ->.
Qed.

Lemma lwp_attempt_ok {A} (m : Act A) o (Q : A → World.Obs Db Effect → Prop) :
  lwp m o Q → lwp (attempt m) o (λ r o', ∃ a, r = Ok a ∧ Q a o').
Proof. intros Hm. apply lwp_attempt. eapply lwp_mono; [exact Hm|]. eauto. Qed.

Lemma lwp_ignore {A} (m : Act A) o (Q : unit → World.Obs Db Effect → Prop) :
  lwp m o (λ _ o', Q tt o') → lwp (ignore m) o Q.
Proof. intros Hm. unfold ignore. apply lwp_bind, lwp_attempt. eapply lwp_mono; [exact Hm|]. intros x o' HQ. by apply lwp_ret. Qed.

Lemma lwp_infra_inner id parent provider kind chain cref payload old m (o : World.Obs Db Effect) :
  is_Some (st_account (o_db o)) → trim id = id ∧ id ≠ "" ∧ len id ≤ 72 → trim parent = parent → parent ≠ "" →
  normalize_infra_type provider = Ok kind → trim cref = cref → cref ≠ "" → len cref ≤ SQUAD_INFRA_CANONICAL_REF_MAX →
  payload_len (trimmed_opt payload) ≤ SQUAD_INFRA_PAYLOAD_MAX → infra (o_db o) = m → m !! id = Some old →
  (∀ r, in_parent_id r = parent → in_infra_type r = kind → infra_taken id r m = false) →
  lwp (upsert_squad_infra_inner id parent provider chain cref None payload) o (λ _ o', ∃ now,
    o_db o' = set_infra (λ _, <[id := mkInfraRow parent kind (normalize_treasury_chain chain) cref None (trimmed_opt payload)
      (in_created_at_ms old) now]> m) (o_db o)).
Proof.
  intros Ha (Hti & Hne & Hle) Hp Hpne Hk Hc Hcne Hcl Hpl <- Hold Hfree. unfold upsert_squad_infra_inner.
  rewrite Hti, Hp, Hc, Hk, !bool_decide_eq_false_2 by done. unfold SQUAD_INFRA_ID_MAX.
  destruct (Z.ltb_spec 72 (len id)); [lia|]. lstep. eapply lwp_of_result; [done|].
  destruct (Z.ltb_spec SQUAD_INFRA_CANONICAL_REF_MAX (len cref)); [lia|]. cbn [trimmed_opt]. lstep. lstep.
  destruct (Z.ltb_spec SQUAD_INFRA_PAYLOAD_MAX (payload_len (trimmed_opt payload))); [lia|].
  lstep. apply lwp_connection; [done|]. unfold now_ms. lstep. lstep. lstep. lstep. lstep. lstep.
  rewrite Hold. cbn [fmap option_fmap option_map default from_option].
  eapply lwp_insert_row; [unfold upsert_infra; rewrite Hfree by done; rewrite Hold; done|]. simpl.
  eexists. reflexivity.
Qed.

Lemma infra_set m d : infra (set_infra (λ _, m) d) = m.
Proof. done. Qed.

Lemma has_infra_spec d pid ty : has_infra d pid ty = true ↔
  ∃ id r, infra d !! id = Some r ∧ in_parent_id r = pid ∧ in_infra_type r = ty.
Proof.
  unfold has_infra. rewrite existsb_exists. split.
  - intros ([id r] & Hin%list_elem_of_In%elem_of_map_to_list & Hb). simpl in Hb. bool_facts. by exists id, r.
  - intros (id & r & Hr & <- & <-). exists (id, r). split; [by apply list_elem_of_In, elem_of_map_to_list|].
    simpl. by rewrite !bool_decide_eq_true_2.
Qed.

(** A squad's stack can be taken from it. Row ids are predictable and an announcement names
    its row's: when no call fails, a member of one squad who announces a stack under the id of
    another squad's row moves that row to his own squad, provided his has none of that kind;
    and if it was the other squad's only row of its kind, that squad has none then. *)
Theorem infra_row_taken content chat a p id provider kind cref old o :
  governance_ready (o_db o) content chat a p id provider kind cref →
  json_nonempty_str p "pacto_gov_revision" = None →
  payload_len (json_nonempty_str p "provider_payload") ≤ SQUAD_INFRA_PAYLOAD_MAX →
  infra (o_db o) !! id = Some old → in_parent_id old ≠ trim chat → has_infra (o_db o) (trim chat) kind = false →
  lwp (maybe_upsert_governance_from_announce content chat a) o (λ _ o', ∃ r,
    infra (o_db o') = <[id := r]> (infra (o_db o)) ∧ in_parent_id r = trim chat ∧ in_infra_type r = kind ∧
    in_canonical_ref r = cref ∧
    ((∀ id' r', infra (o_db o) !! id' = Some r' → in_parent_id r' = in_parent_id old →
        in_infra_type r' = in_infra_type old → id' = id) →
     has_infra (o_db o') (in_parent_id old) (in_infra_type old) = false)).
Proof.
  intros Hr Hrev Hpl Hold Hne Hnone. apply lwp_of_attempt. eapply governance_row; [exact Hr|done|].
  apply lwp_attempt_ok, lwp_ignore. rewrite Hrev.
  destruct Hr as [Ha (author & parent & Hann & _) Hid _ Hk _ Hcref Hl].
  apply announced_spec in Hann as (_ & _ & _ & _ & Hb). apply entry_row_id_spec in Hid.
  apply trimmed_opt_Some in Hcref as [Htc Hbc].
  assert (trimmed_opt (json_nonempty_str p "provider_payload") = json_nonempty_str p "provider_payload") as Hpay
    by apply trimmed_opt_idemp.
  eapply lwp_mono; [eapply (lwp_infra_inner _ _ _ _ _ _ _ old (infra (o_db o))); try done|].
  - apply trim_idemp.
  - unfold blank in Hb. by bool_facts.
  - intros ->. done.
  - by rewrite Hpay.
  - intros r Hrp Hrk. unfold infra_taken. apply andb_false_intro2, not_true_iff_false. intros Hex.
    apply existsb_exists in Hex as ([id' r'] & Hin%list_elem_of_In%elem_of_map_to_list & Hx). simpl in Hx. bool_facts.
    assert (has_infra (o_db o) (trim chat) kind = true) as Hy; [|by rewrite Hy in Hnone].
    apply has_infra_spec. exists id', r'. split; [done|]. split; congruence.
  - intros u o' [now Ho']. cbv beta in Ho'. rewrite Ho'. eexists. split; [reflexivity|]. split_and!; [done..|].
    intros Honly. apply not_true_iff_false. rewrite has_infra_spec. intros (id' & r' & Hr' & Hp' & Ht').
    rewrite infra_set in Hr'.
    destruct (decide (id' = id)) as [->|Hn].
    + rewrite lookup_insert_eq in Hr'. injection Hr' as <-. simpl in Hp'. congruence.
    + rewrite lookup_insert_ne in Hr' by done. by eapply Hn, Honly.
Qed.
End infra.

(** ** Examples *)

(** [b]'s stack, under its predictable id. *)
Definition toy_infra_row : InfraSqlRow := mkInfraRow "b" "pacto_gov" "sepolia" "0x5" None None 1 1.
Definition toy_stacked : Db := set_infra (λ _, {["pacto-gov-b" := toy_infra_row]}) toy_squad.

Definition toy_payload (revision : option string) : json :=
  JObj (obj_fields [("canonical_ref", Some (JStr "0x9")); ("entry_id", Some (JStr "pacto-gov-b"));
    ("pacto_gov_revision", JStr <$> revision); ("parent_id", Some (JStr "g")); ("provider", Some (JStr "pacto_gov"))]).
Definition toy_governance (revision : option string) : string :=
  to_text (JObj [("type", JStr "governance_updated"); ("payload", toy_payload revision)]).

Lemma toy_ready revision : revision = None ∨ revision = Some (String.string_of_list_ascii (replicate 63 "v"%char) +:+ "é") →
  governance_ready toy_stacked (toy_governance revision) "g" (Some "bob") (toy_payload revision)
    "pacto-gov-b" "pacto_gov" "pacto_gov" "0x9".
Proof.
  intros [-> | ->]; (split; [by eexists| |reflexivity|reflexivity|reflexivity|done|reflexivity|by vm_compute]);
    exists "bob", "g"; split; vm_compute; reflexivity.
Qed.

Lemma governance_panics_witness :
  let rev := String.string_of_list_ascii (replicate 63 "v"%char) +:+ "é" in
  lwp (attempt (apply_mls_virtual_bucket_side_effects "g" None (toy_governance (Some rev)) (Some "bob"))) (toy_obs toy_stacked)
    (λ r o', r = Err PANIC ∧ o' = toy_obs toy_stacked).
Proof.
  intros rev. eapply (governance_panics _ _ _ _ _ _ _ _ _ rev); [apply toy_ready; by right|..]; by vm_compute.
Defined.

(** [bob], a member of [g], announces [g]'s stack under the id of [b]'s. *)
Lemma infra_row_taken_witness :
  lwp (maybe_upsert_governance_from_announce (toy_governance None) "g" (Some "bob")) (toy_obs toy_stacked)
    (λ _ o', has_infra (o_db o') "b" "pacto_gov" = false).
Proof.
  eapply lwp_mono; [apply (infra_row_taken _ _ _ _ _ _ _ _ toy_infra_row (toy_obs toy_stacked) (toy_ready None (or_introl eq_refl)));
    first [reflexivity | by vm_compute]|].
  intros u o' (r & _ & _ & _ & _ & Hgone). apply Hgone. intros id' r' Hr' _ _.
  change (infra (o_db (toy_obs toy_stacked))) with ({["pacto-gov-b" := toy_infra_row]} : gmap string InfraSqlRow) in Hr'.
  by apply lookup_singleton_Some in Hr' as [<- _].
Defined.

(** * Listed contracts and tokens: well-formed rows, and who may edit

    Every row of both lists has the form their readers count on; the commands on tracked
    tokens ask the chain first. *)

(** ** The rows *)

(** A network key and an address in normal form. *)
Definition listed_at (chain address : string) : Prop :=
  chain ≠ "" ∧ to_ascii_lowercase chain = chain ∧ ∃ a, parse_address address = Ok a ∧ address = address_hex a.

Definition allow_ok (r : AllowSqlRow) : Prop := listed_at (al_chain r) (al_contract_address r).
Definition token_ok (r : TokenSqlRow) : Prop :=
  listed_at (tk_chain r) (tk_token_address r) ∧ 0 ≤ tk_decimals r ≤ 36 ∧ blank (tk_symbol r) = false.

(** The rows are well formed, and no two are of one place. *)
Definition table_ok {R} (row_ok : R → Prop) (place : R → string * string * string) (m : gmap string R) : Prop :=
  map_Forall (λ _ r, row_ok r) m ∧
  ∀ id id' r r', m !! id = Some r → m !! id' = Some r' → place r = place r' → id = id'.

Definition lists_ok (d : Db) : Prop :=
  table_ok allow_ok allow_place (allowlist d) ∧ table_ok token_ok token_place (tokens d).

Definition lists_kept (d d' : Db) : Prop := lists_ok d → lists_ok d'.
#[local] Instance lists_kept_refl : Reflexive lists_kept.
Proof. by intros d Hd. Qed.
#[local] Instance lists_kept_trans : Transitive lists_kept.
Proof. intros d d' d'' H1 H2 Hd. by apply H2, H1. Qed.

Section tables.
Context `{Rusqlite} {R : Type} (row_ok : R → Prop) (place : R → string * string * string) (update : R → R → R).

Lemma upsert_table_ok table id r m m' :
  (∀ old r, place (update old r) = place old) → (∀ old, row_ok old → row_ok (update old r)) → row_ok r →
  upsert_placed place update table id r m = Ok m' → table_ok row_ok place m → table_ok row_ok place m'.
Proof.
  intros Hp Hu Hr Hm [Hf Hi]. unfold upsert_placed in Hm. destruct (m !! id) as [old|] eqn:Hid.
  - injection Hm as <-. split; [apply map_Forall_insert_2; [by eapply Hu, Hf|done]|].
    intros i j x y [[<- <-]|[Hi1 Hx]]%lookup_insert_Some [[<- <-]|[Hj1 Hy]]%lookup_insert_Some Heq;
      rewrite ?Hp in Heq; eauto.
  - destruct (existsb _ _) eqn:Hex; [done|]. injection Hm as <-. split; [by apply map_Forall_insert_2|].
    assert (∀ i x, m !! i = Some x → place x ≠ place r) as Hnew.
    { intros i x Hx Heq. assert (existsb (λ x, bool_decide (place x.2 = place r)) (map_to_list m) = true) as Hc;
        [|by rewrite Hc in Hex]. apply existsb_exists. exists (i, x).
      split; [by apply list_elem_of_In, elem_of_map_to_list|by apply bool_decide_eq_true]. }
    intros i j x y [[<- <-]|[Hi1 Hx]]%lookup_insert_Some [[<- <-]|[Hj1 Hy]]%lookup_insert_Some Heq; [done| | |by eauto].
    + by destruct (Hnew _ _ Hy).
    + by destruct (Hnew _ _ Hx).
Qed.

Lemma delete_table_ok id g m : table_ok row_ok place m → table_ok row_ok place (delete_placed place id g m).2.
Proof.
  intros [Hf Hi]. unfold delete_placed. destruct (m !! id); [case_bool_decide|]; simpl; try done.
  split; [by apply map_Forall_delete|].
  intros i j x y [_ Hx]%lookup_delete_Some [_ Hy]%lookup_delete_Some. eauto.
Qed.
End tables.

Section lists.
Context `{SerdeText} `{Rusqlite} `{AlloyLaws} `{!Contracts} `{!ContractsLaws} `{ProcessEnv}.

(** ** The writes *)

Lemma keeps_write_allow_ok i r now : (∀ t, allow_ok (r t)) → keeps lists_kept (write_allow i r now).
Proof.
  intros Hr. unfold write_allow. keeps_tac. refine (keeps_insert_row _ _ _ _).
  intros d x d' Hd. apply rbind_ok in Hd as (m & Hm & [= <- <-]). intros [Ha Ht]. split; [|exact Ht].
  by eapply (upsert_table_ok allow_ok allow_place update_allow); [| |apply Hr|exact Hm|exact Ha].
Qed.

Lemma keeps_write_token_ok i r now : (∀ t, token_ok (r t)) → keeps lists_kept (write_token i r now).
Proof.
  intros Hr. unfold write_token. keeps_tac. refine (keeps_insert_row _ _ _ _).
  intros d x d' Hd. apply rbind_ok in Hd as (m & Hm & [= <- <-]). intros [Ha Ht]. split; [exact Ha|].
  eapply (upsert_table_ok token_ok token_place update_token); [done| |apply Hr|exact Hm|exact Ht].
  intros old [Hl _]. split; [exact Hl|]. by destruct (Hr (default now (default None (res_ok a)))).
Qed.

Lemma kept_allow_delete g id d : lists_kept d (set_allowlist (λ _, (delete_placed allow_place id g (allowlist d)).2) d).
Proof. intros [Ha Ht]. split; [by apply delete_table_ok|exact Ht]. Qed.
Lemma kept_token_delete g id d : lists_kept d (set_tokens (λ _, (delete_placed token_place id g (tokens d)).2) d).
Proof. intros [Ha Ht]. split; [exact Ha|by apply delete_table_ok]. Qed.

Lemma listed_at_norm chain address c a :
  normalize_allowlist_chain chain = Ok c → normalize_allowlist_address address = Ok a → listed_at c a.
Proof.
  unfold normalize_allowlist_chain, normalize_allowlist_address. intros Hc Ha%ok_or_ok.
  case_bool_decide as Hne; [done|]. injection Hc as <-. split_and!; [done|apply to_ascii_lowercase_idemp|].
  apply normalize_parses in Ha as (x & _ & _ & -> & Hx). by exists x.
Qed.

Ltac lists_tac :=
  repeat first
    [ progress keeps_tac
    | apply keeps_if_member
    | apply keeps_ignore
    | apply keeps_when
    | lazymatch goal with
      | |- Reflexive _ => apply _
      | |- Transitive _ => apply _
      | |- keeps ?R (execute _ _) => refine (keeps_execute R _ _ _); intros ?
      | |- keeps _ (match ?x with _ => _ end) => destruct x eqn:?
      end ].

(** ** Announcements *)

(** The two normal forms an upsert asks for. *)
Lemma keeps_normalized chain address (m : string → string → Act unit) :
  (∀ c a, listed_at c a → keeps lists_kept (m c a)) →
  keeps lists_kept (match normalize_allowlist_chain chain, normalize_allowlist_address address with
                    | Ok c, Ok a => m c a
                    | _, _ => World.mret tt
                    end).
Proof.
  intros Hm. destruct (normalize_allowlist_chain chain) as [c|] eqn:Hc; [|keeps_tac].
  destruct (normalize_allowlist_address address) as [a|] eqn:Ha; [|keeps_tac].
  apply Hm. eapply listed_at_norm; eassumption.
Qed.

Lemma keeps_allow_upsert p e g author : keeps lists_kept (apply_allow_upsert p e g author).
Proof.
  unfold apply_allow_upsert. destruct (json_nonempty_str p "chain") as [chain|]; [|keeps_tac].
  destruct (json_nonempty_str p "contract_address") as [address|]; [|keeps_tac].
  apply keeps_bind; [apply _|keeps_tac|]. intros conn. destruct (negb _); [keeps_tac|].
  apply (keeps_normalized chain address). intros c a Hl. lists_tac. by apply keeps_write_allow_ok.
Qed.

Lemma keeps_token_plan plan author :
  match plan with Upsert _ _ _ symbol decimals _ => blank symbol = false ∧ 0 ≤ decimals ≤ 36 | Remove _ _ => True end →
  keeps lists_kept (apply_token_plan plan author).
Proof.
  intros Hp. unfold apply_token_plan.
  apply keeps_bind; [apply _|keeps_tac|]. intros conn. destruct (negb _); [keeps_tac|].
  destruct plan as [g chain address symbol decimals e|g e].
  - apply (keeps_normalized chain address). intros c a Hl. lists_tac. destruct Hp. by apply keeps_write_token_ok.
  - lists_tac. rewrite (surjective_pairing (delete_placed _ _ _ _)). apply kept_token_delete.
Qed.

Lemma keeps_allow_announce c chat a : keeps lists_kept (try_apply_squad_contract_allowlist_announce c chat a).
Proof.
  unfold try_apply_squad_contract_allowlist_announce, apply_allow_remove. pose proof keeps_allow_upsert.
  destruct (announced _ _ _ _ _) as [[[author p] parent]|]; lists_tac.
  rewrite (surjective_pairing (delete_placed _ _ _ _)). apply kept_allow_delete.
Qed.

Lemma plan_ok content chat author plan : plan_tracked_tokens_announce content chat author = Some plan →
  match plan with Upsert _ _ _ symbol decimals _ => blank symbol = false ∧ 0 ≤ decimals ≤ 36 | Remove _ _ => True end.
Proof.
  unfold plan_tracked_tokens_announce. intros Hp. apply bind_Some in Hp as (p & _ & Hp).
  apply bind_Some in Hp as (g & _ & Hp). destruct (_ || _); [done|].
  destruct (bool_decide (action_of p = "remove")).
  - destruct (json_nonempty_str p "entry_id"); [|done]. by injection Hp as <-.
  - apply bind_Some in Hp as (c & _ & Hp). apply bind_Some in Hp as (t & _ & Hp).
    apply bind_Some in Hp as (s & Hs & Hp). apply bind_Some in Hp as (n & Hn & Hp).
    destruct (Z.leb_spec n 36); [|done]. injection Hp as <-. apply trimmed_opt_Some in Hs as [_ Hs]. split; [done|].
    apply bind_Some in Hn as (v & _ & Hv). destruct v; try done. simpl in Hv. case_bool_decide; [|done].
    injection Hv as <-. lia.
Qed.

Lemma keeps_token_announce c chat a : keeps lists_kept (try_apply_squad_tracked_tokens_announce c chat a).
Proof.
  unfold try_apply_squad_tracked_tokens_announce.
  destruct (author ← trimmed_opt a; _) as [[author plan]|] eqn:Ha; [|keeps_tac].
  apply bind_Some in Ha as (x & _ & Ha).
  apply fmap_Some in Ha as (plan' & Hp & [= -> ->]). apply plan_ok in Hp.
  apply keeps_if_member; [apply _..|]. by apply keeps_token_plan.
Qed.

(** ** Commands *)

Lemma quiet_require_capability pid c stack : quiet (require_capability pid c stack).
Proof.
  intros o. assert (EvmFacts.reads (require_capability pid c stack) o (λ _, True)) as Hr;
    [|eapply dwp_mono; [exact Hr|]; by intros r o' [-> _]].
  eapply reads_bind; [apply reads_evaluate|]. intros snap _. cbv zeta. destruct (default false _); [by apply reads_ret|apply reads_throw].
Qed.
#[local] Hint Resolve quiet_require_capability : quiet.

Lemma quiet_require_mutation pid : quiet (require_allowlist_mutation_allowed pid).
Proof. unfold require_allowlist_mutation_allowed, parent_has_pacto_gov_infra. quiet_tac. Qed.
#[local] Hint Resolve quiet_require_mutation : quiet.

Inductive ListOp : Type :=
| AllowAnnounced (content chat_id : string) (author_npub : option string)
| TokenAnnounced (content chat_id : string) (author_npub : option string)
| AddContract (parent_id chain contract_address label : string) (abi_ref notes : option string)
| RemoveContract (parent_id id : string)
| AddToken (parent_id chain token_address symbol : string) (decimals : Z)
| RemoveToken (parent_id id : string)
| ListThem (parent_id : string).

Definition run_list_op (op : ListOp) : Act unit :=
  match op with
  | AllowAnnounced c chat a => try_apply_squad_contract_allowlist_announce c chat a
  | TokenAnnounced c chat a => try_apply_squad_tracked_tokens_announce c chat a
  | AddContract p c t l abi n => attempt (upsert_squad_contract_allowlist p c t l abi n) ;! World.mret tt
  | RemoveContract p i => attempt (remove_squad_contract_allowlist p i) ;! World.mret tt
  | AddToken p c t s n => attempt (upsert_squad_tracked_token p c t s (n `mod` 256)) ;! World.mret tt
  | RemoveToken p i => attempt (remove_squad_tracked_token p i) ;! World.mret tt
  | ListThem p => attempt (list_squad_contract_allowlist p) ;! attempt (list_squad_tracked_tokens p) ;! World.mret tt
  end.

Lemma keeps_add_contract p c t l abi n : keeps lists_kept (upsert_squad_contract_allowlist p c t l abi n).
Proof.
  intros o. unfold upsert_squad_contract_allowlist. apply (rel_skip lists_kept); [quiet_tac|]. intros _.
  eapply (rel_reads lists_kept); [by apply (reads_of_result _ _ (λ x, normalize_allowlist_chain c = Ok x))|].
  intros chain Hc.
  eapply (rel_reads lists_kept); [by apply (reads_of_result _ _ (λ x, normalize_allowlist_address t = Ok x))|].
  intros addr Ha. do 4 (apply (rel_skip lists_kept); [quiet_tac|]; intros ?).
  apply keeps_bind; [apply _| |intros; keeps_tac]. apply keeps_write_allow_ok. intros x. eapply listed_at_norm; [exact Hc|exact Ha].
Qed.

Lemma keeps_add_token p c t s n : 0 ≤ n → keeps lists_kept (upsert_squad_tracked_token p c t s n).
Proof.
  intros Hn o. unfold upsert_squad_tracked_token.
  eapply (rel_reads lists_kept); [by apply (reads_of_result _ _ (λ x, normalize_allowlist_chain c = Ok x))|].
  intros chain Hc.
  eapply (rel_reads lists_kept); [by apply (reads_of_result _ _ (λ x, normalize_allowlist_address t = Ok x))|].
  intros addr Ha. case_bool_decide as Hs; [by apply dwp_throw|].
  destruct (Z.ltb_spec 36 n); [by apply dwp_throw|]. do 5 (apply (rel_skip lists_kept); [quiet_tac|]; intros ?).
  apply keeps_bind; [apply _| |intros; keeps_tac]. apply keeps_write_token_ok. intros x.
  split; [eapply listed_at_norm; [exact Hc|exact Ha]|]. split; [simpl; lia|]. simpl. rewrite blank_trim. by apply bool_decide_eq_false_2.
Qed.

Lemma keeps_remove_contract p i : keeps lists_kept (remove_squad_contract_allowlist p i).
Proof.
  unfold remove_squad_contract_allowlist. lists_tac. rewrite (surjective_pairing (delete_placed _ _ _ _)).
  apply kept_allow_delete.
Qed.
Lemma keeps_remove_token p i : keeps lists_kept (remove_squad_tracked_token p i).
Proof.
  unfold remove_squad_tracked_token. lists_tac. rewrite (surjective_pairing (delete_placed _ _ _ _)).
  apply kept_token_delete.
Qed.

(** C34. Listed contracts and tokens are well formed. After any history of members'
    announcements and of commands, whatever fails: if at the start every row has a chain in
    lower case and an address in normal form, every token a symbol and at most 36 decimals,
    and no two rows of a list are of one squad, chain and address, it is so at the end. *)
Theorem lists_well_formed ops o : lists_ok (o_db o) →
  dwp (foldM (λ _ op, run_list_op op) tt ops) o (λ _ o', lists_ok (o_db o')).
Proof.
  intros Hok. assert (keeps lists_kept (foldM (λ _ op, run_list_op op) tt ops)) as Hk.
  { pose proof keeps_allow_announce. pose proof keeps_token_announce. pose proof keeps_add_contract.
    pose proof keeps_remove_contract. pose proof keeps_remove_token.
    pose proof (λ p c t s n, keeps_add_token p c t s (n `mod` 256) ltac:(apply Z.mod_pos_bound; lia)).
    unfold run_list_op, list_squad_contract_allowlist, list_squad_tracked_tokens. keeps_tac. }
  eapply dwp_mono; [apply Hk|]. intros r o' Hr. by apply Hr.
Qed.

(** ** Who may edit tracked tokens *)

(** The chain gave the account a hat that may edit them, and the squad is deployed. *)
Definition may_edit_tokens (d : Db) (pid : string) : Prop :=
  (∃ ctx, hats_on_chain d pid Live ctx ∧ capability_allowed MutateTrackedTokens ctx = true) ∧
  has_infra d pid "pacto_gov" = true.

Lemma reads_require_tokens pid o : trim pid = pid →
  EvmFacts.reads (require_capability pid MutateTrackedTokens Live) o
    (λ _, ∃ ctx, hats_on_chain (o_db o) pid Live ctx ∧ capability_allowed MutateTrackedTokens ctx = true).
Proof.
  intros Hp. eapply reads_bind; [apply reads_evaluate|].
  intros snap (ctx & full & paused & -> & Hctx). rewrite !Hp in *. rewrite flag_decides.
  apply reads_of_result. intros [] Hd. exists ctx. unfold decide_capability in Hd.
  destruct (capability_allowed MutateTrackedTokens ctx) eqn:Ha; [|done].
  split; [|done]. by destruct Hctx as [->|?].
Qed.

Lemma reads_require_deployed pid o : trim pid = pid →
  EvmFacts.reads (require_allowlist_mutation_allowed pid) o (λ _, has_infra (o_db o) pid "pacto_gov" = true).
Proof.
  intros Hp. unfold require_allowlist_mutation_allowed. rewrite Hp. case_bool_decide; [apply reads_throw|].
  apply reads_skip; [quiet_tac|]. intros _. unfold parent_has_pacto_gov_infra.
  eapply (reads_bind _ _ _ (λ b, b = true → has_infra (o_db o) pid "pacto_gov" = true)).
  - eapply reads_bind; [by apply reads_attempt, (reads_query _ _ _ (λ b, b = has_infra (o_db o) pid "pacto_gov"))|].
    intros [b|e] Hb; apply reads_ret; simpl; [by rewrite (Hb b)|done].
  - intros [] Hb; [by apply reads_ret; auto|apply reads_throw].
Qed.

(** Only who the chain allows edits tracked tokens by command. Whatever fails, adding or
    removing a token changes nothing unless the squad has deployed its governance and the
    account's own roster address wore, on the chain, a hat that allows it. *)
Theorem token_edits_granted p chain token_address symbol decimals id o :
  dwp (upsert_squad_tracked_token p chain token_address symbol decimals) o
    (λ _ o', o_db o' = o_db o ∨ may_edit_tokens (o_db o) (trim p)) ∧
  dwp (remove_squad_tracked_token p id) o
    (λ _ o', o_db o' = o_db o ∨ may_edit_tokens (o_db o) (trim p)).
Proof.
  set (R := λ d d' : Db, d' = d ∨ may_edit_tokens (o_db o) (trim p)).
  assert (Reflexive R) as HR by (intros d; by left).
  assert (∀ A (m : Act A), may_edit_tokens (o_db o) (trim p) → dwp m o (λ _ o', R (o_db o) (o_db o'))) as Hgo
    by (intros A m Hm w _; by right).
  assert (∀ A (m : Act A), dwp m o (λ _ o', R (o_db o) (o_db o')) →
    dwp m o (λ _ o', o_db o' = o_db o ∨ may_edit_tokens (o_db o) (trim p))) as HR' by done.
  split; apply HR'.
  - unfold upsert_squad_tracked_token. do 2 (apply (rel_skip R); [quiet_tac|intros ?]).
    case_bool_decide; [by apply dwp_throw; left|]. destruct (36 <? decimals); [by apply dwp_throw; left|].
    eapply (rel_reads R); [by apply reads_require_tokens, trim_idemp|]. intros u Hc.
    do 2 (apply (rel_skip R); [quiet_tac|intros ?]).
    eapply (rel_reads R); [by apply reads_require_deployed, trim_idemp|]. intros u2 Hd. by apply Hgo.
  - unfold remove_squad_tracked_token. destruct (_ || _); [by apply dwp_throw; left|].
    eapply (rel_reads R); [by apply reads_require_tokens, trim_idemp|]. intros u Hc.
    apply (rel_skip R); [quiet_tac|intros ?].
    eapply (rel_reads R); [by apply reads_require_deployed, trim_idemp|]. intros u2 Hd. by apply Hgo.
Qed.
End lists.

(** ** Examples *)

Definition toy_row_token : TokenSqlRow :=
  mkToken "g" "sepolia" (address_hex 7) "TOK" 18 "bob" 0 0.
Definition toy_listed : Db := set_tokens (λ _, {["tracked-1" := toy_row_token]}) toy_governed.

Lemma toy_lists_ok : lists_ok toy_listed.
Proof.
  split; [change (allowlist toy_listed) with (∅ : gmap string AllowSqlRow);
    split; [apply map_Forall_empty|by intros ? ? ? ? ?%lookup_empty_Some]|].
  change (tokens toy_listed) with ({["tracked-1" := toy_row_token]} : gmap string TokenSqlRow). split.
  - apply map_Forall_singleton. split; [split; [done|]; split; [done|]; exists 7; split; by vm_compute|]. split; [simpl; lia|done].
  - intros i j x y [<- _]%lookup_singleton_Some [<- _]%lookup_singleton_Some _. done.
Qed.

(** A member tracks a token under the id of a row there is, and [alice] removes it. *)
Lemma lists_well_formed_witness :
  dwp (foldM (λ _ op, run_list_op op) tt
    [TokenAnnounced (to_text (JObj [("type", JStr "squad_tracked_tokens_updated"); ("payload",
       JObj [("parent_id", JStr "g"); ("chain", JStr "Sepolia"); ("token_address", JStr toy_address);
             ("symbol", JStr "T"); ("decimals", JNum 6); ("entry_id", JStr "tracked-1")])])) "g" (Some "bob");
     RemoveToken "g" "tracked-1"]) (toy_obs toy_listed) (λ _ o', lists_ok (o_db o')).
Proof. exact (lists_well_formed _ (toy_obs toy_listed) toy_lists_ok). Defined.

Lemma token_edits_granted_witness :
  dwp (remove_squad_tracked_token "g" "tracked-1") (toy_obs toy_listed)
    (λ _ o', o_db o' = toy_listed ∨ may_edit_tokens toy_listed "g").
Proof. exact (proj2 (token_edits_granted "g" "" "" "" 0 "tracked-1" (toy_obs toy_listed))). Defined.
