(* ===== verification/EventTheorems.v ===== *)
(** * The properties of the squad events *)

From S2P Require Import Prelude World Json Lww Chat Schema Records Pending CivilTime.
From S2P Require Import ContentPolicy EventModel EventValidation SquadEvent EventSpec EventRefines.
From S2P Require Import SquadEventCommands EventSteps EventConverge EventQueue.
From S2P Require Import EventOwn Toy.

(** ** Histories of rumors and commands *)

Section histories.
Context `{Chrono} `{SerdeText} `{Hashing} `{Rusqlite} `{Nostr}.

(** C1. Over every history of squad event rumors and squad event commands, in whatever
    order, and whatever database, network and clock do: no event or RSVP is lost, an event
    keeps its group, parent, series, author and creation stamp, its stamp only moves
    forward and equal stamps mean equal content, and a cancelled event stays
    cancelled. Content-policy rumors, by which an admin deletes other members' events, are
    not part of these histories. *)
Theorem history_forward (cs : list Command) (o : Obs) :
  dwp (run_commands cs) o (λ _ o', replica_le (o_db o) (o_db o')).
Proof. apply kept_run_commands, _. Qed.

(** The same histories never touch content policies, docs, groups, chat rows,
    settings, the account or the engine: the event replica writes only its own
    tables and the loaded chats. *)
Theorem history_frame (cs : list Command) (o : Obs) :
  dwp (run_commands cs) o (λ _ o', event_frame (o_db o) (o_db o')).
Proof. apply kept_run_commands, _. Qed.

(** If every stored row decodes to valid fields and every RSVP to a status,
    that stays so through every history: no peer can store a malformed event. *)
Theorem history_valid (cs : list Command) (o : Obs) :
  rows_valid (o_db o) → dwp (run_commands cs) o (λ _ o', rows_valid (o_db o')).
Proof.
  intros Hv. eapply dwp_mono; [apply (kept_run_commands (λ d d', rows_valid d → rows_valid d'))|].
  intros r o' Hk. by apply Hk.
Qed.
End histories.

Lemma history_valid_witness :
  rows_valid (o_db (toy_obs toy_stored)) ∧
  dwp (run_commands [CCancel "g" "g" "e"; CRsvp "g" "g" "e" Declined; CList "g"])
    (toy_obs toy_stored) (λ _ o', rows_valid (o_db o')).
Proof. split; [apply toy_stored_valid|apply history_valid, toy_stored_valid]. Defined.

(** ** One operation *)

Section operation.
Context `{Chrono} `{SerdeText} `{Hashing} `{Rusqlite}.

(** C3. [apply_op] implements the pure specification [apply_spec]: whatever fails,
    an [Ok] outcome is the specified one and an error leaves the database
    untouched or after a prefix of the operation; and without faults, on a
    database whose rows decode, it does succeed. *)
Theorem apply_op_refines w meta role now (o : Obs) :
  dwp (apply_op w meta role now) o (refines_apply o w meta role now) ∧
  (rows_ok (o_db o) → lwp (apply_op w meta role now) o (λ a o',
     o_log o' = o_log o ∧ (a, o_db o') = apply_spec (o_db o) w meta role now)).
Proof. split; [apply apply_op_dwp|apply apply_op_lwp]. Qed.

(** C2. Authority, whatever fails: only a member writing through the parent's own
    group changes anything; an event row changes only when the operation names it
    and its signer is the author or an admin in the row's own group; a new row
    needs an admin or an unrestricted squad and belongs to its signer; an RSVP
    changes only at the named event and only for the signer. *)
Theorem apply_op_authority w meta role now (o : Obs) :
  dwp (apply_op w meta role now) o (λ _ o',
    (o_db o' ≠ o_db o → admitted w meta role) ∧
    (∀ id, db_events (o_db o') !! id ≠ db_events (o_db o) !! id → w_id w = Some id ∧
       match db_events (o_db o) !! id with
       | Some r => e_mls_group_id r = om_mls_group_id meta ∧ e_parent_id r = w_parent_id w ∧
           (om_signer_npub meta = e_author_npub r ∨ is_admin role = true)
       | None => (is_admin role = true ∨
             restrict_event_create (stored_policy (o_db o) (w_parent_id w)) = false) ∧
           (e_author_npub <$> db_events (o_db o') !! id) = Some (om_signer_npub meta)
       end) ∧
    (∀ id npub, db_rsvps (o_db o') !! (id, npub) ≠ db_rsvps (o_db o) !! (id, npub) →
       w_id w = Some id ∧ npub = om_signer_npub meta)).
Proof.
  eapply dwp_mono; [apply apply_op_step|]. intros _ o' [_ Hs]. revert Hs.
  generalize (o_db o) as d, (o_db o') as d'. intros d d' Hs. split.
  { intros Hne. by destruct Hs. }
  destruct (ev_step_tables _ _ _ _ _ _ Hs) as [He Hr].
  split; [|exact Hr]. intros id Hne. destruct (He id Hne) as [Hid Hrow]. split; [done|].
  destruct (db_events d !! id); naive_solver.
Qed.
End operation.

(** * The properties of deliveries: order independence and the queue

    Replicas that get the same operations in different orders agree, operations
    that come before their create included, and the queue of early operations
    stays small. *)

Section delivery.
Context `{Chrono} `{SerdeText} `{Hashing} `{Rusqlite}.

Lemma row_valid_status r : row_valid r → status_known r.
Proof.
  intros (row & Hd & _). apply row_from_sql_ok in Hd as []. unfold status_known.
  rewrite dc_status. destruct (row_status row); [by left|by right].
Qed.

(** What a set of writes leaves: the newest content, cancelled when any write
    cancels. *)
Record settled_row (r : EventSqlRow) (xs : list Delivery) (r' : EventSqlRow) : Prop := {
  sr_newest : Forall (λ x, dl_stamp x ≤ e_updated_at_ms r') xs;
  sr_content : content_of r' = content_of r ∨
    ∃ x, x ∈ xs ∧ content_of r' = content_of (delivered x blank_row);
  sr_cancelled : e_status r' = "cancelled" ↔
    e_status r = "cancelled" ∨ ∃ x, x ∈ xs ∧ dl_cancels x;
}.

Lemma row_fold_settled r xs : writes_ok r xs → settled_row r xs (reg_fold r xs).
Proof.
  intros Hok. pose proof (reg_fold_refines xs r Hok) as Hv.
  destruct (lww_fold_max (wr_view <$> xs) (reg_view r)) as [Hc Hn]. rewrite <- Hv in Hc, Hn.
  split.
  - apply Forall_forall. intros x Hx. rewrite Forall_forall in Hn.
    exact (Hn _ (list_elem_of_fmap_2 wr_view xs x Hx)).
  - destruct Hc as [Hc|Hc]; [left; exact (f_equal snd Hc)|right].
    apply list_elem_of_fmap in Hc as (x & Hx & Hin). exists x. split; [done|].
    exact (f_equal snd Hx).
  - by apply row_fold_status.
Qed.

(** C4. Creates replayed, updates and cancels of one event, by whoever may write
    it, with pairwise different stamps, give the same row in every order of delivery, when
    no call fails: the newest write's columns, cancelled exactly when the row was or one of
    them cancels. The stored rows decode, and no two different writes, the row's own among
    them, have one content hash.
    (Of two writes with one stamp the code keeps the first to arrive.) *)
Theorem writes_converge id r (o : Obs) xs ys :
  rows_valid (o_db o) → db_events (o_db o) !! id = Some r →
  xs ≡ₚ ys → Forall (write_delivery id r) xs → writes_ok r xs → NoDup (dl_stamp <$> xs) →
  ∃ r', settled_row r xs r' ∧
    lwp (deliver_all xs) o (λ _ o', db_events (o_db o') !! id = Some r') ∧
    lwp (deliver_all ys) o (λ _ o', db_events (o_db o') !! id = Some r').
Proof.
  intros Hv Hr Hp Hx Hok Hnd. exists (reg_fold r xs). split_and!.
  - by apply row_fold_settled.
  - by apply deliver_all_lwp.
  - assert (status_known r) as Hst by (eapply row_valid_status, (rv_events _ Hv id r Hr)).
    rewrite (row_fold_converges r xs ys Hst Hp Hok Hnd).
    apply deliver_all_lwp; [done..|by rewrite <- Hp|by eapply writes_ok_perm].
Qed.

(** The RSVPs of one member to one event give the same answer in every order
    of delivery: the newest one's. *)
Theorem rsvps_converge id npub r (o : Obs) xs ys xs' ys' :
  rows_valid (o_db o) → db_events (o_db o) !! id = Some r →
  Forall2 (rsvp_delivery id npub r) xs ys → Forall2 (rsvp_delivery id npub r) xs' ys' →
  ys ≡ₚ ys' → writes_ok (db_rsvps (o_db o) !! (id, npub)) ys → NoDup (rw_stamp <$> ys) →
  ∃ s, (s = db_rsvps (o_db o) !! (id, npub) ∨ ∃ y, y ∈ ys ∧ s = wr_val y) ∧
    Forall (λ y, rw_stamp y ≤ from_option rs_updated_at_ms (-1) s) ys ∧
    lwp (deliver_all xs) o (λ _ o', db_rsvps (o_db o') !! (id, npub) = s) ∧
    lwp (deliver_all xs') o (λ _ o', db_rsvps (o_db o') !! (id, npub) = s).
Proof.
  intros Hv Hr Hx Hx' Hp Hok Hnd. set (s0 := db_rsvps (o_db o) !! (id, npub)) in *.
  pose proof (reg_fold_refines ys s0 Hok) as Hview.
  destruct (lww_fold_max (wr_view <$> ys) (reg_view s0)) as [Hc Hn]. rewrite <- Hview in Hc, Hn.
  exists (reg_fold s0 ys). split_and!.
  - destruct Hc as [Hc|Hc]; [left; exact (f_equal snd Hc)|right].
    apply list_elem_of_fmap in Hc as (y & Hy & Hin). exists y. split; [done|].
    exact (f_equal snd Hy).
  - apply Forall_forall. intros y Hy. rewrite Forall_forall in Hn.
    exact (Hn _ (list_elem_of_fmap_2 wr_view ys y Hy)).
  - by apply (deliver_rsvps_lwp id npub r).
  - eapply lwp_mono; [by apply (deliver_rsvps_lwp id npub r xs' ys')|].
    intros [] o' ->. symmetry. exact (f_equal snd (reg_converges s0 ys ys' Hp Hok Hnd)).
Qed.

(** C21. A well-formed operation of a member that arrives before its create can wait for
    it: delivered first, queued, and drained once the create is in, it leaves the events and
    RSVPs as if it had come after the create. This is so when no call fails, the stored rows decode, its rumor
    is not queued already and no other operation of that event is, its author has fewer than
    200 waiting in the squad, its stamp is not older than the time to live when the queue is
    drained, and its author then has the role of its delivery; it can be lost otherwise. *)
Theorem early_child_lands `{!SerdeTextLaws} id (c x : Delivery) role_of now (o : Obs) :
  rows_valid (o_db o) → db_events (o_db o) !! id = None →
  create_delivery id (o_db o) c → child_delivery id x →
  (∀ k r, db_pending (o_db o) !! k = Some r → p_record_id r ≠ id) →
  db_pending (o_db o) !! om_rumor_id (dl_meta x) = None →
  (length (author_rows (w_parent_id (dl_wire x)) (dl_npub x) (db_pending (o_db o)))
     < MAX_PENDING_PER_AUTHOR)%nat →
  role_of (dl_npub x) = dl_role x → saturating_sub now PENDING_TTL_MS ≤ dl_stamp x →
  ∃ d, lwp (deliver c ;! deliver x) o (λ _ o', agree d (o_db o')) ∧
    lwp (deliver x ;! deliver c ;! drain_pending id role_of now) o (λ _ o', agree d (o_db o')).
Proof.
  intros Hv Hn Hc Hx Hno Hfresh Hlen Hrole Httl.
  destruct (create_spec_facts (o_db o) id (dl_wire c) (dl_fields c) (dl_meta c) (dl_role c)
    (cr_allowed _ _ _ Hc)) as [[r Hr] Hpend].
  set (d1 := (create_spec (o_db o) id (dl_wire c) (dl_fields c) (dl_meta c) (dl_role c)).2) in *.
  exists (stored_spec d1 id r (dl_wire x) (dl_meta x) (dl_role x)).2.
  destruct (child_op id x Hx) as [Hs _].
  split.
  - lstep. unfold deliver at 1. lstep.
    eapply lwp_mono; [eapply lwp_dwp; [apply apply_op_lwp; by apply rows_valid_ok|]|].
    { apply (kept_apply_op (λ d d', rows_valid d → rows_valid d')). }
    intros a o1 [[_ Ha] Hk]. apply (f_equal snd) in Ha. simpl in Ha.
    rewrite (apply_spec_create id c) in Ha by done. fold d1 in Ha.
    lstep. unfold deliver. lstep.
    eapply lwp_mono; [apply apply_op_lwp; by apply rows_valid_ok, Hk|].
    intros a' o2 [_ Ha']. apply (f_equal snd) in Ha'. simpl in Ha'. lstep. rewrite Ha', Ha.
    by rewrite (apply_spec_stored id r) by (done || apply Hx).
  - lstep. unfold deliver at 1. lstep.
    eapply lwp_mono; [eapply lwp_dwp; [apply apply_op_lwp; by apply rows_valid_ok|]|].
    { apply (kept_apply_op (λ d d', rows_valid d → rows_valid d')). }
    intros a o1 [[_ Ha] Hk1]. apply (f_equal snd) in Ha. simpl in Ha.
    rewrite (apply_spec_child id x) in Ha by done.
    pose proof (queue_waiting id x (o_db o) Hno Hfresh Hlen) as Hw. rewrite <- Ha in Hw.
    assert (agree (o_db o) (o_db o1)) as Hag by (rewrite Ha; by split).
    repeat lstep. unfold deliver.
    assert (create_delivery id (o_db o1) c) as Hc1.
    { destruct Hc as [? ? ? ? Hal]. split; try done. revert Hal.
      unfold may_create_spec, stored_policy. by rewrite (ag_policies _ _ Hag). }
    lstep. eapply lwp_mono; [eapply lwp_dwp; [apply apply_op_lwp; by apply rows_valid_ok, Hk1|]|].
    { apply (kept_apply_op (λ d d', rows_valid d → rows_valid d')). }
    intros a2 o2 [[_ Ha2] Hk2]. apply (f_equal snd) in Ha2. simpl in Ha2.
    rewrite (apply_spec_create id c) in Ha2
      by (done || by rewrite <- (ag_events _ _ Hag)).
    destruct (create_spec_facts (o_db o1) id (dl_wire c) (dl_fields c) (dl_meta c) (dl_role c)
      (cr_allowed _ _ _ Hc1)) as [_ Hpend1].
    pose proof (create_spec_agree (o_db o) (o_db o1) id (dl_wire c) (dl_fields c) (dl_meta c)
      (dl_role c) Hag) as Hag1. fold d1 in Hag1. rewrite <- Ha2 in Hag1, Hpend1.
    lstep. eapply lwp_mono.
    + apply (drain_waiting id x r); [by apply Hk2, Hk1| |done|by rewrite Hpend1|done|done].
      by rewrite <- (ag_events _ _ Hag1).
    + intros b o3 Hag3. pose proof (stored_spec_agree d1 (o_db o2) id r (dl_wire x) (dl_meta x)
        (dl_role x) Hag1) as Hag4.
      destruct Hag3, Hag4. split; congruence.
Qed.
End delivery.

(** ** Witnesses: the example squad *)

(** An admin's update and the author's cancel. *)
Definition toy_edit : Delivery :=
  mkDelivery toy_update (mkOpMeta "r2" "g" "alice") admin 5000 toy_fields'.
Definition toy_stop : Delivery :=
  mkDelivery toy_cancel (mkOpMeta "r3" "g" "bob") member 5000 toy_fields.
Definition toy_start : Delivery :=
  mkDelivery toy_create (mkOpMeta "r1" "g" "bob") member 5000 toy_fields.
Definition toy_answer : Delivery :=
  mkDelivery toy_rsvp (mkOpMeta "r4" "g" "carol") member 5000 toy_fields.

Lemma toy_writes_deliverable :
  Forall (write_delivery "e" toy_row) [toy_edit; toy_stop].
Proof.
  repeat constructor; vm_compute; try reflexivity; (right; split; [by auto|reflexivity]).
Qed.

Lemma toy_writes_ok : writes_ok toy_row [toy_edit; toy_stop].
Proof.
  split.
  - apply Forall_cons; split; [|apply Forall_cons; split; [|by apply Forall_nil]];
      (split; [vm_compute; reflexivity|]);
      intros Hh; exfalso; revert Hh; apply String.eqb_neq; vm_compute; reflexivity.
  - assert (dl_hash toy_edit ≠ dl_hash toy_stop) as Hne
      by (apply String.eqb_neq; vm_compute; reflexivity).
    intros x y [-> |[-> |[]%not_elem_of_nil]%elem_of_cons]%elem_of_cons
      [-> |[-> |[]%not_elem_of_nil]%elem_of_cons]%elem_of_cons Hh; done.
Qed.

Lemma writes_converge_witness :
  NoDup (dl_stamp <$> [toy_edit; toy_stop]) ∧
  ∃ r', settled_row toy_row [toy_edit; toy_stop] r' ∧
    lwp (deliver_all [toy_edit; toy_stop]) (toy_obs toy_stored)
      (λ _ o', db_events (o_db o') !! "e" = Some r') ∧
    lwp (deliver_all [toy_stop; toy_edit]) (toy_obs toy_stored)
      (λ _ o', db_events (o_db o') !! "e" = Some r').
Proof.
  assert (NoDup (dl_stamp <$> [toy_edit; toy_stop])) as Hnd
    by (vm_compute; repeat constructor; set_solver).
  split; [exact Hnd|].
  apply (writes_converge "e" toy_row (toy_obs toy_stored) [toy_edit; toy_stop]
    [toy_stop; toy_edit]).
  - apply toy_stored_valid.
  - reflexivity.
  - constructor.
  - apply toy_writes_deliverable.
  - apply toy_writes_ok.
  - exact Hnd.
Defined.

Definition toy_answer' : Delivery :=
  mkDelivery (rsvp_wire "e" "g" Accepted 2600) (mkOpMeta "r5" "g" "carol") member 5000 toy_fields.
Definition toy_no : RsvpWrite := mkRsvpWrite Declined 2500 "r4".
Definition toy_yes : RsvpWrite := mkRsvpWrite Accepted 2600 "r5".

Lemma rsvps_converge_witness :
  NoDup (rw_stamp <$> [toy_no; toy_yes]) ∧
  ∃ s, (s = db_rsvps toy_stored !! ("e", "carol") ∨
        ∃ y, y ∈ [toy_no; toy_yes] ∧ s = wr_val y) ∧
    Forall (λ y, rw_stamp y ≤ from_option rs_updated_at_ms (-1) s) [toy_no; toy_yes] ∧
    lwp (deliver_all [toy_answer; toy_answer']) (toy_obs toy_stored)
      (λ _ o', db_rsvps (o_db o') !! ("e", "carol") = s) ∧
    lwp (deliver_all [toy_answer'; toy_answer]) (toy_obs toy_stored)
      (λ _ o', db_rsvps (o_db o') !! ("e", "carol") = s).
Proof.
  assert (NoDup (rw_stamp <$> [toy_no; toy_yes])) as Hnd
    by (vm_compute; repeat constructor; set_solver).
  split; [exact Hnd|].
  apply (rsvps_converge "e" "carol" toy_row (toy_obs toy_stored) [toy_answer; toy_answer']
    [toy_no; toy_yes] [toy_answer'; toy_answer] [toy_yes; toy_no]).
  - apply toy_stored_valid.
  - reflexivity.
  - repeat constructor.
  - repeat constructor.
  - constructor.
  - split; [repeat constructor; simpl; intros; done|].
    intros x y [-> |[-> |[]%not_elem_of_nil]%elem_of_cons]%elem_of_cons
      [-> |[-> |[]%not_elem_of_nil]%elem_of_cons]%elem_of_cons; done.
  - exact Hnd.
Defined.

Lemma early_child_lands_witness :
  create_delivery "e" toy_squad toy_start ∧ child_delivery "e" toy_answer ∧
  ∃ d, lwp (deliver toy_start ;! deliver toy_answer) (toy_obs toy_squad)
      (λ _ o', agree d (o_db o')) ∧
    lwp (deliver toy_answer ;! deliver toy_start ;! drain_pending "e" (λ _, member) 5000)
      (toy_obs toy_squad) (λ _ o', agree d (o_db o')).
Proof.
  assert (create_delivery "e" toy_squad toy_start) as Hc
    by (repeat constructor; vm_compute; reflexivity).
  assert (child_delivery "e" toy_answer) as Hx.
  { split; [reflexivity|by split|vm_compute; reflexivity| |].
    - split; try (intros ? [=]); vm_compute; split; congruence.
    - split; [reflexivity|]. split; [vm_compute; reflexivity|]. right. exists "e".
      split; [reflexivity|vm_compute; reflexivity]. }
  split; [exact Hc|]. split; [exact Hx|].
  apply early_child_lands; [apply toy_squad_valid|reflexivity|exact Hc|exact Hx| | | |
    reflexivity|vm_compute; congruence].
  - intros k r Hk. exfalso. exact (lookup_empty_Some k r Hk).
  - reflexivity.
  - vm_compute. lia.
Defined.

(** * The properties of event forms and wires

    Validation is the declarative notion of a well-formed event, forms yield the
    occurrences their calendar asks for, and every wire the client builds is read
    back by its peers. *)

Section forms.
Context `{Chrono}.

(** [validate_fields] accepts exactly the well-formed events, and its errors
    come in the order title, place, zone, time. *)
Theorem validate_iff f :
  (validate_fields f = Ok tt ↔ fields_valid f) ∧
  (validate_fields f = Err err.INVALID_TITLE ↔ blank (f_title f) = true) ∧
  (validate_fields f = Err err.INVALID_PLACE ↔
     blank (f_title f) = false ∧ blank (f_location f) = true) ∧
  (validate_fields f = Err err.INVALID_ZONE ↔
     blank (f_title f) = false ∧ blank (f_location f) = false ∧ ¬ known_zone (f_start_tzid f)) ∧
  (validate_fields f = Err err.INVALID_TIME ↔
     blank (f_title f) = false ∧ blank (f_location f) = false ∧ known_zone (f_start_tzid f) ∧
     ¬ (timed_shape f ∨ all_day_shape f)).
Proof.
  split; [apply validate_fields_ok|].
  rewrite validate_fields_split. unfold validate_fields_shape.
  destruct (blank (f_title f)); simpl; [naive_solver|].
  destruct (blank (f_location f)); simpl; [naive_solver|].
  destruct (validate_tzid (f_start_tzid f)) as [[]|e] eqn:Hz; simpl.
  - apply validate_tzid_ok in Hz.
    assert (∀ e, validate_times f = Err e → e = err.INVALID_TIME) as He.
    { unfold validate_times, parse_date, ok_or, rbind. intros e.
      repeat (case_match; simplify_eq/=); naive_solver. }
    rewrite <- validate_times_ok. destruct (validate_times f) as [[]|e]; [naive_solver|].
    rewrite (He e eq_refl). naive_solver.
  - assert (¬ known_zone (f_start_tzid f)) as Hn by (intros Hk%validate_tzid_ok; congruence).
    naive_solver.
Qed.

(** The occurrences of a form: as many as asked for, each well-formed with the
    form's text; in a timed weekly series the [i]-th one starts at the instant of
    the first start's wall clock [7 * i] days on. *)
Theorem occurrences_valid input count out :
  occurrences input count = Ok out →
  length out = count ∧
  Forall (λ f, fields_valid f ∧ from_template (input_template input) f) out ∧
  (i_all_day input = false → (1 < count)%nat →
   ∃ tz first, tz_of_str (trim (i_start_tzid input)) = Some tz ∧
     ndt_parse (trim (i_start input)) LOCAL_FORMAT = Some first ∧
     ∀ i f, out !! i = Some f → ∃ naive t,
       ndt_add_days first (Z.of_nat i * 7) = Some naive ∧
       resolve (tz_from_local tz) naive = Ok t ∧ f_start_unix f = Some t).
Proof.
  intros Ho. destruct (occurrences_ok _ _ _ Ho) as [Hlen Hall]. split; [done|]. split; [done|].
  intros Hd Hc. unfold occurrences in Ho. apply rbind_ok in Ho as (_ & _ & Ho).
  apply rbind_ok in Ho as (_ & _ & Ho). apply rbind_ok in Ho as (l & Hl & Ho).
  apply rbind_ok in Ho as (_ & _ & [= ->]). rewrite Hd in Hl.
  apply rbind_ok in Hl as (starts & Hs%map_err_ok & Hl).
  apply rbind_ok in Hl as (ends & _ & [= <-]).
  assert (weekly_timed_starts (trim (i_start input)) (trim (i_start_tzid input)) count
    = Ok starts) as Hw.
  { unfold timed_starts in Hs. destruct count as [|[|count]]; [lia|lia|done]. }
  apply weekly_timed_starts_ok in Hw as (tz & first & Htz & Hfirst & Hlen' & Hw).
  exists tz, first. split; [done|]. split; [done|]. intros i f Hi.
  rewrite zip_occurrences_lookup in Hi. apply fmap_Some in Hi as (s & Hi & ->).
  destruct (Hw i) as (naive & t & Hn & _ & Hr & Ht).
  { rewrite <- Hlen'. apply lookup_lt_Some in Hi. done. }
  exists naive, t. split; [done|]. split; [done|]. simpl. congruence.
Qed.

(** A wall clock that a zone skips is moved to the first valid minute after
    it, at most [MAX_GAP_MINUTES] on, and an ambiguous one is the earlier
    instant: exactly these conversions succeed. *)
Theorem civil_gap_walk local tzid t :
  civil_to_unix local tzid = Ok t ↔
  ∃ tz n k, tz_of_str tzid = Some tz ∧ ndt_parse local LOCAL_FORMAT = Some n ∧
    Z.of_nat k ≤ MAX_GAP_MINUTES ∧ first_valid (tz_from_local tz) n k t.
Proof.
  unfold civil_to_unix, parse_tz, parse_local. split.
  - intros (tz & Htz & Hr)%rbind_ok. apply rbind_ok in Hr as (n & Hn & Hr).
    apply resolve_ok in Hr as (k & Hk & Hf). exists tz, n, k.
    destruct (tz_of_str tzid), (ndt_parse local LOCAL_FORMAT); simplify_eq/=. done.
  - intros (tz & n & k & -> & -> & Hk & Hf). simpl. apply resolve_ok. eauto.
Qed.
End forms.

Section wires.
Context `{Chrono} `{SerdeTextLaws}.

(** Fields within the ranges of their Rust types. *)
Definition fields_typed (f : EventFields) : Prop :=
  opt_all i64_ok (f_start_unix f) ∧ opt_all i64_ok (f_end_unix f).

Lemma event_wire_typed op id parent series f ms :
  fields_valid f → fields_typed f → i64_ok ms → wire_typed (event_wire op id parent series f ms).
Proof.
  intros (_ & _ & _ & Hs) [Hst He] Hms. split; simpl; [| done| | |done|done].
  - intros k [= <-]. destruct Hs as [[-> _]|[-> _]]; [unfold KIND_TIMED|unfold KIND_ALL_DAY]; lia.
  - intros t. unfold start_wire, wire_time.
    destruct (f_start_unix f) eqn:E; [intros [= <-]; simpl; auto|].
    destruct (f_start_date f); [intros [= <-]|]; done.
  - intros t. unfold end_wire, wire_time.
    destruct (f_end_unix f) eqn:E; [intros [= <-]; simpl; auto|].
    destruct (f_end_date f); [intros [= <-]|]; done.
Qed.

(** A create, update or cancel wire built from valid fields is read back by a
    peer as itself, and its fields as the ones it was built from. *)
Theorem wire_roundtrip op id parent series f ms :
  op ≠ SeriesCard → fields_wf f → fields_typed f → i64_ok ms →
  blank id = false → blank parent = false →
  let w := event_wire op id parent series f ms in
  parse_wire (to_text (ser_wire w)) = Some w ∧ fields_from_wire w = Some f.
Proof.
  intros Hop [Hf Hch] Hty Hms Hid Hpar w. split.
  - apply parse_ser_wire; [by apply event_wire_typed|].
    split; [done|]. split; [done|]. right. by exists id.
  - by apply fields_from_event_wire.
Qed.
End wires.

(** ** Witnesses *)

Definition toy_series : SquadEventInput :=
  mkInput " Assembly" "" false "3600" (Some "3660") "UTC" Online "Hall" None.

Lemma occurrences_valid_witness :
  ∃ out, occurrences toy_series 4 = Ok out ∧ length out = 4%nat ∧
    Forall (λ f, fields_valid f ∧ from_template (input_template toy_series) f) out.
Proof.
  eexists. split; [vm_compute; reflexivity|].
  match goal with |- length ?l = _ ∧ _ =>
    assert (occurrences toy_series 4 = Ok l) as Ho by (vm_compute; reflexivity);
    destruct (occurrences_valid toy_series 4 l Ho) as (Hl & Hall & _) end.
  split; [exact Hl|exact Hall].
Defined.

Lemma wire_roundtrip_witness :
  fields_wf toy_fields ∧
  parse_wire (to_text (ser_wire toy_create)) = Some toy_create ∧
  fields_from_wire toy_create = Some toy_fields.
Proof.
  assert (fields_wf toy_fields) as Hwf.
  { split; [|done]. apply validate_fields_ok. vm_compute. reflexivity. }
  split; [exact Hwf|].
  apply (wire_roundtrip Create "e" "g" None toy_fields 1000); [done|exact Hwf| | | |].
  - split; intros t [= <-]; vm_compute; split; congruence.
  - vm_compute; split; congruence.
  - vm_compute; reflexivity.
  - vm_compute; reflexivity.
Defined.
