(* ===== verification/EventGuarantees.v ===== *)
(** * The properties of single operations, commands and the listing

    What an [Ok] promises: a create is atomic, the queue stays bounded and is
    emptied by a drain, an own cancel or update is in the replica, the listing is
    the stored events. *)

From S2P Require Import Prelude World Json Lww Chat Schema Records Pending.
From S2P Require Import CivilTime ContentPolicy EventModel EventValidation.
From S2P Require Import SquadEvent EventSpec EventRefines SquadEventCommands EventSteps.
From S2P Require Import EventSteps EventConverge EventQueue EventOwn Toy.

Section operations.
Context `{Chrono} `{SerdeText} `{Hashing} `{Rusqlite}.

Lemma apply_spec_queued d w meta role now d' :
  apply_spec d w meta role now = (Applied.Queued, d') →
  ∃ id, w_id w = Some id ∧ db_events d !! id = None ∧ child_ok w = true ∧
    d' = queue_spec id w meta now d.
Proof.
  unfold apply_spec. destruct (negb _); [done|]. destruct (bool_decide _); [by destruct (_ && _)|].
  destruct (w_id w) as [id|]; [|done]. destruct (db_events d !! id) as [r|] eqn:Hr.
  - unfold stored_spec, rsvp_write, rsvp_spec, write_spec.
    repeat (case_match; simplify_eq/=); done.
  - unfold missing_spec. destruct (w_op w) eqn:Hop.
    2-5: destruct (child_ok w) eqn:Hc; [intros [= <-]|done]; by exists id.
    unfold create_spec. repeat (case_match; simplify_eq/=); done.
Qed.

(** C39. Queueing an early operation keeps at most 200 waiting operations of its
    author under its squad; what is dropped is not newer than what is kept, and
    other authors' and unexpired operations stay. *)
Theorem queue_bounded w meta role now (o : Obs) :
  dwp (apply_op w meta role now) o (λ res o', res = Ok Applied.Queued →
    let mine k r := of_author (w_parent_id w) (om_signer_npub meta) (k, r) in
    let live r := saturating_sub now PENDING_TTL_MS ≤ p_updated_at_ms r in
    (length (author_rows (w_parent_id w) (om_signer_npub meta) (db_pending (o_db o'))) ≤ 200)%nat ∧
    (∀ k r, db_pending (o_db o) !! k = Some r → ¬ mine k r → live r →
       db_pending (o_db o') !! k = Some r) ∧
    (∀ k r k' r', db_pending (o_db o) !! k = Some r → live r →
       db_pending (o_db o') !! k = None → db_pending (o_db o') !! k' = Some r' → mine k' r' →
       ms_le row_key (k, r) (k', r'))).
Proof.
  eapply dwp_mono; [apply apply_op_dwp|]. intros res o' [_ Hres] ->. simpl in Hres.
  symmetry in Hres. apply apply_spec_queued in Hres as (id & _ & _ & _ & ->).
  unfold queue_spec. simpl. set (m := enqueue_spec id w meta now (db_pending (o_db o))).
  assert (∀ k r, db_pending (o_db o) !! k = Some r →
    saturating_sub now PENDING_TTL_MS ≤ p_updated_at_ms r → m !! k = Some r) as Hm.
  { intros k r Hk Hl. apply insert_or_ignore_lookup. left. by apply purge_rows_lookup. }
  split_and!.
  - apply trim_rows_bound.
  - intros k r Hk Hn Hl. apply trim_rows_other; auto.
  - intros k r k' r' Hk Hl Hd Hk' Ha.
    by eapply (trim_rows_newest _ _ _ m k r k' r' (Hm k r Hk Hl)).
Qed.

(** A create is atomic: on an error nothing of it is stored, neither the row
    nor its author's RSVP; an inserting success leaves both. *)
Theorem create_atomic id w meta role now (o : Obs) :
  dwp (apply_op w meta role now) o (λ res o',
    w_op w = Create → w_id w = Some id → db_events (o_db o) !! id = None →
    (is_okb res = false → o_db o' = o_db o) ∧
    (res = Ok (Applied.Changed true) →
       is_Some (db_events (o_db o') !! id) ∧
       ∀ st, w_rsvp w = Some st → db_rsvps (o_db o) !! (id, om_signer_npub meta) = None →
         db_rsvps (o_db o') !! (id, om_signer_npub meta) =
           Some (mkRsvpRow (RsvpStatus_as_str st) (w_updated_at_ms w) (om_rumor_id meta)))).
Proof.
  eapply dwp_mono; [apply apply_op_dwp|]. intros res o' [_ Hres] Hop Hid Hn. split.
  - destruct res as [a|e]; [done|]. intros _.
    destruct Hres as [|id' r f Hid' Hr|id' d' Hid' Hr _ Hc _]; [done|naive_solver|].
    unfold child_ok in Hc. by rewrite Hop in Hc.
  - intros ->. simpl in Hres. unfold apply_spec in Hres.
    destruct (negb _); [done|]. rewrite bool_decide_eq_false_2 in Hres by by rewrite Hop.
    rewrite Hid, Hn in Hres. unfold missing_spec in Hres. rewrite Hop in Hres.
    destruct (fields_from_wire w) as [f|]; [|done].
    unfold create_spec in Hres. destruct (negb _); [done|]. injection Hres as ->.
    set (row := new_event_row _ _ _ _ _ _ _).
    destruct (w_rsvp w) as [st|]; split; [|intros st' [= <-] Hr|by rewrite put_event_lookup|done].
    + rewrite rsvp_write_events, put_event_lookup. eauto.
    + unfold rsvp_write, rsvp_spec.
      change (db_rsvps (put_event id row (o_db o))) with (db_rsvps (o_db o)). rewrite Hr.
      apply put_rsvp_lookup.
Qed.

(** A drain that returns has tried every waiting operation of the stored
    event: none is left. *)
Theorem drain_leaves_none id role_of now (o : Obs) :
  is_Some (db_events (o_db o) !! id) →
  dwp (drain_pending id role_of now) o (λ res o', is_okb res = true →
    ∀ k r, db_pending (o_db o') !! k = Some r → p_record_id r ≠ id).
Proof.
  intros Hr. unfold drain_pending, purge_expired_pending. dstep. dstep; [done|]. dstep.
  apply load_row_dwp; simpl.
  - done.
  - intros r row _ _. dstep. dstep; [done|].
    eapply dwp_mono; [apply (drain_loop_dwp id)|].
    + split; [exact Hr|]. intros k r' Hk Hid. simpl in *. apply list_elem_of_fmap.
      exists (k, r'). split; [done|]. by apply rows_of_elem.
    + intros res o' Hl Hok k r' Hk Hid. destruct (Hl Hok) as [_ Hnone].
      by apply (not_elem_of_nil k), (Hnone k r').
  - intros Hn. rewrite Hn in Hr. by destruct Hr.
Qed.

(** A rumor reaches the replica only from a group chat, with a wire of the
    squad's own group, a stamp that is not negative, and a signer with an npub. *)
Theorem ingest_gate `{!Nostr} rumor context (o : Obs) :
  dwp (process_rumor rumor context) o (λ _ o', o_db o' ≠ o_db o →
    cx_conversation_type context = CMlsGroup ∧
    ∃ w npub, parse_wire (ru_content rumor) = Some w ∧ 0 ≤ w_updated_at_ms w ∧
      side_effect_parent_matches_chat (cx_conversation_id context) (w_parent_id w) = true ∧
      to_bech32 (ru_pubkey rumor) = Ok npub).
Proof.
  unfold process_rumor. destruct (cx_conversation_type context); [by apply dwp_ret|].
  destruct (parse_wire (ru_content rumor)) as [w|]; [|by apply dwp_ret].
  destruct (side_effect_parent_matches_chat _ _) eqn:Hp; simpl; [|by apply dwp_ret].
  dstep. apply now_ms_dwp. intros t _.
  destruct (stamp_acceptable _ _) eqn:Ht; simpl; [|by apply dwp_ret].
  dstep. dstep; [done|]. dstep. dstep.
  destruct (to_bech32 (ru_pubkey rumor)) as [npub|e]; simpl; [|done].
  apply dwp_mono with (P := λ _ _, True); [by intros ? ?|]. intros _ o' _ _. split; [done|]. exists w, npub.
  split_and!; [done| |done|done]. unfold stamp_acceptable in Ht. by bool_facts.
Qed.
End operations.

(** ** Commands *)

Section commands.
Context `{Chrono} `{SerdeText} `{Hashing} `{Rusqlite} `{Nostr}.

(** The guards shared by the update and the cancel commands. *)
Lemma editing_dwp {A} group parent id (k : string → string → SquadGroupRole → EventRow → Act A)
    (o : Obs) (Q : result A → Obs → Prop) :
  (∀ e, Q (Err e) o) →
  (∀ pk npub role r row,
     is_member role = true → db_events (o_db o) !! id = Some r →
     row_from_sql id r = Ok row → e_parent_id r = parent → e_mls_group_id r = group →
     (e_author_npub r = npub ∨ is_admin role = true) →
     dwp (k pk npub role row) o Q) →
  dwp (let! (pk, npub) := signer_identity in
       let! role := group_role group npub in
       let! row := with_conn (editable_row group parent id npub role) in
       k pk npub role row) o Q.
Proof.
  intros HE HK. dstep. apply dwp_quiet_any; [auto with quiet|]. intros [[pk npub]|e]; [|done].
  dstep. apply dwp_quiet_any; [auto with quiet|]. intros [role|e]; [|done].
  dstep. unfold with_conn. dstep. apply dwp_quiet_any; [auto with quiet|].
  intros [[]|e]; [|done]. eapply dwp_mono; [apply editable_row_dwp|].
  intros [row|e] o' [-> Hrow]; [|done]. simpl.
  destruct (Hrow row eq_refl) as (Hm & r & Hr & Hd & Hpa & Hg & Hau). eauto 10.
Qed.

Lemma ensure_group_ok group parent u :
  ensure_announcements_group group parent = Ok u → side_effect_parent_matches_chat group parent = true.
Proof. unfold ensure_announcements_group. by destruct (side_effect_parent_matches_chat _ _). Qed.

Lemma holds_fields r f f' st st' : holds f st r → holds f' st' r → f = f'.
Proof.
  intros [] []. destruct f as [? ? ? ? ? ? ? ? p ? ?], f' as [? ? ? ? ? ? ? ? p' ? ?]; simpl in *.
  assert (Some p = Some p') by (rewrite <- !Place_parse_as_str; congruence). congruence.
Qed.

(** An own cancel that reports success: the event is cancelled in the local
    replica. *)
Theorem cancel_lands group parent id (o : Obs) :
  rows_valid (o_db o) → no_collision (o_db o) → stamps_ok (o_db o) →
  dwp (send_squad_event_cancel group parent id) o (λ res o', res = Ok tt →
    ∃ r', db_events (o_db o') !! id = Some r' ∧ e_status r' = "cancelled").
Proof.
  intros Hv Hcoll Hst. unfold send_squad_event_cancel. dskip. dstep. dstep.
  destruct (ensure_announcements_group group parent) as [u|] eqn:Hp; [|done].
  apply ensure_group_ok in Hp.
  apply (editing_dwp group parent id (λ pk npub role row, _) o); [done|].
  intros pk npub role r row Hm Hr Hd Hpa Hg Hau.
  pose proof (row_from_sql_ok _ _ _ Hd) as Hdec. pose proof (dc_status _ _ _ Hdec) as Hs.
  destruct (bool_decide _) eqn:Hc; bool_facts.
  { apply dwp_ret. intros _. exists r. split; [done|]. by rewrite Hs, Hc. }
  rewrite (dc_series _ _ _ Hdec), (dc_updated _ _ _ Hdec).
  dstep. apply now_ms_dwp. intros t _.
  assert (fields_wf (row_fields row)) as Hf.
  { destruct (rv_events _ Hv id r Hr) as (row' & Hd' & Hf).
    by rewrite (holds_fields r _ _ _ _ (decodes_holds _ _ _ Hd) (decodes_holds _ _ _ Hd')). }
  eapply dwp_mono; [by apply (own_write_lands Cancel id r); auto|].
  intros res o' Hres Hok. destruct (Hres Hok) as (r' & Hr' & Hle). exists r'. split; [done|].
  apply (rl_cancelled _ _ Hle). unfold written_row.
  destruct (write_cancels _ _) eqn:Hwc; [done|].
  unfold write_cancels in Hwc. simpl in Hwc. bool_facts. exfalso. apply Hc.
  destruct (row_status row); [|done]. by rewrite Hs in Hwc.
Qed.

(** The fields of an update, on every row at least as new as it. *)
Lemma update_shows r w f npub r' :
  w_op w = Update → e_updated_at_ms r < w_updated_at_ms w → row_valid r' →
  row_le (written_row r w f npub) r' →
  w_updated_at_ms w < e_updated_at_ms r' ∨
  (e_updated_at_ms r' = w_updated_at_ms w ∧ ∃ st, holds f st r').
Proof.
  intros Hop Hlt (row & Hd & _) Hle. unfold written_row, write_cancels, updated_row in Hle.
  rewrite Hop, (proj2 (write_newer_spec r (mkDelivery w (mkOpMeta "" "" "") (mkRole false false) 0 f))
    Hlt : write_newer r w = true) in Hle. simpl in Hle.
  destruct (rl_stamp _ _ Hle) as [?|He]; [by left|right].
  pose proof (cancel_event_row_stamp _ _ He) as Hs. split; [exact Hs|].
  exists (row_status row). apply decodes_holds in Hd as []. unfold cancel_event_row in He.
  simpl in He. injection He; intros. by split.
Qed.

(** An own update that reports success: the validated form's fields are the
    stored ones, unless a waiting operation with a newer stamp came in with it. *)
Theorem update_lands group parent id event (o : Obs) :
  rows_valid (o_db o) → no_collision (o_db o) → stamps_ok (o_db o) →
  dwp (send_squad_event_update group parent id event) o (λ res o', res = Ok tt →
    ∃ f r r' stamp, fields_from_input event = Ok f ∧ db_events (o_db o) !! id = Some r ∧
      db_events (o_db o') !! id = Some r' ∧ e_updated_at_ms r < stamp ∧
      (stamp < e_updated_at_ms r' ∨ e_updated_at_ms r' = stamp ∧ ∃ st, holds f st r')).
Proof.
  intros Hv Hcoll Hst.
  apply dwp_mono with (P := λ res o', rows_valid (o_db o') ∧ (res = Ok tt →
    ∃ f r npub t w, fields_from_input event = Ok f ∧ db_events (o_db o) !! id = Some r ∧
      w = event_wire Update id parent (e_series_id r) f (next_stamp t (e_updated_at_ms r)) ∧
      ∃ r', db_events (o_db o') !! id = Some r' ∧ row_le (written_row r w f npub) r')).
  - apply dwp_and.
    { eapply dwp_mono; [exact (kept_run_command (λ d d', rows_valid d → rows_valid d')
        (CUpdate group parent id event) o)|]. intros ? o' Hk. exact (Hk Hv). }
    unfold send_squad_event_update. dskip. dstep. dstep.
    destruct (ensure_announcements_group group parent) as [u'|] eqn:Hp; [|done].
    apply ensure_group_ok in Hp. dstep. dstep.
    destruct (fields_from_input event) as [f|] eqn:Hf; [|done].
    apply (editing_dwp group parent id (λ pk npub role row, _) o); [done|].
    intros pk npub role r row Hm Hr Hd Hpa Hg Hau.
    destruct (bool_decide _) eqn:Hc; [by apply dwp_throw|].
    pose proof (row_from_sql_ok _ _ _ Hd) as Hdec.
    rewrite (dc_series _ _ _ Hdec), (dc_updated _ _ _ Hdec).
    dstep. apply now_ms_dwp. intros t _.
    destruct (fields_from_input_ok event f Hf) as [Hfv Htpl].
    assert (fields_wf f) as Hwf by (split; [done|by eapply input_channel_trimmed]).
    eapply dwp_mono; [by apply (own_write_lands Update id r); auto|].
    intros res o' Hres Hok. destruct (Hres Hok) as (r' & Hr' & Hle).
    exists f, r, npub, t. eexists. split_and!; [done..|]. eauto.
  - intros res o' [Hv' Hres] Hok.
    destruct (Hres Hok) as (f & r & npub & t & w & Hf & Hr & -> & r' & Hr' & Hle).
    destruct (Hst id r Hr) as [Hi Hlt]. pose proof (next_stamp_gt t _ Hi Hlt) as Hnew.
    exists f, r, r', (next_stamp t (e_updated_at_ms r)). split_and!; [done..|].
    apply (λ Hop Hlt' Hv, update_shows r _ f npub r' Hop Hlt' Hv Hle); [done|exact Hnew|].
    exact (rv_events _ Hv' id r' Hr').
Qed.
End commands.

(** ** The listing *)

Section listing.
Context `{Chrono} `{SerdeText} `{Hashing} `{Rusqlite} `{Nostr}.

Lemma load_events_dwp parent caller (o : Obs) :
  dwp (load_events parent caller) o (λ res _, ∀ out, res = Ok out →
    Forall2 (listed (o_db o) parent caller) (event_rows (o_db o) parent) out).
Proof.
  unfold load_events. dstep. dstep; [done|]. dstep. dstep; [done|]. dstep. dstep; [done|].
  match goal with Hm : rmapM _ _ = Ok _ |- _ => apply rmapM_ok in Hm as Hrows end.
  apply dwp_ret. intros out [= <-]. apply Forall2_fmap_r. eapply Forall2_impl; [exact Hrows|].
  intros kr row Hd. by apply event_dto_listed.
Qed.

(** What a role handed out by [group_role] stands for. *)
Definition granted (d : Db) (group npub : string) (role : SquadGroupRole) : Prop :=
  (is_admin role = true → is_member role = true) ∧
  (is_member role = true → ∃ ids, group_alias d group ids ∧
     listed_for d (trim (wire_id ids)) npub ∧
     (is_admin role = true → engine_admin d (engine_id ids) (trim npub))).

(** The row's edit button: author or admin, and a member of the row's group. *)
Definition shown (d : Db) (parent caller : string) (kr : string * EventSqlRow)
    (dto : SquadEventDto) : Prop :=
  ∃ ev role, listed d parent caller kr ev ∧ granted d (e_mls_group_id kr.2) caller role ∧
    dto = set_can_edit ev (may_edit role (bool_decide (e_author_npub kr.2 = caller))).

(** The part of the listing that is done, and the part to come. *)
Definition listing_inv (o : Obs) parent caller (l : list SquadEventDto)
    (acc : gmap string SquadGroupRole * list SquadEventDto) (o' : Obs) : Prop :=
  o' = o ∧ (∀ g role, acc.1 !! g = Some role → granted (o_db o) g caller role) ∧
  ∃ rows1 rows2, event_rows (o_db o) parent = rows1 ++ rows2 ∧
    Forall2 (listed (o_db o) parent caller) rows2 l ∧
    Forall2 (shown (o_db o) parent caller) rows1 acc.2.

Lemma listing_inv_step (o : Obs) parent caller ev l roles out role :
  granted (o_db o) (dto_mls_group_id ev) caller role →
  listing_inv o parent caller (ev :: l) (roles, out) o →
  listing_inv o parent caller l (<[dto_mls_group_id ev := role]> roles,
    out ++ [set_can_edit ev (may_edit role (dto_can_edit ev))]) o.
Proof.
  intros Hg (_ & Hroles & rows1 & rows2 & He & Hl & Hs). simpl in *.
  apply Forall2_cons_inv_r in Hl as (kr & rows2' & Hev & Hl & ->).
  split; [done|]. split; simpl.
  - intros g role'. rewrite lookup_insert_Some. intros [[<- <-]|[_ Hr]]; auto.
  - exists (rows1 ++ [kr]), rows2'. split_and!; [by rewrite <- app_assoc|done|].
    apply Forall2_app; [done|]. constructor; [|constructor].
    destruct (ls_row _ _ _ _ _ Hev) as (row & _ & _ & _ & _ & _ & Hgr & _).
    exists ev, role. rewrite <- (ls_edit _ _ _ _ _ Hev), <- Hgr. done.
Qed.

(** The listing of a squad is exactly its stored events, each once, oldest
    first, with their fields, status and decodable RSVPs; the edit mark needs the
    author or an admin of the event's own group who is listed as a member. *)
Theorem listing_exact parent (o : Obs) :
  dwp (list_squad_events parent) o (λ res o', o' = o ∧ ∀ out, res = Ok out →
    ∃ caller rows, st_account (o_db o) = Some caller ∧ NoDup rows.*1 ∧
      (∀ k r, (k, r) ∈ rows ↔ db_events (o_db o) !! k = Some r ∧ e_parent_id r = parent) ∧
      StronglySorted (ms_le (λ kr : string * EventSqlRow, (e_created_at_ms kr.2, kr.1))) rows ∧
      Forall2 (shown (o_db o) parent caller) rows out).
Proof.
  unfold list_squad_events, get_current_account. dstep. dstep; [done|].
  match goal with Ha : ok_or _ _ = Ok ?a |- _ => rename a into caller;
    assert (st_account (o_db o) = Some caller) as Hc
      by (destruct (st_account (o_db o)); simpl in Ha; congruence); clear Ha end.
  dstep. apply dwp_quiet with (P := λ res, ∀ out, res = Ok out →
    Forall2 (listed (o_db o) parent caller) (event_rows (o_db o) parent) out);
    [unfold with_conn; quiet_tac| |].
  { unfold with_conn. dskip. apply load_events_dwp. }
  intros [evs|e] Hevs; [|done]. specialize (Hevs _ eq_refl).
  dstep. eapply (dwp_foldM _ (listing_inv o parent caller)).
  - intros [roles out] o' (-> & _ & rows1 & rows2 & He & Hl & Hs). simpl.
    apply dwp_ret. split; [done|]. intros out' [= <-].
    apply Forall2_nil_inv_r in Hl as ->. rewrite app_nil_r in He. subst rows1.
    exists caller, (event_rows (o_db o) parent). split_and!.
    + done.
    + apply event_rows_nodup.
    + intros k r. apply event_rows_elem.
    + apply event_rows_sorted.
    + done.
  - intros ev l [roles out] o' Hinv. assert (o' = o) as -> by apply Hinv. dstep.
    eapply dwp_quiet with (P := λ r, ∀ role, r = Ok role →
      granted (o_db o) (dto_mls_group_id ev) caller role).
    + destruct (roles !! _); quiet_tac.
    + destruct (roles !! _) as [role|] eqn:Hr; [|apply group_role_closed].
      apply dwp_ret. intros role' [= <-]. by apply Hinv.
    + intros [role|e] Hg; [|done]. apply dwp_ret. apply listing_inv_step; [by apply Hg|done].
  - split; [done|]. split; [done|]. exists [], (event_rows (o_db o) parent). done.
Qed.
End listing.

(** ** A cancel that can be lost *)

Section lost.
Context `{Chrono} `{SerdeText} `{Hashing} `{Rusqlite}.

(** A cancel of the stored row [r] that is newer, well-formed and allowed. *)
Record due_cancel (id : string) (r : EventSqlRow) (w : EventWire) (meta : OpMeta)
    (role : SquadGroupRole) : Prop := {
  du_row : row_valid r;
  du_active : e_status r = "active";
  du_op : w_op w = Cancel;
  du_id : w_id w = Some id;
  du_status : w_status w = Some "cancelled";
  du_fields : is_Some (fields_from_wire w);
  du_admitted : admitted w meta role;
  du_allowed : write_allowed r w meta role = true;
  du_newer : e_updated_at_ms r < w_updated_at_ms w;
  du_hash : content_hash w (om_signer_npub meta) ≠ e_content_hash r;
}.

Lemma apply_op_cancel id r w f meta role now (W : World Db Effect) :
  w_op w = Cancel → w_id w = Some id → w_status w = Some "cancelled" →
  fields_from_wire w = Some f → admitted w meta role →
  head (w_faults W) = None ∨ head (w_faults W) = Some None →
  db_events (o_db (w_obs W)) !! id = Some r → row_ok r →
  ∃ row, decoded id r row ∧ apply_op w meta role now W =
    apply_write row w f meta role (mkWorld (w_obs W) (tail (w_faults W)) (w_clock W)).
Proof.
  intros Hop Hid Hst Hf [Hm Hp] Hfaults Hr Hok.
  destruct (row_from_sql_total id r Hok) as [row Hrow].
  exists row. split; [by apply row_from_sql_ok|]. destruct W as [[d l] fs c]. simpl in *.
  unfold apply_op, mbind, load_row, query_row, query, call, next_fault.
  rewrite Hm, Hp, Hop, Hid, Hf, Hst. simpl.
  destruct fs as [|[e|] fs]; simpl in *;
    [|by destruct Hfaults|]; unfold mbind, of_result; simpl; rewrite Hr; simpl; by rewrite Hrow.
Qed.

(** A fault can lose a cancel for good. A cancel sets the event's fields, the
    hash of the wire among them, and its status in two statements outside a
    transaction: when only the second fails, the rumor is an error, the event
    stays active, and from then on the same cancel counts as a replay. *)
Theorem lost_cancel id r w meta role now now' err d log :
  db_events d !! id = Some r → due_cancel id r w meta role →
  ∃ e d', apply_op w meta role now (mkWorld (mkObs d log) [None; None; Some err] []) =
    (Err e, mkWorld (mkObs d' log) [] []) ∧
    e_status <$> db_events d' !! id = Some "active" ∧
    apply_op w meta role now' (mkWorld (mkObs d' log) [] []) =
      (Ok Applied.Replay, mkWorld (mkObs d' log) [] []).
Proof.
  intros Hr [Hok Hact Hop Hid Hst [f Hf] Hadm Hal Hnew Hhash].
  destruct (apply_op_cancel id r w f meta role now
    (mkWorld (mkObs d log) [None; None; Some err] [])) as (row & Hd & ->);
    simpl; try done; [by right|by eapply row_valid_ok|].
  assert (write_newer r w = true) as Hn by (apply Z.gtb_lt; lia).
  set (npub := om_signer_npub meta) in *. set (r' := updated_row r w f npub).
  assert (r' = update_event_row f (w_updated_at_ms w) npub (content_hash w npub) r) as Hr'
    by (unfold r', updated_row; by rewrite Hn).
  exists ("Failed to cancel squad event: " +:+ err), (put_event id r' d). split_and!.
  - unfold apply_write. destruct (proj1 (write_allowed_spec _ _ _ _ _ _ Hd) Hal) as [-> ->].
    rewrite (dc_hash _ _ _ Hd), (status_cancelled _ _ _ Hd), (dc_updated _ _ _ Hd), (dc_id _ _ _ Hd).
    fold npub. rewrite bool_decide_eq_false_2 by done. rewrite Hop, Hact. fold (write_newer r w).
    rewrite Hn. simpl. unfold mbind, exec_, execute, call, next_fault. simpl.
    by rewrite (alter_event d id r _ Hr), <- Hr'.
  - rewrite put_event_lookup, Hr'. simpl. by rewrite Hact.
  - assert (row_valid r') as Hv' by (apply updated_row_valid; eauto using fields_from_wire_wf).
    destruct (apply_op_cancel id r' w f meta role now' (mkWorld (mkObs (put_event id r' d) log) [] []))
      as (row' & Hd' & ->); simpl; try done;
      [by left|by apply put_event_lookup|by eapply row_valid_ok|].
    assert (write_allowed r' w meta role = true) as Hal' by by rewrite Hr'.
    unfold apply_write. destruct (proj1 (write_allowed_spec _ _ _ _ _ _ Hd') Hal') as [-> ->].
    rewrite (dc_hash _ _ _ Hd'), Hr'. simpl. by rewrite bool_decide_eq_true_2.
Qed.
End lost.

(** ** Witnesses *)

Lemma drain_leaves_none_witness :
  is_Some (db_events toy_stored !! "e") ∧
  dwp (drain_pending "e" (λ _, member) 5000) (toy_obs toy_stored) (λ res o',
    is_okb res = true → ∀ k r, db_pending (o_db o') !! k = Some r → p_record_id r ≠ "e").
Proof. split; [by exists toy_row|]. apply drain_leaves_none. by exists toy_row. Defined.

(** A cancel by the admin [alice], who is not the author. *)
Lemma cancel_lands_witness :
  (run (send_squad_event_cancel "g" "g" "e") (toy_obs toy_stored)).1 = Ok tt ∧
  dwp (send_squad_event_cancel "g" "g" "e") (toy_obs toy_stored) (λ res o', res = Ok tt →
    ∃ r', db_events (o_db o') !! "e" = Some r' ∧ e_status r' = "cancelled").
Proof.
  split; [vm_compute; reflexivity|].
  apply cancel_lands; [apply toy_stored_valid|apply toy_stored_no_collision|
    apply toy_stored_stamps].
Defined.

Definition toy_input : SquadEventInput :=
  mkInput "General assembly" "" false "3600" None "UTC" Offline "Park" None.

Lemma update_lands_witness :
  (run (send_squad_event_update "g" "g" "e" toy_input) (toy_obs toy_stored)).1 = Ok tt ∧
  dwp (send_squad_event_update "g" "g" "e" toy_input) (toy_obs toy_stored)
    (λ res o', res = Ok tt → ∃ f r r' stamp, fields_from_input toy_input = Ok f ∧
      db_events toy_stored !! "e" = Some r ∧ db_events (o_db o') !! "e" = Some r' ∧
      e_updated_at_ms r < stamp ∧
      (stamp < e_updated_at_ms r' ∨ e_updated_at_ms r' = stamp ∧ ∃ st, holds f st r')).
Proof.
  split; [vm_compute; reflexivity|].
  apply update_lands; [apply toy_stored_valid|apply toy_stored_no_collision|
    apply toy_stored_stamps].
Defined.

Lemma lost_cancel_witness :
  ∃ e d', apply_op toy_cancel (mkOpMeta "r3" "g" "bob") member 5000
      (mkWorld (mkObs toy_stored []) [None; None; Some "disk I/O error"] []) =
    (Err e, mkWorld (mkObs d' []) [] []) ∧
    e_status <$> db_events d' !! "e" = Some "active" ∧
    apply_op toy_cancel (mkOpMeta "r3" "g" "bob") member 6000 (mkWorld (mkObs d' []) [] []) =
      (Ok Applied.Replay, mkWorld (mkObs d' []) [] []).
Proof.
  destruct (db_events toy_stored !! "e") as [r|] eqn:Hr; [|by vm_compute in Hr].
  apply (lost_cancel "e" r); [exact Hr|]. vm_compute in Hr. injection Hr as <-. split.
  - exact toy_row_valid.
  - reflexivity.
  - reflexivity.
  - reflexivity.
  - reflexivity.
  - vm_compute. eexists. reflexivity.
  - split; reflexivity.
  - vm_compute. reflexivity.
  - vm_compute. reflexivity.
  - vm_compute. congruence.
Defined.
