(* ===== verification/ChatTheorems.v ===== *)
(** * The properties of the loaded chats

    Message lists stay ordered and free of duplicates, and neither they nor the
    edits of a message depend on the order of arrival. *)

From stdpp Require Import sorting.
From S2P Require Import Prelude Chat.

(** ** One message *)

Definition chats_wf (chats : list Chat) : Prop :=
  NoDup (c_id <$> chats) ∧ Forall (λ c, messages_wf (c_messages c)) chats.

Lemma get_chat_wf chats id c :
  chats_wf chats → get_chat chats id = Some c → messages_wf (c_messages c).
Proof.
  intros [_ Hall] [Hin _]%get_chat_Some. rewrite Forall_forall in Hall. by apply Hall.
Qed.

Lemma chats_wf_get chats :
  NoDup (c_id <$> chats) → (∀ id c, get_chat chats id = Some c → messages_wf (c_messages c)) →
  chats_wf chats.
Proof.
  intros Hnd Hg. split; [done|]. apply Forall_forall. intros c Hc. apply (Hg (c_id c)).
  clear Hg. unfold get_chat. induction chats as [|c' l IH]; [by apply not_elem_of_nil in Hc|].
  simpl in *. apply NoDup_cons in Hnd as [Hc' Hnd].
  apply elem_of_cons in Hc as [->|Hc]; [by rewrite bool_decide_eq_true_2|].
  rewrite bool_decide_eq_false_2; [by apply IH|].
  intros Heq. apply Hc'. rewrite Heq. apply list_elem_of_fmap. eauto.
Qed.

(** The messages a chat has, none when it is not loaded. *)
Definition messages_in (chats : list Chat) (id : string) : list Message :=
  from_option c_messages [] (get_chat chats id).

(** Adding a message to the state: it is taken exactly when its id is new to
    its chat, joins that chat's other messages with the order kept, leaves every
    other chat alone, and the chats end up newest first. *)
Theorem add_message_correct chats id msg now added chats' :
  chats_wf chats → add_message_to_chat chats id msg now = (added, chats') →
  chats_wf chats' ∧ StronglySorted (λ a b, newer_first a b = true) chats' ∧
  (added = true ↔ m_id msg ∉ m_id <$> messages_in chats id) ∧
  is_Some (get_chat chats' id) ∧
  messages_in chats' id ≡ₚ (if (added : bool) then [msg] else []) ++ messages_in chats id ∧
  ∀ id', id' ≠ id → get_chat chats' id' = get_chat chats id'.
Proof.
  intros Hwf Ha.
  destruct (add_message_chats chats id msg now (proj1 Hwf))
    as (added0 & target & chats0 & Ha0 & Hnd & Hadd & Ht & Hoth).
  rewrite Ha in Ha0. injection Ha0 as <- ->.
  pose proof (sort_by_perm newer_first chats0) as Hp.
  assert (∀ id', get_chat (sort_by newer_first chats0) id' = get_chat chats0 id') as Hget
    by (intros id'; symmetry; by apply get_chat_perm).
  set (c0 := default _ (get_chat chats id)) in Hadd.
  assert (messages_wf (c_messages c0) ∧ c_messages c0 = messages_in chats id) as [Hwf0 Hms0].
  { unfold c0, messages_in. destruct (get_chat chats id) eqn:Hc; simpl.
    - split; [by eapply get_chat_wf|done].
    - split; [|by destruct (starts_with _ _)].
      destruct (starts_with _ _); (split; [constructor|constructor]). }
  assert (added = true ↔ m_id msg ∉ m_id <$> c_messages c0) as Hadded.
  { destruct (decide (m_id msg ∈ m_id <$> c_messages c0)) as [Hin|Hin].
    - rewrite internal_add_known in Hadd by done. naive_solver.
    - rewrite internal_add_fresh in Hadd by done. naive_solver. }
  assert (c_messages target ≡ₚ (if (added : bool) then [msg] else []) ++ c_messages c0) as Hmsgs.
  { destruct (decide (m_id msg ∈ m_id <$> c_messages c0)) as [Hin|Hin].
    - rewrite internal_add_known in Hadd by done. by injection Hadd as -> ->.
    - rewrite internal_add_fresh in Hadd by done. injection Hadd as -> ->. simpl.
      by destruct (place_message_ok (c_messages c0) msg (proj1 Hwf0)). }
  assert (messages_wf (c_messages target)) as Hwft.
  { pose proof (internal_add_wf c0 msg Hwf0) as Hw. by rewrite <- Hadd in Hw. }
  split_and!.
  - apply chats_wf_get; [by rewrite Hp|]. intros id' c. rewrite Hget.
    destruct (decide (id' = id)) as [->|Hne].
    + rewrite Ht. by intros [= <-].
    + rewrite Hoth by done. by apply get_chat_wf.
  - apply sort_by_sorted.
    { intros a b. pose proof (newer_first_total a b). by destruct (newer_first a b). }
    intros a b c Hab Hbc. unfold newer_first in *.
    destruct (last_message_time a), (last_message_time b), (last_message_time c);
      bool_facts; try done. apply Z.leb_le. lia.
  - by rewrite <- Hms0.
  - rewrite Hget, Ht. eauto.
  - unfold messages_in at 1. rewrite Hget, Ht. simpl. by rewrite <- Hms0.
  - intros id' Hne. by rewrite Hget, Hoth.
Qed.

(** ** Many messages, in any order *)

Definition receive (c : Chat) (ms : list Message) : Chat :=
  foldl (λ c m, (internal_add_message c m).2) c ms.

Lemma receive_messages ms : ∀ c,
  messages_wf (c_messages c) → NoDup (m_id <$> ms ++ c_messages c) →
  messages_wf (c_messages (receive c ms)) ∧ c_messages (receive c ms) ≡ₚ ms ++ c_messages c.
Proof.
  induction ms as [|m ms IH]; intros c Hwf Hnd; [done|]. simpl.
  simpl in Hnd. apply NoDup_cons in Hnd as [Hm Hnd].
  rewrite fmap_app in Hm. apply not_elem_of_app in Hm as [Hm Hmc].
  pose proof (internal_add_wf c m Hwf) as Hwf'. rewrite internal_add_fresh in * by done.
  destruct (place_message_ok (c_messages c) m (proj1 Hwf)) as [Hp _].
  destruct (IH (set_messages (place_message (c_messages c) m) c) Hwf') as [Hw Hp'].
  { simpl. rewrite Hp, <- Permutation_middle. simpl. constructor; [|done].
    rewrite fmap_app. apply not_elem_of_app. done. }
  split; [exact Hw|]. etrans; [exact Hp'|]. simpl. by rewrite Hp, <- Permutation_middle.
Qed.

Lemma receive_other ms : ∀ c, set_messages [] (receive c ms) = set_messages [] c.
Proof.
  induction ms as [|m ms IH]; intros c; [done|]. simpl. rewrite IH.
  unfold internal_add_message. by destruct (existsb _ _).
Qed.

Lemma set_messages_eq c c' :
  set_messages [] c = set_messages [] c' → c_messages c = c_messages c' → c = c'.
Proof. destruct c, c'. unfold set_messages; simpl. intros [=] ?; by simplify_eq. Qed.

(** A chat that receives the same new messages in different orders, however
    late or early they come, ends up the same. *)
Theorem messages_converge c ms ms' :
  messages_wf (c_messages c) → ms ≡ₚ ms' → NoDup (m_id <$> ms ++ c_messages c) →
  NoDup (m_at <$> ms ++ c_messages c) → receive c ms = receive c ms'.
Proof.
  intros Hwf Hp Hnd Hat.
  destruct (receive_messages ms c Hwf Hnd) as [[Hs _] Hm].
  destruct (receive_messages ms' c Hwf) as [[Hs' _] Hm']; [by rewrite <- Hp|].
  apply set_messages_eq; [by rewrite !receive_other|].
  eapply (StronglySorted_unique_strong time_le); [|done|done|by rewrite Hm, Hm', Hp].
  intros a b Ha Hb. rewrite Hm in Ha. rewrite Hm', <- Hp in Hb. unfold time_le. intros ??.
  assert (m_at a = m_at b) as He by lia.
  apply list_elem_of_lookup in Ha as [i Hi]. apply list_elem_of_lookup in Hb as [j Hj].
  enough (i = j) by naive_solver. eapply NoDup_lookup; [exact Hat|..];
    rewrite list_lookup_fmap; [by rewrite Hi|by rewrite Hj, He].
Qed.

(** ** Edits *)

Definition edit_all (m : Message) (es : list EditEntry) : Message :=
  foldl (λ m e, (apply_edit m (ee_event_id e) (ee_content e) (ee_edited_at e)).2) m es.

(** The content an edit history shows. *)
Definition shown_content (m : Message) : string :=
  from_option ee_content (ee_content (original_of m)) (last (edits_of m)).

Lemma edit_all_history es : ∀ m,
  history_wf m → shown_content m = m_content m →
  NoDup (ee_event_id <$> es) →
  (∀ e, e ∈ es → ee_event_id e ∉ ee_event_id <$> original_of m :: edits_of m) →
  let m' := edit_all m es in
  history_wf m' ∧ original_of m' = original_of m ∧ edits_of m' ≡ₚ es ++ edits_of m ∧
  shown_content m' = m_content m' ∧
  set_edit "" [] m' = set_edit "" [] m ∧
  (es ≠ [] ∨ (is_Some (m_edit_history m) ∧ m_edited m = true) →
   is_Some (m_edit_history m') ∧ m_edited m' = true).
Proof.
  induction es as [|e es IH]; intros m Hwf Hsh Hnd Hnew; simpl.
  { split_and!; try done. by intros [?|?]. }
  apply NoDup_cons in Hnd as [He Hnd].
  assert (ee_event_id e ∉ ee_event_id <$> default [] (m_edit_history m)) as Hfresh.
  { specialize (Hnew e (list_elem_of_here _ _)). revert Hnew. unfold original_of, edits_of.
    destruct (m_edit_history m) as [[|e0 tl]|]; simpl; [intros _; apply not_elem_of_nil|done|].
    intros _. apply not_elem_of_nil. }
  destruct (apply_edit_new m _ (ee_content e) (ee_edited_at e) Hwf Hfresh)
    as (m1 & Ha & Hh & Hc).
  set (s1 := sort_by_key ee_edited_at (edits_of m ++ [mkEntry (ee_event_id e) (ee_content e)
    (ee_edited_at e)])) in *.
  assert (s1 ≡ₚ e :: edits_of m) as Hs1.
  { unfold s1, sort_by_key. rewrite sort_by_perm. destruct e. simpl.
    by rewrite (Permutation_app_comm _ [_]). }
  assert (original_of m1 = original_of m ∧ edits_of m1 = s1) as [Ho1 He1]
    by (unfold original_of at 1, edits_of at 1; by rewrite Hh).
  assert (set_edit "" [] m1 = set_edit "" [] m ∧ m_edited m1 = true) as [Hset Hed].
  { revert Ha. unfold apply_edit. destruct (match m_edit_history m with Some _ => _ | None => _ end);
      intros [= <-]. done. }
  rewrite Ha. simpl. destruct (IH m1) as (Hw & Ho & Hp & Hs & Hf & His).
  - unfold history_wf. rewrite Hh. apply sort_by_key_sorted.
  - unfold shown_content. by rewrite Ho1, He1.
  - done.
  - intros e' Hin. rewrite Ho1, He1. cbn [fmap list_fmap]. rewrite not_elem_of_cons, Hs1.
    specialize (Hnew e' (list_elem_of_further _ _ _ Hin)). cbn [fmap list_fmap] in *.
    rewrite not_elem_of_cons in *. destruct Hnew as [? ?]. split; [done|].
    split; [|done]. intros Heq. apply He. rewrite <- Heq. by apply list_elem_of_fmap_2.
  - split_and!; [done|congruence| |done|congruence|].
    + rewrite Hp, He1, Hs1. by rewrite Permutation_middle.
    + intros _. apply His. right. rewrite Hh. eauto.
Qed.

Lemma message_eq m m' :
  set_edit "" [] m = set_edit "" [] m' → m_content m = m_content m' →
  m_edit_history m = m_edit_history m' → m_edited m = m_edited m' → m = m'.
Proof. destruct m, m'. unfold set_edit; simpl. intros [=] ???; by simplify_eq. Qed.

Lemma history_split m :
  is_Some (m_edit_history m) → history_wf m →
  m_edit_history m = Some (original_of m :: edits_of m).
Proof.
  unfold history_wf, original_of, edits_of.
  by destruct (m_edit_history m) as [[|e tl]|]; [| |intros []].
Qed.

Lemma edits_sorted m : history_wf m → StronglySorted (λ a b, ee_edited_at a ≤ ee_edited_at b) (edits_of m).
Proof.
  unfold history_wf, edits_of. destruct (m_edit_history m) as [[|e tl]|]; auto; constructor.
Qed.

(** The edits of a message may arrive in any order: the history and the
    content shown, the latest edit's, come out the same. *)
Theorem edits_converge m es es' :
  history_wf m → shown_content m = m_content m → es ≡ₚ es' → NoDup (ee_event_id <$> es) →
  (∀ e, e ∈ es → ee_event_id e ∉ ee_event_id <$> original_of m :: edits_of m) →
  NoDup (ee_edited_at <$> es ++ edits_of m) →
  edit_all m es = edit_all m es' ∧
  (∀ e, e ∈ es → (∀ e', e' ∈ es ++ edits_of m → ee_edited_at e' ≤ ee_edited_at e) →
     m_content (edit_all m es) = ee_content e).
Proof.
  intros Hwf Hsh Hp Hnd Hnew Hat.
  destruct (edit_all_history es m Hwf Hsh Hnd Hnew) as (Hw & Ho & He & Hs & Hf & His).
  destruct (edit_all_history es' m Hwf Hsh) as (Hw' & Ho' & He' & Hs' & Hf' & His');
    [by rewrite <- Hp|intros e; rewrite <- Hp; apply Hnew|].
  assert (∀ a b, a ∈ es ++ edits_of m → b ∈ es ++ edits_of m →
    ee_edited_at a = ee_edited_at b → a = b) as Hinj.
  { intros a b [i Hi]%list_elem_of_lookup [j Hj]%list_elem_of_lookup Hab.
    enough (i = j) by naive_solver. eapply NoDup_lookup; [exact Hat|..];
      rewrite list_lookup_fmap; [by rewrite Hi|by rewrite Hj, Hab]. }
  assert (edits_of (edit_all m es) = edits_of (edit_all m es')) as Hedits.
  { apply (StronglySorted_unique_strong (λ a b, ee_edited_at a ≤ ee_edited_at b)); [|by apply edits_sorted..|by rewrite He, He', Hp].
    intros a b Ha Hb ??. rewrite He in Ha. rewrite He', <- Hp in Hb. apply Hinj; [done..|lia]. }
  assert (m_content (edit_all m es) = m_content (edit_all m es')) as Hcont.
  { rewrite <- Hs, <- Hs'. unfold shown_content. by rewrite Hedits, Ho, Ho'. }
  split.
  - destruct es as [|e0 es]; [apply Permutation_nil_l in Hp as ->; done|].
    destruct His as [Hh Hed]; [by left|].
    destruct His' as [Hh' Hed']; [left; intros ->; by apply Permutation_nil_r in Hp|].
    apply message_eq; [congruence|done| |congruence].
    rewrite (history_split _ Hh Hw), (history_split _ Hh' Hw'). congruence.
  - intros e Hin Hmax. rewrite <- Hs. unfold shown_content.
    assert (e ∈ edits_of (edit_all m es)) as Hine by (rewrite He; apply elem_of_app; by left).
    destruct (last (edits_of (edit_all m es))) as [el|] eqn:Hl.
    2:{ apply last_None in Hl. rewrite Hl in Hine. by apply not_elem_of_nil in Hine. }
    simpl. f_equal. apply last_Some_elem_of in Hl as Hlin.
    apply Hinj; [by rewrite <- He|by rewrite <- He|].
    apply Z.le_antisymm; [apply Hmax; by rewrite <- He|].
    apply last_Some in Hl as [l Hl]. pose proof (edits_sorted _ Hw) as Hsort. rewrite Hl in Hsort, Hine.
    apply elem_of_app in Hine as [Hine| ->%list_elem_of_singleton]; [|lia].
    exact (proj1 (proj1 (StronglySorted_app _ _ _) Hsort) e el Hine (list_elem_of_here _ _)).
Qed.

(** ** Witnesses *)

Definition sample (id content : string) (at_ : Z) : Message :=
  mkMessage id content "" None None None None [] [] at_ false false false (Some "bob")
    None false None None None.

Definition sample_chat : Chat :=
  set_messages [sample "a" "hi" 10; sample "b" "hello" 30] (Chat_new "g" MlsGroup [] 0).

Lemma sample_chat_wf : messages_wf (c_messages sample_chat).
Proof.
  split; [repeat constructor; unfold time_le; simpl; lia|].
  apply (bool_decide_unpack _). vm_compute. exact I.
Qed.

Lemma add_message_correct_witness :
  ∃ added chats', add_message_to_chat [sample_chat] "g" (sample "c" "late" 20) 0 = (added, chats') ∧
    chats_wf chats' ∧ StronglySorted (λ a b, newer_first a b = true) chats' ∧
    (added = true ↔ m_id (sample "c" "late" 20) ∉ m_id <$> messages_in [sample_chat] "g").
Proof.
  assert (chats_wf [sample_chat]) as Hwf.
  { split; [apply NoDup_singleton|]. constructor; [apply sample_chat_wf|constructor]. }
  destruct (add_message_to_chat [sample_chat] "g" (sample "c" "late" 20) 0) as [added chats'] eqn:Ha.
  destruct (add_message_correct [sample_chat] "g" (sample "c" "late" 20) 0 added chats' Hwf Ha)
    as (H1 & H2 & H3 & _).
  exists added, chats'. split; [reflexivity|]. split; [exact H1|]. split; [exact H2|exact H3].
Defined.

Lemma messages_converge_witness :
  NoDup (m_id <$> [sample "c" "late" 20; sample "d" "new" 40] ++ c_messages sample_chat) ∧
  receive sample_chat [sample "c" "late" 20; sample "d" "new" 40] =
  receive sample_chat [sample "d" "new" 40; sample "c" "late" 20].
Proof.
  assert (NoDup (m_id <$> [sample "c" "late" 20; sample "d" "new" 40] ++ c_messages sample_chat))
    as Hnd by (apply (bool_decide_unpack _); vm_compute; exact I).
  split; [exact Hnd|].
  apply messages_converge; [apply sample_chat_wf|constructor|exact Hnd|].
  apply (bool_decide_unpack _). vm_compute. exact I.
Defined.

Lemma edits_converge_witness :
  let m := sample "a" "hi" 10 in
  let es := [mkEntry "e1" "hey" 20; mkEntry "e2" "hello" 30] in
  edit_all m es = edit_all m (reverse es) ∧ m_content (edit_all m es) = "hello".
Proof.
  intros m es.
  assert (NoDup (ee_event_id <$> es)) as Hid by (apply (bool_decide_unpack _); vm_compute; exact I).
  assert (NoDup (ee_edited_at <$> es ++ edits_of m)) as Hat
    by (apply (bool_decide_unpack _); vm_compute; exact I).
  destruct (edits_converge m es (reverse es)) as [He Hc];
    [exact I|reflexivity|symmetry; apply reverse_Permutation|exact Hid| |exact Hat|].
  - intros e Hin. simpl. rewrite list_elem_of_singleton. intros He.
    unfold es in Hin. rewrite !elem_of_cons, elem_of_nil in Hin.
    destruct Hin as [-> |[-> |[]]]; discriminate.
  - split; [exact He|]. apply (Hc (mkEntry "e2" "hello" 30)).
    + apply list_elem_of_further, list_elem_of_here.
    + intros e' Hin. unfold es, edits_of in Hin. simpl in Hin.
      rewrite !elem_of_cons, elem_of_nil in Hin. destruct Hin as [-> |[-> |[]]]; simpl; lia.
Defined.
