(* ===== verification/PolicyTheorems.v ===== *)
(** * The properties of the content policy and of roles

    The policy is two last-writer-wins flags that only admins write; a change and
    the removal it entails are one transaction; roles fail closed. *)

From S2P Require Import Prelude World Json Lww Chat Schema Records ContentPolicy Toy.


(** * Facts about the content policy: two registers, one atomic transaction *)

(** ** The flags as last-writer-wins registers *)

(** An admin's wire with its author. *)
Notation policy_write := (SquadContentPolicyWire * string)%type.

Definition policy_apply (p : SquadContentPolicy) (w : policy_write) : SquadContentPolicy :=
  (merge_policy p w.1 w.2 true).1.

Lemma policy_apply_event p w :
  (restrict_event_create_updated_at_ms (policy_apply p w),
   (restrict_event_create (policy_apply p w), restrict_event_create_by_npub (policy_apply p w))) =
  lww_step (restrict_event_create_updated_at_ms p,
            (restrict_event_create p, restrict_event_create_by_npub p))
           (pw_restrict_event_create_updated_at_ms w.1,
            (pw_restrict_event_create w.1, Some w.2)).
Proof.
  unfold policy_apply, merge_policy, merge_event_flag, merge_doc_flag, lww_step.
  rewrite Z.gtb_ltb. simpl. repeat (case_match; simpl in *; simplify_eq/=); done.
Qed.

Lemma policy_apply_doc p w :
  (restrict_doc_add_updated_at_ms (policy_apply p w),
   (restrict_doc_add (policy_apply p w), restrict_doc_add_by_npub (policy_apply p w))) =
  lww_step (restrict_doc_add_updated_at_ms p, (restrict_doc_add p, restrict_doc_add_by_npub p))
           (pw_restrict_doc_add_updated_at_ms w.1, (pw_restrict_doc_add w.1, Some w.2)).
Proof.
  unfold policy_apply, merge_policy, merge_event_flag, merge_doc_flag, lww_step.
  rewrite !Z.gtb_ltb. simpl. repeat (case_match; simpl in *; simplify_eq/=); done.
Qed.

(** One type per flag, so that both can be instances. *)
Record event_flag : Type := EventFlag { of_event_flag : SquadContentPolicy }.
Record doc_flag : Type := DocFlag { of_doc_flag : SquadContentPolicy }.

#[export] Instance event_flag_register : Register event_flag policy_write (bool * option string) := {
  reg_stamp p := restrict_event_create_updated_at_ms (of_event_flag p);
  reg_val p := (restrict_event_create (of_event_flag p),
                restrict_event_create_by_npub (of_event_flag p));
  wr_stamp w := pw_restrict_event_create_updated_at_ms w.1;
  wr_val w := (pw_restrict_event_create w.1, Some w.2);
  reg_ok _ _ := True;
  wr_compat _ _ := True;
  reg_apply p w := EventFlag (policy_apply (of_event_flag p) w);
}.

#[export] Instance doc_flag_register : Register doc_flag policy_write (bool * option string) := {
  reg_stamp p := restrict_doc_add_updated_at_ms (of_doc_flag p);
  reg_val p := (restrict_doc_add (of_doc_flag p), restrict_doc_add_by_npub (of_doc_flag p));
  wr_stamp w := pw_restrict_doc_add_updated_at_ms w.1;
  wr_val w := (pw_restrict_doc_add w.1, Some w.2);
  reg_ok _ _ := True;
  wr_compat _ _ := True;
  reg_apply p w := DocFlag (policy_apply (of_doc_flag p) w);
}.

#[export] Instance event_flag_laws : RegisterLaws event_flag policy_write (bool * option string).
Proof.
  split; intros [p] w; simpl; [| |done]; intros _ Hlt;
    pose proof (policy_apply_event p w) as He; unfold lww_step in He; simpl in He;
    case_match; bool_facts; try lia; by injection He as -> -> ->.
Qed.

#[export] Instance doc_flag_laws : RegisterLaws doc_flag policy_write (bool * option string).
Proof.
  split; intros [p] w; simpl; [| |done]; intros _ Hlt;
    pose proof (policy_apply_doc p w) as He; unfold lww_step in He; simpl in He;
    case_match; bool_facts; try lia; by injection He as -> -> ->.
Qed.

Definition policy_fold (p : SquadContentPolicy) (ws : list policy_write) : SquadContentPolicy :=
  foldl policy_apply p ws.

Lemma event_flag_fold ws : ∀ p, reg_fold (EventFlag p) ws = EventFlag (policy_fold p ws).
Proof. induction ws as [|w ws IH]; intros p; [done|]. apply IH. Qed.
Lemma doc_flag_fold ws : ∀ p, reg_fold (DocFlag p) ws = DocFlag (policy_fold p ws).
Proof. induction ws as [|w ws IH]; intros p; [done|]. apply IH. Qed.

Lemma policy_eq p q :
  reg_view (EventFlag p) = reg_view (EventFlag q) →
  reg_view (DocFlag p) = reg_view (DocFlag q) → p = q.
Proof. destruct p, q. unfold reg_view; simpl. intros; by simplify_eq. Qed.

(** ** The restriction in one step *)

Definition remove_events (ids : list string) (d : Db) : Db :=
  set_events (filter (λ kr, kr.1 ∉ ids))
    (set_pending (filter (λ kr, p_record_id kr.2 ∉ ids))
      (set_rsvps (filter (λ kr, kr.1.1 ∉ ids)) d)).

Lemma filter_true {K A} `{Countable K} (P : K * A → Prop) `{!∀ x, Decision (P x)} (m : gmap K A) :
  (∀ k x, m !! k = Some x → P (k, x)) → filter P m = m.
Proof. intros HP. apply map_filter_id. exact HP. Qed.

Lemma remove_events_nil d : remove_events [] d = d.
Proof.
  apply Db_ext; try reflexivity; apply filter_true; intros; apply not_elem_of_nil.
Qed.

Lemma filter_filter_ext {K A} `{Countable K} (P Q R : K * A → Prop)
    `{!∀ x, Decision (P x), !∀ x, Decision (Q x), !∀ x, Decision (R x)} (m : gmap K A) :
  (∀ kx, P kx ∧ Q kx ↔ R kx) → filter P (filter Q m) = filter R m.
Proof.
  intros HR. rewrite map_filter_filter. apply map_filter_ext. intros k x _. by rewrite HR.
Qed.

Lemma delete_filter {A} (id : string) (m : gmap string A) :
  delete id m = filter (λ kr, kr.1 ≠ id) m.
Proof.
  apply map_eq. intros k. apply option_eq. intros x.
  rewrite map_lookup_filter_Some, lookup_delete_Some. naive_solver.
Qed.

Lemma filter_not_in_cons {K A} `{Countable K} (f : K * A → string) id ids (m : gmap K A) :
  filter (λ kr, f kr ∉ ids) (filter (λ kr, f kr ≠ id) m) = filter (λ kr, f kr ∉ id :: ids) m.
Proof. apply filter_filter_ext. intros kx. rewrite not_elem_of_cons. tauto. Qed.

(** Deleting one more event after the others. *)
Lemma remove_events_cons id ids d :
  remove_events ids
    (set_events (delete id)
      (set_pending (filter (λ kr, p_record_id kr.2 ≠ id))
        (set_rsvps (filter (λ kr, kr.1.1 ≠ id)) d))) =
  remove_events (id :: ids) d.
Proof.
  apply Db_ext; try reflexivity.
  - etrans; [|exact (filter_not_in_cons fst id ids (db_events d))].
    by rewrite <- delete_filter.
  - exact (filter_not_in_cons (λ kr, kr.1.1) id ids (db_rsvps d)).
  - exact (filter_not_in_cons (λ kr, p_record_id kr.2) id ids (db_pending d)).
Qed.

Lemma delete_event_dwp id o (Q : result unit → Obs Db Effect → Prop) :
  (∀ e d, Q (Err e) (mkObs d (o_log o))) →
  Q (Ok tt) (mkObs (set_events (delete id)
    (set_pending (filter (λ kr, p_record_id kr.2 ≠ id))
      (set_rsvps (filter (λ kr, kr.1.1 ≠ id)) (o_db o)))) (o_log o)) →
  dwp (delete_event id) o Q.
Proof.
  intros HE HO. unfold delete_event. destruct o as [d l]. simpl in *.
  do 2 (dstep; dstep; [apply HE|]). dstep; [apply HE|]. exact HO.
Qed.

Lemma delete_loop_dwp ids : ∀ o (Q : result unit → Obs Db Effect → Prop),
  (∀ e d, Q (Err e) (mkObs d (o_log o))) →
  Q (Ok tt) (mkObs (remove_events ids (o_db o)) (o_log o)) →
  dwp (foldM (λ _ event_id, delete_event event_id) tt ids) o Q.
Proof.
  induction ids as [|id ids IH]; intros o Q HE HO; simpl.
  - apply dwp_ret. rewrite remove_events_nil in HO. by destruct o.
  - dstep. apply delete_event_dwp; [by intros|]. apply IH; simpl; [by intros|].
    by rewrite remove_events_cons.
Qed.

(** What one accepted wire does to the database. *)
Definition policy_result (d : Db) (w : SquadContentPolicyWire) (author : string)
    (author_is_admin : bool) (admins : list string) : PolicyApplyOutcome * Db :=
  let parent := pw_parent_id w in
  let '(next, oc) := merge_policy (stored_policy d parent) w author author_is_admin in
  if negb (oc_changed oc) then (oc, d)
  else
    let d' := set_policies (insert parent next) d in
    if oc_event_create_turned_on oc && negb (bool_decide (admins = []))
    then let ids := doomed_events d parent admins in
         (mkOutcome true true (length ids), remove_events ids d')
    else (oc, d').

Lemma merge_turned_on p w author adm next oc :
  merge_policy p w author adm = (next, oc) → oc_event_create_turned_on oc = true →
  oc_changed oc = true.
Proof.
  unfold merge_policy, merge_event_flag, merge_doc_flag. intros Hm Ht.
  repeat (case_match; simplify_eq/=); done.
Qed.

(** The transaction refines [policy_result]: all of it, or nothing. *)
Lemma apply_policy_dwp w author adm admins o :
  dwp (apply_policy w author adm admins) o (λ r o',
    o_log o' = o_log o ∧
    match r with
    | Ok oc => (oc, o_db o') = policy_result (o_db o) w author adm admins
    | Err _ => o_db o' = o_db o
    end).
Proof.
  unfold apply_policy. destruct o as [d l]. dstep; [done|]. dstep. unfold load_policy. dstep; [done|].
  simpl. unfold policy_result.
  destruct (merge_policy _ _ _ _) as [next oc] eqn:Hm. destruct (oc_changed oc) eqn:Hc; simpl.
  2:{ by apply dwp_ret. }
  unfold upsert_policy. dstep. dstep; [done|]. dstep.
  destruct (oc_event_create_turned_on oc && _) eqn:Ht.
  - unfold delete_restricted_events. dstep. dstep. dstep; [done|]. dstep.
    apply delete_loop_dwp; simpl; [done|]. apply dwp_ret. apply dwp_ret. apply dwp_ret. simpl.
    by apply andb_true_iff in Ht as [-> _].
  - apply dwp_ret. apply dwp_ret. simpl. done.
Qed.
(** ** One wire *)

(** The stored policy after one wire. *)
Definition next_policy (d : Db) (w : SquadContentPolicyWire) (author : string) (adm : bool)
    : SquadContentPolicy :=
  (merge_policy (stored_policy d (pw_parent_id w)) w author adm).1.

(** The events that a restriction leaves: other squads', and admins'. *)
Definition spared (parent : string) (admins : list string) (r : EventSqlRow) : Prop :=
  e_parent_id r ≠ parent ∨ e_author_npub r ∈ admins.

Lemma merge_unchanged p w author adm :
  oc_changed (merge_policy p w author adm).2 = false → (merge_policy p w author adm).1 = p.
Proof.
  unfold merge_policy, merge_event_flag, merge_doc_flag. intros Hc.
  destruct adm; simpl in *; [|done]. repeat (case_match; simplify_eq/=); done.
Qed.

Lemma merge_turned_on_iff p w author :
  oc_event_create_turned_on (merge_policy p w author true).2 = true ↔
  restrict_event_create_updated_at_ms p < pw_restrict_event_create_updated_at_ms w ∧
  pw_restrict_event_create w = true ∧ restrict_event_create p = false.
Proof.
  unfold merge_policy, merge_event_flag, merge_doc_flag. simpl. rewrite Z.gtb_ltb.
  destruct (_ <? pw_restrict_event_create_updated_at_ms w) eqn:H1; bool_facts;
    destruct (_ >? _); simpl; rewrite ?andb_true_iff, ?negb_true_iff; naive_solver lia.
Qed.

Lemma doomed_elem d parent admins id :
  id ∈ doomed_events d parent admins ↔
  ∃ r, db_events d !! id = Some r ∧ ¬ spared parent admins r.
Proof.
  unfold doomed_events. rewrite list_elem_of_fmap. split.
  - intros ([k r] & -> & [[Hp Ha] Hin%elem_of_map_to_list]%list_elem_of_filter).
    exists r. split; [done|]. unfold spared. simpl in *. tauto.
  - intros (r & Hr & Hs). exists (id, r). split; [done|]. apply list_elem_of_filter.
    split; [|by apply elem_of_map_to_list]. unfold spared in Hs. simpl.
    destruct (decide (e_parent_id r = parent)), (decide (e_author_npub r ∈ admins)); tauto.
Qed.

(** A wire removes events when it turns the restriction on and the admins are known. *)
Definition restriction_fires (d : Db) (w : SquadContentPolicyWire) (adm : bool)
    (admins : list string) : Prop :=
  let p := stored_policy d (pw_parent_id w) in
  adm = true ∧ admins ≠ [] ∧
  restrict_event_create_updated_at_ms p < pw_restrict_event_create_updated_at_ms w ∧
  pw_restrict_event_create w = true ∧ restrict_event_create p = false.
#[export] Instance restriction_fires_dec d w adm admins :
  Decision (restriction_fires d w adm admins) := _.

Lemma stored_policy_insert d d' p parent next :
  db_policies d' = <[parent := next]> (db_policies d) →
  stored_policy d' p = if decide (p = parent) then next else stored_policy d p.
Proof.
  intros Hd. unfold stored_policy. rewrite Hd. destruct (decide _) as [->|Hne].
  - by rewrite lookup_insert_eq.
  - by rewrite lookup_insert_ne.
Qed.

Lemma policy_result_stored d w author adm admins p :
  stored_policy (policy_result d w author adm admins).2 p =
  if decide (p = pw_parent_id w) then next_policy d w author adm else stored_policy d p.
Proof.
  unfold policy_result, next_policy.
  pose proof (merge_unchanged (stored_policy d (pw_parent_id w)) w author adm) as Hun.
  destruct (merge_policy _ w author adm) as [next oc]. simpl in *. destruct (oc_changed oc); simpl.
  - destruct (_ && _); by apply stored_policy_insert.
  - destruct (decide _) as [->|]; [|done]. by rewrite Hun.
Qed.

Lemma fires_iff d w author adm admins :
  let oc := (merge_policy (stored_policy d (pw_parent_id w)) w author adm).2 in
  restriction_fires d w adm admins ↔
  oc_changed oc = true ∧ oc_event_create_turned_on oc = true ∧ admins ≠ [].
Proof.
  simpl. destruct adm; [|split; [by intros [? _]|by intros [? _]]].
  pose proof (merge_turned_on_iff (stored_policy d (pw_parent_id w)) w author) as Hon.
  pose proof (merge_turned_on (stored_policy d (pw_parent_id w)) w author true _ _
    (surjective_pairing _)) as Hch.
  unfold restriction_fires. tauto.
Qed.

Lemma policy_result_idle d w author adm admins :
  let d' := (policy_result d w author adm admins).2 in
  ¬ restriction_fires d w adm admins →
  db_events d' = db_events d ∧ db_rsvps d' = db_rsvps d ∧ db_pending d' = db_pending d.
Proof.
  simpl. rewrite (fires_iff d w author). unfold policy_result. intros Hf.
  destruct (merge_policy _ w author adm) as [next oc]. simpl in *.
  destruct (oc_changed oc); [|done]. simpl.
  destruct (_ && _) eqn:Ht; [|done]. apply andb_true_iff in Ht as [Ht Hne]. bool_facts. tauto.
Qed.

Lemma policy_result_fires d w author adm admins :
  let d' := (policy_result d w author adm admins).2 in
  let gone id := ∃ r, db_events d !! id = Some r ∧ ¬ spared (pw_parent_id w) admins r in
  restriction_fires d w adm admins →
  (∀ id r, db_events d' !! id = Some r ↔
     db_events d !! id = Some r ∧ spared (pw_parent_id w) admins r) ∧
  (∀ k r, db_rsvps d' !! k = Some r ↔ db_rsvps d !! k = Some r ∧ ¬ gone k.1) ∧
  (∀ k r, db_pending d' !! k = Some r ↔ db_pending d !! k = Some r ∧ ¬ gone (p_record_id r)).
Proof.
  simpl. rewrite (fires_iff d w author). unfold policy_result.
  destruct (merge_policy _ w author adm) as [next oc]. simpl. intros (-> & -> & Hne). simpl.
  rewrite (bool_decide_eq_false_2 _ Hne). simpl.
  split_and!; intros k r; rewrite map_lookup_filter_Some; simpl;
    rewrite doomed_elem; [|reflexivity|reflexivity]. split.
  - intros [Hr Hn]. split; [done|].
    destruct (decide (e_parent_id r = pw_parent_id w)), (decide (e_author_npub r ∈ admins));
      unfold spared in *; try tauto. destruct Hn. exists r. tauto.
  - intros [Hr Hs]. split; [done|]. intros (r' & Hr' & Hn). by simplify_eq.
Qed.

Lemma apply_policy_effect w author adm admins (o : World.Obs Db Effect) :
  dwp (apply_policy w author adm admins) o (λ res o',
    match res with
    | Err _ => o_db o' = o_db o
    | Ok _ => o_db o' = (policy_result (o_db o) w author adm admins).2
    end).
Proof.
  eapply dwp_mono; [apply apply_policy_dwp|]. intros [oc|e] o' [_ Hres]; [|done].
  by apply (f_equal snd) in Hres.
Qed.

(** C23. Applying a policy wire is one transaction. On an error nothing changed. On
    success the squad has the merged policy, other squads theirs; when an admin
    turns the event restriction on and the admins are known, exactly the squad's
    events of everybody else are gone with their RSVPs and queued operations, and
    otherwise no event is touched. *)
Theorem policy_atomic w author adm admins (o : World.Obs Db Effect) :
  dwp (apply_policy w author adm admins) o (λ res o',
    let d := o_db o in let d' := o_db o' in
    match res with
    | Err _ => d' = d
    | Ok _ =>
        (∀ p, stored_policy d' p =
           if decide (p = pw_parent_id w) then next_policy d w author adm else stored_policy d p) ∧
        if decide (restriction_fires d w adm admins)
        then
          let gone id := ∃ r, db_events d !! id = Some r ∧ ¬ spared (pw_parent_id w) admins r in
          (∀ id r, db_events d' !! id = Some r ↔
             db_events d !! id = Some r ∧ spared (pw_parent_id w) admins r) ∧
          (∀ k r, db_rsvps d' !! k = Some r ↔ db_rsvps d !! k = Some r ∧ ¬ gone k.1) ∧
          (∀ k r, db_pending d' !! k = Some r ↔
             db_pending d !! k = Some r ∧ ¬ gone (p_record_id r))
        else
          db_events d' = db_events d ∧ db_rsvps d' = db_rsvps d ∧ db_pending d' = db_pending d
    end).
Proof.
  eapply dwp_mono; [apply apply_policy_effect|]. intros [oc|e] o' Hres; [|done]. cbv zeta.
  rewrite Hres. split; [apply policy_result_stored|]. destruct (decide _).
  - by apply policy_result_fires.
  - by apply policy_result_idle.
Qed.

(** ** Many wires, in any order *)

(** An admin's wire with the admins known at its arrival. *)
Definition policy_delivery : Type := policy_write * list string.

Definition receive_policies (l : list policy_delivery) : Act unit :=
  foldM (λ _ x, apply_policy x.1.1 x.1.2 true x.2 ;! mret tt) tt l.

Lemma apply_policy_lwp w author admins (o : World.Obs Db Effect) :
  lwp (apply_policy w author true admins) o (λ _ _, True).
Proof.
  unfold apply_policy. apply lwp_tx. lstep. unfold load_policy. lstep.
  destruct (merge_policy _ _ _ _) as [next oc]. destruct (negb _); [by apply lwp_ret|].
  lstep. unfold upsert_policy. lstep. lstep.
  destruct (_ && _).
  - lstep. unfold delete_restricted_events. lstep. lstep. lstep.
    eapply lwp_mono; [apply (lwp_foldM _ (λ _ _ _, True)); [|done]|].
    + intros x l [] o1 _. unfold delete_event. by repeat lstep.
    + intros [] o1 _. by repeat lstep.
  - by repeat lstep.
Qed.

Lemma receive_policies_lwp parent l : ∀ (o : World.Obs Db Effect),
  Forall (λ x : policy_delivery, pw_parent_id x.1.1 = parent) l →
  lwp (receive_policies l) o (λ _ o',
    stored_policy (o_db o') parent = policy_fold (stored_policy (o_db o) parent) (l.*1)).
Proof.
  induction l as [|[[w author] admins] l IH]; intros o Hl; unfold receive_policies; simpl;
    [by apply lwp_ret|].
  apply Forall_cons in Hl as [Hp Hl]. simpl in Hp. lstep. lstep.
  eapply lwp_mono; [eapply lwp_dwp; [apply apply_policy_lwp|apply apply_policy_effect]|].
  intros oc o1 (_ & Hdb). lstep. eapply lwp_mono; [by apply IH|].
  intros [] o2 ->. rewrite Hdb, policy_result_stored, Hp, decide_True by done. unfold next_policy. by rewrite Hp.
Qed.

(** The admins' wires of a squad give the same policy in every order of
    arrival: each flag is the newest write's, with its author. *)
Theorem policy_converges parent l l' (o : World.Obs Db Effect) :
  l ≡ₚ l' → Forall (λ x : policy_delivery, pw_parent_id x.1.1 = parent) l →
  NoDup ((λ x : policy_delivery, pw_restrict_event_create_updated_at_ms x.1.1) <$> l) →
  NoDup ((λ x : policy_delivery, pw_restrict_doc_add_updated_at_ms x.1.1) <$> l) →
  ∃ p, lwp (receive_policies l) o (λ _ o', stored_policy (o_db o') parent = p) ∧
    lwp (receive_policies l') o (λ _ o', stored_policy (o_db o') parent = p) ∧
    Forall (λ x : policy_delivery,
      pw_restrict_event_create_updated_at_ms x.1.1 ≤ restrict_event_create_updated_at_ms p ∧
      pw_restrict_doc_add_updated_at_ms x.1.1 ≤ restrict_doc_add_updated_at_ms p) l.
Proof.
  intros Hp Hl Hev Hdoc. set (p0 := stored_policy (o_db o) parent).
  assert (∀ ws : list policy_write, @writes_ok event_flag policy_write _ _ (EventFlag p0) ws) as Hw1
    by (intros ws; split; [by apply Forall_forall|done]).
  assert (∀ ws : list policy_write, @writes_ok doc_flag policy_write _ _ (DocFlag p0) ws) as Hw2
    by (intros ws; split; [by apply Forall_forall|done]).
  exists (policy_fold p0 l.*1). split_and!.
  - by apply receive_policies_lwp.
  - eapply lwp_mono; [apply receive_policies_lwp; by rewrite <- Hp|]. intros [] o' ->. fold p0.
    assert (l.*1 ≡ₚ l'.*1) as Hp' by by rewrite Hp.
    apply policy_eq; rewrite <- ?event_flag_fold, <- ?doc_flag_fold; symmetry.
    + apply (reg_converges (EventFlag p0) _ _ Hp' (Hw1 _)). by rewrite <- list_fmap_compose.
    + apply (reg_converges (DocFlag p0) _ _ Hp' (Hw2 _)). by rewrite <- list_fmap_compose.
  - pose proof (reg_fold_refines l.*1 _ (Hw1 l.*1)) as He.
    pose proof (reg_fold_refines l.*1 _ (Hw2 l.*1)) as Hd.
    rewrite event_flag_fold in He. rewrite doc_flag_fold in Hd.
    apply Forall_forall. intros x Hx.
    destruct (lww_fold_max (wr_view (T := event_flag) <$> l.*1) (reg_view (EventFlag p0))) as [_ Hm1].
    destruct (lww_fold_max (wr_view (T := doc_flag) <$> l.*1) (reg_view (DocFlag p0))) as [_ Hm2].
    rewrite <- He, Forall_forall in Hm1. rewrite <- Hd, Forall_forall in Hm2.
    split.
    + exact (Hm1 _ (list_elem_of_fmap_2 (wr_view (T := event_flag)) _ _ (list_elem_of_fmap_2 fst _ _ Hx))).
    + exact (Hm2 _ (list_elem_of_fmap_2 (wr_view (T := doc_flag)) _ _ (list_elem_of_fmap_2 fst _ _ Hx))).
Qed.

(** ** Setting a flag *)

#[export] Instance PolicyFlag_eq_dec : EqDecision PolicyFlag.
Proof. solve_decision. Defined.

Definition flag_of (p : SquadContentPolicy) (f : PolicyFlag) : bool :=
  match f with
  | RestrictEventCreate => restrict_event_create p
  | RestrictDocAdd => restrict_doc_add p
  end.
Definition shown_flag (v : SquadContentPolicyView) (f : PolicyFlag) : bool :=
  match f with
  | RestrictEventCreate => v_restrict_event_create v
  | RestrictDocAdd => v_restrict_doc_add v
  end.

(** Flag stamps leave room for one more write. *)
Definition flag_stamps_ok (p : SquadContentPolicy) : Prop :=
  i64_ok (restrict_event_create_updated_at_ms p) ∧ i64_ok (restrict_doc_add_updated_at_ms p) ∧
  restrict_event_create_updated_at_ms p < i64_max ∧ restrict_doc_add_updated_at_ms p < i64_max.

Lemma set_wire_wins p parent f value now author :
  flag_stamps_ok p → ∀ f',
  flag_of (merge_policy p (build_set_wire p parent f value now) author true).1 f' =
    if decide (f' = f) then value else flag_of p f'.
Proof.
  intros (H1 & H2 & H3 & H4) f'.
  pose proof (saturating_succ_gt _ H1 H3). pose proof (saturating_succ_gt _ H2 H4).
  unfold merge_policy, merge_event_flag, merge_doc_flag. simpl. rewrite !Z.gtb_ltb.
  destruct f; simpl.
  - rewrite (proj2 (Z.ltb_lt _ _)) by lia. simpl. rewrite (proj2 (Z.ltb_ge _ _)) by lia.
    by destruct f'.
  - rewrite (proj2 (Z.ltb_ge _ _)) by lia. simpl. rewrite (proj2 (Z.ltb_lt _ _)) by lia.
    by destruct f'.
Qed.

Lemma require_admin_ok role u :
  require_admin role = Ok u → is_member role = true ∧ is_admin role = true.
Proof. unfold require_admin. by destruct (is_member role), (is_admin role). Qed.

Section own.
Context `{SerdeText} `{Nostr}.

Lemma chat_participants_db chat (o : World.Obs Db Effect) :
  dwp (chat_participants chat) o (λ _ o', o_db o' = o_db o).
Proof.
  unfold chat_participants. dstep. dstep. destruct (loaded_participants _ _); [by apply dwp_ret|].
  dstep. dstep. apply dwp_quiet_any; [quiet_tac|]. intros r. by apply dwp_ret.
Qed.

(** The view tells the stored flags and changes nothing. *)
Lemma policy_view_dwp group parent caller (o : World.Obs Db Effect) :
  dwp (policy_view group parent caller) o (λ res o', o_db o' = o_db o ∧
    ∀ v, res = Ok v → ∀ f, shown_flag v f = flag_of (stored_policy (o_db o) parent) f).
Proof.
  unfold policy_view, with_conn, load_policy. dstep. dskip. dstep; [done|]. dstep.
  apply dwp_quiet_any; [auto with quiet|]. intros [admins|e]; [|done]. dstep.
  eapply dwp_mono; [apply chat_participants_db|]. intros [parts|e] o' Ho; [|done].
  destruct (view_roles parts admins caller) as [b1 b2]. apply dwp_ret. split; [done|].
  intros v [= <-] []; done.
Qed.

(** Setting a flag that reports success: the signer is an admin member of the
    squad's group, the flag has the value, in the database and in the answer, and
    the other flag kept its own. *)
Theorem own_policy_lands group parent flag value (o : World.Obs Db Effect) :
  flag_stamps_ok (stored_policy (o_db o) parent) →
  dwp (set_squad_content_policy group parent flag value) o (λ res o', ∀ v, res = Ok v →
    (∃ caller, acts_as_admin (o_db o) group caller) ∧
    ∃ f, PolicyFlag_parse flag = Ok f ∧ ∀ f',
      flag_of (stored_policy (o_db o') parent) f' =
        (if decide (f' = f) then value else flag_of (stored_policy (o_db o) parent) f') ∧
      shown_flag v f' = flag_of (stored_policy (o_db o') parent) f').
Proof.
  intros Hst. unfold set_squad_content_policy. dskip. dstep. dstep.
  destruct (PolicyFlag_parse flag) as [f|e] eqn:Hf; [|done]. dstep. dstep.
  destruct (require_parent_group group parent) as [u|]; [|done]. dstep.
  eapply dwp_quiet; [auto with quiet|apply signer_identity_dwp|].
  intros [[pk caller]|e] Hnpub; [|done]. specialize (Hnpub _ _ eq_refl). dstep.
  eapply dwp_quiet; [auto with quiet|by apply group_role_admin|].
  intros [role|e] Hrole; [|done]. specialize (Hrole _ eq_refl). dstep. dstep.
  destruct (require_admin role) as [u'|] eqn:Hadm; [|done].
  apply require_admin_ok in Hadm as [Hm Ha]. specialize (Hrole Hm Ha). unfold with_conn at 1, load_policy. dstep. dskip.
  dstep; [done|]. unfold now_ms. dstep. dstep. dstep. dstep; [by apply dwp_throw|]. apply dwp_ret.
  set (w := build_set_wire (stored_policy (o_db o) parent) parent f value (wrap64 t)). dstep. dstep; [done|]. dstep. unfold apply_and_emit, with_conn.
  dstep. apply dwp_quiet_any; [quiet_tac|]. intros [admins|e]; [|done].
  dstep. dskip. eapply dwp_mono; [apply apply_policy_effect|]. intros [oc|e] o1 Hres; [|done].
  pose proof (policy_result_stored (o_db o) w caller true admins parent) as Hpol.
  simpl in Hres. rewrite <- Hres in Hpol. clear Hres.
  assert (pw_parent_id w = parent) as Hpw by by unfold w; destruct f.
  rewrite Hpw, decide_True in Hpol by done. simpl in Hpol.
  unfold next_policy in Hpol. rewrite Hpw in Hpol. unfold w in Hpol. simpl in Hpol.
  dstep. destruct (oc_changed oc); dstep; dstep; destruct (0 <? oc_deleted_events oc)%nat;
    dstep; apply dwp_ret; (eapply dwp_mono; [apply policy_view_dwp|]; simpl;
      intros res o' [Hdb Hv] v ->; split; [by exists caller|]; exists f; split; [done|]; intros f';
      rewrite (Hv v eq_refl), Hdb, Hpol; split; [by apply set_wire_wins|done]).
Qed.
End own.

(** ** Roles *)

(** C36. A role lookup changes nothing and fails closed: whatever cannot be read
    denies. Membership needs an active group, the first the id names, and the npub among
    its chat's participants; admin needs membership and a place on the engine's admin list of
    that very group: the first engine group under the row's engine id, or under its own id if
    the row has no engine id. *)
Theorem role_fail_closed `{SerdeText} `{Nostr} group npub (o : World.Obs Db Effect) :
  dwp (group_role group npub) o (λ res o', o' = o ∧ ∀ role, res = Ok role →
    (is_admin role = true → is_member role = true) ∧
    (is_member role = true → ∃ ids, group_alias (o_db o) group ids ∧
       listed_for (o_db o) (trim (wire_id ids)) npub ∧
       (is_admin role = true → engine_admin (o_db o) (engine_id ids) (trim npub)))).
Proof. apply dwp_and; [apply quiet_group_role|apply group_role_closed]. Qed.

(** ** Witnesses *)

Definition toy_restrict (ev : bool) (at_ : Z) : SquadContentPolicyWire :=
  mkPolicyWire POLICY_SCHEMA "g" ev at_ false at_.

Lemma policy_converges_witness :
  let l := [((toy_restrict true 10, "alice"), ["alice"]); ((toy_restrict false 20, "dave"), [])] in
  ∃ p, lwp (receive_policies l) (toy_obs toy_stored) (λ _ o', stored_policy (o_db o') "g" = p) ∧
    lwp (receive_policies (reverse l)) (toy_obs toy_stored)
      (λ _ o', stored_policy (o_db o') "g" = p).
Proof.
  intros l. destruct (policy_converges "g" l (reverse l) (toy_obs toy_stored)) as (p & H1 & H2 & _).
  - symmetry. apply reverse_Permutation.
  - repeat constructor.
  - apply (bool_decide_unpack _). vm_compute. exact I.
  - apply (bool_decide_unpack _). vm_compute. exact I.
  - exists p. split; [exact H1|exact H2].
Defined.

Lemma own_policy_lands_witness :
  flag_stamps_ok (stored_policy toy_stored "g") ∧
  dwp (set_squad_content_policy "g" "g" "restrict_doc_add" true) (toy_obs toy_stored)
    (λ res o', ∀ v, res = Ok v →
      (∃ caller, acts_as_admin toy_stored "g" caller) ∧
      ∃ f, PolicyFlag_parse "restrict_doc_add" = Ok f ∧ ∀ f',
      flag_of (stored_policy (o_db o') "g") f' =
        (if decide (f' = f) then true else flag_of (stored_policy toy_stored "g") f') ∧
      shown_flag v f' = flag_of (stored_policy (o_db o') "g") f').
Proof.
  assert (flag_stamps_ok (stored_policy toy_stored "g")) as Hst
    by (vm_compute; repeat split; congruence).
  split; [exact Hst|]. apply own_policy_lands. exact Hst.
Defined.
