(* ===== verification/UrlSecrets.v ===== *)
(** * Secrets in URLs ([url_secrets.rs])

    The display form of a document link masks its fragment and the values of
    secret-named and tracking query parameters; the fetch form drops the fragment
    and the secret parameters. The [url] crate's parser is the class [UrlCrate]. *)

From Stdlib Require Import Ascii.
From S2P Require Import Prelude.

(** ** Splitting texts *)

(** [str::split_once] and [str::find] with a one-byte pattern. *)
Fixpoint split_once (c : ascii) (s : string) : option (string * string) :=
  match s with
  | EmptyString => None
  | String a s' =>
      if bool_decide (a = c) then Some ("", s')
      else (λ p, (String a p.1, p.2)) <$> split_once c s'
  end.

(** [str::split] with a one-byte pattern: never empty. *)
Fixpoint split (c : ascii) (s : string) : list string :=
  match s with
  | EmptyString => [""]
  | String a s' =>
      if bool_decide (a = c) then "" :: split c s'
      else match split c s' with
           | x :: l => String a x :: l
           | [] => [String a ""]
           end
  end.

(** The loops that push a separator before every part but the first. *)
Fixpoint join (c : ascii) (l : list string) : string :=
  match l with
  | [] => ""
  | x :: l' => match l' with
               | [] => x
               | _ => x +:+ String c (join c l')
               end
  end.

Definition AMP : ascii := "&"%char.
Definition EQ : ascii := "="%char.
Definition HASH : ascii := "#"%char.
Definition QUERY : ascii := "?"%char.
Definition PERCENT : ascii := "%"%char.

Definition MASK : string := "••••".

Definition SECRET_QUERY_NAMES : list string :=
  ["token"; "access_token"; "id_token"; "refresh_token"; "api_key"; "apikey"; "key";
   "secret"; "sig"; "signature"; "auth"; "password"; "code"].

Definition TRACKING_PARAM_PREFIXES : list string := ["utm_"].

Definition TRACKING_PARAM_NAMES : list string :=
  ["fbclid"; "gclid"; "dclid"; "gclsrc"; "gbraid"; "wbraid"; "msclkid"; "mc_eid"; "mc_cid";
   "twclid"; "ttclid"; "yclid"; "srsltid"; "_ga"; "_gl"; "_openstat"; "wickedid"; "_hsenc";
   "_hsmi"; "__hsfp"; "__hssc"; "__hstc"; "hsctatracking"; "mkt_tok"; "oly_anon_id";
   "oly_enc_id"; "vero_id"; "vero_conv"].

Definition HOST_SCOPED_TRACKING_PARAMS : list (list string * list string) :=
  [(["youtube.com"; "youtu.be"; "open.spotify.com"], ["si"]);
   (["instagram.com"], ["igsh"; "igshid"]);
   (["threads.net"; "threads.com"], ["igshid"]);
   (["x.com"; "twitter.com"], ["ref_src"; "ref_url"; "refsrc"])].

(** ** Names *)

(** [pair]: a part without [=] has an empty value. *)
Definition pair (part : string) : string * string := default (part, "") (split_once EQ part).

(** [char::to_digit(16)] *)
Definition hex_digit (a : ascii) : option N :=
  let n := code a in
  if (48 <=? n)%N && (n <=? 57)%N then Some (n - 48)%N
  else if (97 <=? n)%N && (n <=? 102)%N then Some (n - 87)%N
  else if (65 <=? n)%N && (n <=? 70)%N then Some (n - 55)%N
  else None.

(** Percent-decoded bytes; invalid escapes stay literal. *)
Fixpoint decoded_bytes (raw : list ascii) : list ascii :=
  match raw with
  | [] => []
  | b :: rest =>
      if bool_decide (b = PERCENT) then
        match rest with
        | hi :: lo :: rest' =>
            match hex_digit hi, hex_digit lo with
            | Some h, Some l => ascii_of_N (h * 16 + l) :: decoded_bytes rest'
            | _, _ => b :: decoded_bytes rest
            end
        | _ => b :: decoded_bytes rest
        end
      else b :: decoded_bytes rest
  end.

Definition decoded_name (name : string) : list ascii :=
  decoded_bytes (String.list_ascii_of_string name).

Definition is_secret_name (name : string) : bool :=
  existsb (λ s, bool_decide (lower_ascii <$> decoded_name name = String.list_ascii_of_string s))
    SECRET_QUERY_NAMES.

(** [host == rule], or a host that ends with a dot and the rule. *)
Definition host_matches (host rule : string) : bool :=
  let h := String.list_ascii_of_string host in
  let r := String.list_ascii_of_string rule in
  bool_decide (h = r) ||
  ((length r <? length h)%nat && bool_decide (drop (length h - length r) h = r) &&
   bool_decide (h !! (length h - length r - 1)%nat = Some "."%char)).

Definition is_tracking_name (name host path : string) : bool :=
  let lower := to_ascii_lowercase name in
  if existsb (λ p, starts_with p lower) TRACKING_PARAM_PREFIXES then true
  else if bool_decide (lower ∈ TRACKING_PARAM_NAMES)
  then negb (bool_decide (lower = "mkt_tok")
             && contains "unsubscribe" (to_ascii_lowercase path))
  else existsb (λ '(hosts, names), bool_decide (lower ∈ names)
                  && existsb (host_matches host) hosts) HOST_SCOPED_TRACKING_PARAMS.

(** ** Splitting a URL *)

(** [url::Url]: scheme, host when there is one, path. *)
Record Url : Type := mkUrl {
  url_scheme : string;
  url_host_str : option string;
  url_path : string;
}.

Class UrlCrate : Type := {
  (** [url::Url::parse(..).ok()] *)
  Url_parse : string → option Url;
}.

Record Split : Type := mkSplit {
  s_prefix : string;
  s_query : option string;
  s_fragment : option string;
  s_host : string;
  s_path : string;
}.

(** The text before the first [c], and the text after it. *)
Definition cut (c : ascii) (s : string) : string * option string :=
  match split_once c s with
  | Some (a, b) => (a, Some b)
  | None => (s, None)
  end.

Section secrets.
Context `{UrlCrate}.

Definition split_http (raw : string) : option Split :=
  parsed ← Url_parse raw;
  if negb (bool_decide (url_scheme parsed = "http"))
     && negb (bool_decide (url_scheme parsed = "https"))
  then None
  else
    let '(before, fragment) := cut HASH raw in
    let '(prefix, query) := cut QUERY before in
    Some (mkSplit prefix query fragment
      (to_ascii_lowercase (default "" (url_host_str parsed))) (url_path parsed)).

(** One query part of the display form. *)
Definition mask_part (s : Split) (part : string) : string :=
  let '(name, value) := pair part in
  if negb (bool_decide (value = ""))
     && (is_secret_name name || is_tracking_name name (s_host s) (s_path s))
  then name +:+ String EQ MASK
  else part.

Definition mask_split (s : Split) : string :=
  s_prefix s
  +:+ match s_query s with
      | Some query => String QUERY (join AMP (mask_part s <$> split AMP query))
      | None => ""
      end
  +:+ match s_fragment s with
      | Some "" => String HASH ""
      | Some _ => String HASH MASK
      | None => ""
      end.

Definition mask_doc_url (raw : string) : string :=
  match split_http raw with
  | None => raw
  | Some s => mask_split s
  end.

(** The filter of [rebuild_without]. *)
Definition kept_part (s : Split) (drop_trackers : bool) (part : string) : bool :=
  let '(name, _) := pair part in
  negb (bool_decide (part = "")) && negb (is_secret_name name)
  && negb (drop_trackers && is_tracking_name name (s_host s) (s_path s)).

Definition rebuild_without (raw : string) (drop_trackers : bool) : string :=
  match split_http raw with
  | None => raw
  | Some s =>
      let kept := filter (λ p, kept_part s drop_trackers p = true)
                    (from_option (split AMP) [] (s_query s)) in
      s_prefix s +:+ match kept with
                     | [] => ""
                     | _ => String QUERY (join AMP kept)
                     end
  end.

Definition strip_fetch_secrets (raw : string) : string := rebuild_without raw false.
End secrets.

(** ** Splitting and joining *)

(** The byte occurs in the text. *)
Definition occurs (c : ascii) (s : string) : Prop := c ∈ String.list_ascii_of_string s.

Lemma occurs_app c s t : occurs c (s +:+ t) ↔ occurs c s ∨ occurs c t.
Proof.
  unfold occurs. rewrite <- elem_of_app. f_equiv.
  induction s as [|a s IH]; simpl; [done|by rewrite IH].
Qed.

Lemma occurs_cons c a s : occurs c (String a s) ↔ c = a ∨ occurs c s.
Proof. unfold occurs. simpl. apply elem_of_cons. Qed.

Lemma split_once_none c s : split_once c s = None ↔ ¬ occurs c s.
Proof.
  induction s as [|a s IH]; [split; [intros _; apply not_elem_of_nil|done]|].
  rewrite occurs_cons. simpl. destruct (bool_decide (a = c)) eqn:E; bool_facts.
  - naive_solver.
  - rewrite fmap_None, IH. naive_solver.
Qed.

Lemma split_once_app c a b : ¬ occurs c a → split_once c (a +:+ String c b) = Some (a, b).
Proof.
  induction a as [|x a IH]; simpl; intros Ha; [by rewrite bool_decide_eq_true_2|].
  rewrite occurs_cons in Ha. rewrite bool_decide_eq_false_2 by naive_solver.
  rewrite IH by naive_solver. done.
Qed.

Lemma split_once_Some c s a b :
  split_once c s = Some (a, b) ↔ s = a +:+ String c b ∧ ¬ occurs c a.
Proof.
  split; [|intros [-> Ha]; by apply split_once_app].
  revert a. induction s as [|x s IH]; simpl; intros a; [done|].
  destruct (bool_decide (x = c)) eqn:E; bool_facts.
  - intros [= <- <-]. split; [by rewrite E|]. apply not_elem_of_nil.
  - intros ([a' b'] & Hs & [= -> ->])%fmap_Some. simpl in *.
    destruct (IH a') as [-> Ha']; [by rewrite Hs|]. split; [done|].
    rewrite occurs_cons. naive_solver.
Qed.

Lemma split_nonempty c s : split c s ≠ [].
Proof. destruct s as [|a s]; simpl; [done|]. destruct (bool_decide _); [done|]. by destruct (split c s). Qed.

Lemma split_none c s : ¬ occurs c s → split c s = [s].
Proof.
  induction s as [|a s IH]; [done|]. rewrite occurs_cons. intros Hs. simpl.
  rewrite bool_decide_eq_false_2 by naive_solver. rewrite IH by naive_solver. done.
Qed.

Lemma split_app c x s : ¬ occurs c x → split c (x +:+ String c s) = x :: split c s.
Proof.
  induction x as [|a x IH]; simpl; intros Hx; [by rewrite bool_decide_eq_true_2|].
  rewrite occurs_cons in Hx. rewrite bool_decide_eq_false_2 by naive_solver.
  by rewrite IH by naive_solver.
Qed.

Lemma split_parts c s : Forall (λ p, ¬ occurs c p) (split c s).
Proof.
  induction s as [|a s IH]; simpl; [constructor; [apply not_elem_of_nil|constructor]|].
  destruct (bool_decide (a = c)) eqn:E; bool_facts.
  - constructor; [apply not_elem_of_nil|done].
  - destruct (split c s) as [|x l] eqn:Hs; [by apply split_nonempty in Hs|].
    apply Forall_cons in IH as [Hx Hl]. constructor; [|done]. rewrite occurs_cons. naive_solver.
Qed.

Lemma join_split c s : join c (split c s) = s.
Proof.
  induction s as [|a s IH]; [done|]. simpl. destruct (bool_decide (a = c)) eqn:E; bool_facts.
  - subst a. pose proof (split_nonempty c s). destruct (split c s); [done|]. simpl. simpl in IH.
    by rewrite IH.
  - destruct (split c s) as [|x l] eqn:Hs; [by apply split_nonempty in Hs|].
    rewrite <- IH. simpl. by destruct l.
Qed.

Lemma split_join c l : l ≠ [] → Forall (λ p, ¬ occurs c p) l → split c (join c l) = l.
Proof.
  induction l as [|x l IH]; [done|]. intros _ Hl. apply Forall_cons in Hl as [Hx Hl].
  destruct l as [|y l]; [by apply split_none|].
  change (join c (x :: y :: l)) with (x +:+ String c (join c (y :: l))).
  rewrite split_app by done. f_equal. by apply IH.
Qed.

Lemma occurs_join c c' l : occurs c (join c' l) → c = c' ∨ ∃ p, p ∈ l ∧ occurs c p.
Proof.
  induction l as [|x l IH]; [by intros ?%not_elem_of_nil|]. destruct l as [|y l].
  - intros Hx. right. exists x. split; [apply list_elem_of_here|done].
  - change (join c' (x :: y :: l)) with (x +:+ String c' (join c' (y :: l))).
    rewrite occurs_app, occurs_cons. intros [Hx|[->|Hj]]; [right|by left|].
    + exists x. split; [apply list_elem_of_here|done].
    + destruct (IH Hj) as [?|(p & Hp & ?)]; [by left|right]. exists p.
      split; [by apply list_elem_of_further|done].
Qed.

Lemma occurs_split c c' s p : p ∈ split c' s → occurs c p → occurs c s.
Proof.
  revert p. induction s as [|a s IH]; simpl; intros p.
  - intros ->%list_elem_of_singleton. done.
  - rewrite occurs_cons. destruct (bool_decide (a = c')).
    + intros [->|Hp]%elem_of_cons Hc; [by apply not_elem_of_nil in Hc|]. right. by eapply IH.
    + destruct (split c' s) as [|x l] eqn:Hs; [by apply split_nonempty in Hs|].
      intros [->|Hp]%elem_of_cons Hc.
      * apply occurs_cons in Hc as [->|Hc]; [by left|right]. eapply IH; [apply list_elem_of_here|done].
      * right. eapply IH; [by apply list_elem_of_further|done].
Qed.
