(* ===== verification/UrlTheorems.v ===== *)
(** * The properties of the display and fetch forms of URLs

    The display form shows everything but the masked values, depends on nothing
    else of them, and is stable; the fetch form carries no secret. *)

From Stdlib Require Import Ascii.
From S2P Require Import Prelude UrlSecrets.

(** ** Cutting *)

Lemma append_empty (s : string) : s +:+ "" = s.
Proof. induction s as [|a s IH]; [done|]. exact (f_equal (String a) IH). Qed.

Lemma cut_spec c s a o :
  cut c s = (a, o) → ¬ occurs c a ∧ s = a +:+ match o with Some b => String c b | None => "" end.
Proof.
  unfold cut. destruct (split_once c s) as [[a' b]|] eqn:Hs.
  - apply split_once_Some in Hs as [-> Ha]. by intros [= <- <-].
  - apply split_once_none in Hs. intros [= <- <-]. split; [done|].
    by rewrite append_empty.
Qed.

Lemma append_assoc (s t u : string) : (s +:+ t) +:+ u = s +:+ (t +:+ u).
Proof. induction s as [|a s IH]; [done|]. exact (f_equal (String a) IH). Qed.

Lemma cut_app c a o :
  ¬ occurs c a → cut c (a +:+ match o with Some b => String c b | None => "" end) = (a, o).
Proof.
  intros Ha. unfold cut. destruct o as [b|]; [by rewrite split_once_app|].
  by rewrite append_empty, (proj2 (split_once_none c a) Ha).
Qed.

(** ** Links, and what of them is secret

    Said without the code's own cutting and decoding: a link put together from its parts,
    the text a name decodes to as a relation, and the names in question. *)

Record Link : Type := mkLink {
  l_prefix : string;
  (** The names, each with what follows its [=] if it has one. *)
  l_query : option (list (string * option string));
  l_fragment : option string;
}.

Definition part_text (p : string * option string) : string :=
  p.1 +:+ from_option (λ v, "=" +:+ v) "" p.2.
Definition link_text (l : Link) : string :=
  l_prefix l +:+ from_option (λ ps, "?" +:+ String.concat "&" (part_text <$> ps)) "" (l_query l)
    +:+ from_option (λ f, "#" +:+ f) "" (l_fragment l).

Definition free_of (cs : list ascii) (s : string) : Prop := ∀ c, c ∈ cs → ¬ occurs c s.

(** Each separator ends what comes before it; a fragment is free. *)
Record link_ok (l : Link) : Prop := {
  lo_prefix : free_of ["#"; "?"]%char (l_prefix l);
  lo_query : ∀ ps, l_query l = Some ps → ps ≠ [] ∧
    Forall (λ p, free_of ["#"; "&"; "="]%char p.1 ∧ ∀ v, p.2 = Some v → free_of ["#"; "&"]%char v) ps;
}.

Definition hex_value (a : ascii) (n : nat) : Prop :=
  String.list_ascii_of_string "0123456789abcdef" !! n = Some (lower_ascii a).

(** Percent-decoding; a [%] that no two hex digits follow stays. *)
Inductive decodes : list ascii → list ascii → Prop :=
| dec_nil : decodes [] []
| dec_plain a s t : a ≠ "%"%char → decodes s t → decodes (a :: s) (a :: t)
| dec_escape hi lo h l s t :
    hex_value hi h → hex_value lo l → decodes s t →
    decodes ("%"%char :: hi :: lo :: s) (ascii_of_nat (16 * h + l) :: t)
| dec_literal s t :
    (∀ hi lo s' h l, s = hi :: lo :: s' → hex_value hi h → hex_value lo l → False) →
    decodes s t → decodes ("%"%char :: s) ("%"%char :: t).

Definition secret_name (name : string) : Prop :=
  ∃ t secret, decodes (String.list_ascii_of_string name) t ∧ secret ∈ SECRET_QUERY_NAMES ∧
    lower_ascii <$> t = String.list_ascii_of_string secret.

Definition tracking_name (name host path : string) : Prop :=
  let lower := to_ascii_lowercase name in
  (∃ p rest, p ∈ TRACKING_PARAM_PREFIXES ∧ lower = p +:+ rest) ∨
  (lower ∈ TRACKING_PARAM_NAMES ∧
     ¬ (lower = "mkt_tok" ∧ ∃ a b, to_ascii_lowercase path = a +:+ "unsubscribe" +:+ b)) ∨
  (∃ hosts names h, (hosts, names) ∈ HOST_SCOPED_TRACKING_PARAMS ∧ lower ∈ names ∧ h ∈ hosts ∧
     (host = h ∨ ∃ sub, host = sub +:+ "." +:+ h)).

Definition host_of (u : Url) : string := to_ascii_lowercase (default "" (url_host_str u)).
Definition hidden (u : Url) (name : string) : Prop :=
  secret_name name ∨ tracking_name name (host_of u) (url_path u).

(** What is shown of a part and of a link. *)
Definition shown_part (u : Url) (p p' : string * option string) : Prop :=
  p'.1 = p.1 ∧
  let hides := ∃ v, p.2 = Some v ∧ v ≠ "" ∧ hidden u p.1 in
  (hides ∧ p'.2 = Some "••••" ∨ ¬ hides ∧ p'.2 = p.2).
Definition shown_link (u : Url) (l l' : Link) : Prop :=
  l_prefix l' = l_prefix l ∧ option_Forall2 (Forall2 (shown_part u)) (l_query l) (l_query l') ∧
  l_fragment l' = (λ f, if decide (f = "") then "" else "••••") <$> l_fragment l.

(** Two links an onlooker must not tell apart. *)
Definition same_part (u : Url) (p p' : string * option string) : Prop :=
  p = p' ∨ ∃ name v v', p = (name, Some v) ∧ p' = (name, Some v') ∧ v ≠ "" ∧ v' ≠ "" ∧ hidden u name.
Definition same_link (u : Url) (l l' : Link) : Prop :=
  l_prefix l = l_prefix l' ∧ option_Forall2 (Forall2 (same_part u)) (l_query l) (l_query l') ∧
  option_Forall2 (λ f f', f = "" ↔ f' = "") (l_fragment l) (l_fragment l').

(** *** Names *)

Lemma ascii_list_app (s t : string) :
  String.list_ascii_of_string (s +:+ t) = String.list_ascii_of_string s ++ String.list_ascii_of_string t.
Proof. induction s as [|a s IH]; [done|]. exact (f_equal (cons a) IH). Qed.

Lemma hex_digit_find a : hex_digit a =
  (λ x, N.of_nat x.1) <$> list_find (λ c, c = lower_ascii a) (String.list_ascii_of_string "0123456789abcdef").
Proof. destruct a as [[] [] [] [] [] [] [] []]; vm_compute; reflexivity. Qed.

Lemma hex_digit_spec a n : hex_digit a = Some (N.of_nat n) ↔ hex_value a n.
Proof.
  rewrite hex_digit_find. unfold hex_value. split.
  - intros ([i c] & (Hi & -> & _)%list_find_Some & Hn)%fmap_Some. simpl in *.
    by replace n with i by lia.
  - intros Hn. destruct (list_find _ _) as [[i c]|] eqn:Hf.
    + apply list_find_Some in Hf as (Hi & -> & _). simpl. do 2 f_equal.
      eapply (NoDup_lookup (String.list_ascii_of_string "0123456789abcdef")); [|exact Hi|exact Hn].
      by apply (bool_decide_unpack _).
    + apply list_find_None in Hf. rewrite Forall_forall in Hf. destruct (Hf _ (list_elem_of_lookup_2 _ _ _ Hn)). done.
Qed.

Lemma decodes_fun s t : decodes s t → decoded_bytes s = t.
Proof.
  induction 1 as [|a s t Ha _ IH|hi lo h l s t Hh Hl _ IH|s t Hno _ IH]; [done|..].
  - simpl. rewrite bool_decide_eq_false_2 by done. by rewrite IH.
  - simpl. apply hex_digit_spec in Hh as ->, Hl as ->. rewrite IH. f_equal.
    unfold ascii_of_nat. f_equal. lia.
  - simpl. rewrite <- IH. destruct s as [|hi [|lo s']]; try done.
    destruct (hex_digit hi) as [h|] eqn:Hh; [|done]. destruct (hex_digit lo) as [l|] eqn:Hl; [|done].
    exfalso. apply (Hno hi lo s' (N.to_nat h) (N.to_nat l)); [done|apply hex_digit_spec; by rewrite N2Nat.id..].
Qed.

Lemma decodes_total s : decodes s (decoded_bytes s).
Proof.
  induction s as [s IH] using (induction_ltof1 _ (@length ascii)). unfold ltof in IH.
  destruct s as [|a s]; [constructor|]. simpl. destruct (bool_decide (a = PERCENT)) eqn:Ha; bool_facts.
  2:{ apply dec_plain; [done|]. apply IH. simpl. lia. }
  subst a. assert (decodes s (decoded_bytes s)) as Hs by (apply IH; simpl; lia).
  destruct s as [|hi [|lo s]]; [by apply dec_literal..|].
  destruct (hex_digit hi) as [h|] eqn:Hh; [destruct (hex_digit lo) as [l|] eqn:Hl|].
  - assert (ascii_of_N (h * 16 + l) = ascii_of_nat (16 * N.to_nat h + N.to_nat l)) as ->
      by (unfold ascii_of_nat; f_equal; lia).
    apply dec_escape; [apply hex_digit_spec; by rewrite N2Nat.id..|]. apply IH. simpl. lia.
  - apply dec_literal; [|done]. intros ? ? ? h' l' [= <- <- <-] _ Hl'%hex_digit_spec. congruence.
  - apply dec_literal; [|done]. intros ? ? ? h' l' [= <- <- <-] Hh'%hex_digit_spec _. congruence.
Qed.

Lemma secret_name_spec name : is_secret_name name = true ↔ secret_name name.
Proof.
  unfold is_secret_name, secret_name, decoded_name. rewrite existsb_exists. split.
  - intros (secret & Hin & Hb). bool_facts. eexists _, secret. split; [apply decodes_total|].
    split; [by apply list_elem_of_In|done].
  - intros (t & secret & Hd & Hin & Hb). exists secret. split; [by apply list_elem_of_In|].
    apply bool_decide_eq_true. by rewrite (decodes_fun _ _ Hd).
Qed.

Lemma starts_with_spec p s : starts_with p s = true ↔ ∃ r, s = p +:+ r.
Proof.
  revert s. induction p as [|a p IH]; intros s; [split; [intros _; by exists s|done]|].
  destruct s as [|b s]; [split; [done|by intros [r [=]]]|].
  change (starts_with (String a p) (String b s)) with (bool_decide (a = b) && starts_with p s).
  rewrite andb_true_iff, bool_decide_eq_true, IH. split.
  - intros [-> [r ->]]. by exists r.
  - intros [r [= -> ->]]. eauto.
Qed.

Lemma contains_spec p s : contains p s = true ↔ ∃ a b, s = a +:+ p +:+ b.
Proof.
  induction s as [|c s IH].
  - change (contains p "") with (starts_with p "" || false). rewrite orb_false_r, starts_with_spec.
    split; [intros [r Hr]; by exists "", r|]. intros ([|x a] & b & Hr); [by exists b|done].
  - change (contains p (String c s)) with (starts_with p (String c s) || contains p s).
    rewrite orb_true_iff, starts_with_spec, IH. split.
    + intros [[r Hr]|(a & b & ->)]; [by exists "", r|by exists (String c a), b].
    + intros ([|x a] & b & Hr); [left; by exists b|]. injection Hr as -> ->. right. by exists a, b.
Qed.

Lemma host_matches_spec host rule : host_matches host rule = true ↔ host = rule ∨ ∃ sub, host = sub +:+ "." +:+ rule.
Proof.
  unfold host_matches. rewrite orb_true_iff, !andb_true_iff, Nat.ltb_lt, !bool_decide_eq_true.
  set (h := String.list_ascii_of_string host). set (r := String.list_ascii_of_string rule).
  assert (h = r ↔ host = rule) as ->.
  { split; [|by unfold h, r; intros ->]. intros Hh. unfold h, r in Hh.
    by rewrite <- (String.string_of_list_ascii_of_string host), Hh, String.string_of_list_ascii_of_string. }
  f_equiv. split.
  - intros [[Hl Hd] Hp]. exists (String.string_of_list_ascii (take (length h - length r - 1) h)).
    rewrite <- (String.string_of_list_ascii_of_string host). fold h.
    rewrite <- (take_drop_middle h _ _ Hp) at 1.
    replace (S (length h - length r - 1)) with (length h - length r)%nat by lia. rewrite Hd. unfold r.
    induction (take _ h) as [|a l IH]; simpl; [by rewrite String.string_of_list_ascii_of_string|exact (f_equal (String a) IH)].
  - intros [sub ->]. assert (h = String.list_ascii_of_string sub ++ "."%char :: r) as Hh by (unfold h; by rewrite !ascii_list_app).
    rewrite Hh, length_app. simpl. replace (length (String.list_ascii_of_string sub) + S (length r) - length r)%nat
      with (S (length (String.list_ascii_of_string sub))) by lia.
    split; [split; [lia|]|].
    + by rewrite <- (Nat.add_1_r (length _)), <- drop_drop, drop_app_length.
    + rewrite Nat.sub_1_r. simpl. by apply list_lookup_middle.
Qed.

Lemma tracking_name_spec name host path : is_tracking_name name host path = true ↔ tracking_name name host path.
Proof.
  unfold is_tracking_name, tracking_name. set (lower := to_ascii_lowercase name).
  destruct (existsb (λ p, starts_with p lower) TRACKING_PARAM_PREFIXES) eqn:Hp.
  { apply existsb_exists in Hp as (p & Hin & [r Hr]%starts_with_spec). split; [intros _|done].
    left. exists p, r. split; [by apply list_elem_of_In|done]. }
  assert (¬ ∃ p rest, p ∈ TRACKING_PARAM_PREFIXES ∧ lower = p +:+ rest) as Hnp.
  { intros (p & r & Hin & Hr). assert (existsb (λ p, starts_with p lower) TRACKING_PARAM_PREFIXES = true); [|congruence].
    apply existsb_exists. exists p. split; [by apply list_elem_of_In|]. apply starts_with_spec. eauto. }
  destruct (bool_decide (lower ∈ TRACKING_PARAM_NAMES)) eqn:Hn; bool_facts.
  - rewrite negb_true_iff, andb_false_iff, bool_decide_eq_false. rewrite <- not_true_iff_false, contains_spec.
    assert (lower = "mkt_tok" → ¬ ∃ hosts names h, (hosts, names) ∈ HOST_SCOPED_TRACKING_PARAMS ∧ lower ∈ names ∧
      h ∈ hosts ∧ (host = h ∨ ∃ sub, host = sub +:+ "." +:+ h)) as Hs.
    { intros -> (hosts & names & h & Hin & Hname & _). revert Hname.
      assert (Forall (λ x, "mkt_tok" ∉ x.2) HOST_SCOPED_TRACKING_PARAMS) as Hall by (by apply (bool_decide_unpack _); vm_compute).
      rewrite Forall_forall in Hall. apply (Hall _ Hin). }
    destruct (decide (lower = "mkt_tok")); naive_solver.
  - rewrite existsb_exists. split.
    + intros ([hosts names] & Hin & [Hname Hh]%andb_true_iff). bool_facts. apply existsb_exists in Hh as (h & Hh & Hm).
      right; right. exists hosts, names, h. split; [by apply list_elem_of_In|]. split; [done|].
      split; [by apply list_elem_of_In|by apply host_matches_spec].
    + intros [?|[[? _]|(hosts & names & h & Hin & Hname & Hh & Hm)]]; [done..|]. exists (hosts, names).
      split; [by apply list_elem_of_In|]. apply andb_true_iff. split; [by apply bool_decide_eq_true|].
      apply existsb_exists. exists h. split; [by apply list_elem_of_In|by apply host_matches_spec].
Qed.

Section theorems.
Context `{UrlCrate}.

Record split_facts (raw : string) (s : Split) : Prop := {
  sf_raw : raw = s_prefix s
    +:+ match s_query s with Some q => String QUERY q | None => "" end
    +:+ match s_fragment s with Some f => String HASH f | None => "" end;
  sf_hash : ¬ occurs HASH (s_prefix s);
  sf_mark : ¬ occurs QUERY (s_prefix s);
  sf_query : ∀ q, s_query s = Some q → ¬ occurs HASH q;
  sf_url : ∃ u, Url_parse raw = Some u ∧ (url_scheme u = "http" ∨ url_scheme u = "https") ∧
    s_host s = to_ascii_lowercase (default "" (url_host_str u)) ∧ s_path s = url_path u;
}.

Lemma split_http_facts raw s : split_http raw = Some s → split_facts raw s.
Proof.
  unfold split_http. intros (u & Hu & Hs)%bind_Some.
  destruct (_ && _) eqn:Hsch; [done|].
  destruct (cut HASH raw) as [before frag] eqn:Hc1.
  destruct (cut QUERY before) as [prefix query] eqn:Hc2. injection Hs as <-.
  apply cut_spec in Hc1 as [Hb ->]. apply cut_spec in Hc2 as [Hp ->]. simpl.
  assert (¬ occurs HASH prefix ∧ ∀ q, query = Some q → ¬ occurs HASH q) as [Hp' Hq].
  { destruct query as [q|]; rewrite ?append_empty, ?occurs_app, ?occurs_cons in Hb; naive_solver. }
  split; simpl; [by rewrite append_assoc|done|done|done|].
  exists u. split; [done|]. split; [|done].
  destruct (bool_decide (url_scheme u = "http")) eqn:E1; bool_facts; [by left|right].
  simpl in Hsch. by bool_facts.
Qed.

(** ** Parts *)

Lemma pair_spec part name value :
  pair part = (name, value) →
  ¬ occurs EQ name ∧ (value ≠ "" → part = name +:+ String EQ value) ∧
  (∀ c, occurs c name → occurs c part).
Proof.
  unfold pair. destruct (split_once EQ part) as [[a b]|] eqn:Hs; simpl; intros [= <- <-].
  - apply split_once_Some in Hs as [-> Ha]. split_and!; [done|done|].
    intros c Hc. apply occurs_app. by left.
  - apply split_once_none in Hs. done.
Qed.

(** A value of this name is masked. *)
Definition masked_name (s : Split) (name : string) : bool :=
  is_secret_name name || is_tracking_name name (s_host s) (s_path s).

Lemma mask_part_masked s part name value :
  pair part = (name, value) → value ≠ "" → masked_name s name = true →
  mask_part s part = name +:+ String EQ MASK.
Proof.
  unfold mask_part, masked_name. intros -> Hv ->. by rewrite bool_decide_eq_false_2.
Qed.

Lemma mask_part_shown s part name value :
  pair part = (name, value) → value = "" ∨ masked_name s name = false → mask_part s part = part.
Proof.
  unfold mask_part, masked_name. intros ->. destruct (bool_decide (value = "")) eqn:E; [done|].
  bool_facts. intros [?| ->]; done.
Qed.

Lemma mask_chars c : occurs c MASK → c ≠ AMP ∧ c ≠ HASH ∧ c ≠ QUERY ∧ c ≠ EQ.
Proof.
  unfold occurs, MASK. simpl. rewrite !elem_of_cons, elem_of_nil.
  intros Hc. repeat (destruct Hc as [->|Hc]; [done|]). done.
Qed.

(** Masking brings in no separator. *)
Lemma mask_part_clean s c part :
  c = AMP ∨ c = HASH → ¬ occurs c part → ¬ occurs c (mask_part s part).
Proof.
  intros Hc Hp. unfold mask_part. destruct (pair part) as [name value] eqn:E.
  destruct (_ && _); [|done]. destruct (pair_spec _ _ _ E) as (_ & _ & Hn).
  rewrite occurs_app, occurs_cons. intros [?|[?|Hm%mask_chars]]; [by apply Hp, Hn| |naive_solver].
  destruct Hc; by subst.
Qed.

Lemma pair_of_masked name : ¬ occurs EQ name → pair (name +:+ String EQ MASK) = (name, MASK).
Proof. intros Hn. unfold pair. by rewrite split_once_app. Qed.

Lemma mask_part_idemp s part : mask_part s (mask_part s part) = mask_part s part.
Proof.
  destruct (pair part) as [name value] eqn:E. destruct (pair_spec _ _ _ E) as (Hn & _ & _).
  destruct (decide (value = "" ∨ masked_name s name = false)) as [Hs|Hs].
  - by rewrite !(mask_part_shown s part name value).
  - assert (masked_name s name = true) as Hm by (destruct (masked_name s name); naive_solver).
    rewrite (mask_part_masked s part name value) by naive_solver.
    by apply (mask_part_masked s _ name MASK (pair_of_masked name Hn)).
Qed.

(** ** The display form *)

Definition mask_fragment (f : string) : string := if decide (f = "") then "" else MASK.
Definition mask_query (s : Split) (q : string) : string := join AMP (mask_part s <$> split AMP q).

Lemma mask_query_parts s q : split AMP (mask_query s q) = mask_part s <$> split AMP q.
Proof.
  apply split_join.
  - intros Hn%fmap_nil_inv. by apply split_nonempty in Hn.
  - apply Forall_fmap, (Forall_impl _ _ _ (split_parts AMP q)). intros p Hp.
    apply mask_part_clean; auto.
Qed.

Lemma mask_query_clean s q : ¬ occurs HASH q → ¬ occurs HASH (mask_query s q).
Proof.
  intros Hq [?|(p & (p' & -> & Hp)%list_elem_of_fmap & Hc)]%occurs_join; [done|].
  revert Hc. apply mask_part_clean; [by right|]. intros Hc. apply Hq. by eapply occurs_split.
Qed.

Lemma mask_doc_url_eq raw s :
  split_http raw = Some s →
  mask_doc_url raw = (s_prefix s
    +:+ match mask_query s <$> s_query s with Some q => String QUERY q | None => "" end)
    +:+ match mask_fragment <$> s_fragment s with Some f => String HASH f | None => "" end.
Proof.
  intros Hs. unfold mask_doc_url, mask_split. rewrite Hs, append_assoc.
  destruct (s_query s), (s_fragment s) as [[|]|]; done.
Qed.

Lemma masked_before_clean raw s :
  split_facts raw s →
  ¬ occurs HASH (s_prefix s
    +:+ match mask_query s <$> s_query s with Some q => String QUERY q | None => "" end).
Proof.
  intros [_ Hh _ Hq _]. rewrite occurs_app. intros [?|Hm]; [done|].
  destruct (s_query s) as [q|]; simpl in Hm; [|by apply not_elem_of_nil in Hm].
  apply occurs_cons in Hm as [?|Hm]; [done|]. by eapply mask_query_clean; [apply Hq|].
Qed.

(** The display form of a web link, split again: the same address, the query
    parts in order with exactly the secret and tracking values masked, and of a
    fragment only whether it was empty. *)
Theorem mask_shows raw s before fragment prefix query :
  split_http raw = Some s → cut HASH (mask_doc_url raw) = (before, fragment) →
  cut QUERY before = (prefix, query) →
  prefix = s_prefix s ∧ fragment = mask_fragment <$> s_fragment s ∧
  (split AMP <$> query) = (λ q, mask_part s <$> split AMP q) <$> s_query s ∧
  ∀ part name value, pair part = (name, value) →
    mask_part s part =
      if bool_decide (value = "") || negb (masked_name s name) then part
      else name +:+ String EQ MASK.
Proof.
  intros Hs Hc1 Hc2. pose proof (split_http_facts _ _ Hs) as Hf.
  rewrite (mask_doc_url_eq raw s Hs), cut_app in Hc1 by by eapply masked_before_clean.
  injection Hc1 as <- <-. rewrite cut_app in Hc2 by apply Hf. injection Hc2 as <- <-.
  split_and!; [done|done| |].
  - destruct (s_query s) as [q|]; simpl; [|done]. by rewrite mask_query_parts.
  - intros part name value Hp. destruct (bool_decide (value = "")) eqn:Ev; bool_facts; simpl.
    { apply (mask_part_shown s part name value Hp). by left. }
    destruct (masked_name s name) eqn:Em; simpl.
    + by apply (mask_part_masked s part name value).
    + apply (mask_part_shown s part name value Hp). by right.
Qed.

(** *** A link in parts *)

Definition web (u : Url) : Prop := url_scheme u = "http" ∨ url_scheme u = "https".

Lemma concat_join l : String.concat "&" l = join AMP l.
Proof. induction l as [|x [|y l] IH]; [done..|]. exact (f_equal (λ r, x +:+ String AMP r) IH). Qed.

Lemma part_clean c p : c = HASH ∨ c = AMP →
  free_of ["#"; "&"; "="]%char p.1 → (∀ v, p.2 = Some v → free_of ["#"; "&"]%char v) → ¬ occurs c (part_text p).
Proof.
  intros Hc Hn Hv. destruct p as [n [v|]]; simpl in *; unfold part_text; simpl; rewrite occurs_app.
  - change ("=" +:+ v) with (String EQ v). rewrite occurs_cons. intros [Ho|[->|Ho]].
    + apply (Hn c); [|done]. destruct Hc as [-> | ->]; set_solver.
    + by destruct Hc.
    + apply (Hv v eq_refl c); [|done]. destruct Hc as [-> | ->]; set_solver.
  - intros [Ho|Ho]; [|by apply not_elem_of_nil in Ho]. apply (Hn c); [|done]. destruct Hc as [-> | ->]; set_solver.
Qed.

(** The code cuts a link where its parts meet. *)
Lemma link_split l u : link_ok l → Url_parse (link_text l) = Some u → web u →
  split_http (link_text l) = Some (mkSplit (l_prefix l) ((λ ps, join AMP (part_text <$> ps)) <$> l_query l)
    (l_fragment l) (host_of u) (url_path u)).
Proof.
  intros [Hp Hq] Hu Hw. unfold split_http. rewrite Hu. simpl.
  replace (_ && _) with false by (by destruct Hw as [-> | ->]).
  set (q := (λ ps, join AMP (part_text <$> ps)) <$> l_query l).
  assert (link_text l = (l_prefix l +:+ match q with Some q => String QUERY q | None => "" end)
    +:+ match l_fragment l with Some f => String HASH f | None => "" end) as ->.
  { unfold link_text, q. rewrite append_assoc. f_equal. f_equal.
    destruct (l_query l) as [ps|]; [|done]. simpl. by rewrite concat_join. }
  rewrite cut_app.
  - rewrite cut_app; [done|]. apply Hp. set_solver.
  - rewrite occurs_app. intros [Ho|Ho]; [revert Ho; apply Hp; set_solver|]. unfold q in Ho.
    destruct (l_query l) as [ps|]; simpl in Ho; [|by apply not_elem_of_nil in Ho].
    destruct (Hq ps eq_refl) as [_ Hps]. apply occurs_cons in Ho as [?|[?|(x & Hx & Ho)]%occurs_join]; [done..|].
    apply list_elem_of_fmap in Hx as (p & -> & Hin). rewrite Forall_forall in Hps. destruct (Hps p Hin).
    revert Ho. apply part_clean; [by left|done..].
Qed.

Lemma masked_hidden s u name : s_host s = host_of u → s_path s = url_path u →
  masked_name s name = true ↔ hidden u name.
Proof.
  intros Hh Hp. unfold masked_name, hidden. by rewrite Hh, Hp, orb_true_iff, secret_name_spec, tracking_name_spec.
Qed.

Lemma pair_of_part n v : ¬ occurs EQ n → pair (part_text (n, v)) = (n, default "" v).
Proof.
  intros Hn. unfold pair, part_text. destruct v as [v|]; simpl.
  - change ("=" +:+ v) with (String EQ v). by rewrite split_once_app.
  - rewrite append_empty. by rewrite (proj2 (split_once_none EQ n) Hn).
Qed.

(** One part, masked. *)
Definition mask_pair (s : Split) (p : string * option string) : string * option string :=
  match p.2 with
  | Some v => if bool_decide (v = "") || negb (masked_name s p.1) then p else (p.1, Some MASK)
  | None => p
  end.

Lemma mask_pair_text s p : ¬ occurs EQ p.1 → mask_part s (part_text p) = part_text (mask_pair s p).
Proof.
  destruct p as [n v]. intros Hn. pose proof (pair_of_part n v Hn) as Hp. unfold mask_pair. simpl.
  destruct v as [v|]; [|by apply (mask_part_shown s _ n ""); auto]. simpl in *.
  destruct (bool_decide (v = "")) eqn:Hv; bool_facts; simpl; [by apply (mask_part_shown s _ n v); auto|].
  destruct (masked_name s n) eqn:Hm; simpl; [by apply (mask_part_masked s _ n v)|].
  by apply (mask_part_shown s _ n v); auto.
Qed.

Lemma mask_pair_shown s u p : s_host s = host_of u → s_path s = url_path u → shown_part u p (mask_pair s p).
Proof.
  intros Hh Hp. destruct p as [n [v|]]; unfold mask_pair, shown_part; simpl.
  2:{ split; [done|right]. split; [|done]. by intros (v & ? & _). }
  pose proof (masked_hidden s u n Hh Hp) as Hmh. destruct (bool_decide (v = "")) eqn:Hv; bool_facts; simpl.
  - split; [done|right]. split; [|done]. intros (v' & [= <-] & Hne & _). done.
  - destruct (masked_name s n) eqn:Hm; simpl.
    + split; [done|left]. split; [|done]. exists v. split_and!; [done..|by apply Hmh].
    + split; [done|right]. split; [|done]. intros (? & _ & _ & Hx%Hmh). congruence.
Qed.

Definition mask_link (s : Split) (l : Link) : Link :=
  mkLink (l_prefix l) ((λ ps : list (string * option string), mask_pair s <$> ps) <$> l_query l)
    ((λ f, if decide (f = "") then "" else MASK) <$> l_fragment l).

Lemma mask_link_text l u s : link_ok l → Url_parse (link_text l) = Some u → web u →
  s_host s = host_of u → s_path s = url_path u → mask_doc_url (link_text l) = link_text (mask_link s l).
Proof.
  intros Hl Hu Hw Hh Hp. rewrite (mask_doc_url_eq _ _ (link_split l u Hl Hu Hw)). unfold link_text, mask_link. simpl.
  rewrite append_assoc. f_equal. f_equal.
  destruct (l_query l) as [ps|] eqn:Hq; [|done]. simpl. change ("?" +:+ ?t) with (String QUERY t). f_equal.
  destruct (lo_query l Hl ps Hq) as [Hne Hps]. rewrite concat_join. unfold mask_query. f_equal.
  rewrite split_join.
  - rewrite <- !list_fmap_compose. apply list_fmap_ext. intros i p Hi. simpl.
    rewrite Forall_forall in Hps. destruct (Hps p (list_elem_of_lookup_2 _ _ _ Hi)) as [Hn _].
    rewrite <- mask_pair_text by (apply Hn; set_solver). unfold mask_part. simpl. by rewrite Hh, Hp.
  - by intros ?%fmap_nil_inv.
  - apply Forall_fmap. eapply Forall_impl; [exact Hps|]. intros p [Hn Hv]. apply part_clean; [by right|done..].
Qed.

(** C35. What the display form of a web link shows, and that it leaks nothing of the rest.
    A link put together of an address without [#] and [?], query parts and a fragment (any
    text, with further [#] or not) is shown with its address and its parts in order: a
    non-empty value is replaced by the mask exactly when its name percent-decodes to a
    secret name, in any case of letters, or is a tracking name for its host and path, and a
    non-empty fragment always. So two links of one site that differ only in such values and
    in such fragments look the same. *)
Theorem mask_noninterference l l' u u' :
  link_ok l → link_ok l' → Url_parse (link_text l) = Some u → Url_parse (link_text l') = Some u' →
  web u → web u' → url_host_str u' = url_host_str u → url_path u' = url_path u →
  (∃ d, shown_link u l d ∧ mask_doc_url (link_text l) = link_text d) ∧
  (same_link u l l' → mask_doc_url (link_text l) = mask_doc_url (link_text l')).
Proof.
  intros Hl Hl' Hu Hu' Hw Hw' Hhost Hpath. set (s := mkSplit "" None None (host_of u) (url_path u)).
  assert (host_of u' = host_of u) as Hh by (unfold host_of; by rewrite Hhost).
  rewrite (mask_link_text l u s Hl Hu Hw eq_refl eq_refl), (mask_link_text l' u' s) by done. split.
  - exists (mask_link s l). split; [|done]. split_and!; [done| |done]. simpl.
    destruct (l_query l) as [ps|]; constructor. apply Forall2_fmap_r, Forall_Forall2_diag, Forall_forall.
    intros p _. by apply mask_pair_shown.
  - intros (Hp & Hq & Hf). unfold mask_link. rewrite Hp. f_equal. f_equal.
    + destruct Hq as [ps ps' Hq|]; [|done]. simpl. f_equal. induction Hq as [|p p' ps ps' Hpp _ IH]; [done|].
      rewrite !fmap_cons, IH. f_equal. destruct Hpp as [->|(n & v & v' & -> & -> & Hv & Hv' & Hn)]; [done|].
      apply (masked_hidden s u n eq_refl eq_refl) in Hn. unfold mask_pair. simpl. by rewrite Hn, !bool_decide_eq_false_2.
    + destruct Hf as [f f' Hf|]; [|done]. simpl. f_equal. destruct (decide (f = "")), (decide (f' = "")); naive_solver.
Qed.

(** Masking is stable: when the parser reads the display form as the same
    site, masking it again changes nothing. *)
Theorem mask_idempotent raw u u' :
  Url_parse raw = Some u → Url_parse (mask_doc_url raw) = Some u' →
  url_scheme u' = url_scheme u → url_host_str u' = url_host_str u → url_path u' = url_path u →
  mask_doc_url (mask_doc_url raw) = mask_doc_url raw.
Proof.
  intros Hu Hu' Hsch Hhost Hpath. destruct (split_http raw) as [s|] eqn:Hs.
  2:{ unfold mask_doc_url at 2 3. by rewrite Hs; unfold mask_doc_url; rewrite Hs. }
  pose proof (split_http_facts _ _ Hs) as Hf.
  destruct (sf_url _ _ Hf) as (u0 & Hu0 & Hweb & Hh & Hp). rewrite Hu in Hu0. injection Hu0 as <-.
  set (s' := mkSplit (s_prefix s) (mask_query s <$> s_query s) (mask_fragment <$> s_fragment s)
    (s_host s) (s_path s)).
  assert (split_http (mask_doc_url raw) = Some s') as Hs'.
  { unfold split_http. rewrite Hu'. simpl. rewrite Hsch.
    replace (_ && _) with false by (by destruct Hweb as [-> | ->]).
    rewrite (mask_doc_url_eq raw s Hs), cut_app by by eapply masked_before_clean.
    rewrite cut_app by apply Hf. unfold s'. by rewrite Hhost, Hpath, Hh, Hp. }
  rewrite (mask_doc_url_eq _ s' Hs'), (mask_doc_url_eq raw s Hs). simpl.
  assert (∀ p, mask_part s' p = mask_part s p) as Hpart by done.
  assert (mask_query s' <$> (mask_query s <$> s_query s) = mask_query s <$> s_query s) as ->.
  { destruct (s_query s) as [q|]; [|done]. simpl. f_equal. unfold mask_query at 1.
    rewrite mask_query_parts. unfold mask_query. f_equal. rewrite <- list_fmap_compose.
    apply list_fmap_ext. intros i p _. simpl. by rewrite Hpart, mask_part_idemp. }
  assert (mask_fragment <$> (mask_fragment <$> s_fragment s) = mask_fragment <$> s_fragment s) as ->.
  { destruct (s_fragment s) as [f|]; [|done]. simpl. f_equal. unfold mask_fragment.
    by destruct (decide (f = "")). }
  done.
Qed.

(** ** The fetch form *)

(** The link a preview is fetched from has no fragment and no secret-named
    parameter; the other parameters stay, in order. *)
Theorem strip_drops_secrets raw s prefix query :
  split_http raw = Some s → cut QUERY (strip_fetch_secrets raw) = (prefix, query) →
  ¬ occurs HASH (strip_fetch_secrets raw) ∧ prefix = s_prefix s ∧
  from_option (split AMP) [] query =
    filter (λ p, p ≠ "" ∧ is_secret_name (pair p).1 = false) (from_option (split AMP) [] (s_query s)).
Proof.
  intros Hs Hc. pose proof (split_http_facts _ _ Hs) as Hf.
  set (kept := filter (λ p, p ≠ "" ∧ is_secret_name (pair p).1 = false)
    (from_option (split AMP) [] (s_query s))).
  set (o := match kept with [] => None | _ => Some (join AMP kept) end).
  assert (strip_fetch_secrets raw =
    s_prefix s +:+ match o with Some q => String QUERY q | None => "" end) as Heq.
  { assert (filter (λ p, kept_part s false p = true)
      (from_option (split AMP) [] (s_query s)) = kept) as Hkept.
    { apply list_filter_iff. intros p. unfold kept_part. destruct (pair p) as [name value].
      simpl. rewrite !andb_true_iff, !negb_true_iff, bool_decide_eq_false. tauto. }
    unfold strip_fetch_secrets, rebuild_without. rewrite Hs. cbv zeta. rewrite Hkept.
    unfold o. by destruct kept. }
  assert (Forall (λ p, ¬ occurs HASH p) kept ∧ Forall (λ p, ¬ occurs AMP p) kept) as [Hhash Hamp].
  { split; apply Forall_forall; intros p [_ Hp]%list_elem_of_filter Hc';
      (destruct (s_query s) as [q|] eqn:Hq; [|by apply not_elem_of_nil in Hp]); simpl in Hp.
    - apply (sf_query _ _ Hf q Hq). by eapply occurs_split.
    - pose proof (split_parts AMP q) as Hall. rewrite Forall_forall in Hall. by eapply Hall. }
  rewrite Heq in *. rewrite cut_app in Hc by apply Hf. injection Hc as <- <-. split_and!; [|done|].
  - rewrite occurs_app. intros [?|Hc]; [by apply (sf_hash _ _ Hf)|].
    destruct o as [q|] eqn:Ho; [|by apply not_elem_of_nil in Hc].
    apply occurs_cons in Hc as [?|Hc]; [done|]. unfold o in Ho.
    assert (q = join AMP kept) as -> by (destruct kept; congruence).
    apply occurs_join in Hc as [?|(p & Hp & Hc)]; [done|].
    rewrite Forall_forall in Hhash. by eapply Hhash.
  - unfold o. destruct kept as [|p l] eqn:Hk; [done|].
    cbn [from_option]. by apply split_join.
Qed.
End theorems.

(** ** Witnesses: a parser that only knows one site *)

#[export] Instance toy_urls : UrlCrate := {
  Url_parse raw := if starts_with "https://pad.org/" raw
                   then Some (mkUrl "https" (Some "pad.org") "/a") else None;
}.

Definition toy_link : string := "https://pad.org/a?x=1&to%6Ben=abc#/2/edit/key".
Definition toy_link' : string := "https://pad.org/a?x=1&to%6Ben=other#/2/#view".

Lemma mask_shows_witness :
  mask_doc_url toy_link = "https://pad.org/a?x=1&to%6Ben=••••#••••" ∧
  ∃ s before fragment prefix query, split_http toy_link = Some s ∧
    cut HASH (mask_doc_url toy_link) = (before, fragment) ∧ cut QUERY before = (prefix, query) ∧
    prefix = s_prefix s ∧ fragment = mask_fragment <$> s_fragment s.
Proof.
  split; [vm_compute; reflexivity|].
  destruct (split_http toy_link) as [s|] eqn:Hs; [|vm_compute in Hs; discriminate Hs].
  destruct (cut HASH (mask_doc_url toy_link)) as [before fragment] eqn:Hc1.
  destruct (cut QUERY before) as [prefix query] eqn:Hc2.
  destruct (mask_shows toy_link s before fragment prefix query Hs Hc1 Hc2) as (H1 & H2 & _).
  exists s, before, fragment, prefix, query. split_and!; [reflexivity|reflexivity|exact Hc2|exact H1|exact H2].
Defined.

(** The same two links in parts; the second fragment has a [#] of its own. *)
Definition toy_parts (v f : string) : Link :=
  mkLink "https://pad.org/a" (Some [("x", Some "1"); ("to%6Ben", Some v)]) (Some f).
Definition toy_url : Url := mkUrl "https" (Some "pad.org") "/a".

Lemma free_of_check cs s : forallb (λ c, negb (bool_decide (c ∈ String.list_ascii_of_string s))) cs = true → free_of cs s.
Proof.
  rewrite forallb_forall. intros Hall c Hc%list_elem_of_In%Hall Ho. apply negb_true_iff, bool_decide_eq_false in Hc.
  by apply Hc.
Qed.

Lemma toy_parts_ok v f : free_of ["#"; "&"]%char v → link_ok (toy_parts v f).
Proof.
  intros Hv. split; [by apply free_of_check|]. intros ps [= <-]. split; [done|].
  repeat constructor; simpl; try (by apply free_of_check); intros ? [= <-]; [by apply free_of_check|done].
Qed.

Lemma mask_noninterference_witness :
  link_text (toy_parts "abc" "/2/edit/key") = toy_link ∧ link_text (toy_parts "other" "/2/#view") = toy_link' ∧
  mask_doc_url toy_link = mask_doc_url toy_link'.
Proof.
  split; [reflexivity|]. split; [reflexivity|].
  apply (mask_noninterference (toy_parts "abc" "/2/edit/key") (toy_parts "other" "/2/#view") toy_url toy_url);
    try reflexivity; try (by right); try (apply toy_parts_ok, free_of_check; reflexivity).
  split; [reflexivity|]. split; [constructor; constructor; [by left|]; constructor; [|constructor]|].
  - right. exists "to%6Ben", "abc", "other". split_and!; try done. left.
    apply secret_name_spec. vm_compute. reflexivity.
  - constructor. split; discriminate.
Defined.

Lemma mask_idempotent_witness :
  mask_doc_url (mask_doc_url toy_link) = mask_doc_url toy_link.
Proof.
  apply (mask_idempotent toy_link (mkUrl "https" (Some "pad.org") "/a")
    (mkUrl "https" (Some "pad.org") "/a")); [vm_compute; reflexivity..|reflexivity|reflexivity|
    reflexivity].
Defined.

Lemma strip_drops_secrets_witness :
  strip_fetch_secrets toy_link = "https://pad.org/a?x=1" ∧
  ¬ occurs HASH (strip_fetch_secrets toy_link).
Proof.
  split; [vm_compute; reflexivity|].
  destruct (split_http toy_link) as [s|] eqn:Hs; [|vm_compute in Hs; discriminate Hs].
  destruct (cut QUERY (strip_fetch_secrets toy_link)) as [prefix query] eqn:Hc.
  exact (proj1 (strip_drops_secrets toy_link s prefix query Hs Hc)).
Defined.
