(* ===== verification/DocModel.v ===== *)
(** * Squad docs: data, validation, wire and card ([squad_doc.rs], first half)

    A doc link travels inside the encrypted rumor as [DocWire]; the only form
    that leaves the replica is the card, with the masked URL. *)

From Stdlib Require Import Ascii.
From stdpp Require Import pretty.
From S2P Require Import Prelude Json UrlSecrets.

Definition SCHEMA : string := "pacto.squad_doc.v1".
Definition REPLICA_UPDATED_EVENT : string := "squad_doc_replica_updated".
Definition MAX_FUTURE_SKEW_MS : Z := 24 * 60 * 60 * 1000.
Definition MAX_PENDING_PER_AUTHOR : nat := 200.
Definition PENDING_TTL_MS : Z := 30 * 24 * 60 * 60 * 1000.

Module err.
Definition NOT_MEMBER : string := "squad_records_not_member".
Definition WRONG_GROUP : string := "squad_records_wrong_group".
Definition ADD_RESTRICTED : string := "squad_doc_add_restricted".
Definition NOT_FOUND : string := "squad_doc_not_found".
Definition NOT_EDITABLE : string := "squad_doc_not_editable".
Definition INVALID_URL : string := "squad_doc_invalid_url".
Definition INVALID_TITLE : string := "squad_doc_invalid_title".
End err.

Inductive Provider : Type := Cryptpad | Google | Zoho | Notion | Etherpad | Other.
Inductive Op : Type := Add | Update | Remove.

#[export] Instance Provider_eq_dec : EqDecision Provider.
Proof. solve_decision. Defined.
#[export] Instance Op_eq_dec : EqDecision Op.
Proof. solve_decision. Defined.

Definition Provider_as_str (p : Provider) : string :=
  match p with
  | Cryptpad => "cryptpad"
  | Google => "google"
  | Zoho => "zoho"
  | Notion => "notion"
  | Etherpad => "etherpad"
  | Other => "other"
  end.

(** Unknown values are [Other]. *)
Definition Provider_parse (s : string) : Provider :=
  if decide (s = "cryptpad") then Cryptpad
  else if decide (s = "google") then Google
  else if decide (s = "zoho") then Zoho
  else if decide (s = "notion") then Notion
  else if decide (s = "etherpad") then Etherpad
  else Other.

Definition Op_as_str (o : Op) : string :=
  match o with Add => "add" | Update => "update" | Remove => "remove" end.

(** The derived [Deserialize]. *)
Definition Op_parse (s : string) : option Op :=
  if decide (s = "add") then Some Add
  else if decide (s = "update") then Some Update
  else if decide (s = "remove") then Some Remove
  else None.

Record DocWire : Type := mkDocWire {
  dw_schema : string;
  dw_op : Op;
  dw_id : string;
  dw_parent_id : string;
  dw_url : option string;
  dw_title : option string;
  dw_provider : option string;
  dw_channel_id : option string;
  dw_note : option string;
  dw_added_by : option string;
  dw_updated_at_ms : Z;
}.

Record DocFields : Type := mkDocFields {
  df_url : string;
  df_title : string;
  df_provider : Provider;
  df_channel_id : option string;
  df_note : option string;
}.

#[export] Instance DocFields_eq_dec : EqDecision DocFields.
Proof. solve_decision. Defined.

Record SquadDocInput : Type := mkDocInput {
  di_url : string;
  di_title : string;
  di_channel_id : option string;
  di_note : option string;
}.

(** ** Derived serde of [DocWire] *)

Definition doc_members (w : DocWire) : list (string * option json) := [
  ("schema", Some (JStr (dw_schema w)));
  ("op", Some ((JStr ∘ Op_as_str) (dw_op w)));
  ("id", Some (JStr (dw_id w)));
  ("parent_id", Some (JStr (dw_parent_id w)));
  ("url", JStr <$> dw_url w);
  ("title", JStr <$> dw_title w);
  ("provider", JStr <$> dw_provider w);
  ("channel_id", JStr <$> dw_channel_id w);
  ("note", JStr <$> dw_note w);
  ("added_by", JStr <$> dw_added_by w);
  ("updated_at_ms", Some (JNum (dw_updated_at_ms w)))].

Definition ser_wire (w : DocWire) : json := JObj (obj_fields (doc_members w)).

Definition DOC_WIRE_FIELDS : list string :=
  ["schema"; "op"; "id"; "parent_id"; "url"; "title"; "provider"; "channel_id"; "note";
   "added_by"; "updated_at_ms"].

Definition de_wire (j : json) : option DocWire :=
  fs ← struct_fields DOC_WIRE_FIELDS j;
  schema ← req de_string "schema" fs;
  op ← req (de_variant Op_parse) "op" fs;
  id ← req de_string "id" fs;
  parent_id ← req de_string "parent_id" fs;
  url ← opt de_string "url" fs;
  title ← opt de_string "title" fs;
  provider ← opt de_string "provider" fs;
  channel_id ← opt de_string "channel_id" fs;
  note ← opt de_string "note" fs;
  added_by ← opt de_string "added_by" fs;
  updated_at_ms ← req de_i64 "updated_at_ms" fs;
  Some (mkDocWire schema op id parent_id url title provider channel_id note added_by
          updated_at_ms).

(** ** Validation *)

(** A byte that is a control character, or two that encode one of U+0080..9F. *)
Definition control1 (a : ascii) : bool := (code a <? 32)%N || (code a =? 127)%N.
Definition control2 (a b : ascii) : bool :=
  (code a =? 194)%N && (128 <=? code b)%N && (code b <=? 159)%N.

(** [url.chars().any(|c| c.is_whitespace() || c.is_control())] on UTF-8 bytes. *)
Fixpoint any_space_or_control (l : list ascii) : bool :=
  match l with
  | [] => false
  | a :: l1 =>
      ws1 a || control1 a
      || match l1 with
         | [] => false
         | b :: l2 =>
             ws2 a b || control2 a b
             || match l2 with
                | [] => false
                | c :: _ => ws3 a b c
                end
         end
      || any_space_or_control l1
  end.

Section validation.
Context `{UrlCrate}.

(** [Provider::from_url] *)
Definition Provider_from_url (raw : string) : Provider :=
  let host := default "" (u ← Url_parse raw; to_ascii_lowercase <$> url_host_str u) in
  if contains "cryptpad" host then Cryptpad
  else if contains "docs.google." host || contains "drive.google." host then Google
  else if contains "zoho" host then Zoho
  else if contains "notion." host then Notion
  else if contains "etherpad" host then Etherpad
  else Other.

Definition valid_url (raw : string) : option string :=
  let url := trim raw in
  if bool_decide (url = "") || any_space_or_control (String.list_ascii_of_string url)
  then None
  else
    parsed ← Url_parse url;
    let http := bool_decide (url_scheme parsed = "http")
                || bool_decide (url_scheme parsed = "https") in
    if http && match url_host_str parsed with
               | Some h => negb (bool_decide (h = ""))
               | None => false
               end
    then Some url else None.

Definition fields_from_input (input : SquadDocInput) : result DocFields :=
  let? url := ok_or (valid_url (di_url input)) err.INVALID_URL in
  let title := trim (di_title input) in
  if bool_decide (title = "") then Err err.INVALID_TITLE
  else Ok (mkDocFields url title (Provider_from_url url)
             (trimmed_opt (di_channel_id input)) (trimmed_opt (di_note input))).

Definition fields_from_wire (w : DocWire) : option DocFields :=
  u ← dw_url w;
  url ← valid_url u;
  title ← trimmed_opt (dw_title w);
  Some (mkDocFields url title (from_option Provider_parse Other (dw_provider w))
          (trimmed_opt (dw_channel_id w)) (trimmed_opt (dw_note w))).
End validation.

Definition stamp_acceptable (updated_at_ms now_ms : Z) : bool :=
  (0 <=? updated_at_ms) && (updated_at_ms <=? saturating_add now_ms MAX_FUTURE_SKEW_MS).

(** ** Wire builder, card and log line *)

Definition doc_wire (op : Op) (doc_id parent_id : string) (f : option DocFields)
    (added_by : option string) (updated_at_ms : Z) : DocWire :=
  mkDocWire SCHEMA op doc_id parent_id (df_url <$> f) (df_title <$> f)
    (Provider_as_str ∘ df_provider <$> f) (f ≫= df_channel_id) (f ≫= df_note) added_by
    updated_at_ms.

Definition parse_wire `{SerdeText} (content : string) : option DocWire :=
  w ← of_text content ≫= de_wire;
  if negb (bool_decide (dw_schema w = SCHEMA)) || blank (dw_parent_id w) || blank (dw_id w)
  then None else Some w.

(** Announcements card: masked URL, no note. *)
Definition added_card_content `{UrlCrate} (doc_id parent_id : string) (f : DocFields) : json :=
  JObj [("type", JStr "squad_doc_added");
        ("payload", JObj [
          ("id", JStr doc_id); ("parent_id", JStr parent_id); ("title", JStr (df_title f));
          ("provider", JStr (Provider_as_str (df_provider f)));
          ("channel_id", json_opt JStr (df_channel_id f));
          ("display_url", JStr (mask_doc_url (df_url f)))])].

Definition replica_log_line (op : Op) (doc_id : string) (visible : Z)
    : string :=
  "[squad_doc] " +:+ Op_as_str op +:+ " applied doc=" +:+ doc_id +:+ " visible="
  +:+ pretty visible.

(** ** Facts *)

Lemma doc_Op_parse_as_str o : Op_parse (Op_as_str o) = Some o.
Proof. by destruct o. Qed.
Lemma Provider_parse_as_str p : Provider_parse (Provider_as_str p) = p.
Proof. by destruct p. Qed.

Lemma reads_doc_op o : reads (de_variant Op_parse) (JStr ∘ Op_as_str) o.
Proof. apply reads_variant, doc_Op_parse_as_str. Qed.
#[export] Hint Resolve reads_doc_op : serde.

Lemma doc_de_ser_wire w : i64_ok (dw_updated_at_ms w) → de_wire (ser_wire w) = Some w.
Proof.
  intros Hms. unfold de_wire, ser_wire.
  assert (reads de_i64 JNum (dw_updated_at_ms w)) as Hstamp by by apply reads_int.
  assert (NoDup (doc_members w).*1) as Hnd.
  { change (NoDup DOC_WIRE_FIELDS). apply (bool_decide_unpack _). vm_compute. exact I. }
  remember (obj_fields (doc_members w)) as fs eqn:Hfs.
  eapply option_bind_step; [reflexivity|]. repeat serde_member Hfs Hnd.
  clear. by destruct w.
Qed.

Lemma ser_wire_ok w : i64_ok (dw_updated_at_ms w) → json_ok (ser_wire w) = true.
Proof.
  intros [Hlo Hhi]. apply json_obj_ok. unfold doc_members.
  repeat apply Forall_cons_2; try apply Forall_nil_2; simpl;
    try (intros ? (? & _ & ->)%fmap_Some; done); intros ? [= <-]; try done.
  apply bool_decide_eq_true_2. unfold i64_max in Hhi. lia.
Qed.

(** A wire with a squad and an id survives the trip over text. *)
Definition wire_addressed (w : DocWire) : Prop :=
  dw_schema w = SCHEMA ∧ blank (dw_parent_id w) = false ∧ blank (dw_id w) = false.

Lemma doc_parse_ser_wire `{SerdeTextLaws} w :
  i64_ok (dw_updated_at_ms w) → wire_addressed w → parse_wire (to_text (ser_wire w)) = Some w.
Proof.
  intros Hms (Hs & Hp & Hi). unfold parse_wire. rewrite of_to_text by by apply ser_wire_ok.
  simpl. rewrite doc_de_ser_wire by done. simpl. by rewrite bool_decide_eq_true_2, Hp, Hi.
Qed.

(** Fields as the replica stores them. *)
Record fields_wf `{UrlCrate} (f : DocFields) : Prop := {
  wf_url : valid_url (df_url f) = Some (df_url f);
  wf_title : df_title f ≠ "" ∧ trim (df_title f) = df_title f;
  wf_channel : trimmed_opt (df_channel_id f) = df_channel_id f;
  wf_note : trimmed_opt (df_note f) = df_note f;
}.

Section facts.
Context `{UrlCrate}.

Lemma valid_url_spec raw url :
  valid_url raw = Some url ↔
  url = trim raw ∧ url ≠ "" ∧ any_space_or_control (String.list_ascii_of_string url) = false ∧
  ∃ u h, Url_parse url = Some u ∧ (url_scheme u = "http" ∨ url_scheme u = "https") ∧
    url_host_str u = Some h ∧ h ≠ "".
Proof.
  unfold valid_url. destruct (bool_decide (trim raw = "")) eqn:E1; bool_facts; simpl;
    [naive_solver|].
  destruct (any_space_or_control _) eqn:E2; simpl; [naive_solver congruence|].
  destruct (Url_parse (trim raw)) as [u|] eqn:Hu; simpl; [|naive_solver congruence].
  destruct (bool_decide (url_scheme u = "http")) eqn:E3,
    (bool_decide (url_scheme u = "https")) eqn:E4; bool_facts; simpl.
  1-3: destruct (url_host_str u) as [h|] eqn:Hh; simpl; [|naive_solver congruence];
    destruct (bool_decide (h = "")) eqn:E5; bool_facts; simpl; [naive_solver congruence|];
    split; [intros [= <-]; split_and!; eauto 10|by intros (-> & _)].
  split; [done|]. intros (-> & _ & _ & u' & h & Hu' & [?|?] & _); congruence.
Qed.

Lemma valid_url_idemp raw url : valid_url raw = Some url → valid_url url = Some url.
Proof.
  rewrite !valid_url_spec. intros (-> & Hrest). rewrite trim_idemp. done.
Qed.

Lemma doc_fields_from_wire_wf w f : fields_from_wire w = Some f → fields_wf f.
Proof.
  unfold fields_from_wire. intros (u & _ & Hf)%bind_Some.
  apply bind_Some in Hf as (url & Hurl & Hf). apply bind_Some in Hf as (t & Ht & [= <-]).
  split; simpl; try apply trimmed_opt_idemp; [by eapply valid_url_idemp|].
  unfold trimmed_opt in Ht. destruct (dw_title w) as [t0|]; [|done].
  destruct (blank t0) eqn:Hb; [done|]. injection Ht as <-. rewrite trim_idemp. split; [|done].
  unfold blank in Hb. by bool_facts.
Qed.

Lemma fields_from_input_wf input f : fields_from_input input = Ok f → fields_wf f.
Proof.
  unfold fields_from_input. intros (url & Hurl & Hf)%rbind_ok.
  destruct (bool_decide _) eqn:Ht; [done|]. injection Hf as <-. bool_facts.
  split; simpl; try apply trimmed_opt_idemp; [|by rewrite trim_idemp].
  destruct (valid_url (di_url input)) eqn:Hv; simplify_eq/=. by eapply valid_url_idemp.
Qed.

(** Fields built into an add or update are the fields a peer reads. *)
Lemma fields_from_doc_wire op id parent f by_ ms :
  fields_wf f → fields_from_wire (doc_wire op id parent (Some f) by_ ms) = Some f.
Proof.
  intros [Hu [Ht Htt] Hc Hn]. unfold fields_from_wire, doc_wire. simpl. rewrite Hu. simpl.
  unfold blank. rewrite bool_decide_eq_false_2 by congruence. simpl.
  rewrite Htt, Provider_parse_as_str. destruct f as [url t p c n]; simpl in *.
  by rewrite Hc, Hn.
Qed.
End facts.
