(* ===== verification/SquadDoc.v ===== *)
(** * The docs shelf ([squad_doc.rs], second half)

    The SQLite replica of a squad's doc links: adds, updates and sticky removes
    applied under the author's role, operations that arrive before their add
    queued and drained, the listing, and the commands. *)

From stdpp Require Import pretty.
From S2P Require Import Prelude World Json Chat Schema Records Pending ContentPolicy.
From S2P Require Import UrlSecrets DocModel.

Record DocRow : Type := mkDocRow {
  dr_doc_id : string;
  dr_parent_id : string;
  dr_mls_group_id : string;
  dr_fields : DocFields;
  dr_author_npub : string;
  dr_add_rumor_id : string;
  dr_created_at_ms : Z;
  dr_updated_at_ms : Z;
  dr_updated_by_npub : string;
  dr_hidden : bool;
}.

Definition row_from_sql (doc_id : string) (r : DocSqlRow) : DocRow :=
  mkDocRow doc_id (d_parent_id r) (d_mls_group_id r)
    (mkDocFields (d_url r) (d_title r) (Provider_parse (d_provider r)) (d_channel_id r)
       (d_note r))
    (d_author_npub r) (d_add_rumor_id r) (d_created_at_ms r) (d_updated_at_ms r)
    (d_updated_by_npub r) (d_hidden r).

Definition load_row (doc_id : string) : Act (option DocRow) :=
  query (λ e, "Failed to load squad doc: " +:+ e)
    (λ d, row_from_sql doc_id <$> db_docs d !! doc_id).

Definition visible_docs (d : Db) (parent_id : string) : list (string * DocSqlRow) :=
  filter (λ kr : string * DocSqlRow, d_parent_id kr.2 = parent_id ∧ d_hidden kr.2 = false)
    (map_to_list (db_docs d)).

Definition visible_count (parent_id : string) : Act Z :=
  query (λ e, "Failed to count squad docs: " +:+ e)
    (λ d, Z.of_nat (length (visible_docs d parent_id))).

Record OpMeta : Type := mkOpMeta {
  om_rumor_id : string;
  om_mls_group_id : string;
  om_signer_npub : string;
}.

Module Applied.
Inductive t : Type :=
| Changed (inserted : bool)
| Replay
| Queued
| Ignored.

#[export] Instance t_eq_dec : EqDecision t.
Proof. solve_decision. Defined.

Definition changed (a : t) : bool :=
  match a with
  | Changed _ => true
  | _ => false
  end.
End Applied.

Definition may_add (parent_id : string) (role : SquadGroupRole) : Act bool :=
  if negb (is_member role) then mret false
  else if is_admin role then mret true
  else
    let! p := load_policy parent_id in
    mret (negb (restrict_doc_add p)).

(** The column values of the [INSERT] of [insert_add]. *)
Definition new_doc_row (w : DocWire) (f : DocFields) (meta : OpMeta) : DocSqlRow :=
  mkDocSqlRow (dw_parent_id w) (om_mls_group_id meta) (df_url f) (df_title f)
    (Provider_as_str (df_provider f)) (df_channel_id f) (df_note f) (om_signer_npub meta)
    (om_rumor_id meta) (dw_updated_at_ms w) (dw_updated_at_ms w) (om_signer_npub meta) false.

(** The [UPDATE] of [apply_update]. *)
Definition update_doc_row (w : DocWire) (f : DocFields) (npub : string) (r : DocSqlRow)
    : DocSqlRow :=
  mkDocSqlRow (d_parent_id r) (d_mls_group_id r) (df_url f) (df_title f)
    (Provider_as_str (df_provider f)) (df_channel_id f) (df_note f) (d_author_npub r)
    (d_add_rumor_id r) (d_created_at_ms r) (dw_updated_at_ms w) npub (d_hidden r).

(** The [UPDATE] of [apply_remove], its [CASE]s on [newer]. *)
Definition remove_doc_row (w : DocWire) (newer : bool) (npub : string) (r : DocSqlRow)
    : DocSqlRow :=
  mkDocSqlRow (d_parent_id r) (d_mls_group_id r) (d_url r) (d_title r) (d_provider r)
    (d_channel_id r) (d_note r) (d_author_npub r) (d_add_rumor_id r) (d_created_at_ms r)
    (if newer then dw_updated_at_ms w else d_updated_at_ms r)
    (if newer then npub else d_updated_by_npub r) true.

Definition may_write (row : DocRow) (w : DocWire) (meta : OpMeta) (role : SquadGroupRole)
    : bool :=
  bool_decide (dr_mls_group_id row = om_mls_group_id meta)
  && bool_decide (dr_parent_id row = dw_parent_id w)
  && is_member role
  && (bool_decide (om_signer_npub meta = dr_author_npub row) || is_admin role).

Definition purge_expired_pending (now_ms : Z) : Act unit :=
  exec_ (λ e, "Failed to purge squad doc ops: " +:+ e)
    (set_doc_pending (purge_rows (saturating_sub now_ms PENDING_TTL_MS))).

Section replica.
Context `{UrlCrate} `{SerdeText} `{Rusqlite}.

Definition insert_add (w : DocWire) (f : DocFields) (meta : OpMeta) (role : SquadGroupRole)
    : Act Applied.t :=
  let! ok := may_add (dw_parent_id w) role in
  if negb ok then mret Applied.Ignored
  else
    insert_row (λ e, "Failed to insert squad doc: " +:+ e)
      (λ d, match db_docs d !! dw_id w with
            | Some _ => Err (constraint_failed "squad_docs.doc_id")
            | None => Ok (tt, set_docs (insert (dw_id w) (new_doc_row w f meta)) d)
            end) ;!
    mret (Applied.Changed true).

Definition apply_update (row : DocRow) (w : DocWire) (f : DocFields) (meta : OpMeta)
    (role : SquadGroupRole) : Act Applied.t :=
  if negb (may_write row w meta role) || dr_hidden row
     || (dw_updated_at_ms w <=? dr_updated_at_ms row)
  then mret Applied.Ignored
  else
    exec_ (λ e, "Failed to update squad doc: " +:+ e)
      (set_docs (alter (update_doc_row w f (om_signer_npub meta)) (dr_doc_id row))) ;!
    mret (Applied.Changed false).

Definition apply_remove (row : DocRow) (w : DocWire) (meta : OpMeta) (role : SquadGroupRole)
    : Act Applied.t :=
  if negb (may_write row w meta role) || dr_hidden row
  then mret Applied.Ignored
  else
    let newer := dw_updated_at_ms w >? dr_updated_at_ms row in
    exec_ (λ e, "Failed to remove squad doc: " +:+ e)
      (set_docs (alter (remove_doc_row w newer (om_signer_npub meta)) (dr_doc_id row))) ;!
    mret (Applied.Changed false).

(** The doc table of the queue has no [op] column. *)
Definition queue (w : DocWire) (meta : OpMeta) (now_ms : Z) : Act Applied.t :=
  purge_expired_pending now_ms ;!
  let payload := to_text (ser_wire w) in
  exec_ (λ e, "Failed to queue squad doc op: " +:+ e)
    (set_doc_pending (insert_or_ignore (om_rumor_id meta)
      (mkPendingRow (dw_id w) (dw_parent_id w) (om_mls_group_id meta) (om_signer_npub meta)
         "" payload (dw_updated_at_ms w)))) ;!
  exec_ (λ e, "Failed to trim squad doc ops: " +:+ e)
    (set_doc_pending (trim_rows (dw_parent_id w) (om_signer_npub meta)
                        MAX_PENDING_PER_AUTHOR)) ;!
  mret Applied.Queued.

Definition apply_op (w : DocWire) (meta : OpMeta) (role : SquadGroupRole) (now_ms : Z)
    : Act Applied.t :=
  if negb (is_member role)
     || negb (side_effect_parent_matches_chat (om_mls_group_id meta) (dw_parent_id w))
     || match dw_added_by w with
        | Some by_ => negb (bool_decide (by_ = om_signer_npub meta))
        | None => false
        end
  then mret Applied.Ignored
  else
    let! row := load_row (dw_id w) in
    match dw_op w with
    | Add =>
        match fields_from_wire w with
        | None => mret Applied.Ignored
        | Some fields =>
            match row with
            | Some row =>
                if bool_decide (dr_add_rumor_id row = om_rumor_id meta) && negb (dr_hidden row)
                then mret Applied.Replay else mret Applied.Ignored
            | None => insert_add w fields meta role
            end
        end
    | Update =>
        match fields_from_wire w with
        | None => mret Applied.Ignored
        | Some fields =>
            match row with
            | Some row => apply_update row w fields meta role
            | None => queue w meta now_ms
            end
        end
    | Remove =>
        match row with
        | Some row => apply_remove row w meta role
        | None => queue w meta now_ms
        end
    end.

Definition pending_for_stored (doc_id : string) : Act (option (string * list string)) :=
  let! row := load_row doc_id in
  match row with
  | None => mret None
  | Some row =>
      let! authors := query id (λ d, authors_of doc_id (db_doc_pending d)) in
      mret (Some (dr_mls_group_id row, authors))
  end.

(** One iteration of the drain loop. *)
Definition drain_one (doc_id : string) (role_of : string → SquadGroupRole) (now_ms : Z)
    (changed : bool) (kr : string * PendingRow) : Act bool :=
  let '(rumor_id, r) := kr in
  let! changed :=
    match parse_wire (p_payload_json r) with
    | Some w =>
        if bool_decide (dw_id w = doc_id) && negb (bool_decide (dw_op w = Add)) then
          let meta := mkOpMeta rumor_id (p_mls_group_id r) (p_author_npub r) in
          let! applied := apply_op w meta (role_of (p_author_npub r)) now_ms in
          mret (changed || Applied.changed applied)
        else mret changed
    | None => mret changed
    end in
  exec_ (λ e, "Failed to clear squad doc op: " +:+ e) (set_doc_pending (delete rumor_id)) ;!
  mret changed.

Definition drain_pending (doc_id : string) (role_of : string → SquadGroupRole) (now_ms : Z)
    : Act bool :=
  purge_expired_pending now_ms ;!
  let! row := load_row doc_id in
  match row with
  | None => mret false
  | Some _ =>
      let! pending := query id (λ d, rows_of doc_id (db_doc_pending d)) in
      foldM (drain_one doc_id role_of now_ms) false pending
  end.

Definition card_content (w : DocWire) (applied : Applied.t) : option json :=
  match dw_op w, applied with
  | Add, (Applied.Changed true | Applied.Replay) =>
      fields ← fields_from_wire w;
      Some (added_card_content (dw_id w) (dw_parent_id w) fields)
  | _, _ => None
  end.
End replica.

(** ** Listing *)

Record SquadDocDto : Type := mkDocDto {
  dd_id : string;
  dd_parent_id : string;
  dd_mls_group_id : string;
  dd_fields : DocFields;
  dd_author_npub : string;
  dd_created_at_ms : Z;
  dd_updated_at_ms : Z;
  dd_updated_by_npub : string;
  dd_can_edit : bool;
}.

Definition doc_dto (caller_npub : string) (row : DocRow) : SquadDocDto :=
  mkDocDto (dr_doc_id row) (dr_parent_id row) (dr_mls_group_id row) (dr_fields row)
    (dr_author_npub row) (dr_created_at_ms row) (dr_updated_at_ms row)
    (dr_updated_by_npub row) (bool_decide (dr_author_npub row = caller_npub)).

(** [ORDER BY updated_at_ms DESC, doc_id ASC] *)
Definition listed_rows (d : Db) (parent_id : string) : list (string * DocSqlRow) :=
  order_by_ms (λ kr : string * DocSqlRow, (- d_updated_at_ms kr.2, kr.1))
    (visible_docs d parent_id).

Definition load_docs (parent_id caller_npub : string) : Act (list SquadDocDto) :=
  (* [prepare] and [query_map] *)
  query id (λ _, tt) ;!
  let! rows := query (λ e, "Failed to list squad docs: " +:+ e)
    (λ d, (λ kr, row_from_sql kr.1 kr.2) <$> listed_rows d parent_id) in
  mret (doc_dto caller_npub <$> rows).

(** ** Ingest and commands *)

Definition now_ms : Act Z :=
  let! t := now in
  mret (if t <? 0 then 0 else wrap64 t).

Definition emit_replica_updated (parent_id : string) (doc_id : option string) : Act unit :=
  let! handle := attempt (query id (λ _, tt)) in
  if is_okb handle
  then output (Emit REPLICA_UPDATED_EVENT
                (JObj [("parentId", JStr parent_id); ("docId", json_opt JStr doc_id)]))
  else mret tt.

Definition ensure_announcements_group (mls_group_id parent_id : string) : result unit :=
  if side_effect_parent_matches_chat mls_group_id parent_id then Ok tt
  else Err err.WRONG_GROUP.

Definition ensure_may_add (parent_id : string) (role : SquadGroupRole) : Act unit :=
  if negb (is_member role) then mthrow err.NOT_MEMBER
  else
    let! ok := may_add parent_id role in
    if negb ok then mthrow err.ADD_RESTRICTED else mret tt.

Definition editable_row (mls_group_id parent_id doc_id npub : string) (role : SquadGroupRole)
    : Act DocRow :=
  if negb (is_member role) then mthrow err.NOT_MEMBER
  else
    let! row := load_row doc_id in
    let! row := of_result (ok_or
      (r ← row;
       if bool_decide (dr_parent_id r = parent_id) && bool_decide (dr_mls_group_id r = mls_group_id)
          && negb (dr_hidden r)
       then Some r else None)
      err.NOT_FOUND) in
    if negb (bool_decide (dr_author_npub row = npub)) && negb (is_admin role)
    then mthrow err.NOT_EDITABLE
    else mret row.

Section commands.
Context `{UrlCrate} `{SerdeText} `{Rusqlite} `{Nostr}.

Definition roles_of (group_id : string) (authors : list string)
    : Act (gmap string SquadGroupRole) :=
  foldM (λ roles author,
    let! role := group_role group_id author in
    mret (<[author := role]> roles)) ∅ authors.

Definition drain_stored (doc_id : string) : Act bool :=
  let! stored := with_conn (pending_for_stored doc_id) in
  match stored with
  | None => mret false
  | Some (_, []) => mret false
  | Some (group_id, authors) =>
      let! roles := roles_of group_id authors in
      with_conn
        (let! now := now_ms in
         drain_pending doc_id (λ npub, default role_default (roles !! npub)) now)
  end.

(** [Applied::Queued | Applied::Ignored] *)
Definition settled (applied : Applied.t) : bool :=
  match applied with
  | Applied.Queued | Applied.Ignored => false
  | _ => true
  end.

(** The log and the event after a change. *)
Definition announce (w : DocWire) : Act unit :=
  let! visible := attempt (with_conn (visible_count (dw_parent_id w))) in
  output (LogInfo (replica_log_line (dw_op w) (dw_id w) (default (-1) (res_ok visible)))) ;!
  emit_replica_updated (dw_parent_id w) (Some (dw_id w)).

Definition apply_and_emit (w : DocWire) (meta : OpMeta) (role : SquadGroupRole)
    : Act Applied.t :=
  let! applied := with_conn (let! now := now_ms in apply_op w meta role now) in
  let! drained := if settled applied then drain_stored (dw_id w) else mret false in
  (if Applied.changed applied || drained then announce w else mret tt) ;!
  mret applied.

Definition process_rumor (rumor : RumorEvent) (context : RumorContext)
    : Act RumorProcessingResult :=
  match cx_conversation_type context with
  | CDirectMessage => mret SquadRecordSilent
  | CMlsGroup =>
      match parse_wire (ru_content rumor) with
      | None => mret SquadRecordSilent
      | Some w =>
          let group_id := cx_conversation_id context in
          if negb (side_effect_parent_matches_chat group_id (dw_parent_id w))
          then mret SquadRecordSilent
          else
            let! now := now_ms in
            if negb (stamp_acceptable (dw_updated_at_ms w) now) then mret SquadRecordSilent
            else
              let! _ := query (λ _, "App handle not initialized") (λ _, tt) in
              let! signer := of_result (map_err_with (λ e, "pubkey bech32: " +:+ e)
                                          (to_bech32 (ru_pubkey rumor))) in
              let! role := group_role group_id signer in
              let! applied := apply_and_emit w (mkOpMeta (ru_id rumor) group_id signer) role in
              match card_content w applied with
              | None => mret SquadRecordSilent
              | Some content =>
                  mret (SquadRecordCard (card_message (ru_id rumor) (to_text content)
                    (extract_millisecond_timestamp rumor) (cx_is_mine context) signer))
              end
      end
  end.

(** The rumor [send_wire] builds. *)
Definition wire_rumor (parent_id content pk : string) (updated_at_ms : Z) (card : bool)
    : OutRumor :=
  let at_ms := Z.max 0 updated_at_ms in
  mkOutRumor content
    ([["d"; SQUAD_DOC_D_TAG]; ["parent"; parent_id]; ["ms"; pretty (at_ms `mod` 1000)]]
     ++ (if card then [["pacto_bucket"; "announcements"]] else []))
    (Some (at_ms / 1000)) pk.

Definition send_wire (mls_group_id parent_id pk : string) (w : DocWire) (card : bool)
    : Act string :=
  let built := wire_rumor parent_id (to_text (ser_wire w)) pk (dw_updated_at_ms w) card in
  let! rumor_id := of_result (ok_or (built_id built) "squad doc rumor id missing") in
  send id (SendMls mls_group_id built) ;!
  mret rumor_id.

Definition set_can_edit (dto : SquadDocDto) (b : bool) : SquadDocDto :=
  mkDocDto (dd_id dto) (dd_parent_id dto) (dd_mls_group_id dto) (dd_fields dto)
    (dd_author_npub dto) (dd_created_at_ms dto) (dd_updated_at_ms dto)
    (dd_updated_by_npub dto) b.

(** One doc of the listing loop: others' docs are editable by an admin. *)
Definition mark_editable (caller : string)
    (acc : gmap string bool * list SquadDocDto) (doc : SquadDocDto)
    : Act (gmap string bool * list SquadDocDto) :=
  let '(admin_of, out) := acc in
  if dd_can_edit doc then mret (admin_of, out ++ [doc])
  else
    match admin_of !! dd_mls_group_id doc with
    | Some is_admin => mret (admin_of, out ++ [set_can_edit doc is_admin])
    | None =>
        let! role := group_role (dd_mls_group_id doc) caller in
        mret (<[dd_mls_group_id doc := is_admin role]> admin_of,
              out ++ [set_can_edit doc (is_admin role)])
    end.

Definition list_squad_docs (parent_id : string) : Act (list SquadDocDto) :=
  let! caller := get_current_account in
  let! docs := with_conn (load_docs parent_id caller) in
  let! (_, out) := foldM (mark_editable caller) (∅, []) docs in
  mret out.

Definition send_squad_doc_add (mls_group_id parent_id doc_id : string) (doc : SquadDocInput)
    : Act unit :=
  require_key_derivation_version_2_on_handle ;!
  of_result (ensure_announcements_group mls_group_id parent_id) ;!
  if blank doc_id then mthrow "Doc id required"
  else
    let! fields := of_result (fields_from_input doc) in
    let! (pk, npub) := signer_identity in
    let! role := group_role mls_group_id npub in
    let! existing := with_conn (ensure_may_add parent_id role ;! load_row doc_id) in
    match existing with
    | Some row =>
        if bool_decide (dr_author_npub row = npub) && bool_decide (dr_parent_id row = parent_id)
           && negb (dr_hidden row)
        then mret tt
        else mthrow "Doc id already in use"
    | None =>
        let! now := now_ms in
        let w := doc_wire Add doc_id parent_id (Some fields) (Some npub) now in
        let! rumor_id := send_wire mls_group_id parent_id pk w true in
        apply_and_emit w (mkOpMeta rumor_id mls_group_id npub) role ;!
        store_local_card mls_group_id
          (card_message rumor_id (to_text (added_card_content doc_id parent_id fields))
             (Z.max 0 (dw_updated_at_ms w)) true npub)
    end.

(** [now_ms().max(row.updated_at_ms.saturating_add(1))] *)
Definition next_stamp (now stored : Z) : Z := Z.max now (saturating_add stored 1).

Definition send_squad_doc_update (mls_group_id parent_id doc_id : string) (doc : SquadDocInput)
    : Act unit :=
  require_key_derivation_version_2_on_handle ;!
  of_result (ensure_announcements_group mls_group_id parent_id) ;!
  let! fields := of_result (fields_from_input doc) in
  let! (pk, npub) := signer_identity in
  let! role := group_role mls_group_id npub in
  let! row := with_conn (editable_row mls_group_id parent_id doc_id npub role) in
  let! now := now_ms in
  let w := doc_wire Update doc_id parent_id (Some fields) None
             (next_stamp now (dr_updated_at_ms row)) in
  let! rumor_id := send_wire mls_group_id parent_id pk w false in
  apply_and_emit w (mkOpMeta rumor_id mls_group_id npub) role ;!
  mret tt.

Definition send_squad_doc_remove (mls_group_id parent_id doc_id : string) : Act unit :=
  require_key_derivation_version_2_on_handle ;!
  of_result (ensure_announcements_group mls_group_id parent_id) ;!
  let! (pk, npub) := signer_identity in
  let! role := group_role mls_group_id npub in
  let! row := with_conn (editable_row mls_group_id parent_id doc_id npub role) in
  let! now := now_ms in
  let w := doc_wire Remove doc_id parent_id None None
             (next_stamp now (dr_updated_at_ms row)) in
  let! rumor_id := send_wire mls_group_id parent_id pk w false in
  apply_and_emit w (mkOpMeta rumor_id mls_group_id npub) role ;!
  mret tt.
End commands.
