(* ===== verification/DocSpec.v ===== *)
(** * The docs replica as pure state transformers, and as a transition system

    [apply_spec] is what one operation does when nothing fails; [doc_step] lists
    the moves of the database that faults leave possible. *)

From S2P Require Import Prelude World Json Chat Schema Records Pending ContentPolicy.
From S2P Require Import UrlSecrets DocModel SquadDoc.

Notation Obs := (World.Obs Db Effect).

(** ** The specification *)

Section spec.
Context `{UrlCrate} `{SerdeText}.

(** A member writes through the squad's own group, in their own name. *)
Definition admitted (w : DocWire) (meta : OpMeta) (role : SquadGroupRole) : bool :=
  is_member role && side_effect_parent_matches_chat (om_mls_group_id meta) (dw_parent_id w)
  && bool_decide (dw_added_by w = None ∨ dw_added_by w = Some (om_signer_npub meta)).

Definition may_add_spec (d : Db) (parent : string) (role : SquadGroupRole) : bool :=
  is_member role && (is_admin role || negb (restrict_doc_add (stored_policy d parent))).

Definition write_allowed (r : DocSqlRow) (w : DocWire) (meta : OpMeta) (role : SquadGroupRole)
    : bool :=
  may_write (row_from_sql (dw_id w) r) w meta role.

Definition update_spec (r : DocSqlRow) (w : DocWire) (f : DocFields) (meta : OpMeta)
    (role : SquadGroupRole) : Applied.t * DocSqlRow :=
  if write_allowed r w meta role && negb (d_hidden r) && (d_updated_at_ms r <? dw_updated_at_ms w)
  then (Applied.Changed false, update_doc_row w f (om_signer_npub meta) r)
  else (Applied.Ignored, r).

Definition remove_spec (r : DocSqlRow) (w : DocWire) (meta : OpMeta) (role : SquadGroupRole)
    : Applied.t * DocSqlRow :=
  if write_allowed r w meta role && negb (d_hidden r)
  then (Applied.Changed false,
        remove_doc_row w (dw_updated_at_ms w >? d_updated_at_ms r) (om_signer_npub meta) r)
  else (Applied.Ignored, r).

Definition put_doc (id : string) (r : DocSqlRow) (d : Db) : Db := set_docs (<[id := r]>) d.

Definition queued_row (w : DocWire) (meta : OpMeta) : PendingRow :=
  mkPendingRow (dw_id w) (dw_parent_id w) (om_mls_group_id meta) (om_signer_npub meta) ""
    (to_text (ser_wire w)) (dw_updated_at_ms w).
Definition purge_spec (now_ms : Z) (m : pending) : pending :=
  purge_rows (saturating_sub now_ms PENDING_TTL_MS) m.
Definition enqueue_spec (w : DocWire) (meta : OpMeta) (now_ms : Z) (m : pending) : pending :=
  insert_or_ignore (om_rumor_id meta) (queued_row w meta) (purge_spec now_ms m).
Definition trim_spec (w : DocWire) (meta : OpMeta) (m : pending) : pending :=
  trim_rows (dw_parent_id w) (om_signer_npub meta) MAX_PENDING_PER_AUTHOR m.
Definition queue_spec (w : DocWire) (meta : OpMeta) (now_ms : Z) (d : Db) : Db :=
  set_doc_pending (λ m, trim_spec w meta (enqueue_spec w meta now_ms m)) d.

Definition stored_spec (d : Db) (r : DocSqlRow) (w : DocWire) (meta : OpMeta)
    (role : SquadGroupRole) : Applied.t * Db :=
  match dw_op w with
  | Add =>
      (if bool_decide (is_Some (fields_from_wire w))
          && bool_decide (d_add_rumor_id r = om_rumor_id meta) && negb (d_hidden r)
       then Applied.Replay else Applied.Ignored, d)
  | Update =>
      match fields_from_wire w with
      | Some f => let '(a, r') := update_spec r w f meta role in (a, put_doc (dw_id w) r' d)
      | None => (Applied.Ignored, d)
      end
  | Remove => let '(a, r') := remove_spec r w meta role in (a, put_doc (dw_id w) r' d)
  end.

Definition missing_spec (d : Db) (w : DocWire) (meta : OpMeta) (role : SquadGroupRole)
    (now_ms : Z) : Applied.t * Db :=
  match dw_op w, fields_from_wire w with
  | Add, Some f =>
      if may_add_spec d (dw_parent_id w) role
      then (Applied.Changed true, put_doc (dw_id w) (new_doc_row w f meta) d)
      else (Applied.Ignored, d)
  | Add, None | Update, None => (Applied.Ignored, d)
  | Update, Some _ | Remove, _ => (Applied.Queued, queue_spec w meta now_ms d)
  end.

Definition apply_spec (d : Db) (w : DocWire) (meta : OpMeta) (role : SquadGroupRole)
    (now_ms : Z) : Applied.t * Db :=
  if admitted w meta role then
    match db_docs d !! dw_id w with
    | Some r => stored_spec d r w meta role
    | None => missing_spec d w meta role now_ms
    end
  else (Applied.Ignored, d).

(** ** The moves *)

Inductive doc_step (w : DocWire) (meta : OpMeta) (role : SquadGroupRole) (now : Z) (d : Db)
    : Db → Prop :=
| step_skip : doc_step w meta role now d d
| step_add f :
    admitted w meta role = true → db_docs d !! dw_id w = None → dw_op w = Add →
    fields_from_wire w = Some f → may_add_spec d (dw_parent_id w) role = true →
    doc_step w meta role now d (put_doc (dw_id w) (new_doc_row w f meta) d)
| step_update r f :
    admitted w meta role = true → db_docs d !! dw_id w = Some r → dw_op w = Update →
    fields_from_wire w = Some f → write_allowed r w meta role = true → d_hidden r = false →
    d_updated_at_ms r < dw_updated_at_ms w →
    doc_step w meta role now d
      (put_doc (dw_id w) (update_doc_row w f (om_signer_npub meta) r) d)
| step_remove r :
    admitted w meta role = true → db_docs d !! dw_id w = Some r → dw_op w = Remove →
    write_allowed r w meta role = true → d_hidden r = false →
    doc_step w meta role now d
      (put_doc (dw_id w) (remove_doc_row w (dw_updated_at_ms w >? d_updated_at_ms r)
         (om_signer_npub meta) r) d)
| step_queue f :
    admitted w meta role = true → db_docs d !! dw_id w = None → dw_op w ≠ Add →
    (f = purge_spec now ∨ f = enqueue_spec w meta now ∨
     f = λ m, trim_spec w meta (enqueue_spec w meta now m)) →
    doc_step w meta role now d (set_doc_pending f d).

Lemma put_doc_lookup id r d : db_docs (put_doc id r d) !! id = Some r.
Proof. apply (lookup_insert_eq (db_docs d)). Qed.

Lemma put_doc_same id r d : db_docs d !! id = Some r → put_doc id r d = d.
Proof. intros Hr. apply Db_ext; try reflexivity. by apply insert_id. Qed.

Lemma put_doc_changed d id r id' :
  db_docs (put_doc id r d) !! id' ≠ db_docs d !! id' → id' = id.
Proof.
  intros Hne. destruct (decide (id' = id)) as [|Hd]; [done|]. destruct Hne.
  by apply (lookup_insert_ne (db_docs d)).
Qed.

Lemma alter_doc d id r f :
  db_docs d !! id = Some r → set_docs (alter f id) d = put_doc id (f r) d.
Proof.
  intros Hr. apply Db_ext; try reflexivity. simpl. apply map_eq. intros k.
  destruct (decide (k = id)) as [->|Hne].
  - by rewrite lookup_alter_eq, lookup_insert_eq, Hr.
  - by rewrite lookup_alter_ne, lookup_insert_ne.
Qed.

Lemma doc_apply_spec_step w meta role now d : doc_step w meta role now d (apply_spec d w meta role now).2.
Proof.
  unfold apply_spec. destruct (admitted w meta role) eqn:Ha; [|constructor].
  destruct (db_docs d !! dw_id w) as [r|] eqn:Hr.
  - unfold stored_spec, update_spec, remove_spec. destruct (dw_op w) eqn:Hop; [constructor|..].
    + destruct (fields_from_wire w) as [f|] eqn:Hf; [|constructor].
      destruct (_ && _) eqn:Hg; simpl; [|rewrite put_doc_same by done; constructor].
      bool_facts. by eapply step_update.
    + destruct (_ && _) eqn:Hg; simpl; [|rewrite put_doc_same by done; constructor].
      bool_facts. by eapply step_remove.
  - unfold missing_spec. destruct (dw_op w) eqn:Hop, (fields_from_wire w) as [f|] eqn:Hf;
      try apply step_skip; try (eapply step_queue; eauto; congruence).
    destruct (may_add_spec d (dw_parent_id w) role) eqn:Hm; [|constructor]. by eapply step_add.
Qed.
End spec.

(** ** The refinement *)

Section refine.
Context `{UrlCrate} `{SerdeText} `{Rusqlite}.

Lemma may_add_dwp parent role (o : Obs) :
  dwp (may_add parent role) o (λ r o', o' = o ∧
    ∀ b, r = Ok b → b = may_add_spec (o_db o) parent role).
Proof.
  unfold may_add, may_add_spec, load_policy. destruct (is_member role); simpl;
    [|apply dwp_ret; naive_solver].
  destruct (is_admin role); simpl; [apply dwp_ret; naive_solver|].
  dstep. dstep; [done|]. apply dwp_ret. naive_solver.
Qed.

(** What holds of the outcome of one operation. *)
Definition refines_apply (o : Obs) (w : DocWire) (meta : OpMeta) (role : SquadGroupRole)
    (now : Z) (res : result Applied.t) (o' : Obs) : Prop :=
  o_log o' = o_log o ∧ doc_step w meta role now (o_db o) (o_db o') ∧
  match res with
  | Ok a => (a, o_db o') = apply_spec (o_db o) w meta role now
  | Err _ => db_docs (o_db o') = db_docs (o_db o)
  end.

Lemma refines_ok (o o' : Obs) w meta role now a :
  o_log o' = o_log o → (a, o_db o') = apply_spec (o_db o) w meta role now →
  refines_apply o w meta role now (Ok a) o'.
Proof.
  intros Hl Ha. split; [done|]. split; [|done].
  pose proof (f_equal snd Ha) as Hd. simpl in Hd. rewrite Hd. apply doc_apply_spec_step.
Qed.

Lemma refines_err (o : Obs) w meta role now e : refines_apply o w meta role now (Err e) o.
Proof. split; [done|]. split; [constructor|done]. Qed.

Lemma doc_queue_dwp w meta role now (o : Obs) :
  admitted w meta role = true → db_docs (o_db o) !! dw_id w = None → dw_op w ≠ Add →
  dwp (queue w meta now) o (λ res o', o_log o' = o_log o ∧
    doc_step w meta role now (o_db o) (o_db o') ∧
    match res with
    | Ok a => a = Applied.Queued ∧ o_db o' = queue_spec w meta now (o_db o)
    | Err _ => db_docs (o_db o') = db_docs (o_db o)
    end).
Proof.
  intros Ha Hn Hop. unfold queue, purge_expired_pending. destruct o as [d l].
  assert (∀ f, (f = purge_spec now ∨ f = enqueue_spec w meta now ∨
     f = λ m, trim_spec w meta (enqueue_spec w meta now m)) →
    doc_step w meta role now d (set_doc_pending f d)) as Hs by (intros; by eapply step_queue).
  dstep. dstep; [split_and!; [done|constructor|done]|]. dstep.
  dstep; [split_and!; [done|apply (Hs (purge_spec now)); auto|done]|].
  dstep. dstep; [split_and!; [done|apply (Hs (enqueue_spec w meta now)); auto|done]|].
  apply dwp_ret. split_and!; [done| |done|done].
  apply (Hs (λ m, trim_spec w meta (enqueue_spec w meta now m))). auto.
Qed.

(** What the guards of [apply_op] decide. *)
Lemma admitted_guard w meta role :
  (negb (is_member role)
   || negb (side_effect_parent_matches_chat (om_mls_group_id meta) (dw_parent_id w))
   || match dw_added_by w with
      | Some by_ => negb (bool_decide (by_ = om_signer_npub meta))
      | None => false
      end) = negb (admitted w meta role).
Proof.
  unfold admitted. destruct (is_member role), (side_effect_parent_matches_chat _ _); simpl; try done.
  destruct (dw_added_by w) as [by_|]; [|by rewrite bool_decide_eq_true_2 by auto].
  f_equal. apply bool_decide_ext. naive_solver.
Qed.

Lemma insert_add_dwp w f meta role now (o : Obs) :
  admitted w meta role = true → db_docs (o_db o) !! dw_id w = None → dw_op w = Add →
  fields_from_wire w = Some f →
  dwp (insert_add w f meta role) o (refines_apply o w meta role now).
Proof.
  intros Ha Hr Hop Hf. unfold insert_add. dstep.
  eapply dwp_mono; [apply may_add_dwp|]. intros [b|e] o' [-> Hb]; [|apply refines_err].
  specialize (Hb b eq_refl). destruct o as [d l]. simpl in *.
  assert (apply_spec d w meta role now = (if b then (Applied.Changed true,
    put_doc (dw_id w) (new_doc_row w f meta) d) else (Applied.Ignored, d))) as Hspec.
  { unfold apply_spec. rewrite Ha, Hr. unfold missing_spec. by rewrite Hop, Hf, Hb. }
  destruct b; simpl; [|apply dwp_ret; by apply refines_ok].
  dstep. apply dwp_insert_row; [intros e; apply refines_err|]. simpl. rewrite Hr.
  intros [] d' [= <-]. apply dwp_ret. by apply refines_ok.
Qed.

Lemma apply_update_dwp w r f meta role now (o : Obs) :
  admitted w meta role = true → db_docs (o_db o) !! dw_id w = Some r → dw_op w = Update →
  fields_from_wire w = Some f →
  dwp (apply_update (row_from_sql (dw_id w) r) w f meta role) o (refines_apply o w meta role now).
Proof.
  intros Ha Hr Hop Hf. destruct o as [d l]. simpl in *.
  assert (apply_spec d w meta role now =
    let '(a, r') := update_spec r w f meta role in (a, put_doc (dw_id w) r' d)) as Hspec.
  { unfold apply_spec. rewrite Ha, Hr. unfold stored_spec. by rewrite Hop, Hf. }
  unfold apply_update, update_spec, write_allowed in *. simpl.
  destruct (may_write _ _ _ _); simpl in *;
    [|apply dwp_ret, refines_ok; [done|]; simpl; by rewrite Hspec, put_doc_same].
  destruct (d_hidden r); simpl in *;
    [apply dwp_ret, refines_ok; [done|]; simpl; by rewrite Hspec, put_doc_same|].
  rewrite Z.ltb_antisym in Hspec. destruct (dw_updated_at_ms w <=? d_updated_at_ms r); simpl in *;
    [apply dwp_ret, refines_ok; [done|]; simpl; by rewrite Hspec, put_doc_same|].
  dstep. dstep; [apply refines_err|]. apply dwp_ret, refines_ok; [done|]. simpl.
  by rewrite Hspec, (alter_doc d (dw_id w) r).
Qed.

Lemma apply_remove_dwp w r meta role now (o : Obs) :
  admitted w meta role = true → db_docs (o_db o) !! dw_id w = Some r → dw_op w = Remove →
  dwp (apply_remove (row_from_sql (dw_id w) r) w meta role) o (refines_apply o w meta role now).
Proof.
  intros Ha Hr Hop. destruct o as [d l]. simpl in *.
  assert (apply_spec d w meta role now =
    let '(a, r') := remove_spec r w meta role in (a, put_doc (dw_id w) r' d)) as Hspec.
  { unfold apply_spec. rewrite Ha, Hr. unfold stored_spec. by rewrite Hop. }
  unfold apply_remove, remove_spec, write_allowed in *. simpl.
  destruct (may_write _ _ _ _); simpl in *;
    [|apply dwp_ret, refines_ok; [done|]; simpl; by rewrite Hspec, put_doc_same].
  destruct (d_hidden r); simpl in *;
    [apply dwp_ret, refines_ok; [done|]; simpl; by rewrite Hspec, put_doc_same|].
  dstep. dstep; [apply refines_err|]. apply dwp_ret, refines_ok; [done|]. simpl.
  by rewrite Hspec, (alter_doc d (dw_id w) r).
Qed.

Lemma queue_refines w meta role now (o : Obs) :
  admitted w meta role = true → db_docs (o_db o) !! dw_id w = None → dw_op w ≠ Add →
  (dw_op w = Update → is_Some (fields_from_wire w)) →
  dwp (queue w meta now) o (refines_apply o w meta role now).
Proof.
  intros Ha Hn Hop Hf. eapply dwp_mono; [by apply doc_queue_dwp|].
  intros [a|e] o' (Hl & Hs & Ho); (split; [done|]; split; [done|]); [|done].
  destruct Ho as [-> ->]. unfold apply_spec. rewrite Ha, Hn. unfold missing_spec.
  destruct (dw_op w); [done| |by destruct (fields_from_wire w)].
  by destruct Hf as [f ->].
Qed.

(** [apply_op] implements [apply_spec], whatever fails. *)
Lemma doc_apply_op_dwp w meta role now (o : Obs) :
  dwp (apply_op w meta role now) o (refines_apply o w meta role now).
Proof.
  unfold apply_op. rewrite admitted_guard. destruct (admitted w meta role) eqn:Ha; simpl.
  2:{ apply dwp_ret, refines_ok; [done|]. unfold apply_spec. by rewrite Ha. }
  unfold load_row. dstep. dstep; [apply refines_err|].
  destruct (db_docs (o_db o) !! dw_id w) as [r|] eqn:Hr; simpl.
  - assert (apply_spec (o_db o) w meta role now = stored_spec (o_db o) r w meta role) as Hspec
      by (unfold apply_spec; by rewrite Ha, Hr).
    destruct (dw_op w) eqn:Hop.
    + destruct (fields_from_wire w) as [f|] eqn:Hf;
        [destruct (_ && _) eqn:Hg|]; apply dwp_ret, refines_ok; try done;
        rewrite Hspec; unfold stored_spec; rewrite Hop, Hf; simpl; by rewrite ?Hg.
    + destruct (fields_from_wire w) as [f|] eqn:Hf.
      * by apply apply_update_dwp.
      * apply dwp_ret, refines_ok; [done|]. rewrite Hspec. unfold stored_spec. by rewrite Hop, Hf.
    + by apply apply_remove_dwp.
  - destruct (dw_op w) eqn:Hop.
    + destruct (fields_from_wire w) as [f|] eqn:Hf; [by apply insert_add_dwp|].
      apply dwp_ret, refines_ok; [done|]. unfold apply_spec. rewrite Ha, Hr.
      unfold missing_spec. by rewrite Hop, Hf.
    + destruct (fields_from_wire w) as [f|] eqn:Hf.
      * apply queue_refines; [done|done|by rewrite Hop|eauto].
      * apply dwp_ret, refines_ok; [done|]. unfold apply_spec. rewrite Ha, Hr.
        unfold missing_spec. by rewrite Hop, Hf.
    + apply queue_refines; [done|done|by rewrite Hop|by rewrite Hop].
Qed.

(** Without faults it succeeds. *)
Lemma apply_op_total w meta role now (o : Obs) : lwp (apply_op w meta role now) o (λ _ _, True).
Proof.
  unfold apply_op. destruct (_ || _); [by apply lwp_ret|]. unfold load_row. lstep. lstep.
  destruct (db_docs (o_db o) !! dw_id w) as [r|] eqn:Hr; simpl;
    destruct (dw_op w), (fields_from_wire w) as [f|]; try by apply lwp_ret.
  - destruct (_ && _); by apply lwp_ret.
  - unfold apply_update. destruct (_ || _); [by apply lwp_ret|]. by repeat lstep.
  - unfold apply_remove. destruct (_ || _); [by apply lwp_ret|]. by repeat lstep.
  - unfold apply_remove. destruct (_ || _); [by apply lwp_ret|]. by repeat lstep.
  - unfold insert_add, may_add, load_policy. lstep.
    apply lwp_mono with (P := λ _ o', o' = o).
    { destruct (negb _); [by apply lwp_ret|]. destruct (is_admin role); [by apply lwp_ret|].
      by repeat lstep. }
    intros b o' ->. destruct (negb b); [by apply lwp_ret|]. lstep.
    eapply lwp_insert_row; [by rewrite Hr|]. by apply lwp_ret.
  - unfold queue, purge_expired_pending. by repeat lstep.
  - unfold queue, purge_expired_pending. by repeat lstep.
  - unfold queue, purge_expired_pending. by repeat lstep.
Qed.

Lemma doc_apply_op_lwp w meta role now (o : Obs) :
  lwp (apply_op w meta role now) o (λ a o',
    (a, o_db o') = apply_spec (o_db o) w meta role now).
Proof.
  eapply lwp_mono; [eapply lwp_dwp; [apply apply_op_total|apply doc_apply_op_dwp]|].
  intros a o' (_ & _ & _ & Ha). exact Ha.
Qed.
End refine.
