(* ===== verification/Rumors.v ===== *)
(** * Rumors ([rumor.rs], [stored_event.rs])

    The single entry point of every decrypted message, from a direct chat or a
    group: by its kind and [d] tag it becomes a message, a file, a reaction, an
    edit, a typing notice, a poll operation, a squad record or an unknown event. *)

From Stdlib Require Import Ascii.
From S2P Require Import Prelude World Json Chat Schema Records VirtualBucket FileNames DashboardPoll.
From S2P Require Import CivilTime EventModel UrlSecrets.
From S2P Require ContentPolicy SquadEventCommands SquadDoc StoredEvents.

(** [nostr_tags]: the first tag of a name, and its content. *)
Definition find_e (tags : list (list string)) : option (list string) := find_custom tags "e".
Definition find_d (tags : list (list string)) : option (list string) := find_custom tags "d".
Definition find_expiration (tags : list (list string)) : option (list string) :=
  find_custom tags "expiration".
Definition d_content (tags : list (list string)) : option string := find_d tags ≫= tag_content.
Definition custom_content (tags : list (list string)) (name : string) : option string :=
  find_custom tags name ≫= tag_content.

(** [Tag::is_reply], from the nostr crate. *)
Class NostrTags : Type := { is_reply : list string → bool }.

(** The download directory [resolve("pacto", ..)] yields on this platform. *)
Class AppPaths : Type := { download_dir : string }.

(** ** Stored events *)

(** [StoredEventBuilder::build], of a builder given the fields the rumor processors
    set; the others keep their defaults. *)
Definition build (id : string) (kind : Z) (content : string) (tags : list (list string))
    (reference_id : option string) (created_at : Z) (mine : bool) (npub : option string)
    : Act StoredEvent :=
  let! received_at := StoredEvents.current_timestamp_ms in
  mret (mkStoredEvent id kind 0 None content tags reference_id created_at received_at mine
          false false None npub None).

Section rumors.
Context `{Nostr}.

Definition npub_of (rumor : RumorEvent) : option string := res_ok (to_bech32 (ru_pubkey rumor)).

(** Group messages name their sender; in a direct chat it is the other side. *)
Definition sender_npub (rumor : RumorEvent) (context : RumorContext) : option string :=
  match cx_conversation_type context with
  | CMlsGroup => npub_of rumor
  | CDirectMessage => None
  end.

Definition process_unknown_event (rumor : RumorEvent) (context : RumorContext)
    : Act RumorProcessingResult :=
  let reference_id := find_e (ru_tags rumor) ≫= tag_content in
  let! event := build (ru_id rumor) (ru_kind rumor) (ru_content rumor) (ru_tags rumor)
                  reference_id (ru_created_at rumor) (cx_is_mine context) (npub_of rumor) in
  mret (UnknownEvent event).

Definition process_reaction (rumor : RumorEvent) (context : RumorContext)
    : Act RumorProcessingResult :=
  match find_e (ru_tags rumor) with
  | None => mthrow "Reaction missing reference event tag"
  | Some reference_tag =>
      match tag_content reference_tag with
      | None => mthrow "Reaction reference tag has no content"
      | Some reference_id =>
          mret (ReactionTo (mkReaction (ru_id rumor) reference_id
                  (default "" (npub_of rumor)) (ru_content rumor)))
      end
  end.

Definition process_edit_event (rumor : RumorEvent) (context : RumorContext)
    : Act RumorProcessingResult :=
  match find_e (ru_tags rumor) with
  | None => mthrow "Edit event missing reference event tag"
  | Some reference_tag =>
      match tag_content reference_tag with
      | None => mthrow "Edit reference tag has no content"
      | Some message_id =>
          let edited_at := extract_millisecond_timestamp rumor in
          let! event := build (ru_id rumor) StoredEvents.MESSAGE_EDIT (ru_content rumor) (ru_tags rumor)
                          (Some message_id) (ru_created_at rumor) (cx_is_mine context)
                          (npub_of rumor) in
          mret (Edit message_id (ru_content rumor) edited_at event)
      end
  end.

Definition is_typing_indicator (rumor : RumorEvent) : bool :=
  bool_decide (find_d (ru_tags rumor) ≫= tag_content = Some "vector") &&
  bool_decide (ru_content rumor = "typing").

(** The last part of [process_app_specific]. *)
Definition process_typing (rumor : RumorEvent) : Act RumorProcessingResult :=
  match find_expiration (ru_tags rumor) with
  | None => mthrow "Typing indicator missing expiration tag"
  | Some expiry_tag =>
      match tag_content expiry_tag with
      | None => mthrow "Expiration tag has no content"
      | Some raw =>
          match parse_unsigned U64_MAX raw with
          | None => mthrow "Invalid expiration timestamp"
          | Some expiry_timestamp =>
              let! t := now in
              if t <? 0
              then mthrow "System time error: second time provided was later than self"
              else
                let current_timestamp := t / 1000 in
                if (expiry_timestamp <=? current_timestamp)
                   || (current_timestamp + 30 <? expiry_timestamp)
                then mret Ignored
                else
                  let! profile_id := of_result (map_err_with
                    (λ e, "Failed to convert pubkey to bech32: " +:+ e)
                    (to_bech32 (ru_pubkey rumor))) in
                  mret (TypingIndicator profile_id expiry_timestamp)
          end
      end
  end.

Section messages.
Context `{SerdeText} `{NostrTags}.

Definition extract_reply_reference (rumor : RumorEvent) : string :=
  match find_e (ru_tags rumor) with
  | Some tag => if is_reply tag then default "" (tag_content tag) else ""
  | None => ""
  end.

Definition process_text_message (rumor : RumorEvent) (context : RumorContext)
    : Act RumorProcessingResult :=
  mret (TextMessage (mkMessage (ru_id rumor) (ru_content rumor) (extract_reply_reference rumor)
    None None None None [] [] (extract_millisecond_timestamp rumor) false false
    (cx_is_mine context) (sender_npub rumor context) None false None None
    (normalize_virtual_bucket_for_message PRIVATE_DIRECT_MESSAGE (ru_content rumor)
       (ru_tags rumor)))).

(** ** Files *)

Context `{UnicodeCase} `{AppPaths}.

Definition EMPTY_FILE_HASH : string :=
  "e3b0c44298fc1c149afbf4c8996fb92427ae41e4649b934ca495991b7852b855".

Definition attachment_caption (tags : list (list string)) : string :=
  match custom_content tags "caption" with
  | Some s => if blank s then "" else s
  | None => ""
  end.

(** The [dim] tag, "widthxheight". *)
Definition parse_dim (s : string) : option (Z * Z) :=
  match split_on "x"%char s with
  | [w; h] => width ← parse_unsigned U32_MAX w; height ← parse_unsigned U32_MAX h;
              Some (width, height)
  | _ => None
  end.

Definition image_metadata (tags : list (list string)) : option ImageMetadata :=
  blurhash ← custom_content tags "blurhash";
  dimensions ← custom_content tags "dim" ≫= parse_dim;
  Some (mkImage blurhash dimensions.1 dimensions.2).

(** The id a file has before it is downloaded, and where it is looked for. *)
Definition file_id (tags : list (list string)) (nonce : string) : string :=
  default nonce (custom_content tags "ox").
Definition file_path (id extension : string) : string :=
  path_join download_dir (id +:+ "." +:+ extension).

(** [Path::exists]: the file system answers. *)
Definition path_exists : Act bool := let! t := now in mret (negb (t =? 0)).

Definition process_file_attachment (rumor : RumorEvent) (context : RumorContext)
    : Act RumorProcessingResult :=
  let tags := ru_tags rumor in
  let! key := of_result (ok_or (custom_content tags "decryption-key") "Missing decryption-key tag") in
  let! nonce := of_result (ok_or (custom_content tags "decryption-nonce")
                             "Missing decryption-nonce tag") in
  let content_url := ru_content rumor in
  if contains EMPTY_FILE_HASH content_url
  then mthrow "Attachment contains empty file hash - skipping"
  else
    let! mime_type := of_result (ok_or (custom_content tags "file-type") "Missing file-type tag") in
    let file_name := custom_content tags "filename" ≫= sanitize_incoming_file_name in
    let extension := extension_from_mime mime_type in
    query (λ _, "App handle not initialized") (λ _, tt) ;!
    query (λ e, "Failed to resolve directory: " +:+ e) (λ _, tt) ;!
    let reported_size := default 0 (custom_content tags "size" ≫= parse_unsigned U64_MAX) in
    let path := file_path (file_id tags nonce) extension in
    let! downloaded := match custom_content tags "ox" with
                       | Some _ => path_exists
                       | None => mret false
                       end in
    let attachment := mkAttachment (file_id tags nonce) key nonce extension content_url path
      reported_size (image_metadata tags) false downloaded None file_name in
    mret (FileAttachment (mkMessage (ru_id rumor) (attachment_caption tags)
      (extract_reply_reference rumor) None None None None [attachment] []
      (extract_millisecond_timestamp rumor) false false (cx_is_mine context)
      (sender_npub rumor context) None false None None
      (normalize_virtual_bucket_for_message FILE_ATTACHMENT (ru_content rumor) tags))).
End messages.

(** ** Polls *)

Section polls.
Context `{SerdeText} `{Hashing}.

Definition process_poll_vote (rumor : RumorEvent) (vote : DashboardPollVoteWire)
    : Act RumorProcessingResult :=
  let! voter := of_result (map_err_with (λ e, "pubkey bech32: " +:+ e)
                             (to_bech32 (ru_pubkey rumor))) in
  let! applied := db_apply_vote (vw_parent_id vote) (vw_poll_id vote) voter (vw_option_id vote)
                    (ru_id rumor) (wrap64 (extract_millisecond_timestamp rumor)) in
  (if applied then emit_poll_replica_updated (vw_parent_id vote) (Some (vw_poll_id vote))
   else mret tt) ;!
  mret DashboardPollVoteIngested.

Definition process_poll_create (rumor : RumorEvent) (context : RumorContext)
    (payload : DashboardPollCreatedPayload) : Act RumorProcessingResult :=
  let! created_by := of_result (map_err_with (λ e, "pubkey bech32: " +:+ e)
                                  (to_bech32 (ru_pubkey rumor))) in
  let ms := extract_millisecond_timestamp rumor in
  let! upsert := db_insert_poll_create (cx_conversation_id context) (ru_id rumor) (wrap64 ms)
                   created_by payload in
  if bool_decide (upsert = IgnoredConflictingPayload) then mret Ignored
  else
    emit_poll_replica_updated (pp_parent_id payload) (Some (pp_poll_id payload)) ;!
    mret (DashboardPollCreate
      (card_message (ru_id rumor) (ru_content rumor) ms (cx_is_mine context) created_by)).

Definition process_dashboard_poll_rumor (rumor : RumorEvent) (context : RumorContext)
    : Act RumorProcessingResult :=
  match cx_conversation_type context with
  | CDirectMessage => mret Ignored
  | CMlsGroup =>
      query (λ _, "App handle not initialized") (λ _, tt) ;!
      match try_parse_vote (ru_content rumor) with
      | Some vote => process_poll_vote rumor vote
      | None =>
          match try_parse_create_announce (ru_content rumor) with
          | Some env => process_poll_create rumor context (pe_payload env)
          | None => mret Ignored
          end
      end
  end.
End polls.

(** ** The dispatcher *)

Context `{Chrono} `{SerdeText} `{Hashing} `{Rusqlite} `{UrlCrate}.

Definition process_app_specific (rumor : RumorEvent) (context : RumorContext)
    : Act RumorProcessingResult :=
  let d_tag := d_content (ru_tags rumor) in
  if bool_decide (d_tag = Some SQUAD_CONTENT_POLICY_D_TAG)
  then ContentPolicy.process_rumor rumor context
  else if bool_decide (d_tag = Some SQUAD_EVENT_D_TAG)
  then SquadEventCommands.process_rumor rumor context
  else if bool_decide (d_tag = Some SQUAD_DOC_D_TAG)
  then SquadDoc.process_rumor rumor context
  else if is_typing_indicator rumor then process_typing rumor
  else mret Ignored.

Definition process_rumor `{NostrTags} `{UnicodeCase} `{AppPaths} (rumor : RumorEvent)
    (context : RumorContext) : Act RumorProcessingResult :=
  if ru_kind rumor =? PRIVATE_DIRECT_MESSAGE then process_text_message rumor context
  else if ru_kind rumor =? FILE_ATTACHMENT then process_file_attachment rumor context
  else if ru_kind rumor =? StoredEvents.MESSAGE_EDIT then process_edit_event rumor context
  else if ru_kind rumor =? StoredEvents.REACTION then process_reaction rumor context
  else if ru_kind rumor =? APPLICATION_SPECIFIC
  then if has_dashboard_poll_d_tag (ru_tags rumor)
       then process_dashboard_poll_rumor rumor context
       else process_app_specific rumor context
  else process_unknown_event rumor context.
End rumors.
