(* ===== verification/DocHistory.v ===== *)
(** * What every history of the docs replica keeps

    Relations every [doc_step] and the queue's maintenance keep are kept by every
    history of rumors and commands ([DocKept]): rows only move forward and stay
    removed ([docs_le]), stored rows are valid, nothing else changes. *)

From S2P Require Import Prelude World Json Chat Schema Records Pending ContentPolicy UrlSecrets.
From S2P Require Import DocModel SquadDoc DocSpec.

Class DocKept `{UrlCrate} `{SerdeText} (R : Db → Db → Prop) : Prop := {
  kept_refl :: Reflexive R;
  kept_trans :: Transitive R;
  kept_step w meta role now d d' : doc_step w meta role now d d' → R d d';
  kept_purge now d : R d (set_doc_pending (purge_spec now) d);
  kept_clear k d : R d (set_doc_pending (delete k) d);
  kept_local chats d : R d (set_chats (λ _, chats) d);
}.

Section kept.
Context `{UrlCrate} `{SerdeText} `{Rusqlite} `{Nostr}.

Lemma quiet_doc_load_row id : quiet (load_row id).
Proof. unfold load_row. quiet_tac. Qed.
#[local] Hint Resolve quiet_doc_load_row : quiet.

Lemma quiet_may_add parent role : quiet (may_add parent role).
Proof. unfold may_add, load_policy. quiet_tac. Qed.
#[local] Hint Resolve quiet_may_add : quiet.

Lemma quiet_ensure_may_add parent role : quiet (ensure_may_add parent role).
Proof. unfold ensure_may_add. quiet_tac. Qed.

Lemma quiet_doc_editable_row group parent id npub role :
  quiet (editable_row group parent id npub role).
Proof. unfold editable_row. quiet_tac. Qed.

Lemma quiet_doc_pending_for_stored id : quiet (pending_for_stored id).
Proof. unfold pending_for_stored. quiet_tac. Qed.

Lemma quiet_visible_count parent : quiet (visible_count parent).
Proof. unfold visible_count. quiet_tac. Qed.

Lemma quiet_load_docs parent caller : quiet (load_docs parent caller).
Proof. unfold load_docs. quiet_tac. Qed.

Lemma quiet_roles_of group authors : quiet (roles_of group authors).
Proof. unfold roles_of. apply quiet_foldM. intros roles author. quiet_tac. Qed.

Lemma quiet_mark_editable caller acc doc : quiet (mark_editable caller acc doc).
Proof. unfold mark_editable. quiet_tac. Qed.
#[local] Hint Resolve quiet_ensure_may_add quiet_doc_editable_row quiet_doc_pending_for_stored
  quiet_visible_count quiet_load_docs quiet_roles_of quiet_mark_editable : quiet.

Lemma quiet_list_squad_docs parent : quiet (list_squad_docs parent).
Proof. unfold list_squad_docs. quiet_tac. Qed.
#[local] Hint Resolve quiet_list_squad_docs : quiet.

Context (R : Db → Db → Prop) `{!DocKept R}.

Lemma doc_kept_apply_op w meta role now : keeps R (apply_op w meta role now).
Proof.
  intros o. eapply dwp_mono; [apply doc_apply_op_dwp|]. intros r o' (_ & Hs & _).
  eapply kept_step, Hs.
Qed.

Lemma doc_kept_drain_pending id role_of now : keeps R (drain_pending id role_of now).
Proof.
  unfold drain_pending, drain_one, purge_expired_pending. keeps_tac.
  - apply kept_purge.
  - apply doc_kept_apply_op.
  - apply kept_clear.
Qed.

Lemma doc_kept_store_local_card group msg : keeps R (store_local_card group msg).
Proof.
  unfold store_local_card. keeps_tac.
  - apply keeps_modify. intros d. simpl. apply kept_refl.
  - apply keeps_modify. intros d. destruct (add_message_to_chat _ _ _ _). apply kept_local.
Qed.

Lemma doc_kept_drain_stored id : keeps R (drain_stored id).
Proof. unfold drain_stored, with_conn, now_ms. keeps_tac. apply doc_kept_drain_pending. Qed.

Lemma doc_kept_apply_and_emit w meta role : keeps R (apply_and_emit w meta role).
Proof.
  unfold apply_and_emit, announce, with_conn, now_ms, emit_replica_updated. keeps_tac.
  - apply doc_kept_apply_op.
  - apply doc_kept_drain_stored.
Qed.

Lemma doc_kept_process_rumor rumor context : keeps R (process_rumor rumor context).
Proof. unfold process_rumor, now_ms. keeps_tac. apply doc_kept_apply_and_emit. Qed.

(** The entry points of the module. *)
Inductive Command : Type :=
| CIngest (rumor : RumorEvent) (context : RumorContext)
| CAdd (mls_group_id parent_id doc_id : string) (doc : SquadDocInput)
| CUpdate (mls_group_id parent_id doc_id : string) (doc : SquadDocInput)
| CRemove (mls_group_id parent_id doc_id : string)
| CList (parent_id : string).

Definition run_command (c : Command) : Act unit :=
  match c with
  | CIngest rumor context => process_rumor rumor context ;! mret tt
  | CAdd g p id doc => send_squad_doc_add g p id doc
  | CUpdate g p id doc => send_squad_doc_update g p id doc
  | CRemove g p id => send_squad_doc_remove g p id
  | CList p => list_squad_docs p ;! mret tt
  end.

(** Every call's result is handed back, the next one runs anyway. *)
Definition run_commands (cs : list Command) : Act unit :=
  foldM (λ _ c, attempt (run_command c) ;! mret tt) tt cs.

Lemma doc_kept_run_command c : keeps R (run_command c).
Proof.
  destruct c; simpl; unfold process_rumor, send_squad_doc_add, send_squad_doc_update,
    send_squad_doc_remove, send_wire, with_conn, now_ms; keeps_tac;
    first [apply doc_kept_apply_and_emit|apply doc_kept_store_local_card].
Qed.

Lemma doc_kept_run_commands cs : keeps R (run_commands cs).
Proof. unfold run_commands. keeps_tac. apply doc_kept_run_command. Qed.
End kept.

#[export] Hint Resolve quiet_doc_load_row quiet_may_add quiet_ensure_may_add quiet_doc_editable_row
  quiet_doc_pending_for_stored quiet_visible_count quiet_load_docs quiet_roles_of
  quiet_mark_editable quiet_list_squad_docs : quiet.

(** ** Forward only *)

Definition hide (r : DocSqlRow) : DocSqlRow :=
  mkDocSqlRow (d_parent_id r) (d_mls_group_id r) (d_url r) (d_title r) (d_provider r)
    (d_channel_id r) (d_note r) (d_author_npub r) (d_add_rumor_id r) (d_created_at_ms r)
    (d_updated_at_ms r) (d_updated_by_npub r) true.

(** The later row: same identity; equal stamps mean equal content; a removed doc
    is removed for good, and keeps what it last showed. *)
Record doc_le (r r' : DocSqlRow) : Prop := {
  le_parent : d_parent_id r' = d_parent_id r;
  le_group : d_mls_group_id r' = d_mls_group_id r;
  le_author : d_author_npub r' = d_author_npub r;
  le_add : d_add_rumor_id r' = d_add_rumor_id r;
  le_created : d_created_at_ms r' = d_created_at_ms r;
  le_stamp : d_updated_at_ms r < d_updated_at_ms r' ∨ hide r' = hide r;
  le_hidden : d_hidden r = true → r' = r;
}.

#[export] Instance doc_le_refl : Reflexive doc_le.
Proof. intros r. split; auto. Qed.
#[export] Instance doc_le_trans : Transitive doc_le.
Proof.
  intros r1 r2 r3 H1 H2. assert (d_hidden r1 = true → r3 = r1) as Hh.
  { intros Hr. pose proof (le_hidden _ _ H1 Hr) as ->. by apply H2. }
  destruct H1, H2. split; try congruence; [|done].
  destruct le_stamp0 as [?|E1], le_stamp1 as [?|E2]; [left; lia|left..|right; congruence].
  - apply (f_equal d_updated_at_ms) in E2. simpl in E2. lia.
  - apply (f_equal d_updated_at_ms) in E1. simpl in E1. lia.
Qed.

Definition docs_le (d d' : Db) : Prop :=
  ∀ id r, db_docs d !! id = Some r → ∃ r', db_docs d' !! id = Some r' ∧ doc_le r r'.

Lemma docs_le_put d id r r' :
  db_docs d !! id = Some r → doc_le r r' → docs_le d (put_doc id r' d).
Proof.
  intros Hr Hle k r0 Hk. destruct (decide (k = id)) as [->|Hne].
  - exists r'. rewrite put_doc_lookup. by simplify_eq.
  - exists r0. simpl. by rewrite lookup_insert_ne.
Qed.

Section instances.
Context `{UrlCrate} `{SerdeText}.

Lemma update_doc_le r w f npub :
  d_hidden r = false → d_updated_at_ms r < dw_updated_at_ms w →
  doc_le r (update_doc_row w f npub r).
Proof. intros Hh Hlt. split; try done; [by left|congruence]. Qed.

Lemma remove_doc_le r w npub :
  d_hidden r = false → doc_le r (remove_doc_row w (dw_updated_at_ms w >? d_updated_at_ms r) npub r).
Proof.
  intros Hh. split; try done; [|congruence]. simpl.
  destruct (dw_updated_at_ms w >? d_updated_at_ms r) eqn:E; [left; by apply Z.gtb_lt|by right].
Qed.

#[export] Instance docs_le_kept : DocKept docs_le.
Proof.
  split.
  - intros d id r Hr. exists r. by split.
  - intros d1 d2 d3 H1 H2 id r Hr. destruct (H1 id r Hr) as (r2 & Hr2 & Hle).
    destruct (H2 id r2 Hr2) as (r3 & Hr3 & Hle'). exists r3. split; [done|by etrans].
  - intros w meta role now d d' [|f _ Hn _ _ _|r f _ Hr _ _ _ Hh Hlt|r _ Hr _ _ Hh|f _ _ _ _].
    + intros id r Hr. by exists r.
    + intros id r Hr. exists r. split; [|done]. simpl. rewrite lookup_insert_ne by congruence. done.
    + by apply (docs_le_put d (dw_id w) r), update_doc_le.
    + by apply (docs_le_put d (dw_id w) r), remove_doc_le.
    + intros id r Hr. by exists r.
  - intros now d id r Hr. by exists r.
  - intros k d id r Hr. by exists r.
  - intros chats d id r Hr. by exists r.
Qed.

(** ** Nothing else changes *)

Record doc_frame (d d' : Db) : Prop := {
  fr_events : db_events d' = db_events d;
  fr_rsvps : db_rsvps d' = db_rsvps d;
  fr_pending : db_pending d' = db_pending d;
  fr_policies : db_policies d' = db_policies d;
  fr_groups : db_groups d' = db_groups d;
  fr_chats : db_chats d' = db_chats d;
  fr_settings : db_settings d' = db_settings d;
  fr_device : db_device d' = db_device d;
  fr_account : st_account d' = st_account d;
  fr_signer : st_signer d' = st_signer d;
  fr_engine : st_engine d' = st_engine d;
}.

#[export] Instance doc_frame_kept : DocKept doc_frame.
Proof.
  split; try done.
  - intros d1 d2 d3 [] []. split; congruence.
  - intros w meta role now d d' []; done.
Qed.

(** ** Stored rows are valid *)

Definition doc_row_valid (r : DocSqlRow) : Prop := fields_wf (dr_fields (row_from_sql "" r)).
Definition docs_valid (d : Db) : Prop := map_Forall (λ _, doc_row_valid) (db_docs d).

Lemma written_doc_valid f r :
  fields_wf f → d_url r = df_url f → d_title r = df_title f →
  d_provider r = Provider_as_str (df_provider f) → d_channel_id r = df_channel_id f →
  d_note r = df_note f → doc_row_valid r.
Proof.
  intros Hf H1 H2 H3 H4 H5. unfold doc_row_valid. simpl.
  rewrite H1, H2, H3, H4, H5, Provider_parse_as_str. by destruct f.
Qed.

#[export] Instance docs_valid_kept : DocKept (λ d d', docs_valid d → docs_valid d').
Proof.
  split; try done.
  - by intros d.
  - intros d1 d2 d3 H12 H23 Hv. by apply H23, H12.
  - intros w meta role now d d' [|f _ _ _ Hf _|r f _ _ _ Hf _ _ _|r _ Hr _ _ _|f _ _ _ _] Hv;
      [done|..|done]; apply map_Forall_insert_2; try done.
    + by eapply written_doc_valid; [by eapply doc_fields_from_wire_wf|..].
    + by eapply written_doc_valid; [by eapply doc_fields_from_wire_wf|..].
    + exact (Hv _ r Hr).
Qed.
End instances.

(** * Convergence of the docs shelf

    Removed docs are only ever compared as removed: [≡] on rows forgets what a
    hidden row still holds. Operations of anybody, in any order, lead to
    equivalent rows. *)

(** The columns no operation changes. *)
Definition doc_identity (r : DocSqlRow) : string * string * string * string * Z :=
  (d_parent_id r, d_mls_group_id r, d_author_npub r, d_add_rumor_id r, d_created_at_ms r).

#[export] Instance doc_equiv : Equiv DocSqlRow := λ r r',
  doc_identity r = doc_identity r' ∧ d_hidden r = d_hidden r' ∧ (d_hidden r = false → r = r').

#[export] Instance doc_equivalence : Equivalence (≡@{DocSqlRow}).
Proof.
  split; unfold equiv, doc_equiv.
  - done.
  - intros r r' (Hi & Hh & He). split_and!; [done..|]. intros Hf. symmetry. apply He. congruence.
  - intros r1 r2 r3 (Hi & Hh & He) (Hi' & Hh' & He'). split_and!; [congruence..|].
    intros Hf. rewrite He by done. apply He'. congruence.
Qed.

Section rows.
Context `{UrlCrate} `{SerdeText}.

Record Delivery : Type := mkDelivery {
  dl_wire : DocWire;
  dl_meta : OpMeta;
  dl_role : SquadGroupRole;
  dl_now : Z;
}.

(** What an operation does to the stored row it names. *)
Definition doc_apply (r : DocSqlRow) (x : Delivery) : DocSqlRow :=
  if admitted (dl_wire x) (dl_meta x) (dl_role x) then
    match dw_op (dl_wire x), fields_from_wire (dl_wire x) with
    | Update, Some f => (update_spec r (dl_wire x) f (dl_meta x) (dl_role x)).2
    | Remove, _ => (remove_spec r (dl_wire x) (dl_meta x) (dl_role x)).2
    | _, _ => r
    end
  else r.

Lemma write_allowed_identity r r' w meta role :
  doc_identity r = doc_identity r' → write_allowed r w meta role = write_allowed r' w meta role.
Proof.
  unfold doc_identity, write_allowed, may_write. simpl. intros [= Hp Hg Ha _ _].
  by rewrite Hp, Hg, Ha.
Qed.

Lemma doc_apply_identity r x : doc_identity (doc_apply r x) = doc_identity r.
Proof.
  unfold doc_apply, update_spec, remove_spec.
  repeat (case_match; simpl); done.
Qed.

Lemma doc_apply_hidden r x : d_hidden r = true → doc_apply r x = r.
Proof.
  intros Hh. unfold doc_apply, update_spec, remove_spec. rewrite Hh.
  destruct (admitted _ _ _); [|done].
  destruct (dw_op (dl_wire x)), (fields_from_wire (dl_wire x)); simpl;
    rewrite ?andb_false_r; done.
Qed.

#[export] Instance doc_apply_proper : Proper ((≡) ==> (=) ==> (≡)) doc_apply.
Proof.
  intros r r' Hr x _ <-. destruct Hr as (Hi & Hh & He). destruct (d_hidden r) eqn:E.
  - rewrite !doc_apply_hidden by congruence. split_and!; [done|congruence|congruence].
  - by rewrite He.
Qed.

(** The removals and the updates a row takes. *)
Definition removes (r : DocSqlRow) (x : Delivery) : bool :=
  admitted (dl_wire x) (dl_meta x) (dl_role x) && bool_decide (dw_op (dl_wire x) = Remove)
  && write_allowed r (dl_wire x) (dl_meta x) (dl_role x).
Definition updates (r : DocSqlRow) (x : Delivery) : option DocFields :=
  if admitted (dl_wire x) (dl_meta x) (dl_role x) && bool_decide (dw_op (dl_wire x) = Update)
     && write_allowed r (dl_wire x) (dl_meta x) (dl_role x)
  then fields_from_wire (dl_wire x) else None.
Definition dl_stamp (x : Delivery) : Z := dw_updated_at_ms (dl_wire x).

Lemma doc_apply_eq r x :
  d_hidden r = false →
  doc_apply r x =
    if removes r x then
      remove_doc_row (dl_wire x) (dl_stamp x >? d_updated_at_ms r) (om_signer_npub (dl_meta x)) r
    else match updates r x with
         | Some f => if d_updated_at_ms r <? dl_stamp x
                     then update_doc_row (dl_wire x) f (om_signer_npub (dl_meta x)) r else r
         | None => r
         end.
Proof.
  intros Hh. unfold doc_apply, removes, updates, update_spec, remove_spec, dl_stamp. rewrite Hh.
  destruct (admitted _ _ _), (dw_op (dl_wire x)), (write_allowed _ _ _ _),
    (fields_from_wire (dl_wire x)) as [f|]; simpl; try done.
  all: by destruct (_ <? _).
Qed.

Lemma removes_identity r r' x : doc_identity r = doc_identity r' → removes r x = removes r' x.
Proof. intros Hi. unfold removes. by rewrite (write_allowed_identity r r'). Qed.
Lemma updates_identity r r' x : doc_identity r = doc_identity r' → updates r x = updates r' x.
Proof. intros Hi. unfold updates. by rewrite (write_allowed_identity r r'). Qed.

(** A removal leaves a removed row, whatever came before. *)
Lemma removed_equiv r r' :
  doc_identity r = doc_identity r' → d_hidden r = true → d_hidden r' = true → r ≡ r'.
Proof. intros Hi H1 H2. split_and!; [done|congruence|congruence]. Qed.

Lemma removes_hidden r x : removes r x = true → d_hidden (doc_apply r x) = true.
Proof.
  intros Hx. destruct (d_hidden r) eqn:Hh; [by rewrite doc_apply_hidden|].
  by rewrite doc_apply_eq, Hx.
Qed.

Lemma hidden_stays r x : d_hidden r = true → d_hidden (doc_apply r x) = true.
Proof. intros Hh. by rewrite doc_apply_hidden. Qed.

Definition update_stamp (x : Delivery) : option Z :=
  if decide (dw_op (dl_wire x) = Update) then Some (dl_stamp x) else None.

Lemma updates_op r x f : updates r x = Some f → update_stamp x = Some (dl_stamp x).
Proof.
  unfold updates, update_stamp. destruct (bool_decide (dw_op (dl_wire x) = Update)) eqn:E;
    bool_facts; [by rewrite decide_True|]. by rewrite andb_false_r.
Qed.

(** Any two operations commute, up to what a removed row shows. *)
Lemma doc_apply_comm r x y :
  (∀ t, update_stamp x = Some t → update_stamp y ≠ Some t) →
  doc_apply (doc_apply r x) y ≡ doc_apply (doc_apply r y) x.
Proof.
  intros Hne. destruct (d_hidden r) eqn:Hh; [by rewrite !(doc_apply_hidden r) by done|].
  pose proof (doc_apply_identity r x) as Hix. pose proof (doc_apply_identity r y) as Hiy.
  destruct (removes r x) eqn:Hrx; [|destruct (removes r y) eqn:Hry].
  - apply removed_equiv; [by rewrite !doc_apply_identity|by apply hidden_stays, removes_hidden|].
    apply removes_hidden. by rewrite (removes_identity _ r).
  - apply removed_equiv; [by rewrite !doc_apply_identity| |by apply hidden_stays, removes_hidden].
    apply removes_hidden. by rewrite (removes_identity _ r).
  - assert (∀ z r', doc_identity r' = doc_identity r → d_hidden r' = false → removes r z = false →
      doc_apply r' z = match updates r z with
        | Some f => if d_updated_at_ms r' <? dl_stamp z
                    then update_doc_row (dl_wire z) f (om_signer_npub (dl_meta z)) r' else r'
        | None => r'
        end) as Happ.
    { intros z r' Hi Hh' Hz. rewrite doc_apply_eq, (removes_identity r' r), Hz,
        (updates_identity r' r) by done. done. }
    assert (∀ z, removes r z = false → d_hidden (doc_apply r z) = false) as Hhid.
    { intros z Hz. rewrite (Happ z r) by done. destruct (updates r z); [|done].
      by destruct (_ <? _). }
    rewrite (Happ y (doc_apply r x)), (Happ x (doc_apply r y)) by auto.
    rewrite (Happ x r), (Happ y r) by done.
    destruct (updates r x) as [f|] eqn:Hx, (updates r y) as [g|] eqn:Hy; try done.
    assert (dl_stamp x ≠ dl_stamp y) as Hst.
    { intros Heq. apply (Hne (dl_stamp x)); [by eapply updates_op|].
      rewrite Heq. by eapply updates_op. }
    destruct (d_updated_at_ms r <? dl_stamp x) eqn:E1, (d_updated_at_ms r <? dl_stamp y) eqn:E2;
      simpl; rewrite ?E1, ?E2; try done; bool_facts.
    + change (dw_updated_at_ms (dl_wire x)) with (dl_stamp x).
      change (dw_updated_at_ms (dl_wire y)) with (dl_stamp y).
      destruct (Z.lt_ge_cases (dl_stamp x) (dl_stamp y)).
      * rewrite (proj2 (Z.ltb_lt _ _)), (proj2 (Z.ltb_ge (dl_stamp y) _)) by lia. done.
      * rewrite (proj2 (Z.ltb_ge _ _)), (proj2 (Z.ltb_lt (dl_stamp y) _)) by lia. done.
    + change (dw_updated_at_ms (dl_wire x)) with (dl_stamp x).
      by rewrite (proj2 (Z.ltb_ge _ _)) by lia.
    + change (dw_updated_at_ms (dl_wire y)) with (dl_stamp y).
      by rewrite (proj2 (Z.ltb_ge _ _)) by lia.
Qed.

Definition doc_fold (r : DocSqlRow) (xs : list Delivery) : DocSqlRow := foldl doc_apply r xs.

#[export] Instance doc_fold_proper : Proper ((≡) ==> (=) ==> (≡)) doc_fold.
Proof.
  intros r r' Hr xs _ <-. revert r r' Hr. induction xs as [|x xs IH]; intros r r' Hr; [done|].
  apply IH. by rewrite Hr.
Qed.

Lemma doc_fold_perm xs ys :
  xs ≡ₚ ys → ∀ r, NoDup (omap update_stamp xs) → doc_fold r xs ≡ doc_fold r ys.
Proof.
  induction 1 as [|x xs ys Hp IH|x y xs|xs ys zs Hp1 IH1 Hp2 IH2]; intros r Hnd.
  - done.
  - apply (IH (doc_apply r x)). simpl in Hnd.
    destruct (update_stamp x); [by apply NoDup_cons in Hnd as [_ ?]|done].
  - change (doc_fold (doc_apply (doc_apply r y) x) xs ≡ doc_fold (doc_apply (doc_apply r x) y) xs).
    rewrite doc_apply_comm; [done|]. intros t Hx Hy. simpl in Hnd. rewrite Hx, Hy in Hnd.
    apply NoDup_cons in Hnd as [Hn _]. apply Hn, list_elem_of_here.
  - rewrite IH1 by done. apply IH2. by rewrite <- Hp1.
Qed.
End rows.

(** ** Delivering operations through [apply_op] *)

Section deliver.
Context `{UrlCrate} `{SerdeText} `{Rusqlite}.

Definition deliver (x : Delivery) : Act unit :=
  apply_op (dl_wire x) (dl_meta x) (dl_role x) (dl_now x) ;! mret tt.
Definition deliver_all (xs : list Delivery) : Act unit := foldM (λ _ x, deliver x) tt xs.

Lemma apply_spec_doc d id r x :
  dw_id (dl_wire x) = id → db_docs d !! id = Some r →
  (apply_spec d (dl_wire x) (dl_meta x) (dl_role x) (dl_now x)).2 = put_doc id (doc_apply r x) d.
Proof.
  intros <- Hr. unfold apply_spec, doc_apply.
  destruct (admitted _ _ _); [|by rewrite put_doc_same]. rewrite Hr. unfold stored_spec.
  destruct (dw_op (dl_wire x)), (fields_from_wire (dl_wire x)) as [f|]; simpl;
    try (by rewrite put_doc_same).
  - by destruct (update_spec _ _ _ _ _).
  - by destruct (remove_spec _ _ _ _).
  - by destruct (remove_spec _ _ _ _).
Qed.

Lemma doc_deliver_all_lwp id xs : ∀ r (o : Obs),
  db_docs (o_db o) !! id = Some r → Forall (λ x, dw_id (dl_wire x) = id) xs →
  lwp (deliver_all xs) o (λ _ o', db_docs (o_db o') !! id = Some (doc_fold r xs)).
Proof.
  induction xs as [|x xs IH]; intros r o Hr Hx; unfold deliver_all; simpl; [by apply lwp_ret|].
  apply Forall_cons in Hx as [Hx Hxs]. lstep. unfold deliver at 1. lstep.
  eapply lwp_mono; [apply doc_apply_op_lwp|]. intros a o1 Ha. lstep.
  apply (f_equal snd) in Ha. simpl in Ha. rewrite (apply_spec_doc _ id r) in Ha by done.
  apply (IH (doc_apply r x)); [|done]. rewrite Ha. apply put_doc_lookup.
Qed.
End deliver.
