(* ===== verification/DocTheorems.v ===== *)
(** * The properties of the docs shelf

    Authority, histories, convergence, confinement of the raw links, own writes
    and the listing. *)

From S2P Require Import Prelude World Outputs Json Chat Schema Records Pending.
From S2P Require Import ContentPolicy UrlSecrets UrlTheorems DocModel SquadDoc DocSpec.
From S2P Require Import DocHistory Toy.

Section operation.
Context `{UrlCrate} `{SerdeText} `{Rusqlite}.

(** A docs operation does what its specification says: whatever fails, an [Ok]
    outcome is the specified one, an error changes no doc, and without faults it
    succeeds. *)
Theorem doc_op_refines w meta role now (o : Obs) :
  dwp (apply_op w meta role now) o (λ res o', o_log o' = o_log o ∧
    match res with
    | Ok a => (a, o_db o') = apply_spec (o_db o) w meta role now
    | Err _ => db_docs (o_db o') = db_docs (o_db o)
    end) ∧
  lwp (apply_op w meta role now) o (λ a o',
    (a, o_db o') = apply_spec (o_db o) w meta role now).
Proof.
  split; [|apply doc_apply_op_lwp]. eapply dwp_mono; [apply doc_apply_op_dwp|].
  intros res o' (Hl & _ & Ho). done.
Qed.

(** C9. Authority over docs, whatever fails: only a member writing through the
    squad's own group and in no other's name changes anything; a stored doc
    changes only when it is named by its author or an admin of its own group; a
    new one needs an admin or an unrestricted squad and belongs to its signer. *)
Theorem doc_authority w meta role now (o : Obs) :
  dwp (apply_op w meta role now) o (λ _ o',
    (o_db o' ≠ o_db o → is_member role = true ∧
       side_effect_parent_matches_chat (om_mls_group_id meta) (dw_parent_id w) = true ∧
       (dw_added_by w = None ∨ dw_added_by w = Some (om_signer_npub meta))) ∧
    ∀ id, db_docs (o_db o') !! id ≠ db_docs (o_db o) !! id → dw_id w = id ∧
      match db_docs (o_db o) !! id with
      | Some r => d_hidden r = false ∧ d_mls_group_id r = om_mls_group_id meta ∧
          d_parent_id r = dw_parent_id w ∧
          (om_signer_npub meta = d_author_npub r ∨ is_admin role = true)
      | None => (is_admin role = true ∨
            restrict_doc_add (stored_policy (o_db o) (dw_parent_id w)) = false) ∧
          (d_author_npub <$> db_docs (o_db o') !! id) = Some (om_signer_npub meta)
      end).
Proof.
  eapply dwp_mono; [apply doc_apply_op_dwp|]. intros res o' (_ & Hs & _). revert Hs.
  generalize (o_db o) as d, (o_db o') as d'. intros d d' Hs.
  assert (admitted w meta role = true → is_member role = true ∧
    side_effect_parent_matches_chat (om_mls_group_id meta) (dw_parent_id w) = true ∧
    (dw_added_by w = None ∨ dw_added_by w = Some (om_signer_npub meta))) as Hadm.
  { unfold admitted. intros Ha. bool_facts. done. }
  assert (∀ r, write_allowed r w meta role = true → d_mls_group_id r = om_mls_group_id meta ∧
    d_parent_id r = dw_parent_id w ∧
    (om_signer_npub meta = d_author_npub r ∨ is_admin role = true)) as Hw.
  { unfold write_allowed, may_write. simpl. intros r Hr.
    apply andb_true_iff in Hr as [Hr Ho]. bool_facts. split_and!; [done..|].
    apply orb_true_iff in Ho as [Ho|Ho]; bool_facts; auto. }
  destruct Hs as [|f Ha Hn _ _ Hm|r f Ha Hr _ _ Hwr Hh _|r Ha Hr _ Hwr Hh|f Ha Hn _ _].
  - done.
  - split; [auto|]. intros id ->%put_doc_changed. split; [done|]. rewrite Hn, put_doc_lookup.
    split; [|done]. unfold may_add_spec in Hm. apply andb_true_iff in Hm as [_ Hm].
    apply orb_true_iff in Hm as [?|?]; bool_facts; auto.
  - split; [auto|]. intros id ->%put_doc_changed. split; [done|]. rewrite Hr. auto.
  - split; [auto|]. intros id ->%put_doc_changed. split; [done|]. rewrite Hr. auto.
  - split; [auto|]. done.
Qed.

(** C16. Operations of anybody on a stored doc, in any order, lead to the same doc:
    removed on both sides or on neither, and with the same content while it is
    not removed. Only updates with one stamp may differ. *)
Theorem docs_converge id r (o : Obs) xs ys :
  db_docs (o_db o) !! id = Some r → Forall (λ x, dw_id (dl_wire x) = id) xs → xs ≡ₚ ys →
  NoDup (omap update_stamp xs) →
  ∃ r1 r2, r1 ≡ r2 ∧
    lwp (deliver_all xs) o (λ _ o', db_docs (o_db o') !! id = Some r1) ∧
    lwp (deliver_all ys) o (λ _ o', db_docs (o_db o') !! id = Some r2).
Proof.
  intros Hr Hx Hp Hnd. exists (doc_fold r xs), (doc_fold r ys). split_and!.
  - by apply doc_fold_perm.
  - by apply doc_deliver_all_lwp.
  - apply doc_deliver_all_lwp; [done|]. by rewrite <- Hp.
Qed.
End operation.

Section history.
Context `{UrlCrate} `{SerdeText} `{Rusqlite} `{Nostr}.

(** Whatever rumors and commands come, in whatever order and whatever fails: no
    doc is lost, its squad, group, author and creation never change, its stamp
    only moves forward, and a removed doc never changes again. *)
Theorem doc_history_forward (cs : list Command) (o : Obs) :
  dwp (run_commands cs) o (λ _ o', docs_le (o_db o) (o_db o') ∧ doc_frame (o_db o) (o_db o')).
Proof. apply dwp_and; apply doc_kept_run_commands, _. Qed.

(** If every stored doc is a trimmed http(s) link with a title, it stays so
    through every history. *)
Theorem doc_history_valid (cs : list Command) (o : Obs) :
  docs_valid (o_db o) → dwp (run_commands cs) o (λ _ o', docs_valid (o_db o')).
Proof.
  intros Hv. eapply dwp_mono; [apply (doc_kept_run_commands (λ d d', docs_valid d → docs_valid d'))|].
  intros r o' Hk. by apply Hk.
Qed.

(** ** Confinement of the links *)

(** Everything but the encrypted group message shows ids, counts and the card. *)
Definition shows_no_link (e : Effect) : Prop :=
  match e with
  | SendMls _ _ => True
  | LogInfo line => ∃ op id n, line = replica_log_line op id n
  | Emit event payload => event = REPLICA_UPDATED_EVENT ∧ ∃ parent id,
      payload = JObj [("parentId", JStr parent); ("docId", json_opt JStr id)]
  | SaveMessage _ m | EmitMessage _ _ m => ∃ id parent f,
      m_content m = to_text (added_card_content id parent f)
  | ShowBanner _ _ | SetBadge _ => False
  end.

Lemma emits_drain_stored id : emits shows_no_link (drain_stored id).
Proof.
  unfold drain_stored, with_conn, now_ms, drain_pending, drain_one, purge_expired_pending.
  emits_tac. apply emits_silent. intros o. eapply dwp_mono; [apply doc_apply_op_dwp|].
  by intros r o' (? & _).
Qed.

Lemma emits_apply_and_emit w meta role : emits shows_no_link (apply_and_emit w meta role).
Proof.
  unfold apply_and_emit, announce, with_conn, now_ms, emit_replica_updated.
  apply emits_bind; [|intros applied].
  { emits_tac. apply emits_silent. intros o. eapply dwp_mono; [apply doc_apply_op_dwp|].
    by intros r o' (? & _). }
  emits_tac; try apply emits_drain_stored; simpl; try (by eexists _, _, _);
    (split; [done|]; by eexists _, (Some _)).
Qed.

Lemma emits_store_local_card group msg id parent f :
  m_content msg = to_text (added_card_content id parent f) →
  emits shows_no_link (store_local_card group msg).
Proof. intros Hm. unfold store_local_card. emits_tac; simpl; eauto. Qed.

(** The raw link leaves the replica only inside the encrypted group message:
    logs, events, and the messages saved and shown carry ids, counts and the
    card, whose link is the masked one; so does the card an ingested add yields. *)
Theorem doc_links_confined (cs : list Command) (o : Obs) :
  dwp (run_commands cs) o (λ _ o', ∃ l, o_log o' = o_log o ++ l ∧ Forall shows_no_link l) ∧
  ∀ rumor context, dwp (process_rumor rumor context) o (λ res _, ∀ m,
    res = Ok (SquadRecordCard m) → ∃ id parent f,
      m_content m = to_text (added_card_content id parent f)).
Proof.
  split.
  - revert o. change (emits shows_no_link (run_commands cs)).
    unfold run_commands. apply emits_foldM. intros [] c. apply emits_bind;
      [apply emits_attempt|intros ?; apply emits_quiet, quiet_ret].
    destruct c; simpl; unfold process_rumor, send_squad_doc_add, send_squad_doc_update,
      send_squad_doc_remove, send_wire, with_conn, now_ms; emits_tac; simpl;
      try apply emits_apply_and_emit; try exact I.
    by eapply emits_store_local_card.
  - intros rumor context. unfold process_rumor.
    destruct (cx_conversation_type context); [by apply dwp_ret|].
    destruct (parse_wire _) as [w|]; [|by apply dwp_ret].
    destruct (negb _); [by apply dwp_ret|]. unfold now_ms. dstep. dstep. dstep. apply dwp_ret.
    destruct (negb _); [by apply dwp_ret|]. dstep. dstep; [done|]. dstep. dstep.
    destruct (to_bech32 _) as [signer|]; simpl; [|done]. dstep.
    apply dwp_quiet_any; [auto with quiet|]. intros [role|]; [|done]. dstep.
    apply dwp_mono with (P := λ _ _, True); [by intros ? ?|]. intros [applied|] o1 _; [|done].
    destruct (card_content w applied) as [content|] eqn:Hc; apply dwp_ret; [|done].
    intros m [= <-]. unfold card_content in Hc.
    destruct (dw_op w), applied as [[]| | |]; try done;
      apply bind_Some in Hc as (f & _ & [= <-]); eauto.
Qed.
End history.

(** ** Own writes *)

Section own.
Context `{UrlCrate} `{SerdeText} `{Rusqlite} `{Nostr}.

Lemma doc_now_ms_dwp (o : Obs) (Q : result Z → Obs → Prop) :
  (∀ t, Q (Ok t) o) → dwp now_ms o Q.
Proof. intros HQ. unfold now_ms. dstep. dstep. apply dwp_ret, HQ. Qed.

(** The operation, and whatever the drain brings after it. *)
Lemma apply_and_emit_dwp w meta role (o : Obs) :
  dwp (apply_and_emit w meta role) o (λ res o', ∀ a, res = Ok a →
    ∃ now, a = (apply_spec (o_db o) w meta role now).1 ∧
      docs_le (apply_spec (o_db o) w meta role now).2 (o_db o')).
Proof.
  unfold apply_and_emit, with_conn. dstep. dskip. dstep. apply doc_now_ms_dwp. intros t.
  eapply dwp_mono; [apply doc_apply_op_dwp|]. intros [app|e] o1 (_ & _ & Ha); [|done].
  assert (keeps docs_le (
    let! drained := if settled app then drain_stored (dw_id w) else mret false in
    (if Applied.changed app || drained then announce w else mret tt) ;! mret app)) as Hk.
  { unfold announce, emit_replica_updated, with_conn.
    pose proof (docs_le_kept : DocKept docs_le) as Hd.
    pose proof (kept_refl (R := docs_le)). pose proof (kept_trans (R := docs_le)).
    keeps_tac. apply doc_kept_drain_stored, _. }
  pose proof (Hk o1) as Hle.
  eapply dwp_mono; [apply (dwp_and _ _ _ (λ res _, ∀ b, res = Ok b → b = app) Hle)|].
  - dstep. apply dwp_mono with (P := λ _ _, True); [by intros ? ?|]. intros [dr|e] o2 _; [|done].
    dstep. apply dwp_mono with (P := λ _ _, True); [by intros ? ?|].
    intros [[]|e] o3 _; [|done]. apply dwp_ret. by intros ? [= <-].
  - intros res o2 [Hle2 Heq] b Hb. exists t. rewrite (Heq b Hb), <- Ha. done.
Qed.

Lemma doc_editable_row_dwp group parent id npub role (o : Obs) :
  dwp (editable_row group parent id npub role) o (λ res o', o' = o ∧
    ∀ row, res = Ok row → is_member role = true ∧
      ∃ r, db_docs (o_db o) !! id = Some r ∧ row = row_from_sql id r ∧
        d_parent_id r = parent ∧ d_mls_group_id r = group ∧ d_hidden r = false ∧
        (d_author_npub r = npub ∨ is_admin role = true)).
Proof.
  unfold editable_row. destruct (is_member role); simpl; [|by apply dwp_throw].
  unfold load_row. dstep. dstep; [done|]. dstep. dstep.
  destruct (db_docs (o_db o) !! id) as [r|]; simpl; [|done].
  destruct (_ && _) eqn:Hg; simpl; [|done]. simpl in Hg. bool_facts.
  destruct (negb _ && _) eqn:Ho; [by apply dwp_throw|]. apply dwp_ret. split; [done|].
  intros row [= <-]. split; [done|]. exists r. split_and!; try done.
  apply andb_false_iff in Ho as [Ho|Ho]; bool_facts; auto.
Qed.

(** A removal that reports success: the doc is removed in the local replica,
    whatever the clocks of its other writers said. *)
Theorem doc_remove_lands group parent id (o : Obs) :
  dwp (send_squad_doc_remove group parent id) o (λ res o', res = Ok tt →
    ∃ r', db_docs (o_db o') !! id = Some r' ∧ d_hidden r' = true).
Proof.
  unfold send_squad_doc_remove. dskip. dstep. dstep. unfold ensure_announcements_group.
  destruct (side_effect_parent_matches_chat group parent) eqn:Hp; [|done]. dstep.
  apply dwp_quiet_any; [auto with quiet|]. intros [[pk npub]|]; [|done]. dstep.
  apply dwp_quiet_any; [auto with quiet|]. intros [role|]; [|done]. dstep.
  unfold with_conn at 1. dskip.
  eapply dwp_mono; [apply doc_editable_row_dwp|]. intros [row|] o1 [-> Hrow]; [|done].
  destruct (Hrow row eq_refl) as (Hm & r & Hr & -> & Hpa & Hgr & Hh & Hau).
  dstep. apply doc_now_ms_dwp. intros t. set (w := doc_wire Remove _ _ _ _ _).
  dstep. unfold send_wire. dstep. dstep. destruct (ok_or _ _) as [rumor|]; [|done].
  dstep. dstep; [done|]. apply dwp_ret. dstep.
  eapply dwp_mono; [apply apply_and_emit_dwp|]. intros [app|] o2 Ha; [|done]. apply dwp_ret.
  intros _. destruct (Ha app eq_refl) as (now & _ & Hle). simpl in Hle.
  set (meta := mkOpMeta rumor group npub) in *.
  assert (admitted w meta role = true) as Hadm.
  { unfold admitted. simpl. by rewrite Hm, Hp. }
  assert (write_allowed r w meta role = true) as Hw.
  { unfold write_allowed, may_write. simpl. rewrite !bool_decide_eq_true_2 by done. simpl.
    rewrite Hm. simpl. destruct Hau as [<- | ->]; [by rewrite bool_decide_eq_true_2|].
    apply orb_true_r. }
  assert (apply_spec (o_db o) w meta role now = (Applied.Changed false, put_doc id (remove_doc_row w
    (dw_updated_at_ms w >? d_updated_at_ms r) npub r) (o_db o))) as Hspec.
  { unfold apply_spec. rewrite Hadm. simpl. rewrite Hr. unfold stored_spec, remove_spec. simpl.
    by rewrite Hw, Hh. }
  rewrite Hspec in Hle. simpl in Hle.
  destruct (Hle id _ (put_doc_lookup _ _ _)) as (r' & Hr' & Hle').
  exists r'. split; [done|]. by rewrite (le_hidden _ _ Hle' eq_refl).
Qed.

(** ** The listing *)

(** A listed doc: the row's fields; editable by its author or a group's admin. *)
Definition shown (d : Db) (caller : string) (kr : string * DocSqlRow) (dto : SquadDocDto) : Prop :=
  ∃ is_admin : bool, dto = set_can_edit (doc_dto caller (row_from_sql kr.1 kr.2))
    (bool_decide (d_author_npub kr.2 = caller) || is_admin) ∧
  (is_admin = true → ∃ ids, group_alias d (d_mls_group_id kr.2) ids ∧
     listed_for d (trim (wire_id ids)) caller ∧
     engine_admin d (engine_id ids) (trim caller)).

Definition admin_known (d : Db) (caller : string) (m : gmap string bool) : Prop :=
  ∀ g, m !! g = Some true → ∃ ids, group_alias d g ids ∧
    listed_for d (trim (wire_id ids)) caller ∧ engine_admin d (engine_id ids) (trim caller).

Lemma mark_editable_dwp caller m out kr (o : Obs) :
  admin_known (o_db o) caller m →
  dwp (mark_editable caller (m, out) (doc_dto caller (row_from_sql kr.1 kr.2))) o
    (λ res _, ∀ m' out', res = Ok (m', out') → admin_known (o_db o) caller m' ∧
      ∃ dto, out' = out ++ [dto] ∧ shown (o_db o) caller kr dto).
Proof.
  intros Hm. unfold mark_editable. simpl.
  destruct (bool_decide (d_author_npub kr.2 = caller)) eqn:Ha.
  { apply dwp_ret. intros m' out' [= <- <-]. split; [done|]. eexists. split; [done|].
    exists false. split; [|done]. rewrite Ha. simpl. unfold set_can_edit, doc_dto. simpl.
    by rewrite Ha. }
  assert (∀ b, (b = true → ∃ ids, group_alias (o_db o) (d_mls_group_id kr.2) ids ∧
      listed_for (o_db o) (trim (wire_id ids)) caller ∧
      engine_admin (o_db o) (engine_id ids) (trim caller)) →
    shown (o_db o) caller kr (set_can_edit (doc_dto caller (row_from_sql kr.1 kr.2)) b)) as Hsh
    by (intros b Hb; exists b; by rewrite Ha).
  destruct (m !! d_mls_group_id kr.2) as [b|] eqn:Hb.
  { apply dwp_ret. intros m' out' [= <- <-]. split; [done|]. eexists. split; [done|].
    apply Hsh. intros ->. by apply Hm. }
  dstep. eapply dwp_mono; [apply group_role_closed|]. intros [role|e] o' Hrole; [|done].
  destruct (Hrole role eq_refl) as [Ham Hmem]. apply dwp_ret. intros m' out' [= <- <-].
  assert (is_admin role = true → ∃ ids, group_alias (o_db o) (d_mls_group_id kr.2) ids ∧
    listed_for (o_db o) (trim (wire_id ids)) caller ∧
    engine_admin (o_db o) (engine_id ids) (trim caller)) as Had
    by (intros Hr; destruct (Hmem (Ham Hr)) as (ids & ? & ? & ?); eauto 10).
  split; [|eexists; split; [done|by apply Hsh]].
  intros g. rewrite lookup_insert_Some. intros [[<- ?]|[_ ?]]; auto.
Qed.

(** The shelf of a squad is exactly its docs that are not removed, each once,
    newest first; a doc is editable by its author, and by an admin of its group. *)
Theorem doc_listing_exact parent (o : Obs) :
  dwp (list_squad_docs parent) o (λ res o', o' = o ∧ ∀ out, res = Ok out →
    ∃ caller rows, st_account (o_db o) = Some caller ∧ NoDup rows.*1 ∧
      (∀ k r, (k, r) ∈ rows ↔
         db_docs (o_db o) !! k = Some r ∧ d_parent_id r = parent ∧ d_hidden r = false) ∧
      StronglySorted (ms_le (λ kr : string * DocSqlRow, (- d_updated_at_ms kr.2, kr.1))) rows ∧
      Forall2 (shown (o_db o) caller) rows out).
Proof.
  apply dwp_and; [apply quiet_list_squad_docs|].
  unfold list_squad_docs, get_current_account. dstep. dstep; [done|].
  match goal with Ha : ok_or _ _ = Ok ?a |- _ => rename a into caller;
    assert (st_account (o_db o) = Some caller) as Hc
      by (destruct (st_account (o_db o)); simpl in Ha; congruence); clear Ha end.
  dstep. unfold with_conn, load_docs. dskip. dstep. dstep; [done|]. dstep. dstep; [done|]. apply dwp_ret. dstep.
  set (rows := listed_rows (o_db o) parent).
  eapply (dwp_foldM _ (λ l acc o', o_db o' = o_db o ∧ admin_known (o_db o) caller acc.1 ∧
    ∃ rows1 rows2, rows = rows1 ++ rows2 ∧
      l = doc_dto caller <$> ((λ kr, row_from_sql kr.1 kr.2) <$> rows2) ∧
      Forall2 (shown (o_db o) caller) rows1 acc.2)).
  - intros [m out] o' (_ & _ & rows1 & rows2 & He & Hl & Hs). apply dwp_ret. intros ? [= <-].
    symmetry in Hl. apply fmap_nil_inv, fmap_nil_inv in Hl as ->. rewrite app_nil_r in He.
    simpl in Hs. rewrite <- He in Hs. exists caller, rows. split_and!; [done| | | |done].
    + unfold rows, listed_rows. rewrite order_by_ms_perm.
      eapply sublist_NoDup; [apply (NoDup_fst_map_to_list (db_docs (o_db o)))|].
      apply fmap_sublist, sublist_filter.
    + intros k r. unfold rows, listed_rows, visible_docs.
      rewrite order_by_ms_elem, list_elem_of_filter, elem_of_map_to_list. simpl. tauto.
    + apply order_by_ms_sorted.
  - intros doc l [m out] o' (Hdb & Hm & rows1 & rows2 & He & Hl & Hs).
    destruct rows2 as [|kr rows2]; [done|]. injection Hl as -> ->. simpl in *.
    rewrite <- Hdb in Hm.
    eapply dwp_mono; [exact (dwp_and _ _ _ _ (quiet_mark_editable caller (m, out) _ o')
      (mark_editable_dwp caller m out kr o' Hm))|].
    intros [[m' out']|e] o2 [-> Hres]; [|done]. split; [done|].
    destruct (Hres m' out' eq_refl) as (Hm' & dto & -> & Hsh). rewrite Hdb in *.
    split; [done|]. exists (rows1 ++ [kr]), rows2. split_and!; [by rewrite <- app_assoc|done|].
    apply Forall2_app; [done|]. by constructor.
  - split; [done|]. split; [done|]. exists [], rows. done.
Qed.
End own.

(** A form's doc survives the trip to a peer: the add wire built from validated
    fields is read back as itself, with the same fields. *)
Theorem doc_wire_roundtrip `{UrlCrate} `{SerdeTextLaws} input f id parent npub ms :
  fields_from_input input = Ok f → blank id = false → blank parent = false → i64_ok ms →
  let w := doc_wire Add id parent (Some f) (Some npub) ms in
  parse_wire (to_text (ser_wire w)) = Some w ∧ fields_from_wire w = Some f.
Proof.
  intros Hf Hid Hpar Hms w. split.
  - by apply doc_parse_ser_wire.
  - by eapply fields_from_doc_wire, fields_from_input_wf.
Qed.

(** ** Witnesses *)

Definition toy_doc_input : SquadDocInput :=
  mkDocInput " https://pad.org/a#/2/edit/key " "Minutes" None None.
Definition toy_doc_fields : DocFields :=
  mkDocFields "https://pad.org/a#/2/edit/key" "Minutes" Other None None.
Definition toy_doc_add : DocWire := doc_wire Add "d" "g" (Some toy_doc_fields) (Some "bob") 1000.
Definition toy_doc_row : DocSqlRow :=
  new_doc_row toy_doc_add toy_doc_fields (mkOpMeta "r1" "g" "bob").
Definition toy_shelf : Db := set_docs (<["d" := toy_doc_row]>) toy_squad.

Lemma toy_doc_fields_wf : fields_wf toy_doc_fields.
Proof.
  apply (fields_from_input_wf toy_doc_input). vm_compute. reflexivity.
Qed.

Lemma doc_wire_roundtrip_witness :
  fields_from_input toy_doc_input = Ok toy_doc_fields ∧
  parse_wire (to_text (ser_wire toy_doc_add)) = Some toy_doc_add ∧
  fields_from_wire toy_doc_add = Some toy_doc_fields.
Proof.
  assert (fields_from_input toy_doc_input = Ok toy_doc_fields) as Hf by (vm_compute; reflexivity).
  split; [exact Hf|].
  apply (doc_wire_roundtrip toy_doc_input toy_doc_fields "d" "g" "bob" 1000 Hf);
    [vm_compute; reflexivity|vm_compute; reflexivity|vm_compute; split; congruence].
Defined.

Lemma doc_history_valid_witness :
  docs_valid toy_shelf ∧
  dwp (run_commands [CUpdate "g" "g" "d" toy_doc_input; CRemove "g" "g" "d"]) (toy_obs toy_shelf)
    (λ _ o', docs_valid (o_db o')).
Proof.
  assert (docs_valid toy_shelf) as Hv.
  { apply map_Forall_insert_2; [|apply map_Forall_empty].
    apply (written_doc_valid toy_doc_fields); [apply toy_doc_fields_wf|reflexivity..]. }
  split; [exact Hv|]. apply doc_history_valid. exact Hv.
Defined.

(** An admin's removal and the author's later update. *)
Definition toy_removal : Delivery :=
  mkDelivery (doc_wire Remove "d" "g" None None 1500) (mkOpMeta "r2" "g" "alice") admin 5000.
Definition toy_rename : Delivery :=
  mkDelivery (doc_wire Update "d" "g"
      (Some (mkDocFields "https://pad.org/b" "Agenda" Other None None)) None 2000)
    (mkOpMeta "r3" "g" "bob") member 5000.

Lemma docs_converge_witness :
  d_hidden (doc_fold toy_doc_row [toy_removal; toy_rename]) = true ∧
  ∃ r1 r2, r1 ≡ r2 ∧
    lwp (deliver_all [toy_removal; toy_rename]) (toy_obs toy_shelf)
      (λ _ o', db_docs (o_db o') !! "d" = Some r1) ∧
    lwp (deliver_all [toy_rename; toy_removal]) (toy_obs toy_shelf)
      (λ _ o', db_docs (o_db o') !! "d" = Some r2).
Proof.
  split; [vm_compute; reflexivity|].
  apply (docs_converge "d" toy_doc_row); [reflexivity|repeat constructor|constructor|].
  apply (bool_decide_unpack _). vm_compute. exact I.
Defined.
