(* ===== verification/RumorTheorems.v ===== *)
(** * The properties of the rumor dispatcher

    What receiving a rumor can change: nothing for direct messages and ordinary
    messages, the tables of one record type for tagged rumors, and never anything but
    events for the webview. And what a received file may be called. *)

From Stdlib Require Import Ascii.
From S2P Require Import Prelude World Outputs Json Chat Schema Records VirtualBucket FileNames DashboardPoll.
From S2P Require Import CivilTime EventModel UrlSecrets EventSteps DocHistory Rumors Toy.
From S2P Require Import UrlTheorems.
From S2P Require ContentPolicy SquadEvent SquadEventCommands SquadDoc StoredEvents.

(** Where a rumor goes. *)
Inductive Route : Type := Plain | ToPolls | ToPolicy | ToEvents | ToDocs.
#[export] Instance Route_eq_dec : EqDecision Route.
Proof. solve_decision. Defined.

Definition route (rumor : RumorEvent) (context : RumorContext) : Route :=
  match cx_conversation_type context with
  | CDirectMessage => Plain
  | CMlsGroup =>
      if ru_kind rumor =? APPLICATION_SPECIFIC then
        if decide (d_content (ru_tags rumor) = Some DASHBOARD_POLL_D_TAG) then ToPolls
        else if decide (d_content (ru_tags rumor) = Some SQUAD_CONTENT_POLICY_D_TAG) then ToPolicy
        else if decide (d_content (ru_tags rumor) = Some SQUAD_EVENT_D_TAG) then ToEvents
        else if decide (d_content (ru_tags rumor) = Some SQUAD_DOC_D_TAG) then ToDocs
        else Plain
      else Plain
  end.

(** ** Frames of the polls and of the policy *)

(** All but the poll tables. *)
Definition poll_frame (d d' : Db) : Prop := ∃ p, d' = set_device (put_polls (λ _, p)) d.

#[export] Instance poll_frame_refl : Reflexive poll_frame.
Proof.
  intros d. exists (dv_polls (db_device d)). by destruct d as [? ? ? ? ? ? ? ? ? [] ? ? ? ?].
Qed.
#[export] Instance poll_frame_trans : Transitive poll_frame.
Proof. intros d1 d2 d3 [p ->] [q ->]. by exists q. Qed.

Record policy_frame (d d' : Db) : Prop := {
  pf_docs : db_docs d' = db_docs d;
  pf_doc_pending : db_doc_pending d' = db_doc_pending d;
  pf_groups : db_groups d' = db_groups d;
  pf_chats : db_chats d' = db_chats d;
  pf_settings : db_settings d' = db_settings d;
  pf_device : db_device d' = db_device d;
  pf_account : st_account d' = st_account d;
  pf_signer : st_signer d' = st_signer d;
  pf_loaded : st_chats d' = st_chats d;
  pf_engine : st_engine d' = st_engine d;
}.

#[export] Instance policy_frame_refl : Reflexive policy_frame.
Proof. by split. Qed.
#[export] Instance policy_frame_trans : Transitive policy_frame.
Proof. intros d1 d2 d3 [] []. split; congruence. Qed.

Definition only_shown (e : Effect) : Prop :=
  match e with Emit _ _ | LogInfo _ => True | _ => False end.

Section frames.
Context `{Chrono} `{SerdeText} `{Hashing} `{Rusqlite} `{Nostr} `{UrlCrate}.

Lemma poll_frame_ingest rumor context :
  keeps poll_frame (process_dashboard_poll_rumor rumor context).
Proof.
  unfold process_dashboard_poll_rumor, process_poll_vote, process_poll_create, db_apply_vote,
    db_insert_poll_create, emit_poll_replica_updated. keeps_tac; by eexists.
Qed.

Lemma policy_frame_ingest rumor context :
  keeps policy_frame (ContentPolicy.process_rumor rumor context).
Proof.
  unfold ContentPolicy.process_rumor, ContentPolicy.now_ms, ContentPolicy.apply_and_emit,
    ContentPolicy.apply_policy, ContentPolicy.load_policy, ContentPolicy.upsert_policy,
    ContentPolicy.delete_restricted_events, ContentPolicy.delete_event, with_conn.
  keeps_tac; by split.
Qed.

Lemma shown_polls rumor context :
  emits only_shown (process_dashboard_poll_rumor rumor context).
Proof.
  unfold process_dashboard_poll_rumor, process_poll_vote, process_poll_create, db_apply_vote,
    db_insert_poll_create, emit_poll_replica_updated. emits_tac; exact I.
Qed.

Lemma shown_policy rumor context : emits only_shown (ContentPolicy.process_rumor rumor context).
Proof.
  unfold ContentPolicy.process_rumor, ContentPolicy.now_ms, ContentPolicy.apply_and_emit,
    ContentPolicy.apply_policy, ContentPolicy.load_policy, ContentPolicy.upsert_policy,
    ContentPolicy.delete_restricted_events, ContentPolicy.delete_event, with_conn.
  emits_tac; exact I.
Qed.

Lemma shown_event_op w meta role now : emits only_shown (SquadEvent.apply_op w meta role now).
Proof.
  unfold SquadEvent.apply_op, SquadEvent.insert_create, SquadEvent.apply_write,
    SquadEvent.upsert_rsvp, SquadEvent.queue, SquadEvent.purge_expired_pending. emits_tac.
Qed.

Lemma shown_events rumor context :
  emits only_shown (SquadEventCommands.process_rumor rumor context).
Proof.
  unfold SquadEventCommands.process_rumor, SquadEventCommands.apply_and_emit,
    SquadEventCommands.drain_stored, SquadEventCommands.roles_of, SquadEvent.drain_pending,
    SquadEvent.drain_one, SquadEvent.purge_expired_pending, SquadEventCommands.emit_replica_updated,
    SquadEventCommands.now_ms, with_conn.
  emits_tac; first [apply shown_event_op|exact I].
Qed.

Lemma shown_doc_op w meta role now : emits only_shown (SquadDoc.apply_op w meta role now).
Proof.
  unfold SquadDoc.apply_op, SquadDoc.insert_add, SquadDoc.apply_update, SquadDoc.apply_remove,
    SquadDoc.queue, SquadDoc.purge_expired_pending. emits_tac.
Qed.

Lemma shown_docs rumor context : emits only_shown (SquadDoc.process_rumor rumor context).
Proof.
  unfold SquadDoc.process_rumor, SquadDoc.apply_and_emit, SquadDoc.drain_stored,
    SquadDoc.drain_pending, SquadDoc.drain_one, SquadDoc.purge_expired_pending,
    SquadDoc.announce, SquadDoc.emit_replica_updated, SquadDoc.now_ms, with_conn.
  emits_tac; first [apply shown_doc_op|exact I].
Qed.

(** No handler touches the loaded chats. *)
Definition chats_same (d d' : Db) : Prop := st_chats d' = st_chats d.
#[export] Instance chats_same_refl : Reflexive chats_same.
Proof. done. Qed.
#[export] Instance chats_same_trans : Transitive chats_same.
Proof. intros d1 d2 d3. unfold chats_same. congruence. Qed.

Ltac chats_tac := keeps_tac; first
  [ done | refine (keeps_insert_row _ _ _ _); intros ? ? ? ?; repeat case_match; by simplify_eq/= ].

Lemma chats_same_event_op w meta role now : keeps chats_same (SquadEvent.apply_op w meta role now).
Proof.
  unfold SquadEvent.apply_op, SquadEvent.insert_create, SquadEvent.apply_write,
    SquadEvent.upsert_rsvp, SquadEvent.queue, SquadEvent.purge_expired_pending. chats_tac.
Qed.
#[local] Hint Resolve chats_same_event_op : pacto.

Lemma chats_same_events rumor context :
  keeps chats_same (SquadEventCommands.process_rumor rumor context).
Proof.
  unfold SquadEventCommands.process_rumor, SquadEventCommands.apply_and_emit,
    SquadEventCommands.drain_stored, SquadEventCommands.roles_of, SquadEvent.drain_pending,
    SquadEvent.drain_one, SquadEvent.purge_expired_pending, SquadEventCommands.emit_replica_updated,
    SquadEventCommands.now_ms, with_conn. chats_tac.
Qed.

Lemma chats_same_doc_op w meta role now : keeps chats_same (SquadDoc.apply_op w meta role now).
Proof.
  unfold SquadDoc.apply_op, SquadDoc.insert_add, SquadDoc.apply_update, SquadDoc.apply_remove,
    SquadDoc.queue, SquadDoc.purge_expired_pending. chats_tac.
Qed.
#[local] Hint Resolve chats_same_doc_op : pacto.

Lemma chats_same_docs rumor context : keeps chats_same (SquadDoc.process_rumor rumor context).
Proof.
  unfold SquadDoc.process_rumor, SquadDoc.apply_and_emit, SquadDoc.drain_stored,
    SquadDoc.drain_pending, SquadDoc.drain_one, SquadDoc.purge_expired_pending,
    SquadDoc.announce, SquadDoc.emit_replica_updated, SquadDoc.now_ms, with_conn. chats_tac.
Qed.

(** ** What is left alone *)

Context `{NostrTags} `{UnicodeCase} `{AppPaths}.

Lemma direct_records_quiet rumor context :
  cx_conversation_type context = CDirectMessage →
  quiet (process_dashboard_poll_rumor rumor context) ∧
  quiet (ContentPolicy.process_rumor rumor context) ∧
  quiet (SquadEventCommands.process_rumor rumor context) ∧
  quiet (SquadDoc.process_rumor rumor context).
Proof.
  intros Hd. unfold process_dashboard_poll_rumor, ContentPolicy.process_rumor,
    SquadEventCommands.process_rumor, SquadDoc.process_rumor. rewrite !Hd.
  split_and!; apply quiet_ret.
Qed.

Lemma plain_quiet rumor context : route rumor context = Plain → quiet (process_rumor rumor context).
Proof.
  intros Hr. unfold route in Hr. unfold process_rumor.
  destruct (ru_kind rumor =? PRIVATE_DIRECT_MESSAGE); [unfold process_text_message; quiet_tac|].
  destruct (ru_kind rumor =? FILE_ATTACHMENT);
    [unfold process_file_attachment, path_exists; quiet_tac|].
  destruct (ru_kind rumor =? StoredEvents.MESSAGE_EDIT);
    [unfold process_edit_event, build, StoredEvents.current_timestamp_ms; quiet_tac|].
  destruct (ru_kind rumor =? StoredEvents.REACTION); [unfold process_reaction; quiet_tac|].
  destruct (ru_kind rumor =? APPLICATION_SPECIFIC) eqn:Hk;
    [|unfold process_unknown_event, build, StoredEvents.current_timestamp_ms; quiet_tac].
  assert (quiet (if is_typing_indicator rumor then process_typing rumor else mret Ignored)) as Hty
    by (unfold process_typing; quiet_tac).
  unfold has_dashboard_poll_d_tag, process_app_specific.
  change (find_custom (ru_tags rumor) "d" ≫= tag_content) with (d_content (ru_tags rumor)).
  destruct (cx_conversation_type context) eqn:Hd.
  - destruct (direct_records_quiet rumor context Hd) as (? & ? & ? & ?).
    repeat case_match; done.
  - repeat (case_decide; [done|rewrite bool_decide_eq_false_2 by done]). exact Hty.
Qed.

Lemma route_polls rumor context : route rumor context = ToPolls →
  process_rumor rumor context = process_dashboard_poll_rumor rumor context.
Proof.
  unfold route, process_rumor, has_dashboard_poll_d_tag.
  change (find_custom (ru_tags rumor) "d" ≫= tag_content) with (d_content (ru_tags rumor)).
  destruct (cx_conversation_type context); [done|].
  destruct (Z.eqb_spec (ru_kind rumor) APPLICATION_SPECIFIC) as [->|]; [|done].
  destruct (decide (d_content (ru_tags rumor) = Some DASHBOARD_POLL_D_TAG)) as [Hd|];
    [|intros ?; by repeat case_decide].
  intros _. simpl. by rewrite bool_decide_eq_true_2.
Qed.

(** Tagged rumors of the other records. *)
Lemma route_records rumor context : route rumor context ≠ Plain → route rumor context ≠ ToPolls →
  process_rumor rumor context =
  match route rumor context with
  | ToPolicy => ContentPolicy.process_rumor rumor context
  | ToEvents => SquadEventCommands.process_rumor rumor context
  | _ => SquadDoc.process_rumor rumor context
  end.
Proof.
  unfold route, process_rumor, has_dashboard_poll_d_tag, process_app_specific.
  change (find_custom (ru_tags rumor) "d" ≫= tag_content) with (d_content (ru_tags rumor)).
  destruct (cx_conversation_type context); [done|].
  destruct (Z.eqb_spec (ru_kind rumor) APPLICATION_SPECIFIC) as [->|]; [|done]. intros Hr Hp.
  case_decide; [done|]. simpl. rewrite bool_decide_eq_false_2 by done.
  repeat (case_decide; [by rewrite bool_decide_eq_true_2|rewrite bool_decide_eq_false_2 by done]).
  done.
Qed.

(** What a rumor of each route may change. *)
Definition may_change (rt : Route) (d d' : Db) : Prop :=
  match rt with
  | Plain => d' = d
  | ToPolls => poll_frame d d'
  | ToPolicy => policy_frame d d'
  | ToEvents => event_frame d d' ∧ st_chats d' = st_chats d
  | ToDocs => doc_frame d d' ∧ st_chats d' = st_chats d
  end.

(** C19. Receiving is confined. Whatever a rumor says and whatever fails, a direct
    message, a text, a file, a reaction, an edit, a typing notice and a rumor of an
    unknown kind change nothing and show nothing; a tagged group rumor changes the
    tables of its record only (polls, policy with the events it removes, events,
    docs); and no rumor sends to the network or stores a message: all it can do
    outside is tell the webview or write a log line. *)
Theorem rumor_confined rumor context o :
  dwp (process_rumor rumor context) o (λ _ o',
    may_change (route rumor context) (o_db o) (o_db o') ∧
    (route rumor context = Plain → o' = o) ∧
    ∃ l, o_log o' = o_log o ++ l ∧ Forall only_shown l).
Proof.
  destruct (decide (route rumor context = Plain)) as [Hr|Hr].
  { eapply dwp_mono; [by apply plain_quiet|]. intros r o' ->. rewrite Hr. split_and!; [done..|].
    exists []. rewrite app_nil_r. split; [done|constructor]. }
  assert (emits only_shown (process_rumor rumor context)) as Hs.
  { destruct (decide (route rumor context = ToPolls)) as [Hp|Hp];
      [rewrite route_polls by done; apply shown_polls|].
    rewrite route_records by done.
    destruct (route rumor context); auto using shown_policy, shown_events, shown_docs. }
  eapply dwp_mono; [apply dwp_and; [|apply Hs]|]; [|intros r o' [Hc Hl]; split_and!; [exact Hc|done|exact Hl]].
  destruct (decide (route rumor context = ToPolls)) as [Hp|Hp];
    [rewrite route_polls, Hp by done; apply poll_frame_ingest|].
  rewrite route_records by done. destruct (route rumor context); try done.
  - apply policy_frame_ingest.
  - apply dwp_and; [apply (kept_process_rumor event_frame)|apply chats_same_events].
  - apply dwp_and; [apply (doc_kept_process_rumor doc_frame)|apply chats_same_docs].
Qed.

Lemma file_path_eq id ext :
  (starts_with "/" id = true → file_path id ext = id +:+ "." +:+ ext) ∧
  ("/"%char ∉ bytes id → file_path id ext = join_relative download_dir (id +:+ "." +:+ ext)).
Proof.
  unfold file_path, path_join. rewrite starts_slash. split; [by intros ->|].
  intros Hid. by rewrite no_slash_start.
Qed.

(** What a received file is called. Processing a file rumor changes nothing
    and yields, unless it fails, one attachment. Its display name has no separator, no
    two dots in a row and at most 255 bytes, and a sender's name that is already so
    is kept as it is. Its extension has no slash. An id without a slash is looked for
    directly in the download directory; but the id is the sender's [ox] tag as it
    stands, and one that starts with a slash replaces the directory. *)
Theorem received_file_named rumor context o : ru_kind rumor = FILE_ATTACHMENT →
  let tags := ru_tags rumor in
  dwp (process_rumor rumor context) o (λ r o', o' = o ∧ ∀ res, r = Ok res →
    ∃ m a, res = FileAttachment m ∧ m_attachments m = [a] ∧
      (∀ name, at_file_name a = Some name → safe_name name) ∧
      (∀ name, custom_content tags "filename" = Some name → safe_name name → trim name = name →
         name ≠ "" → at_file_name a = Some name) ∧
      "/"%char ∉ bytes (at_extension a) ∧
      (∀ ox, custom_content tags "ox" = Some ox → at_id a = ox) ∧
      ("/"%char ∉ bytes (at_id a) →
         at_path a = join_relative download_dir (at_id a +:+ "." +:+ at_extension a)) ∧
      (starts_with "/" (at_id a) = true → at_path a = at_id a +:+ "." +:+ at_extension a)).
Proof.
  intros Hk tags. unfold process_rumor. rewrite Hk. simpl.
  assert (quiet (process_file_attachment rumor context)) as Hq
    by (unfold process_file_attachment, path_exists; quiet_tac).
  apply dwp_and; [apply Hq|]. unfold process_file_attachment, path_exists.
  do 2 (dstep; dstep; case_match; [|done]; simpl). dstep; [by dstep|]. dstep. dstep.
  case_match; [|done]. simpl. do 2 (dstep; dstep; [done|]). dstep.
  match goal with |- dwp _ _ ?Q => assert (∀ b, Q (Ok b) o) as Hb end.
  { intros b. apply dwp_ret. intros res [= <-]. eexists _, _. split; [done|]. split; [done|]. simpl.
    split_and!; [..|apply file_path_eq|apply file_path_eq].
    - intros name (x & _ & Hs)%bind_Some. by eapply sanitize_safe.
    - intros name Hn Hs Ht Hne. subst tags. rewrite Hn. simpl. by apply sanitize_keeps.
    - apply extension_clean.
    - intros ox Hox. unfold file_id. subst tags. by rewrite Hox. }
  destruct (custom_content (ru_tags rumor) "ox"); [dstep; dstep; dstep|dstep]; apply Hb.
Qed.
End frames.

(** ** A file from a peer *)

#[export] Instance toy_case : UnicodeCase := { to_lowercase := to_ascii_lowercase }.
#[export] Instance toy_tags : NostrTags := { is_reply t := bool_decide (t !! 3%nat = Some "reply") }.
#[export] Instance toy_paths : AppPaths := { download_dir := "/home/u/Downloads/pacto" }.

Definition toy_group : RumorContext := mkRumorContext "bob" false "g" CMlsGroup.
Definition toy_file : RumorEvent :=
  mkRumorEvent "r" FILE_ATTACHMENT "https://files.example/x"
    [["decryption-key"; "k"]; ["decryption-nonce"; "n"]; ["file-type"; "image/png"];
     ["filename"; "../../a/c...txt"]; ["ox"; "/etc/hosts"]] 5 "bob".

Lemma received_file_named_witness :
  ∃ m a, (process_rumor toy_file toy_group (mkWorld (toy_obs toy_squad) [] [])).1 =
      Ok (FileAttachment m) ∧ m_attachments m = [a] ∧
    at_file_name a = Some "c.txt" ∧ safe_name "c.txt" ∧ at_path a = "/etc/hosts.png".
Proof.
  destruct (received_file_named toy_file toy_group (toy_obs toy_squad)
    eq_refl (mkWorld (toy_obs toy_squad) [] []) eq_refl) as [_ Hf].
  assert (∃ m, (process_rumor toy_file toy_group (mkWorld (toy_obs toy_squad) [] [])).1 =
    Ok (FileAttachment m) ∧ (at_file_name <$> m_attachments m) = [Some "c.txt"] ∧
    (at_extension <$> m_attachments m) = ["png"]) as (m & Hm & Hn & He)
    by (eexists; split; [vm_compute; reflexivity|split; reflexivity]).
  destruct (Hf _ Hm) as (m' & a & [= <-] & Ha & Hs & _ & _ & Hid & _ & Hp).
  specialize (Hid "/etc/hosts" eq_refl). rewrite Hid in Hp. rewrite Ha in Hn, He.
  injection Hn as Hn. injection He as He. exists m, a.
  split; [exact Hm|]. split; [exact Ha|]. split; [exact Hn|]. split; [by apply Hs|].
  rewrite He in Hp. by apply Hp.
Defined.
