(* ===== verification/PollTheorems.v ===== *)
(** * The properties of the dashboard polls

    Polls never change, votes only move to later stamps and always name an option;
    the order votes arrive in does not matter; the tally counts every voter once. *)

From S2P Require Import Prelude World Lww Json Chat Schema Records VirtualBucket.
From S2P Require Import FileNames DashboardPoll CivilTime EventModel UrlSecrets EventSteps.
From S2P Require Import EventSteps DocHistory Rumors RumorTheorems Toy UrlTheorems.
From S2P Require SquadCatalogTheorems.


(** * Facts about the dashboard polls

    The effectful poll operations against pure ones on the two tables, for every rumor
    and whatever fails, and the invariant of the tables. *)

Definition poll_tables (d : Db) : Polls := dv_polls (db_device d).

Lemma upsert_vote_offer k v m : upsert_vote k v m = offer vo_voted_at_ms (Some (k, v)) m.
Proof.
  unfold upsert_vote, offer, newer. destruct (m !! k) as [old|] eqn:Hk; simpl; [|done].
  rewrite Z.ltb_antisym. destruct (_ <=? _); simpl; [done|]. by rewrite insert_id.
Qed.

Section polls.
Context `{SerdeText} `{Hashing} `{Nostr}.

(** ** What one rumor offers *)

Definition cast_of (parent_id poll_id voter option_id vote_id : string) (ms : Z)
    (t : gmap string PollSqlRow) : option ((string * string) * VoteSqlRow) :=
  row ← t !! poll_id;
  if bool_decide (trim (po_parent_id row) = trim parent_id)
     && option_id_valid_for_poll (po_options_json row) option_id
  then Some ((poll_id, voter), mkVoteRow option_id vote_id ms)
  else None.

Definition vote_cast (rumor : RumorEvent) (t : gmap string PollSqlRow)
    : option ((string * string) * VoteSqlRow) :=
  vote ← try_parse_vote (ru_content rumor);
  voter ← npub_of rumor;
  cast_of (vw_parent_id vote) (vw_poll_id vote) voter (vw_option_id vote) (ru_id rumor)
    (wrap64 (extract_millisecond_timestamp rumor)) t.

Definition poll_row (group id : string) (ms : Z) (npub : string) (p : DashboardPollCreatedPayload)
    : PollSqlRow :=
  mkPollRow (pp_parent_id p) group (pp_title p) (pp_description p)
    (to_text (ser_options (pp_options p))) ms npub id (payload_hash p).

(** First create wins. *)
Definition add_poll (id : string) (r : PollSqlRow) (t : gmap string PollSqlRow)
    : gmap string PollSqlRow :=
  match t !! id with Some _ => t | None => <[id := r]> t end.

Definition ingest_spec (rumor : RumorEvent) (context : RumorContext) (t : Polls) : Polls :=
  match route rumor context, try_parse_vote (ru_content rumor) with
  | ToPolls, Some _ => mkPolls (pl_polls t)
      (offer vo_voted_at_ms (vote_cast rumor (pl_polls t)) (pl_votes t))
  | ToPolls, None =>
      match try_parse_create_announce (ru_content rumor), npub_of rumor with
      | Some env, Some npub =>
          let p := pe_payload env in
          mkPolls (add_poll (pp_poll_id p) (poll_row (cx_conversation_id context) (ru_id rumor)
            (wrap64 (extract_millisecond_timestamp rumor)) npub p) (pl_polls t)) (pl_votes t)
      | _, _ => t
      end
  | _, _ => t
  end.

Lemma with_tables_id d : set_device (put_polls (λ _, poll_tables d)) d = d.
Proof. by destruct d as [? ? ? ? ? ? ? ? ? [] ? ? ? ?]. Qed.

Lemma create_dwp group id ms npub p o :
  dwp (db_insert_poll_create group id ms npub p) o (λ r o',
    o_log o' = o_log o ∧
    match r with
    | Err _ => o' = o
    | Ok up =>
        poll_tables (o_db o') =
          mkPolls (add_poll (pp_poll_id p) (poll_row group id ms npub p) (polls (o_db o))) (votes (o_db o)) ∧
        (up = IgnoredConflictingPayload → o' = o)
    end).
Proof.
  unfold db_insert_poll_create. dskip. dstep. dstep; [done|]. unfold add_poll.
  destruct (polls (o_db o) !! pp_poll_id p) as [r|] eqn:Hp; simpl.
  - dstep. split; [done|]. split; [|done]. by destruct (o_db o) as [? ? ? ? ? ? ? ? ? [? ? ? ? ? ? ? ? ? ? ? []] ? ? ? ?].
  - dstep. dstep; [done|]. by dstep.
Qed.

Lemma same_tables d : poll_tables d = mkPolls (polls d) (votes d).
Proof. by destruct d as [? ? ? ? ? ? ? ? ? [? ? ? ? ? ? ? ? ? ? ? []] ? ? ? ?]. Qed.

Lemma vote_dwp parent poll voter option_id vid ms o :
  dwp (db_apply_vote parent poll voter option_id vid ms) o (λ r o',
    match r with
    | Err _ => o' = o
    | Ok _ => poll_tables (o_db o') = mkPolls (polls (o_db o))
        (offer vo_voted_at_ms (cast_of parent poll voter option_id vid ms (polls (o_db o)))
           (votes (o_db o)))
    end).
Proof.
  unfold db_apply_vote, cast_of. dskip. dstep. dstep; [done|].
  destruct (polls (o_db o) !! poll) as [row|]; simpl; [|dstep; apply same_tables].
  destruct (bool_decide _); simpl; [|dstep; apply same_tables].
  destruct (option_id_valid_for_poll _ _); simpl; [|dstep; apply same_tables].
  dstep. dstep; [done|]. dstep.
  exact (f_equal (mkPolls (polls (o_db o))) (upsert_vote_offer (poll, voter) (mkVoteRow option_id vid ms) _)).
Qed.

Lemma quiet_emit_tables parent poll o (Q : result unit → World.Obs Db Effect → Prop) :
  (∀ l, Q (Ok tt) (mkObs (o_db o) l)) → dwp (emit_poll_replica_updated parent poll) o Q.
Proof.
  intros HQ. assert (Q (Ok tt) o) by (destruct o; apply HQ).
  unfold emit_poll_replica_updated. dstep. dstep. dstep; simpl; [by dstep|]. by dstep.
Qed.

Lemma poll_ingest_dwp rumor context o : route rumor context = ToPolls →
  dwp (process_dashboard_poll_rumor rumor context) o (λ r o',
    poll_tables (o_db o') =
      if is_okb r then ingest_spec rumor context (poll_tables (o_db o)) else poll_tables (o_db o)).
Proof.
  intros Hr. unfold process_dashboard_poll_rumor, ingest_spec, vote_cast. rewrite Hr.
  destruct (cx_conversation_type context) eqn:Hc; [by unfold route in Hr; rewrite Hc in Hr|].
  dstep. dstep; [done|]. destruct (try_parse_vote (ru_content rumor)) as [vote|]; simpl.
  - unfold process_poll_vote, npub_of. dstep. dstep.
    destruct (to_bech32 (ru_pubkey rumor)) as [voter|e]; simpl; [|done].
    dstep. eapply dwp_mono; [apply vote_dwp|]. intros [b|e] o' Ho'; simpl; [|by rewrite Ho'].
    dstep. destruct b; [apply quiet_emit_tables; intros l|dstep]; by dstep.
  - destruct (try_parse_create_announce (ru_content rumor)) as [env|]; simpl; [|by dstep].
    unfold process_poll_create, npub_of. dstep. dstep.
    destruct (to_bech32 (ru_pubkey rumor)) as [npub|e]; simpl; [|done].
    dstep. eapply dwp_mono; [apply create_dwp|]. intros [up|e] o' (_ & Ho'); simpl; [|by rewrite Ho'].
    destruct Ho' as [Ho' _]. destruct (bool_decide _); [by dstep|].
    dstep. apply quiet_emit_tables. intros l. by dstep.
Qed.
End polls.

Section ingest.
Context `{Chrono} `{SerdeText} `{Hashing} `{Rusqlite} `{Nostr} `{UrlCrate}.
Context `{NostrTags} `{UnicodeCase} `{AppPaths}.

(** What a rumor does to the poll tables: what [ingest_spec] says, or nothing when
    it fails. *)
Lemma process_rumor_polls rumor context o :
  dwp (process_rumor rumor context) o (λ r o',
    poll_tables (o_db o') =
      if is_okb r then ingest_spec rumor context (poll_tables (o_db o)) else poll_tables (o_db o)).
Proof.
  destruct (decide (route rumor context = ToPolls)) as [Hp|Hp];
    [rewrite route_polls by done; by apply poll_ingest_dwp|].
  assert (∀ t, ingest_spec rumor context t = t) as Hid
    by (intros t; unfold ingest_spec; by destruct (route rumor context)).
  destruct (decide (route rumor context = Plain)) as [Hr|Hr].
  { eapply dwp_mono; [by apply plain_quiet|]. intros r o' ->. rewrite Hid. by destruct (is_okb r). }
  rewrite route_records by done.
  assert (∀ r d d', db_device d' = db_device d →
    poll_tables d' = if is_okb (A:=RumorProcessingResult) r then ingest_spec rumor context (poll_tables d) else poll_tables d)
    as Hd by (intros r d d' He; rewrite Hid; unfold poll_tables; rewrite He; by destruct (is_okb r)).
  destruct (route rumor context); try done.
  - eapply dwp_mono; [apply policy_frame_ingest|]. intros r o' []. by apply Hd.
  - eapply dwp_mono; [apply (kept_process_rumor event_frame)|]. intros r o' []. by apply Hd.
  - eapply dwp_mono; [apply (doc_kept_process_rumor doc_frame)|]. intros r o' []. by apply Hd.
Qed.
End ingest.

(** ** Stored polls and votes *)

Lemma de_ser_option o : de_option (ser_option o) = Some o.
Proof.
  unfold de_option, ser_option.
  assert (NoDup (option_members o).*1) as Hnd
    by (change (NoDup ["id"; "label"]); apply (bool_decide_unpack _); vm_compute; exact I).
  remember (obj_fields (option_members o)) as fs eqn:Hfs.
  eapply option_bind_step; [reflexivity|]. repeat serde_member Hfs Hnd. clear. by destruct o.
Qed.

Section stored.
Context `{SerdeTextLaws} `{Hashing}.

Lemma options_roundtrip opts : options_of (to_text (ser_options opts)) = Some opts.
Proof.
  unfold options_of. rewrite of_to_text.
  - simpl. induction opts as [|o opts IH]; [done|]. cbn [fmap list_fmap mapM].
    rewrite de_ser_option. simpl. simpl in IH. by rewrite IH.
  - apply forallb_forall. by intros x (o & -> & _)%list_elem_of_In%list_elem_of_fmap.
Qed.

Record polls_ok (t : Polls) : Prop := {
  ok_polls : ∀ id r, pl_polls t !! id = Some r →
    blank (po_title r) = false ∧
    po_content_hash r = hash_poll_payload (po_title r) (po_description r) (po_options_json r) ∧
    ∃ opts, options_of (po_options_json r) = Some opts ∧ validate_options opts = true;
  ok_votes : ∀ id voter v, pl_votes t !! (id, voter) = Some v →
    ∃ r, pl_polls t !! id = Some r ∧
      option_id_valid_for_poll (po_options_json r) (vo_option_id v) = true;
}.

(** Polls stay as they are; votes stay or give way to one at least as late. *)
Record polls_le (t t' : Polls) : Prop := {
  le_polls : pl_polls t ⊆ pl_polls t';
  le_votes : ∀ k v, pl_votes t !! k = Some v →
    ∃ v', pl_votes t' !! k = Some v' ∧ vo_voted_at_ms v ≤ vo_voted_at_ms v';
}.

Definition polls_step (t t' : Polls) : Prop := polls_le t t' ∧ (polls_ok t → polls_ok t').

#[export] Instance polls_step_refl : Reflexive polls_step.
Proof. intros t. split; [|done]. split; [done|]. intros k v Hv. by exists v. Qed.
#[export] Instance polls_step_trans : Transitive polls_step.
Proof.
  intros t1 t2 t3 [[Hp1 Hv1] Ho1] [[Hp2 Hv2] Ho2]. split; [|by auto]. split; [by etrans|].
  intros k v (v2 & Hk & ?)%Hv1. destruct (Hv2 k v2 Hk) as (v3 & ? & ?). exists v3. split; [done|lia].
Qed.

Definition payload_ok (p : DashboardPollCreatedPayload) : Prop :=
  blank (pp_title p) = false ∧ validate_options (pp_options p) = true.

Lemma add_poll_subseteq id r (t : gmap string PollSqlRow) : t ⊆ add_poll id r t.
Proof. unfold add_poll. destruct (t !! id) eqn:Ht; [done|]. by apply insert_subseteq. Qed.

Lemma add_poll_step group id ms npub p t : payload_ok p →
  polls_step t (mkPolls (add_poll (pp_poll_id p) (poll_row group id ms npub p) (pl_polls t)) (pl_votes t)).
Proof.
  intros [Ht Ho]. split; [split; [apply add_poll_subseteq|]; intros k v Hv; by exists v|].
  intros [Hp Hv]. split; simpl.
  - intros k r. unfold add_poll. destruct (pl_polls t !! pp_poll_id p) eqn:He; [by apply Hp|].
    intros [[<- <-]|[_ Hr]]%lookup_insert_Some; [|by apply Hp in Hr]. simpl.
    split; [done|]. split; [done|]. exists (pp_options p). split; [apply options_roundtrip|done].
  - intros k voter v Hk. destruct (Hv k voter v Hk) as (r & Hr & Hok). exists r. split; [|done].
    by eapply lookup_weaken, add_poll_subseteq.
Qed.

Lemma cast_step parent poll voter option_id vid ms t :
  polls_step t (mkPolls (pl_polls t)
    (offer vo_voted_at_ms (cast_of parent poll voter option_id vid ms (pl_polls t)) (pl_votes t))).
Proof.
  unfold cast_of. destruct (pl_polls t !! poll) as [row|] eqn:Hr; simpl; [|by destruct t].
  destruct (bool_decide _); simpl; [|by destruct t].
  destruct (option_id_valid_for_poll _ _) eqn:Ho; simpl; [|by destruct t].
  unfold newer. set (v := mkVoteRow option_id vid ms).
  destruct (pl_votes t !! (poll, voter)) as [old|] eqn:Hold;
    [destruct (Z.ltb_spec (vo_voted_at_ms v) (vo_voted_at_ms old)); simpl;
     [rewrite insert_id by done; by destruct t|]|]; simpl.
  all: split; [split; [done|]|]; simpl.
  - intros k w Hw. destruct (decide (k = (poll, voter))) as [->|Hne];
      [exists v; rewrite lookup_insert_eq; split; [done|]; congruence|].
    exists w. by rewrite lookup_insert_ne.
  - intros [Hp Hv]. split; [done|]. simpl.
    intros id vt w [[[= <- <-] <-]|[_ Hw]]%lookup_insert_Some; [by exists row|by eapply Hv].
  - intros k w Hw. exists w. rewrite lookup_insert_ne; [done|congruence].
  - intros [Hp Hv]. split; [done|]. simpl.
    intros id vt w [[[= <- <-] <-]|[_ Hw]]%lookup_insert_Some; [by exists row|by eapply Hv].
Qed.

Lemma parsed_payload_ok content env :
  try_parse_create_announce content = Some env → payload_ok (pe_payload env).
Proof.
  unfold try_parse_create_announce. intros (v & _ & Hv)%bind_Some.
  destruct (negb (bool_decide _)); [done|].
  destruct (blank (pp_title (pe_payload v))) eqn:Ht; [by rewrite orb_true_r in Hv|].
  destruct (_ || _); [done|]. destruct (validate_options _) eqn:Ho; simplify_eq/=. done.
Qed.

Lemma ingest_step `{Nostr} rumor context t : polls_step t (ingest_spec rumor context t).
Proof.
  unfold ingest_spec, vote_cast. destruct (route rumor context); try done.
  destruct (try_parse_vote (ru_content rumor)) as [vote|]; simpl.
  - destruct (npub_of rumor); simpl; [apply cast_step|by destruct t].
  - destruct (try_parse_create_announce _) as [env|] eqn:He; [|done].
    destruct (npub_of rumor); [|done]. apply add_poll_step. by eapply parsed_payload_ok.
Qed.
End stored.
Section history.
Context `{Chrono} `{SerdeTextLaws} `{SerdeErrors} `{Hashing} `{Rusqlite} `{Nostr} `{UrlCrate}.
Context `{NostrTags} `{UnicodeCase} `{AppPaths}.

Inductive PollOp : Type :=
| PIngest (rumor : RumorEvent) (context : RumorContext)
| PCreate (mls_group_id parent_id poll_id title description : string) (opts : list PollOptionWire)
| PVote (mls_group_id parent_id poll_id option_id : string)
| PList (parent_id : string).

Definition run_op (op : PollOp) : Act unit :=
  match op with
  | PIngest rumor context => process_rumor rumor context ;! World.mret tt
  | PCreate g p id t ds opts => send_dashboard_poll_create g p id t ds opts
  | PVote g p id o => send_dashboard_poll_vote g p id o
  | PList p => list_dashboard_polls p ;! World.mret tt
  end.

(** Every call's result is handed back, the next one runs anyway. *)
Definition run_ops (ops : list PollOp) : Act unit :=
  foldM (λ _ op, attempt (run_op op) ;! World.mret tt) tt ops.

Definition kept (d d' : Db) : Prop := polls_step (poll_tables d) (poll_tables d').
#[local] Instance kept_refl : Reflexive kept.
Proof. intros d. unfold kept. done. Qed.
#[local] Instance kept_trans : Transitive kept.
Proof. intros d1 d2 d3. unfold kept. apply transitivity. Qed.

Lemma kept_eq d d' : poll_tables d' = poll_tables d → kept d d'.
Proof. unfold kept. by intros ->. Qed.

Lemma kept_ingest rumor context : keeps kept (process_rumor rumor context).
Proof.
  intros o. eapply dwp_mono; [apply process_rumor_polls|]. intros r o' Ht. unfold kept. rewrite Ht.
  destruct (is_okb r); [apply ingest_step|done].
Qed.

Lemma kept_create group id ms npub p : payload_ok p →
  keeps kept (db_insert_poll_create group id ms npub p).
Proof.
  intros Hp o. eapply dwp_mono; [apply create_dwp|]. intros [up|e] o' [_ Ho'].
  - destruct Ho' as [Ht _]. unfold kept. rewrite Ht, same_tables. by apply (add_poll_step _ _ _ _ p (mkPolls _ _)).
  - by rewrite Ho'.
Qed.

Lemma kept_vote parent poll voter option_id vid ms :
  keeps kept (db_apply_vote parent poll voter option_id vid ms).
Proof.
  intros o. eapply dwp_mono; [apply vote_dwp|]. intros [b|e] o' Ho'; [|by rewrite Ho'].
  unfold kept. rewrite Ho', same_tables. apply (cast_step _ _ _ _ _ _ (mkPolls _ _)).
Qed.

Lemma kept_local_card group msg : keeps kept (store_local_card group msg).
Proof.
  unfold store_local_card. keeps_tac; refine (keeps_modify kept _ _); intros d; [done|].
  apply kept_eq. by destruct (add_message_to_chat _ _ _ _).
Qed.
#[local] Hint Resolve kept_ingest kept_vote kept_local_card : pacto.

Lemma quiet_list_polls parent : quiet (list_dashboard_polls parent).
Proof. unfold list_dashboard_polls. quiet_tac. Qed.
#[local] Hint Resolve quiet_list_polls : quiet.

Lemma kept_run_op op : keeps kept (run_op op).
Proof.
  destruct op as [rumor context|g p id t ds opts|g p id oid|p]; simpl; [keeps_tac| |
    unfold send_dashboard_poll_vote, emit_poll_replica_updated, signer_key, final_time; keeps_tac|keeps_tac].
  unfold send_dashboard_poll_create. apply (keeps_bind kept); [keeps_tac|intros _].
  destruct (blank t) eqn:Ht; [keeps_tac|]. destruct (validate_options opts) eqn:Ho; simpl; [|keeps_tac].
  unfold emit_poll_replica_updated, signer_key, final_time. keeps_tac. by apply kept_create.
Qed.

(** C25. What a replica knows of a poll is never taken back. After any history of
    rumors of any kind and of poll commands, whatever fails, every stored poll is
    as it was, and every vote stands or has given way to a vote of the same
    voter at least as late. If at the start every poll has a title, its hash and two or
    more readable options and every vote names an option of a stored poll, it is so at
    the end. *)
Theorem polls_invariant ops o :
  dwp (run_ops ops) o (λ _ o',
    polls_le (poll_tables (o_db o)) (poll_tables (o_db o')) ∧
    (polls_ok (poll_tables (o_db o)) → polls_ok (poll_tables (o_db o')))).
Proof.
  revert o. change (keeps kept (run_ops ops)). unfold run_ops. keeps_tac. apply kept_run_op.
Qed.

(** ** Votes in any order *)

(** A vote of a group member, readable and with an npub. *)
Definition vote_rumor (rc : RumorEvent * RumorContext) : Prop :=
  route rc.1 rc.2 = ToPolls ∧ is_Some (try_parse_vote (ru_content rc.1)) ∧ is_Some (npub_of rc.1).

Definition ingest (rcs : list (RumorEvent * RumorContext)) : Act unit :=
  foldM (λ _ rc, process_rumor rc.1 rc.2 ;! World.mret tt) tt rcs.

Lemma lwp_emit_tables parent poll o (Q : unit → World.Obs Db Effect → Prop) :
  (∀ l, Q tt (mkObs (o_db o) l)) → lwp (emit_poll_replica_updated parent poll) o Q.
Proof. intros HQ. unfold emit_poll_replica_updated. lstep. lstep. lstep. simpl. by lstep. Qed.

Lemma lwp_vote rc o : vote_rumor rc → is_Some (st_account (o_db o)) →
  lwp (process_rumor rc.1 rc.2) o (λ _ o', st_account (o_db o') = st_account (o_db o)).
Proof.
  destruct rc as [rumor context]. intros (Hr & [vote Hv] & [npub Hn]) Ha. simpl in *.
  rewrite route_polls by done. unfold process_dashboard_poll_rumor, route in *.
  destruct (cx_conversation_type context); [done|]. rewrite Hv. lstep. lstep.
  unfold process_poll_vote, npub_of in *. lstep. destruct (to_bech32 _) as [voter|]; [|done].
  eapply lwp_of_result; [done|]. lstep.
  assert (∀ b : bool, ∀ o', st_account (o_db o') = st_account (o_db o) →
    lwp ((if b then emit_poll_replica_updated (vw_parent_id vote) (Some (vw_poll_id vote))
          else World.mret tt) ;! World.mret DashboardPollVoteIngested) o'
      (λ _ o'', st_account (o_db o'') = st_account (o_db o))) as Hend.
  { intros b o' Ho'. lstep. destruct b; [apply lwp_emit_tables; intros l|lstep]; by lstep. }
  unfold db_apply_vote. lstep. apply lwp_connection; [done|]. lstep. lstep.
  destruct (polls _ !! _) as [row|]; [|lstep; by apply (Hend false)].
  destruct (negb _); [lstep; by apply (Hend false)|]. destruct (negb _); [lstep; by apply (Hend false)|].
  lstep. lstep. lstep. by apply (Hend true).
Qed.

(** What the votes of a list offer, given the polls. *)
Definition casts (t : gmap string PollSqlRow) (rcs : list (RumorEvent * RumorContext))
    : list (option ((string * string) * VoteSqlRow)) :=
  (λ rc, vote_cast rc.1 t) <$> rcs.

Lemma lwp_votes rcs : ∀ o, Forall vote_rumor rcs → is_Some (st_account (o_db o)) →
  lwp (ingest rcs) o (λ _ o', poll_tables (o_db o') = mkPolls (polls (o_db o))
    (foldl (flip (offer vo_voted_at_ms)) (votes (o_db o)) (casts (polls (o_db o)) rcs))).
Proof.
  induction rcs as [|rc rcs IH]; intros o Hf Ha; simpl.
  - unfold ingest. simpl. lstep. apply same_tables.
  - apply Forall_cons in Hf as [Hrc Hf]. unfold ingest. cbn [foldM]. lstep. lstep.
    eapply lwp_mono; [apply lwp_dwp; [by apply lwp_vote|apply process_rumor_polls]|].
    intros r o1 [Ha1 Ht]. simpl in Ht. lstep. rewrite <- Ha1 in Ha.
    eapply lwp_mono; [by apply IH|]. intros _ o2 ->.
    destruct Hrc as (Hr & [vote Hv] & _). unfold ingest_spec in Ht. rewrite Hr, Hv, !same_tables in Ht.
    injection Ht as -> ->. done.
Qed.

(** C24. Votes converge. Delivered in any two orders, the same readable votes leave two
    replicas of the same polls with the same votes, unless two of them by one voter in
    one poll have the same stamp; and whatever the stamps, each voter's vote is the last
    of the latest ones that name an option of their poll. *)
Theorem votes_converge rcs rcs' o :
  Forall vote_rumor rcs → rcs ≡ₚ rcs' → is_Some (st_account (o_db o)) →
  let offers k := option_list (votes (o_db o) !! k) ++ offers_for k (casts (polls (o_db o)) rcs) in
  lwp (ingest rcs) o (λ _ o1, lwp (ingest rcs') o (λ _ o2,
    ((∀ k a b, a ∈ offers k → b ∈ offers k → vo_voted_at_ms a = vo_voted_at_ms b → a = b) →
     poll_tables (o_db o1) = poll_tables (o_db o2)) ∧
    polls (o_db o1) = polls (o_db o) ∧
    ∀ k, match votes (o_db o1) !! k with
         | Some v => newest vo_voted_at_ms (offers k) v
         | None => offers k = []
         end)).
Proof.
  intros Hf Hp Ha offers. eapply lwp_mono; [by apply lwp_votes|]. intros u1 o1 Ho1.
  eapply lwp_mono; [apply lwp_votes; [by rewrite <- Hp|done]|]. intros u2 o2 Ho2.
  cbv beta in Ho1, Ho2. split.
  - intros Hd. rewrite Ho1, Ho2. f_equal. apply history_perm; [|done].
    unfold casts. by rewrite Hp.
  - rewrite same_tables in Ho1. injection Ho1 as Hps Hvs. split; [done|]. intros k.
    rewrite Hvs. apply history_newest.
Qed.

(** The first create of a poll lands, from any group. When nothing fails, a readable
    create whose poll id is new stores the poll and yields its card. The parent is
    the one the payload names: it need not be the group the rumor came in. *)
Theorem poll_create_lands rumor context env npub o :
  route rumor context = ToPolls → try_parse_vote (ru_content rumor) = None →
  try_parse_create_announce (ru_content rumor) = Some env → npub_of rumor = Some npub →
  polls (o_db o) !! pp_poll_id (pe_payload env) = None → is_Some (st_account (o_db o)) →
  lwp (process_rumor rumor context) o (λ res o',
    res = DashboardPollCreate (card_message (ru_id rumor) (ru_content rumor)
            (extract_millisecond_timestamp rumor) (cx_is_mine context) npub) ∧
    ∃ r, polls (o_db o') !! pp_poll_id (pe_payload env) = Some r ∧
      po_parent_id r = pp_parent_id (pe_payload env) ∧ po_created_by_npub r = npub ∧
      po_announcements_group_id r = cx_conversation_id context).
Proof.
  intros Hr Hv He Hn Hnew Ha. rewrite route_polls by done.
  unfold process_dashboard_poll_rumor, route in *.
  destruct (cx_conversation_type context); [done|]. rewrite Hv, He. lstep. lstep.
  unfold process_poll_create, npub_of in *. lstep. destruct (to_bech32 _) as [x|]; [|done].
  injection Hn as ->. eapply lwp_of_result; [done|]. lstep.
  unfold db_insert_poll_create. lstep. apply lwp_connection; [done|]. lstep. lstep.
  rewrite Hnew. simpl. lstep. lstep. lstep. lstep. apply lwp_emit_tables. intros l. lstep.
  split; [done|]. eexists. split; [apply lookup_insert_eq|done].
Qed.
End history.

(** ** The tally *)

Section counting.
Context {A K : Type} `{EqDecision K} (f : A → K).

Definition tally (l : list A) (k : K) : Z := Z.of_nat (length (filter (λ x, f x = k) l)).

Lemma tally_cons x l k : tally (x :: l) k = tally l k + (if decide (f x = k) then 1 else 0).
Proof.
  unfold tally. destruct (decide (f x = k));
    [rewrite filter_cons_True by done; simpl; lia|rewrite filter_cons_False by done; lia].
Qed.

Lemma sum_single (k : K) ks : NoDup ks →
  foldr Z.add 0 ((λ k', if decide (k = k') then 1 else 0) <$> ks) = if decide (k ∈ ks) then 1 else 0.
Proof.
  induction ks as [|k' ks IH]; intros Hnd; [by rewrite decide_False by set_solver|].
  apply NoDup_cons in Hnd as [Hk Hnd]. rewrite fmap_cons. cbn [foldr]. rewrite IH by done.
  destruct (decide (k = k')) as [->|Hne].
  - rewrite (decide_False (P := k' ∈ ks)), decide_True by set_solver. done.
  - destruct (decide (k ∈ ks)); [rewrite decide_True by set_solver|rewrite decide_False by set_solver]; lia.
Qed.

Lemma sum_plus {B} (g h : B → Z) l :
  foldr Z.add 0 ((λ x, g x + h x) <$> l) = foldr Z.add 0 (g <$> l) + foldr Z.add 0 (h <$> l).
Proof. induction l as [|x l IH]; [done|]. rewrite !fmap_cons. cbn [foldr]. lia. Qed.

(** Over distinct keys that cover a list, the tallies add up to its length. *)
Lemma tally_total ks l : NoDup ks → Forall (λ x, f x ∈ ks) l →
  foldr Z.add 0 (tally l <$> ks) = Z.of_nat (length l).
Proof.
  intros Hnd. induction 1 as [|x l Hx _ IH].
  - clear Hnd. induction ks as [|k ks IHk]; [done|]. rewrite fmap_cons. cbn [foldr]. by rewrite IHk.
  - rewrite (list_fmap_ext _ (λ k, tally l k + (if decide (f x = k) then 1 else 0)))
      by (intros; apply tally_cons).
    rewrite sum_plus, IH, sum_single, decide_True by done. simpl. lia.
Qed.
End counting.

(** The votes of a poll, one per voter. *)
Definition votes_of (d : Db) (poll_id : string) : list ((string * string) * VoteSqlRow) :=
  filter (λ kv, kv.1.1 = poll_id) (map_to_list (votes d)).
Definition votes_for (d : Db) (poll_id : string) : string → Z :=
  tally (λ kv : (string * string) * VoteSqlRow, vo_option_id kv.2) (votes_of d poll_id).

Lemma vote_counts_tally d poll_id oid : default 0 (vote_counts d poll_id !! oid) = votes_for d poll_id oid.
Proof.
  unfold vote_counts, votes_for. fold (votes_of d poll_id).
  induction (votes_of d poll_id) as [|kv l IH]; [done|]. rewrite tally_cons, <- IH. simpl.
  case_decide as Hk; [rewrite Hk, lookup_insert_eq|rewrite lookup_insert_ne by done]; simpl; lia.
Qed.

Section listing.
Context `{SerdeTextLaws} `{SerdeErrors} `{Hashing}.

Definition dto_of (d : Db) (kr : string * PollSqlRow) : DashboardPollDto :=
  poll_dto kr (default [] (options_of (po_options_json kr.2))) (vote_counts d kr.1).

Lemma lwp_list parent o : is_Some (st_account (o_db o)) → polls_ok (poll_tables (o_db o)) →
  lwp (list_dashboard_polls parent) o
    (λ dtos o', o' = o ∧ dtos = dto_of (o_db o) <$> poll_rows (o_db o) parent).
Proof.
  intros Ha [Hok _]. unfold list_dashboard_polls. apply lwp_bind, lwp_connection; [done|].
  lstep. lstep. lstep. lstep.
  assert (Forall (λ kr, is_Some (options_of (po_options_json kr.2))) (poll_rows (o_db o) parent)) as Hrows.
  { apply Forall_forall. intros [id r] (_ & Hr%elem_of_map_to_list)%order_by_ms_elem%list_elem_of_filter.
    destruct (Hok id r Hr) as (_ & _ & opts & Ho & _). by exists opts. }
  pose (I := λ (l : list (string * PollSqlRow)) (out : list DashboardPollDto) (o' : World.Obs Db Effect),
    o' = o ∧ out ++ (dto_of (o_db o) <$> l) = dto_of (o_db o) <$> poll_rows (o_db o) parent ∧
    Forall (λ kr, is_Some (options_of (po_options_json kr.2))) l).
  eapply lwp_mono; [apply (lwp_foldM _ I)|].
  - intros kr l out o' (-> & Hout & [[opts Ho] Hl]%Forall_cons). lstep.
    eapply lwp_of_result; [by rewrite Ho|]. lstep. lstep. lstep. lstep. lstep.
    split; [done|]. split; [|done]. rewrite <- app_assoc, <- Hout. simpl. unfold dto_of. by rewrite Ho.
  - done.
  - intros out o' (-> & Hout & _). split; [done|]. simpl in Hout. by rewrite app_nil_r in Hout.
Qed.

(** The tally is exact. Listing a squad's polls shows every one of them once, its
    options as they were announced, and for each option the number of voters whose vote
    stands at it. When the option ids of a poll are distinct, the counts add
    up to the number of its voters: nobody is counted twice or left out. *)
Theorem tally_exact parent o : is_Some (st_account (o_db o)) → polls_ok (poll_tables (o_db o)) →
  lwp (list_dashboard_polls parent) o (λ dtos o', o' = o ∧
    NoDup (pd_id <$> dtos) ∧
    (∀ id, id ∈ pd_id <$> dtos ↔ ∃ r, polls (o_db o) !! id = Some r ∧ po_parent_id r = parent) ∧
    Forall (λ dto, ∃ r opts, polls (o_db o) !! pd_id dto = Some r ∧
      options_of (po_options_json r) = Some opts ∧
      pd_options dto = (λ x, mkOptionDto (opt_id x) (opt_label x)
                              (votes_for (o_db o) (pd_id dto) (opt_id x))) <$> opts ∧
      (NoDup (opt_id <$> opts) →
       foldr Z.add 0 (od_votes <$> pd_options dto) = Z.of_nat (length (votes_of (o_db o) (pd_id dto)))))
      dtos).
Proof.
  intros Ha Hok. eapply lwp_mono; [by apply lwp_list|]. intros dtos o' [-> ->]. split; [done|].
  assert (pd_id <$> (dto_of (o_db o) <$> poll_rows (o_db o) parent) = (poll_rows (o_db o) parent).*1) as Hids
    by (by rewrite <- list_fmap_compose).
  assert (∀ id r, (id, r) ∈ poll_rows (o_db o) parent ↔
    polls (o_db o) !! id = Some r ∧ po_parent_id r = parent) as Hin.
  { intros id r. unfold poll_rows. rewrite order_by_ms_elem, list_elem_of_filter, elem_of_map_to_list.
    simpl. tauto. }
  split; [|split].
  - rewrite Hids. unfold poll_rows. rewrite (order_by_ms_perm _ _).
    apply (sublist_NoDup _ (map_to_list (polls (o_db o))).*1); [apply NoDup_fst_map_to_list|].
    apply fmap_sublist, sublist_filter.
  - intros id. rewrite Hids, list_elem_of_fmap. split.
    + intros ([id' r] & -> & Hr%Hin). by exists r.
    + intros (r & Hr). exists (id, r). split; [done|]. by apply Hin.
  - apply Forall_fmap, Forall_forall. intros [id r] [Hr Hp]%Hin. simpl.
    destruct (ok_polls _ Hok id r Hr) as (_ & _ & opts & Ho & _). exists r, opts. rewrite Ho. simpl.
    split; [done|]. split; [done|]. split.
    + apply list_fmap_ext. intros _ x _. by rewrite vote_counts_tally.
    + intros Hnd. rewrite <- list_fmap_compose. simpl.
      rewrite <- (tally_total (λ kv : (string * string) * VoteSqlRow, vo_option_id kv.2) (opt_id <$> opts));
        [|done|].
      * rewrite <- list_fmap_compose. f_equal. apply list_fmap_ext. intros _ x _. simpl.
        by rewrite vote_counts_tally.
      * apply Forall_forall. intros [[id' voter] v] [Hid Hv%elem_of_map_to_list]%list_elem_of_filter.
        simpl in *. subst id'. destruct (ok_votes _ Hok id voter v Hv) as (r' & Hr' & Hval).
        change (polls (o_db o) !! id = Some r') in Hr'. simplify_eq.
        unfold option_id_valid_for_poll in Hval. rewrite Ho in Hval.
        apply existsb_exists in Hval as (x & Hx%list_elem_of_In & Hx'%bool_decide_eq_true).
        apply list_elem_of_fmap. by exists x.
Qed.
End listing.

(** ** A squad with a poll *)

#[local] Existing Instance SquadCatalogTheorems.toy_serde_errors.

Definition toy_payload : DashboardPollCreatedPayload :=
  mkPollPayload "g" "p" "Lunch" "" [mkPollOption "a" "Soup"; mkPollOption "b" "Rice"].
Definition toy_polled : Db :=
  set_polls <["p" := poll_row "g" "r0" 1000 "alice" toy_payload]> toy_squad.

Definition toy_vote (id pk oid : string) (at_s : Z) : RumorEvent * RumorContext :=
  (mkRumorEvent id 30078
     (to_text (ser_vote (mkVoteWire "pacto.dashboard_poll.v1" "vote" "g" "p" oid)))
     [["d"; DASHBOARD_POLL_D_TAG]] at_s pk, toy_group).
Definition toy_soup := toy_vote "r1" "bob" "a" 5.
Definition toy_rice := toy_vote "r2" "bob" "b" 6.

Definition toy_made : RumorEvent :=
  mkRumorEvent "r0" 30078
    (to_text (ser_envelope (mkPollEnvelope "dashboard_poll_created" toy_payload)))
    [["d"; DASHBOARD_POLL_D_TAG]] 1 "alice".
Definition other_group : RumorContext := mkRumorContext "alice" false "other" CMlsGroup.

Lemma toy_vote_casts : casts (polls toy_polled) [toy_soup; toy_rice] =
  [Some (("p", "bob"), mkVoteRow "a" "r1" 5000); Some (("p", "bob"), mkVoteRow "b" "r2" 6000)].
Proof. vm_compute. reflexivity. Qed.

Lemma toy_no_votes k : votes toy_polled !! k = None.
Proof. change (votes toy_polled) with (∅ : gmap (string * string) VoteSqlRow). apply lookup_empty. Qed.

Lemma toy_latest v :
  newest vo_voted_at_ms [mkVoteRow "a" "r1" 5000; mkVoteRow "b" "r2" 6000] v → vo_option_id v = "b".
Proof.
  intros (l1 & l2 & He & Hl1 & Hl2). destruct l1 as [|y [|? []]]; simplify_eq/=; [|done].
  apply Forall_inv in Hl2. simpl in Hl2. lia.
Qed.

Lemma votes_converge_witness :
  lwp (ingest [toy_soup; toy_rice]) (toy_obs toy_polled) (λ _ o1,
    lwp (ingest [toy_rice; toy_soup]) (toy_obs toy_polled) (λ _ o2,
      poll_tables (o_db o1) = poll_tables (o_db o2) ∧
      vo_option_id <$> votes (o_db o1) !! ("p", "bob") = Some "b")).
Proof.
  assert (Forall vote_rumor [toy_soup; toy_rice]) as Hf.
  { repeat constructor; try (eexists; vm_compute; reflexivity); vm_compute; reflexivity. }
  eapply lwp_mono; [apply (votes_converge [toy_soup; toy_rice] [toy_rice; toy_soup] (toy_obs toy_polled)
    Hf ltac:(constructor) ltac:(by eexists))|].
  intros u1 o1 H1. eapply lwp_mono; [exact H1|]. intros u2 o2 (Hc & _ & Hk).
  cbn [o_db toy_obs] in Hc, Hk. rewrite toy_vote_casts in Hc, Hk. split.
  - apply Hc. intros k a b. rewrite toy_no_votes.
    clear. unfold offers_for. cbn -[decide elem_of]. case_decide; cbn -[elem_of]; [|by intros []%elem_of_nil].
    intros [->|[->|[]%elem_of_nil]%elem_of_cons]%elem_of_cons [->|[->|[]%elem_of_nil]%elem_of_cons]%elem_of_cons;
      simpl; done.
  - specialize (Hk ("p", "bob")). rewrite toy_no_votes in Hk.
    change (offers_for _ _) with [mkVoteRow "a" "r1" 5000; mkVoteRow "b" "r2" 6000] in Hk.
    destruct (votes (o_db o1) !! ("p", "bob")) as [v|]; [|done]. simpl. f_equal. by apply toy_latest.
Defined.

Lemma toy_polled_ok : polls_ok (poll_tables toy_polled).
Proof.
  split.
  - intros id r Hr. change (pl_polls (poll_tables toy_polled)) with
      (<["p" := poll_row "g" "r0" 1000 "alice" toy_payload]> (∅ : gmap string PollSqlRow)) in Hr.
    apply lookup_insert_Some in Hr as [[<- <-]|[_ Hr]]; [|by apply lookup_empty_Some in Hr].
    split; [vm_compute; reflexivity|]. split; [reflexivity|].
    exists (pp_options toy_payload). split; [apply options_roundtrip|vm_compute; reflexivity].
  - intros id voter v Hv. change (pl_votes (poll_tables toy_polled)) with (votes toy_polled) in Hv.
    by rewrite toy_no_votes in Hv.
Qed.

Lemma tally_exact_witness :
  lwp (list_dashboard_polls "g") (toy_obs toy_polled) (λ dtos _,
    ∃ dto, dto ∈ dtos ∧ pd_id dto = "p").
Proof.
  eapply lwp_mono; [apply (tally_exact "g" (toy_obs toy_polled) ltac:(by eexists) toy_polled_ok)|].
  intros dtos o' (_ & _ & Hids & _).
  assert ("p" ∈ pd_id <$> dtos) as (dto & Hp & Hin)%list_elem_of_fmap
    by (apply Hids; eexists; split; reflexivity).
  by exists dto.
Defined.

(** A member of another group puts a poll on the dashboard of [g]. *)
Lemma poll_create_lands_witness :
  lwp (process_rumor toy_made other_group) (toy_obs toy_squad) (λ _ o',
    ∃ r, polls (o_db o') !! "p" = Some r ∧ po_parent_id r = "g" ∧
      po_announcements_group_id r = "other").
Proof.
  eapply lwp_mono; [eapply (poll_create_lands toy_made other_group
    (mkPollEnvelope "dashboard_poll_created" toy_payload) "alice" (toy_obs toy_squad));
    [vm_compute; reflexivity..|by eexists]|].
  intros res o' (_ & r & Hr & Hp & _ & Hg). by exists r.
Defined.

(** Votes of another member and of the account leave the poll as it was announced. *)
Lemma polls_invariant_witness :
  dwp (run_ops [PIngest toy_soup.1 toy_soup.2; PVote "g" "g" "p" "b"; PList "g"]) (toy_obs toy_polled)
    (λ _ o', polls_ok (poll_tables (o_db o')) ∧
       polls (o_db o') !! "p" = Some (poll_row "g" "r0" 1000 "alice" toy_payload)).
Proof.
  eapply dwp_mono; [apply polls_invariant|]. intros r o' [Hle Hok]. split; [apply Hok, toy_polled_ok|].
  by apply (lookup_weaken (pl_polls (poll_tables toy_polled)) _ "p" _ eq_refl (le_polls _ _ Hle)).
Defined.
